(* ===== verification/_CoqProject ===== *)
-Q . S2P
Prelude.v
CInt.v
CString.v
Kernel.v
Params.v
Sleeplock.v
BufList.v
Bio.v
BioSpec.v
Cache.v
Log.v
LogSpec.v
LogCrash.v
Txn.v
BlockIO.v
Fs.v
FsBlock.v
FsFile.v
FsInode.v
FsRw.v
FsCache.v
FsTrunc.v
FsDir.v
FsPath.v
FsNamex.v
FsThms.v
Kalloc.v
Vm.v
VmSpec.v
VmCopy.v
VmGrow.v
VmThms.v
VmFree.v
Sys.v
Pipe.v
PipeSpec.v
File.v
Proc.v
ProcSpec.v
ProcThms.v
ProcDemo.v
SleepWake.v
Syscall.v
Sysfile.v
Trap.v
ReadCount.v
Stdio.v
Utilities.v
Zip.v
ArrayList.v
MapReduce.v
Qsort.v
MapRun.v
WordCount.v
Seush.v
SeushText.v
SeushSpec.v
Ulib.v
Grep.v
GrepFile.v
Printf.v
Wc.v
Console.v
ConsoleSpec.v
ConsoleInput.v
Umalloc.v
UmallocThms.v
Sh.v
ShGrammar.v
ShRun.v
ShRunSpec.v
Ioapic.v
Kbd.v
Mp.v
Ide.v
IdeThms.v
Mkfs.v
MkfsSpec.v
MkfsThms.v
MkfsBoot.v
