(* ===== verification/Prelude.v ===== *)
(** * Verification of the operating-system labwork

    The repository holds four programs: a variant of the xv6 kernel with its
    user programs and the system call [getreadcount]
    ([src/Xv6-Syscall/src]), four Unix utilities ([src/Unix_Utilities]), a
    shell ([src/Unix_Shell/seush.c]) and a map-reduce library with a word
    counter ([src/Map_Reduce]).  This library translates them to executable
    definitions and proves what makes them correct.

    ** How the code is modelled

    A C integer is a [Z]; [CInt] has the conversions to the widths of the code
    ([u8], [u16], [u32], [s8], [s16], [s32]) and the little-endian codecs.  A
    pointer to an element of a table is its index, a null pointer [None]; a
    pointer into a buffer is an offset in a list of bytes.  An access outside
    of its object is undefined behaviour and an outcome of the model, so that a
    theorem that gives a result excludes it.

    A kernel routine is a function in the monad [K S] of [Kernel]: the state is
    the CPU with its interrupt nesting, the table of held spin locks, the
    sleeping processes and the data [S] of the component; the outcomes are a
    return, [panic], sleeping on a channel, spinning on a held lock, a switch to
    the scheduler, undefined behaviour, and the end of fuel.  [wp] is the
    weakest precondition of a normal return.  A host program runs in the monad
    of [Stdio] on a world of files, input and output.  Threads and devices are
    step relations or sequences of events.

    ** The kernel, bottom up

    - Locks: [Kernel] ([spinlock.c]), [Sleeplock] ([sleeplock.c]).
    - Strings and constants: [CString] ([string.c]), [Params] (the headers).
    - Disk: [Ide], [IdeThms] ([ide.c]) over a class [Ata] of controllers
      with the ATA protocol, errors included, with the instance [vdisk].
      [ide_refines]: requests are served in order and each interrupt ends one,
      with or without success; a failed read leaves stale data marked valid, and
      a write whose data the disk has not asked for never ends.  [ide_memide]:
      for one request without error the driver has the effect of [memide.c], the
      synchronous driver over which the layers above are verified.
    - Buffer cache: [BufList], [Bio], [BioSpec], [Cache] ([bio.c], [memide.c]).
    - Log: [Log], [LogSpec], [LogCrash], [Txn] ([log.c]).
      [commit_crash_atomic]: whatever prefix of the writes of [commit] reaches
      the disk and however often recovery is interrupted, the blocks are all old
      or all new.
    - File system: [BlockIO] is the interface (classes [BlockIO] and
      [BlockIOSpec]) through which [fs.c] uses cache and log, and its instances
      discharge it; [Fs] is [fs.c]; [FsBlock] (block allocation), [FsFile]
      ([bmap]), [FsInode] (inodes on disk), [FsRw] ([readi], [writei]),
      [FsCache] (the inode cache), [FsTrunc] ([itrunc], [iput]), [FsDir]
      (directories), [FsPath] and [FsNamex] (paths) are its parts, [FsThms] the
      theorems: round trips of [writei] and [readi] and of [dirlink] and
      [dirlookup], first-fit allocation, freeing by the last [iput], uniqueness
      of cached inodes, and that [namex] computes [walk].
    - Memory: [Kalloc] ([kalloc.c]), [Vm] ([vm.c]) with [VmSpec], [VmCopy],
      [VmGrow], [VmFree], [VmThms]: page tables live in the pages
      of a byte memory; growing, shrinking, copying out and freeing an address
      space change exactly what they should, errors included.
    - Processes: [Sys] is the state of the whole kernel with [sleep] and
      [wakeup]; [Proc], [ProcSpec], [ProcThms], [ProcDemo] ([proc.c]):
      unique allocation, [wait] and [exit], the scheduler.  [SleepWake] runs
      [sleep] and [wakeup] statement by statement on several CPUs: no wake-up is
      lost in any interleaving.
    - Pipes and files: [Pipe], [PipeSpec] ([pipe.c]; [pipe_fifo] refines a
      pipe to a queue), [File] ([file.c]).
    - System calls: [Syscall] ([syscall.c], [sysproc.c]), [Sysfile]
      ([sysfile.c]), [Trap] ([exec.c], [trap.c]).  [ReadCount] shows that
      [getreadcount] counts the calls of [read] along every history of system
      calls.
    - Devices: [Console], [ConsoleSpec], [ConsoleInput] ([console.c], and
      [uartputc] of [uart.c]): the screen stays inside its memory, [cprintf]
      prints its format, the input refines a line discipline; [Kbd] ([kbd.c],
      [kbd.h], [uart.c]): a line typed is the line read; [Ioapic]
      ([ioapic.c]).
    - Firmware tables: [Mp] ([mp.c], [mp.h]): [mpinit] finds the first
      valid table in the areas it searches and takes over its processors; on an
      entry of unknown type it never ends.

    ** The user programs of xv6

    - [Ulib] ([ulib.c]), [Printf] ([printf.c]): [printf] prints its format,
      [atoi] inverts [printint].
    - [Wc] ([wc.c]): the numbers printed are those of the lines, words and
      characters, whatever pieces the text arrives in.
    - [Umalloc], [UmallocThms] ([umalloc.c]): [malloc] and
      [free] terminate, stay in the heap and never hand out overlapping blocks,
      for blocks below 2 GB; [malloc_too_large] is about larger ones.
    - [Grep], [GrepFile] ([grep.c]): the matcher is equivalent to the language
      of the pattern; grep prints exactly the matching ones of the lines it
      sees, which are all complete lines of a file if they fit its buffer.
    - [Sh], [ShGrammar], [ShRun], [ShRunSpec] ([sh.c]): the parser
      is total and accepts its grammar; a session starts each program with the
      files the line describes and no other descriptor, and no process waits
      with the end of a pipe open.

    ** The programs of the host

    - [Mkfs] ([mkfs.c]), [MkfsSpec] (sectors, inodes and the loop of
      [iappend]), [MkfsThms] (files on the image), [MkfsBoot]: the image
      builder.  For files that fit and do not fill the last block of the root
      directory (there the code sets a wrong size, [mkfs_full_directory]),
      [mkfs_builds]: the image satisfies the invariant of
      the file system and holds the files; [mkfs_boots]: the kernel starts on it
      ([binit], [iinit], [initlog]), and [namei] and [readi] find each file with
      its contents.
    - [Stdio], [Utilities], [Zip] ([Unix_Utilities]): seucat and seugrep print
      what they should; seuunzip inverts seuzip up to the first byte 255.
    - [ArrayList], [MapReduce], [Qsort], [MapRun], [WordCount] ([Map_Reduce]):
      under every interleaving the mapping threads finish with each pair
      stored once, and the word counter prints the right counts.  [qsort] is
      any function that sorts.
    - [Seush], [SeushText], [SeushSpec] ([Unix_Shell/seush.c]): the shell
      refines the shell of its README on the inputs where the two agree and the
      code is clear of its memory errors, which [seush_undefined] lists; one of
      them, an uninitialised pointer, concerns every command.

    ** Fuel and bounds

    Loops over data are structural.  Where the code chases pointers or counts,
    the definition has fuel, and the theorems show that the fuel is enough:
    the scans of the buffer list take at most NBUF + 1 steps; [readi] and
    [writei] make progress by at least one byte an iteration; the loops of
    [vm.c] visit each page of their range once, at most 2 ^ 20; [namex] shortens
    the path; the parser of [sh] needs depth 4 * n + 5 on a line of n
    characters, so 401 for its buffer of 100; [malloc] goes twice around the
    free list; [idewait] is as long as the controller is busy, which [Ata]
    bounds; [iappend] and the loops that read a file take at least one byte a
    round; [mpinit] needs one round more than the table has entries.  The endless
    loops of the scheduler and of the two shells are modelled by one pass and by
    the lines of their input.

    Example inputs ([FsThms], [ProcDemo] and the witnesses behind the theorems)
    show by evaluation that the hypotheses of the theorems can hold.

    ** Not modelled

    - [bootasm.S], [entry.S], [entryother.S], [initcode.S], [swtch.S],
      [trapasm.S], [usys.S], [vectors.pl] and [x86.h] are machine code; what
      the C code relies on of it is part of the monad [K].
    - [bootmain.c], [main.c], [lapic.c], [picirq.c], [tvinit], [idtinit] and
      [seginit] program the hardware in a fixed sequence; nothing in the source
      says what the hardware does in return.  Of [main.c] and [forkret], the
      order in which the file system is set up is [start_fs] of [MkfsBoot].
    - The messages of [panic], its stack trace and [procdump]; the search of
      [mycpu] for the entry of the processor in [cpus].
    - [stat] of [ulib.c], the user programs that only issue a few system calls
      (cat, echo, init, kill, ln, ls, mkdir, rm, zombie), the tests
      (usertests, stressfs, forktest, test_1, test_2) and [loop_print.c].
    - The host on which mkfs runs is a parameter: whether it creates and stores
      the image, and what the files named to mkfs hold. *)

From Stdlib Require Export ssreflect ZArith Lia.
From stdpp Require Export base tactics numbers option strings gmap list.

#[global] Open Scope general_if_scope.
#[global] Open Scope Z_scope.
Coercion Z.of_nat : nat >-> Z.
#[export] Set Default Goal Selector "!".

(** ** Automation shared by every file *)

Create HintDb xv6.

(** Reflect the boolean comparisons of the translated code. *)
Ltac breflect :=
  repeat match goal with
  | H : _ && _ = true |- _ => apply andb_true_iff in H as [? ?]
  | H : _ || _ = false |- _ => apply orb_false_iff in H as [? ?]
  | H : negb _ = true |- _ => apply negb_true_iff in H
  | H : negb _ = false |- _ => apply negb_false_iff in H
  | H : (_ =? _) = true |- _ => apply Z.eqb_eq in H
  | H : (_ =? _) = false |- _ => apply Z.eqb_neq in H
  | H : (_ <? _) = true |- _ => apply Z.ltb_lt in H
  | H : (_ <? _) = false |- _ => apply Z.ltb_ge in H
  | H : (_ <=? _) = true |- _ => apply Z.leb_le in H
  | H : (_ <=? _) = false |- _ => apply Z.leb_gt in H
  end.

(** Case split on the next [if] or [match] of the goal and reflect. *)
Ltac step_if :=
  match goal with
  | |- context [if ?b then _ else _] =>
      lazymatch type of b with
      | bool => destruct b eqn:?; breflect
      | _ => destruct b
      end
  end.

(** Arithmetic after reflecting boolean tests. *)
Ltac blia := breflect; lia.

(** ** Reflexive transitive closure of a step relation *)

Section Star.
Context {A : Type} (R : A → A → Prop).

Inductive star : A → A → Prop :=
| star_refl a : star a a
| star_step a b c : R a b → star b c → star a c.

Lemma star_one a b : R a b → star a b.
Proof. intros. eapply star_step; [done|constructor]. Qed.

Lemma star_trans a b c : star a b → star b c → star a c.
Proof. induction 1; [done|]. intros. eapply star_step; eauto. Qed.

(** An invariant of the steps holds in every reachable state. *)
Lemma star_inv (I : A → Prop) :
  (∀ a b, I a → R a b → I b) → ∀ a b, star a b → I a → I b.
Proof. intros Hstep a b. induction 1; eauto. Qed.
End Star.

#[export] Hint Constructors star : xv6.

(** ** Lists indexed and sliced the way C code does it *)

Section Lists.
Context {A : Type}.
Implicit Types (l k : list A) (i n : nat).

(** [n] elements of [l] from offset [off]. *)
Definition slice (off n : nat) (l : list A) : list A := take n (drop off l).

(** Overwrite [l] from offset [off] with [k]; for [off + length k ≤ length l]. *)
Definition blit (off : nat) (k l : list A) : list A :=
  take off l ++ k ++ drop (off + length k) l.

Lemma length_slice off n l :
  (off + n ≤ length l)%nat → length (slice off n l) = n.
Proof. intros. rewrite /slice length_take length_drop. lia. Qed.

Lemma length_blit off k l :
  (off + length k ≤ length l)%nat → length (blit off k l) = length l.
Proof. intros. rewrite /blit !length_app length_take length_drop. lia. Qed.

Lemma lookup_slice off n l i :
  (i < n)%nat → slice off n l !! i = l !! (off + i)%nat.
Proof. intros. by rewrite /slice lookup_take_lt // lookup_drop. Qed.

Lemma slice_add off m n l : slice off (m + n) l = slice off m l ++ slice (off + m) n l.
Proof. by rewrite /slice -take_take_drop drop_drop. Qed.

Lemma slice_app_l off n l k :
  (off + n ≤ length l)%nat → slice off n (l ++ k) = slice off n l.
Proof. intros. by rewrite /slice drop_app_le ?take_app_le // ?length_drop; lia. Qed.

Lemma slice_app_r off n l k :
  (length l ≤ off)%nat → slice off n (l ++ k) = slice (off - length l) n k.
Proof. intros. by rewrite /slice drop_app_ge. Qed.

Lemma slice_all n l : n = length l → slice 0 n l = l.
Proof. intros ->. by rewrite /slice drop_0 firstn_all. Qed.

Lemma lookup_blit_in off k l i :
  (off ≤ length l)%nat → (off ≤ i < off + length k)%nat →
  blit off k l !! i = k !! (i - off)%nat.
Proof.
  intros. rewrite /blit lookup_app_r; rewrite length_take; [lia|].
  rewrite lookup_app_l; [lia|]. f_equal. lia.
Qed.

Lemma lookup_blit_out off k l i :
  (off + length k ≤ length l)%nat → (i < off ∨ off + length k ≤ i)%nat →
  blit off k l !! i = l !! i.
Proof.
  intros ? [?|?]; rewrite /blit.
  - rewrite lookup_app_l; [rewrite length_take; lia|]. by rewrite lookup_take_lt.
  - rewrite lookup_app_r; rewrite length_take; [lia|].
    rewrite lookup_app_r; [lia|]. rewrite lookup_drop. f_equal. lia.
Qed.

Lemma lookup_blit off k l i :
  (off + length k ≤ length l)%nat →
  blit off k l !! i =
    if decide (off ≤ i < off + length k)%nat then k !! (i - off)%nat else l !! i.
Proof.
  intros. case_decide; [by apply lookup_blit_in; lia|]. apply lookup_blit_out; [lia|]. lia.
Qed.

Lemma slice_blit_same off k l :
  (off + length k ≤ length l)%nat → slice off (length k) (blit off k l) = k.
Proof.
  intros. rewrite /slice /blit drop_app_length'; [rewrite length_take; lia|].
  by rewrite take_app_length.
Qed.

Lemma slice_blit_eq off n k l :
  n = length k → (off + length k ≤ length l)%nat → slice off n (blit off k l) = k.
Proof. intros ->. apply slice_blit_same. Qed.

Lemma slice_blit_before off k l o n :
  (off + length k ≤ length l)%nat → (o + n ≤ off)%nat →
  slice o n (blit off k l) = slice o n l.
Proof.
  intros. apply list_eq. intros i. destruct (decide (i < n)%nat).
  - rewrite !lookup_slice //. rewrite lookup_blit_out //. lia.
  - rewrite !lookup_ge_None_2 // length_slice ?length_blit //; lia.
Qed.

Lemma slice_blit_other off k l o n :
  (off + length k ≤ length l)%nat → (o + n ≤ length l)%nat →
  (o + n ≤ off ∨ off + length k ≤ o)%nat → slice o n (blit off k l) = slice o n l.
Proof.
  intros. apply list_eq. intros i. destruct (decide (i < n)%nat).
  - rewrite !lookup_slice // lookup_blit_out //. lia.
  - rewrite !lookup_ge_None_2 // length_slice ?length_blit //; lia.
Qed.

Lemma slice_blit_after off k l o n :
  (off + length k ≤ length l)%nat → (off + length k ≤ o)%nat →
  slice o n (blit off k l) = slice o n l.
Proof.
  intros. apply list_eq. intros i. destruct (decide (i < n)%nat).
  - rewrite !lookup_slice //. rewrite lookup_blit_out //. lia.
  - rewrite /slice !lookup_ge_None_2 // length_take; lia.
Qed.

Lemma blit_slice_id off n l :
  (off + n ≤ length l)%nat → blit off (slice off n l) l = l.
Proof.
  intros. rewrite /blit length_slice // /slice.
  rewrite -{4}(take_drop off l). f_equal.
  by rewrite -(drop_drop l n off) take_drop.
Qed.
End Lists.

Lemma Forall_slice {A} (P : A → Prop) off n l : Forall P l → Forall P (slice off n l).
Proof. intros. rewrite /slice. by apply Forall_take, Forall_drop. Qed.

Lemma Forall_blit {A} (P : A → Prop) off k l :
  Forall P k → Forall P l → Forall P (blit off k l).
Proof.
  intros. rewrite /blit !Forall_app. auto using Forall_take, Forall_drop.
Qed.

#[export] Hint Resolve Forall_slice Forall_blit : xv6.

(** ** Finite sets *)

Lemma size_union_le `{Countable A} (X Y : gset A) : (size (X ∪ Y) ≤ size X + size Y)%nat.
Proof.
  rewrite size_union_alt. pose proof (subseteq_size (Y ∖ X) Y ltac:(set_solver)). lia.
Qed.
