(* ===== verification/CInt.v ===== *)
(** * Machine integers of the C code and their little-endian memory images

    A C integer is a [Z]; the width is written out at every place where the
    code stores into a variable of that width.  [u8], [u16], [u32] are the
    conversions to [uchar], [ushort] and [uint]; [s8], [s16] and [s32] those to
    [char] (signed on x86), [short] and [int]. *)

From S2P Require Import Prelude.

Definition u8 (z : Z) : Z := z mod 2 ^ 8.
Definition u16 (z : Z) : Z := z mod 2 ^ 16.
Definition u32 (z : Z) : Z := z mod 2 ^ 32.

Definition sext (w z : Z) : Z :=
  let u := z mod 2 ^ w in if u <? 2 ^ (w - 1) then u else u - 2 ^ w.

Definition s8 : Z → Z := sext 8.
Definition s16 : Z → Z := sext 16.
Definition s32 : Z → Z := sext 32.

Definition is_byte (b : Z) : Prop := 0 ≤ b < 256.
Definition is_u32 (z : Z) : Prop := 0 ≤ z < 2 ^ 32.

#[global] Instance is_byte_dec b : Decision (is_byte b).
Proof. unfold is_byte. apply _. Defined.

(** Little-endian image of [z] in [n] bytes, and the value of an image. *)
Fixpoint le_bytes (n : nat) (z : Z) : list Z :=
  match n with
  | O => []
  | S n => z mod 256 :: le_bytes n (z / 256)
  end.

Fixpoint le_val (l : list Z) : Z :=
  match l with
  | [] => 0
  | b :: l => b + 256 * le_val l
  end.

Lemma u32_small z : is_u32 z → u32 z = z.
Proof. apply Z.mod_small. Qed.

Lemma u32_range z : is_u32 (u32 z).
Proof. apply Z.mod_pos_bound. lia. Qed.

Lemma u16_small z : 0 ≤ z < 2 ^ 16 → u16 z = z.
Proof. apply Z.mod_small. Qed.

Lemma u8_small z : is_byte z → u8 z = z.
Proof. apply Z.mod_small. Qed.

Lemma u8_range z : is_byte (u8 z).
Proof. by apply Z.mod_pos_bound. Qed.

Lemma sext_small w z : 0 < w → - 2 ^ (w - 1) ≤ z < 2 ^ (w - 1) → sext w z = z.
Proof.
  intros Hw Hz. assert (2 ^ w = 2 * 2 ^ (w - 1)) as Hp.
  { rewrite -Z.pow_succ_r; [lia|]. f_equal. lia. }
  rewrite /sext. destruct (decide (0 ≤ z)).
  - rewrite Z.mod_small; [lia|]. by rewrite (proj2 (Z.ltb_lt _ _)); [lia|].
  - rewrite -(Z.mod_add z 1 (2 ^ w)); [lia|]. rewrite Z.mod_small; [lia|].
    rewrite (proj2 (Z.ltb_ge _ _)); lia.
Qed.

Lemma s32_small z : - 2 ^ 31 ≤ z < 2 ^ 31 → s32 z = z.
Proof. by apply (sext_small 32). Qed.

(** Signed arithmetic modulo [2 ^ 32]. *)
Lemma s32_range z : - 2 ^ 31 ≤ s32 z < 2 ^ 31.
Proof.
  rewrite /s32 /sext. pose proof (Z.mod_pos_bound z (2 ^ 32) ltac:(done)).
  destruct (_ <? _) eqn:E; [apply Z.ltb_lt in E|apply Z.ltb_ge in E]; change (2 ^ (32 - 1)) with (2 ^ 31) in E; lia.
Qed.

Lemma s32_add_l a b : s32 (s32 a + b) = s32 (a + b).
Proof.
  assert (s32 a mod 2 ^ 32 = a mod 2 ^ 32) as Ha.
  { rewrite /s32 /sext. destruct (_ <? _); [by rewrite Zmod_mod|]. by rewrite Zminus_mod Z_mod_same_full Z.sub_0_r !Zmod_mod. }
  rewrite {1 3}/s32 /sext. by rewrite Zplus_mod Ha -Zplus_mod.
Qed.

Lemma length_le_bytes n z : length (le_bytes n z) = n.
Proof. revert z. induction n; simpl; congruence. Qed.

Lemma le_bytes_bytes n z : Forall is_byte (le_bytes n z).
Proof.
  revert z. induction n; simpl; intros; constructor; [|done].
  apply Z.mod_pos_bound. lia.
Qed.

Lemma pow_256_S (n : nat) : 256 ^ S n = 256 * 256 ^ n.
Proof. rewrite Nat2Z.inj_succ Z.pow_succ_r; lia. Qed.

Lemma le_val_bytes (n : nat) z : le_val (le_bytes n z) = z mod 256 ^ n.
Proof.
  revert z. induction n as [|n IH]; intros z; [by rewrite Z.mod_1_r|].
  cbn [le_bytes le_val]. rewrite IH pow_256_S Z.rem_mul_r; lia.
Qed.

Lemma le_bytes_val l : Forall is_byte l → le_bytes (length l) (le_val l) = l.
Proof.
  induction 1 as [|b l Hb _ IH]; [done|]. cbn [length le_bytes le_val]. f_equal.
  - rewrite Z.mul_comm Z.mod_add; [lia|]. by apply Z.mod_small.
  - rewrite Z.mul_comm Z.div_add; [lia|]. rewrite Z.div_small // Z.add_0_l //.
Qed.

Lemma le_val_range l : Forall is_byte l → 0 ≤ le_val l < 256 ^ length l.
Proof.
  induction 1 as [|b l Hb _ IH]; [done|]. cbn [length le_val].
  rewrite pow_256_S. unfold is_byte in *. lia.
Qed.

Lemma le_val_bytes_id (n : nat) z : 0 ≤ z < 256 ^ n → le_val (le_bytes n z) = z.
Proof. intros. rewrite le_val_bytes. by apply Z.mod_small. Qed.

(** ** Single bits *)

Lemma land_mask y k : 0 ≤ k → (Z.land y (Z.shiftl 1 k) =? 0) = negb (Z.testbit y k).
Proof.
  intros Hk. rewrite Z.shiftl_1_l. destruct (Z.testbit y k) eqn:E.
  - apply Z.eqb_neq. intros H0. apply (f_equal (λ z, Z.testbit z k)) in H0.
    rewrite Z.land_spec E Z.pow2_bits_true // Z.bits_0 in H0. done.
  - apply Z.eqb_eq, Z.bits_inj'. intros j Hj. rewrite Z.land_spec Z.bits_0.
    destruct (decide (j = k)) as [->|]; [by rewrite E|].
    rewrite Z.pow2_bits_false; [lia|]. by rewrite andb_false_r.
Qed.

Lemma lor_mask_testbit y k j : 0 ≤ k → 0 ≤ j →
  Z.testbit (Z.lor y (Z.shiftl 1 k)) j = if decide (j = k) then true else Z.testbit y j.
Proof.
  intros Hk Hj. rewrite Z.lor_spec Z.shiftl_1_l. case_decide as E.
  - subst. rewrite Z.pow2_bits_true // orb_true_r //.
  - rewrite Z.pow2_bits_false; [lia|]. by rewrite orb_false_r.
Qed.

Lemma clear_mask_testbit y k j : 0 ≤ k → 0 ≤ j →
  Z.testbit (Z.land y (Z.lnot (Z.shiftl 1 k))) j = if decide (j = k) then false else Z.testbit y j.
Proof.
  intros Hk Hj. rewrite Z.land_spec Z.lnot_spec // Z.shiftl_1_l. case_decide as E.
  - subst. rewrite Z.pow2_bits_true // andb_false_r //.
  - rewrite Z.pow2_bits_false; [lia|]. by rewrite andb_true_r.
Qed.

Lemma u8_testbit y j : 0 ≤ j < 8 → Z.testbit (u8 y) j = Z.testbit y j.
Proof. intros. rewrite /u8. apply Z.mod_pow2_bits_low. lia. Qed.

(** Flags added to an aligned address. *)
Lemma lor_add n a f : 0 ≤ n → a mod 2 ^ n = 0 → 0 ≤ f < 2 ^ n → Z.lor a f = a + f.
Proof.
  intros Hn Ha Hf. rewrite Z.add_nocarry_lxor; [|symmetry; apply Z.lxor_lor].
  all: apply Z.bits_inj'; intros j Hj; rewrite Z.land_spec Z.bits_0;
    destruct (decide (j < n)) as [Hlt|Hge].
  1,3: rewrite -(Z.mod_pow2_bits_low a n j) // Ha Z.bits_0 //.
  all: rewrite -(Z.mod_small f (2 ^ n)) // Z.mod_pow2_bits_high ?andb_false_r //; lia.
Qed.

Lemma land_lnot_ones n a : 0 ≤ n → Z.land a (Z.lnot (Z.ones n)) = a - a mod 2 ^ n.
Proof.
  intros Hn. rewrite -Z.ldiff_land Z.ldiff_ones_r // Z.shiftl_mul_pow2 // Z.shiftr_div_pow2 //.
  pose proof (Z.div_mod a (2 ^ n)) as H. rewrite Z.mul_comm. lia.
Qed.

#[export] Hint Resolve u32_range u8_range le_bytes_bytes : xv6.
