(* ===== verification/CString.v ===== *)
(** * String and memory routines: [src/Xv6-Syscall/src/string.c]

    Memory is a list of bytes and an address an index in it.  Routines that only
    read take the memory from their pointers on; an access outside of memory is
    undefined and gives [None]. *)

From S2P Require Import Prelude CInt.

Definition mem := list Z.

Definition store (m : mem) (a : nat) (v : Z) : option mem :=
  if decide (a < length m)%nat then Some (<[a := u8 v]> m) else None.

(** ** Routines that write *)

(** [stosb] and [stosl] of x86.h. *)
Fixpoint stosb (m : mem) (a : nat) (c : Z) (n : nat) : option mem :=
  match n with
  | O => Some m
  | S n => m ← store m a c; stosb m (S a) c n
  end.

Definition store32 (m : mem) (a : nat) (v : Z) : option mem :=
  foldl (λ om iv, om ≫= λ m, store m (a + iv.1) iv.2) (Some m)
        (zip (seq 0 4) (le_bytes 4 (u32 v))).

Fixpoint stosl (m : mem) (a : nat) (v : Z) (n : nat) : option mem :=
  match n with
  | O => Some m
  | S n => m ← store32 m a v; stosl m (a + 4) v n
  end.

Definition memset (m : mem) (dst : nat) (c : Z) (n : nat) : option mem :=
  if ((Z.of_nat dst mod 4 =? 0) && (Z.of_nat n mod 4 =? 0))%bool then
    let c := Z.land c 255 in
    stosl m dst (Z.lor (Z.lor (Z.lor (Z.shiftl c 24) (Z.shiftl c 16)) (Z.shiftl c 8)) c) (n / 4)
  else stosb m dst c n.

(** The two loops of [memmove]: from the end down, and from the start up. *)
Fixpoint move_down (m : mem) (d s : nat) (n : nat) : option mem :=
  match n with
  | O => Some m
  | S n => v ← m !! (s + n)%nat; m ← store m (d + n) v; move_down m d s n
  end.

Fixpoint move_up (m : mem) (d s : nat) (n : nat) : option mem :=
  match n with
  | O => Some m
  | S n => v ← m !! s; m ← store m d v; move_up m (S d) (S s) n
  end.

Definition memmove (m : mem) (d s : nat) (n : nat) : option mem :=
  if decide (s < d ∧ d < s + n)%nat then move_down m d s n else move_up m d s n.

(** The copy loop of [strncpy]; the second component is the count and the
    address at which it stops. *)
Fixpoint copy_str (m : mem) (s t : nat) (n : nat) : option (mem * nat * nat) :=
  match n with
  | O => Some (m, s, O)
  | S n => v ← m !! t; m ← store m s v;
           if u8 v =? 0 then Some (m, S s, n) else copy_str m (S s) (S t) n
  end.

Definition strncpy (m : mem) (s t : nat) (n : Z) : option mem :=
  '(m, s, k) ← copy_str m s t (Z.to_nat n); stosb m s 0 k.

Fixpoint safestr_loop (m : mem) (s t : nat) (k : nat) : option mem :=
  match k with
  | O => store m s 0
  | S k => v ← m !! t; m ← store m s v;
           if u8 v =? 0 then store m (S s) 0 else safestr_loop m (S s) (S t) k
  end.

Definition safestrcpy (m : mem) (s t : nat) (n : Z) : option mem :=
  if n <=? 0 then Some m else safestr_loop m s t (Z.to_nat (n - 1)).

(** ** Routines that read *)

Fixpoint memcmp (v1 v2 : list Z) (n : nat) : option Z :=
  match n with
  | O => Some 0
  | S n => match v1, v2 with
           | a :: v1, b :: v2 => if a =? b then memcmp v1 v2 n else Some (a - b)
           | _, _ => None
           end
  end.

Fixpoint strncmp (p q : list Z) (n : nat) : option Z :=
  match n with
  | O => Some 0
  | S n => match p, q with
           | a :: p, b :: q =>
               if negb (a =? 0) && (a =? b) then strncmp p q n else Some (a - b)
           | _, _ => None
           end
  end.

Fixpoint strlen (s : list Z) : option Z :=
  match s with
  | [] => None
  | a :: s => if a =? 0 then Some 0 else n ← strlen s; Some (n + 1)
  end.

(** ** Writing routines as updates of a range *)

Lemma store_Some m a v : (a < length m)%nat → store m a v = Some (<[a := u8 v]> m).
Proof. intros. rewrite /store. by rewrite decide_True. Qed.

Lemma blit_nil (m : mem) a : blit a [] m = m.
Proof. rewrite /blit /= Nat.add_0_r. apply take_drop. Qed.

Lemma blit_cons (m : mem) a v k :
  (a + S (length k) ≤ length m)%nat → blit a (v :: k) m = blit (S a) k (<[a := v]> m).
Proof.
  intros Hl. apply list_eq. intros i. rewrite !lookup_blit ?length_insert /=; [lia|lia|].
  destruct (decide (i = a)) as [->|Hi].
  - rewrite decide_True; [lia|]. rewrite decide_False; [lia|].
    rewrite Nat.sub_diag list_lookup_insert_eq //. lia.
  - rewrite list_lookup_insert_ne //.
    repeat case_decide; try lia; [|done]. by replace (i - a)%nat with (S (i - S a)) by lia.
Qed.

Lemma stosb_spec m a c n :
  (a + n ≤ length m)%nat → stosb m a c n = Some (blit a (replicate n (u8 c)) m).
Proof.
  revert m a. induction n as [|n IH]; intros m a Hl; simpl; [by rewrite blit_nil|].
  rewrite store_Some /=; [lia|]. rewrite IH; [rewrite length_insert; lia|].
  rewrite blit_cons // length_replicate. lia.
Qed.

Lemma u8_idemp v : u8 (u8 v) = u8 v.
Proof. rewrite /u8. by rewrite Z.mod_mod. Qed.

Lemma store_bytes_spec m a l :
  Forall is_byte l → (a + length l ≤ length m)%nat →
  foldl (λ om iv, om ≫= λ m, store m (a + iv.1) iv.2) (Some m) (zip (seq 0 (length l)) l)
  = Some (blit a l m).
Proof.
  intros Hb. cut (∀ k, (a + k + length l ≤ length m)%nat →
    foldl (λ om iv, om ≫= λ m, store m (a + iv.1) iv.2) (Some m) (zip (seq k (length l)) l)
    = Some (blit (a + k) l m)).
  { intros H Hl. rewrite H; [lia|]. by rewrite Nat.add_0_r. }
  revert m. induction l as [|v l IH]; intros m k Hl; simpl in *; [by rewrite blit_nil|].
  apply Forall_cons in Hb as [Hv Hb]. rewrite store_Some; [lia|].
  rewrite IH; [done|rewrite length_insert; lia|]. rewrite u8_small //.
  rewrite (blit_cons _ (a + k)); [lia|]. by rewrite Nat.add_succ_r.
Qed.

Lemma store32_spec m a v :
  (a + 4 ≤ length m)%nat → store32 m a v = Some (blit a (le_bytes 4 (u32 v)) m).
Proof. intros. by apply (store_bytes_spec m a (le_bytes 4 (u32 v))); [apply le_bytes_bytes|]. Qed.

Lemma blit_app (m : mem) a k1 k2 :
  (a + length k1 + length k2 ≤ length m)%nat →
  blit a (k1 ++ k2) m = blit (a + length k1) k2 (blit a k1 m).
Proof.
  revert m a. induction k1 as [|v k1 IH]; intros m a Hl; simpl in *.
  - by rewrite blit_nil Nat.add_0_r.
  - rewrite !blit_cons; [rewrite length_app; lia|lia|].
    rewrite IH; [rewrite length_insert; lia|]. by rewrite Nat.add_succ_r.
Qed.

Lemma stosl_spec m a v n :
  (a + 4 * n ≤ length m)%nat →
  stosl m a v n = Some (blit a (concat (replicate n (le_bytes 4 (u32 v)))) m).
Proof.
  revert m a. induction n as [|n IH]; intros m a Hl; cbn [stosl replicate concat]; [by rewrite blit_nil|].
  assert (length (concat (replicate n (le_bytes 4 (u32 v)))) = 4 * n)%nat as Hlc.
  { clear. induction n as [|n IH]; [done|]. cbn [replicate concat].
    rewrite length_app length_le_bytes IH. lia. }
  rewrite store32_spec; [lia|]. cbn [mbind option_bind]. rewrite IH.
  - rewrite length_blit; [rewrite length_le_bytes; lia|lia].
  - rewrite blit_app; [rewrite length_le_bytes Hlc; lia|]. by rewrite length_le_bytes.
Qed.

(** The word [memset] builds holds the byte four times. *)
Lemma memset_word x :
  is_byte x →
  le_bytes 4 (u32 (Z.lor (Z.lor (Z.lor (Z.shiftl x 24) (Z.shiftl x 16)) (Z.shiftl x 8)) x))
  = replicate 4 x.
Proof.
  intros Hx.
  set (word x := Z.lor (Z.lor (Z.lor (Z.shiftl x 24) (Z.shiftl x 16)) (Z.shiftl x 8)) x).
  assert (forallb (λ k, bool_decide (le_bytes 4 (u32 (word (Z.of_nat k))) =
    replicate 4 (Z.of_nat k))) (seq 0 256) = true) as H by by vm_compute.
  rewrite forallb_forall in H. rewrite /is_byte in Hx.
  specialize (H (Z.to_nat x)). rewrite Z2Nat.id in H; [lia|].
  apply bool_decide_eq_true in H; [done|]. apply in_seq. lia.
Qed.

Lemma concat_replicate4 n (x : Z) : concat (replicate n (replicate 4 x)) = replicate (4 * n) x.
Proof.
  induction n as [|n IH]; [done|]. cbn [replicate concat app]. rewrite IH.
  by replace (4 * S n)%nat with (S (S (S (S (4 * n))))) by lia.
Qed.

(** Both branches of [memset] fill the range. *)
Lemma memset_spec m dst c n :
  (dst + n ≤ length m)%nat → memset m dst c n = Some (blit dst (replicate n (u8 c)) m).
Proof.
  intros Hl. rewrite /memset. destruct (_ && _) eqn:E; [|by apply stosb_spec].
  apply andb_true_iff in E as [_ E%Z.eqb_eq].
  assert (n = 4 * (n / 4))%nat as Hn.
  { apply Nat.Div0.div_exact. rewrite -(Nat2Z.id (n mod 4)) Nat2Z.inj_mod. by rewrite E. }
  rewrite stosl_spec; [lia|]. do 2 f_equal.
  rewrite (_ : Z.land c 255 = u8 c); [by apply (Z.land_ones c 8)|].
  rewrite memset_word; [apply u8_range|]. rewrite concat_replicate4. f_equal. lia.
Qed.

(** ** [memmove] *)

Lemma move_up_spec m d s n :
  Forall is_byte m → (d + n ≤ length m)%nat → (s + n ≤ length m)%nat → ¬ (s < d < s + n)%nat →
  ∃ r, move_up m d s n = Some r ∧ length r = length m ∧
    ∀ i, r !! i = if decide (d ≤ i < d + n)%nat then m !! (s + (i - d))%nat else m !! i.
Proof.
  revert m d s. induction n as [|n IH]; intros m d s Hm Hd Hs Hov; cbn [move_up].
  { exists m. split_and!; [done|done|]. intros i. rewrite decide_False; [lia|done]. }
  destruct (lookup_lt_is_Some_2 m s) as [v Hv]; [lia|]. rewrite Hv /=.
  rewrite store_Some; [lia|]. cbn [mbind option_bind].
  assert (is_byte v) by (by eapply (Forall_lookup_1 _ _ _ _ Hm)). rewrite u8_small //.
  destruct (IH (<[d := v]> m) (S d) (S s)) as (r&Hr&Hlr&Hi).
  { by apply Forall_insert. } { rewrite length_insert. lia. } { rewrite length_insert. lia. } { lia. }
  exists r. split_and!; [done|by rewrite Hlr length_insert|]. intros i. rewrite Hi.
  destruct (decide (i = d)) as [->|].
  - rewrite decide_False; [lia|]. rewrite decide_True; [lia|].
    rewrite list_lookup_insert_eq; [lia|]. by rewrite Nat.sub_diag Nat.add_0_r Hv.
  - repeat case_decide; try lia.
    + rewrite list_lookup_insert_ne; [lia|]. f_equal. lia.
    + by rewrite list_lookup_insert_ne.
Qed.

Lemma move_down_spec m d s n :
  Forall is_byte m → (d + n ≤ length m)%nat → (s + n ≤ length m)%nat → (s < d)%nat →
  ∃ r, move_down m d s n = Some r ∧ length r = length m ∧
    ∀ i, r !! i = if decide (d ≤ i < d + n)%nat then m !! (s + (i - d))%nat else m !! i.
Proof.
  revert m. induction n as [|n IH]; intros m Hm Hd Hs Hov; cbn [move_down].
  { exists m. split_and!; [done|done|]. intros i. rewrite decide_False; [lia|done]. }
  destruct (lookup_lt_is_Some_2 m (s + n)) as [v Hv]; [lia|]. rewrite Hv /=.
  rewrite store_Some; [lia|]. cbn [mbind option_bind].
  assert (is_byte v) by (by eapply (Forall_lookup_1 _ _ _ _ Hm)). rewrite u8_small //.
  destruct (IH (<[d + n := v]> m)%nat) as (r&Hr&Hlr&Hi).
  { by apply Forall_insert. } { rewrite length_insert. lia. } { rewrite length_insert. lia. } { lia. }
  exists r. split_and!; [done|by rewrite Hlr length_insert|]. intros i. rewrite Hi.
  destruct (decide (i = d + n)%nat) as [->|].
  - rewrite decide_False; [lia|]. rewrite decide_True; [lia|].
    rewrite list_lookup_insert_eq; [lia|]. rewrite -Hv. f_equal. lia.
  - repeat case_decide; try lia.
    + rewrite list_lookup_insert_ne; [lia|]. done.
    + by rewrite list_lookup_insert_ne.
Qed.

(** [memmove] copies the source range as it was before the call, whether or not
    the ranges overlap. *)
Lemma memmove_blit m d s n :
  Forall is_byte m → (d + n ≤ length m)%nat → (s + n ≤ length m)%nat →
  memmove m d s n = Some (blit d (slice s n m) m).
Proof.
  intros Hm Hd Hs.
  assert (∃ r, memmove m d s n = Some r ∧ length r = length m ∧
    ∀ i, r !! i = if decide (d ≤ i < d + n)%nat then m !! (s + (i - d))%nat else m !! i)
    as (r&->&_&Hi).
  { rewrite /memmove. case_decide; [apply move_down_spec|apply move_up_spec]; auto; lia. }
  f_equal. apply list_eq. intros i.
  assert (length (slice s n m) = n) as Hls by by apply length_slice.
  rewrite Hi lookup_blit Hls //. case_decide; [|done]. rewrite lookup_slice //. lia.
Qed.

(** ** Strings *)

(** The string at a pointer, cut after [n] characters. *)
Fixpoint cprefix (n : nat) (l : list Z) : list Z :=
  match n, l with
  | S n, a :: l => if a =? 0 then [] else a :: cprefix n l
  | _, _ => []
  end.

(** Reading at most [n] characters stays inside of memory. *)
Definition cstr_ok (n : nat) (l : list Z) : Prop := (n ≤ length l)%nat ∨ 0 ∈ take n l.

Lemma cstr_ok_cons n a l : a ≠ 0 → cstr_ok (S n) (a :: l) → cstr_ok n l.
Proof. intros Ha [?|?]; [left; simpl in *; lia|right]. simpl in *. set_solver. Qed.

Lemma cstr_ok_nil n : ¬ cstr_ok (S n) [].
Proof. intros [?|?]; simpl in *; [lia|set_solver]. Qed.

Lemma cprefix_length n l : (length (cprefix n l) ≤ n)%nat.
Proof.
  revert l. induction n as [|n IH]; intros [|a l]; simpl; try lia.
  destruct (a =? 0); simpl; [lia|]. specialize (IH l). lia.
Qed.

Lemma cprefix_nonzero n l : 0 ∉ cprefix n l.
Proof.
  revert l. induction n as [|n IH]; intros [|a l]; simpl; try set_solver.
  destruct (a =? 0) eqn:E; [set_solver|]. apply Z.eqb_neq in E.
  apply not_elem_of_cons. split; [done|apply IH].
Qed.

(** A string followed by NUL, or by nothing when it fills the field. *)
Lemma cprefix_app n l k :
  0 ∉ l → (length l ≤ n)%nat → (k = [] ∨ length l = n ∨ k !! 0%nat = Some 0) →
  cprefix n (l ++ k) = l.
Proof.
  revert n. induction l as [|a l IH]; intros n H0 Hl Hk; simpl in *.
  - destruct n as [|n], k as [|b k]; simpl; try done.
    destruct Hk as [?|[?|[= ->]]]; [done|lia|done].
  - destruct n as [|n]; [lia|]. apply not_elem_of_cons in H0 as [Ha H0]. simpl.
    rewrite (proj2 (Z.eqb_neq a 0)); [done|]. f_equal. apply IH; [done|lia|].
    destruct Hk as [?|[?|?]]; auto.
Qed.

Lemma strncmp_total p q n :
  cstr_ok n p → cstr_ok n q → ∃ r, strncmp p q n = Some r ∧ (r = 0 ↔ cprefix n p = cprefix n q).
Proof.
  revert p q. induction n as [|n IH]; intros p q Hp Hq; simpl; [exists 0; by destruct p, q|].
  destruct p as [|a p]; [by apply cstr_ok_nil in Hp|].
  destruct q as [|b q]; [by apply cstr_ok_nil in Hq|].
  destruct (a =? 0) eqn:Ea; simpl; breflect.
  - subst a. eexists. split; [done|]. destruct (b =? 0) eqn:Eb; breflect; [subst; done|].
    split; [lia|done].
  - rewrite (proj2 (Z.eqb_neq a 0) Ea) /=. destruct (a =? b) eqn:Eab; breflect.
    + subst b. rewrite (proj2 (Z.eqb_neq a 0) Ea).
      destruct (IH p q) as (r&Hr&Hiff); [by eapply cstr_ok_cons..|].
      exists r. split; [done|]. rewrite Hiff. split; [by intros ->|by intros [=]].
    + eexists. split; [done|]. destruct (b =? 0) eqn:Eb; breflect; split; try lia; try done.
      by intros [=].
Qed.

Lemma strlen_spec l : 0 ∈ l → strlen l = Some (Z.of_nat (length (cprefix (length l) l))).
Proof.
  induction l as [|a l IH]; [set_solver|]. intros Hin. cbn [strlen cprefix length].
  destruct (a =? 0) eqn:E; breflect; [done|]. rewrite IH; [set_solver|]. simpl. f_equal. lia.
Qed.

(** The bytes [strncpy] leaves in an [n]-byte field. *)
Definition strncpy_bytes (t : list Z) (n : nat) : list Z :=
  cprefix n t ++ replicate (n - length (cprefix n t)) 0.

Lemma length_strncpy_bytes t n : length (strncpy_bytes t n) = n.
Proof. rewrite length_app length_replicate. pose proof (cprefix_length n t). lia. Qed.

Lemma cprefix_strncpy t n : cprefix n (strncpy_bytes t n) = cprefix n t.
Proof.
  rewrite /strncpy_bytes. pose proof (cprefix_length n t).
  apply cprefix_app; [apply cprefix_nonzero|done|].
  destruct (n - _)%nat eqn:E; [by left|right; right; done].
Qed.

Lemma cprefix_take n l : cprefix n (take n l) = cprefix n l.
Proof.
  revert l. induction n as [|n IH]; intros [|a l]; simpl; try done. by rewrite IH.
Qed.

Lemma slice_insert_out (m : mem) s v o n :
  (s < o ∨ o + n ≤ s)%nat → slice o n (<[s := v]> m) = slice o n m.
Proof.
  intros Hs. apply list_eq. intros i. rewrite /slice. destruct (decide (i < n)%nat).
  - rewrite !lookup_take_lt // !lookup_drop list_lookup_insert_ne //. lia.
  - rewrite !lookup_take_ge //; lia.
Qed.

(** Source and destination do not overlap. *)
Definition apart (s t n : nat) : Prop := (s + n ≤ t ∨ t + n ≤ s)%nat.

(** The terminator, when the copy loop reaches it. *)
Definition cterm (n : nat) (p : list Z) : list Z :=
  if decide (length p < n)%nat then [0] else [].

Lemma cterm_S n a p : cterm (S n) (a :: p) = cterm n p.
Proof. rewrite /cterm /=. repeat case_decide; try lia; done. Qed.

Lemma slice_S (m : mem) t n v : m !! t = Some v → slice t (S n) m = v :: slice (S t) n m.
Proof. intros Hv. by rewrite /slice (drop_S _ _ _ Hv). Qed.

Lemma cstr_ok_lookup m t n : cstr_ok (S n) (slice t (S n) m) → ∃ v, m !! t = Some v.
Proof.
  intros Hok. destruct (m !! t) as [v|] eqn:E; [by exists v|].
  apply lookup_ge_None in E. rewrite /slice drop_ge // take_nil in Hok.
  by apply cstr_ok_nil in Hok.
Qed.

Lemma copy_str_spec m s t n :
  Forall is_byte m → (s + n ≤ length m)%nat → apart s t n → cstr_ok n (slice t n m) →
  let p := cprefix n (slice t n m) in
  let w := p ++ cterm n p in
  copy_str m s t n = Some (blit s w m, s + length w, n - length w)%nat.
Proof.
  revert m s t. induction n as [|n IH]; intros m s t Hm Hs Hap Hok; cbv zeta.
  { by rewrite /= blit_nil Nat.add_0_r. }
  cbn [copy_str]. destruct (cstr_ok_lookup _ _ _ Hok) as [v Hv].
  assert (is_byte v) as Hb by (by eapply (Forall_lookup_1 _ _ _ _ Hm)).
  rewrite Hv (slice_S _ _ _ _ Hv) in Hok |- *. cbn [mbind option_bind cprefix].
  rewrite store_Some; [lia|]. rewrite u8_small //. cbn [mbind option_bind].
  destruct (v =? 0) eqn:E; breflect.
  - subst v. rewrite /cterm /=. rewrite blit_cons /=; [lia|].
    rewrite blit_nil. repeat f_equal; lia.
  - assert (slice (S t) n (<[s := v]> m) = slice (S t) n m) as Hsl.
    { apply slice_insert_out. destruct Hap; lia. }
    rewrite IH.
    + by apply Forall_insert.
    + rewrite length_insert. lia.
    + destruct Hap; [left|right]; lia.
    + rewrite Hsl. by eapply cstr_ok_cons.
    + rewrite Hsl cterm_S /=. set (w := cprefix n _ ++ _).
      assert (length w ≤ n)%nat.
      { rewrite /w length_app /cterm. pose proof (cprefix_length n (slice (S t) n m)).
        case_decide; simpl; lia. }
      rewrite blit_cons; [lia|]. repeat f_equal; lia.
Qed.

(** [strncpy] fills the field with the string and NULs. *)
Lemma strncpy_spec m s t n :
  Forall is_byte m → (s + n ≤ length m)%nat → apart s t n → cstr_ok n (slice t n m) →
  strncpy m s t (Z.of_nat n) = Some (blit s (strncpy_bytes (slice t n m) n) m).
Proof.
  intros Hm Hs Hap Hok. rewrite /strncpy Nat2Z.id copy_str_spec //. cbn [mbind option_bind].
  set (p := cprefix n (slice t n m)). set (w := p ++ cterm n p).
  assert (length w ≤ n)%nat as Hw.
  { rewrite /w length_app /cterm. pose proof (cprefix_length n (slice t n m)) as Hp.
    rewrite -/p in Hp. case_decide; simpl; lia. }
  rewrite stosb_spec; [rewrite length_blit; lia|]. f_equal.
  rewrite -blit_app; [rewrite length_replicate; lia|]. f_equal.
  rewrite /w /strncpy_bytes -/p -app_assoc. f_equal. rewrite /w /cterm.
  case_decide; rewrite length_app /=.
  - replace (n - length p)%nat with (S (n - (length p + 1))) by lia. done.
  - by rewrite Nat.add_0_r.
Qed.

Lemma safestr_loop_spec m s t k :
  Forall is_byte m → (s + S k ≤ length m)%nat → apart s t (S k) → cstr_ok k (slice t k m) →
  let p := cprefix k (slice t k m) in
  safestr_loop m s t k = Some (blit s (p ++ cterm k p ++ [0]) m).
Proof.
  revert m s t. induction k as [|k IH]; intros m s t Hm Hs Hap Hok; cbv zeta.
  { rewrite /= store_Some; [lia|]. rewrite blit_cons /=; [lia|]. by rewrite blit_nil. }
  cbn [safestr_loop]. destruct (cstr_ok_lookup _ _ _ Hok) as [v Hv].
  assert (is_byte v) as Hb by (by eapply (Forall_lookup_1 _ _ _ _ Hm)).
  rewrite Hv (slice_S _ _ _ _ Hv) in Hok |- *. cbn [mbind option_bind cprefix].
  rewrite store_Some; [lia|]. rewrite u8_small //. cbn [mbind option_bind].
  destruct (v =? 0) eqn:E; breflect.
  - subst v. rewrite /cterm /= store_Some; [rewrite length_insert; lia|].
    rewrite !blit_cons /= ?length_insert; [lia|lia|]. by rewrite blit_nil.
  - assert (slice (S t) k (<[s := v]> m) = slice (S t) k m) as Hsl.
    { apply slice_insert_out. destruct Hap; lia. }
    rewrite IH.
    + by apply Forall_insert.
    + rewrite length_insert. lia.
    + destruct Hap; [left|right]; lia.
    + rewrite Hsl. by eapply cstr_ok_cons.
    + rewrite Hsl cterm_S /=. rewrite blit_cons; [|done].
      rewrite !length_app /= /cterm. pose proof (cprefix_length k (slice (S t) k m)).
      case_decide; simpl; lia.
Qed.

(** [safestrcpy] always leaves a NUL-terminated string that fits the field,
    the source cut to [n - 1] characters, and writes nothing else. *)
Lemma safestrcpy_spec m s t n :
  Forall is_byte m → (0 < n)%nat → (s + n ≤ length m)%nat → apart s t n →
  cstr_ok (n - 1) (slice t (n - 1) m) →
  ∃ m', safestrcpy m s t (Z.of_nat n) = Some m' ∧ length m' = length m ∧
    cprefix n (slice s n m') = cprefix (n - 1) (slice t (n - 1) m) ∧
    ∀ i, ¬ (s ≤ i < s + n)%nat → m' !! i = m !! i.
Proof.
  intros Hm Hn Hs Hap Hok. rewrite /safestrcpy. destruct (Z.leb_spec (Z.of_nat n) 0); [lia|].
  replace (Z.to_nat (Z.of_nat n - 1)) with (n - 1)%nat by lia.
  rewrite safestr_loop_spec //; [lia|by replace (S (n - 1)) with n by lia|].
  set (p := cprefix (n - 1) _). set (w := p ++ cterm (n - 1) p ++ [0]).
  assert (length p ≤ n - 1)%nat by apply cprefix_length.
  assert (length w ≤ n)%nat.
  { rewrite /w !length_app /cterm. case_decide; simpl; lia. }
  eexists. split; [done|]. split; [apply length_blit; lia|]. split.
  - rewrite (_ : slice s n (blit s w m) = w ++ slice (s + length w) (n - length w) m).
    { rewrite /slice /blit drop_app_length'; [rewrite length_take; lia|].
      rewrite take_app_ge; [lia|]. done. }
    rewrite /w -!app_assoc. apply cprefix_app; [apply cprefix_nonzero|lia|].
    rewrite /cterm. case_decide; by right; right.
  - intros i Hi. apply lookup_blit_out; lia.
Qed.

(** ** Examples *)

(** Overlapping ranges, in both directions. *)
Lemma memmove_blit_witness :
  memmove [1; 2; 3; 4; 5] 1 0 3 = Some [1; 1; 2; 3; 5].
Proof.
  rewrite (memmove_blit [1; 2; 3; 4; 5] 1 0 3); [|simpl; lia|simpl; lia|reflexivity].
  apply (bool_decide_unpack _). by vm_compute.
Defined.

(** The string [ab] does not fit into two characters. *)
Lemma safestrcpy_spec_witness :
  ∃ m', safestrcpy [9; 9; 97; 98; 0] 0 2 2 = Some m' ∧ cprefix 2 (slice 0 2 m') = [97].
Proof.
  destruct (safestrcpy_spec [9; 9; 97; 98; 0] 0 2 2) as (m'&E&_&Hp&_).
  - apply (bool_decide_unpack _). by vm_compute.
  - lia.
  - simpl; lia.
  - left. lia.
  - left. simpl. lia.
  - exists m'. split; [exact E|exact Hp].
Defined.
