(* ===== verification/Kernel.v ===== *)
(** * Kernel threads: the effect monad, spin locks and interrupt nesting

    Models [src/Xv6-Syscall/src/spinlock.c] and the part of [proc.c] every
    kernel component relies on ([wakeup]).

    A kernel routine is a function [K S A] from the machine state a thread sees
    to an [outcome].  The state holds the record of the executing CPU
    ([struct cpu]), the table of held spin locks, the processes asleep on a
    channel, and the component's own data [S].  The outcomes are a normal
    return, [panic], going to sleep on a channel, spinning on a lock of another
    CPU, the switch to the scheduler, undefined behaviour (a null or out-of-range access), and a pointer
    chase that did not end within its fuel.  A routine
    that sleeps tests its condition again from the top of its loop when it is
    woken, so [Sleep] ends the model's run of it. *)

From S2P Require Import Prelude.

(** Sleep locks: one per buffer and one per cached inode. *)
Inductive sleepid := SBuf (i : nat) | SInode (i : nat).

(** Spin locks of the kernel; a sleep lock contains one. *)
Inductive lockid :=
| Lkmem | Lptable | Lbcache | Llog | Licache | Lftable | Ltickslock | Lcons
| Lread_count | Lide | Lpipe (p : Z) | Lsleep (sl : sleepid).

(** Sleep channels: the addresses passed to [sleep] and [wakeup]. *)
Inductive chan :=
| CLog | CTicks | CInput | CProc (i : nat) | CBuf (i : nat) | CSleep (sl : sleepid)
| CPipeR (p : Z) | CPipeW (p : Z).

#[global] Instance sleepid_eq_dec : EqDecision sleepid.
Proof. solve_decision. Defined.
#[global] Instance lockid_eq_dec : EqDecision lockid.
Proof. solve_decision. Defined.
#[global] Instance chan_eq_dec : EqDecision chan.
Proof. solve_decision. Defined.

Definition sleepid_code (s : sleepid) : bool * nat :=
  match s with SBuf i => (true, i) | SInode i => (false, i) end.

Definition lockid_code (l : lockid) : nat * Z * (bool * nat) :=
  match l with
  | Lkmem => (0%nat, 0, (false, 0%nat)) | Lptable => (1%nat, 0, (false, 0%nat))
  | Lbcache => (2%nat, 0, (false, 0%nat)) | Llog => (3%nat, 0, (false, 0%nat))
  | Licache => (4%nat, 0, (false, 0%nat)) | Lftable => (5%nat, 0, (false, 0%nat))
  | Ltickslock => (6%nat, 0, (false, 0%nat)) | Lcons => (7%nat, 0, (false, 0%nat))
  | Lread_count => (8%nat, 0, (false, 0%nat)) | Lide => (9%nat, 0, (false, 0%nat))
  | Lpipe p => (10%nat, p, (false, 0%nat))
  | Lsleep s => (11%nat, 0, sleepid_code s)
  end.

#[global] Instance lockid_code_inj : Inj (=) (=) lockid_code.
Proof. intros [] []; simpl; try congruence; destruct sl, sl0; simpl; congruence. Qed.

#[global] Instance lockid_countable : Countable lockid.
Proof.
  apply (inj_countable lockid_code (λ x, match x with
    | (0%nat, _, _) => Some Lkmem | (1%nat, _, _) => Some Lptable
    | (2%nat, _, _) => Some Lbcache | (3%nat, _, _) => Some Llog
    | (4%nat, _, _) => Some Licache | (5%nat, _, _) => Some Lftable
    | (6%nat, _, _) => Some Ltickslock | (7%nat, _, _) => Some Lcons
    | (8%nat, _, _) => Some Lread_count | (9%nat, _, _) => Some Lide
    | (10%nat, p, _) => Some (Lpipe p)
    | (11%nat, _, (true, i)) => Some (Lsleep (SBuf i))
    | (11%nat, _, (false, i)) => Some (Lsleep (SInode i))
    | _ => None end)).
  by intros [| | | | | | | | | | |[]].
Defined.

(** The fields of [struct cpu] the kernel logic uses, with the interrupt flag
    of its EFLAGS register and the pid of the process it runs. *)
Record cpu := Cpu {
  apicid : Z;
  eif : bool;
  ncli : Z;
  intena : bool;
  cproc : option Z
}.

(** [klocks] maps a held spin lock to the CPU that holds it ([lk->locked] and
    [lk->cpu]); [kslp] maps the pid of a SLEEPING process to its channel. *)
Record kst (S : Type) := Kst {
  kcpu : cpu;
  klocks : gmap lockid Z;
  kslp : gmap Z chan;
  kdata : S
}.
Arguments Kst {S} _ _ _ _.
Arguments kcpu {S} _.
Arguments klocks {S} _.
Arguments kslp {S} _.
Arguments kdata {S} _.

Inductive outcome (T A : Type) :=
| Ret (a : A) (σ : T)
| Panic (msg : string) (σ : T)
| Sleep (ch : chan) (lk : lockid) (σ : T)
| Spin (lk : lockid) (σ : T)
| Switch (σ : T)
| Undef
| NoFuel.
Arguments Ret {T A} _ _.
Arguments Panic {T A} _ _.
Arguments Sleep {T A} _ _ _.
Arguments Spin {T A} _ _.
Arguments Switch {T A} _.
Arguments Undef {T A}.
Arguments NoFuel {T A}.

Definition K (S A : Type) : Type := kst S → outcome (kst S) A.

#[global] Instance K_ret S : MRet (K S) := λ A a σ, Ret a σ.
#[global] Instance K_bind S : MBind (K S) := λ A B f m σ,
  match m σ with
  | Ret a σ' => f a σ'
  | Panic msg σ' => Panic msg σ'
  | Sleep ch lk σ' => Sleep ch lk σ'
  | Spin lk σ' => Spin lk σ'
  | Switch σ' => Switch σ'
  | Undef => Undef
  | NoFuel => NoFuel
  end.

Section Ops.
Context {S : Type}.

Definition set_cpu (c : cpu) (σ : kst S) : kst S := Kst c (klocks σ) (kslp σ) (kdata σ).
Definition set_locks (L : gmap lockid Z) (σ : kst S) : kst S :=
  Kst (kcpu σ) L (kslp σ) (kdata σ).
Definition set_slp (w : gmap Z chan) (σ : kst S) : kst S :=
  Kst (kcpu σ) (klocks σ) w (kdata σ).
Definition set_data (d : S) (σ : kst S) : kst S := Kst (kcpu σ) (klocks σ) (kslp σ) d.

Definition panic {A} (msg : string) : K S A := λ σ, Panic msg σ.
Definition undef {A} : K S A := λ σ, Undef.
Definition nofuel {A} : K S A := λ σ, NoFuel.
Definition gets {A} (f : S → A) : K S A := λ σ, Ret (f (kdata σ)) σ.
Definition modify (f : S → S) : K S unit := λ σ, Ret tt (set_data (f (kdata σ)) σ).

(** An access that is undefined behaviour when [o] is [None]. *)
Definition deref {A} (o : option A) : K S A :=
  match o with Some a => mret a | None => undef end.

(** [sleep(chan, lk)]: the thread gives up the CPU. *)
Definition sleep {A} (ch : chan) (lk : lockid) : K S A := λ σ, Sleep ch lk σ.

(** [mycpu()] with interrupts off: the record of the executing CPU, which the
    state carries.  The search of [cpus[]] for the record whose [apicid] is
    [lapicid()] is not modelled. *)
Definition mycpu : K S cpu := λ σ,
  if eif (kcpu σ) then Panic "mycpu called with interrupts enabled" σ
  else Ret (kcpu σ) σ.

Definition myproc_pid : K S Z := λ σ,
  match cproc (kcpu σ) with Some p => Ret p σ | None => Undef end.

Definition cli (c : cpu) : cpu := Cpu (apicid c) false (ncli c) (intena c) (cproc c).
Definition sti (c : cpu) : cpu := Cpu (apicid c) true (ncli c) (intena c) (cproc c).
Definition set_ncli (n : Z) (c : cpu) : cpu := Cpu (apicid c) (eif c) n (intena c) (cproc c).
Definition set_intena (b : bool) (c : cpu) : cpu :=
  Cpu (apicid c) (eif c) (ncli c) b (cproc c).

Definition readeflags_if : K S bool := λ σ, Ret (eif (kcpu σ)) σ.
Definition put_cpu (c : cpu) : K S unit := λ σ, Ret tt (set_cpu c σ).
Definition lock_at (lk : lockid) : K S (option Z) := λ σ, Ret (klocks σ !! lk) σ.
Definition mod_locks (f : gmap lockid Z → gmap lockid Z) : K S unit := λ σ,
  Ret tt (set_locks (f (klocks σ)) σ).

Definition do_cli : K S unit := λ σ, Ret tt (set_cpu (cli (kcpu σ)) σ).

Definition pushcli : K S unit :=
  eflags ← readeflags_if;
  do_cli;;
  c ← mycpu;
  let c := if ncli c =? 0 then set_intena eflags c else c in
  put_cpu (set_ncli (ncli c + 1) c).

Definition popcli : K S unit :=
  eflags ← readeflags_if;
  if (eflags : bool) then panic "popcli - interruptible" else
  c ← mycpu;
  let c := set_ncli (ncli c - 1) c in
  put_cpu c;;
  if ncli c <? 0 then panic "popcli" else
  put_cpu (if (ncli c =? 0) && intena c then sti c else c).

Definition holding (lk : lockid) : K S bool :=
  pushcli;;
  c ← mycpu;
  o ← lock_at lk;
  popcli;;
  mret (bool_decide (o = Some (apicid c))).

(** The [xchg] loop: it ends at once when the lock is free, and never when
    another CPU keeps it. *)
Definition xchg_loop (lk : lockid) : K S unit := λ σ,
  match klocks σ !! lk with None => Ret tt σ | Some _ => Spin lk σ end.

Definition acquire (lk : lockid) : K S unit :=
  pushcli;;
  h ← holding lk;
  if (h : bool) then panic "acquire" else
  xchg_loop lk;;
  c ← mycpu;
  mod_locks (insert lk (apicid c)).

Definition release (lk : lockid) : K S unit :=
  h ← holding lk;
  if (h : bool) then mod_locks (delete lk);; popcli else panic "release".

Definition initlock (lk : lockid) : K S unit := mod_locks (delete lk).

(** [wakeup(chan)] of proc.c: with ptable.lock held, no process sleeps on
    [chan] any more. *)
Definition mod_slp (f : gmap Z chan → gmap Z chan) : K S unit := λ σ,
  Ret tt (set_slp (f (kslp σ)) σ).

Definition wakeup (ch : chan) : K S unit :=
  acquire Lptable;;
  mod_slp (filter (λ kv, kv.2 ≠ ch));;
  release Lptable.

(** [for] loops over a fixed range: run to the end, or until the body exits. *)
Fixpoint for_each {B} (l : list B) (f : B → K S unit) : K S unit :=
  match l with
  | [] => mret ()
  | b :: l => f b;; for_each l f
  end.

Fixpoint for_find {A B} (l : list B) (f : B → K S (option A)) : K S (option A) :=
  match l with
  | [] => mret None
  | b :: l => r ← f b; match r with Some a => mret (Some a) | None => for_find l f end
  end.
End Ops.

(** Run a routine of a component inside a larger state. *)
Definition zoom {S T A} (get : S → T) (put : T → S → S) (m : K T A) : K S A := λ σ,
  let back (τ : kst T) := Kst (kcpu τ) (klocks τ) (kslp τ) (put (kdata τ) (kdata σ)) in
  match m (Kst (kcpu σ) (klocks σ) (kslp σ) (get (kdata σ))) with
  | Ret a τ => Ret a (back τ)
  | Panic msg τ => Panic msg (back τ)
  | Sleep ch lk τ => Sleep ch lk (back τ)
  | Spin lk τ => Spin lk (back τ)
  | Switch τ => Switch (back τ)
  | Undef => Undef
  | NoFuel => NoFuel
  end.

(** ** Total correctness: the routine returns, and the result satisfies [Q] *)

Definition wp {S A} (m : K S A) (Q : A → kst S → Prop) (σ : kst S) : Prop :=
  match m σ with Ret a σ' => Q a σ' | _ => False end.

Section Wp.
Context {S : Type}.
Implicit Types σ : kst S.

Lemma wp_ret {A} (a : A) Q σ : Q a σ → wp (mret a : K S A) Q σ.
Proof. done. Qed.

Lemma wp_bind {A B} (m : K S A) (f : A → K S B) Q σ :
  wp m (λ a σ', wp (f a) Q σ') σ → wp (m ≫= f) Q σ.
Proof. rewrite /wp /mbind /K_bind. by destruct (m σ). Qed.

Lemma wp_mono {A} (m : K S A) (P Q : A → kst S → Prop) σ :
  wp m P σ → (∀ a σ', P a σ' → Q a σ') → wp m Q σ.
Proof. rewrite /wp. destruct (m σ); naive_solver. Qed.

Lemma wp_eq {A} (m : K S A) a σ' Q σ : m σ = Ret a σ' → Q a σ' → wp m Q σ.
Proof. rewrite /wp. by intros ->. Qed.

Lemma wp_inv {A} (m : K S A) Q σ : wp m Q σ → ∃ a σ', m σ = Ret a σ' ∧ Q a σ'.
Proof. rewrite /wp. destruct (m σ); naive_solver. Qed.

Lemma wp_gets {A} (f : S → A) Q σ : Q (f (kdata σ)) σ → wp (gets f) Q σ.
Proof. done. Qed.

Lemma wp_modify (f : S → S) Q σ :
  Q tt (set_data (f (kdata σ)) σ) → wp (modify f) Q σ.
Proof. done. Qed.

Lemma wp_deref {A} (o : option A) a Q σ : o = Some a → Q a σ → wp (deref o) Q σ.
Proof. by intros ->. Qed.

Lemma bind_ret {A B} (m : K S A) (f : A → K S B) σ a σ' :
  m σ = Ret a σ' → (m ≫= f) σ = f a σ'.
Proof. rewrite /mbind /K_bind. by intros ->. Qed.

Lemma bind_panic {A B} (m : K S A) (f : A → K S B) σ msg σ' :
  m σ = Panic msg σ' → (m ≫= f) σ = Panic msg σ'.
Proof. rewrite /mbind /K_bind. by intros ->. Qed.

Lemma wp_zoom {T A} (get : S → T) (put : T → S → S) (m : K T A) Q σ :
  wp m (λ a τ, Q a (Kst (kcpu τ) (klocks τ) (kslp τ) (put (kdata τ) (kdata σ))))
       (Kst (kcpu σ) (klocks σ) (kslp σ) (get (kdata σ))) →
  wp (zoom get put m) Q σ.
Proof. rewrite /wp /zoom. by destruct (m _). Qed.

(** Invariant rule of a [for] loop that runs to the end. *)
Lemma wp_for_each {B} (l : list B) f (I : list B → kst S → Prop) Q σ :
  I l σ →
  (∀ b k σ', (∃ p, l = p ++ b :: k) → I (b :: k) σ' → wp (f b) (λ _, I k) σ') →
  (∀ σ', I [] σ' → Q tt σ') →
  wp (for_each l f) Q σ.
Proof.
  intros HI Hf HQ.
  cut (∀ k p σ', l = p ++ k → I k σ' → wp (for_each k f) Q σ').
  { intros H. by apply (H l []). }
  clear σ HI. intros k. induction k as [|b k IH]; intros p σ' Hl HI; simpl.
  - apply wp_ret. auto.
  - apply wp_bind. eapply wp_mono; [apply Hf; eauto|]. simpl. intros _ σ'' HI'.
    apply (IH (p ++ [b])); [|done]. by rewrite -app_assoc.
Qed.

(** A counting loop [for (i = 0; i < n; i++)]. *)
Lemma wp_for_seq n f (I : nat → kst S → Prop) Q σ :
  I 0%nat σ →
  (∀ t σ', (t < n)%nat → I t σ' → wp (f t) (λ _, I (Datatypes.S t)) σ') →
  (∀ σ', I n σ' → Q tt σ') →
  wp (for_each (seq 0 n) f) Q σ.
Proof.
  intros HI Hf HQ.
  apply (wp_for_each _ _ (λ l σ', ∃ t, (t ≤ n)%nat ∧ l = seq t (n - t) ∧ I t σ')).
  - exists 0%nat. rewrite Nat.sub_0_r. split_and!; [lia|done|done].
  - intros b k σ' _ (t&Ht&Hl&HIt). destruct (n - t)%nat as [|m] eqn:Hm; [done|].
    injection Hl as -> ->. eapply wp_mono; [apply Hf; [lia|done]|].
    simpl. intros _ σ'' HI'. exists (Datatypes.S t). split_and!; [lia| |done]. f_equal. lia.
  - intros σ' (t&Ht&Hl&HIt). apply HQ. destruct (n - t)%nat eqn:Hm; [|done].
    by replace n with t by lia.
Qed.

(** Invariant rule of a search loop. *)
Lemma wp_for_find {A B} (l : list B) (f : B → K S (option A)) (I : list B → kst S → Prop) Q σ :
  I l σ →
  (∀ b k σ', (∃ p, l = p ++ b :: k) → I (b :: k) σ' →
     wp (f b) (λ r σ'', match r with Some a => Q (Some a) σ'' | None => I k σ'' end) σ') →
  (∀ σ', I [] σ' → Q None σ') →
  wp (for_find l f) Q σ.
Proof.
  intros HI Hf HQ.
  cut (∀ k p σ', l = p ++ k → I k σ' → wp (for_find k f) Q σ').
  { intros H. by apply (H l []). }
  clear σ HI. intros k. induction k as [|b k IH]; intros p σ' Hl HI; simpl.
  - apply wp_ret. auto.
  - apply wp_bind. eapply wp_mono; [apply Hf; eauto|]. simpl. intros [a|] σ'' HI'; [done|].
    apply (IH (p ++ [b])); [|done]. by rewrite -app_assoc.
Qed.

Lemma wp_find_seq {A B} n (g : nat → B) (f : B → K S (option A)) (I : nat → kst S → Prop) Q σ :
  I 0%nat σ →
  (∀ t σ', (t < n)%nat → I t σ' → wp (f (g t))
     (λ r σ'', match r with Some a => Q (Some a) σ'' | None => I (Datatypes.S t) σ'' end) σ') →
  (∀ σ', I n σ' → Q None σ') →
  wp (for_find (g <$> seq 0 n) f) Q σ.
Proof.
  intros HI Hf HQ.
  apply (wp_for_find _ _ (λ l σ', ∃ t, (t ≤ n)%nat ∧ l = g <$> seq t (n - t) ∧ I t σ')).
  - exists 0%nat. rewrite Nat.sub_0_r. split_and!; [lia|done|done].
  - intros b k σ' _ (t&Ht&Hl&HIt). destruct (n - t)%nat as [|m] eqn:Hm; [done|].
    injection Hl as -> ->. eapply wp_mono; [apply Hf; [lia|done]|].
    simpl. intros [a|] σ'' HI'; [done|]. exists (Datatypes.S t). split_and!; [lia| |done].
    do 2 f_equal. lia.
  - intros σ' (t&Ht&Hl&HIt). apply HQ. destruct (n - t)%nat eqn:Hm; [|done].
    by replace n with t by lia.
Qed.
End Wp.

(** ** Interrupt nesting and locks *)

(** The CPU state is consistent: [ncli] counts the enclosing [pushcli]s, which
    keep interrupts off, and outside them [intena] agrees with the flag. *)
Definition cpu_ok (c : cpu) : Prop :=
  0 ≤ ncli c ∧ (0 < ncli c → eif c = false) ∧ (ncli c = 0 → intena c = eif c).

(** The state a [pushcli] leads to. *)
Definition pushed (c : cpu) : cpu :=
  Cpu (apicid c) false (ncli c + 1) (if ncli c =? 0 then eif c else intena c) (cproc c).

Lemma pushed_ok c : cpu_ok c → cpu_ok (pushed c).
Proof. intros (?&?&?). split_and!; simpl; [lia|done|lia]. Qed.

#[export] Hint Resolve pushed_ok : xv6.

Section LockSpecs.
Context {S : Type}.
Implicit Types (c : cpu) (L : gmap lockid Z) (w : gmap Z chan) (d : S).

Lemma pushcli_run c L w d : pushcli (Kst c L w d) = Ret tt (Kst (pushed c) L w d).
Proof.
  rewrite /pushcli /mbind /K_bind /mycpu /set_cpu /= /pushed.
  by destruct (ncli c =? 0).
Qed.

Lemma popcli_run c L w d :
  cpu_ok c → popcli (Kst (pushed c) L w d) = Ret tt (Kst c L w d).
Proof.
  intros (Hn&Hpos&Hz).
  rewrite /popcli /mbind /K_bind /mycpu /set_cpu /=.
  rewrite /put_cpu /set_cpu /=. rewrite (proj2 (Z.ltb_ge _ _)); [lia|]. rewrite /sti /set_ncli /set_cpu /pushed /=.
  replace (ncli c + 1 - 1) with (ncli c) by lia.
  rewrite /put_cpu /set_cpu /=.
  destruct (ncli c =? 0) eqn:E; breflect; destruct c as [a e n i p]; simpl in *.
  - subst n. rewrite Hz //. by destruct e.
  - rewrite Hpos //. lia.
Qed.

Lemma holding_run lk c L w d :
  cpu_ok c →
  holding lk (Kst c L w d) =
    Ret (bool_decide (L !! lk = Some (apicid c))) (Kst c L w d).
Proof.
  intros Hc. rewrite /holding (bind_ret _ _ _ _ _ (pushcli_run c L w d)).
  rewrite /mycpu {1}/mbind /K_bind /=. rewrite {1}/mbind /K_bind /=.
  by rewrite (bind_ret _ _ _ _ _ (popcli_run c L w d Hc)).
Qed.

Lemma acquire_run lk c L w d :
  cpu_ok c → L !! lk = None →
  acquire lk (Kst c L w d) =
    Ret tt (Kst (pushed c) (<[lk := apicid c]> L) w d).
Proof.
  intros Hc HL. rewrite /acquire (bind_ret _ _ _ _ _ (pushcli_run c L w d)).
  rewrite (bind_ret _ _ _ _ _ (holding_run lk _ L w d (pushed_ok c Hc))).
  rewrite bool_decide_eq_false_2 ?HL // /mbind /K_bind /xchg_loop /= HL //.
Qed.

Lemma acquire_deadlock lk c L w d :
  cpu_ok c → L !! lk = Some (apicid c) →
  acquire lk (Kst c L w d) = Panic "acquire" (Kst (pushed c) L w d).
Proof.
  intros Hc HL. rewrite /acquire (bind_ret _ _ _ _ _ (pushcli_run c L w d)).
  rewrite (bind_ret _ _ _ _ _ (holding_run lk _ L w d (pushed_ok c Hc))).
  by rewrite bool_decide_eq_true_2.
Qed.

Lemma release_run lk c L w d :
  cpu_ok c → L !! lk = Some (apicid c) →
  release lk (Kst (pushed c) L w d) = Ret tt (Kst c (delete lk L) w d).
Proof.
  intros Hc HL. rewrite /release (bind_ret _ _ _ _ _ (holding_run lk _ L w d (pushed_ok c Hc))).
  rewrite bool_decide_eq_true_2 // {1}/mbind /K_bind /= /set_locks /=.
  by rewrite popcli_run.
Qed.

Lemma wakeup_run ch c L w d :
  cpu_ok c → L !! Lptable = None →
  wakeup ch (Kst c L w d) = Ret tt (Kst c L (filter (λ kv, kv.2 ≠ ch) w) d).
Proof.
  intros Hc HL. rewrite /wakeup (bind_ret _ _ _ _ _ (acquire_run _ _ _ _ _ Hc HL)).
  rewrite {1}/mbind /K_bind /= /set_slp /=.
  rewrite release_run ?lookup_insert_eq //. by rewrite delete_insert_id.
Qed.

Lemma wp_acquire lk c L w d Q :
  cpu_ok c → L !! lk = None →
  Q tt (Kst (pushed c) (<[lk := apicid c]> L) w d) → wp (acquire lk) Q (Kst c L w d).
Proof. intros. eapply wp_eq; [by apply acquire_run|done]. Qed.

Lemma wp_release lk c L w d Q :
  cpu_ok c → L !! lk = Some (apicid c) →
  Q tt (Kst c (delete lk L) w d) → wp (release lk) Q (Kst (pushed c) L w d).
Proof. intros. eapply wp_eq; [by apply release_run|done]. Qed.

(** Releasing the lock taken last gives the lock table back. *)
Lemma wp_release_last lk c L w d Q :
  cpu_ok c → L !! lk = None →
  Q tt (Kst c L w d) → wp (release lk) Q (Kst (pushed c) (<[lk := apicid c]> L) w d).
Proof.
  intros. apply wp_release; [done|by rewrite lookup_insert_eq|]. by rewrite delete_insert_id.
Qed.

Lemma wp_wakeup ch c L w d Q :
  cpu_ok c → L !! Lptable = None →
  Q tt (Kst c L (filter (λ kv, kv.2 ≠ ch) w) d) → wp (wakeup ch) Q (Kst c L w d).
Proof. intros. eapply wp_eq; [by apply wakeup_run|done]. Qed.

(** [initlock] at boot, when no lock is held. *)
Lemma wp_initlock lk c w d Q :
  Q tt (Kst c ∅ w d) → wp (initlock lk) Q (Kst c ∅ w d).
Proof.
  intros HQ. apply (wp_eq _ tt (Kst c (delete lk ∅) w d)); [reflexivity|].
  by rewrite delete_empty.
Qed.

Lemma wp_myproc_pid c L w d pid Q :
  cproc c = Some pid → Q pid (Kst c L w d) → wp myproc_pid Q (Kst c L w d).
Proof. intros H. by rewrite /wp /myproc_pid /= H. Qed.
End LockSpecs.

(** Normalise projections and updates of the machine state only. *)
Ltac kst_simpl := cbv beta iota delta [set_data set_cpu set_locks set_slp kcpu klocks kslp kdata].

(** Run the next primitive of a routine whose state is a record. *)
Ltac kstep_prim :=
  lazymatch goal with
  | |- wp (mbind _ _) _ _ => apply wp_bind; kstep_prim
  | |- wp (gets _) _ _ => apply wp_gets; kst_simpl
  | |- wp (modify _) _ _ => apply wp_modify; kst_simpl
  | |- wp (mret _) _ _ => apply wp_ret
  | |- wp (acquire _) _ _ => apply wp_acquire; [by eauto with xv6| by simplify_map_eq |]
  | |- wp (release _) _ (Kst _ (<[_ := _]> _) _ _) =>
      apply wp_release_last; [by eauto with xv6| by simplify_map_eq |]
  | |- wp (release _) _ _ => apply wp_release; [by eauto with xv6| by simplify_map_eq |]
  | |- wp (wakeup _) _ _ => apply wp_wakeup; [by eauto with xv6| by simplify_map_eq |]
  | |- wp myproc_pid _ _ => eapply wp_myproc_pid; [simpl; eassumption|]
  | |- wp (deref (Some _)) _ _ => apply wp_ret
  | |- wp (deref _) _ _ => eapply wp_deref; [eassumption|]
  end.
Ltac kstep := kstep_prim; cbv beta.
