(* ===== verification/Params.v ===== *)
(** * Constants and macros of the kernel headers

    [param.h], [fs.h], [stat.h], [buf.h], [fcntl.h], [mmu.h], [memlayout.h]
    and [traps.h] of [src/Xv6-Syscall/src]. *)

From S2P Require Import Prelude CInt.

(** ** param.h *)
Definition NPROC : nat := 64.
Definition KSTACKSIZE : Z := 4096.
Definition NCPU : nat := 8.
Definition NOFILE : nat := 16.
Definition NFILE : nat := 100.
Definition NINODE : nat := 50.
Definition NDEV : Z := 10.
Definition ROOTDEV : Z := 1.
Definition MAXARG : nat := 32.
Definition MAXOPBLOCKS : Z := 10.
Definition LOGSIZE : Z := MAXOPBLOCKS * 3.
Definition NBUF : nat := Z.to_nat (MAXOPBLOCKS * 3).
Definition FSSIZE : Z := 1000.

(** ** fs.h *)
Definition ROOTINO : Z := 1.
Definition BSIZE : Z := 512.
Definition NDIRECT : Z := 12.
Definition NINDIRECT : Z := BSIZE / 4.
Definition MAXFILE : Z := NDIRECT + NINDIRECT.
Definition DIRSIZ : nat := 14.

(** [sizeof(struct dinode)], [sizeof(struct dirent)]. *)
Definition DINODE_SIZE : Z := 64.
Definition DIRENT_SIZE : Z := 16.

(** Inodes per block, bitmap bits per block. *)
Definition IPB : Z := BSIZE / DINODE_SIZE.
Definition BPB : Z := BSIZE * 8.

(** ** stat.h *)
Definition T_DIR : Z := 1.
Definition T_FILE : Z := 2.
Definition T_DEV : Z := 3.

(** ** buf.h *)
Definition B_VALID : Z := 2.
Definition B_DIRTY : Z := 4.

(** ** fcntl.h *)
Definition O_RDONLY : Z := 0.
Definition O_WRONLY : Z := 1.
Definition O_RDWR : Z := 2.
Definition O_CREATE : Z := 512.

(** ** memlayout.h *)
Definition EXTMEM : Z := 1048576.
Definition PHYSTOP : Z := 234881024.
Definition DEVSPACE : Z := 4261412864.
Definition KERNBASE : Z := 2147483648.
Definition KERNLINK : Z := KERNBASE + EXTMEM.
Definition V2P (a : Z) : Z := u32 (a - KERNBASE).
Definition P2V (a : Z) : Z := u32 (a + KERNBASE).

(** ** mmu.h *)
Definition PGSIZE : Z := 4096.
Definition PTXSHIFT : Z := 12.
Definition PDXSHIFT : Z := 22.
Definition NPDENTRIES : nat := 1024.
Definition NPTENTRIES : nat := 1024.
Definition PDX (va : Z) : Z := Z.land (Z.shiftr (u32 va) PDXSHIFT) 1023.
Definition PTX (va : Z) : Z := Z.land (Z.shiftr (u32 va) PTXSHIFT) 1023.
Definition PGADDR (d t o : Z) : Z :=
  u32 (Z.lor (Z.lor (Z.shiftl d PDXSHIFT) (Z.shiftl t PTXSHIFT)) o).
Definition PGROUNDUP (sz : Z) : Z := u32 (Z.land (sz + PGSIZE - 1) (Z.lnot (PGSIZE - 1))).
Definition PGROUNDDOWN (a : Z) : Z := u32 (Z.land a (Z.lnot (PGSIZE - 1))).
Definition PTE_P : Z := 1.
Definition PTE_W : Z := 2.
Definition PTE_U : Z := 4.
Definition PTE_ADDR (pte : Z) : Z := Z.land (u32 pte) (Z.lnot 4095).
Definition PTE_FLAGS (pte : Z) : Z := Z.land (u32 pte) 4095.

(** ** traps.h *)
Definition T_SYSCALL : Z := 64.
Definition T_IRQ0 : Z := 32.
Definition IRQ_TIMER : Z := 0.
Definition IRQ_KBD : Z := 1.
Definition IRQ_COM1 : Z := 4.
Definition IRQ_IDE : Z := 14.
Definition IRQ_SPURIOUS : Z := 31.
