(* ===== verification/Sleeplock.v ===== *)
(** * Sleep locks: [src/Xv6-Syscall/src/sleeplock.c]

    The routines are written against an accessor for the [struct sleeplock]
    inside the component's data, so that buffers and inodes share them. *)

From S2P Require Import Prelude Kernel.

(** [locked] and [pid] of [struct sleeplock]; its spin lock [lk] is
    [Lsleep sl]. *)
Record sleeplock := Sleeplock { slocked : Z; spid : Z }.

(** Where the component keeps the lock [sl]. *)
Record slens (S : Type) := SLens {
  sl_get : S → option sleeplock;
  sl_put : sleeplock → S → S
}.
Arguments SLens {S} _ _.
Arguments sl_get {S} _ _.
Arguments sl_put {S} _ _ _.

Section Sleeplock.
Context {S : Type} (sl : sleepid) (ln : slens S).

Definition get_sleeplock : K S sleeplock := o ← gets (sl_get ln); deref o.

Definition initsleeplock : K S unit :=
  initlock (Lsleep sl);;
  modify (sl_put ln (Sleeplock 0 0)).

Definition acquiresleep : K S unit :=
  acquire (Lsleep sl);;
  lk ← get_sleeplock;
  if negb (slocked lk =? 0) then sleep (CSleep sl) (Lsleep sl) else
  pid ← myproc_pid;
  modify (sl_put ln (Sleeplock 1 pid));;
  release (Lsleep sl).

Definition releasesleep : K S unit :=
  acquire (Lsleep sl);;
  _ ← get_sleeplock;
  modify (sl_put ln (Sleeplock 0 0));;
  wakeup (CSleep sl);;
  release (Lsleep sl).

Definition holdingsleep : K S bool :=
  acquire (Lsleep sl);;
  lk ← get_sleeplock;
  pid ← myproc_pid;
  release (Lsleep sl);;
  mret (negb (slocked lk =? 0) && (spid lk =? pid)).
End Sleeplock.

(** ** A thread between critical sections

    It holds no spin lock and its CPU state is consistent. *)
Definition quiet {S} (pid : Z) (σ : kst S) : Prop :=
  cpu_ok (kcpu σ) ∧ klocks σ = ∅ ∧ cproc (kcpu σ) = Some pid.

(** What a balanced routine leaves alone: CPU and lock state; it may only wake
    sleepers. *)
Definition frame {S T} (σ : kst S) (σ' : kst T) : Prop :=
  kcpu σ' = kcpu σ ∧ klocks σ' = klocks σ ∧ kslp σ' ⊆ kslp σ.

Lemma frame_refl {S} (σ : kst S) : frame σ σ.
Proof. done. Qed.

Lemma frame_trans {S T U} (σ1 : kst S) (σ2 : kst T) (σ3 : kst U) :
  frame σ1 σ2 → frame σ2 σ3 → frame σ1 σ3.
Proof.
  intros (?&?&?) (?&?&?). split_and!; [congruence|congruence|by etrans].
Qed.

Lemma frame_quiet {S T} pid (σ : kst S) (σ' : kst T) : frame σ σ' → quiet pid σ → quiet pid σ'.
Proof. intros (Hc&HL&_) (?&?&?). rewrite /quiet Hc HL. done. Qed.

#[export] Hint Resolve frame_refl frame_trans frame_quiet : xv6.

Section Specs.
Context {S : Type} (sl : sleepid) (ln : slens S).
Implicit Types (σ : kst S).

Lemma acquiresleep_wp pid lk σ Q :
  quiet pid σ → sl_get ln (kdata σ) = Some lk → slocked lk = 0 →
  Q tt (set_data (sl_put ln (Sleeplock 1 pid) (kdata σ)) σ) →
  wp (acquiresleep sl ln) Q σ.
Proof.
  destruct σ as [c L w d]. intros (Hc&HL&Hp) Hg H0 HQ. simpl in *. subst L.
  rewrite /acquiresleep /get_sleeplock. do 2 kstep. kstep. rewrite H0 /=.
  by repeat kstep.
Qed.

(** [acquiresleep] of a lock that is held puts the caller to sleep, whoever the
    holder is. *)
Lemma acquiresleep_held pid lk σ :
  quiet pid σ → sl_get ln (kdata σ) = Some lk → slocked lk ≠ 0 →
  ∃ σ', acquiresleep sl ln σ = Sleep (CSleep sl) (Lsleep sl) σ' ∧ kdata σ' = kdata σ.
Proof.
  destruct σ as [c L w d]. intros (Hc&HL&Hp) Hg H0. simpl in *. subst L. rewrite /acquiresleep.
  destruct (wp_inv (acquire (Lsleep sl)) (λ _ σ', kdata σ' = d) (Kst c ∅ w d)) as (?&σ'&E&Hd).
  { by apply wp_acquire. }
  rewrite (bind_ret _ _ _ _ _ E) /get_sleeplock /mbind /K_bind /gets Hd Hg /=.
  rewrite (proj2 (Z.eqb_neq _ _) H0). by exists σ'.
Qed.

Lemma releasesleep_wp pid lk σ Q :
  quiet pid σ → sl_get ln (kdata σ) = Some lk →
  (∀ w', w' ⊆ kslp σ → Q tt (Kst (kcpu σ) (klocks σ) w' (sl_put ln (Sleeplock 0 0) (kdata σ)))) →
  wp (releasesleep sl ln) Q σ.
Proof.
  destruct σ as [c L w d]. intros (Hc&HL&Hp) Hg HQ. simpl in *. subst L.
  rewrite /releasesleep /get_sleeplock. repeat kstep.
  apply HQ, map_filter_subseteq.
Qed.

Lemma holdingsleep_wp pid lk σ Q :
  quiet pid σ → sl_get ln (kdata σ) = Some lk →
  Q (negb (slocked lk =? 0) && (spid lk =? pid)) σ →
  wp (holdingsleep sl ln) Q σ.
Proof.
  destruct σ as [c L w d]. intros (Hc&HL&Hp) Hg HQ. simpl in *. subst L.
  rewrite /holdingsleep /get_sleeplock. by repeat kstep.
Qed.
End Specs.
