(* ===== verification/BufList.v ===== *)
(** * The circular doubly linked list of buffers of [bio.c]

    [bcache.head] and the buffers are linked through [prev] and [next].  A
    buffer is named by its index in [bcache.buf]; index [NBUF] is
    [bcache.head].  The two pointer fields are kept in two arrays. *)

From S2P Require Import Prelude.

Record dll := Dll { nxt : list nat; prv : list nat }.

Definition set_nxt (a b : nat) (d : dll) : dll := Dll (<[a := b]> (nxt d)) (prv d).
Definition set_prv (a b : nat) (d : dll) : dll := Dll (nxt d) (<[a := b]> (prv d)).

(** Insert [b] just after the head [h], the four assignments of [binit] and of
    the end of [brelse]; [None] when a pointer is out of range. *)
Definition link_front (h b : nat) (d : dll) : option dll :=
  n ← nxt d !! h;
  let d := set_nxt b n d in
  let d := set_prv b h d in
  let d := set_prv n b d in
  Some (set_nxt h b d).

(** [b->next->prev = b->prev; b->prev->next = b->next]. *)
Definition unlink (b : nat) (d : dll) : option dll :=
  n ← nxt d !! b;
  p ← prv d !! b;
  Some (set_nxt p n (set_prv n p d)).

(** [move_front] is what [brelse] does to a buffer nobody uses any more. *)
Definition move_front (h b : nat) (d : dll) : option dll :=
  d ← unlink b d;
  link_front h b d.

(** ** Representation of a list

    [links d x l y]: following [next] from [x] visits [l] and then [y], and
    following [prev] from [y] visits them backwards. *)
Fixpoint links (d : dll) (x : nat) (l : list nat) (y : nat) : Prop :=
  match l with
  | [] => nxt d !! x = Some y ∧ prv d !! y = Some x
  | a :: l => (nxt d !! x = Some a ∧ prv d !! a = Some x) ∧ links d a l y
  end.

Definition dll_repr (h : nat) (d : dll) (l : list nat) : Prop :=
  length (nxt d) = S h ∧ length (prv d) = S h ∧
  NoDup (h :: l) ∧ Forall (λ a, a < h)%nat l ∧ links d h l h.

Lemma links_app d x l1 b l2 y : links d x (l1 ++ b :: l2) y ↔ links d x l1 b ∧ links d b l2 y.
Proof. revert x. induction l1 as [|a l1 IH]; intros x; simpl; [tauto|]. rewrite IH. tauto. Qed.

Lemma links_set_nxt d x l y a v : a ∉ x :: l → links (set_nxt a v d) x l y ↔ links d x l y.
Proof.
  revert x. induction l as [|b l IH]; intros x Ha; simpl.
  - rewrite list_lookup_insert_ne //. set_solver.
  - rewrite IH; [set_solver|]. rewrite list_lookup_insert_ne //. set_solver.
Qed.

Lemma links_set_prv d x l y a v : a ∉ l ++ [y] → links (set_prv a v d) x l y ↔ links d x l y.
Proof.
  revert x. induction l as [|b l IH]; intros x Ha; simpl.
  - rewrite list_lookup_insert_ne //. set_solver.
  - rewrite IH; [set_solver|]. rewrite list_lookup_insert_ne //. set_solver.
Qed.

Lemma links_first d x l y : links d x l y → nxt d !! x = hd_error (l ++ [y]).
Proof. destruct l; simpl; naive_solver. Qed.

Lemma links_last d x l y : links d x l y → prv d !! y = last (x :: l).
Proof.
  destruct l as [|b l _] using rev_ind; [simpl; naive_solver|].
  rewrite links_app app_comm_cons last_snoc. simpl. naive_solver.
Qed.

(** Insertion at the front. *)
Lemma link_front_repr h b d l :
  dll_repr h d l → (b < h)%nat → b ∉ l →
  ∃ d', link_front h b d = Some d' ∧ dll_repr h d' (b :: l).
Proof.
  intros (Hn&Hp&Hnd&Hlt&Hl) Hb Hbl. rewrite /link_front (links_first _ _ _ _ Hl).
  apply NoDup_cons in Hnd as [Hh Hnd]. rewrite Forall_forall in Hlt.
  assert (b ≠ h) by lia.
  destruct l as [|a l]; simpl.
  - eexists; split; [done|]. rewrite /dll_repr /= !length_insert. split_and!; auto.
    + apply NoDup_cons; split; [set_solver|]. apply NoDup_singleton.
    + apply list_lookup_insert_eq. rewrite length_insert. lia.
    + rewrite list_lookup_insert_ne //. apply list_lookup_insert_eq. lia.
    + rewrite list_lookup_insert_ne; [lia|]. apply list_lookup_insert_eq. lia.
    + apply list_lookup_insert_eq. rewrite length_insert. lia.
  - destruct Hl as [[Hha Hah] Hl]. apply NoDup_cons in Hnd as [Hal Hnd].
    assert (a < h)%nat by (apply Hlt; set_solver).
    eexists; split; [done|]. rewrite /dll_repr /= !length_insert. split_and!; auto.
    + repeat (apply NoDup_cons; split; [set_solver|]). done.
    + constructor; [done|]. by apply Forall_forall.
    + apply list_lookup_insert_eq. rewrite length_insert. lia.
    + rewrite list_lookup_insert_ne; [set_solver|]. apply list_lookup_insert_eq. lia.
    + rewrite list_lookup_insert_ne; [lia|]. apply list_lookup_insert_eq. lia.
    + apply list_lookup_insert_eq. rewrite length_insert. lia.
    + rewrite links_set_nxt; [set_solver|]. rewrite links_set_prv; [set_solver|].
      rewrite links_set_prv; [set_solver|]. rewrite links_set_nxt; [set_solver|]. done.
Qed.

(** Removal from the middle, case by case on the neighbours of [b]. *)
Lemma links_unlink d h b l1 l2 p n :
  length (nxt d) = S h → length (prv d) = S h →
  NoDup (h :: l1 ++ b :: l2) → Forall (λ a, a < h)%nat (l1 ++ b :: l2) →
  links d h l1 b → links d b l2 h →
  last (h :: l1) = Some p → hd_error (l2 ++ [h]) = Some n →
  links (set_nxt p n (set_prv n p d)) h (l1 ++ l2) h.
Proof.
  intros Hn Hp [Hh (Hnd1&Hd12&[Hb Hnd2]%NoDup_cons)%NoDup_app]%NoDup_cons Hlt Hl1 Hl2 Elast Ehd.
  rewrite Forall_forall in Hlt.
  destruct l1 as [|q l1 _] using rev_ind; destruct l2 as [|m l2]; simpl in *.
  - assert (p = h) as -> by congruence. assert (n = h) as -> by congruence.
    split; apply list_lookup_insert_eq; lia.
  - assert (p = h) as -> by congruence. assert (m = n) as -> by congruence.
    apply NoDup_cons in Hnd2 as [??].
    assert (n < h)%nat by (apply Hlt; set_solver). split.
    + split; apply list_lookup_insert_eq; lia.
    + rewrite links_set_nxt ?links_set_prv; [set_solver|set_solver|tauto].
  - rewrite app_comm_cons last_snoc in Elast. assert (q = p) as -> by congruence.
    assert (n = h) as -> by congruence.
    apply links_app in Hl1 as [Hl1 _]. rewrite app_nil_r.
    apply NoDup_app in Hnd1 as (?&Hp1&_).
    assert (p < h)%nat by (apply Hlt; set_solver).
    assert (p ∉ l1). { intros Hin. by apply (Hp1 _ Hin), list_elem_of_singleton. }
    rewrite links_app. simpl. split.
    + rewrite links_set_nxt ?links_set_prv; [set_solver|set_solver|done].
    + split; apply list_lookup_insert_eq; lia.
  - rewrite app_comm_cons last_snoc in Elast. assert (q = p) as -> by congruence.
    assert (m = n) as -> by congruence.
    apply links_app in Hl1 as [Hl1 _]. apply NoDup_cons in Hnd2 as [??].
    apply NoDup_app in Hnd1 as (?&Hp1&_).
    assert (p < h)%nat by (apply Hlt; set_solver).
    assert (n < h)%nat by (apply Hlt; set_solver).
    assert (p ∉ l1). { intros Hin. by apply (Hp1 _ Hin), list_elem_of_singleton. }
    assert (p ∉ b :: n :: l2). { apply Hd12. set_solver. }
    assert (n ∉ l1). { intros Hin. apply (Hd12 n); set_solver. }
    rewrite -app_assoc links_app. simpl. split_and!.
    + rewrite links_set_nxt ?links_set_prv; [set_solver|set_solver|done].
    + apply list_lookup_insert_eq; lia.
    + apply list_lookup_insert_eq; lia.
    + rewrite links_set_nxt ?links_set_prv; [set_solver|set_solver|tauto].
Qed.

Lemma NoDup_remove_mid {A} (l1 l2 : list A) b : NoDup (l1 ++ b :: l2) → NoDup (l1 ++ l2).
Proof.
  intros (?&?&[??]%NoDup_cons)%NoDup_app. apply NoDup_app. split_and!; [done|set_solver|done].
Qed.

Lemma unlink_repr h b d l1 l2 :
  dll_repr h d (l1 ++ b :: l2) →
  ∃ d', unlink b d = Some d' ∧ dll_repr h d' (l1 ++ l2).
Proof.
  intros (Hn&Hp&Hnd&Hlt&Hl). pose proof Hl as [Hl1 Hl2]%links_app.
  rewrite /unlink (links_first _ _ _ _ Hl2) (links_last _ _ _ _ Hl1).
  destruct (hd_error (l2 ++ [h])) as [n|] eqn:Ehd; [|by destruct l2].
  destruct (last (h :: l1)) as [p|] eqn:Elast; [|by apply last_None in Elast].
  simpl. eexists; split; [done|]. rewrite /dll_repr /= !length_insert. split_and!; [done|done| | |].
  - rewrite app_comm_cons. by eapply NoDup_remove_mid.
  - rewrite Forall_app Forall_cons in Hlt. apply Forall_app. tauto.
  - by eapply links_unlink.
Qed.

(** [brelse] on an idle buffer moves it to the front of the list. *)
Lemma move_front_repr h b d l1 l2 :
  dll_repr h d (l1 ++ b :: l2) →
  ∃ d', move_front h b d = Some d' ∧ dll_repr h d' (b :: l1 ++ l2).
Proof.
  intros Hr. pose proof Hr as (_&_&Hnd&Hlt&_).
  destruct (unlink_repr _ _ _ _ _ Hr) as (d1&Hd1&Hr1). rewrite /move_front Hd1 /=.
  apply link_front_repr; [done| |].
  - rewrite Forall_forall in Hlt. apply Hlt. set_solver.
  - apply NoDup_cons in Hnd as [_ (_&?&[??]%NoDup_cons)%NoDup_app]. set_solver.
Qed.

(** The empty list, as [binit] starts with: only the head is linked. *)
Definition dll_empty (h : nat) (d : dll) : dll := set_prv h h (set_nxt h h d).

Lemma dll_empty_repr h d :
  length (nxt d) = S h → length (prv d) = S h → dll_repr h (dll_empty h d) [].
Proof.
  intros Hn Hp. rewrite /dll_repr /= !length_insert. split_and!; auto using NoDup_singleton.
  - apply list_lookup_insert_eq. lia.
  - apply list_lookup_insert_eq. lia.
Qed.
