(* ===== verification/Bio.v ===== *)
(** * The buffer cache over the in-memory disk

    Models [src/Xv6-Syscall/src/bio.c], [buf.h] and the synchronous disk driver
    [memide.c] (the driver the [kernelmemfs] target links in place of
    [ide.c]).  Buffers are named by their index in [bcache.buf]. *)

From S2P Require Import Prelude CInt Kernel Params Sleeplock BufList.

Definition block := list Z.
Definition zero_block : block := replicate (Z.to_nat BSIZE) 0.

(** [memdisk] and [disksize] of memide.c, by blocks.  [dhist] records every
    block write, newest first; no code reads it. *)
Record disk := Disk {
  dblocks : gmap Z block;
  disksize : Z;
  dhist : list (Z * block)
}.

Definition dread (d : disk) (b : Z) : block := default zero_block (dblocks d !! b).
Definition dwrite (b : Z) (x : block) (d : disk) : disk :=
  Disk (<[b := x]> (dblocks d)) (disksize d) ((b, x) :: dhist d).

Record buf := Buf {
  flags : Z;
  bdev : Z;
  blockno : Z;
  block_lk : sleeplock;
  refcnt : Z;
  bdata : block
}.

(** The disk, [bcache.buf] and the [prev]/[next] links of the buffers. *)
Record bio := Bio { bdisk : disk; bufs : list buf; blru : dll }.

Definition set_bufs (l : list buf) (s : bio) : bio := Bio (bdisk s) l (blru s).
Definition set_blru (d : dll) (s : bio) : bio := Bio (bdisk s) (bufs s) d.
Definition set_bdisk (d : disk) (s : bio) : bio := Bio d (bufs s) (blru s).

Definition set_flags (f : Z) (b : buf) : buf :=
  Buf f (bdev b) (blockno b) (block_lk b) (refcnt b) (bdata b).
Definition set_refcnt (n : Z) (b : buf) : buf :=
  Buf (flags b) (bdev b) (blockno b) (block_lk b) n (bdata b).
Definition set_block_lk (k : sleeplock) (b : buf) : buf :=
  Buf (flags b) (bdev b) (blockno b) k (refcnt b) (bdata b).
Definition set_bdata (x : block) (b : buf) : buf :=
  Buf (flags b) (bdev b) (blockno b) (block_lk b) (refcnt b) x.

(** [*b] and [*b = f( *b)] for a buffer pointer [b]. *)
Definition bufp (b : nat) : K bio buf := l ← gets bufs; deref (l !! b).
Definition bupd (b : nat) (f : buf → buf) : K bio unit :=
  _ ← bufp b; modify (λ s, set_bufs (alter f b (bufs s)) s).

(** The sleep lock inside buffer [b]. *)
Definition buf_lens (b : nat) : slens bio :=
  SLens (λ s, block_lk <$> bufs s !! b)
        (λ k s, set_bufs (alter (set_block_lk k) b (bufs s)) s).

Definition head : nat := NBUF.

Definition zero_buf : buf := Buf 0 0 0 (Sleeplock 0 0) 0 zero_block.

(** [binit]: the list is built from zeroed buffers; every sleep lock is
    initialised. *)
Definition binit : K bio unit :=
  initlock Lbcache;;
  modify (λ s, set_blru (dll_empty head (blru s)) s);;
  for_each (seq 0 NBUF) (λ b,
    d ← gets blru;
    d ← deref (link_front head b d);
    modify (set_blru d);;
    initsleeplock (SBuf b) (buf_lens b)).

(** The two list scans of [bget], along [next] and along [prev]. *)
Fixpoint scan_next (fuel : nat) (p : buf → bool) (b : nat) : K bio (option nat) :=
  if bool_decide (b = head) then mret None else
  match fuel with
  | O => nofuel
  | S n =>
      x ← bufp b;
      if p x then mret (Some b) else
      d ← gets blru;
      b' ← deref (nxt d !! b);
      scan_next n p b'
  end.

Fixpoint scan_prev (fuel : nat) (p : buf → bool) (b : nat) : K bio (option nat) :=
  if bool_decide (b = head) then mret None else
  match fuel with
  | O => nofuel
  | S n =>
      x ← bufp b;
      if p x then mret (Some b) else
      d ← gets blru;
      b' ← deref (prv d !! b);
      scan_prev n p b'
  end.

Definition is_cached (dev bno : Z) (x : buf) : bool := (bdev x =? dev) && (blockno x =? bno).
Definition is_free (x : buf) : bool := (refcnt x =? 0) && (Z.land (flags x) B_DIRTY =? 0).

Definition bget (dev bno : Z) : K bio nat :=
  acquire Lbcache;;
  d ← gets blru;
  b0 ← deref (nxt d !! head);
  r ← scan_next (S NBUF) (is_cached dev bno) b0;
  match r with
  | Some b =>
      bupd b (λ x, set_refcnt (refcnt x + 1) x);;
      release Lbcache;;
      acquiresleep (SBuf b) (buf_lens b);;
      mret b
  | None =>
      b0 ← deref (prv d !! head);
      r ← scan_prev (S NBUF) is_free b0;
      match r with
      | Some b =>
          bupd b (λ x, Buf 0 dev bno (block_lk x) 1 (bdata x));;
          release Lbcache;;
          acquiresleep (SBuf b) (buf_lens b);;
          mret b
      | None => panic "bget: no buffers"
      end
  end.

(** [iderw] of memide.c.  The test [b->blockno >= disksize] is on [uint]: a
    negative number is a large one there. *)
Definition iderw (b : nat) : K bio unit :=
  h ← holdingsleep (SBuf b) (buf_lens b);
  if negb h then panic "iderw: buf not locked" else
  x ← bufp b;
  if Z.land (flags x) (Z.lor B_VALID B_DIRTY) =? B_VALID
  then panic "iderw: nothing to do" else
  if negb (bdev x =? 1) then panic "iderw: request not for disk 1" else
  n ← gets (λ s, disksize (bdisk s));
  if negb ((0 <=? blockno x) && (blockno x <? n)) then panic "iderw: block out of range" else
  (if negb (Z.land (flags x) B_DIRTY =? 0) then
     bupd b (λ x, set_flags (Z.land (flags x) (Z.lnot B_DIRTY)) x);;
     modify (λ s, set_bdisk (dwrite (blockno x) (bdata x) (bdisk s)) s)
   else
     d ← gets bdisk;
     bupd b (set_bdata (dread d (blockno x))));;
  bupd b (λ x, set_flags (Z.lor (flags x) B_VALID) x).

Definition bread (dev bno : Z) : K bio nat :=
  b ← bget dev bno;
  x ← bufp b;
  (if Z.land (flags x) B_VALID =? 0 then iderw b else mret ());;
  mret b.

Definition bwrite (b : nat) : K bio unit :=
  h ← holdingsleep (SBuf b) (buf_lens b);
  if negb h then panic "bwrite" else
  bupd b (λ x, set_flags (Z.lor (flags x) B_DIRTY) x);;
  iderw b.

Definition brelse (b : nat) : K bio unit :=
  h ← holdingsleep (SBuf b) (buf_lens b);
  if negb h then panic "brelse" else
  releasesleep (SBuf b) (buf_lens b);;
  acquire Lbcache;;
  bupd b (λ x, set_refcnt (refcnt x - 1) x);;
  x ← bufp b;
  (if refcnt x =? 0 then
     d ← gets blru;
     d ← deref (move_front head b d);
     modify (set_blru d)
   else mret ());;
  release Lbcache.

(** [bp->data] read and written by the clients of the cache. *)
Definition get_data (b : nat) : K bio block := x ← bufp b; mret (bdata x).
Definition put_data (b : nat) (x : block) : K bio unit := bupd b (set_bdata x).
