(* ===== verification/BioSpec.v ===== *)
(** * Correctness of the buffer cache

    [bio_ok] is the invariant of [bcache] as one thread sees it between its
    critical sections; [bview] is the block contents the cache promises.  The
    lemmas give the effect of every operation of [Bio] on them. *)

From S2P Require Import Prelude CInt Kernel Params Sleeplock BufList Bio.

(** ** List scans *)

(** First buffer of [l] that satisfies [p]. *)
Fixpoint find_buf (p : buf → bool) (bs : list buf) (l : list nat) : option nat :=
  match l with
  | [] => None
  | a :: l =>
      match bs !! a with
      | Some x => if p x then Some a else find_buf p bs l
      | None => find_buf p bs l
      end
  end.

Lemma find_buf_Some p bs l a :
  find_buf p bs l = Some a → a ∈ l ∧ ∃ x, bs !! a = Some x ∧ p x = true.
Proof.
  induction l as [|b l IH]; simpl; [done|]. destruct (bs !! b) eqn:Eb.
  - destruct (p _) eqn:Ep; [|set_solver]. intros [= ->]. split; [set_solver|eauto].
  - set_solver.
Qed.

Lemma find_buf_None p bs l a x :
  find_buf p bs l = None → a ∈ l → bs !! a = Some x → p x = false.
Proof.
  induction l as [|b l IH]; simpl; [set_solver|].
  destruct (bs !! b) as [y|] eqn:Eb; [destruct (p y) eqn:Ep; [done|]|];
    intros Hf [->|?]%elem_of_cons Ha; naive_solver.
Qed.

Lemma scan_next_run fuel p (l : list nat) x b0 (σ : kst bio) :
  links (blru (kdata σ)) x l head → head ∉ l →
  Forall (λ a, is_Some (bufs (kdata σ) !! a)) l →
  nxt (blru (kdata σ)) !! x = Some b0 → (length l < fuel)%nat →
  scan_next fuel p b0 σ = Ret (find_buf p (bufs (kdata σ)) l) σ.
Proof.
  revert fuel x b0. induction l as [|a l IH]; intros fuel x b0 Hl Hh Hs Hb Hf.
  - destruct Hl as [Hl _]. assert (b0 = head) as -> by congruence.
    destruct fuel; cbn [scan_next scan_prev]; by rewrite bool_decide_eq_true_2.
  - destruct Hl as [[Hl _] Hla]. assert (b0 = a) as -> by congruence.
    apply Forall_cons in Hs as [[y Hy] Hs]. apply not_elem_of_cons in Hh as [Hha Hh].
    destruct fuel as [|fuel]; [simpl in *; lia|]. cbn [scan_next scan_prev find_buf].
    rewrite bool_decide_eq_false_2; [done|].
    rewrite /bufp /gets /mbind /K_bind Hy /deref /mret /K_ret. destruct (p y); [done|].
    destruct (nxt (blru (kdata σ)) !! a) as [b1|] eqn:Eb1.
    + apply (IH _ a); auto. simpl in Hf. lia.
    + apply links_first in Hla. rewrite Eb1 in Hla. by destruct l.
Qed.

Lemma scan_prev_run fuel p (l : list nat) y b0 (σ : kst bio) :
  links (blru (kdata σ)) head l y → head ∉ l →
  Forall (λ a, is_Some (bufs (kdata σ) !! a)) l →
  prv (blru (kdata σ)) !! y = Some b0 → (length l < fuel)%nat →
  scan_prev fuel p b0 σ = Ret (find_buf p (bufs (kdata σ)) (reverse l)) σ.
Proof.
  revert fuel y b0. induction l as [|a l IH] using rev_ind; intros fuel y b0 Hl Hh Hs Hb Hf.
  - destruct Hl as [_ Hl]. assert (b0 = head) as -> by congruence.
    destruct fuel; cbn [scan_next scan_prev]; by rewrite bool_decide_eq_true_2.
  - apply links_app in Hl as [Hla [_ Hl]]. assert (b0 = a) as -> by congruence.
    apply Forall_app in Hs as [Hs [[z Hz] _]%Forall_cons].
    rewrite length_app /= in Hf. rewrite reverse_snoc.
    destruct fuel as [|fuel]; [lia|]. cbn [scan_next scan_prev find_buf].
    rewrite bool_decide_eq_false_2; [set_solver|].
    rewrite /bufp /gets /mbind /K_bind Hz /deref /mret /K_ret. destruct (p z); [done|].
    destruct (prv (blru (kdata σ)) !! a) as [b1|] eqn:Eb1.
    + apply (IH _ a); auto; [set_solver|lia].
    + apply links_last in Hla. rewrite Eb1 in Hla. by symmetry in Hla; apply last_None in Hla.
Qed.

(** ** The invariant *)

Definition idle (x : buf) : Prop := block_lk x = Sleeplock 0 0 ∧ refcnt x = 0.
Definition held (pid : Z) (x : buf) : Prop := block_lk x = Sleeplock 1 pid ∧ refcnt x = 1.

Definition block_ok (x : block) : Prop := length x = Z.to_nat BSIZE ∧ Forall is_byte x.

(** A buffer was never used, or holds a valid block: locked by a process, or
    idle and then, unless pinned by the log with B_DIRTY, equal to the disk. *)
Definition buf_ok (d : disk) (x : buf) : Prop :=
  block_ok (bdata x) ∧
  ((bdev x = 0 ∧ flags x = 0 ∧ idle x) ∨
   (bdev x = ROOTDEV ∧ 0 ≤ blockno x < disksize d ∧ (flags x = 2 ∨ flags x = 6) ∧
    ((∃ pid, held pid x) ∨
     idle x ∧ (flags x = 2 → bdata x = dread d (blockno x))))).

Definition bufs_unique (l : list buf) : Prop :=
  ∀ i j x y, l !! i = Some x → l !! j = Some y →
    bdev x = ROOTDEV → bdev y = ROOTDEV → blockno x = blockno y → i = j.

Definition lru_ok (d : dll) : Prop := ∃ l, dll_repr NBUF d l ∧ l ≡ₚ seq 0 NBUF.

Record bio_ok (s : bio) : Prop := {
  bo_len : length (bufs s) = NBUF;
  bo_lru : lru_ok (blru s);
  bo_bufs : ∀ i x, bufs s !! i = Some x → buf_ok (bdisk s) x;
  bo_uniq : bufs_unique (bufs s);
  bo_disk : ∀ b, block_ok (dread (bdisk s) b)
}.

(** Buffer [i] caches block [b]. *)
Definition cached_at (s : bio) (b : Z) (i : nat) (x : buf) : Prop :=
  bufs s !! i = Some x ∧ bdev x = ROOTDEV ∧ blockno x = b.

Definition caches (b : Z) (x : buf) : Prop := bdev x = ROOTDEV ∧ blockno x = b.

#[global] Instance caches_dec b x : Decision (caches b x).
Proof. unfold caches. apply _. Defined.

(** The contents of block [b] as the clients of the cache see them. *)
Definition bview (s : bio) (b : Z) : block :=
  match list_find (caches b) (bufs s) with
  | Some (_, x) => bdata x
  | None => dread (bdisk s) b
  end.

Lemma bview_cached s b i x : bufs_unique (bufs s) → cached_at s b i x → bview s b = bdata x.
Proof.
  intros Hu (Hi&Hd&Hb). rewrite /bview. destruct (list_find _ _) as [[j y]|] eqn:E.
  - apply list_find_Some in E as (Hj&[Hyd Hyb]&_).
    assert (i = j) as -> by (eapply Hu; eauto; congruence). congruence.
  - exfalso. eapply (list_find_None (caches b)) in E. rewrite Forall_lookup in E.
    by apply (E i x Hi).
Qed.

Lemma bview_uncached s b : (∀ i x, ¬ cached_at s b i x) → bview s b = dread (bdisk s) b.
Proof.
  intros H. rewrite /bview. destruct (list_find _ _) as [[j y]|] eqn:E; [|done].
  apply list_find_Some in E as (Hj&[Hyd Hyb]&_). by destruct (H j y).
Qed.

(** Either some buffer caches [b], or none does. *)
Lemma cached_dec s b : (∃ i x, cached_at s b i x) ∨ (∀ i x, ¬ cached_at s b i x).
Proof.
  destruct (list_find (caches b) (bufs s)) as [[i x]|] eqn:E.
  - apply list_find_Some in E as (Hi&[??]&_). left. by exists i, x.
  - apply list_find_None in E. rewrite Forall_lookup in E. right.
    intros i x (Hi&Hd&Hb). by apply (E i x Hi).
Qed.

Lemma lru_lookup s :
  length (bufs s) = NBUF → lru_ok (blru s) →
  ∃ l, dll_repr NBUF (blru s) l ∧ Forall (λ a, is_Some (bufs s !! a)) l ∧
       length l = NBUF ∧ ∀ i, is_Some (bufs s !! i) → i ∈ l.
Proof.
  intros Hlen (l&Hr&Hp). exists l. split_and!; [done| | |].
  - apply Forall_forall. intros a Ha. apply lookup_lt_is_Some.
    rewrite Hp in Ha. apply elem_of_seq in Ha. lia.
  - by rewrite Hp length_seq.
  - intros i Hi%lookup_lt_is_Some. rewrite Hp. apply elem_of_seq. lia.
Qed.

(** ** Operations *)

Lemma alter_insert_eq {A} (f : A → A) (l : list A) i x :
  l !! i = Some x → alter f i l = <[i := f x]> l.
Proof.
  intros Hi. apply list_eq. intros j. destruct (decide (i = j)) as [->|].
  - rewrite list_lookup_alter_eq Hi list_lookup_insert_eq //. by eapply lookup_lt_Some.
  - by rewrite list_lookup_alter_ne // list_lookup_insert_ne.
Qed.

Lemma lookup_upd {A} (l : list A) i x y : l !! i = Some x → <[i := y]> l !! i = Some y.
Proof. intros ?. apply list_lookup_insert_eq. by eapply lookup_lt_Some. Qed.

Lemma wp_bufp b x Q (σ : kst bio) : bufs (kdata σ) !! b = Some x → Q x σ → wp (bufp b) Q σ.
Proof. intros Hx HQ. rewrite /bufp. kstep. by eapply wp_deref. Qed.

Lemma wp_bupd b f x Q (σ : kst bio) :
  bufs (kdata σ) !! b = Some x →
  Q tt (set_data (set_bufs (<[b := f x]> (bufs (kdata σ))) (kdata σ)) σ) →
  wp (bupd b f) Q σ.
Proof.
  intros Hx HQ. rewrite /bupd. apply wp_bind. eapply wp_bufp; [done|].
  apply wp_modify. by rewrite (alter_insert_eq _ _ _ _ Hx).
Qed.

Lemma buf_lens_get s b x : bufs s !! b = Some x → sl_get (buf_lens b) s = Some (block_lk x).
Proof. simpl. by intros ->. Qed.

Lemma buf_lens_put s b x k :
  bufs s !! b = Some x →
  sl_put (buf_lens b) k s = set_bufs (<[b := set_block_lk k x]> (bufs s)) s.
Proof. intros Hx. simpl. by rewrite (alter_insert_eq _ _ _ _ Hx). Qed.

Lemma wp_acquire_buf pid b x Q (σ : kst bio) :
  quiet pid σ → bufs (kdata σ) !! b = Some x → slocked (block_lk x) = 0 →
  Q tt (set_data (set_bufs (<[b := set_block_lk (Sleeplock 1 pid) x]> (bufs (kdata σ)))
                           (kdata σ)) σ) →
  wp (acquiresleep (SBuf b) (buf_lens b)) Q σ.
Proof.
  intros Hq Hx H0 HQ. eapply acquiresleep_wp; [done|by apply buf_lens_get|done|].
  by rewrite (buf_lens_put _ _ _ _ Hx).
Qed.

Lemma wp_holding_buf pid b x Q (σ : kst bio) :
  quiet pid σ → bufs (kdata σ) !! b = Some x → held pid x → Q true σ →
  wp (holdingsleep (SBuf b) (buf_lens b)) Q σ.
Proof.
  intros Hq Hx [Hl _] HQ. eapply holdingsleep_wp; [done|by apply buf_lens_get|].
  by rewrite Hl /= Z.eqb_refl.
Qed.

(** The block can be brought in: it is cached, or a buffer is free. *)
Definition avail (s : bio) (b : Z) : Prop :=
  (∃ i x, cached_at s b i x) ∨ ∃ i x, bufs s !! i = Some x ∧ is_free x = true.

(** The block is not locked by anybody. *)
Definition unlocked (s : bio) (b : Z) : Prop := ∀ i x, cached_at s b i x → idle x.

Lemma is_free_spec d x : buf_ok d x → is_free x = true → idle x ∧ flags x ≠ 6.
Proof.
  rewrite /is_free. intros (_&Hok) Hf. breflect.
  destruct Hok as [(?&Hfl&?)|(?&?&Hfl&[[p [??]]|[??]])]; [|lia|].
  - split; [done|lia].
  - split; [done|]. intros H6. rewrite H6 in H0. done.
Qed.

(** [bget]: the buffer that caches the block, or a recycled idle one; locked. *)
Lemma bget_wp pid b (σ : kst bio) :
  let s := kdata σ in
  quiet pid σ → bio_ok s → 0 ≤ b → unlocked s b → avail s b →
  wp (bget ROOTDEV b) (λ i σ', ∃ x x',
    σ' = set_data (set_bufs (<[i := x']> (bufs s)) s) σ ∧ bufs s !! i = Some x ∧
    (cached_at s b i x ∧ x' = set_refcnt 1 (set_block_lk (Sleeplock 1 pid) x) ∨
     (∀ j y, ¬ cached_at s b j y) ∧ idle x ∧ flags x ≠ 6 ∧
     x' = Buf 0 ROOTDEV b (Sleeplock 1 pid) 1 (bdata x))) σ.
Proof.
  intros s Hq Hok Hb Hun Hav. destruct σ as [c L w d0]. simpl in s. subst s. simpl.
  destruct Hq as (Hc&HL&Hp). simpl in *. subst L. destruct Hok as [Hlen Hlru Hbufs Huniq Hdisk].
  destruct (lru_lookup d0 Hlen Hlru) as (l&(_&_&[Hh Hnd]%NoDup_cons&_&Hl)&Hsome&Hll&Hall).
  rewrite /bget. do 2 kstep.
  apply wp_bind. destruct (nxt (blru d0) !! head) as [b0|] eqn:Eb0;
    [|apply links_first in Hl; rewrite /head in Eb0; rewrite Eb0 in Hl; by destruct l].
  apply wp_ret. apply wp_bind.
  eapply wp_eq; [eapply scan_next_run; simpl; eauto; lia|]. cbn [kdata].
  destruct (find_buf _ _ l) as [i|] eqn:Ef.
  - apply find_buf_Some in Ef as (Hi&x&Hx&Hpx).
    rewrite /is_cached in Hpx. breflect. assert (cached_at d0 b i x) as Hca by done.
    pose proof (Hun i x Hca) as [Hlk Hrc].
    apply wp_bind. eapply wp_bupd; [done|]. kst_simpl. kstep.
    apply wp_bind. eapply wp_acquire_buf; [done|by eapply lookup_upd|by rewrite /= Hlk|].
    apply wp_ret. exists x. eexists. split_and!; [|done|by left].
    rewrite /set_data /set_bufs /=. rewrite list_insert_insert_eq Hrc. done.
  - apply wp_bind. destruct (prv (blru d0) !! head) as [b1|] eqn:Eb1;
      [|apply links_last in Hl; rewrite /head in Eb1; rewrite Eb1 in Hl;
        symmetry in Hl; by apply last_None in Hl].
    apply wp_ret. apply wp_bind.
    eapply wp_eq; [eapply scan_prev_run; simpl; eauto; lia|]. cbn [kdata].
    assert (∀ j y, ¬ cached_at d0 b j y) as Hnc.
    { intros j y (Hj&Hd&Hbn). eapply find_buf_None in Ef; [|apply Hall; eauto|done].
      rewrite /is_cached Hd Hbn !Z.eqb_refl // in Ef. }
    destruct (find_buf is_free _ _) as [i|] eqn:Ef2.
    + apply find_buf_Some in Ef2 as (Hi&x&Hx&Hpx).
      destruct (is_free_spec (bdisk d0) x) as [[Hlk Hrc] Hfl]; [eauto|done|].
      apply wp_bind. eapply wp_bupd; [done|]. kst_simpl. kstep.
      apply wp_bind. eapply wp_acquire_buf; [done|by eapply lookup_upd|by rewrite /= Hlk|].
      apply wp_ret. exists x. eexists. split_and!; [|done|by right].
      rewrite /set_data /set_bufs /=. by rewrite list_insert_insert_eq.
    + exfalso. destruct Hav as [(j&y&?)|(j&y&Hj&Hy)]; [by eapply Hnc|].
      eapply find_buf_None in Ef2; [|apply elem_of_reverse, Hall; eauto|done]. congruence.
Qed.

Lemma quiet_set_data {S} pid (d : S) (σ : kst S) : quiet pid σ → quiet pid (set_data d σ).
Proof. done. Qed.

#[export] Hint Resolve quiet_set_data : xv6.

Lemma in_range_true a n : 0 ≤ a < n → (0 <=? a) && (a <? n) = true.
Proof. intros. rewrite andb_true_iff Z.leb_le Z.ltb_lt. lia. Qed.

(** [iderw] on a buffer that was just recycled reads the block. *)
Lemma iderw_read_wp pid i x Q (σ : kst bio) :
  let s := kdata σ in
  quiet pid σ → bufs s !! i = Some x → held pid x → flags x = 0 → bdev x = ROOTDEV →
  0 ≤ blockno x < disksize (bdisk s) →
  Q tt (set_data (set_bufs (<[i := set_flags 2 (set_bdata (dread (bdisk s) (blockno x)) x)]>
                             (bufs s)) s) σ) →
  wp (iderw i) Q σ.
Proof.
  intros s Hq Hx Hh Hf Hd Hb HQ. rewrite /iderw.
  apply wp_bind. eapply wp_holding_buf; [done..|]. cbn [negb].
  apply wp_bind. eapply wp_bufp; [done|]. rewrite Hf Hd.
  change (Z.land 0 _ =? B_VALID) with false. change (negb (ROOTDEV =? 1)) with false. cbv iota.
  kstep. rewrite in_range_true; [exact Hb|]. cbn [negb].
  change (negb (Z.land 0 B_DIRTY =? 0)) with false. cbv iota.
  apply wp_bind. kstep. eapply wp_bupd; [done|].
  eapply wp_bupd; [by eapply lookup_upd|]. cbn.
  rewrite list_insert_insert_eq Hf. done.
Qed.

(** [iderw] on a dirty buffer writes the block. *)
Lemma iderw_write_wp pid i x Q (σ : kst bio) :
  let s := kdata σ in
  quiet pid σ → bufs s !! i = Some x → held pid x → flags x = 6 → bdev x = ROOTDEV →
  0 ≤ blockno x < disksize (bdisk s) →
  Q tt (set_data (Bio (dwrite (blockno x) (bdata x) (bdisk s))
                      (<[i := set_flags 2 x]> (bufs s)) (blru s)) σ) →
  wp (iderw i) Q σ.
Proof.
  intros s Hq Hx Hh Hf Hd Hb HQ. rewrite /iderw.
  apply wp_bind. eapply wp_holding_buf; [done..|]. cbn [negb].
  apply wp_bind. eapply wp_bufp; [done|]. rewrite Hf Hd.
  change (Z.land 6 _ =? B_VALID) with false. change (negb (ROOTDEV =? 1)) with false. cbv iota.
  kstep. rewrite in_range_true; [exact Hb|]. cbn [negb].
  change (negb (Z.land 6 B_DIRTY =? 0)) with true. cbv iota.
  apply wp_bind. apply wp_bind. eapply wp_bupd; [done|]. kstep.
  eapply wp_bupd; [by eapply lookup_upd|]. cbn.
  rewrite list_insert_insert_eq Hf. done.
Qed.

(** ** Preservation of the invariant and of the view *)

(** Replacing buffer [i] by one that caches a block no other buffer has. *)
Lemma bufs_unique_upd l i x x' :
  bufs_unique l → l !! i = Some x →
  (∀ j y, l !! j = Some y → j ≠ i → bdev y = ROOTDEV → bdev x' = ROOTDEV →
          blockno y ≠ blockno x') →
  bufs_unique (<[i := x']> l).
Proof.
  intros Hu Hx Hne a b y z Ha Hb Hya Hzb Heq.
  apply list_lookup_insert_Some in Ha as [(<-&->&?)|(Hia&Ha)];
    apply list_lookup_insert_Some in Hb as [(<-&->&?)|(Hib&Hb)].
  - done.
  - by destruct (Hne b z).
  - by destruct (Hne a y).
  - by eapply Hu.
Qed.

Lemma bio_ok_upd s i x x' d' :
  bio_ok s → bufs s !! i = Some x → buf_ok (bdisk s) x' → lru_ok d' →
  (∀ j y, bufs s !! j = Some y → j ≠ i → bdev y = ROOTDEV → bdev x' = ROOTDEV →
          blockno y ≠ blockno x') →
  bio_ok (Bio (bdisk s) (<[i := x']> (bufs s)) d').
Proof.
  intros [] Hx Hok Hd' Hne. split; simpl; [by rewrite length_insert|done| |by eapply bufs_unique_upd|done].
  intros j y [(<-&->&?)|(?&?)]%list_lookup_insert_Some; eauto.
Qed.

Lemma bview_upd s i x x' d' b :
  bufs_unique (bufs s) → bufs s !! i = Some x → bufs_unique (<[i := x']> (bufs s)) →
  bdev x' = ROOTDEV → bdata x' = bview s (blockno x') →
  (bdev x = ROOTDEV → blockno x = blockno x' ∨ bdata x = dread (bdisk s) (blockno x)) →
  bview (Bio (bdisk s) (<[i := x']> (bufs s)) d') b = bview s b.
Proof.
  intros Hu Hx Hu' Hd' Hdata Hold. set (s' := Bio _ _ _).
  destruct (decide (b = blockno x')) as [->|Hb].
  { rewrite (bview_cached s' _ i x') //. split; [by eapply lookup_upd|done]. }
  destruct (cached_dec s b) as [(j&y&Hj&Hyd&Hyb)|Hnc].
  - destruct (decide (j = i)) as [->|Hji].
    + assert (y = x) as -> by congruence.
      rewrite (bview_cached s b i x) //. destruct Hold as [?|Hold]; [done|congruence|].
      rewrite Hold Hyb. apply (bview_uncached s'). intros k z (Hk&Hzd&Hzb).
      apply list_lookup_insert_Some in Hk as [(<-&->&?)|(Hik&Hk)]; [congruence|].
      apply Hik. eapply Hu; eauto; congruence.
    + rewrite (bview_cached s b j y) // (bview_cached s' b j y) //. split; [|done].
      by rewrite list_lookup_insert_ne.
  - rewrite (bview_uncached s) // bview_uncached //. intros k z (Hk&Hzd&Hzb).
    apply list_lookup_insert_Some in Hk as [(<-&->&?)|(Hik&Hk)]; [congruence|].
    by apply (Hnc k z).
Qed.

(** A held buffer keeps its block while its contents and flags change. *)
Lemma held_ok s i x : bio_ok s → bufs s !! i = Some x → (∃ pid, held pid x) →
  block_ok (bdata x) ∧ bdev x = ROOTDEV ∧ 0 ≤ blockno x < disksize (bdisk s) ∧
  (flags x = 2 ∨ flags x = 6).
Proof.
  intros Hok Hx [pid [Hl Hr]]. destruct (bo_bufs _ Hok _ _ Hx) as [Hb [(?&?&?&?)|(?&?&?&_)]]; [lia|].
  done.
Qed.

Lemma uniq_other s i x j y :
  bufs_unique (bufs s) → bufs s !! i = Some x → bdev x = ROOTDEV →
  bufs s !! j = Some y → j ≠ i → bdev y = ROOTDEV → blockno y ≠ blockno x.
Proof. intros Hu Hx Hd Hy Hj Hyd Heq. apply Hj. by eapply Hu. Qed.

(** Update of a held buffer that stays held. *)
Lemma bio_ok_held s i x x' pid :
  bio_ok s → bufs s !! i = Some x → bdev x = ROOTDEV →
  held pid x' → bdev x' = ROOTDEV → blockno x' = blockno x →
  0 ≤ blockno x < disksize (bdisk s) →
  (flags x' = 2 ∨ flags x' = 6) → block_ok (bdata x') →
  bio_ok (set_bufs (<[i := x']> (bufs s)) s).
Proof.
  intros Hok Hx Hd Hh Hd' Hb Hr Hf Hbl.
  eapply bio_ok_upd; [done|done| |apply Hok|].
  - split; [done|]. right. rewrite Hb. split_and!; [done|lia|lia|done|left; eauto].
  - intros j y Hy Hj Hyd _. rewrite Hb. eapply uniq_other; eauto. apply Hok.
Qed.

(** Effect of an update of buffer [i] on the view, when it keeps its block. *)
Lemma bview_set s i x x' d' lru' b :
  bio_ok s → bufs s !! i = Some x → bdev x = ROOTDEV →
  bdev x' = ROOTDEV → blockno x' = blockno x →
  (∀ b', b' ≠ blockno x → dread d' b' = dread (bdisk s) b') →
  bview (Bio d' (<[i := x']> (bufs s)) lru') b =
    if decide (b = blockno x) then bdata x' else bview s b.
Proof.
  intros Hok Hx Hd Hd' Hb Hdk. set (s' := Bio _ _ _).
  assert (bufs_unique (bufs s')) as Hu'.
  { eapply bufs_unique_upd; [apply Hok|done|]. intros j y Hy Hj Hyd _. rewrite Hb.
    eapply uniq_other; eauto. apply Hok. }
  case_decide as Hbx.
  { apply (bview_cached s' b i x'); [done|]. split; [by eapply lookup_upd|].
    split; congruence. }
  destruct (cached_dec s b) as [(j&y&Hj&Hyd&Hyb)|Hnc].
  - assert (j ≠ i) by (intros ->; congruence).
    rewrite (bview_cached s b j y) //; [apply Hok|]. apply (bview_cached s' b j y); [done|].
    split; [|done]. by rewrite /= list_lookup_insert_ne.
  - rewrite (bview_uncached s) // (bview_uncached s'); [|by apply Hdk].
    intros k z (Hk&Hzd&Hzb).
    apply list_lookup_insert_Some in Hk as [(<-&->&?)|(Hik&Hk)]; [congruence|].
    by apply (Hnc k z).
Qed.

Lemma buf_ok_block s i x : bio_ok s → bufs s !! i = Some x → block_ok (bdata x).
Proof. intros Hok Hx. apply (bo_bufs _ Hok _ _ Hx). Qed.

Lemma bview_ok s b : bio_ok s → block_ok (bview s b).
Proof.
  intros Hok. rewrite /bview. destruct (list_find _ _) as [[i x]|] eqn:E.
  - apply list_find_Some in E as (Hi&_). by eapply buf_ok_block.
  - by apply Hok.
Qed.

(** [bread] returns a locked buffer with the contents of the block. *)
Lemma bread_wp pid b (σ : kst bio) :
  let s := kdata σ in
  quiet pid σ → bio_ok s → 0 ≤ b < disksize (bdisk s) → unlocked s b → avail s b →
  wp (bread ROOTDEV b) (λ i σ', ∃ x x', let s' := set_bufs (<[i := x']> (bufs s)) s in
    σ' = set_data s' σ ∧ bio_ok s' ∧ bufs s !! i = Some x ∧
    held pid x' ∧ caches b x' ∧ bdata x' = bview s b ∧
    (∀ b', bview s' b' = bview s b') ∧
    (cached_at s b i x ∧ flags x' = flags x ∨
     (∀ j y, ¬ cached_at s b j y) ∧ idle x ∧ flags x ≠ 6 ∧ flags x' = 2)) σ.
Proof.
  intros s Hq Hok Hb Hun Hav. rewrite /bread. apply wp_bind.
  eapply wp_mono; [apply (bget_wp pid); try done; lia|]. cbv beta.
  intros i σ' (x&x1&->&Hx&Hcase). fold s.
  apply wp_bind. eapply wp_bufp; [by eapply lookup_upd|].
  destruct Hcase as [(Hca&->)|(Hnc&Hidle&Hfl&->)].
  - pose proof Hca as (_&Hd&Hbn). destruct (bo_bufs _ Hok _ _ Hx) as (Hbl&[(Hd0&_)|(_&Hr&Hf&_)]);
      [by rewrite Hd in Hd0|].
    assert ((Z.land (flags (set_refcnt 1 (set_block_lk (Sleeplock 1 pid) x))) B_VALID =? 0) = false)
      as -> by (simpl; by destruct Hf as [->| ->]).
    apply wp_bind, wp_ret, wp_ret. eexists x, _. cbv zeta. split_and!; [done| |done|done|done| | |].
    + eapply bio_ok_held; [done|done| |done..| |done|done]; [done|lia].
    + simpl. by rewrite (bview_cached s b i x); [apply Hok|..].
    + intros b'. rewrite /set_bufs (bview_set _ _ x) //. case_decide as Hbd; [|done].
      simpl. rewrite (bview_cached s b' i x); [apply Hok|by rewrite Hbd|done].
    + by left.
  - cbn [flags]. change (Z.land 0 B_VALID =? 0) with true. cbv iota.
    apply wp_bind. eapply iderw_read_wp; [done|by eapply lookup_upd|done..|simpl; lia|].
    apply wp_ret. exists x. eexists. cbv zeta. cbn [set_data kdata set_bufs bufs blockno flags bdisk].
    rewrite list_insert_insert_eq. split_and!; [done| |done|done|done| | |by right].
    + eapply bio_ok_upd; [done|done| |apply Hok|].
      * split; [apply Hok|]. right. simpl. split_and!; [done|lia|lia|by left|left; by exists pid].
      * intros j y Hy Hj Hyd _. simpl. intros Hyb. by apply (Hnc j y).
    + simpl. by rewrite bview_uncached.
    + intros b'. rewrite /set_bufs. apply (bview_upd _ _ x); [apply Hok|done| |done| |].
      * eapply bufs_unique_upd; [apply Hok|done|]. simpl. intros j y Hy Hj Hyd _ Hyb. by apply (Hnc j y).
      * simpl. by rewrite bview_uncached.
      * intros Hxd. right. destruct (bo_bufs _ Hok _ _ Hx) as (_&[(Hd0&_)|(_&_&Hf&Hc)]); [by rewrite Hxd in Hd0|].
        destruct Hc as [[p [Hl' _]]|[_ Hc]]; [by destruct Hidle as [Hl _]; rewrite Hl in Hl'|].
        apply Hc. lia.
Qed.

Lemma dread_dwrite_eq b x d : dread (dwrite b x d) b = x.
Proof. by rewrite /dread /= lookup_insert_eq. Qed.

Lemma dread_dwrite_ne b b' x d : b' ≠ b → dread (dwrite b x d) b' = dread d b'.
Proof. intros. by rewrite /dread /= lookup_insert_ne. Qed.

(** [bwrite] makes the disk agree with the buffer; the view does not change. *)
Lemma bwrite_wp pid i x (σ : kst bio) :
  let s := kdata σ in
  quiet pid σ → bio_ok s → bufs s !! i = Some x → held pid x →
  wp (bwrite i) (λ _ σ', let s' := Bio (dwrite (blockno x) (bdata x) (bdisk s))
                                       (<[i := set_flags 2 x]> (bufs s)) (blru s) in
    σ' = set_data s' σ ∧ bio_ok s' ∧ ∀ b', bview s' b' = bview s b') σ.
Proof.
  intros s Hq Hok Hx Hh. destruct (held_ok s i x) as (Hbl&Hd&Hr&Hf); [eauto..|].
  rewrite /bwrite. apply wp_bind. eapply wp_holding_buf; [done..|]. cbn [negb].
  apply wp_bind. eapply wp_bupd; [done|].
  eapply iderw_write_wp; [done|by eapply lookup_upd|done|by destruct Hf as [E|E]; simpl; rewrite E|
    done|apply Hr|]. cbn [set_data kdata set_bufs bufs bdisk blru blockno bdata set_flags].
  rewrite list_insert_insert_eq. cbv zeta. split_and!; [done| |].
  - split; simpl; [rewrite length_insert; apply Hok|apply Hok| | |].
    + intros j y [(<-&<-&?)|(Hji&Hy)]%list_lookup_insert_Some.
      * split; [done|]. right. simpl. split_and!; auto; try lia. left. by exists pid.
      * destruct (bo_bufs _ Hok _ _ Hy) as (Hyb&Hy'). split; [done|].
        destruct Hy' as [?|(?&?&?&Hy')]; [by left|]. right. simpl. split_and!; auto; try lia.
        destruct Hy' as [?|[? Hc]]; [by left|]. right. split; [done|]. intros Hf2.
        rewrite dread_dwrite_ne; [|by apply Hc].
        apply not_eq_sym. eapply (uniq_other s j y i x); eauto. apply Hok.
    + eapply bufs_unique_upd; [apply Hok|done|]. simpl. intros j y Hy Hj Hyd _.
      eapply uniq_other; eauto. apply Hok.
    + intros b. destruct (decide (b = blockno x)) as [->|].
      * by rewrite dread_dwrite_eq.
      * rewrite dread_dwrite_ne //. apply Hok.
  - intros b'. rewrite (bview_set _ _ x) //. { intros. by apply dread_dwrite_ne. }
    case_decide as Hbd; [|done]. simpl. rewrite (bview_cached s b' i x) //. apply Hok.
Qed.

Lemma lru_ok_move d i :
  lru_ok d → (i < NBUF)%nat → ∃ d', move_front head i d = Some d' ∧ lru_ok d'.
Proof.
  intros (l&Hr&Hp) Hi.
  assert (i ∈ l) as (l1&l2&->)%list_elem_of_split.
  { rewrite Hp. apply elem_of_seq. lia. }
  destruct (move_front_repr _ _ _ _ _ Hr) as (d'&Hd'&Hr'). exists d'. split; [done|].
  eexists; split; [done|]. by rewrite -Hp Permutation_middle.
Qed.

(** [brelse] of a buffer whose contents are on disk or pinned by the log. *)
Lemma brelse_wp pid i x (σ : kst bio) :
  let s := kdata σ in
  quiet pid σ → bio_ok s → bufs s !! i = Some x → held pid x →
  (flags x = 2 → bdata x = dread (bdisk s) (blockno x)) →
  wp (brelse i) (λ _ σ', frame σ σ' ∧ ∃ d',
    let s' := Bio (bdisk s) (<[i := set_refcnt 0 (set_block_lk (Sleeplock 0 0) x)]> (bufs s)) d' in
    kdata σ' = s' ∧ bio_ok s' ∧ ∀ b', bview s' b' = bview s b') σ.
Proof.
  intros s Hq Hok Hx Hh Hclean. destruct (held_ok s i x) as (Hbl&Hd&Hr&Hf); [eauto..|].
  rewrite /brelse. apply wp_bind. eapply wp_holding_buf; [done..|]. cbn [negb].
  apply wp_bind. eapply releasesleep_wp; [done|by apply buf_lens_get|].
  intros w' Hw'. rewrite (buf_lens_put _ _ _ _ Hx). fold s.
  destruct Hq as (Hc&HL&Hp). rewrite HL. kstep.
  apply wp_bind. eapply wp_bupd; [by eapply lookup_upd|]. kst_simpl. cbn [set_bufs bufs bdisk blru].
  rewrite list_insert_insert_eq. apply wp_bind. eapply wp_bufp; [by eapply lookup_upd|].
  cbn [refcnt set_refcnt]. destruct Hh as [Hlk Hrc].
  cbn [set_block_lk refcnt]. rewrite Hrc. change (1 - 1 =? 0) with true. cbv iota.
  apply wp_bind. kstep. cbn [blru].
  destruct (lru_ok_move (blru s) i) as (d'&Hd'&Hlru').
  { apply Hok. } { rewrite -(bo_len _ Hok). by eapply lookup_lt_Some. }
  rewrite Hd'. do 2 kstep. kstep. split; [by rewrite /frame /= HL|].
  exists d'. cbv zeta. split_and!.
  - done.
  - eapply bio_ok_upd; [done|done| |done|].
    + split; [done|]. right. simpl. split_and!; auto; try lia; right; done.
    + simpl. intros j y Hy Hj Hyd _. eapply uniq_other; eauto. apply Hok.
  - intros b'. rewrite (bview_set _ _ x) //. case_decide as Hbd; [|done]. simpl.
    rewrite (bview_cached s b' i x) //. apply Hok.
Qed.
