(* ===== verification/Cache.v ===== *)
(** * What the buffer cache promises its clients

    [binv pid H X M s] describes the cache [s] for a client: it holds the
    buffers of [H] (buffer index to block number), the blocks of [X] are pinned
    with B_DIRTY, and the buffers of the blocks in [M] were changed and neither
    written nor pinned yet.  Each operation of [Bio] is specified by its effect
    on [H], [X], [M], the disk and the view of the blocks. *)

From S2P Require Import Prelude CInt Kernel Params Sleeplock BufList Bio BioSpec.

Record binv (pid : Z) (H : gmap nat Z) (X M : gset Z) (s : bio) : Prop := {
  bi_ok : bio_ok s;
  bi_idle : ∀ i x, bufs s !! i = Some x → H !! i = None → idle x;
  bi_held : ∀ i b, H !! i = Some b → ∃ x, cached_at s b i x ∧ held pid x;
  bi_dirty : ∀ i x, bufs s !! i = Some x → flags x = 6 → blockno x ∈ X;
  bi_pinned : ∀ b, b ∈ X → ∃ i x, cached_at s b i x ∧ flags x = 6;
  bi_clean : ∀ i x, bufs s !! i = Some x → bdev x = ROOTDEV → flags x = 2 →
    blockno x ∉ M → bdata x = dread (bdisk s) (blockno x)
}.

(** Room for one more block in the cache. *)
Definition cache_room (H : gmap nat Z) (X : gset Z) (b : Z) : Prop :=
  (size ({[b]} ∪ X ∪ map_img (SA:=gset Z) H) ≤ NBUF)%nat.

Lemma blocknos_NoDup s :
  bufs_unique (bufs s) → (∀ i x, bufs s !! i = Some x → bdev x = ROOTDEV) →
  NoDup (blockno <$> bufs s).
Proof.
  intros Hu Hd. apply NoDup_alt. intros i j b Hi Hj.
  apply list_lookup_fmap_Some in Hi as (x&->&Hx). apply list_lookup_fmap_Some in Hj as (y&Hb&Hy).
  eapply Hu; eauto.
Qed.

(** A pigeonhole argument: the non-free buffers hold distinct blocks of [X] and
    [H]. *)
Lemma avail_room pid H X M s b :
  binv pid H X M s → cache_room H X b → avail s b.
Proof.
  intros Hinv Hroom. destruct (cached_dec s b) as [?|Hnc]; [by left|].
  destruct (list_find (λ x, is_free x = true) (bufs s)) as [[i x]|] eqn:E.
  { apply list_find_Some in E as (?&?&_). right. eauto. }
  exfalso. apply list_find_None in E. rewrite Forall_lookup in E.
  assert (∀ i x, bufs s !! i = Some x →
            bdev x = ROOTDEV ∧ blockno x ∈ X ∪ map_img (SA:=gset Z) H) as Hall.
  { intros i x Hx. destruct (H !! i) as [b'|] eqn:EH.
    - destruct (bi_held _ _ _ _ _ Hinv _ _ EH) as (y&(Hy&Hd&Hb)&_).
      assert (x = y) as -> by congruence. split; [done|]. rewrite Hb.
      apply elem_of_union_r. by eapply elem_of_map_img_2.
    - pose proof (bi_idle _ _ _ _ _ Hinv _ _ Hx EH) as [_ Hr].
      destruct (bo_bufs _ (bi_ok _ _ _ _ _ Hinv) _ _ Hx) as [_ [(_&Hf&_)|(Hd&_&Hf&_)]].
      + destruct (E i x Hx). by rewrite /is_free Hr Hf.
      + split; [done|]. destruct Hf as [Hf|Hf].
        * destruct (E i x Hx). by rewrite /is_free Hr Hf.
        * apply elem_of_union_l. by eapply bi_dirty. }
  assert (NoDup (blockno <$> bufs s)) as Hnd.
  { apply blocknos_NoDup; [apply Hinv|]. intros i x Hx. by eapply Hall. }
  assert (size (list_to_set (b :: (blockno <$> bufs s)) : gset Z) = S NBUF) as Hsz.
  { rewrite size_list_to_set; [|by rewrite /= length_fmap (bo_len _ (bi_ok _ _ _ _ _ Hinv))].
    apply NoDup_cons. split; [|done]. intros (x&->&Hin)%list_elem_of_fmap.
    apply list_elem_of_lookup in Hin as [i Hi]. destruct (Hnc i x). split; [done|].
    by split; [eapply Hall|]. }
  assert (list_to_set (b :: (blockno <$> bufs s)) ⊆ {[b]} ∪ X ∪ map_img (SA:=gset Z) H) as Hsub.
  { intros y. rewrite list_to_set_cons !elem_of_union elem_of_singleton elem_of_list_to_set.
    intros [->|(x&->&Hin)%list_elem_of_fmap]; [tauto|].
    apply list_elem_of_lookup in Hin as [i Hi]. destruct (Hall i x Hi) as [_ Hx]. set_solver. }
  apply subseteq_size in Hsub. rewrite /cache_room in Hroom. lia.
Qed.

Lemma binv_unlocked pid H X M s b :
  binv pid H X M s → (∀ i, H !! i ≠ Some b) → unlocked s b.
Proof.
  intros Hinv Hb i x (Hx&Hd&Hbx). destruct (H !! i) as [b'|] eqn:EH.
  - destruct (bi_held _ _ _ _ _ Hinv _ _ EH) as (y&(Hy&_&Hyb)&_).
    exfalso. apply (Hb i). congruence.
  - by eapply bi_idle.
Qed.

(** [bread] adds a buffer to the held ones and changes neither disk nor view. *)
Lemma bread_inv pid H X M b (σ : kst bio) :
  quiet pid σ → binv pid H X M (kdata σ) → 0 ≤ b < disksize (bdisk (kdata σ)) →
  (∀ i, H !! i ≠ Some b) → cache_room H X b →
  wp (bread ROOTDEV b) (λ i σ', frame σ σ' ∧ H !! i = None ∧
    binv pid (<[i := b]> H) X M (kdata σ') ∧ bdisk (kdata σ') = bdisk (kdata σ) ∧
    ∀ b', bview (kdata σ') b' = bview (kdata σ) b') σ.
Proof.
  intros Hq Hinv Hb HH Hroom. set (s := kdata σ) in *.
  eapply wp_mono; [apply (bread_wp pid b σ); auto|].
  { apply Hinv. } { by eapply binv_unlocked. } { by eapply avail_room. }
  cbv beta zeta. fold s. intros i σ' (x&x'&->&Hok'&Hx&Hh&[Hd' Hb']&Hdata&Hview&Hcase).
  assert (H !! i = None) as HiN.
  { destruct (H !! i) as [c|] eqn:EH; [|done].
    destruct (bi_held _ _ _ _ _ Hinv _ _ EH) as (y&(Hy&_&Hyb)&[Hlk _]).
    assert (y = x) as -> by congruence.
    destruct Hcase as [((_&_&Hxb)&_)|(_&[Hlk' _]&_)]; [|by rewrite Hlk in Hlk'].
    exfalso. apply (HH i). congruence. }
  split_and!; [done|done| |done|done]. split; [done| | | | |]; cbn [set_data kdata set_bufs bufs bdisk].
  - intros j y Hj HjH. apply lookup_insert_None in HjH as [HjH Hij].
    rewrite list_lookup_insert_ne // in Hj. by eapply bi_idle.
  - intros j c Hj. apply lookup_insert_Some in Hj as [[<- <-]|[Hij Hj]].
    + exists x'. split; [|done]. split; [by eapply lookup_upd|done].
    + destruct (bi_held _ _ _ _ _ Hinv _ _ Hj) as (y&(Hy&?)&?). exists y. split; [|done].
      split; [|done]. simpl. by rewrite list_lookup_insert_ne.
  - intros j y [(<-&->&?)|(Hij&Hj)]%list_lookup_insert_Some Hf; [|by eapply bi_dirty].
    destruct Hcase as [((_&_&Hxb)&Hfl)|(_&_&_&?)]; [|lia].
    rewrite Hb' -Hxb. eapply bi_dirty; [done|done|congruence].
  - intros c Hc. destruct (bi_pinned _ _ _ _ _ Hinv _ Hc) as (j&y&(Hy&Hyd&Hyb)&Hyf).
    destruct (decide (j = i)) as [->|Hji].
    + assert (y = x) as -> by congruence. exists i, x'.
      destruct Hcase as [((_&_&Hxb)&Hfl)|(_&_&?&_)]; [|done].
      split; [|congruence]. split; [by eapply lookup_upd|]. split; congruence.
    + exists j, y. split; [|done]. split; [|done]. simpl. by rewrite list_lookup_insert_ne.
  - intros j y [(<-&->&?)|(Hij&Hj)]%list_lookup_insert_Some Hyd Hf HM; [|by eapply bi_clean].
    rewrite Hdata. destruct Hcase as [(Hca&Hfl)|(Hnc&_)].
    + rewrite (bview_cached s b i x) //; [apply Hinv|]. destruct Hca as (_&Hxd&Hxb).
      rewrite Hb' -Hxb. eapply bi_clean; [done|done|done|congruence|congruence].
    + by rewrite bview_uncached // Hb'.
Qed.

Lemma binv_lookup pid H X M s i b :
  binv pid H X M s → H !! i = Some b →
  ∃ x, bufs s !! i = Some x ∧ held pid x ∧ bdev x = ROOTDEV ∧ blockno x = b ∧
       bdata x = bview s b ∧ block_ok (bdata x) ∧ 0 ≤ b < disksize (bdisk s) ∧
       (flags x = 2 ∨ flags x = 6).
Proof.
  intros Hinv Hi. destruct (bi_held _ _ _ _ _ Hinv _ _ Hi) as (x&(Hx&Hd&Hb)&Hh).
  destruct (held_ok s i x) as (?&?&?&?); [apply Hinv|done|by exists pid|].
  exists x. subst b. split_and!; try done; try lia.
  symmetry. eapply bview_cached; [apply Hinv|done].
Qed.

(** Two held buffers hold different blocks. *)
Lemma binv_inj pid H X M s i j b :
  binv pid H X M s → H !! i = Some b → H !! j = Some b → i = j.
Proof.
  intros Hinv Hi Hj. destruct (bi_held _ _ _ _ _ Hinv _ _ Hi) as (x&(Hx&?&?)&_).
  destruct (bi_held _ _ _ _ _ Hinv _ _ Hj) as (y&(Hy&?&?)&_).
  eapply (bo_uniq _ (bi_ok _ _ _ _ _ Hinv)); eauto. congruence.
Qed.

Lemma get_data_inv pid H X M i b Q (σ : kst bio) :
  binv pid H X M (kdata σ) → H !! i = Some b →
  Q (bview (kdata σ) b) σ → wp (get_data i) Q σ.
Proof.
  intros Hinv Hi HQ. destruct (binv_lookup _ _ _ _ _ _ _ Hinv Hi) as (x&Hx&_&_&_&Hdata&_).
  rewrite /get_data. apply wp_bind. eapply wp_bufp; [done|]. apply wp_ret. by rewrite Hdata.
Qed.

(** A change of a held buffer's contents and flags, in terms of the sets. *)
Lemma binv_upd pid H X M X' M' s i b x x' d' lru' :
  binv pid H X M s → H !! i = Some b → bufs s !! i = Some x →
  bio_ok (Bio d' (<[i := x']> (bufs s)) lru') →
  bdev x' = ROOTDEV → blockno x' = b → held pid x' →
  (∀ c, c ≠ b → (c ∈ X ↔ c ∈ X') ∧ (c ∉ M' → c ∉ M) ∧ dread d' c = dread (bdisk s) c) →
  (flags x' = 6 → b ∈ X') → (b ∈ X' → flags x' = 6) →
  (flags x' = 2 → b ∉ M' → bdata x' = dread d' b) →
  binv pid H X' M' (Bio d' (<[i := x']> (bufs s)) lru').
Proof.
  intros Hinv Hi Hx Hok' Hd' Hb' Hh' Hc H6 H6' H2.
  assert (∀ j y, bufs s !! j = Some y → j ≠ i → bdev y = ROOTDEV → blockno y ≠ b) as Hne.
  { intros j y Hy Hj Hyd Hyb. apply Hj.
    destruct (bi_held _ _ _ _ _ Hinv _ _ Hi) as (z&(Hz&?&?)&_).
    eapply (bo_uniq _ (bi_ok _ _ _ _ _ Hinv)); eauto. congruence. }
  split; [done| | | | |]; cbn [bufs bdisk].
  - intros j y Hy Hj. apply list_lookup_insert_Some in Hy as [(<-&->&?)|(Hij&Hy)]; [congruence|].
    by eapply bi_idle.
  - intros j c Hj. destruct (decide (j = i)) as [->|Hji].
    + assert (c = b) as -> by congruence. exists x'. split; [|done].
      split; [by eapply lookup_upd|done].
    + destruct (bi_held _ _ _ _ _ Hinv _ _ Hj) as (y&(Hy&?)&?). exists y. split; [|done].
      split; [|done]. simpl. by rewrite list_lookup_insert_ne.
  - intros j y [(<-&->&?)|(Hij&Hy)]%list_lookup_insert_Some Hf; [rewrite Hb'; auto|].
    apply Hc; [|by eapply bi_dirty]. eapply Hne; eauto.
    destruct (bo_bufs _ (bi_ok _ _ _ _ _ Hinv) _ _ Hy) as [_ [(_&?&_)|(?&_)]]; [lia|done].
  - intros c HcX. destruct (decide (c = b)) as [->|Hcb].
    + exists i, x'. split; [split; [by eapply lookup_upd|done]|auto].
    + apply Hc in HcX; [|done]. destruct (bi_pinned _ _ _ _ _ Hinv _ HcX) as (j&y&(Hy&Hyd&Hyb)&Hyf).
      exists j, y. split; [|done]. split; [|done]. simpl. rewrite list_lookup_insert_ne //.
      intros ->. destruct (bi_held _ _ _ _ _ Hinv _ _ Hi) as (z&(Hz&?&?)&_). congruence.
  - intros j y [(<-&->&?)|(Hij&Hy)]%list_lookup_insert_Some Hyd Hf HM.
    + rewrite Hb' in HM |- *. auto.
    + assert (blockno y ≠ b) as Hyb by eauto. destruct (Hc _ Hyb) as (_&HMM&Hdd).
      rewrite Hdd. eapply bi_clean; eauto.
Qed.

(** Writing [bp->data]: the view of the block changes. *)
Lemma put_data_inv pid H X M i b y Q (σ : kst bio) :
  binv pid H X M (kdata σ) → H !! i = Some b → block_ok y →
  (∀ s', binv pid H X ({[b]} ∪ M) s' → bdisk s' = bdisk (kdata σ) →
         (∀ b', bview s' b' = if decide (b' = b) then y else bview (kdata σ) b') →
         Q tt (set_data s' σ)) →
  wp (put_data i y) Q σ.
Proof.
  intros Hinv Hi Hy HQ. destruct (binv_lookup _ _ _ _ _ _ _ Hinv Hi)
    as (x&Hx&Hh&Hd&Hb&_&_&Hr&Hf). rewrite /put_data. eapply wp_bupd; [done|].
  apply HQ; [|done|].
  - eapply (binv_upd _ _ X M); [done..| |done|done|done| | | |].
    + eapply bio_ok_held; eauto; [apply Hinv|by rewrite Hb].
    + intros c Hc. split_and!; [done|set_solver|done].
    + simpl. rewrite -Hb. by eapply bi_dirty.
    + simpl. intros HbX. destruct (bi_pinned _ _ _ _ _ Hinv _ HbX) as (j&z&(Hz&?&?)&Hzf).
      assert (i = j) as -> by (eapply (bo_uniq _ (bi_ok _ _ _ _ _ Hinv)); eauto; congruence).
      congruence.
    + set_solver.
  - intros b'. rewrite /set_bufs (bview_set _ _ x) //; [apply Hinv|]. by rewrite Hb.
Qed.

(** [bwrite] moves the contents to disk and unpins the block. *)
Lemma bwrite_inv pid H X M i b Q (σ : kst bio) :
  quiet pid σ → binv pid H X M (kdata σ) → H !! i = Some b →
  (∀ s', binv pid H (X ∖ {[b]}) (M ∖ {[b]}) s' →
         bdisk s' = dwrite b (bview (kdata σ) b) (bdisk (kdata σ)) →
         (∀ b', bview s' b' = bview (kdata σ) b') → Q tt (set_data s' σ)) →
  wp (bwrite i) Q σ.
Proof.
  intros Hq Hinv Hi HQ. destruct (binv_lookup _ _ _ _ _ _ _ Hinv Hi)
    as (x&Hx&Hh&Hd&Hb&Hdata&_&Hr&Hf).
  eapply wp_mono; [eapply bwrite_wp; eauto; apply Hinv|]. cbv beta zeta.
  intros [] σ' (->&Hok'&Hview). rewrite Hdata Hb in Hview Hok' |- *. apply HQ; [|done|done].
  eapply (binv_upd _ _ X M); [done..|done|done|done| |done| |].
  - intros c Hc. rewrite dread_dwrite_ne //. set_solver.
  - set_solver.
  - intros _ _. by rewrite dread_dwrite_eq.
Qed.

(** Setting B_DIRTY pins the block. *)
Lemma set_dirty_inv pid H X M i b Q (σ : kst bio) :
  binv pid H X M (kdata σ) → H !! i = Some b →
  (∀ s', binv pid H ({[b]} ∪ X) (M ∖ {[b]}) s' → bdisk s' = bdisk (kdata σ) →
         (∀ b', bview s' b' = bview (kdata σ) b') → Q tt (set_data s' σ)) →
  wp (bupd i (λ x, set_flags (Z.lor (flags x) B_DIRTY) x)) Q σ.
Proof.
  intros Hinv Hi HQ. destruct (binv_lookup _ _ _ _ _ _ _ Hinv Hi)
    as (x&Hx&Hh&Hd&Hb&Hdata&Hbl&Hr&Hf). eapply wp_bupd; [done|].
  assert (Z.lor (flags x) B_DIRTY = 6) as -> by (by destruct Hf as [->| ->]).
  apply HQ; [|done|].
  - eapply (binv_upd _ _ X M); [done..| |done|done|done| | |done|done].
    + eapply bio_ok_held; eauto; [apply Hinv|by rewrite Hb].
    + intros c Hc. split_and!; [set_solver|set_solver|done].
    + set_solver.
  - intros b'. rewrite /set_bufs (bview_set _ _ x) //; [apply Hinv|]. rewrite Hb.
    case_decide; [|done]. simpl. by subst b'.
Qed.

(** [brelse] of a block that is not modified behind the cache's back. *)
Lemma brelse_inv pid H X M i b (σ : kst bio) :
  quiet pid σ → binv pid H X M (kdata σ) → H !! i = Some b → b ∉ M →
  wp (brelse i) (λ _ σ', frame σ σ' ∧ binv pid (delete i H) X M (kdata σ') ∧
    bdisk (kdata σ') = bdisk (kdata σ) ∧
    ∀ b', bview (kdata σ') b' = bview (kdata σ) b') σ.
Proof.
  intros Hq Hinv Hi HM. set (s := kdata σ) in *. destruct (binv_lookup _ _ _ _ _ _ _ Hinv Hi)
    as (x&Hx&Hh&Hd&Hb&Hdata&_&Hr&Hf).
  eapply wp_mono; [eapply brelse_wp; eauto; [apply Hinv|]|].
  { intros Hf2. eapply bi_clean; eauto. by rewrite Hb. }
  cbv beta zeta. intros _ σ' (Hfr&d'&->&Hok'&Hview). split_and!; [done| |done|done].
  split; [done| | | | |]; cbn [bufs bdisk].
  - intros j y Hy Hj. apply lookup_delete_None in Hj.
    apply list_lookup_insert_Some in Hy as [(<-&<-&?)|(Hij&Hy)]; [done|].
    destruct Hj as [?|?]; [done|]. by eapply bi_idle.
  - intros j c Hj. apply lookup_delete_Some in Hj as [Hij Hj].
    destruct (bi_held _ _ _ _ _ Hinv _ _ Hj) as (y&(Hy&?)&?). exists y. split; [|done].
    split; [|done]. simpl. by rewrite list_lookup_insert_ne.
  - intros j y [(<-&<-&?)|(Hij&Hy)]%list_lookup_insert_Some Hfl; simpl in *; by eapply bi_dirty.
  - intros c Hc. destruct (bi_pinned _ _ _ _ _ Hinv _ Hc) as (j&y&(Hy&Hyd&Hyb)&Hyf).
    destruct (decide (j = i)) as [->|Hji].
    + assert (y = x) as -> by congruence. exists i, (set_refcnt 0 (set_block_lk (Sleeplock 0 0) x)).
      split; [|done]. split; [by eapply lookup_upd|done].
    + exists j, y. split; [|done]. split; [|done]. simpl. by rewrite list_lookup_insert_ne.
  - intros j y [(<-&<-&?)|(Hij&Hy)]%list_lookup_insert_Some Hyd Hyf HyM; simpl in *;
      by eapply bi_clean.
Qed.

(** Unpinned and unmodified blocks are seen as they are on disk. *)
Lemma binv_view pid H X M s b :
  binv pid H X M s → b ∉ X → b ∉ M → bview s b = dread (bdisk s) b.
Proof.
  intros Hinv HX HM. destruct (cached_dec s b) as [(i&x&Hc)|Hn]; [|by apply bview_uncached].
  pose proof Hc as (Hi&Hd&Hb). rewrite (bview_cached _ _ _ _ (bo_uniq _ (bi_ok _ _ _ _ _ Hinv)) Hc).
  destruct (bo_bufs _ (bi_ok _ _ _ _ _ Hinv) _ _ Hi) as [_ [(Hd0&_)|(_&_&[Hf|Hf]&_)]].
  - by rewrite Hd in Hd0.
  - rewrite -Hb. eapply bi_clean; eauto. by rewrite Hb.
  - destruct HX. rewrite -Hb. by eapply bi_dirty.
Qed.

(** ** Boot *)

(** The cache before [binit]: zeroed buffers and links. *)
Definition bss_bio (d : disk) : bio :=
  Bio d (replicate NBUF zero_buf) (Dll (replicate (S NBUF) 0%nat) (replicate (S NBUF) 0%nat)).

Lemma alter_replicate {A} (f : A → A) n (x : A) i :
  f x = x → alter f i (replicate n x) = replicate n x.
Proof.
  intros Hf. apply list_eq. intros j. destruct (decide (i = j)) as [->|].
  - rewrite list_lookup_alter_eq. destruct (replicate n x !! j) as [y|] eqn:E; [|done].
    apply lookup_replicate in E as [-> _]. by rewrite /= Hf.
  - by rewrite list_lookup_alter_ne.
Qed.

Lemma zero_block_ok : block_ok zero_block.
Proof.
  split; [apply length_replicate|]. apply Forall_replicate. rewrite /is_byte. lia.
Qed.

Lemma binv_boot pid d dl :
  (∀ b, block_ok (dread d b)) → dll_repr NBUF dl (reverse (seq 0 NBUF)) →
  binv pid ∅ ∅ ∅ (Bio d (replicate NBUF zero_buf) dl).
Proof.
  intros Hd Hl.
  assert (∀ i x, replicate NBUF zero_buf !! i = Some x → x = zero_buf) as Hz.
  { by intros i x [-> _]%lookup_replicate. }
  split; [split|..]; cbn [bufs bdisk blru].
  - apply length_replicate.
  - eexists. split; [done|]. by rewrite reverse_Permutation.
  - intros i x ->%Hz. split; [apply zero_block_ok|by left].
  - by intros i j x y ->%Hz ->%Hz.
  - done.
  - by intros i x ->%Hz.
  - by intros i b.
  - by intros i x ->%Hz.
  - set_solver.
  - by intros i x ->%Hz.
Qed.

Lemma binit_wp pid (σ : kst bio) d Q :
  kdata σ = bss_bio d → (∀ b, block_ok (dread d b)) → klocks σ = ∅ →
  (∀ s', binv pid ∅ ∅ ∅ s' → bdisk s' = d → Q tt (set_data s' σ)) →
  wp binit Q σ.
Proof.
  destruct σ as [c L w s]. cbn [kdata klocks]. intros -> Hd -> HQ.
  rewrite /binit. apply wp_bind, wp_initlock. kstep. eapply (wp_for_seq _ _ (λ t σ, ∃ dl, σ = Kst c ∅ w (Bio d (replicate NBUF zero_buf) dl) ∧
    dll_repr NBUF dl (reverse (seq 0 t)))).
  - eexists. split; [done|]. apply dll_empty_repr; apply length_replicate.
  - intros t σ' Ht (dl&->&Hl). kstep.
    destruct (link_front_repr NBUF t dl _ Hl Ht) as (dl'&E&Hl').
    { rewrite elem_of_reverse elem_of_seq. lia. }
    apply wp_bind. eapply wp_deref; [exact E|]. kstep. rewrite /initsleeplock.
    apply wp_bind, wp_initlock, wp_modify. exists dl'. split; [|by rewrite seq_S reverse_snoc].
    cbv [set_data set_bufs bufs blru bdisk sl_put buf_lens kdata]. rewrite alter_replicate; done.
  - intros σ' (dl&->&Hl). apply (HQ (Bio d (replicate NBUF zero_buf) dl)); [|done].
    by apply binv_boot.
Qed.
