(* ===== verification/Log.v ===== *)
(** * The write-ahead log: [src/Xv6-Syscall/src/log.c]

    The state is the buffer cache and [struct log].  [logheader] is kept as in
    memory; the on-disk header is its image in the bytes of block [log.start]. *)

From S2P Require Import Prelude CInt Kernel Params Sleeplock BufList Bio.

(** [struct logheader]: [n] and [block[LOGSIZE]]. *)
Record logheader := Lh { lh_n : Z; lh_block : list Z }.

(** [struct log] without its spin lock [Llog]. *)
Record log := Log {
  start : Z;
  size : Z;
  outstanding : Z;
  committing : Z;
  ldev : Z;
  lh : logheader
}.

Record lstate := Lstate { lbio : bio; llog : log }.

Definition set_lbio (b : bio) (s : lstate) : lstate := Lstate b (llog s).
Definition set_llog (l : log) (s : lstate) : lstate := Lstate (lbio s) l.
Definition set_lh (h : logheader) (l : log) : log :=
  Log (start l) (size l) (outstanding l) (committing l) (ldev l) h.
Definition set_outstanding (n : Z) (l : log) : log :=
  Log (start l) (size l) n (committing l) (ldev l) (lh l).
Definition set_committing (n : Z) (l : log) : log :=
  Log (start l) (size l) (outstanding l) n (ldev l) (lh l).
Definition mod_log (f : log → log) : K lstate unit :=
  modify (λ s, set_llog (f (llog s)) s).

(** A routine of the buffer cache. *)
Definition bc {A} (m : K bio A) : K lstate A := zoom lbio set_lbio m.

(** ** The header in a block *)

Definition hdr_size : Z := 4 + 4 * LOGSIZE.

(** [lh->n] and [lh->block[i]] of the header stored in a block. *)
Definition hdr_n (x : block) : Z := s32 (le_val (slice 0 4 x)).
Definition hdr_entry (x : block) (i : nat) : Z := s32 (le_val (slice (4 + 4 * i) 4 x)).

(** [hb->n = log.lh.n; for (i = 0; i < log.lh.n; i++) hb->block[i] = ...]. *)
Definition hdr_store (n : Z) (blocks : list Z) (x : block) : block :=
  foldl (λ x i, blit (4 + 4 * i) (le_bytes 4 (u32 (default 0 (blocks !! i)))) x)
        (blit 0 (le_bytes 4 (u32 n)) x) (seq 0 (Z.to_nat n)).

(** ** Routines *)

Definition install_one (tail : nat) : K lstate unit :=
  l ← gets llog;
  lbuf ← bc (bread (ldev l) (start l + tail + 1));
  home ← deref (lh_block (lh l) !! tail);
  dbuf ← bc (bread (ldev l) home);
  x ← bc (get_data lbuf);
  bc (put_data dbuf x);;
  bc (bwrite dbuf);;
  bc (brelse lbuf);;
  bc (brelse dbuf).

Definition install_trans : K lstate unit :=
  l ← gets llog;
  for_each (seq 0 (Z.to_nat (lh_n (lh l)))) install_one.

Definition read_head : K lstate unit :=
  l ← gets llog;
  b ← bc (bread (ldev l) (start l));
  x ← bc (get_data b);
  mod_log (λ l, set_lh (Lh (hdr_n x) (lh_block (lh l))) l);;
  for_each (seq 0 (Z.to_nat (hdr_n x))) (λ i,
    l ← gets llog;
    _ ← deref (lh_block (lh l) !! i);
    mod_log (λ l, set_lh (Lh (lh_n (lh l)) (<[i := hdr_entry x i]> (lh_block (lh l)))) l));;
  bc (brelse b).

Definition write_head : K lstate unit :=
  l ← gets llog;
  b ← bc (bread (ldev l) (start l));
  x ← bc (get_data b);
  bc (put_data b (hdr_store (lh_n (lh l)) (lh_block (lh l)) x));;
  bc (bwrite b);;
  bc (brelse b).

Definition recover_from_log : K lstate unit :=
  read_head;;
  install_trans;;
  mod_log (λ l, set_lh (Lh 0 (lh_block (lh l))) l);;
  write_head.

Definition write_log_one (tail : nat) : K lstate unit :=
  l ← gets llog;
  to ← bc (bread (ldev l) (start l + tail + 1));
  home ← deref (lh_block (lh l) !! tail);
  from ← bc (bread (ldev l) home);
  x ← bc (get_data from);
  bc (put_data to x);;
  bc (bwrite to);;
  bc (brelse from);;
  bc (brelse to).

Definition write_log : K lstate unit :=
  l ← gets llog;
  for_each (seq 0 (Z.to_nat (lh_n (lh l)))) write_log_one.

Definition commit : K lstate unit :=
  l ← gets llog;
  if 0 <? lh_n (lh l) then
    write_log;;
    write_head;;
    install_trans;;
    mod_log (λ l, set_lh (Lh 0 (lh_block (lh l))) l);;
    write_head
  else mret ().

Definition begin_op : K lstate unit :=
  acquire Llog;;
  l ← gets llog;
  if negb (committing l =? 0) then sleep CLog Llog else
  if LOGSIZE <? lh_n (lh l) + (outstanding l + 1) * MAXOPBLOCKS then sleep CLog Llog else
  mod_log (λ l, set_outstanding (outstanding l + 1) l);;
  release Llog.

Definition end_op : K lstate unit :=
  acquire Llog;;
  mod_log (λ l, set_outstanding (outstanding l - 1) l);;
  l ← gets llog;
  if negb (committing l =? 0) then panic "log.committing" else
  let do_commit := outstanding l =? 0 in
  (if do_commit then mod_log (set_committing 1) else wakeup CLog);;
  release Llog;;
  if do_commit then
    commit;;
    acquire Llog;;
    mod_log (set_committing 0);;
    wakeup CLog;;
    release Llog
  else mret ().

(** The absorption loop of [log_write]: first [i < n] with [block[i] == bno],
    else [n]. *)
Fixpoint absorb (blocks : list Z) (n : nat) (bno : Z) : nat :=
  match n, blocks with
  | O, _ => O
  | S n, x :: blocks => if x =? bno then O else S (absorb blocks n bno)
  | S n, [] => O
  end.

Definition log_write (b : nat) : K lstate unit :=
  l ← gets llog;
  if (LOGSIZE <=? lh_n (lh l)) || (size l - 1 <=? lh_n (lh l))
  then panic "too big a transaction" else
  if outstanding l <? 1 then panic "log_write outside of trans" else
  acquire Llog;;
  x ← bc (bufp b);
  l ← gets llog;
  let n := lh_n (lh l) in
  let i := absorb (lh_block (lh l)) (Z.to_nat n) (blockno x) in
  _ ← deref (lh_block (lh l) !! i);
  mod_log (λ l, set_lh (Lh (if (Z.of_nat i =? n) then n + 1 else n)
                           (<[i := blockno x]> (lh_block (lh l)))) l);;
  bc (bupd b (λ x, set_flags (Z.lor (flags x) B_DIRTY) x));;
  release Llog.

(** ** Superblock ([struct superblock] of fs.h, [readsb] of fs.c) *)

Record superblock := Sb {
  sb_size : Z;
  sb_nblocks : Z;
  sb_ninodes : Z;
  sb_nlog : Z;
  sb_logstart : Z;
  sb_inodestart : Z;
  sb_bmapstart : Z
}.

(** The [i]-th 32-bit word of a block. *)
Definition word_at (x : block) (i : nat) : Z := le_val (slice (4 * i) 4 x).

Definition sb_decode (x : block) : superblock :=
  Sb (word_at x 0) (word_at x 1) (word_at x 2) (word_at x 3) (word_at x 4) (word_at x 5)
     (word_at x 6).

Definition readsb (dev : Z) : K lstate superblock :=
  b ← bc (bread dev 1);
  x ← bc (get_data b);
  bc (brelse b);;
  mret (sb_decode x).

Definition initlog (dev : Z) : K lstate unit :=
  if BSIZE <=? hdr_size then panic "initlog: too big logheader" else
  initlock Llog;;
  sb ← readsb dev;
  mod_log (λ l, Log (s32 (sb_logstart sb)) (s32 (sb_nlog sb)) (outstanding l) (committing l)
                    dev (lh l));;
  recover_from_log.
