(* ===== verification/LogSpec.v ===== *)
(** * Correctness of the log routines

    The on-disk header and its codec, and what [write_log], [write_head],
    [install_trans], [commit] and [recover_from_log] write to disk, as lists of
    block writes. *)

From S2P Require Import Prelude CInt Kernel Params Sleeplock BufList Bio BioSpec Cache Log.

(** ** Header codec *)

Definition entry_bytes (bl : list Z) (i : nat) : list Z :=
  le_bytes 4 (u32 (default 0 (bl !! i))).

Definition store_entries (m : nat) (bl : list Z) (x : block) : block :=
  foldl (λ x i, blit (4 + 4 * i) (entry_bytes bl i) x) x (seq 0 m).

Lemma store_entries_S m bl x :
  store_entries (S m) bl x = blit (4 + 4 * m) (entry_bytes bl m) (store_entries m bl x).
Proof. rewrite /store_entries seq_S foldl_app //. Qed.

Lemma length_entry bl i : length (entry_bytes bl i) = 4%nat.
Proof. apply length_le_bytes. Qed.

Lemma store_entries_length m bl x :
  (4 + 4 * m ≤ length x)%nat → length (store_entries m bl x) = length x.
Proof.
  induction m as [|m IH]; intros; [done|]. rewrite store_entries_S.
  rewrite length_blit; [rewrite length_entry IH; lia|]. apply IH. lia.
Qed.

Lemma store_entries_bytes m bl x :
  Forall is_byte x → Forall is_byte (store_entries m bl x).
Proof.
  intros Hx. induction m as [|m IH]; [done|]. rewrite store_entries_S.
  apply Forall_blit; [apply le_bytes_bytes|done].
Qed.

Lemma store_entries_head m bl x :
  (4 + 4 * m ≤ length x)%nat → slice 0 4 (store_entries m bl x) = slice 0 4 x.
Proof.
  induction m as [|m IH]; intros; [done|]. rewrite store_entries_S.
  rewrite slice_blit_before; [rewrite length_entry store_entries_length; lia|lia|].
  apply IH. lia.
Qed.

Lemma store_entries_slice m bl x i :
  (4 + 4 * m ≤ length x)%nat → (i < m)%nat →
  slice (4 + 4 * i) 4 (store_entries m bl x) = entry_bytes bl i.
Proof.
  induction m as [|m IH]; intros Hl Hi; [lia|]. rewrite store_entries_S.
  destruct (decide (i = m)) as [->|].
  - rewrite slice_blit_eq ?length_entry //. rewrite store_entries_length; lia.
  - rewrite slice_blit_before; [rewrite length_entry store_entries_length; lia|lia|].
    apply IH; lia.
Qed.

Lemma hdr_store_eq n bl x :
  hdr_store n bl x = store_entries (Z.to_nat n) bl (blit 0 (le_bytes 4 (u32 n)) x).
Proof. done. Qed.

Lemma s32_le_bytes z : 0 ≤ z < 2 ^ 31 → s32 (le_val (le_bytes 4 (u32 z))) = z.
Proof.
  intros. rewrite u32_small; [rewrite /is_u32; lia|].
  rewrite le_val_bytes_id; [|by apply s32_small; lia].
  change (256 ^ 4%nat) with (2 ^ 32). lia.
Qed.

Lemma length_hdr_blit z x :
  block_ok x → length (blit 0 (le_bytes 4 z) x) = Z.to_nat BSIZE.
Proof.
  intros [Hl _]. rewrite length_blit; [rewrite length_le_bytes Hl; unfold BSIZE; lia|done].
Qed.

Lemma hdr_store_ok n bl x :
  0 ≤ n ≤ LOGSIZE → block_ok x → block_ok (hdr_store n bl x).
Proof.
  intros Hn Hok. pose proof Hok as [Hl Hb]. rewrite hdr_store_eq /block_ok. split.
  - rewrite store_entries_length length_hdr_blit //. unfold BSIZE, LOGSIZE, MAXOPBLOCKS in *. lia.
  - apply store_entries_bytes, Forall_blit; [apply le_bytes_bytes|done].
Qed.

Lemma hdr_n_store n bl x :
  0 ≤ n ≤ LOGSIZE → block_ok x → hdr_n (hdr_store n bl x) = n.
Proof.
  intros Hn Hok. pose proof Hok as [Hl Hb]. unfold LOGSIZE, MAXOPBLOCKS in *.
  rewrite /hdr_n hdr_store_eq.
  rewrite store_entries_head; [rewrite length_hdr_blit //; unfold BSIZE; lia|].
  rewrite slice_blit_eq ?length_le_bytes //; [rewrite Hl; unfold BSIZE; lia|].
  apply s32_le_bytes. lia.
Qed.

Lemma hdr_entry_store n bl x i b :
  0 ≤ n ≤ LOGSIZE → block_ok x → (i < Z.to_nat n)%nat →
  bl !! i = Some b → 0 ≤ b < 2 ^ 31 → hdr_entry (hdr_store n bl x) i = b.
Proof.
  intros Hn Hok Hi Hbl Hb31. unfold LOGSIZE, MAXOPBLOCKS in *.
  rewrite /hdr_entry hdr_store_eq store_entries_slice.
  - rewrite length_hdr_blit //. unfold BSIZE. lia.
  - lia.
  - rewrite /entry_bytes Hbl. by apply s32_le_bytes.
Qed.

(** ** Symbolic execution of routines that use the cache

    [Lat σ0 pid H X M lg d V σ]: in state [σ], reached from [σ0], the cache is
    described by [binv pid H X M], the log structure is [lg], the disk is [d]
    and the view of the blocks is [V]. *)

Definition upd (V : Z → block) (b : Z) (y : block) : Z → block :=
  λ b', if decide (b' = b) then y else V b'.

Lemma upd_eq V b y : upd V b y b = y.
Proof. rewrite /upd. by rewrite decide_True. Qed.

Lemma upd_ne V b y b' : b' ≠ b → upd V b y b' = V b'.
Proof. intros. rewrite /upd. by rewrite decide_False. Qed.

Record Lat {S0} (σ0 : kst S0) (pid : Z) (H : gmap nat Z) (X M : gset Z) (lg : log) (d : disk)
    (V : Z → block) (σ : kst lstate) : Prop := {
  la_frame : frame σ0 σ;
  la_quiet : quiet pid σ;
  la_inv : binv pid H X M (lbio (kdata σ));
  la_log : llog (kdata σ) = lg;
  la_disk : bdisk (lbio (kdata σ)) = d;
  la_view : ∀ b, bview (lbio (kdata σ)) b = V b
}.

Section Lat.
Context {S0 : Type} (σ0 : kst S0) (pid : Z).

(** The state inside a cache routine. *)
Lemma lat_inner H X M lg d V σ :
  Lat σ0 pid H X M lg d V σ →
  quiet pid (Kst (kcpu σ) (klocks σ) (kslp σ) (lbio (kdata σ))).
Proof. intros []. done. Qed.

Lemma lat_block_ok H X M lg d V σ b : Lat σ0 pid H X M lg d V σ → block_ok (V b).
Proof. intros []. rewrite -la_view0. apply bview_ok, la_inv0. Qed.

Lemma lat_bread H X M lg d V σ b Q :
  Lat σ0 pid H X M lg d V σ → 0 ≤ b < disksize d → (∀ i, H !! i ≠ Some b) →
  cache_room H X b →
  (∀ i σ', H !! i = None → Lat σ0 pid (<[i := b]> H) X M lg d V σ' → Q i σ') →
  wp (bc (bread ROOTDEV b)) Q σ.
Proof.
  intros HL Hb HH Hr HQ. pose proof (lat_inner _ _ _ _ _ _ _ HL) as Hq.
  destruct HL as [Hf Hq0 Hi Hl Hd HV]. apply wp_zoom.
  eapply wp_mono; [eapply (bread_inv pid H X M); eauto; by rewrite /= Hd|].
  cbv beta. intros i τ (Hfr&HiN&Hinv&Hdk&Hv). apply HQ; [done|].
  split; simpl; [|by eapply frame_quiet|done|done|by rewrite Hdk|].
  - by eapply (frame_trans σ0 σ).
  - intros b'. rewrite Hv. apply HV.
Qed.

Lemma lat_get H X M lg d V σ i b Q :
  Lat σ0 pid H X M lg d V σ → H !! i = Some b → Q (V b) σ → wp (bc (get_data i)) Q σ.
Proof.
  intros HL Hi HQ. destruct HL as [Hf Hq0 Hinv Hl Hd HV]. apply wp_zoom.
  eapply get_data_inv; [done|done|]. simpl. rewrite HV. by destruct σ as [c L w [? ?]].
Qed.

Lemma lat_put H X M lg d V σ i b y Q :
  Lat σ0 pid H X M lg d V σ → H !! i = Some b → block_ok y →
  (∀ σ', Lat σ0 pid H X ({[b]} ∪ M) lg d (upd V b y) σ' → Q tt σ') →
  wp (bc (put_data i y)) Q σ.
Proof.
  intros HL Hi Hy HQ. destruct HL as [Hf Hq0 Hinv Hl Hd HV]. apply wp_zoom.
  eapply put_data_inv; [done..|]. intros s' Hinv' Hd' Hv'. apply HQ.
  split; simpl; [done|done|done|done|by rewrite Hd'|].
  intros b'. rewrite Hv' /upd /=. case_decide; [done|apply HV].
Qed.

Lemma lat_bwrite H X M lg d V σ i b Q :
  Lat σ0 pid H X M lg d V σ → H !! i = Some b →
  (∀ σ', Lat σ0 pid H (X ∖ {[b]}) (M ∖ {[b]}) lg (dwrite b (V b) d) V σ' → Q tt σ') →
  wp (bc (bwrite i)) Q σ.
Proof.
  intros HL Hi HQ. destruct HL as [Hf Hq0 Hinv Hl Hd HV]. apply wp_zoom.
  eapply bwrite_inv; [done..|]. simpl. intros s' Hinv' Hd' Hv'. apply HQ.
  split; simpl; [done|done|done|done|by rewrite Hd' HV Hd|].
  intros b'. by rewrite Hv' HV.
Qed.

Lemma lat_brelse H X M lg d V σ i b Q :
  Lat σ0 pid H X M lg d V σ → H !! i = Some b → b ∉ M →
  (∀ σ', Lat σ0 pid (delete i H) X M lg d V σ' → Q tt σ') →
  wp (bc (brelse i)) Q σ.
Proof.
  intros HL Hi HM HQ. pose proof (lat_inner _ _ _ _ _ _ _ HL) as Hq.
  destruct HL as [Hf Hq0 Hinv Hl Hd HV]. apply wp_zoom.
  eapply wp_mono; [eapply (brelse_inv pid H X M); eauto|].
  cbv beta. intros [] τ (Hfr&Hinv'&Hdk&Hv). apply HQ.
  split; simpl; [|by eapply frame_quiet|done|done|by rewrite Hdk|].
  - by eapply (frame_trans σ0 σ).
  - intros b'. by rewrite Hv HV.
Qed.

Lemma lat_modlog H X M lg d V σ f Q :
  Lat σ0 pid H X M lg d V σ →
  (∀ σ', Lat σ0 pid H X M (f lg) d V σ' → Q tt σ') → wp (mod_log f) Q σ.
Proof.
  intros [] HQ. apply wp_modify, HQ. split; simpl; try done. by rewrite la_log0.
Qed.

Lemma lat_getlog {A} H X M lg d V σ (f : log → A) Q :
  Lat σ0 pid H X M lg d V σ → Q (f lg) σ → wp (gets (λ s, f (llog s))) Q σ.
Proof. intros [] HQ. apply wp_gets. by rewrite la_log0. Qed.
End Lat.

(** Names of held buffers: adding then removing. *)
Lemma delete_insert_None (H : gmap nat Z) i b : H !! i = None → delete i (<[i := b]> H) = H.
Proof. apply delete_insert_id. Qed.

(** ** Block writes *)

Definition dwrites (ws : list (Z * block)) (d : disk) : disk :=
  foldl (λ d w, dwrite w.1 w.2 d) d ws.

Lemma dwrites_app ws1 ws2 d : dwrites (ws1 ++ ws2) d = dwrites ws2 (dwrites ws1 d).
Proof. apply foldl_app. Qed.

Lemma disksize_dwrites ws d : disksize (dwrites ws d) = disksize d.
Proof. revert d. induction ws as [|w ws IH]; intros d; simpl; [done|]. by rewrite IH. Qed.

Lemma dhist_dwrites ws d : dhist (dwrites ws d) = reverse ws ++ dhist d.
Proof.
  revert d. induction ws as [|[b x] ws IH]; intros d; simpl; [done|].
  rewrite IH reverse_cons -app_assoc //.
Qed.

Lemma dread_dwrites_notin ws d b : b ∉ ws.*1 → dread (dwrites ws d) b = dread d b.
Proof.
  revert d. induction ws as [|[c x] ws IH]; intros d Hb; simpl in *; [done|].
  rewrite IH; [set_solver|]. rewrite dread_dwrite_ne //. set_solver.
Qed.

(** With distinct targets every write is found in the end. *)
Lemma dread_dwrites_in ws d b x :
  NoDup ws.*1 → (b, x) ∈ ws → dread (dwrites ws d) b = x.
Proof.
  revert d. induction ws as [|[c y] ws IH]; intros d Hnd Hin; simpl in *; [set_solver|].
  apply NoDup_cons in Hnd as [Hc Hnd]. apply elem_of_cons in Hin as [[= -> ->]|Hin].
  - rewrite dread_dwrites_notin //. apply dread_dwrite_eq.
  - by apply IH.
Qed.

(** The view after a list of writes. *)
Definition vwrites (ws : list (Z * block)) (V : Z → block) : Z → block :=
  foldl (λ V w, upd V w.1 w.2) V ws.

Lemma vwrites_notin ws V b : b ∉ ws.*1 → vwrites ws V b = V b.
Proof.
  revert V. induction ws as [|[c x] ws IH]; intros V Hb; simpl in *; [done|].
  rewrite IH; [set_solver|]. apply upd_ne. set_solver.
Qed.

Lemma vwrites_in ws V b x : NoDup ws.*1 → (b, x) ∈ ws → vwrites ws V b = x.
Proof.
  revert V. induction ws as [|[c y] ws IH]; intros V Hnd Hin; simpl in *; [set_solver|].
  apply NoDup_cons in Hnd as [Hc Hnd]. apply elem_of_cons in Hin as [[= -> ->]|Hin].
  - rewrite vwrites_notin //. apply upd_eq.
  - by apply IH.
Qed.

(** ** A loop that writes a list of blocks *)

Section CopyLoop.
Context {S0 : Type} (σ0 : kst S0) (pid : Z) (X : gset Z) (lg : log) (d : disk) (V : Z → block).
Context (ws : list (Z * block)).

(** The state after the first [t] writes. *)
Definition copied (t : nat) (σ : kst lstate) : Prop :=
  Lat σ0 pid ∅ (X ∖ list_to_set (take t ws).*1) ∅ lg (dwrites (take t ws) d)
      (vwrites (take t ws) V) σ.

Lemma take_ws_S t b x : ws !! t = Some (b, x) →
  (X ∖ list_to_set (take t ws).*1) ∖ {[b]} = X ∖ list_to_set (take (S t) ws).*1 ∧
  dwrite b x (dwrites (take t ws) d) = dwrites (take (S t) ws) d ∧
  upd (vwrites (take t ws) V) b x = vwrites (take (S t) ws) V.
Proof.
  intros Hw. rewrite (take_S_r _ _ _ Hw). split_and!.
  - rewrite fmap_app list_to_set_app_L /=. set_solver.
  - by rewrite dwrites_app.
  - by rewrite /vwrites foldl_app.
Qed.

Lemma copy_loop body Q σ :
  Lat σ0 pid ∅ X ∅ lg d V σ →
  (∀ t σ', (t < length ws)%nat → copied t σ' → wp (body t) (λ _, copied (S t)) σ') →
  (∀ σ', Lat σ0 pid ∅ (X ∖ list_to_set ws.*1) ∅ lg (dwrites ws d) (vwrites ws V) σ' → Q tt σ') →
  wp (for_each (seq 0 (length ws)) body) Q σ.
Proof.
  intros HL Hb HQ. apply (wp_for_seq _ _ copied).
  - rewrite /copied take_0 /=. by rewrite difference_empty_L.
  - done.
  - intros σ'. rewrite /copied firstn_all. apply HQ.
Qed.
End CopyLoop.

(** ** Transactions *)

(** The log structure describes [n] distinct logged blocks [hs] outside of the
    log, and the log has room for them. *)
Record txn_ok (lg : log) (dsz : Z) (hs : list Z) : Prop := {
  tx_dev : ldev lg = ROOTDEV;
  tx_n : lh_n (lh lg) = length hs;
  tx_blocks : hs = take (length hs) (lh_block (lh lg));
  tx_len : length (lh_block (lh lg)) = Z.to_nat LOGSIZE;
  tx_start : 0 < start lg;
  tx_fit : length hs + 1 ≤ size lg;
  tx_cache : (length hs + 1 ≤ NBUF)%nat;
  tx_end : start lg + size lg ≤ dsz;
  tx_dsz : dsz ≤ 2 ^ 31;
  tx_nodup : NoDup hs;
  tx_home : ∀ h, h ∈ hs → 0 ≤ h < dsz ∧ ¬ (start lg ≤ h < start lg + size lg)
}.

Section Txn.
Context {S0 : Type} (σ0 : kst S0) (pid : Z) (lg : log) (d : disk) (hs : list Z).
Hypothesis Htx : txn_ok lg (disksize d) hs.

Lemma tx_lookup t h : hs !! t = Some h → lh_block (lh lg) !! t = Some h.
Proof.
  intros Ht. pose proof (lookup_lt_Some _ _ _ Ht).
  rewrite (tx_blocks _ _ _ Htx) in Ht. by rewrite lookup_take_lt in Ht.
Qed.

Lemma tx_slot t : (t < length hs)%nat → start lg ≤ start lg + t + 1 < start lg + size lg.
Proof. pose proof (tx_fit _ _ _ Htx). lia. Qed.

Lemma tx_slot_home t h : (t < length hs)%nat → h ∈ hs → start lg + t + 1 ≠ h.
Proof.
  intros Ht Hh <-. pose proof (tx_slot _ Ht). by destruct (tx_home _ _ _ Htx _ Hh).
Qed.

Lemma tx_slot_disk t : (t < length hs)%nat → 0 ≤ start lg + t + 1 < disksize d.
Proof.
  intros Ht. pose proof (tx_slot _ Ht). pose proof (tx_end _ _ _ Htx).
  pose proof (tx_start _ _ _ Htx). lia.
Qed.

(** The log blocks and one home block fit in the cache beside the pinned ones. *)
Lemma tx_room (X : gset Z) b : X ⊆ list_to_set hs →
  cache_room ∅ X b.
Proof.
  intros HX. rewrite /cache_room map_img_empty_L union_empty_r_L.
  pose proof (tx_cache _ _ _ Htx).
  assert (base.size X ≤ length hs)%nat.
  { etrans; [by apply subseteq_size|]. rewrite size_list_to_set //. apply Htx. }
  rewrite (size_union_alt {[b]} X) size_singleton.
  pose proof (subseteq_size (X ∖ {[b]}) X ltac:(set_solver)). lia.
Qed.

Lemma tx_room2 (X : gset Z) i b h : X ⊆ list_to_set hs → h ∈ hs →
  cache_room (<[i := b]> ∅) X h.
Proof.
  intros HX Hh. rewrite /cache_room map_img_insert_notin_L; [done|].
  rewrite map_img_empty_L union_empty_r_L.
  assert ({[h]} ∪ X ⊆ list_to_set hs) as HX' by set_solver.
  pose proof (tx_room _ b HX') as Hr. rewrite /cache_room map_img_empty_L union_empty_r_L in Hr.
  by rewrite union_comm_L.
Qed.

(** ** [write_log] and [install_trans] *)

Definition log_ws (V : Z → block) : list (Z * block) :=
  imap (λ t h, (start lg + t + 1, V h)) hs.
Definition home_ws (V : Z → block) : list (Z * block) :=
  imap (λ t h, (h, V (start lg + t + 1))) hs.

Lemma log_ws_lookup V (t : nat) h : hs !! t = Some h → log_ws V !! t = Some (start lg + t + 1, V h).
Proof. intros Ht. by rewrite /log_ws list_lookup_imap Ht. Qed.

Lemma home_ws_lookup V (t : nat) h : hs !! t = Some h → home_ws V !! t = Some (h, V (start lg + t + 1)).
Proof. intros Ht. by rewrite /home_ws list_lookup_imap Ht. Qed.

Lemma log_ws_fst V b : b ∈ (log_ws V).*1 → ∃ t, (t < length hs)%nat ∧ b = start lg + t + 1.
Proof.
  intros (w&->&Hw)%list_elem_of_fmap. apply list_elem_of_lookup in Hw as (t&Hw).
  rewrite /log_ws list_lookup_imap in Hw. destruct (hs !! t) eqn:Ht; [|done].
  injection Hw as <-. exists t. split; [by eapply lookup_lt_Some|done].
Qed.

Lemma home_ws_fst V : (home_ws V).*1 = hs.
Proof.
  apply list_eq. intros t. rewrite list_lookup_fmap /home_ws list_lookup_imap.
  by destruct (hs !! t).
Qed.

Lemma elem_of_take_fst t (ws : list (Z * block)) b : b ∈ (take t ws).*1 → b ∈ ws.*1.
Proof.
  intros (w&->&Hw)%list_elem_of_fmap. apply list_elem_of_fmap. exists w. split; [done|].
  by apply elem_of_take in Hw as (j&Hj&_); eapply list_elem_of_lookup_2.
Qed.

Lemma home_not_slot V t h : h ∈ hs → h ∉ (take t (log_ws V)).*1.
Proof.
  intros Hh Hin%elem_of_take_fst%log_ws_fst. destruct Hin as (u&Hu&->).
  by eapply tx_slot_home.
Qed.

Lemma slot_not_home V t u : (u < length hs)%nat → start lg + u + 1 ∉ (take t (home_ws V)).*1.
Proof.
  intros Hu Hin%elem_of_take_fst. rewrite home_ws_fst in Hin. by eapply tx_slot_home.
Qed.

Lemma tx_disk_home h : h ∈ hs → 0 ≤ h < disksize d.
Proof. apply Htx. Qed.

(** Two blocks are read into distinct buffers. *)
Lemma insert2_None (i j : nat) (b c : Z) :
  (<[i := b]> ∅ : gmap nat Z) !! j = None → i ≠ j ∧
  (<[j := c]> (<[i := b]> ∅) : gmap nat Z) !! i = Some b ∧
  delete i (<[j := c]> (<[i := b]> (∅ : gmap nat Z))) = <[j := c]> ∅ ∧
  delete j (<[j := c]> (<[i := b]> (∅ : gmap nat Z))) = <[i := b]> ∅.
Proof.
  intros Hj. destruct (decide (i = j)) as [->|Hij]; [by rewrite lookup_insert_eq in Hj|].
  split_and!; [done|by rewrite lookup_insert_ne // lookup_insert_eq| |by rewrite delete_insert_id].
  rewrite delete_insert_ne // delete_insert_id //.
Qed.

Lemma write_log_one_wp X V t σ :
  X ⊆ list_to_set hs → (t < length (log_ws V))%nat →
  copied σ0 pid X lg d V (log_ws V) t σ →
  wp (write_log_one t) (λ _, copied σ0 pid X lg d V (log_ws V) (S t)) σ.
Proof.
  intros HX Ht HL. rewrite /log_ws length_imap in Ht. destruct (lookup_lt_is_Some_2 _ _ Ht) as [h Hh].
  pose proof (list_elem_of_lookup_2 _ _ _ Hh) as Hin. rewrite /write_log_one.
  destruct (take_ws_S X d V _ _ _ _ (log_ws_lookup V _ _ Hh)) as (HX'&Hd'&HV').
  unfold copied in *. set (Xt := X ∖ _) in *.
  assert (Xt ⊆ list_to_set hs) by set_solver.
  apply wp_bind. eapply (lat_getlog _ _ _ _ _ _ _ _ _ id); [done|]. cbv beta.
  rewrite (tx_dev _ _ _ Htx).
  apply wp_bind. eapply lat_bread; [done| | |by apply tx_room|].
  { rewrite disksize_dwrites. by apply tx_slot_disk. }
  { intros i. by rewrite lookup_empty. }
  intros i σ1 Hi HL1. apply wp_bind. eapply wp_deref; [by apply tx_lookup|].
  apply wp_bind. eapply lat_bread; [done| | |by apply tx_room2|].
  { rewrite disksize_dwrites. by apply tx_disk_home. }
  { intros j [[_ ?]|[_ [=]]]%lookup_insert_Some. by eapply tx_slot_home. }
  intros j σ2 Hj HL2. destruct (insert2_None i j (start lg + t + 1) h Hj) as (Hij&Hli&Hdi&Hdj).
  apply wp_bind. eapply lat_get; [done|by apply lookup_insert_eq|].
  rewrite vwrites_notin; [by apply home_not_slot|].
  apply wp_bind. eapply lat_put; [done|done| |].
  { pose proof (lat_block_ok _ _ _ _ _ _ _ _ _ h HL2) as Hok.
    rewrite vwrites_notin in Hok; [by apply home_not_slot|done]. }
  intros σ3 HL3. apply wp_bind. eapply lat_bwrite; [done|done|]. intros σ4 HL4.
  rewrite upd_eq HX' Hd' HV' in HL4. replace (({[_]} ∪ ∅) ∖ _) with (∅ : gset Z) in HL4 by set_solver.
  apply wp_bind. eapply lat_brelse; [done|by apply lookup_insert_eq|set_solver|].
  intros σ5 HL5. rewrite Hdj in HL5.
  eapply lat_brelse; [done|by apply lookup_insert_eq|set_solver|].
  intros σ6 HL6. by rewrite delete_insert_id in HL6.
Qed.

Lemma install_one_wp X V t σ :
  X ⊆ list_to_set hs → (t < length (home_ws V))%nat →
  copied σ0 pid X lg d V (home_ws V) t σ →
  wp (install_one t) (λ _, copied σ0 pid X lg d V (home_ws V) (S t)) σ.
Proof.
  intros HX Ht HL. rewrite /home_ws length_imap in Ht. destruct (lookup_lt_is_Some_2 _ _ Ht) as [h Hh].
  pose proof (list_elem_of_lookup_2 _ _ _ Hh) as Hin. rewrite /install_one.
  destruct (take_ws_S X d V _ _ _ _ (home_ws_lookup V _ _ Hh)) as (HX'&Hd'&HV').
  unfold copied in *. set (Xt := X ∖ _) in *.
  assert (Xt ⊆ list_to_set hs) by set_solver.
  apply wp_bind. eapply (lat_getlog _ _ _ _ _ _ _ _ _ id); [done|]. cbv beta.
  rewrite (tx_dev _ _ _ Htx).
  apply wp_bind. eapply lat_bread; [done| | |by apply tx_room|].
  { rewrite disksize_dwrites. by apply tx_slot_disk. }
  { intros i. by rewrite lookup_empty. }
  intros i σ1 Hi HL1. apply wp_bind. eapply wp_deref; [by apply tx_lookup|].
  apply wp_bind. eapply lat_bread; [done| | |by apply tx_room2|].
  { rewrite disksize_dwrites. by apply tx_disk_home. }
  { intros j [[_ ?]|[_ [=]]]%lookup_insert_Some. by eapply tx_slot_home. }
  intros j σ2 Hj HL2. destruct (insert2_None i j (start lg + t + 1) h Hj) as (Hij&Hli&Hdi&Hdj).
  apply wp_bind. eapply lat_get; [done|done|].
  rewrite vwrites_notin; [by apply slot_not_home|].
  apply wp_bind. eapply lat_put; [done|by apply lookup_insert_eq| |].
  { pose proof (lat_block_ok _ _ _ _ _ _ _ _ _ (start lg + t + 1) HL2) as Hok.
    rewrite vwrites_notin in Hok; [by apply slot_not_home|done]. }
  intros σ3 HL3. apply wp_bind. eapply lat_bwrite; [done|by apply lookup_insert_eq|].
  intros σ4 HL4. rewrite upd_eq HX' Hd' HV' in HL4.
  replace (({[_]} ∪ ∅) ∖ _) with (∅ : gset Z) in HL4 by set_solver.
  apply wp_bind. eapply lat_brelse; [done|done|set_solver|].
  intros σ5 HL5. rewrite Hdi in HL5.
  eapply lat_brelse; [done|by apply lookup_insert_eq|set_solver|].
  intros σ6 HL6. by rewrite delete_insert_id in HL6.
Qed.

Lemma write_log_wp X V Q σ :
  X ⊆ list_to_set hs → Lat σ0 pid ∅ X ∅ lg d V σ →
  (∀ σ', Lat σ0 pid ∅ X ∅ lg (dwrites (log_ws V) d) (vwrites (log_ws V) V) σ' → Q tt σ') →
  wp write_log Q σ.
Proof.
  intros HX HL HQ. rewrite /write_log. apply wp_bind.
  eapply (lat_getlog _ _ _ _ _ _ _ _ _ id); [done|]. rewrite /id (tx_n _ _ _ Htx) Nat2Z.id.
  replace (length hs) with (length (log_ws V)) by apply length_imap.
  eapply copy_loop; [done|intros; by apply write_log_one_wp|].
  intros σ' HL'. apply HQ. replace (X ∖ _) with X in HL'; [done|].
  apply set_eq. intros h. rewrite elem_of_difference elem_of_list_to_set.
  split; [|by intros []]. intros Hh. split; [done|]. rewrite -(firstn_all (log_ws V)).
  apply home_not_slot. set_solver.
Qed.

Lemma install_trans_wp X V Q σ :
  X ⊆ list_to_set hs → Lat σ0 pid ∅ X ∅ lg d V σ →
  (∀ σ', Lat σ0 pid ∅ ∅ ∅ lg (dwrites (home_ws V) d) (vwrites (home_ws V) V) σ' → Q tt σ') →
  wp install_trans Q σ.
Proof.
  intros HX HL HQ. rewrite /install_trans. apply wp_bind.
  eapply (lat_getlog _ _ _ _ _ _ _ _ _ id); [done|]. rewrite /id (tx_n _ _ _ Htx) Nat2Z.id.
  replace (length hs) with (length (home_ws V)) by apply length_imap.
  eapply copy_loop; [done|intros; by apply install_one_wp|].
  intros σ' HL'. apply HQ. rewrite home_ws_fst in HL'.
  by replace (X ∖ _) with (∅ : gset Z) in HL' by set_solver.
Qed.

(** [write_head] writes the header block and nothing else. *)
Lemma write_head_wp X V Q σ :
  X ⊆ list_to_set hs → Lat σ0 pid ∅ X ∅ lg d V σ →
  (∀ σ', let h := hdr_store (lh_n (lh lg)) (lh_block (lh lg)) (V (start lg)) in
         Lat σ0 pid ∅ X ∅ lg (dwrite (start lg) h d) (upd V (start lg) h) σ' → Q tt σ') →
  wp write_head Q σ.
Proof.
  intros HX HL HQ. rewrite /write_head. apply wp_bind.
  eapply (lat_getlog _ _ _ _ _ _ _ _ _ id); [done|]. rewrite /id (tx_dev _ _ _ Htx).
  pose proof (tx_start _ _ _ Htx). pose proof (tx_end _ _ _ Htx). pose proof (tx_fit _ _ _ Htx).
  apply wp_bind. eapply lat_bread; [done|lia|intros i; by rewrite lookup_empty|by apply tx_room|].
  intros i σ1 Hi HL1. apply wp_bind. eapply lat_get; [done|by apply lookup_insert_eq|].
  apply wp_bind. eapply lat_put; [done|by apply lookup_insert_eq| |].
  { apply hdr_store_ok; [|by eapply lat_block_ok]. rewrite (tx_n _ _ _ Htx).
    pose proof (f_equal length (tx_blocks _ _ _ Htx)) as Hl. rewrite length_take (tx_len _ _ _ Htx) in Hl.
    unfold LOGSIZE, MAXOPBLOCKS in *. lia. }
  intros σ2 HL2. apply wp_bind. eapply lat_bwrite; [done|by apply lookup_insert_eq|].
  intros σ3 HL3. rewrite upd_eq in HL3.
  replace (({[_]} ∪ ∅) ∖ _) with (∅ : gset Z) in HL3 by set_solver.
  replace (X ∖ {[start lg]}) with X in HL3.
  2:{ apply set_eq. intros b. split; [|set_solver]. intros Hb. apply elem_of_difference.
      split; [done|]. intros ->%elem_of_singleton.
      destruct (tx_home _ _ _ Htx (start lg)); [set_solver|lia]. }
  eapply lat_brelse; [done|by apply lookup_insert_eq|set_solver|].
  intros σ4 HL4. apply HQ. by rewrite delete_insert_id in HL4.
Qed.
End Txn.

(** ** [commit] and recovery as lists of writes *)

Definition hdr_blocks (x : block) : list Z :=
  hdr_entry x <$> seq 0 (Z.to_nat (hdr_n x)).

Definition empty_log (lg : log) : log := set_lh (Lh 0 (lh_block (lh lg))) lg.

Lemma empty_log_ok lg dsz hs : txn_ok lg dsz hs → txn_ok (empty_log lg) dsz [].
Proof.
  intros []. split; simpl; try done; [lia|vm_compute; lia|apply NoDup_nil_2|set_solver].
Qed.

Definition commit_ws (lg : log) (hs : list Z) (V : Z → block) : list (Z * block) :=
  let h1 := hdr_store (lh_n (lh lg)) (lh_block (lh lg)) (V (start lg)) in
  log_ws lg hs V ++ [(start lg, h1)] ++ ((λ h, (h, V h)) <$> hs) ++
  [(start lg, hdr_store 0 (lh_block (lh lg)) h1)].

(** After the log is written, its slots hold the home blocks. *)
Lemma home_ws_logged lg dsz hs V h1 :
  txn_ok lg dsz hs →
  home_ws lg hs (upd (vwrites (log_ws lg hs V) V) (start lg) h1) = (λ h, (h, V h)) <$> hs.
Proof.
  intros Htx. apply list_eq. intros t. rewrite /home_ws list_lookup_imap list_lookup_fmap.
  destruct (hs !! t) as [h|] eqn:Ht; [|done]. simpl. do 2 f_equal.
  rewrite upd_ne; [lia|]. apply vwrites_in.
  - apply NoDup_alt. intros i j b Hi Hj. rewrite !list_lookup_fmap /log_ws !list_lookup_imap in Hi Hj.
    destruct (hs !! i); [|done]. destruct (hs !! j); [|done].
    simpl in *. simplify_eq. lia.
  - eapply list_elem_of_lookup_2. by apply log_ws_lookup.
Qed.

Lemma home_view lg dsz hs V h1 b :
  txn_ok lg dsz hs → ¬ (start lg ≤ b < start lg + size lg) →
  upd (vwrites (log_ws lg hs V) V) (start lg) h1 b = V b.
Proof.
  intros Htx Hb. pose proof (tx_fit _ _ _ Htx).
  rewrite upd_ne; [lia|]. apply vwrites_notin. intros (t&Ht&->)%log_ws_fst.
  pose proof (tx_fit _ _ _ Htx). lia.
Qed.

(** Writing home blocks their own view changes nothing. *)
Lemma vwrites_same hs V W :
  (∀ h, h ∈ hs → W h = V h) → ∀ b, vwrites ((λ h, (h, V h)) <$> hs) W b = W b.
Proof.
  revert W. induction hs as [|h hs IH]; intros W HW b; simpl; [done|].
  rewrite IH.
  - intros h' Hh'. rewrite /upd. case_decide; [by subst|]. apply HW. set_solver.
  - rewrite /upd. case_decide as Hbh; [|done]. subst. symmetry. apply HW. set_solver.
Qed.

Lemma lat_view_eq {S0} (σ0 : kst S0) pid H X M lg d V V' σ :
  Lat σ0 pid H X M lg d V σ → (∀ b, V b = V' b) → Lat σ0 pid H X M lg d V' σ.
Proof. intros [] HV. split; try done. intros b. by rewrite -HV. Qed.

Section Commit.
Context {S0 : Type} (σ0 : kst S0) (pid : Z) (lg : log) (d : disk) (hs : list Z) (V : Z → block).
Hypothesis Htx : txn_ok lg (disksize d) hs.

Lemma commit_wp Q σ :
  hs ≠ [] → Lat σ0 pid ∅ (list_to_set hs) ∅ lg d V σ →
  (∀ σ' V', Lat σ0 pid ∅ ∅ ∅ (empty_log lg) (dwrites (commit_ws lg hs V) d) V' σ' →
     (∀ b, ¬ (start lg ≤ b < start lg + size lg) → V' b = V b) → Q tt σ') →
  wp commit Q σ.
Proof.
  intros Hhs HL HQ. rewrite /commit. apply wp_bind.
  eapply (lat_getlog _ _ _ _ _ _ _ _ _ id); [done|]. rewrite /id.
  assert (0 <? lh_n (lh lg) = true) as ->.
  { rewrite (tx_n _ _ _ Htx). apply Z.ltb_lt. destruct hs; [done|]. simpl. lia. }
  apply wp_bind. eapply write_log_wp; [done|done|done|]. intros σ1 HL1.
  apply wp_bind. eapply write_head_wp; [|done|exact HL1|].
  { by rewrite disksize_dwrites. }
  cbv zeta. intros σ2 HL2. rewrite vwrites_notin in HL2.
  { intros (t&Ht&He)%log_ws_fst. lia. }
  set (h1 := hdr_store _ _ _) in *.
  apply wp_bind. eapply install_trans_wp; [|done|exact HL2|].
  { by rewrite /= disksize_dwrites. }
  intros σ3 HL3. rewrite (home_ws_logged _ _ _ _ _ Htx) in HL3.
  apply wp_bind. eapply lat_modlog; [done|]. intros σ4 HL4.
  eapply (write_head_wp _ _ _ _ []); [| |exact HL4|]; [|set_solver|].
  { rewrite ?disksize_dwrites /= ?disksize_dwrites. by eapply empty_log_ok. }
  cbv zeta. intros σ5 HL5. simpl in HL5. eapply HQ.
  - rewrite /commit_ws !dwrites_app /=.
    rewrite vwrites_same in HL5; [|by rewrite upd_eq in HL5].
    intros h Hh. apply (home_view _ _ _ _ _ _ Htx). by apply Htx.
  - intros b Hb. pose proof (tx_fit _ _ _ Htx). rewrite upd_ne; [lia|].
    rewrite vwrites_same; [|by apply (home_view _ _ _ _ _ _ Htx)].
    intros h Hh. apply (home_view _ _ _ _ _ _ Htx). by apply Htx.
Qed.
End Commit.
