(* ===== verification/LogCrash.v ===== *)
(** * Crash safety of the log

    What [recover_from_log] writes, as a function of the disk it starts from,
    and the atomicity of [commit]: whatever prefix of its writes reaches the
    disk before a crash, and however often recovery itself is interrupted, the
    blocks outside of the log end up all old or all new. *)

From S2P Require Import Prelude CInt Kernel Params Sleeplock BufList Bio BioSpec Cache Log LogSpec.

(** ** The log found on a disk *)

(** The log structure after [read_head]. *)
Definition loaded (lg : log) (x : block) : log :=
  set_lh (Lh (hdr_n x) (hdr_blocks x ++ drop (length (hdr_blocks x)) (lh_block (lh lg)))) lg.

Lemma length_hdr_blocks x : length (hdr_blocks x) = Z.to_nat (hdr_n x).
Proof. by rewrite length_fmap length_seq. Qed.

(** A header block that recovery can act on. *)
Record hdr_ok (st sz dsz : Z) (x : block) : Prop := {
  ho_n : 0 ≤ hdr_n x;
  ho_fit : hdr_n x + 1 ≤ sz;
  ho_cache : hdr_n x + 1 ≤ NBUF;
  ho_nodup : NoDup (hdr_blocks x);
  ho_home : ∀ h, h ∈ hdr_blocks x → 0 ≤ h < dsz ∧ ¬ (st ≤ h < st + sz)
}.

(** The geometry of the log area, as [initlog] sets it up. *)
Record geom_ok (lg : log) (dsz : Z) : Prop := {
  ge_dev : ldev lg = ROOTDEV;
  ge_len : length (lh_block (lh lg)) = Z.to_nat LOGSIZE;
  ge_start : 0 < start lg;
  ge_size : 1 ≤ size lg;
  ge_end : start lg + size lg ≤ dsz;
  ge_dsz : dsz ≤ 2 ^ 31
}.

Lemma txn_geom lg dsz hs : txn_ok lg dsz hs → geom_ok lg dsz.
Proof. intros []. split; try done. lia. Qed.

Lemma loaded_ok lg dsz x :
  geom_ok lg dsz → hdr_ok (start lg) (size lg) dsz x →
  txn_ok (loaded lg x) dsz (hdr_blocks x).
Proof.
  intros [] []. assert (hdr_n x ≤ LOGSIZE) by (unfold NBUF, LOGSIZE, MAXOPBLOCKS in *; lia).
  split; simpl; rewrite ?length_hdr_blocks; try done; try lia.
  - by rewrite -length_hdr_blocks take_app_length.
  - rewrite length_app length_drop length_hdr_blocks ge_len0.
    unfold LOGSIZE, MAXOPBLOCKS in *. lia.
Qed.

Lemma hdr_blocks_take_S x t :
  hdr_entry x <$> seq 0 (S t) = (hdr_entry x <$> seq 0 t) ++ [hdr_entry x t].
Proof. by rewrite seq_S fmap_app. Qed.

(** One iteration of the loop of [read_head]. *)
Lemma insert_prefix_S (x : block) (bl : list Z) t y :
  bl !! t = Some y →
  <[t := hdr_entry x t]> ((hdr_entry x <$> seq 0 t) ++ drop t bl)
  = (hdr_entry x <$> seq 0 (S t)) ++ drop (S t) bl.
Proof.
  intros Ht. rewrite hdr_blocks_take_S (drop_S _ _ _ Ht) -app_assoc.
  rewrite insert_app_r_alt; rewrite length_fmap length_seq; [done|]. by rewrite Nat.sub_diag.
Qed.

Section Recover.
Context {S0 : Type} (σ0 : kst S0) (pid : Z) (lg : log) (d : disk) (V : Z → block).
Hypothesis Hg : geom_ok lg (disksize d).
Hypothesis Hh : hdr_ok (start lg) (size lg) (disksize d) (V (start lg)).

Lemma read_head_wp Q σ :
  Lat σ0 pid ∅ ∅ ∅ lg d V σ →
  (∀ σ', Lat σ0 pid ∅ ∅ ∅ (loaded lg (V (start lg))) d V σ' → Q tt σ') →
  wp read_head Q σ.
Proof.
  intros HL HQ. pose proof (loaded_ok _ _ _ Hg Hh) as Htx. destruct Hg.
  rewrite /read_head. apply wp_bind.
  eapply (lat_getlog _ _ _ _ _ _ _ _ _ id); [done|]. rewrite /id ge_dev0.
  apply wp_bind. eapply lat_bread; [done|lia|intros i; by rewrite lookup_empty| |].
  { apply (tx_room _ d _ Htx). set_solver. }
  intros i σ1 _ HL1. apply wp_bind. eapply lat_get; [done|by apply lookup_insert_eq|].
  set (x := V (start lg)) in *.
  apply wp_bind. eapply lat_modlog; [done|]. intros σ2 HL2. apply wp_bind.
  eapply (wp_for_seq _ _ (λ t σ, Lat σ0 pid (<[i := start lg]> ∅) ∅ ∅
    (set_lh (Lh (hdr_n x) ((hdr_entry x <$> seq 0 t) ++ drop t (lh_block (lh lg)))) lg) d V σ)).
  - simpl. by rewrite drop_0.
  - intros t σ' Ht HL'. apply wp_bind.
    eapply (lat_getlog _ _ _ _ _ _ _ _ _ id); [done|]. rewrite /id /=.
    assert (t < length (lh_block (lh lg)))%nat as Hlt.
    { destruct Hh. rewrite ge_len0. unfold NBUF, LOGSIZE, MAXOPBLOCKS in *. lia. }
    destruct (lookup_lt_is_Some_2 _ _ Hlt) as [y Hy].
    apply wp_bind. eapply (wp_deref _ y).
    { rewrite lookup_app_r; [by rewrite length_fmap length_seq|].
      by rewrite length_fmap length_seq lookup_drop Nat.sub_diag Nat.add_0_r. }
    eapply lat_modlog; [done|]. intros σ'' HL''. simpl in HL''.
    by rewrite (insert_prefix_S _ _ _ _ Hy) in HL''.
  - intros σ3 HL3. eapply lat_brelse; [done|by apply lookup_insert_eq|set_solver|].
    intros σ4 HL4. rewrite delete_insert_id // in HL4. apply HQ.
    by rewrite /loaded length_hdr_blocks.
Qed.

Definition recover_ws : list (Z * block) :=
  home_ws lg (hdr_blocks (V (start lg))) V ++
  [(start lg, hdr_store 0 (lh_block (lh (loaded lg (V (start lg))))) (V (start lg)))].

Lemma recover_wp Q σ :
  Lat σ0 pid ∅ ∅ ∅ lg d V σ →
  (∀ σ' V', Lat σ0 pid ∅ ∅ ∅ (empty_log (loaded lg (V (start lg)))) (dwrites recover_ws d) V' σ' →
     Q tt σ') →
  wp recover_from_log Q σ.
Proof.
  intros HL HQ. pose proof (loaded_ok _ _ _ Hg Hh) as Htx.
  rewrite /recover_from_log. apply wp_bind. eapply read_head_wp; [done|]. intros σ1 HL1.
  apply wp_bind. eapply install_trans_wp; [done| |exact HL1|]; [set_solver|].
  intros σ2 HL2. apply wp_bind. eapply lat_modlog; [done|]. intros σ3 HL3.
  eapply (write_head_wp _ _ _ _ []); [| |exact HL3|]; [|set_solver|].
  { rewrite disksize_dwrites. by eapply empty_log_ok. }
  cbv zeta. intros σ4 HL4. simpl in HL4. eapply HQ.
  rewrite vwrites_notin in HL4.
  - rewrite home_ws_fst. intros Hin. destruct (tx_home _ _ _ Htx _ Hin) as [_ []].
    simpl. destruct Hg. lia.
  - by rewrite /recover_ws dwrites_app.
Qed.
End Recover.

(** ** Recovery as a function of the disk *)

Definition recover_disk_ws (st : Z) (d : disk) : list (Z * block) :=
  imap (λ t h, (h, dread d (st + t + 1))) (hdr_blocks (dread d st)) ++
  [(st, hdr_store 0 [] (dread d st))].

Definition recovered (st : Z) (d : disk) : disk := dwrites (recover_disk_ws st d) d.

Lemma imap_home_fst (f : nat → Z → block) (hs : list Z) :
  (imap (λ t h, (h, f t h)) hs).*1 = hs.
Proof.
  apply list_eq. intros t. rewrite list_lookup_fmap list_lookup_imap. by destruct (hs !! t).
Qed.

Lemma recover_ws_fst st d : (recover_disk_ws st d).*1 = hdr_blocks (dread d st) ++ [st].
Proof. by rewrite /recover_disk_ws fmap_app (imap_home_fst (λ t _, dread d (st + t + 1))). Qed.

(** Agreement of two disks, or of a disk and a view, outside of the log area. *)
Definition same_outside (st sz : Z) (V W : Z → block) : Prop :=
  ∀ b, ¬ (st ≤ b < st + sz) → V b = W b.

Definition disk_hdr_ok (st sz : Z) (d : disk) : Prop :=
  hdr_ok st sz (disksize d) (dread d st) ∧ block_ok (dread d st).

Lemma clear_n bl x : block_ok x → hdr_n (hdr_store 0 bl x) = 0.
Proof. intros. apply hdr_n_store; [|done]. unfold LOGSIZE, MAXOPBLOCKS. lia. Qed.

Lemma clear_ok bl x : block_ok x → block_ok (hdr_store 0 bl x).
Proof. intros. apply hdr_store_ok; [|done]. unfold LOGSIZE, MAXOPBLOCKS. lia. Qed.

Lemma hdr_blocks_nil x : hdr_n x = 0 → hdr_blocks x = [].
Proof. rewrite /hdr_blocks. by intros ->. Qed.

Lemma hdr_ok_nil st sz dsz x : hdr_n x = 0 → 1 ≤ sz → hdr_ok st sz dsz x.
Proof.
  intros Hn Hsz. split; rewrite ?(hdr_blocks_nil _ Hn) ?Hn; try lia.
  - vm_compute. done.
  - apply NoDup_nil_2.
  - set_solver.
Qed.

Section Recovered.
Context (st sz : Z) (Hsz : 1 ≤ sz).

Lemma hdr_blocks_out d b : disk_hdr_ok st sz d → st ≤ b < st + sz → b ∉ hdr_blocks (dread d st).
Proof. intros [[] _] Hb Hin. by destruct (ho_home0 _ Hin). Qed.

(** A logged block gets the contents of its log slot. *)
Lemma recovered_home d (t : nat) h :
  disk_hdr_ok st sz d → hdr_blocks (dread d st) !! t = Some h →
  dread (recovered st d) h = dread d (st + t + 1).
Proof.
  intros Hok Ht. rewrite /recovered dwrites_app /=.
  assert (h ≠ st).
  { intros ->. apply (hdr_blocks_out d st Hok); [lia|]. by eapply list_elem_of_lookup_2. }
  rewrite dread_dwrite_ne //. apply dread_dwrites_in.
  - rewrite (imap_home_fst (λ t _, dread d (st + t + 1))). apply Hok.
  - apply (list_elem_of_lookup_2 _ t). by rewrite list_lookup_imap Ht.
Qed.

(** Every other block keeps its contents. *)
Lemma recovered_other d b :
  b ∉ hdr_blocks (dread d st) → b ≠ st → dread (recovered st d) b = dread d b.
Proof.
  intros Hb Hst. rewrite /recovered dwrites_app /= dread_dwrite_ne //.
  apply dread_dwrites_notin. by rewrite (imap_home_fst (λ t _, dread d (st + t + 1))).
Qed.

Lemma recovered_hdr d : dread (recovered st d) st = hdr_store 0 [] (dread d st).
Proof. rewrite /recovered dwrites_app /=. apply dread_dwrite_eq. Qed.

(** With an empty header recovery only rewrites the header. *)
Lemma recovered_empty d :
  hdr_n (dread d st) = 0 → same_outside st sz (dread (recovered st d)) (dread d).
Proof.
  intros Hn b Hb. apply recovered_other; [|lia]. rewrite (hdr_blocks_nil _ Hn). set_solver.
Qed.

(** Two disks with the same header and log slots that agree on the blocks
    that are not logged are recovered to the same contents. *)
Lemma recovered_same d1 d2 :
  disk_hdr_ok st sz d1 → disk_hdr_ok st sz d2 →
  dread d1 st = dread d2 st →
  (∀ t : nat, (t < length (hdr_blocks (dread d1 st)))%nat →
     dread d1 (st + t + 1) = dread d2 (st + t + 1)) →
  (∀ b, ¬ (st ≤ b < st + sz) → b ∉ hdr_blocks (dread d1 st) → dread d1 b = dread d2 b) →
  same_outside st sz (dread (recovered st d1)) (dread (recovered st d2)).
Proof.
  intros H1 H2 Hst Hslot Ho b Hb.
  destruct (decide (b ∈ hdr_blocks (dread d1 st))) as [Hin|Hin].
  - apply list_elem_of_lookup in Hin as (t&Ht). rewrite (recovered_home d1 t) //.
    rewrite (recovered_home d2 t) -?Hst //. apply Hslot. by eapply lookup_lt_Some.
  - rewrite !recovered_other -?Hst //; [lia..|]. by apply Ho.
Qed.

(** ** Crashes during recovery *)

Lemma dread_home_prefix d ws k b :
  b ∉ ws.*1 → dread (dwrites (take k ws) d) b = dread d b.
Proof. intros Hb. apply dread_dwrites_notin. by intros ?%elem_of_take_fst. Qed.

Lemma recover_crash d k :
  disk_hdr_ok st sz d →
  let dc := dwrites (take k (recover_disk_ws st d)) d in
  disk_hdr_ok st sz dc ∧ same_outside st sz (dread (recovered st dc)) (dread (recovered st d)).
Proof.
  intros Hok dc.
  set (ws := imap (λ t h, (h, dread d (st + t + 1))) (hdr_blocks (dread d st))).
  assert (ws.*1 = hdr_blocks (dread d st)) as Hws.
  { apply (imap_home_fst (λ t _, dread d (st + t + 1))). }
  destruct (decide (k ≤ length ws)%nat) as [Hk|Hk].
  - assert (dc = dwrites (take k ws) d) as Hdc by by rewrite /dc /recover_disk_ws take_app_le.
    assert (∀ b, b ∉ hdr_blocks (dread d st) → dread dc b = dread d b) as Hout.
    { intros b Hb. rewrite Hdc. apply dread_home_prefix. by rewrite Hws. }
    assert (dread dc st = dread d st) as Hst by (apply Hout, hdr_blocks_out; [done|lia]).
    assert (disk_hdr_ok st sz dc) as Hokc.
    { rewrite /disk_hdr_ok Hst Hdc disksize_dwrites. done. }
    split; [done|]. apply recovered_same; [done|done|done| |].
    + rewrite Hst. intros t Ht. apply Hout, hdr_blocks_out; [done|]. rewrite length_hdr_blocks in Ht.
      destruct Hok as [[] _]. lia.
    + rewrite Hst. auto.
  - assert (dc = recovered st d) as ->.
    { rewrite /dc take_ge //. rewrite length_app /= -/ws. lia. }
    assert (hdr_n (dread (recovered st d) st) = 0) as Hn.
    { rewrite recovered_hdr. apply clear_n, Hok. }
    split; [|by apply recovered_empty]. split; [by apply hdr_ok_nil|].
    rewrite recovered_hdr. apply clear_ok, Hok.
Qed.
End Recovered.

(** ** Crashes during [commit] *)

Section CommitCrash.
Context (lg : log) (hs : list Z) (d : disk) (V : Z → block).
Hypothesis Htx : txn_ok lg (disksize d) hs.
Hypothesis Hdisk : ∀ b, block_ok (dread d b).
Hypothesis Hempty : hdr_n (dread d (start lg)) = 0.
Hypothesis HV : ∀ b, b ∉ hs → V b = dread d b.

Let st := start lg.
Let sz := size lg.
Let h1 := hdr_store (lh_n (lh lg)) (lh_block (lh lg)) (V st).
Let homes := (λ h, (h, V h)) <$> hs.

Lemma tx_le_log : length hs ≤ LOGSIZE.
Proof.
  pose proof (f_equal length (tx_blocks _ _ _ Htx)) as Hl.
  rewrite length_take (tx_len _ _ _ Htx) in Hl. unfold LOGSIZE, MAXOPBLOCKS in *. lia.
Qed.

Lemma start_not_home : st ∉ hs.
Proof.
  intros Hin. destruct (tx_home _ _ _ Htx _ Hin) as [_ []].
  pose proof (tx_fit _ _ _ Htx). rewrite /st. lia.
Qed.

Lemma V_start_ok : block_ok (V st).
Proof. rewrite HV; [apply start_not_home|done]. Qed.

Lemma h1_n : hdr_n h1 = length hs.
Proof.
  rewrite /h1 hdr_n_store ?(tx_n _ _ _ Htx) //; [|apply V_start_ok]. pose proof tx_le_log. lia.
Qed.

(** The header written by [commit] lists the home blocks. *)
Lemma h1_blocks : hdr_blocks h1 = hs.
Proof.
  pose proof tx_le_log. apply list_eq. intros t. rewrite /hdr_blocks h1_n Nat2Z.id list_lookup_fmap.
  destruct (hs !! t) as [h|] eqn:Ht.
  - pose proof (lookup_lt_Some _ _ _ Ht). rewrite lookup_seq_lt //=. f_equal.
    apply hdr_entry_store; rewrite ?(tx_n _ _ _ Htx); [lia|apply V_start_ok|lia| |].
    + by eapply tx_lookup.
    + destruct (tx_home _ _ _ Htx h) as [? _]; [by eapply list_elem_of_lookup_2|].
      pose proof (tx_dsz _ _ _ Htx). lia.
  - apply lookup_ge_None in Ht. by rewrite lookup_seq_ge.
Qed.

Lemma h1_ok : hdr_ok st sz (disksize d) h1.
Proof.
  destruct Htx. split; rewrite ?h1_blocks ?h1_n //; lia.
Qed.

(** The disk between the header write and the end of the installation. *)
Definition committed_disk (k : nat) : disk :=
  dwrites (take k homes) (dwrite st h1 (dwrites (log_ws lg hs V) d)).

Lemma homes_fst : homes.*1 = hs.
Proof. rewrite /homes -list_fmap_compose. apply list_fmap_id. Qed.

Lemma committed_st k : dread (committed_disk k) st = h1.
Proof.
  rewrite /committed_disk dread_home_prefix; [rewrite homes_fst; apply start_not_home|].
  apply dread_dwrite_eq.
Qed.

Lemma log_ws_NoDup : NoDup (log_ws lg hs V).*1.
Proof.
  apply NoDup_alt. intros i j b Hi Hj. rewrite !list_lookup_fmap /log_ws !list_lookup_imap in Hi Hj.
  destruct (hs !! i); [|done]. destruct (hs !! j); [|done]. simpl in *. simplify_eq. lia.
Qed.

Lemma committed_slot k (t : nat) h : hs !! t = Some h → dread (committed_disk k) (st + t + 1) = V h.
Proof.
  intros Ht. pose proof (lookup_lt_Some _ _ _ Ht).
  rewrite /committed_disk dread_home_prefix.
  { rewrite homes_fst. intros Hin. by eapply tx_slot_home. }
  rewrite dread_dwrite_ne; [lia|]. apply dread_dwrites_in; [apply log_ws_NoDup|].
  apply (list_elem_of_lookup_2 _ t). by apply log_ws_lookup.
Qed.

Lemma outside_not_slot b : ¬ (st ≤ b < st + sz) → b ∉ (log_ws lg hs V).*1.
Proof.
  intros Hb (t&Ht&->)%log_ws_fst. pose proof (tx_slot _ _ _ Htx t Ht). rewrite /st /sz in Hb. lia.
Qed.

Lemma committed_hdr_ok k : disk_hdr_ok st sz (committed_disk k).
Proof.
  rewrite /disk_hdr_ok committed_st /committed_disk disksize_dwrites /= disksize_dwrites.
  split; [apply h1_ok|]. apply hdr_store_ok; [|apply V_start_ok].
  rewrite (tx_n _ _ _ Htx). pose proof tx_le_log. lia.
Qed.

Lemma sz_pos : 1 ≤ sz.
Proof. pose proof (tx_fit _ _ _ Htx). rewrite /sz. lia. Qed.

Lemma committed_new k : same_outside st sz (dread (recovered st (committed_disk k))) V.
Proof.
  intros b Hb. destruct (decide (b ∈ hs)) as [Hin|Hin].
  - apply list_elem_of_lookup in Hin as (t&Ht).
    rewrite (recovered_home st sz sz_pos _ t); [apply committed_hdr_ok|by rewrite committed_st h1_blocks|].
    by apply committed_slot.
  - pose proof sz_pos. rewrite recovered_other; [by rewrite committed_st h1_blocks|lia|].
    rewrite /committed_disk dread_home_prefix; [by rewrite homes_fst|].
    rewrite dread_dwrite_ne; [lia|]. rewrite dread_dwrites_notin; [by apply outside_not_slot|].
    by rewrite HV.
Qed.

(** The disk after the last header write. *)
Let dfinal := dwrites (commit_ws lg hs V) d.

Lemma dfinal_eq : dfinal = dwrite st (hdr_store 0 (lh_block (lh lg)) h1) (committed_disk (length hs)).
Proof.
  rewrite /dfinal /commit_ws !dwrites_app /= /committed_disk take_ge //.
  by rewrite /homes length_fmap.
Qed.

Lemma dfinal_new : same_outside st sz (dread dfinal) V.
Proof.
  intros b Hb. pose proof sz_pos. rewrite dfinal_eq dread_dwrite_ne; [lia|].
  destruct (decide (b ∈ hs)) as [Hin|Hin].
  - rewrite /committed_disk take_ge; [by rewrite /homes length_fmap|].
    apply dread_dwrites_in; [rewrite homes_fst; apply Htx|]. apply list_elem_of_fmap. eauto.
  - rewrite /committed_disk dread_home_prefix; [by rewrite homes_fst|].
    rewrite dread_dwrite_ne; [lia|]. rewrite dread_dwrites_notin; [by apply outside_not_slot|].
    by rewrite HV.
Qed.

Lemma dfinal_st : hdr_n (dread dfinal st) = 0 ∧ block_ok (dread dfinal st).
Proof.
  rewrite dfinal_eq dread_dwrite_eq. pose proof (committed_hdr_ok 0) as [_ Hok].
  rewrite committed_st in Hok. split; [by apply clear_n|by apply clear_ok].
Qed.

(** Before the header write the log on disk is still empty. *)
Lemma logging_disk k :
  let dc := dwrites (take k (log_ws lg hs V)) d in
  disk_hdr_ok st sz dc ∧ hdr_blocks (dread dc st) = [] ∧
  same_outside st sz (dread (recovered st dc)) (dread d).
Proof.
  intros dc. pose proof sz_pos.
  assert (∀ b, (b = st ∨ ¬ (st ≤ b < st + sz)) → dread dc b = dread d b) as Hb.
  { intros b Hb. apply dread_home_prefix. destruct Hb as [->|Hb]; [|by apply outside_not_slot].
    intros (t&Ht&He)%log_ws_fst. rewrite /st in He. lia. }
  assert (hdr_n (dread dc st) = 0) as Hn by (rewrite Hb; auto).
  split_and!.
  - split; [by apply hdr_ok_nil|]. rewrite Hb; auto.
  - by apply hdr_blocks_nil.
  - intros b Ho. rewrite (recovered_empty st sz) //. apply Hb. auto.
Qed.

Lemma commit_crash k :
  let dc := dwrites (take k (commit_ws lg hs V)) d in
  disk_hdr_ok st sz dc ∧ hdr_blocks (dread dc st) ⊆ hs ∧
  (same_outside st sz (dread (recovered st dc)) (dread d) ∨
   same_outside st sz (dread (recovered st dc)) V).
Proof.
  set (L := length (log_ws lg hs V)).
  assert (length homes = length hs) as Hlh by by rewrite /homes length_fmap.
  destruct (decide (k ≤ L)%nat) as [Hk|Hk].
  { cbv zeta. rewrite /commit_ws take_app_le //. destruct (logging_disk k) as (?&->&?).
    split_and!; [done|set_solver|by left]. }
  destruct (decide (k ≤ L + 1 + length hs)%nat) as [Hk'|Hk'].
  - assert (dwrites (take k (commit_ws lg hs V)) d = committed_disk (k - L - 1)) as ->.
    { rewrite /commit_ws take_app_ge; [lia|]. rewrite -/L. replace (k - L)%nat with (S (k - L - 1)) by lia.
      rewrite /= take_app_le; [rewrite -/homes Hlh; lia|]. rewrite dwrites_app. by rewrite Nat.sub_0_r. }
    split_and!; [apply committed_hdr_ok|by rewrite committed_st h1_blocks|].
    right. apply committed_new.
  - assert (dwrites (take k (commit_ws lg hs V)) d = dfinal) as ->.
    { rewrite take_ge // /commit_ws !length_app /= -/L -/homes Hlh. lia. }
    destruct dfinal_st as [Hn Hok]. pose proof sz_pos.
    split_and!; [split; [by apply hdr_ok_nil|done]|rewrite hdr_blocks_nil //; set_solver|].
    right. intros b Hb.
    rewrite (recovered_empty st sz) //. by apply dfinal_new.
Qed.
End CommitCrash.

(** ** Booting on a crashed disk *)

Definition bss_lstate (d : disk) : lstate :=
  Lstate (bss_bio d) (Log 0 0 0 0 0 (Lh 0 (replicate (Z.to_nat LOGSIZE) 0))).

(** What [main] and the first [forkret] do to the disk layers. *)
Definition boot : K lstate unit := bc binit;; initlog ROOTDEV.

(** The superblock places the log at [st], with [sz] blocks, inside the disk. *)
Record log_layout (st sz : Z) (d : disk) : Prop := {
  ll_start : s32 (sb_logstart (sb_decode (dread d 1))) = st;
  ll_size : s32 (sb_nlog (sb_decode (dread d 1))) = sz;
  ll_super : 1 < st;
  ll_pos : 1 ≤ sz;
  ll_end : st + sz ≤ disksize d;
  ll_dsz : disksize d ≤ 2 ^ 31;
  ll_ok : ∀ b, block_ok (dread d b)
}.

Lemma dwrites_blocks_ok ws d :
  Forall (λ w, block_ok w.2) ws → (∀ b, block_ok (dread d b)) →
  ∀ b, block_ok (dread (dwrites ws d) b).
Proof.
  revert d. induction ws as [|[c y] ws IH]; intros d Hw Hd; simpl; [done|].
  apply Forall_cons in Hw as [Hy Hw]. apply IH; [done|]. intros b.
  destruct (decide (b = c)) as [->|]; [by rewrite dread_dwrite_eq|by rewrite dread_dwrite_ne].
Qed.

Lemma layout_dwrites st sz d ws :
  log_layout st sz d → 1 ∉ ws.*1 → Forall (λ w, block_ok w.2) ws →
  log_layout st sz (dwrites ws d).
Proof.
  intros Hl H1 Hw. pose proof (dwrites_blocks_ok _ _ Hw (ll_ok _ _ _ Hl)).
  destruct Hl. split; rewrite ?disksize_dwrites ?dread_dwrites_notin //.
Qed.

Lemma wp_readsb {S0} (σ0 : kst S0) pid lg d V σ Q :
  Lat σ0 pid ∅ ∅ ∅ lg d V σ → 1 < disksize d →
  (∀ σ', Lat σ0 pid ∅ ∅ ∅ lg d V σ' → Q (sb_decode (V 1)) σ') →
  wp (readsb ROOTDEV) Q σ.
Proof.
  intros HL Hd HQ. rewrite /readsb. apply wp_bind.
  eapply lat_bread; [done|lia|intros i; by rewrite lookup_empty| |].
  { rewrite /cache_room map_img_empty_L !union_empty_r_L size_singleton. vm_compute. lia. }
  intros i σ1 _ HL1. apply wp_bind. eapply lat_get; [done|by apply lookup_insert_eq|].
  apply wp_bind. eapply lat_brelse; [done|by apply lookup_insert_eq|set_solver|].
  intros σ2 HL2. apply wp_ret, HQ. by rewrite delete_insert_id in HL2.
Qed.

(** [initlog] on the cache [binit] set up. *)
Lemma initlog_wp {S0} (σ0 : kst S0) pid st sz d σ :
  Lat σ0 pid ∅ ∅ ∅ (llog (bss_lstate d)) d (dread d) σ → log_layout st sz d → disk_hdr_ok st sz d →
  wp (initlog ROOTDEV) (λ _ σ', frame σ0 σ' ∧ binv pid ∅ ∅ ∅ (lbio (kdata σ')) ∧
    bdisk (lbio (kdata σ')) = recovered st d ∧
    start (llog (kdata σ')) = st ∧ size (llog (kdata σ')) = sz ∧
    geom_ok (llog (kdata σ')) (disksize d) ∧
    lh_n (lh (llog (kdata σ'))) = 0 ∧ outstanding (llog (kdata σ')) = 0 ∧
    committing (llog (kdata σ')) = 0) σ.
Proof.
  destruct σ as [c L w s1]. intros HL1 Hl [Hh Hhok]. pose proof (la_quiet _ _ _ _ _ _ _ _ _ HL1) as (Hc&Hlk&Hp).
  simpl in Hlk. subst L. rewrite /initlog. assert (BSIZE <=? hdr_size = false) as -> by done.
  apply wp_bind, wp_initlock.
  apply wp_bind. eapply wp_readsb; [exact HL1|destruct Hl; lia|]. intros σ2 HL2.
  destruct Hl as [Hst Hsz ???? Hok].
  apply wp_bind. eapply lat_modlog; [exact HL2|]. simpl. rewrite Hst Hsz. intros σ3 HL3.
  set (lg1 := Log st sz 0 0 ROOTDEV _) in *.
  assert (geom_ok lg1 (disksize d)) as Hg by (split; simpl; first [done|lia]).
  eapply recover_wp; [exact Hg|done|exact HL3|]. intros σ4 V' HL4.
  pose proof (loaded_ok _ _ _ Hg Hh) as Htx. apply empty_log_ok, txn_geom in Htx.
  destruct HL4 as [Hf Hq4 Hinv4 Hlog4 Hd4 _]. rewrite Hlog4 Hd4. done.
Qed.

(** The cache after [binit]. *)
Lemma boot_cache pid (σ : kst lstate) d Q :
  kdata σ = bss_lstate d → quiet pid σ → (∀ b, block_ok (dread d b)) →
  (∀ σ', Lat σ pid ∅ ∅ ∅ (llog (bss_lstate d)) d (dread d) σ' → Q tt σ') → wp (bc binit) Q σ.
Proof.
  destruct σ as [c L w s0]. cbn [kdata]. intros -> Hq Hok HQ. pose proof Hq as (Hc&Hlk&Hp). simpl in Hlk. subst L.
  apply wp_zoom. eapply (binit_wp pid); [done|done|done|]. intros s' Hinv Hd. apply HQ.
  split; simpl; [by rewrite /frame|done|done|done|done|]. intros b. rewrite -Hd. by eapply binv_view.
Qed.

Lemma boot_wp pid st sz d (σ : kst lstate) :
  kdata σ = bss_lstate d → quiet pid σ → log_layout st sz d → disk_hdr_ok st sz d →
  wp boot (λ _ σ', frame σ σ' ∧ binv pid ∅ ∅ ∅ (lbio (kdata σ')) ∧
    bdisk (lbio (kdata σ')) = recovered st d ∧
    start (llog (kdata σ')) = st ∧ size (llog (kdata σ')) = sz ∧
    geom_ok (llog (kdata σ')) (disksize d) ∧
    lh_n (lh (llog (kdata σ'))) = 0 ∧ outstanding (llog (kdata σ')) = 0 ∧
    committing (llog (kdata σ')) = 0) σ.
Proof.
  intros Hσ Hq Hl Hh. rewrite /boot. apply wp_bind. eapply boot_cache; [done|done|apply Hl|].
  intros σ' HL. by eapply initlog_wp.
Qed.

(** ** Crash points *)

(** [dc] is the disk [d] with some of the writes, in order, that lead from [d]
    to [d']. *)
Definition crash_point (d d' dc : disk) : Prop :=
  ∃ late early, dhist d' = late ++ early ++ dhist d ∧ dc = dwrites (reverse early) d.

Lemma crash_point_take d ws dc :
  crash_point d (dwrites ws d) dc → ∃ k, dc = dwrites (take k ws) d.
Proof.
  intros (late&early&Hh&->). rewrite dhist_dwrites app_assoc in Hh.
  apply app_inv_tail, (f_equal reverse) in Hh. rewrite reverse_involutive reverse_app in Hh.
  exists (length (reverse early)). by rewrite Hh take_app_length.
Qed.

(** A crash while the system boots on disk [d]. *)
Definition boot_crash (d d' : disk) : Prop :=
  ∃ pid (τ τ' : kst lstate), kdata τ = bss_lstate d ∧ quiet pid τ ∧
    boot τ = Ret tt τ' ∧ crash_point d (bdisk (lbio (kdata τ'))) d'.

Definition bootable (st sz : Z) (d : disk) : Prop := log_layout st sz d ∧ disk_hdr_ok st sz d.

Lemma recover_ws_ok st sz d :
  bootable st sz d → Forall (λ w, block_ok w.2) (recover_disk_ws st d).
Proof.
  intros [Hl Hh]. rewrite /recover_disk_ws. apply Forall_app. split.
  - apply Forall_lookup. intros t [b x]. rewrite list_lookup_imap.
    destruct (_ !! t); [|done]. intros [= <- <-]. apply Hl.
  - apply Forall_singleton, clear_ok, Hh.
Qed.

(** Block 1 is not in the log; it is not logged when [1 ∉ hdr_blocks]. *)
Lemma boot_crash_inv st sz d d' :
  bootable st sz d → 1 ∉ hdr_blocks (dread d st) → boot_crash d d' →
  bootable st sz d' ∧ 1 ∉ hdr_blocks (dread d' st) ∧
  same_outside st sz (dread (recovered st d')) (dread (recovered st d)).
Proof.
  intros [Hl Hh] H1 (pid&τ&τ'&Hτ&Hq&Hb&Hc).
  destruct (wp_inv _ _ _ (boot_wp pid st sz d τ Hτ Hq Hl Hh)) as (u&τ''&E&_&_&Hd'&_).
  rewrite Hb in E. injection E as <- <-. rewrite Hd' in Hc.
  apply crash_point_take in Hc as [k ->].
  destruct (recover_crash st sz (ll_pos _ _ _ Hl) d k Hh) as [Hh' Hs].
  assert (1 ∉ (recover_disk_ws st d).*1) as H1'.
  { rewrite recover_ws_fst. destruct Hl. set_solver by lia. }
  split_and!; [split; [|done]| |done].
  - apply layout_dwrites; [done| |].
    + by intros ?%elem_of_take_fst.
    + by apply Forall_take, (recover_ws_ok st sz).
  - destruct (decide (k ≤ length (hdr_blocks (dread d st)))%nat).
    + rewrite /recover_disk_ws take_app_le; [by rewrite length_imap|].
      rewrite dread_home_prefix // (imap_home_fst (λ t _, dread d (st + t + 1))).
      eapply hdr_blocks_out; [done|]. destruct Hl. lia.
    + rewrite take_ge; [rewrite length_app length_imap /=; lia|].
      rewrite recovered_hdr hdr_blocks_nil; [apply clear_n, Hh|set_solver].
Qed.

Lemma boot_crashes_inv st sz d d' :
  bootable st sz d → 1 ∉ hdr_blocks (dread d st) → star boot_crash d d' →
  bootable st sz d' ∧ same_outside st sz (dread (recovered st d')) (dread (recovered st d)).
Proof.
  intros Hd H1 Hstar.
  set (I d' := bootable st sz d' ∧ 1 ∉ hdr_blocks (dread d' st) ∧
       same_outside st sz (dread (recovered st d')) (dread (recovered st d))).
  cut (I d'); [by intros (?&?&?)|].
  apply (star_inv boot_crash I) with d; [|done|by split_and!; [done|done|intros ?]].
  intros d1 d2 (Hb&Hn&Hs) Hc. destruct (boot_crash_inv st sz d1 d2) as (?&?&Hs'); [done..|].
  split_and!; [done|done|]. intros b Ho. by rewrite Hs' // Hs.
Qed.

Lemma commit_ws_ok lg hs dsz V :
  txn_ok lg dsz hs → (∀ b, block_ok (V b)) → Forall (λ w, block_ok w.2) (commit_ws lg hs V).
Proof.
  intros Htx HV. rewrite /commit_ws. pose proof (hdr_store_ok (lh_n (lh lg)) (lh_block (lh lg))) as Hs.
  assert (0 ≤ lh_n (lh lg) ≤ LOGSIZE) as Hn.
  { pose proof (f_equal length (tx_blocks _ _ _ Htx)) as Hl.
    rewrite length_take (tx_len _ _ _ Htx) in Hl. rewrite (tx_n _ _ _ Htx).
    unfold LOGSIZE, MAXOPBLOCKS in *. lia. }
  repeat apply Forall_app_2; [|by apply Forall_singleton, Hs| |by apply Forall_singleton, clear_ok, Hs].
  - apply Forall_lookup. intros t [b x]. rewrite /log_ws list_lookup_imap.
    destruct (_ !! t); [|done]. intros [= <- <-]. apply HV.
  - apply Forall_fmap, Forall_forall. intros h _. apply HV.
Qed.

Lemma commit_ws_super lg hs V : 1 < start lg → 1 ∉ hs → 1 ∉ (commit_ws lg hs V).*1.
Proof.
  intros Hst H1. rewrite /commit_ws !fmap_app -list_fmap_compose.
  rewrite !elem_of_app !list_elem_of_singleton.
  intros [(t&?&?)%log_ws_fst|[?|[(h&?&?)%list_elem_of_fmap|?]]]; simpl in *; try lia.
  by subst.
Qed.

(** ** Atomicity of transactions *)

(** C1: [commit] is atomic under crashes.  Let a process run [commit] on a
    transaction that logged the blocks [hs].  It returns, the blocks outside of
    the log keep their cached contents, and these are on disk.  If the machine
    stops after any prefix of the disk writes of [commit], and then any number
    of times while it boots and replays the log, the next boot that is not
    interrupted returns, and the blocks outside of the log are then either all
    as on disk before [commit] or all as cached before it; the log is empty. *)
Theorem commit_crash_atomic pid hs (σ : kst lstate) :
  let s := kdata σ in let st := start (llog s) in let sz := size (llog s) in
  let d := bdisk (lbio s) in
  quiet pid σ → binv pid ∅ (list_to_set hs) ∅ (lbio s) → txn_ok (llog s) (disksize d) hs →
  hs ≠ [] → 1 ∉ hs → log_layout st sz d → hdr_n (dread d st) = 0 →
  ∃ σ', commit σ = Ret tt σ' ∧
    same_outside st sz (bview (lbio (kdata σ'))) (bview (lbio s)) ∧
    same_outside st sz (dread (bdisk (lbio (kdata σ')))) (bview (lbio s)) ∧
    ∀ dc dr, crash_point d (bdisk (lbio (kdata σ'))) dc → star boot_crash dc dr →
    ∀ pid' τ, kdata τ = bss_lstate dr → quiet pid' τ →
    ∃ τ', boot τ = Ret tt τ' ∧ hdr_n (dread (bdisk (lbio (kdata τ'))) st) = 0 ∧
      (same_outside st sz (dread (bdisk (lbio (kdata τ')))) (dread d) ∨
       same_outside st sz (dread (bdisk (lbio (kdata τ')))) (bview (lbio s))).
Proof.
  cbv zeta. intros Hq Hinv Htx Hhs H1 Hl Hn. set (V := bview (lbio (kdata σ))).
  set (d := bdisk _) in *. set (lg := llog _) in *.
  assert (∀ b, b ∉ hs → V b = dread d b) as HV.
  { intros b Hb. eapply binv_view; [done|set_solver|set_solver]. }
  assert (∀ b, block_ok (V b)) as HVok by (intros b; apply bview_ok, Hinv).
  assert (Lat σ pid ∅ (list_to_set hs) ∅ lg d V σ) as HL by (split; auto with xv6).
  destruct (wp_inv commit (λ _ σ', bdisk (lbio (kdata σ')) = dwrites (commit_ws lg hs V) d ∧
    same_outside (start lg) (size lg) (bview (lbio (kdata σ'))) V) σ) as ([]&σ'&Hret&Hd'&Hv').
  { eapply commit_wp; [done..|]. intros σ' V' HL' HV'. split; [apply HL'|].
    intros b Hb. by rewrite (la_view _ _ _ _ _ _ _ _ _ HL') HV'. }
  exists σ'. split_and!; [done|done|rewrite Hd'; by apply dfinal_new; auto; apply Hl|].
  intros dc dr Hc Hstar pid' τ Hτ Hq'. rewrite Hd' in Hc.
  apply crash_point_take in Hc as [k ->].
  destruct (commit_crash lg hs d V Htx (ll_ok _ _ _ Hl) Hn HV k) as (Hok&Hsub&Hon).
  pose proof (commit_ws_super lg hs V (ll_super _ _ _ Hl) H1) as H1'.
  assert (log_layout (start lg) (size lg) (dwrites (take k (commit_ws lg hs V)) d)) as Hld.
  { apply layout_dwrites; [done|by intros ?%elem_of_take_fst|].
    eapply Forall_take, commit_ws_ok; [done|apply HVok]. }
  destruct (boot_crashes_inv _ _ _ _ (conj Hld Hok) ltac:(set_solver) Hstar) as [[Hlr Hhr] Hs].
  destruct (wp_inv _ _ _ (boot_wp pid' _ _ dr τ Hτ Hq' Hlr Hhr)) as ([]&τ'&E&_&_&Hdr&_).
  exists τ'. rewrite Hdr recovered_hdr. split_and!; [done|apply clear_n, Hhr|].
  destruct Hon as [Hon|Hon]; [left|right]; intros b Hb; by rewrite Hs // Hon.
Qed.
