(* ===== verification/Txn.v ===== *)
(** * Transactions: [begin_op], [log_write], [end_op] of log.c

    Inside a transaction the log lists the blocks [hs] logged so far; they are
    exactly the blocks pinned in the cache. *)

From S2P Require Import Prelude CInt Kernel Params Sleeplock BufList Bio BioSpec Cache Log LogSpec LogCrash.

(** ** Absorption *)

Lemma absorb_bound bl n b : (absorb bl n b ≤ n)%nat.
Proof.
  revert bl. induction n as [|n IH]; intros [|x bl]; simpl; try lia.
  destruct (x =? b); [lia|]. specialize (IH bl). lia.
Qed.

Lemma absorb_found bl n b :
  (absorb bl n b < n)%nat → (n ≤ length bl)%nat → bl !! absorb bl n b = Some b ∧ b ∈ take n bl.
Proof.
  revert bl. induction n as [|n IH]; intros [|x bl]; simpl; try lia.
  destruct (x =? b) eqn:E.
  - intros _ _. apply Z.eqb_eq in E as ->. split; [done|]. set_solver.
  - intros H1 H2. destruct (IH bl) as [??]; [lia..|]. split; [done|]. set_solver.
Qed.

Lemma absorb_new bl n b :
  (n ≤ length bl)%nat → absorb bl n b = n → b ∉ take n bl.
Proof.
  revert bl. induction n as [|n IH]; intros [|x bl]; simpl; try lia; [set_solver..|].
  intros Hl. destruct (x =? b) eqn:E; [done|]. intros [= Ha]. apply Z.eqb_neq in E.
  apply not_elem_of_cons. split; [done|]. apply IH; [lia|done].
Qed.

(** The blocks logged after [log_write] of block [b]. *)
Definition log_add (hs : list Z) (b : Z) : list Z := if decide (b ∈ hs) then hs else hs ++ [b].

(** Room for one more logged block. *)
Definition log_room (lg : log) (hs : list Z) : Prop :=
  length hs + 2 ≤ size lg ∧ length hs + 2 ≤ NBUF.

(** A block the file system may log. *)
Definition home_ok (lg : log) (dsz : Z) (b : Z) : Prop :=
  0 ≤ b < dsz ∧ ¬ (start lg ≤ b < start lg + size lg).

Definition log_add_log (lg : log) (b : Z) : log :=
  let n := lh_n (lh lg) in
  let i := absorb (lh_block (lh lg)) (Z.to_nat n) b in
  set_lh (Lh (if Z.of_nat i =? n then n + 1 else n) (<[i := b]> (lh_block (lh lg)))) lg.

Lemma list_to_set_log_add hs b :
  list_to_set (log_add hs b) = ({[b]} ∪ list_to_set hs : gset Z).
Proof. rewrite /log_add. case_decide; [set_solver|]. rewrite list_to_set_app_L /=. set_solver. Qed.

Lemma log_add_NoDup hs b : NoDup hs → NoDup (log_add hs b).
Proof.
  intros. rewrite /log_add. case_decide; [done|]. apply NoDup_app. split_and!; [done| |].
  - set_solver.
  - apply NoDup_singleton.
Qed.

Lemma log_add_length hs b : (length hs ≤ length (log_add hs b) ≤ length hs + 1)%nat.
Proof. rewrite /log_add. case_decide; rewrite ?length_app /=; lia. Qed.

(** The header after [log_write] lists the logged blocks. *)
Lemma log_add_ok lg dsz hs b :
  txn_ok lg dsz hs → log_room lg hs → home_ok lg dsz b →
  txn_ok (log_add_log lg b) dsz (log_add hs b).
Proof.
  intros Htx [Hr1 Hr2] Hb. pose proof (log_add_length hs b).
  destruct Htx as [Hdev Hn0 Hbl Hlen Hst Hfit Hcache Hend Hdsz Hnd Hhome].
  assert (Z.to_nat (lh_n (lh lg)) = length hs) as Hn by lia.
  assert (length hs < length (lh_block (lh lg)))%nat as Hlt.
  { rewrite Hlen. unfold NBUF, LOGSIZE, MAXOPBLOCKS in *. lia. }
  pose proof (absorb_bound (lh_block (lh lg)) (length hs) b) as Hle.
  set (i := absorb _ _ _) in *.
  assert (log_add hs b = take (length (log_add hs b)) (<[i := b]> (lh_block (lh lg))) ∧
          (if Z.of_nat i =? lh_n (lh lg) then lh_n (lh lg) + 1 else lh_n (lh lg)) =
            length (log_add hs b)) as [H1 H2].
  { rewrite /log_add Hn0. destruct (decide (i = length hs)) as [Hi|Hi].
    - rewrite decide_False; [rewrite Hbl; apply absorb_new; [lia|done]|].
      rewrite Hi Z.eqb_refl length_app /=. split; [|lia].
      rewrite insert_take_drop // take_app_ge length_take; [lia|].
      rewrite Nat.min_l; [lia|]. rewrite -Hbl. f_equal.
      by replace (length hs + 1 - length hs)%nat with 1%nat by lia.
    - destruct (absorb_found (lh_block (lh lg)) (length hs) b) as [Hf Hin]; [lia..|].
      rewrite decide_True; [by rewrite Hbl|].
      assert (Z.of_nat i =? length hs = false) as -> by (apply Z.eqb_neq; lia).
      split; [|done]. rewrite list_insert_id //. }
  split; simpl; rewrite ?Hn -/i; try done.
  - by rewrite length_insert.
  - lia.
  - lia.
  - by apply log_add_NoDup.
  - intros h. rewrite /log_add. case_decide; [auto|]. rewrite elem_of_app list_elem_of_singleton.
    intros [?| ->]; auto.
Qed.

Section Ops.
Context {S0 : Type} (σ0 : kst S0) (pid : Z).

(** [log_write] of a held block: it is added to the logged blocks, pinned, and
    counted as written. *)
Lemma log_write_wp H M lg d V hs σ i b Q :
  Lat σ0 pid H (list_to_set hs) M lg d V σ → txn_ok lg (disksize d) hs →
  1 ≤ outstanding lg → log_room lg hs → H !! i = Some b → home_ok lg (disksize d) b →
  (∀ σ', Lat σ0 pid H (list_to_set (log_add hs b)) (M ∖ {[b]}) (log_add_log lg b) d V σ' →
     Q tt σ') →
  wp (log_write i) Q σ.
Proof.
  destruct σ as [c L w s]. intros HL Htx Ho Hr Hi Hb HQ.
  destruct HL as [Hf Hq Hinv Hlog Hd HV]. pose proof Hq as (Hc&Hlk&Hp).
  cbn [kdata klocks kcpu] in *. subst L. rewrite /log_write. kstep.
  rewrite Hlog. destruct Hr as [Hr1 Hr2]. rewrite (tx_n _ _ _ Htx).
  rewrite (_ : (LOGSIZE <=? _) || _ = false); [unfold NBUF, LOGSIZE, MAXOPBLOCKS in *|].
  { apply orb_false_iff. split; apply Z.leb_gt; lia. }
  rewrite (_ : (outstanding lg <? 1) = false); [by apply Z.ltb_ge; lia|].
  kstep. destruct (binv_lookup _ _ _ _ _ _ _ Hinv Hi) as (x&Hx&_&_&Hxb&_).
  apply wp_bind, wp_zoom. eapply wp_bufp; [exact Hx|]. cbn [kcpu klocks kslp kdata].
  rewrite (_ : set_lbio (lbio s) s = s); [by destruct s|]. kstep. rewrite Hlog Hxb.
  pose proof (absorb_bound (lh_block (lh lg)) (Z.to_nat (lh_n (lh lg))) b) as Hle.
  assert (absorb (lh_block (lh lg)) (Z.to_nat (lh_n (lh lg))) b < length (lh_block (lh lg)))%nat
    as [y Hy]%lookup_lt_is_Some.
  { rewrite (tx_len _ _ _ Htx). rewrite (tx_n _ _ _ Htx) in Hle |- *.
    unfold NBUF, LOGSIZE, MAXOPBLOCKS in *. lia. }
  apply wp_bind. eapply wp_deref; [exact Hy|]. rewrite /mod_log. kstep.
  apply wp_bind, wp_zoom. eapply set_dirty_inv; [exact Hinv|exact Hi|].
  cbn [kcpu klocks kslp kdata set_data set_llog lbio]. intros s' Hinv' Hd' Hv'.
  apply wp_release_last; [done|done|]. apply HQ.
  split; [done|done| |by rewrite /= Hlog|by rewrite /= Hd'|].
  - by rewrite list_to_set_log_add.
  - intros b'. simpl. by rewrite Hv' HV.
Qed.

(** [begin_op] waits while a commit runs or the log may fill up, and else
    reserves room for one more operation. *)
Lemma begin_op_wp H X M lg d V σ Q :
  Lat σ0 pid H X M lg d V σ → committing lg = 0 →
  lh_n (lh lg) + (outstanding lg + 1) * MAXOPBLOCKS ≤ LOGSIZE →
  (∀ σ', Lat σ0 pid H X M (set_outstanding (outstanding lg + 1) lg) d V σ' → Q tt σ') →
  wp begin_op Q σ.
Proof.
  destruct σ as [c L w s]. intros [Hf Hq Hinv Hlog Hd HV] Hcm Hn HQ.
  pose proof Hq as (Hc&Hlk&Hp). cbn [kdata klocks kcpu] in *. subst L.
  rewrite /begin_op. kstep. kstep. rewrite Hlog Hcm.
  rewrite (_ : (LOGSIZE <? _) = false); [by apply Z.ltb_ge; lia|]. simpl negb. cbv iota.
  rewrite /mod_log. kstep. apply wp_release_last; [done|done|]. apply HQ.
  split; try done. simpl. by rewrite Hlog.
Qed.

Lemma begin_op_waits H X M lg d V σ :
  Lat σ0 pid H X M lg d V σ →
  committing lg ≠ 0 ∨ LOGSIZE < lh_n (lh lg) + (outstanding lg + 1) * MAXOPBLOCKS →
  ∃ σ', begin_op σ = Sleep CLog Llog σ'.
Proof.
  destruct σ as [c L w s]. intros [Hf Hq Hinv Hlog Hd HV] Hw.
  pose proof Hq as (Hc&Hlk&Hp). cbn [kdata klocks kcpu] in *. subst L.
  pose proof (acquire_run Llog c ∅ w s Hc (lookup_empty _)) as E.
  rewrite /begin_op (bind_ret _ _ _ _ _ E) /= /mbind /K_bind /gets /= Hlog.
  destruct (negb (committing lg =? 0)) eqn:Ec; [by eexists|].
  destruct Hw as [Hw|Hw]; [by apply Z.eqb_neq in Hw; rewrite Hw in Ec|].
  apply Z.ltb_lt in Hw. rewrite Hw. by eexists.
Qed.

(** A critical section of the log that only changes [struct log] and wakes
    waiters. *)
Lemma lat_crit H X M lg d V c w s w' s' lg' :
  Lat σ0 pid H X M lg d V (Kst c ∅ w s) → w' ⊆ w → lbio s' = lbio s → llog s' = lg' →
  Lat σ0 pid H X M lg' d V (Kst c ∅ w' s').
Proof.
  intros [Hf Hq Hinv Hlog Hd HV] Hw Hb Hl. split; cbn [kdata]; rewrite ?Hb; try done.
  destruct Hf as (?&?&?). split_and!; [done|done|]. simpl in *. by etrans.
Qed.

Lemma end_op_more_wp H X M lg d V σ Q :
  Lat σ0 pid H X M lg d V σ → committing lg = 0 → 1 < outstanding lg →
  (∀ σ', Lat σ0 pid H X M (set_outstanding (outstanding lg - 1) lg) d V σ' → Q tt σ') →
  wp end_op Q σ.
Proof.
  destruct σ as [c L w s]. intros HL Hcm Ho HQ. pose proof HL as [Hf Hq Hinv Hlog Hd HV].
  pose proof Hq as (Hc&Hlk&Hp). cbn [kdata klocks kcpu] in *. subst L.
  rewrite /end_op /mod_log. kstep. kstep. kstep. cbn [llog set_llog]. rewrite Hlog.
  cbn [committing set_outstanding outstanding]. rewrite Hcm. simpl negb. cbv iota zeta.
  rewrite (_ : (outstanding lg - 1 =? 0) = false); [by apply Z.eqb_neq; lia|].
  kstep. apply wp_bind, wp_release_last; [done|done|]. apply wp_ret, HQ.
  eapply lat_crit; [done|apply map_filter_subseteq|done|done].
Qed.

(** The last operation commits. *)
Lemma end_op_wp lg d V hs σ Q :
  Lat σ0 pid ∅ (list_to_set hs) ∅ lg d V σ → txn_ok lg (disksize d) hs →
  committing lg = 0 → outstanding lg = 1 →
  (∀ σ' V', Lat σ0 pid ∅ ∅ ∅ (set_outstanding 0 (empty_log lg))
              (if decide (hs = []) then d else dwrites (commit_ws lg hs V) d) V' σ' →
     same_outside (start lg) (size lg) V' V → Q tt σ') →
  wp end_op Q σ.
Proof.
  destruct σ as [c L w s]. intros HL Htx Hcm Ho HQ. pose proof HL as [Hf Hq Hinv Hlog Hd HV].
  pose proof Hq as (Hc&Hlk&Hp). cbn [kdata klocks kcpu] in *. subst L.
  rewrite /end_op /mod_log. kstep. kstep. kstep. cbn [llog set_llog]. rewrite Hlog.
  cbn [committing set_outstanding outstanding]. rewrite Hcm. simpl negb. cbv iota zeta.
  rewrite Ho. simpl (1 - 1 =? 0). cbv iota. kstep. apply wp_bind, wp_release_last; [done|done|].
  set (lg1 := set_committing 1 (set_outstanding 0 lg)).
  apply wp_bind. set (P := λ (_ : unit) σ', ∃ V',
    Lat σ0 pid ∅ ∅ ∅ (set_committing 1 (set_outstanding 0 (empty_log lg)))
      (if decide (hs = []) then d else dwrites (commit_ws lg hs V) d) V' σ' ∧
    same_outside (start lg) (size lg) V' V).
  eapply (wp_mono _ P).
  - assert (Lat σ0 pid ∅ (list_to_set hs) ∅ lg1 d V
      (Kst c ∅ w (set_llog (set_committing 1 (set_outstanding (1 - 1) lg)) s))) as HL1.
    { by eapply lat_crit. }
    case_decide as Hhs.
    + subst hs. rewrite /commit. apply wp_bind.
      eapply (lat_getlog _ _ _ _ _ _ _ _ _ id); [exact HL1|]. rewrite /id.
      rewrite (_ : (0 <? lh_n (lh lg1)) = false); [by rewrite /= (tx_n _ _ _ Htx)|].
      apply wp_ret. exists V. split; [|done]. pose proof (tx_n _ _ _ Htx) as Hn. simpl in Hn.
      eapply lat_crit; [exact HL1|done|done|].
      rewrite /lg1 /empty_log /set_lh /=. by destruct lg as [?????[]]; simpl in *; subst.
    + eapply commit_wp; [|done|exact HL1|].
      { destruct Htx. by split. }
      intros σ' V' HL' HV'. exists V'. split; [|done]. exact HL'.
  - cbv beta. intros [] σ' (V'&HL'&HV'). destruct σ' as [c' L' w' s'].
    pose proof HL' as [Hf' Hq' Hinv' Hlog' Hd' _]. pose proof Hq' as (Hc'&Hlk'&_).
    cbn [kdata klocks kcpu] in *. subst L'. rewrite /mod_log. kstep. kstep. kstep.
    apply wp_release_last; [done|done|]. eapply HQ; [|exact HV'].
    eapply lat_crit; [exact HL'|apply map_filter_subseteq|done|]. simpl. by rewrite Hlog' -Hcm.
Qed.
End Ops.

(** ** An example run

    A disk with the layout [mkfs] gives to a file system of 1000 blocks, and a
    transaction that changes one block. *)

Definition demo_super : block :=
  concat (le_bytes 4 <$> [1000; 941; 200; 30; 2; 32; 58]) ++ replicate 484 0.

Definition demo_disk : disk := Disk {[1 := demo_super]} 1000 [].

Definition demo_boot : kst lstate :=
  Kst (Cpu 0 true 0 true (Some 1)) ∅ ∅ (bss_lstate demo_disk).

Definition demo_prog : K lstate unit :=
  boot;;
  begin_op;;
  b ← bc (bread ROOTDEV 100);
  bc (put_data b (replicate 512 7));;
  log_write b;;
  bc (brelse b).

Lemma replicate_block_ok y : is_byte y → block_ok (replicate 512 y).
Proof. intros Hy. split; [apply length_replicate|]. by apply Forall_replicate. Qed.

Lemma demo_layout : log_layout 2 30 demo_disk.
Proof.
  split; try by vm_compute. intros b. rewrite /dread /demo_disk /=.
  destruct (decide (b = 1)) as [->|Hb].
  - rewrite lookup_singleton_eq /=. split; [done|].
    apply Forall_app. split; [|apply Forall_replicate; done].
    apply Forall_concat, Forall_fmap, Forall_forall. intros z _. apply le_bytes_bytes.
  - rewrite lookup_singleton_ne //. apply zero_block_ok.
Qed.

Lemma demo_bootable : bootable 2 30 demo_disk.
Proof.
  split; [apply demo_layout|]. split; [|apply demo_layout].
  apply hdr_ok_nil; [by vm_compute|lia].
Qed.

Lemma demo_boot_quiet : quiet 1 demo_boot.
Proof. repeat split; simpl; lia. Qed.

Lemma demo_run :
  wp demo_prog (λ _ σ, let d := bdisk (lbio (kdata σ)) in let lg := llog (kdata σ) in
    quiet 1 σ ∧ binv 1 ∅ (list_to_set [100]) ∅ (lbio (kdata σ)) ∧
    start lg = 2 ∧ size lg = 30 ∧ d = recovered 2 demo_disk ∧
    txn_ok lg (disksize d) [100] ∧ bview (lbio (kdata σ)) 100 = replicate 512 7) demo_boot.
Proof.
  destruct demo_bootable as [Hl Hh]. rewrite /demo_prog. apply wp_bind.
  eapply wp_mono; [by apply (boot_wp 1 2 30 demo_disk); [|apply demo_boot_quiet|..]|].
  cbv beta. intros [] σ (Hf&Hinv&Hd&Hst&Hsz&Hg&Hn&Ho&Hcm).
  set (V := bview (lbio (kdata σ))). set (lg := llog (kdata σ)) in *.
  assert (Lat σ 1 ∅ ∅ ∅ lg (recovered 2 demo_disk) V σ) as HL.
  { split; auto with xv6. eapply frame_quiet; [done|apply demo_boot_quiet]. }
  assert (txn_ok lg 1000 []) as Htx.
  { destruct Hg. split; simpl; try done; try lia; [vm_compute; lia|apply NoDup_nil_2|set_solver]. }
  assert (disksize (recovered 2 demo_disk) = 1000) as Hds by by rewrite /recovered disksize_dwrites.
  apply wp_bind. eapply begin_op_wp; [exact HL|done|rewrite Hn Ho; by vm_compute|]. intros σ1 HL1.
  apply wp_bind. eapply lat_bread; [exact HL1|by rewrite Hds|by intros i; rewrite lookup_empty| |].
  { by apply (tx_room _ demo_disk _ Htx). }
  intros i σ2 _ HL2. apply wp_bind.
  eapply lat_put; [exact HL2|by apply lookup_insert_eq|by apply replicate_block_ok|].
  intros σ3 HL3. apply wp_bind.
  eapply (log_write_wp _ _ _ _ _ _ _ []); [exact HL3| | | |by apply lookup_insert_eq| |].
  { rewrite Hds. destruct Htx. by split. }
  { simpl. lia. }
  { split; simpl; rewrite ?Hsz; [lia|by vm_compute]. }
  { rewrite Hds /home_ok /= Hst Hsz. lia. }
  intros σ4 HL4. eapply lat_brelse; [exact HL4|by apply lookup_insert_eq|set_solver|].
  intros σ5 HL5. rewrite delete_insert_id // in HL5. destruct HL5 as [_ Hq Hi Hlg Hdk Hv].
  replace (({[100]} ∪ ∅) ∖ {[100]}) with (∅ : gset Z) in Hi by set_solver.
  cbv beta zeta. rewrite Hdk Hlg Hds. split_and!; [done|done|done|done|done| |].
  - apply (log_add_ok _ _ []); [destruct Htx; by split|split; simpl; rewrite ?Hsz; [lia|by vm_compute]|].
    rewrite /home_ok /= Hst Hsz. lia.
  - by rewrite Hv upd_eq.
Qed.

Lemma demo_recovered_layout : log_layout 2 30 (recovered 2 demo_disk).
Proof.
  apply layout_dwrites; [apply demo_layout| |].
  - rewrite recover_ws_fst hdr_blocks_nil; [by vm_compute|]. set_solver by lia.
  - apply (recover_ws_ok 2 30), demo_bootable.
Qed.

(** The example transaction commits. *)
Lemma commit_crash_atomic_witness :
  ∃ σ σ', demo_prog demo_boot = Ret tt σ ∧ commit σ = Ret tt σ' ∧
    dread (bdisk (lbio (kdata σ'))) 100 = replicate 512 7.
Proof.
  destruct (wp_inv _ _ _ demo_run) as ([]&σ&E&Hq&Hinv&Hst&Hsz&Hd&Htx&Hv).
  pose proof (commit_crash_atomic 1 [100] σ Hq Hinv Htx) as H. cbv zeta in H.
  rewrite Hst Hsz Hd in H. destruct H as (σ'&Hc&_&Hdk&_).
  - discriminate.
  - by intros ?%list_elem_of_singleton.
  - apply demo_recovered_layout.
  - rewrite recovered_hdr. apply clear_n, demo_bootable.
  - exists σ, σ'. split; [exact E|]. split; [exact Hc|]. rewrite Hdk; [lia|exact Hv].
Defined.
