(* ===== verification/BlockIO.v ===== *)
(** * The block interface between the file system and the log

    fs.c reads and changes disk blocks through [bread], [log_write] and [brelse]
    only.  [BlockIO] names these operations and [BlockIOSpec] what they promise
    inside a transaction; fs.c is modelled and verified against this interface.
    The instances below are the buffer cache and the log. *)

From S2P Require Import Prelude CInt Kernel Params Sleeplock BufList Bio BioSpec Cache Log LogSpec LogCrash Txn.

Class BlockIO (B : Type) := {
  io_bread : Z → Z → K B nat;
  io_get : nat → K B block;
  io_put : nat → block → K B unit;
  io_log_write : nat → K B unit;
  io_brelse : nat → K B unit
}.

(** [io_at pid H X M V σ]: inside a transaction, process [pid] holds the buffers
    [H], the blocks of [X] were logged, those of [M] changed but not logged yet,
    and the contents of the blocks are [V].  [home] are the blocks the file
    system owns and [cap] bounds the number of blocks of a transaction. *)
Class BlockIOSpec (B : Type) {io : BlockIO B} (home : Z → Prop) (cap : nat) := {
  io_at : Z → gmap nat Z → gset Z → gset Z → (Z → block) → kst B → Prop;
  io_quiet pid H X M V σ : io_at pid H X M V σ → quiet pid σ;
  io_block_ok pid H X M V σ b : io_at pid H X M V σ → block_ok (V b);
  io_same pid H X M V V' σ : io_at pid H X M V σ → (∀ b, V b = V' b) → io_at pid H X M V' σ;
  io_move pid H X M V c w w' s :
    io_at pid H X M V (Kst c ∅ w s) → io_at pid H X M V (Kst c ∅ w' s);
  io_bread_wp pid H X M V σ b Q :
    io_at pid H X M V σ → home b → (∀ i, H !! i ≠ Some b) →
    (base.size X + base.size H < NBUF)%nat →
    (∀ i σ', frame σ σ' → H !! i = None → io_at pid (<[i := b]> H) X M V σ' → Q i σ') →
    wp (io_bread ROOTDEV b) Q σ;
  io_get_wp pid H X M V σ i b Q :
    io_at pid H X M V σ → H !! i = Some b → Q (V b) σ → wp (io_get i) Q σ;
  io_put_wp pid H X M V σ i b y Q :
    io_at pid H X M V σ → H !! i = Some b → block_ok y →
    (∀ σ', frame σ σ' → io_at pid H X ({[b]} ∪ M) (upd V b y) σ' → Q tt σ') →
    wp (io_put i y) Q σ;
  io_log_write_wp pid H X M V σ i b Q :
    io_at pid H X M V σ → H !! i = Some b → home b → (base.size X < cap)%nat →
    (∀ σ', frame σ σ' → io_at pid H ({[b]} ∪ X) (M ∖ {[b]}) V σ' → Q tt σ') →
    wp (io_log_write i) Q σ;
  io_brelse_wp pid H X M V σ i b Q :
    io_at pid H X M V σ → H !! i = Some b → b ∉ M →
    (∀ σ', frame σ σ' → io_at pid (delete i H) X M V σ' → Q tt σ') →
    wp (io_brelse i) Q σ
}.

(** ** The log implements the interface *)

#[global] Instance log_io : BlockIO lstate := {|
  io_bread dev b := bc (bread dev b);
  io_get i := bc (get_data i);
  io_put i y := bc (put_data i y);
  io_log_write i := log_write i;
  io_brelse i := bc (brelse i)
|}.

Section LogIO.
(** The log area, and the disk when the transaction began. *)
Context (st sz : Z) (d : disk).

Definition log_home (b : Z) : Prop := 1 < b < disksize d ∧ ¬ (st ≤ b < st + sz).

(** Blocks a transaction may log: the log has [sz - 1] slots, and one buffer
    of the cache is needed to write the log. *)
Definition log_cap : nat := Z.to_nat (Z.min (sz - 1) (NBUF - 1)).

Definition log_at (pid : Z) (H : gmap nat Z) (X M : gset Z) (V : Z → block) (σ : kst lstate)
    : Prop :=
  ∃ lg hs, Lat σ pid H X M lg d V σ ∧ X = list_to_set hs ∧ txn_ok lg (disksize d) hs ∧
    start lg = st ∧ size lg = sz ∧ 1 ≤ outstanding lg ∧ 1 ∉ hs.

(** The frame of a step joins the frame of the run so far. *)
Lemma lat_rebase {S0} (σ0 : kst S0) pid H X M lg V σ :
  Lat σ0 pid H X M lg d V σ → frame σ0 σ ∧ Lat σ pid H X M lg d V σ.
Proof. intros []. split; [done|]. split; auto with xv6. Qed.

Lemma room_of_sizes (H : gmap nat Z) (X : gset Z) b :
  (base.size X + base.size H < NBUF)%nat → cache_room H X b.
Proof.
  intros Hs. rewrite /cache_room.
  assert (base.size (map_img (SA:=gset Z) H) ≤ base.size H)%nat as Hi.
  { clear. induction H as [|i x m Hi IH] using map_ind; [by rewrite map_img_empty_L !size_empty|].
    rewrite map_img_insert_notin_L // map_size_insert_None //.
    etrans; [apply size_union_le|]. rewrite size_singleton. lia. }
  pose proof (size_union_le ({[b]} ∪ X) (map_img H)). pose proof (size_union_le {[b]} X) as H2.
  rewrite size_singleton in H2. lia.
Qed.

Lemma log_bread_wp pid H X M V σ b Q :
  log_at pid H X M V σ → log_home b → (∀ i, H !! i ≠ Some b) →
  (base.size X + base.size H < NBUF)%nat →
  (∀ i σ', frame σ σ' → H !! i = None → log_at pid (<[i := b]> H) X M V σ' → Q i σ') →
  wp (bc (bread ROOTDEV b)) Q σ.
Proof.
  intros (lg&hs&HL&HX&Hr) [Hb _] HH Hs HQ.
  eapply lat_bread; [exact HL|lia|done|by apply room_of_sizes|].
  intros i σ' Hi HL'. apply lat_rebase in HL' as [Hf HL']. apply HQ; [done|done|].
  by exists lg, hs.
Qed.

Lemma log_put_wp pid H X M V σ i b y Q :
  log_at pid H X M V σ → H !! i = Some b → block_ok y →
  (∀ σ', frame σ σ' → log_at pid H X ({[b]} ∪ M) (upd V b y) σ' → Q tt σ') →
  wp (bc (put_data i y)) Q σ.
Proof.
  intros (lg&hs&HL&HX&Hr) Hi Hy HQ. eapply lat_put; [exact HL|done|done|].
  intros σ' HL'. apply lat_rebase in HL' as [Hf HL']. apply HQ; [done|]. by exists lg, hs.
Qed.

Lemma log_brelse_wp pid H X M V σ i b Q :
  log_at pid H X M V σ → H !! i = Some b → b ∉ M →
  (∀ σ', frame σ σ' → log_at pid (delete i H) X M V σ' → Q tt σ') →
  wp (bc (brelse i)) Q σ.
Proof.
  intros (lg&hs&HL&HX&Hr) Hi HM HQ. eapply lat_brelse; [exact HL|done|done|].
  intros σ' HL'. apply lat_rebase in HL' as [Hf HL']. apply HQ; [done|]. by exists lg, hs.
Qed.

Lemma log_logw_wp pid H X M V σ i b Q :
  log_at pid H X M V σ → H !! i = Some b → log_home b → (base.size X < log_cap)%nat →
  (∀ σ', frame σ σ' → log_at pid H ({[b]} ∪ X) (M ∖ {[b]}) V σ' → Q tt σ') →
  wp (log_write i) Q σ.
Proof.
  intros (lg&hs&HL&->&Htx&Hst&Hsz&Ho&H1) Hi [Hb Hout] Hc HQ.
  rewrite size_list_to_set in Hc; [apply Htx|]. rewrite /log_cap in Hc.
  assert (log_room lg hs) as Hroom by (rewrite /log_room Hsz; lia).
  assert (home_ok lg (disksize d) b) as Hhome by (rewrite /home_ok Hst Hsz; lia).
  eapply log_write_wp; [exact HL|done|done|done|done|done|].
  intros σ' HL'. apply lat_rebase in HL' as [Hf HL']. apply HQ; [done|].
  exists (log_add_log lg b), (log_add hs b). rewrite list_to_set_log_add in HL' |- *.
  split_and!; try done.
  - by apply log_add_ok.
  - rewrite /log_add. case_decide; [done|]. rewrite elem_of_app list_elem_of_singleton. intros [?|?]; [done|lia].
Qed.

#[global] Instance log_io_spec : BlockIOSpec lstate log_home log_cap.
Proof.
  refine {| io_at := log_at; io_bread_wp := log_bread_wp; io_put_wp := log_put_wp;
            io_log_write_wp := log_logw_wp; io_brelse_wp := log_brelse_wp |}.
  - intros pid H X M V σ (lg&hs&HL&_). apply HL.
  - intros pid H X M V σ b (lg&hs&HL&_). by eapply lat_block_ok.
  - intros pid H X M V V' σ (lg&hs&HL&Hr) HV. exists lg, hs. split; [|done].
    by eapply lat_view_eq.
  - intros pid H X M V c w w' s (lg&hs&HL&Hr). exists lg, hs. split; [|done].
    destruct HL as [Hf Hq Hi Hl Hd HV]. split; auto with xv6.
  - intros pid H X M V σ i b Q (lg&hs&HL&Hr) Hi HQ. by eapply lat_get.
Defined.
End LogIO.
