(* ===== verification/Fs.v ===== *)
(** * The file system: [src/Xv6-Syscall/src/fs.c], [fs.h], [file.h]

    Blocks, inodes, directories and path names, over the block interface of
    [BlockIO].  A [struct inode *] is an index in [icache.inode]; a null pointer
    is [None].  Bytes copied to a caller's buffer are returned. *)

From S2P Require Import Prelude CInt CString Kernel Params Sleeplock Bio Log BlockIO.

(** [struct inode]; its spin-lock-protected part is [idev], [inum], [iref]. *)
Record inode := Inode {
  idev : Z;
  inum : Z;
  iref : Z;
  ilk : sleeplock;
  ivalid : Z;
  itype : Z;
  imajor : Z;
  iminor : Z;
  inlink : Z;
  isize : Z;
  iaddrs : list Z
}.

(** [struct dinode]. *)
Record dinode := Dinode {
  d_type : Z;
  d_major : Z;
  d_minor : Z;
  d_nlink : Z;
  d_size : Z;
  d_addrs : list Z
}.

Definition set_iref (n : Z) (ip : inode) : inode :=
  Inode (idev ip) (inum ip) n (ilk ip) (ivalid ip) (itype ip) (imajor ip) (iminor ip) (inlink ip)
        (isize ip) (iaddrs ip).
Definition set_ilk (k : sleeplock) (ip : inode) : inode :=
  Inode (idev ip) (inum ip) (iref ip) k (ivalid ip) (itype ip) (imajor ip) (iminor ip) (inlink ip)
        (isize ip) (iaddrs ip).
Definition set_ivalid (v : Z) (ip : inode) : inode :=
  Inode (idev ip) (inum ip) (iref ip) (ilk ip) v (itype ip) (imajor ip) (iminor ip) (inlink ip)
        (isize ip) (iaddrs ip).
Definition set_itype (t : Z) (ip : inode) : inode :=
  Inode (idev ip) (inum ip) (iref ip) (ilk ip) (ivalid ip) t (imajor ip) (iminor ip) (inlink ip)
        (isize ip) (iaddrs ip).
Definition set_inlink (n : Z) (ip : inode) : inode :=
  Inode (idev ip) (inum ip) (iref ip) (ilk ip) (ivalid ip) (itype ip) (imajor ip) (iminor ip) n
        (isize ip) (iaddrs ip).
Definition set_isize (n : Z) (ip : inode) : inode :=
  Inode (idev ip) (inum ip) (iref ip) (ilk ip) (ivalid ip) (itype ip) (imajor ip) (iminor ip)
        (inlink ip) n (iaddrs ip).
Definition set_iaddrs (l : list Z) (ip : inode) : inode :=
  Inode (idev ip) (inum ip) (iref ip) (ilk ip) (ivalid ip) (itype ip) (imajor ip) (iminor ip)
        (inlink ip) (isize ip) l.
(** The fields copied from the disk inode. *)
Definition set_dinode (d : dinode) (ip : inode) : inode :=
  Inode (idev ip) (inum ip) (iref ip) (ilk ip) (ivalid ip) (d_type d) (d_major d) (d_minor d)
        (d_nlink d) (d_size d) (d_addrs d).

(** ** The disk inode in a block *)

Definition half_at (x : list Z) (off : nat) : Z := s16 (le_val (slice off 2 x)).

Definition dinode_dec (x : list Z) : dinode :=
  Dinode (half_at x 0) (half_at x 2) (half_at x 4) (half_at x 6) (le_val (slice 8 4 x))
         ((λ k, le_val (slice (12 + 4 * k) 4 x)) <$> seq 0 (Z.to_nat NDIRECT + 1)).

Definition dinode_enc (d : dinode) : list Z :=
  le_bytes 2 (u16 (d_type d)) ++ le_bytes 2 (u16 (d_major d)) ++ le_bytes 2 (u16 (d_minor d)) ++
  le_bytes 2 (u16 (d_nlink d)) ++ le_bytes 4 (u32 (d_size d)) ++
  mjoin (le_bytes 4 <$> (u32 <$> d_addrs d)).

(** The fields of an in-memory inode that live on disk. *)
Definition to_dinode (ip : inode) : dinode :=
  Dinode (itype ip) (imajor ip) (iminor ip) (inlink ip) (isize ip) (iaddrs ip).

(** Byte offset of inode [inum] in its block. *)
Definition dip_off (inum : Z) : nat := Z.to_nat (inum mod IPB * DINODE_SIZE).
Definition IBLOCK (i : Z) (sb : superblock) : Z := u32 (i / IPB + sb_inodestart sb).
Definition BBLOCK (b : Z) (sb : superblock) : Z := u32 (b / BPB + sb_bmapstart sb).

(** ** State *)

Record fstate (B : Type) := Fst {
  fblk : B;
  icache : list inode;
  fsb : superblock;
  cwd : gmap Z nat
}.
Arguments Fst {B} _ _ _ _.
Arguments fblk {B} _.
Arguments icache {B} _.
Arguments fsb {B} _.
Arguments cwd {B} _.

Definition set_fblk {B} (b : B) (s : fstate B) : fstate B := Fst b (icache s) (fsb s) (cwd s).
Definition set_icache {B} (l : list inode) (s : fstate B) : fstate B :=
  Fst (fblk s) l (fsb s) (cwd s).
Definition set_fsb {B} (x : superblock) (s : fstate B) : fstate B :=
  Fst (fblk s) (icache s) x (cwd s).

(** [devsw]: the read and write routines of the devices, by major number. *)
Record devops (S : Type) := Devops {
  dev_read : option (nat → Z → K S (Z * list Z));
  dev_write : option (nat → list Z → Z → K S Z)
}.
Arguments dev_read {S} _.
Arguments dev_write {S} _.

Section Fs.
Context {B : Type} `{!BlockIO B}.
Context (devsw : Z → devops (fstate B)).

(** Operations on blocks and on [icache.inode[i]]. *)
Definition blk {A} (m : K B A) : K (fstate B) A := zoom fblk set_fblk m.
Definition b_read (dev b : Z) : K (fstate B) nat := blk (io_bread dev b).
Definition b_data (i : nat) : K (fstate B) block := blk (io_get i).
Definition b_set (i : nat) (x : block) : K (fstate B) unit := blk (io_put i x).
Definition b_log (i : nat) : K (fstate B) unit := blk (io_log_write i).
Definition b_rel (i : nat) : K (fstate B) unit := blk (io_brelse i).

Definition iptr (i : nat) : K (fstate B) inode := l ← gets icache; deref (l !! i).
Definition iupd (i : nat) (f : inode → inode) : K (fstate B) unit :=
  _ ← iptr i; modify (λ s, set_icache (alter f i (icache s)) s).
Definition ilens (i : nat) : slens (fstate B) :=
  SLens (λ s, ilk <$> icache s !! i) (λ k s, set_icache (alter (set_ilk k) i (icache s)) s).
Definition the_sb : K (fstate B) superblock := gets fsb.

(** ** Blocks *)

Definition bzero (dev bno : Z) : K (fstate B) unit :=
  bp ← b_read dev bno;
  x ← b_data bp;
  x ← deref (memset x 0 0 (Z.to_nat BSIZE));
  b_set bp x;;
  b_log bp;;
  b_rel bp.

(** [m = 1 << (bi % 8)]. *)
Definition bit_mask (bi : nat) : Z := Z.shiftl 1 (Z.of_nat bi mod 8).

(** [for(b = 0; b < sb.size; b += BPB)]. *)
Definition balloc_bases (sb : superblock) : list Z :=
  (λ k : nat, k * BPB) <$> seq 0 (Z.to_nat ((sb_size sb + BPB - 1) / BPB)).

Definition balloc_scan (x : block) (n : nat) : K (fstate B) (option nat) :=
  for_find (seq 0 n) (λ bi,
    y ← deref (x !! (bi / 8)%nat);
    mret (if Z.land y (bit_mask bi) =? 0 then Some bi else None)).

(** The block [b + bi] is free: mark it, and clear it. *)
Definition balloc_take (dev b : Z) (bp : nat) (x : block) (bi : nat) : K (fstate B) (option Z) :=
  y ← deref (x !! (bi / 8)%nat);
  b_set bp (<[(bi / 8)%nat := u8 (Z.lor y (bit_mask bi))]> x);;
  b_log bp;;
  b_rel bp;;
  bzero dev (b + bi);;
  mret (Some (b + bi)).

Definition balloc (dev : Z) : K (fstate B) Z :=
  sb ← the_sb;
  r ← for_find (balloc_bases sb) (λ b,
    bp ← b_read dev (BBLOCK b sb);
    x ← b_data bp;
    r ← balloc_scan x (Z.to_nat (Z.min BPB (sb_size sb - b)));
    match r with
    | Some bi => balloc_take dev b bp x bi
    | None => b_rel bp;; mret None
    end);
  match r with
  | Some b => mret b
  | None => panic "balloc: out of blocks"
  end.

Definition bfree (dev b : Z) : K (fstate B) unit :=
  sb ← the_sb;
  bp ← b_read dev (BBLOCK b sb);
  let bi := Z.to_nat (b mod BPB) in
  x ← b_data bp;
  y ← deref (x !! (bi / 8)%nat);
  if Z.land y (bit_mask bi) =? 0 then panic "freeing free block" else
  b_set bp (<[(bi / 8)%nat := u8 (Z.land y (Z.lnot (bit_mask bi)))]> x);;
  b_log bp;;
  b_rel bp.

(** ** Inodes *)

Definition iinit (dev : Z) (readsb : Z → K B superblock) : K (fstate B) unit :=
  initlock Licache;;
  for_each (seq 0 NINODE) (λ i, initsleeplock (SInode i) (ilens i));;
  x ← blk (readsb dev);
  modify (set_fsb x).

(** The loop of [iget]: the entry of the inode, or else the first empty slot. *)
Fixpoint iget_scan (dev num : Z) (l : list inode) (k : nat) (empty : option nat)
    : nat + option nat :=
  match l with
  | [] => inr empty
  | ip :: l =>
      if (0 <? iref ip) && (idev ip =? dev) && (inum ip =? num) then inl k else
      iget_scan dev num l (S k)
        (match empty with None => if iref ip =? 0 then Some k else None | Some e => Some e end)
  end.

Definition iget (dev num : Z) : K (fstate B) nat :=
  acquire Licache;;
  l ← gets icache;
  match iget_scan dev num l 0 None with
  | inl i =>
      iupd i (λ ip, set_iref (iref ip + 1) ip);;
      release Licache;;
      mret i
  | inr None => panic "iget: no inodes"
  | inr (Some i) =>
      iupd i (λ ip, Inode dev num 1 (ilk ip) 0 (itype ip) (imajor ip) (iminor ip) (inlink ip)
                          (isize ip) (iaddrs ip));;
      release Licache;;
      mret i
  end.

(** One iteration of [ialloc]. *)
Definition ialloc_try (dev type : Z) (sb : superblock) (num : Z) : K (fstate B) (option nat) :=
  bp ← b_read dev (IBLOCK num sb);
  x ← b_data bp;
  if d_type (dinode_dec (slice (dip_off num) (Z.to_nat DINODE_SIZE) x)) =? 0 then
    b_set bp (blit (dip_off num)
      (dinode_enc (Dinode type 0 0 0 0 (replicate (Z.to_nat NDIRECT + 1) 0))) x);;
    b_log bp;;
    b_rel bp;;
    i ← iget dev num;
    mret (Some i)
  else b_rel bp;; mret None.

Definition ialloc (dev type : Z) : K (fstate B) nat :=
  sb ← the_sb;
  r ← for_find (Z.of_nat <$> seq 1 (Z.to_nat (sb_ninodes sb - 1))) (ialloc_try dev type sb);
  match r with
  | Some i => mret i
  | None => panic "ialloc: no inodes"
  end.

Definition iupdate (i : nat) : K (fstate B) unit :=
  sb ← the_sb;
  ip ← iptr i;
  bp ← b_read (idev ip) (IBLOCK (inum ip) sb);
  x ← b_data bp;
  b_set bp (blit (dip_off (inum ip)) (dinode_enc (to_dinode ip)) x);;
  b_log bp;;
  b_rel bp.

Definition idup (i : nat) : K (fstate B) nat :=
  acquire Licache;;
  iupd i (λ ip, set_iref (iref ip + 1) ip);;
  release Licache;;
  mret i.

Definition ilock (p : option nat) : K (fstate B) unit :=
  match p with
  | None => panic "ilock"
  | Some i =>
      ip ← iptr i;
      if iref ip <? 1 then panic "ilock" else
      acquiresleep (SInode i) (ilens i);;
      ip ← iptr i;
      if ivalid ip =? 0 then
        sb ← the_sb;
        bp ← b_read (idev ip) (IBLOCK (inum ip) sb);
        x ← b_data bp;
        iupd i (set_dinode (dinode_dec (slice (dip_off (inum ip)) (Z.to_nat DINODE_SIZE) x)));;
        b_rel bp;;
        iupd i (set_ivalid 1);;
        ip ← iptr i;
        if itype ip =? 0 then panic "ilock: no type" else mret ()
      else mret ()
  end.

Definition iunlock (p : option nat) : K (fstate B) unit :=
  match p with
  | None => panic "iunlock"
  | Some i =>
      h ← holdingsleep (SInode i) (ilens i);
      ip ← iptr i;
      if negb h || (iref ip <? 1) then panic "iunlock" else
      releasesleep (SInode i) (ilens i)
  end.

(** ** Inode contents *)

(** [a[bn]] of an indirect block, and [a[bn] = addr]. *)
Definition ind_get (x : block) (bn : Z) : Z := word_at x (Z.to_nat bn).
Definition ind_set (x : block) (bn addr : Z) : block :=
  blit (4 * Z.to_nat bn) (le_bytes 4 (u32 addr)) x.

(** [ip->addrs[k]], and the allocation [ip->addrs[k] = addr = balloc(ip->dev)]
    when it is zero. *)
Definition addr_get (i : nat) (k : Z) : K (fstate B) Z :=
  ip ← iptr i; deref (iaddrs ip !! Z.to_nat k).

Definition addr_alloc (i : nat) (k : Z) : K (fstate B) Z :=
  addr ← addr_get i k;
  if addr =? 0 then
    ip ← iptr i;
    addr ← balloc (idev ip);
    iupd i (λ ip, set_iaddrs (<[Z.to_nat k := addr]> (iaddrs ip)) ip);;
    mret addr
  else mret addr.

Definition bmap (i : nat) (bn : Z) : K (fstate B) Z :=
  if bn <? NDIRECT then addr_alloc i bn else
  let bn := bn - NDIRECT in
  if bn <? NINDIRECT then
    addr ← addr_alloc i NDIRECT;
    ip ← iptr i;
    bp ← b_read (idev ip) addr;
    x ← b_data bp;
    let addr := ind_get x bn in
    if addr =? 0 then
      addr ← balloc (idev ip);
      x ← b_data bp;
      b_set bp (ind_set x bn addr);;
      b_log bp;;
      b_rel bp;;
      mret addr
    else b_rel bp;; mret addr
  else panic "bmap: out of range".

Definition itrunc (i : nat) : K (fstate B) unit :=
  for_each (seq 0 (Z.to_nat NDIRECT)) (λ k,
    ip ← iptr i;
    addr ← deref (iaddrs ip !! k);
    if addr =? 0 then mret () else
    bfree (idev ip) addr;;
    iupd i (λ ip, set_iaddrs (<[k := 0]> (iaddrs ip)) ip));;
  ip ← iptr i;
  addr ← deref (iaddrs ip !! Z.to_nat NDIRECT);
  (if addr =? 0 then mret () else
    bp ← b_read (idev ip) addr;
    for_each (seq 0 (Z.to_nat NINDIRECT)) (λ j,
      x ← b_data bp;
      let a := ind_get x j in
      if a =? 0 then mret () else bfree (idev ip) a);;
    b_rel bp;;
    bfree (idev ip) addr;;
    iupd i (λ ip, set_iaddrs (<[Z.to_nat NDIRECT := 0]> (iaddrs ip)) ip));;
  iupd i (set_isize 0);;
  iupdate i.

Definition iput (i : nat) : K (fstate B) unit :=
  acquiresleep (SInode i) (ilens i);;
  ip ← iptr i;
  (if negb (ivalid ip =? 0) && (inlink ip =? 0) then
    acquire Licache;;
    ip ← iptr i;
    let r := iref ip in
    release Licache;;
    if r =? 1 then
      itrunc i;;
      iupd i (set_itype 0);;
      iupdate i;;
      iupd i (set_ivalid 0)
    else mret ()
   else mret ());;
  releasesleep (SInode i) (ilens i);;
  acquire Licache;;
  iupd i (λ ip, set_iref (iref ip - 1) ip);;
  release Licache.

Definition iunlockput (p : option nat) : K (fstate B) unit :=
  iunlock p;;
  match p with None => undef | Some i => iput i end.

(** [struct stat]. *)
Record stat := Stat { st_type : Z; st_dev : Z; st_ino : Z; st_nlink : Z; st_size : Z }.

Definition stati (i : nat) : K (fstate B) stat :=
  ip ← iptr i; mret (Stat (itype ip) (s32 (idev ip)) (inum ip) (inlink ip) (isize ip)).

(** The bytes to copy in one iteration of [readi] and [writei]. *)
Definition chunk (n tot off : Z) : Z := Z.min (n - tot) (BSIZE - off mod BSIZE).

(** The loops of [readi] and [writei]; [fuel] bounds the number of iterations,
    each of which copies at least one byte. *)
Fixpoint readi_loop (fuel : nat) (i : nat) (off tot n : Z) : K (fstate B) (list Z) :=
  if negb (tot <? n) then mret [] else
  match fuel with
  | O => nofuel
  | S fuel =>
      ip ← iptr i;
      addr ← bmap i (off / BSIZE);
      bp ← b_read (idev ip) addr;
      x ← b_data bp;
      let m := chunk n tot off in
      b_rel bp;;
      rest ← readi_loop fuel i (u32 (off + m)) (u32 (tot + m)) n;
      mret (slice (Z.to_nat (off mod BSIZE)) (Z.to_nat m) x ++ rest)
  end.

(** Returns the C result and the bytes copied to [dst]. *)
Definition readi (i : nat) (off n : Z) : K (fstate B) (Z * list Z) :=
  ip ← iptr i;
  if itype ip =? T_DEV then
    if (imajor ip <? 0) || (NDEV <=? imajor ip) then mret (-1, []) else
    match dev_read (devsw (imajor ip)) with
    | None => mret (-1, [])
    | Some f => f i n
    end
  else
  if (isize ip <? off) || (u32 (off + n) <? off) then mret (-1, []) else
  let n := if isize ip <? u32 (off + n) then u32 (isize ip - off) else n in
  l ← readi_loop (Z.to_nat n) i off 0 n;
  mret (s32 n, l).

(** Returns the final value of [off]. *)
Fixpoint writei_loop (fuel : nat) (i : nat) (src : list Z) (off tot n : Z) : K (fstate B) Z :=
  if negb (tot <? n) then mret off else
  match fuel with
  | O => nofuel
  | S fuel =>
      ip ← iptr i;
      addr ← bmap i (off / BSIZE);
      bp ← b_read (idev ip) addr;
      let m := chunk n tot off in
      x ← b_data bp;
      _ ← deref (src !! Z.to_nat (tot + m - 1));
      b_set bp (blit (Z.to_nat (off mod BSIZE)) (slice (Z.to_nat tot) (Z.to_nat m) src) x);;
      b_log bp;;
      b_rel bp;;
      writei_loop fuel i src (u32 (off + m)) (u32 (tot + m)) n
  end.

Definition writei (i : nat) (src : list Z) (off n : Z) : K (fstate B) Z :=
  ip ← iptr i;
  if itype ip =? T_DEV then
    if (imajor ip <? 0) || (NDEV <=? imajor ip) then mret (-1) else
    match dev_write (devsw (imajor ip)) with
    | None => mret (-1)
    | Some f => f i src n
    end
  else
  if (isize ip <? off) || (u32 (off + n) <? off) then mret (-1) else
  if MAXFILE * BSIZE <? u32 (off + n) then mret (-1) else
  off ← writei_loop (Z.to_nat n) i src off 0 n;
  ip ← iptr i;
  (if (0 <? n) && (isize ip <? off) then iupd i (set_isize off);; iupdate i else mret ());;
  mret (s32 n).

(** ** Directories *)

(** [struct dirent]: the inode number and the name field. *)
Definition de_inum (de : list Z) : Z := le_val (slice 0 2 de).
Definition de_name (de : list Z) : list Z := slice 2 DIRSIZ de.

Definition namecmp (s t : list Z) : K (fstate B) Z := deref (strncmp s t DIRSIZ).

(** [for(off = 0; off < dp->size; off += sizeof(de))]. *)
Definition dir_offs (size : Z) : list Z :=
  (λ k : nat, k * DIRENT_SIZE) <$> seq 0 (Z.to_nat ((size + DIRENT_SIZE - 1) / DIRENT_SIZE)).

(** [readi(dp, (char* )&de, off, sizeof(de)) != sizeof(de)] panics. *)
Definition read_dirent (dp : nat) (off : Z) (msg : string) : K (fstate B) (list Z) :=
  '(r, de) ← readi dp off DIRENT_SIZE;
  if r =? DIRENT_SIZE then mret de else panic msg.

(** The found inode and the offset of its entry ([*poff]). *)
Definition dirlookup (dp : nat) (name : list Z) : K (fstate B) (option (nat * Z)) :=
  ip ← iptr dp;
  if negb (itype ip =? T_DIR) then panic "dirlookup not DIR" else
  for_find (dir_offs (isize ip)) (λ off,
    de ← read_dirent dp off "dirlookup read";
    if de_inum de =? 0 then mret None else
    c ← namecmp name (de_name de);
    if c =? 0 then
      i ← iget (idev ip) (de_inum de);
      mret (Some (i, off))
    else mret None).

Definition dirlink (dp : nat) (name : list Z) (num : Z) : K (fstate B) Z :=
  r ← dirlookup dp name;
  match r with
  | Some (i, _) => iput i;; mret (-1)
  | None =>
      ip ← iptr dp;
      r ← for_find (dir_offs (isize ip)) (λ off,
        de ← read_dirent dp off "dirlink read";
        mret (if de_inum de =? 0 then Some off else None));
      let off := default ((isize ip + DIRENT_SIZE - 1) / DIRENT_SIZE * DIRENT_SIZE) r in
      let de := le_bytes 2 (u16 num) ++ strncpy_bytes name DIRSIZ in
      w ← writei dp de off DIRENT_SIZE;
      if w =? DIRENT_SIZE then mret 0 else panic "dirlink"
  end.

(** ** Paths *)

(** The loops of [skipelem]; running past the end of memory is undefined. *)
Fixpoint skip_slash (p : list Z) : option (list Z) :=
  match p with
  | [] => None
  | a :: q => if a =? 47 then skip_slash q else Some p
  end.

Fixpoint scan_elem (p : list Z) : option (list Z * list Z) :=
  match p with
  | [] => None
  | a :: q => if (a =? 47) || (a =? 0) then Some ([], p) else
              '(e, r) ← scan_elem q; Some (a :: e, r)
  end.

(** The rest of the path and the new contents of the buffer [name], or nothing
    when the path has no more elements. *)
Definition skipelem (path name : list Z) : option (option (list Z * list Z)) :=
  p ← skip_slash path;
  c ← p !! 0%nat;
  if c =? 0 then Some None else
  '(e, r) ← scan_elem p;
  let name := if decide (DIRSIZ ≤ length e)%nat then blit 0 (take DIRSIZ e) name
              else blit 0 (e ++ [0]) name in
  r ← skip_slash r;
  Some (Some (r, name)).

Fixpoint namex_loop (fuel : nat) (ip : nat) (path : list Z) (nameiparent : bool) (name : list Z)
    : K (fstate B) (option nat * list Z) :=
  e ← deref (skipelem path name);
  match e with
  | None => if nameiparent then iput ip;; mret (None, name) else mret (Some ip, name)
  | Some (path, name) =>
      match fuel with
      | O => nofuel
      | S fuel =>
          ilock (Some ip);;
          x ← iptr ip;
          if negb (itype x =? T_DIR) then iunlockput (Some ip);; mret (None, name) else
          c ← deref (path !! 0%nat);
          if nameiparent && (c =? 0) then iunlock (Some ip);; mret (Some ip, name) else
          next ← dirlookup ip name;
          match next with
          | None => iunlockput (Some ip);; mret (None, name)
          | Some (next, _) =>
              iunlockput (Some ip);;
              namex_loop fuel next path nameiparent name
          end
      end
  end.

Definition namex (path : list Z) (nameiparent : bool) (name : list Z)
    : K (fstate B) (option nat * list Z) :=
  c ← deref (path !! 0%nat);
  ip ← (if c =? 47 then iget ROOTDEV ROOTINO else
        pid ← myproc_pid;
        w ← gets cwd;
        i ← deref (w !! pid);
        idup i);
  namex_loop (length path) ip path nameiparent name.

Definition namei (path : list Z) : K (fstate B) (option nat) :=
  r ← namex path false (replicate DIRSIZ 0); mret r.1.

Definition nameiparent (path name : list Z) : K (fstate B) (option nat * list Z) :=
  namex path true name.
End Fs.
