(* ===== verification/FsBlock.v ===== *)
(** * Block allocation: correctness of [bzero], [balloc], [bfree]

    Proved against the block interface.  [Fat] is the symbolic state of file
    system code inside a transaction. *)

From S2P Require Import Prelude CInt CString Kernel Params Sleeplock Bio BioSpec Cache Log LogSpec BlockIO Fs.

(** ** Symbolic states *)

Definition inner {B} (σ : kst (fstate B)) : kst B :=
  Kst (kcpu σ) (klocks σ) (kslp σ) (fblk (kdata σ)).

Section Fat.
Context {B : Type} `{!BlockIO B} {home : Z → Prop} {cap : nat} `{!BlockIOSpec B home cap}.
Context {S0 : Type} (σ0 : kst S0) (pid : Z).

Record Fat (H : gmap nat Z) (X M : gset Z) (V : Z → block) (ic : list inode) (sb : superblock)
    (σ : kst (fstate B)) : Prop := {
  fa_frame : frame σ0 σ;
  fa_io : io_at pid H X M V (inner σ);
  fa_ic : icache (kdata σ) = ic;
  fa_sb : fsb (kdata σ) = sb
}.

Implicit Types (H : gmap nat Z) (X M : gset Z) (V : Z → block) (ic : list inode).

Lemma fat_block_ok H X M V ic sb σ b : Fat H X M V ic sb σ → block_ok (V b).
Proof. intros []. by eapply io_block_ok. Qed.

Lemma fat_same H X M V V' ic sb σ :
  Fat H X M V ic sb σ → (∀ b, V b = V' b) → Fat H X M V' ic sb σ.
Proof. intros [] HV. split; try done. by eapply io_same. Qed.

(** A block operation of the interface keeps the rest of the state. *)
Lemma fat_back H X M V ic sb σ H' X' M' V' (τ : kst B) :
  Fat H X M V ic sb σ → frame (inner σ) τ → io_at pid H' X' M' V' τ →
  Fat H' X' M' V' ic sb (Kst (kcpu τ) (klocks τ) (kslp τ) (set_fblk (kdata τ) (kdata σ))).
Proof.
  intros [Hf Hio Hic Hsb] Hfr Hio'. split; simpl; [|by destruct τ|done|done].
  destruct Hf as (?&?&?), Hfr as (?&?&?). split_and!; simpl in *; [congruence|congruence|].
  by etrans.
Qed.

Lemma fat_read H X M V ic sb σ b Q :
  Fat H X M V ic sb σ → home b → (∀ i, H !! i ≠ Some b) →
  (base.size X + base.size H < NBUF)%nat →
  (∀ i σ', H !! i = None → Fat (<[i := b]> H) X M V ic sb σ' → Q i σ') →
  wp (b_read ROOTDEV b) Q σ.
Proof.
  intros HF Hb HH Hs HQ. apply wp_zoom. eapply io_bread_wp; [apply HF|done|done|done|].
  intros i τ Hf Hi Hio. apply HQ; [done|]. by eapply fat_back.
Qed.

Lemma fat_data H X M V ic sb σ i b Q :
  Fat H X M V ic sb σ → H !! i = Some b → Q (V b) σ → wp (b_data i) Q σ.
Proof.
  intros HF Hi HQ. apply wp_zoom. eapply io_get_wp; [apply HF|done|].
  by destruct σ as [c L w [? ? ? ?]].
Qed.

Lemma fat_set H X M V ic sb σ i b y Q :
  Fat H X M V ic sb σ → H !! i = Some b → block_ok y →
  (∀ σ', Fat H X ({[b]} ∪ M) (upd V b y) ic sb σ' → Q tt σ') → wp (b_set i y) Q σ.
Proof.
  intros HF Hi Hy HQ. apply wp_zoom. eapply io_put_wp; [apply HF|done|done|].
  intros τ Hf Hio. apply HQ. by eapply fat_back.
Qed.

Lemma fat_log H X M V ic sb σ i b Q :
  Fat H X M V ic sb σ → H !! i = Some b → home b → (base.size X < cap)%nat →
  (∀ σ', Fat H ({[b]} ∪ X) (M ∖ {[b]}) V ic sb σ' → Q tt σ') → wp (b_log i) Q σ.
Proof.
  intros HF Hi Hb Hs HQ. apply wp_zoom. eapply io_log_write_wp; [apply HF|done|done|done|].
  intros τ Hf Hio. apply HQ. by eapply fat_back.
Qed.

Lemma fat_rel H X M V ic sb σ i b Q :
  Fat H X M V ic sb σ → H !! i = Some b → b ∉ M →
  (∀ σ', Fat (delete i H) X M V ic sb σ' → Q tt σ') → wp (b_rel i) Q σ.
Proof.
  intros HF Hi HM HQ. apply wp_zoom. eapply io_brelse_wp; [apply HF|done|done|].
  intros τ Hf Hio. apply HQ. by eapply fat_back.
Qed.

Lemma fat_iptr H X M V ic sb σ i ip Q :
  Fat H X M V ic sb σ → ic !! i = Some ip → Q ip σ → wp (iptr i) Q σ.
Proof.
  intros HF Hi HQ. rewrite /iptr. apply wp_bind, wp_gets. rewrite (fa_ic _ _ _ _ _ _ _ HF).
  by eapply wp_deref.
Qed.

Lemma fat_iupd H X M V ic sb σ i ip f Q :
  Fat H X M V ic sb σ → ic !! i = Some ip →
  (∀ σ', Fat H X M V (<[i := f ip]> ic) sb σ' → Q tt σ') → wp (iupd i f) Q σ.
Proof.
  intros HF Hi HQ. rewrite /iupd. apply wp_bind. eapply fat_iptr; [done|done|].
  apply wp_modify, HQ. destruct HF as [Hf Hio Hic Hsb]. split; simpl; [done|done| |done].
  by rewrite Hic (alter_insert_eq _ _ _ _ Hi).
Qed.

Lemma fat_sb H X M V ic sb σ Q : Fat H X M V ic sb σ → Q sb σ → wp the_sb Q σ.
Proof. intros HF HQ. apply wp_gets. by rewrite (fa_sb _ _ _ _ _ _ _ HF). Qed.

(** The end of an update: log the changed block and release it. *)
Lemma fat_log_rel H X V ic sb σ i b Q :
  Fat (<[i := b]> H) X {[b]} V ic sb σ → H !! i = None → home b → (base.size X < cap)%nat →
  (∀ σ', Fat H ({[b]} ∪ X) ∅ V ic sb σ' → Q tt σ') → wp (b_log i;; b_rel i) Q σ.
Proof.
  intros HF Hi Hb Hs HQ. apply wp_bind.
  eapply fat_log; [done|by apply lookup_insert_eq|done|done|]. intros σ1 HF1.
  rewrite difference_diag_L in HF1.
  eapply fat_rel; [done|by apply lookup_insert_eq|set_solver|]. intros σ2 HF2.
  rewrite delete_insert_id // in HF2. by apply HQ.
Qed.

Lemma fat_log_rel_k {A} (k : K (fstate B) A) H X V ic sb σ i b Q :
  Fat (<[i := b]> H) X {[b]} V ic sb σ → H !! i = None → home b → (base.size X < cap)%nat →
  (∀ σ', Fat H ({[b]} ∪ X) ∅ V ic sb σ' → wp k Q σ') → wp (b_log i;; b_rel i;; k) Q σ.
Proof.
  intros HF Hi Hb Hs HQ. apply wp_bind.
  eapply fat_log; [done|by apply lookup_insert_eq|done|done|]. intros σ1 HF1.
  rewrite difference_diag_L in HF1. apply wp_bind.
  eapply fat_rel; [done|by apply lookup_insert_eq|set_solver|]. intros σ2 HF2.
  rewrite delete_insert_id // in HF2. by apply HQ.
Qed.
End Fat.

(** ** The free bitmap *)

(** Block [b] is marked in use. *)
Definition bit_at (x : block) (k : nat) : bool :=
  Z.testbit (default 0 (x !! (k / 8)%nat)) (Z.of_nat k mod 8).

Definition used (V : Z → block) (sb : superblock) (b : Z) : bool :=
  bit_at (V (BBLOCK b sb)) (Z.to_nat (b mod BPB)).

(** Setting or clearing one bit of a block. *)
Lemma bit_at_set x k j (f : Z → Z) (v : bool) y :
  x !! (k / 8)%nat = Some y →
  (∀ i, 0 ≤ i < 8 → Z.testbit (f y) i = if decide (i = Z.of_nat k mod 8) then v else Z.testbit y i) →
  bit_at (<[(k / 8)%nat := u8 (f y)]> x) j = if decide (j = k) then v else bit_at x j.
Proof.
  intros Hy Hf. rewrite /bit_at. assert (0 ≤ Z.of_nat j mod 8 < 8) as Hr by (apply Z.mod_pos_bound; lia).
  pose proof (lookup_lt_Some _ _ _ Hy) as Hlt.
  destruct (decide (j / 8 = k / 8)%nat) as [E|E].
  - rewrite E list_lookup_insert_eq // Hy /= u8_testbit // Hf //.
    pose proof (Nat.div_mod_eq j 8). pose proof (Nat.div_mod_eq k 8).
    rewrite -!(Nat2Z.inj_mod _ 8). repeat case_decide; try done; subst; try done; exfalso; lia.
  - rewrite list_lookup_insert_ne //. rewrite decide_False //. by intros ->.
Qed.

Lemma byte_insert_ok x k z : block_ok x → block_ok (<[k := u8 z]> x).
Proof.
  intros [Hl Hb]. split; [by rewrite length_insert|]. apply Forall_insert; [done|apply u8_range].
Qed.

Lemma block_byte x (k : nat) : block_ok x → (k < Z.to_nat BPB)%nat → ∃ y, x !! (k / 8)%nat = Some y.
Proof.
  intros [Hl _] Hk. apply lookup_lt_is_Some. rewrite Hl. unfold BPB, BSIZE in *.
  apply Nat.Div0.div_lt_upper_bound. lia.
Qed.

Lemma bit_mask_eq bi : bit_mask bi = Z.shiftl 1 (Z.of_nat bi mod 8).
Proof. done. Qed.

(** The test of [balloc] and [bfree] reads the bit. *)
Lemma mask_test x k y :
  x !! (k / 8)%nat = Some y → (Z.land y (bit_mask k) =? 0) = negb (bit_at x k).
Proof.
  intros Hy. rewrite /bit_mask land_mask; [apply Z.mod_pos_bound; lia|].
  by rewrite /bit_at Hy.
Qed.

(** ** Layout *)

(** The superblock describes a disk whose bitmap and inode blocks come before
    the data blocks [ds ..], all of them blocks of the file system. *)
Record fs_layout (home : Z → Prop) (sb : superblock) (ds : Z) : Prop := {
  fl_size : 0 < sb_size sb < 2 ^ 31;
  fl_bmap : ∀ b, 0 ≤ b < sb_size sb → home (BBLOCK b sb) ∧ BBLOCK b sb = b / BPB + sb_bmapstart sb ∧
    BBLOCK b sb < ds;
  fl_inode : ∀ i, 0 < i < sb_ninodes sb → home (IBLOCK i sb) ∧ IBLOCK i sb < ds ∧
    IBLOCK i sb = i / IPB + sb_inodestart sb ∧
    (∀ b, 0 ≤ b < sb_size sb → IBLOCK i sb ≠ BBLOCK b sb);
  fl_ninodes : 0 < sb_ninodes sb < 2 ^ 16;
  fl_data : ∀ b, ds ≤ b < sb_size sb → home b;
  fl_ds : 0 < ds
}.

(** Blocks before the data area are marked in use. *)
Definition meta_used (V : Z → block) (sb : superblock) (ds : Z) : Prop :=
  ∀ b, 0 ≤ b < ds → b < sb_size sb → used V sb b = true.

(** ** Marking blocks *)

Definition set_bit (x : block) (k : nat) (v : bool) : block :=
  let y := default 0 (x !! (k / 8)%nat) in
  <[(k / 8)%nat := u8 (if v then Z.lor y (bit_mask k) else Z.land y (Z.lnot (bit_mask k)))]> x.

Definition mark (V : Z → block) (sb : superblock) (a : Z) (v : bool) : Z → block :=
  upd V (BBLOCK a sb) (set_bit (V (BBLOCK a sb)) (Z.to_nat (a mod BPB)) v).

Lemma bit_at_set_bit x k j v :
  block_ok x → (k < Z.to_nat BPB)%nat →
  bit_at (set_bit x k v) j = if decide (j = k) then v else bit_at x j.
Proof.
  intros Hok Hk. destruct (block_byte x k Hok Hk) as [y Hy]. rewrite /set_bit Hy /=.
  apply (bit_at_set x k j (λ y, if v then Z.lor y (bit_mask k) else Z.land y (Z.lnot (bit_mask k)))
    v y Hy). intros i Hi. assert (0 ≤ Z.of_nat k mod 8) by (apply Z.mod_pos_bound; lia).
  destruct v; rewrite /bit_mask; [apply lor_mask_testbit|apply clear_mask_testbit]; lia.
Qed.

Lemma set_bit_ok x k v : block_ok x → block_ok (set_bit x k v).
Proof. apply byte_insert_ok. Qed.

Lemma BPB_mod b : (Z.to_nat (b mod BPB) < Z.to_nat BPB)%nat.
Proof. pose proof (Z.mod_pos_bound b BPB ltac:(done)). lia. Qed.

Section Marks.
Context {home : Z → Prop} {sb : superblock} {ds : Z} (Hfl : fs_layout home sb ds).

Lemma BBLOCK_inj a b :
  0 ≤ a < sb_size sb → 0 ≤ b < sb_size sb → BBLOCK a sb = BBLOCK b sb →
  Z.to_nat (a mod BPB) = Z.to_nat (b mod BPB) → a = b.
Proof.
  intros Ha Hb. destruct (fl_bmap _ _ _ Hfl a Ha) as (_&->&_).
  destruct (fl_bmap _ _ _ Hfl b Hb) as (_&->&_). intros E1 E2.
  pose proof (Z.mod_pos_bound a BPB ltac:(done)). pose proof (Z.mod_pos_bound b BPB ltac:(done)).
  rewrite (Z.div_mod a BPB) // (Z.div_mod b BPB) //. f_equal; [f_equal|]; lia.
Qed.

Lemma used_mark V a b v :
  (∀ c, block_ok (V c)) → 0 ≤ a < sb_size sb → 0 ≤ b < sb_size sb →
  used (mark V sb a v) sb b = if decide (b = a) then v else used V sb b.
Proof.
  intros Hok Ha Hb. rewrite /used /mark /upd. case_decide as E.
  - rewrite bit_at_set_bit //; [apply BPB_mod|]. rewrite E.
    destruct (decide (Z.to_nat (b mod BPB) = Z.to_nat (a mod BPB))) as [E2|E2].
    + rewrite decide_True //. by apply BBLOCK_inj.
    + rewrite decide_False //. by intros ->.
  - rewrite decide_False //. by intros ->.
Qed.

(** The bitmap does not depend on data blocks. *)
Lemma used_data V a y b :
  ds ≤ a → 0 ≤ b < sb_size sb → used (upd V a y) sb b = used V sb b.
Proof.
  intros Ha Hb. rewrite /used upd_ne //. destruct (fl_bmap _ _ _ Hfl b Hb) as (_&_&?). lia.
Qed.

Lemma mark_data V a v b : 0 ≤ a < sb_size sb → ds ≤ b → mark V sb a v b = V b.
Proof.
  intros Ha Hb. rewrite /mark upd_ne //. destruct (fl_bmap _ _ _ Hfl a Ha) as (_&_&?). lia.
Qed.
End Marks.

(** ** Routines *)

Section Alloc.
Context {B : Type} `{!BlockIO B} {home : Z → Prop} {cap : nat} `{!BlockIOSpec B home cap}.
Context {S0 : Type} (σ0 : kst S0) (pid : Z) {sb : superblock} {ds : Z}.
Context (Hfl : fs_layout home sb ds).
Implicit Types (H : gmap nat Z) (X M : gset Z) (V : Z → block) (ic : list inode).

(** No held block is in the way of the allocator: held blocks are data blocks
    in use. *)
Definition held_data (V : Z → block) (H : gmap nat Z) : Prop :=
  ∀ i b, H !! i = Some b → ds ≤ b < sb_size sb ∧ used V sb b = true.

Lemma bzero_wp H X V ic σ b Q :
  Fat σ0 pid H X ∅ V ic sb σ → home b → (∀ i, H !! i ≠ Some b) →
  (base.size X + base.size H < NBUF)%nat → (base.size X < cap)%nat →
  (∀ σ', Fat σ0 pid H ({[b]} ∪ X) ∅ (upd V b zero_block) ic sb σ' → Q tt σ') →
  wp (bzero ROOTDEV b) Q σ.
Proof.
  intros HF Hb HH Hr Hc HQ. rewrite /bzero. apply wp_bind.
  eapply fat_read; [done|done|done|done|]. intros i σ1 Hi HF1.
  apply wp_bind. eapply fat_data; [done|by apply lookup_insert_eq|].
  pose proof (fat_block_ok _ _ _ _ _ _ _ _ _ b HF1) as [Hl _].
  apply wp_bind. eapply wp_deref; [apply memset_spec; by rewrite Hl|].
  rewrite (_ : blit 0 (replicate (Z.to_nat BSIZE) (u8 0)) (V b) = zero_block).
  { rewrite /blit length_replicate drop_ge; [by rewrite Hl|]. by rewrite app_nil_r. }
  apply wp_bind. eapply fat_set; [done|by apply lookup_insert_eq|apply zero_block_ok|].
  intros σ2 HF2. rewrite union_empty_r_L in HF2. by eapply fat_log_rel.
Qed.

Lemma balloc_scan_wp x n (σ : kst (fstate B)) (Q : option nat → kst (fstate B) → Prop) :
  block_ok x → (n ≤ Z.to_nat BPB)%nat →
  (∀ bi : nat, (bi < n)%nat → bit_at x bi = false →
     (∀ j, (j < bi)%nat → bit_at x j = true) → Q (Some bi) σ) →
  ((∀ j, (j < n)%nat → bit_at x j = true) → Q None σ) →
  wp (balloc_scan x n) Q σ.
Proof.
  intros Hok Hn HS HN. rewrite /balloc_scan.
  apply (wp_for_find _ _ (λ k σ', σ' = σ ∧ ∃ t, k = seq t (n - t) ∧ (t ≤ n)%nat ∧
    ∀ j, (j < t)%nat → bit_at x j = true)).
  - split; [done|]. exists 0%nat. rewrite Nat.sub_0_r. split_and!; [done|lia|lia].
  - intros b k σ' _ (->&t&Hk&Ht&Hb). destruct (n - t)%nat as [|m] eqn:Hm; [done|].
    injection Hk as -> ->. destruct (block_byte x t Hok) as [y Hy]; [lia|].
    apply wp_bind. eapply wp_deref; [done|]. apply wp_ret. rewrite (mask_test _ _ _ Hy).
    destruct (bit_at x t) eqn:E; simpl.
    + split; [done|]. exists (S t). split_and!; [f_equal; lia|lia|]. intros j Hj.
      destruct (decide (j = t)) as [->|]; [done|]. apply Hb. lia.
    + apply HS; [lia|done|done].
  - intros σ' (->&t&Hk&Ht&Hb). apply HN. intros j Hj. apply Hb.
    destruct (n - t)%nat eqn:E; [lia|done].
Qed.

(** The base of a bitmap block and the blocks it covers. *)
Lemma BBLOCK_base (j : nat) (bi : nat) :
  (bi < Z.to_nat BPB)%nat → 0 ≤ j * BPB + bi < sb_size sb →
  BBLOCK (j * BPB + bi) sb = BBLOCK (j * BPB) sb ∧ Z.to_nat ((j * BPB + bi) mod BPB) = bi.
Proof.
  intros Hbi Hr. destruct (fl_bmap _ _ _ Hfl (j * BPB + bi)) as (_&->&_); [done|].
  destruct (fl_bmap _ _ _ Hfl (j * BPB)) as (_&->&_); [unfold BPB, BSIZE in *; lia|].
  assert (0 ≤ bi < BPB) by lia. rewrite (Z.add_comm (j * BPB)).
  rewrite Z.div_add // Z.mod_add // Z.div_mul // Z.div_small // Z.mod_small //. lia.
Qed.

Lemma used_base V (j bi : nat) :
  (bi < Z.to_nat BPB)%nat → 0 ≤ j * BPB + bi < sb_size sb →
  used V sb (j * BPB + bi) = bit_at (V (BBLOCK (j * BPB) sb)) bi.
Proof. intros H1 H2. rewrite /used. by destruct (BBLOCK_base j bi) as [-> ->]. Qed.

Lemma balloc_take_wp H X V ic σ (j bi bp : nat) Q :
  let a := j * BPB + bi in let bb := BBLOCK (j * BPB) sb in
  Fat σ0 pid (<[bp := bb]> H) X ∅ V ic sb σ → H !! bp = None → held_data V H → meta_used V sb ds →
  (base.size X + base.size H + 1 < NBUF)%nat → (base.size X + 1 < cap)%nat →
  (bi < Z.to_nat BPB)%nat → 0 ≤ a < sb_size sb → used V sb a = false →
  (∀ σ', Fat σ0 pid H ({[a]} ∪ ({[BBLOCK a sb]} ∪ X)) ∅ (upd (mark V sb a true) a zero_block) ic sb σ' →
     Q (Some a) σ') →
  wp (balloc_take ROOTDEV (j * BPB) bp (V bb) bi) Q σ.
Proof.
  intros a bb HF Hbp HH Hmu Hr Hc Hbi Ha Hfree HQ.
  destruct (BBLOCK_base j bi Hbi Ha) as [Hbb Hmod]. fold a bb in Hbb, Hmod.
  pose proof (fat_block_ok _ _ _ _ _ _ _ _ _ bb HF) as Hok.
  destruct (block_byte (V bb) bi Hok Hbi) as [y Hy].
  destruct (fl_bmap _ _ _ Hfl a Ha) as (Hhome&_&Hlt). rewrite Hbb in Hhome Hlt.
  assert (ds ≤ a) as Hds.
  { destruct (decide (a < ds)); [|lia]. rewrite Hmu in Hfree; [lia|lia|done]. }
  rewrite /balloc_take. apply wp_bind. eapply wp_deref; [done|].
  apply wp_bind. eapply fat_set; [done|by apply lookup_insert_eq|by apply byte_insert_ok|].
  intros σ1 HF1. rewrite union_empty_r_L in HF1.
  assert (upd V bb (<[(bi / 8)%nat := u8 (Z.lor y (bit_mask bi))]> (V bb)) = mark V sb a true) as HV.
  { by rewrite /mark Hbb Hmod /set_bit Hy. }
  rewrite HV in HF1.
  eapply fat_log_rel_k; [exact HF1|done|done|lia|]. intros σ2 HF2.
  apply wp_bind. eapply bzero_wp; [exact HF2| | | | |].
  - apply Hfl. lia.
  - intros i Hi. destruct (HH i a Hi) as [_ Hu]. congruence.
  - pose proof (size_union_le {[bb]} X) as Hsz. rewrite size_singleton in Hsz. lia.
  - pose proof (size_union_le {[bb]} X) as Hsz. rewrite size_singleton in Hsz. lia.
  - intros σ3 HF3. apply wp_ret, HQ. by rewrite Hbb.
Qed.

(** Number of bitmap blocks. *)
Let nbases := Z.to_nat ((sb_size sb + BPB - 1) / BPB).

Lemma base_lt (t : nat) : (t < nbases)%nat ↔ t * BPB < sb_size sb.
Proof.
  pose proof (fl_size _ _ _ Hfl). rewrite /nbases. unfold BPB, BSIZE.
  split; intros Ht.
  - assert (Z.of_nat t + 1 ≤ (sb_size sb + 512 * 8 - 1) / (512 * 8)) as H1 by lia.
    pose proof (Z.mul_div_le (sb_size sb + 512 * 8 - 1) (512 * 8)). lia.
  - assert (Z.of_nat t + 1 ≤ (sb_size sb + 512 * 8 - 1) / (512 * 8)); [|lia].
    apply Z.div_le_lower_bound; lia.
Qed.

(** The blocks before base [t] are all in use. *)
Definition used_below (V : Z → block) (z : Z) : Prop :=
  ∀ b, 0 ≤ b < z → b < sb_size sb → used V sb b = true.

(** [balloc] returns the first free block, marked and zeroed. *)
Lemma balloc_wp H X V ic σ Q :
  Fat σ0 pid H X ∅ V ic sb σ → held_data V H → meta_used V sb ds →
  (base.size X + base.size H + 1 < NBUF)%nat → (base.size X + 1 < cap)%nat →
  (∃ a, 0 ≤ a < sb_size sb ∧ used V sb a = false) →
  (∀ a σ', ds ≤ a < sb_size sb → used V sb a = false → used_below V a →
     Fat σ0 pid H ({[a]} ∪ ({[BBLOCK a sb]} ∪ X)) ∅ (upd (mark V sb a true) a zero_block) ic sb σ' →
     Q a σ') →
  wp (balloc ROOTDEV) Q σ.
Proof.
  intros HF HH Hmu Hr Hc Hex HQ. rewrite /balloc. apply wp_bind. eapply fat_sb; [done|].
  apply wp_bind.
  apply (wp_for_find _ _ (λ k σ', Fat σ0 pid H X ∅ V ic sb σ' ∧ ∃ t : nat,
    k = (λ k : nat, k * BPB) <$> seq t (nbases - t) ∧ (t ≤ nbases)%nat ∧ used_below V (t * BPB))).
  - split; [done|]. exists 0%nat. rewrite Nat.sub_0_r. split_and!; [done|lia|]. intros b Hb. lia.
  - intros b k σ' _ (HF'&t&Hk&Ht&Hu). destruct (nbases - t)%nat as [|m] eqn:Hm; [done|].
    simpl in Hk. injection Hk as -> ->. assert (t * BPB < sb_size sb) as Htb by (apply base_lt; lia).
    assert (0 ≤ t * BPB) as Ht0 by (unfold BPB, BSIZE; lia).
    destruct (fl_bmap _ _ _ Hfl (t * BPB)) as (Hhome&_&Hlt); [lia|].
    apply wp_bind. eapply fat_read; [done|done| |lia|].
    { intros i Hi. destruct (HH i _ Hi). lia. }
    intros bp σ1 Hbp HF1. apply wp_bind. eapply fat_data; [done|by apply lookup_insert_eq|].
    apply wp_bind. apply balloc_scan_wp; [by eapply fat_block_ok|lia| |].
    + intros bi Hbi Hbit Hbef.
      assert (bi < Z.to_nat BPB)%nat by lia. assert (0 ≤ t * BPB + bi < sb_size sb) by lia.
      eapply balloc_take_wp; try done; [by rewrite used_base|]. intros σ2 HF2.
      apply wp_ret. assert (used V sb (t * BPB + bi) = false) as Hfree by by rewrite used_base.
      apply HQ; [|done| |done].
      * split; [|lia]. destruct (decide (t * BPB + bi < ds)); [|lia].
        rewrite Hmu in Hfree; [lia|lia|done].
      * intros b Hb Hb'. destruct (decide (b < t * BPB)); [by apply Hu; lia|].
        replace b with (t * BPB + Z.to_nat (b - t * BPB)) by lia.
        rewrite used_base; [lia|lia|]. apply Hbef. lia.
    + intros Hall. apply wp_bind. eapply fat_rel; [done|by apply lookup_insert_eq|set_solver|].
      intros σ2 HF2. rewrite delete_insert_id // in HF2. apply wp_ret. split; [done|].
      exists (S t). split_and!; [do 2 f_equal; lia|lia|]. intros b Hb Hb'.
      destruct (decide (b < t * BPB)); [by apply Hu; lia|].
      replace b with (t * BPB + Z.to_nat (b - t * BPB)) by lia.
      rewrite used_base; [lia|lia|]. apply Hall. lia.
  - intros σ' (HF'&t&Hk&Ht&Hu). destruct Hex as (a&Ha&Hfree). exfalso.
    destruct (nbases - t)%nat eqn:E; [|done]. rewrite Hu in Hfree; [|lia|done].
    destruct (decide (a < t * BPB)); [lia|]. assert (t * BPB < sb_size sb) by lia.
    assert (t < nbases)%nat by by apply base_lt. lia.
Qed.

Lemma bfree_wp H X V ic σ b Q :
  Fat σ0 pid H X ∅ V ic sb σ → (∀ i c, H !! i = Some c → ds ≤ c) →
  (base.size X + base.size H < NBUF)%nat → (base.size X < cap)%nat →
  0 ≤ b < sb_size sb → used V sb b = true →
  (∀ σ', Fat σ0 pid H ({[BBLOCK b sb]} ∪ X) ∅ (mark V sb b false) ic sb σ' → Q tt σ') →
  wp (bfree ROOTDEV b) Q σ.
Proof.
  intros HF HH Hr Hc Hb Hu HQ. rewrite /bfree. apply wp_bind. eapply fat_sb; [done|].
  destruct (fl_bmap _ _ _ Hfl b Hb) as (Hhome&_&Hlt).
  apply wp_bind. eapply fat_read; [done|done| |done|].
  { intros i Hi. apply HH in Hi. lia. }
  intros bp σ1 Hbp HF1. cbv zeta. apply wp_bind.
  eapply fat_data; [done|by apply lookup_insert_eq|].
  pose proof (fat_block_ok _ _ _ _ _ _ _ _ _ (BBLOCK b sb) HF1) as Hok.
  destruct (block_byte _ _ Hok (BPB_mod b)) as [y Hy].
  apply wp_bind. eapply wp_deref; [done|]. rewrite (mask_test _ _ _ Hy) /=.
  rewrite (_ : bit_at _ _ = true); [done|]. cbn [negb].
  apply wp_bind. eapply fat_set; [done|by apply lookup_insert_eq|by apply byte_insert_ok|].
  intros σ2 HF2. rewrite union_empty_r_L in HF2. eapply fat_log_rel; [exact HF2|done|done|done|].
  intros σ3 HF3. apply HQ. by rewrite /mark /set_bit Hy.
Qed.

(** Freeing a free block panics. *)
Lemma bfree_free_panics H X V ic σ b :
  Fat σ0 pid H X ∅ V ic sb σ → (∀ i c, H !! i = Some c → ds ≤ c) →
  (base.size X + base.size H < NBUF)%nat →
  0 ≤ b < sb_size sb → used V sb b = false →
  ∃ σ', bfree ROOTDEV b σ = Panic "freeing free block" σ'.
Proof.
  intros HF HH Hr Hb Hu. destruct (fl_bmap _ _ _ Hfl b Hb) as (Hhome&_&Hlt).
  destruct (wp_inv (b_read ROOTDEV (BBLOCK b sb))
    (λ bp σ1, Fat σ0 pid (<[bp := BBLOCK b sb]> H) X ∅ V ic sb σ1) σ) as (bp&σ1&E1&HF1).
  { eapply fat_read; [done|done| |done|auto]. intros i Hi. apply HH in Hi. lia. }
  destruct (wp_inv (b_data bp) (λ x σ2, x = V (BBLOCK b sb) ∧ σ2 = σ1) σ1) as (x&?&E2&->&->).
  { eapply fat_data; [done|by apply lookup_insert_eq|done]. }
  pose proof (fat_block_ok _ _ _ _ _ _ _ _ _ (BBLOCK b sb) HF1) as Hok.
  destruct (block_byte _ _ Hok (BPB_mod b)) as [y Hy].
  exists σ1. rewrite /bfree /the_sb {1}/mbind /K_bind /gets (fa_sb _ _ _ _ _ _ _ _ _ HF).
  rewrite (bind_ret _ _ _ _ _ E1). cbv zeta. rewrite (bind_ret _ _ _ _ _ E2).
  rewrite /mbind /K_bind /deref Hy /=. rewrite (mask_test _ _ _ Hy) (_ : bit_at _ _ = false) //.
Qed.
End Alloc.
