(* ===== verification/FsFile.v ===== *)
(** * Inode contents: correctness of [bmap], [readi], [writei]

    The blocks of a file are the direct addresses of its inode and the entries
    of its indirect block.  [fext] says how a file may change while it grows:
    other files, the inode blocks and the addresses already mapped stay. *)

From S2P Require Import Prelude CInt CString Kernel Params Sleeplock Bio BioSpec Cache Log LogSpec BlockIO Fs FsBlock.

(** ** Words of a block *)

Lemma word_at_blit x (k j : nat) a :
  block_ok x → (k < 128)%nat → (j < 128)%nat → is_u32 a →
  word_at (blit (4 * k) (le_bytes 4 (u32 a)) x) j = if decide (j = k) then a else word_at x j.
Proof.
  intros [Hl _] Hk Hj Ha. rewrite /word_at. unfold BSIZE in Hl. case_decide as E.
  - subst. rewrite slice_blit_eq; [by rewrite length_le_bytes|rewrite length_le_bytes; lia|].
    rewrite le_val_bytes_id; [|by apply u32_small]. rewrite u32_small //.
  - destruct (decide (j < k)%nat).
    + rewrite slice_blit_before //; [rewrite length_le_bytes|]; lia.
    + rewrite slice_blit_after //; rewrite length_le_bytes; lia.
Qed.

Lemma ind_get_set x bn bn' a :
  block_ok x → 0 ≤ bn < NINDIRECT → 0 ≤ bn' < NINDIRECT → is_u32 a →
  ind_get (ind_set x bn a) bn' = if decide (bn' = bn) then a else ind_get x bn'.
Proof.
  intros Hx Hb Hb' Ha. rewrite /ind_get /ind_set.
  change NINDIRECT with 128 in *. rewrite word_at_blit //; [lia|lia|].
  repeat case_decide; try done; lia.
Qed.

Lemma ind_set_ok x bn a : block_ok x → 0 ≤ bn < NINDIRECT → block_ok (ind_set x bn a).
Proof.
  intros [Hl Hb] Hbn. change NINDIRECT with 128 in *. unfold BSIZE in Hl. split.
  - rewrite /ind_set length_blit // length_le_bytes. lia.
  - apply Forall_blit; [apply le_bytes_bytes|done].
Qed.

Lemma ind_get_zero bn : 0 ≤ bn < NINDIRECT → ind_get zero_block bn = 0.
Proof.
  intros Hbn. change NINDIRECT with 128 in Hbn. rewrite /ind_get /word_at /zero_block.
  assert (slice (4 * Z.to_nat bn) 4 (replicate (Z.to_nat BSIZE) 0) = replicate 4 0) as ->; [|done].
  rewrite /slice drop_replicate take_replicate. f_equal. unfold BSIZE. lia.
Qed.

(** ** Addresses of a file *)

Definition addr_of (ip : inode) (k : Z) : Z := default 0 (iaddrs ip !! Z.to_nat k).

Definition baddr (V : Z → block) (ip : inode) (bn : Z) : Z :=
  if bn <? NDIRECT then addr_of ip bn else
  if addr_of ip NDIRECT =? 0 then 0 else ind_get (V (addr_of ip NDIRECT)) (bn - NDIRECT).

Section Files.
Context {home : Z → Prop} {sb : superblock} {ds : Z} (Hfl : fs_layout home sb ds).

Definition data_used (V : Z → block) (a : Z) : Prop :=
  ds ≤ a < sb_size sb ∧ used V sb a = true.

Record inode_wf (V : Z → block) (ip : inode) : Prop := {
  wf_dev : idev ip = ROOTDEV;
  wf_len : length (iaddrs ip) = 13%nat;
  wf_ind : addr_of ip NDIRECT ≠ 0 → data_used V (addr_of ip NDIRECT);
  wf_data : ∀ bn, 0 ≤ bn < MAXFILE → baddr V ip bn ≠ 0 → data_used V (baddr V ip bn);
  wf_inj : ∀ bn bn', 0 ≤ bn < MAXFILE → 0 ≤ bn' < MAXFILE →
    baddr V ip bn ≠ 0 → baddr V ip bn = baddr V ip bn' → bn = bn';
  wf_ind_ne : ∀ bn, 0 ≤ bn < MAXFILE → baddr V ip bn ≠ 0 → baddr V ip bn ≠ addr_of ip NDIRECT
}.

(** Block [b] belongs to the file. *)
Definition owned (V : Z → block) (ip : inode) (b : Z) : Prop :=
  b ≠ 0 ∧ (b = addr_of ip NDIRECT ∨ ∃ bn, 0 ≤ bn < MAXFILE ∧ b = baddr V ip bn).

Record fext (V : Z → block) (ip : inode) (V' : Z → block) (ip' : inode) : Prop := {
  fx_meta : ip' = set_iaddrs (iaddrs ip') ip;
  fx_wf : inode_wf V' ip';
  fx_meta_used : meta_used V' sb ds;
  fx_used : ∀ b, 0 ≤ b < sb_size sb → used V sb b = true → used V' sb b = true;
  fx_frame : ∀ b, ds ≤ b < sb_size sb → used V sb b = true → ¬ owned V ip b → V' b = V b;
  fx_new : ∀ b, owned V' ip' b → owned V ip b ∨ used V sb b = false;
  fx_inodes : ∀ b, 0 ≤ b < ds → (∀ c, 0 ≤ c < sb_size sb → b ≠ BBLOCK c sb) → V' b = V b;
  fx_addr : ∀ bn, 0 ≤ bn < MAXFILE → baddr V ip bn ≠ 0 → baddr V' ip' bn = baddr V ip bn
}.

Lemma fext_refl V ip : inode_wf V ip → meta_used V sb ds → fext V ip V ip.
Proof. intros. split; auto. by destruct ip. Qed.

Lemma owned_data V ip b : inode_wf V ip → owned V ip b → data_used V b.
Proof. intros Hwf (Hb&[->|(bn&Hbn&->)]); [by apply Hwf|by apply Hwf]. Qed.

Lemma fext_trans V1 i1 V2 i2 V3 i3 : fext V1 i1 V2 i2 → fext V2 i2 V3 i3 → fext V1 i1 V3 i3.
Proof.
  intros H12 H23. pose proof (fl_ds _ _ _ Hfl). split; try apply H23.
  - rewrite (fx_meta _ _ _ _ H23) {1}(fx_meta _ _ _ _ H12). done.
  - intros b Hb Hu. apply (fx_used _ _ _ _ H23); [done|]. by apply (fx_used _ _ _ _ H12).
  - intros b Hb Hu Hno. rewrite (fx_frame _ _ _ _ H23) //.
    + apply (fx_used _ _ _ _ H12); [lia|done].
    + intros Ho. destruct (fx_new _ _ _ _ H12 b Ho) as [?|?]; [done|congruence].
    + by apply (fx_frame _ _ _ _ H12).
  - intros b Ho. destruct (fx_new _ _ _ _ H23 b Ho) as [Ho2|Hu].
    + by apply (fx_new _ _ _ _ H12).
    + right. destruct (used V1 sb b) eqn:E; [|done].
      destruct (owned_data _ _ _ (fx_wf _ _ _ _ H23) Ho) as [Hr _].
      rewrite (fx_used _ _ _ _ H12) // in Hu. lia.
  - intros b Hb Hc. rewrite (fx_inodes _ _ _ _ H23) //. by apply (fx_inodes _ _ _ _ H12).
  - intros bn Hbn Hne. rewrite (fx_addr _ _ _ _ H23) //; rewrite (fx_addr _ _ _ _ H12) //.
Qed.

(** ** Free blocks *)

Definition free_set (W : Z → block) : gset Z :=
  list_to_set (filter (λ b, used W sb b = false) (seqZ 0 (sb_size sb))).

Lemma elem_of_free W b : b ∈ free_set W ↔ 0 ≤ b < sb_size sb ∧ used W sb b = false.
Proof. rewrite /free_set elem_of_list_to_set list_elem_of_filter elem_of_seqZ. naive_solver lia. Qed.

(** ** Adding a block to a file *)

(** The view after [balloc] returned [a]. *)
Definition alloc (V : Z → block) (a : Z) : Z → block := upd (mark V sb a true) a zero_block.

Section Alloc.
Context (V : Z → block) (a : Z) (HVok : ∀ b, block_ok (V b)).
Context (Ha : ds ≤ a < sb_size sb) (Hfree : used V sb a = false).

Lemma ds_pos : 0 < ds.
Proof. apply Hfl. Qed.

Lemma used_alloc b : 0 ≤ b < sb_size sb →
  used (alloc V a) sb b = if decide (b = a) then true else used V sb b.
Proof.
  pose proof ds_pos. intros Hb. rewrite /alloc (used_data Hfl) //; [lia|].
  apply (used_mark Hfl); [done|lia|done].
Qed.

Lemma alloc_data b : ds ≤ b → b ≠ a → alloc V a b = V b.
Proof. pose proof ds_pos. intros. rewrite /alloc upd_ne // (mark_data Hfl) //; lia. Qed.

Lemma alloc_inodes b : b < ds → (∀ c, 0 ≤ c < sb_size sb → b ≠ BBLOCK c sb) → alloc V a b = V b.
Proof.
  pose proof ds_pos. intros Hb Hc. rewrite /alloc upd_ne; [lia|]. rewrite /mark upd_ne //.
  apply Hc. lia.
Qed.

(** The file got block [a], in the slot of the indirect block or in slot [bn0]. *)
Lemma fext_new V' ip ip' :
  inode_wf V ip → meta_used V sb ds →
  ip' = set_iaddrs (iaddrs ip') ip → length (iaddrs ip') = 13%nat →
  (∀ b, 0 ≤ b < sb_size sb → used V' sb b = if decide (b = a) then true else used V sb b) →
  (∀ b, ds ≤ b → b ≠ a → b ≠ addr_of ip NDIRECT → V' b = V b) →
  (∀ b, b < ds → (∀ c, 0 ≤ c < sb_size sb → b ≠ BBLOCK c sb) → V' b = V b) →
  (addr_of ip NDIRECT = 0 ∧ addr_of ip' NDIRECT = a ∧
   (∀ bn, 0 ≤ bn < MAXFILE → baddr V' ip' bn = baddr V ip bn)) ∨
  (addr_of ip' NDIRECT = addr_of ip NDIRECT ∧ ∃ bn0, baddr V ip bn0 = 0 ∧
   ∀ bn, 0 ≤ bn < MAXFILE → baddr V' ip' bn = if decide (bn = bn0) then a else baddr V ip bn) →
  fext V ip V' ip'.
Proof.
  intros Hwf Hmu Hip Hlen Hused Hdata Hino Hslot. pose proof ds_pos.
  assert (∀ b, data_used V b → data_used V' b ∧ b ≠ a) as Hdu.
  { intros b [Hr Hu]. assert (b ≠ a) by congruence. split; [|done]. split; [done|].
    rewrite Hused; [lia|]. by rewrite decide_False. }
  assert (data_used V' a) as Hda.
  { split; [done|]. rewrite Hused; [lia|]. by rewrite decide_True. }
  assert (inode_wf V' ip') as Hwf'.
  { destruct Hwf as [Wd Wl Wi Wb Wj Wn].
    destruct Hslot as [(H0&H1&Hb)|(H1&bn0&H0&Hb)]; split; try done; rewrite ?H1.
    all: try by rewrite Hip.
    - done.
    - intros bn Hbn. rewrite Hb //. intros ?. by apply Hdu, Wb.
    - intros bn bn' Hbn Hbn'. rewrite !Hb //. auto.
    - intros bn Hbn. rewrite Hb //. intros ?. by apply Hdu, Wb.
    - intros ?. by apply Hdu, Wi.
    - intros bn Hbn. rewrite Hb //. case_decide; [done|]. intros ?. by apply Hdu, Wb.
    - intros bn bn' Hbn Hbn'. rewrite !Hb //. repeat case_decide; subst; auto; intros Hne He.
      + destruct (Hdu (baddr V ip bn')); [apply Wb; [done|congruence]|congruence].
      + destruct (Hdu (baddr V ip bn)); [by apply Wb|congruence].
    - intros bn Hbn. rewrite Hb //. case_decide; [|by auto]. intros _ He.
      destruct (decide (addr_of ip NDIRECT = 0)); [lia|].
      destruct (Hdu (addr_of ip NDIRECT)); [by apply Wi|congruence]. }
  assert (∀ b, owned V' ip' b → owned V ip b ∨ b = a) as Hown.
  { intros b (Hb0&Ho). destruct Hslot as [(_&H1&Hb)|(H1&bn0&_&Hb)]; rewrite H1 in Ho.
    - destruct Ho as [->|(bn&Hbn&->)]; [by right|]. left. rewrite Hb // in Hb0 |- *.
      split; [done|]. right. by exists bn.
    - destruct Ho as [->|(bn&Hbn&->)]; [left; by split; [|left]|].
      rewrite Hb // in Hb0 |- *. case_decide; [by right|]. left. split; [done|]. right. by exists bn. }
  split; [done|done| | | | | |].
  - intros b Hb Hb'. rewrite Hused; [lia|]. case_decide; [done|]. by apply Hmu.
  - intros b Hb Hu. rewrite Hused //. by case_decide.
  - intros b Hb Hu Hno. apply Hdata; [lia|congruence|]. intros ->. destruct Hno. split; [|by left]. lia.
  - intros b Ho. destruct (Hown b Ho) as [?| ->]; auto.
  - intros b Hb Hc. by apply Hino; [lia|].
  - intros bn Hbn Hne. destruct Hslot as [(_&_&Hb)|(_&bn0&H0&Hb)]; rewrite Hb //.
    case_decide; [congruence|done].
Qed.

Lemma addr_of_insert ip k j :
  length (iaddrs ip) = 13%nat → 0 ≤ k ≤ NDIRECT → 0 ≤ j →
  addr_of (set_iaddrs (<[Z.to_nat k := a]> (iaddrs ip)) ip) j =
    if decide (j = k) then a else addr_of ip j.
Proof.
  intros Hl Hk Hj. unfold NDIRECT in *. rewrite /addr_of /=. case_decide as E.
  - subst. rewrite list_lookup_insert_eq //. lia.
  - rewrite list_lookup_insert_ne //. lia.
Qed.

(** A direct address, or the indirect block, is allocated. *)
Lemma fext_slot ip k :
  inode_wf V ip → meta_used V sb ds → 0 ≤ k ≤ NDIRECT → addr_of ip k = 0 →
  fext V ip (alloc V a) (set_iaddrs (<[Z.to_nat k := a]> (iaddrs ip)) ip).
Proof.
  intros Hwf Hmu Hk H0. set (ip' := set_iaddrs _ ip). pose proof (wf_len _ _ Hwf) as Hl.
  assert (∀ j, 0 ≤ j → addr_of ip' j = if decide (j = k) then a else addr_of ip j) as Haddr.
  { intros j Hj. by apply addr_of_insert. }
  assert (∀ bn, 0 ≤ bn < MAXFILE → NDIRECT ≤ bn → k < NDIRECT →
    baddr (alloc V a) ip' bn = baddr V ip bn) as Hind.
  { intros bn Hbn Hge Hlt. rewrite /baddr (proj2 (Z.ltb_ge _ _) Hge).
    rewrite Haddr; [done|]. rewrite decide_False; [lia|].
    destruct (addr_of ip NDIRECT =? 0) eqn:E; [done|]. apply Z.eqb_neq in E.
    destruct (wf_ind _ _ Hwf E) as [Hr Hu]. rewrite alloc_data //; [lia|congruence]. }
  apply fext_new; try done.
  - by rewrite /= length_insert.
  - apply used_alloc.
  - intros b Hb Hba _. by apply alloc_data.
  - apply alloc_inodes.
  - destruct (decide (k = NDIRECT)) as [->|Hne]; [left|right].
    + split_and!; [done|by rewrite Haddr // decide_True|]. intros bn Hbn. rewrite /baddr.
      rewrite !Haddr //; [lia|]. destruct (bn <? NDIRECT) eqn:E; breflect.
      * rewrite decide_False //. lia.
      * destruct (decide (NDIRECT = NDIRECT)); [|done]. rewrite H0 /=. pose proof ds_pos.
        rewrite (proj2 (Z.eqb_neq a 0)); [lia|]. rewrite /alloc upd_eq. apply ind_get_zero.
        change MAXFILE with 140 in Hbn. change NINDIRECT with 128. change NDIRECT with 12 in *. lia.
    + split; [rewrite Haddr // decide_False //|]. exists k.
      assert (k <? NDIRECT = true) as Hlt by (apply Z.ltb_lt; lia).
      split; [by rewrite /baddr Hlt|]. intros bn Hbn. case_decide as E.
      * subst. rewrite /baddr Hlt Haddr; [lia|]. by rewrite decide_True.
      * destruct (decide (NDIRECT ≤ bn)); [by apply Hind; lia|].
        rewrite /baddr (proj2 (Z.ltb_lt bn NDIRECT)); [lia|]. rewrite Haddr; [lia|]. by rewrite decide_False.
Qed.

(** An entry of the indirect block is allocated. *)
Lemma fext_entry ip e :
  let d := addr_of ip NDIRECT in let V' := upd (alloc V a) d (ind_set (alloc V a d) e a) in
  inode_wf V ip → meta_used V sb ds → 0 ≤ e < NINDIRECT → d ≠ 0 → ind_get (V d) e = 0 →
  fext V ip V' ip ∧ baddr V' ip (NDIRECT + e) = a.
Proof.
  intros d V' Hwf Hmu He Hd H0. pose proof ds_pos. pose proof (fl_size _ _ _ Hfl) as Hsz.
  destruct (wf_ind _ _ Hwf Hd) as [Hdr Hdu]. fold d in Hdr, Hdu.
  assert (alloc V a d = V d) as HVd by (apply alloc_data; [lia|congruence]).
  assert (∀ bn, 0 ≤ bn < MAXFILE →
    baddr V' ip bn = if decide (bn = NDIRECT + e) then a else baddr V ip bn) as Hb.
  { intros bn Hbn. rewrite /baddr -/d (proj2 (Z.eqb_neq d 0) Hd) /V' upd_eq HVd.
    change MAXFILE with 140 in *. change NINDIRECT with 128 in *. change NDIRECT with 12 in *.
    destruct (bn <? 12) eqn:E; breflect; [rewrite decide_False //; lia|].
    rewrite ind_get_set //; [change NINDIRECT with 128; lia|rewrite /is_u32; lia|].
    repeat case_decide; try done; lia. }
  assert (0 ≤ NDIRECT + e < MAXFILE).
  { change MAXFILE with 140. change NINDIRECT with 128 in *. change NDIRECT with 12. lia. }
  split; [|rewrite Hb // decide_True //].
  apply fext_new; try done.
  - by destruct ip.
  - apply Hwf.
  - intros b Hb'. rewrite /V' (used_data Hfl) //; [lia|]. by apply used_alloc.
  - intros b Hb1 Hb2 Hb3. rewrite /V' upd_ne //. by apply alloc_data.
  - intros b Hb1 Hb2. rewrite /V' upd_ne; [lia|]. by apply alloc_inodes.
  - right. split; [done|]. exists (NDIRECT + e). split; [|done].
    rewrite /baddr -/d (proj2 (Z.eqb_neq d 0) Hd) (proj2 (Z.ltb_ge _ _)); [lia|].
    by replace (NDIRECT + e - NDIRECT) with e by lia.
Qed.

Lemma free_alloc : base.size (free_set V) = S (base.size (free_set (alloc V a))).
Proof.
  pose proof ds_pos. assert (free_set V = {[a]} ∪ free_set (alloc V a)) as ->.
  { apply set_eq. intros b. rewrite elem_of_union elem_of_singleton !elem_of_free. split.
    - intros [Hb Hu]. destruct (decide (b = a)); [by left|right]. split; [done|].
      rewrite used_alloc // decide_False //.
    - intros [->|[Hb Hu]]; [split; [lia|done]|]. split; [done|].
      rewrite used_alloc // in Hu. by case_decide. }
  rewrite size_union; [|by rewrite size_singleton].
  apply disjoint_singleton_l. rewrite elem_of_free. intros [Hr Hu].
  rewrite used_alloc // decide_True // in Hu.
Qed.
End Alloc.

Lemma free_upd W d y : ds ≤ d → free_set (upd W d y) = free_set W.
Proof.
  intros Hd. apply set_eq. intros b. rewrite !elem_of_free.
  assert (0 ≤ b < sb_size sb → used (upd W d y) sb b = used W sb b) as Hu.
  { intros Hb. by apply (used_data Hfl). }
  split; intros [Hb Hb']; (split; [done|]); [by rewrite -Hu|by rewrite Hu].
Qed.
End Files.

Arguments alloc {sb} V a.
Arguments free_set {sb} W.

(** ** [bmap] *)

Section Bmap.
Context {B : Type} `{!BlockIO B} {home : Z → Prop} {cap : nat} `{!BlockIOSpec B home cap}.
Context {S0 : Type} (σ0 : kst S0) (pid : Z) {sb : superblock} {ds : Z}.
Context (Hfl : fs_layout home sb ds) (Hcap : (cap < NBUF)%nat).
Implicit Types (X : gset Z) (V : Z → block) (ic : list inode) (ip : inode).

(** A state between file system operations: no buffer is held. *)
Notation at_rest X V ic := (Fat σ0 pid ∅ X ∅ V ic sb).

Lemma addr_get_wp X V ic σ i ip k Q :
  at_rest X V ic σ → ic !! i = Some ip → length (iaddrs ip) = 13%nat → 0 ≤ k ≤ NDIRECT →
  Q (addr_of ip k) σ → wp (addr_get i k) Q σ.
Proof.
  intros HF Hi Hl Hk HQ. rewrite /addr_get. apply wp_bind. eapply fat_iptr; [done|done|].
  destruct (lookup_lt_is_Some_2 (iaddrs ip) (Z.to_nat k)) as [v Hv].
  { rewrite Hl. unfold NDIRECT in *. lia. }
  eapply wp_deref; [exact Hv|]. by rewrite /addr_of Hv in HQ.
Qed.

Lemma addr_alloc_wp X V ic σ i ip k Q :
  at_rest X V ic σ → ic !! i = Some ip → inode_wf (sb:=sb) (ds:=ds) V ip → meta_used V sb ds →
  0 ≤ k ≤ NDIRECT → (base.size X + 1 < cap)%nat →
  (addr_of ip k = 0 → free_set (sb:=sb) V ≠ ∅) →
  (addr_of ip k ≠ 0 → Q (addr_of ip k) σ) →
  (addr_of ip k = 0 → ∀ a σ', ds ≤ a < sb_size sb → used V sb a = false →
     at_rest ({[a]} ∪ ({[BBLOCK a sb]} ∪ X)) (alloc (sb:=sb) V a)
       (<[i := set_iaddrs (<[Z.to_nat k := a]> (iaddrs ip)) ip]> ic) σ' → Q a σ') →
  wp (addr_alloc i k) Q σ.
Proof.
  intros HF Hi Hwf Hmu Hk Hc Hfree Hhit Hnew. rewrite /addr_alloc. apply wp_bind.
  eapply addr_get_wp; [done|done|apply Hwf|done|].
  destruct (addr_of ip k =? 0) eqn:E; breflect; [|by apply wp_ret, Hhit].
  apply wp_bind. eapply fat_iptr; [done|done|]. rewrite (wf_dev _ _ Hwf).
  apply wp_bind. eapply (balloc_wp _ _ Hfl); [done|intros ??; by rewrite lookup_empty|done| |done| |].
  { rewrite map_size_empty. lia. }
  { destruct (set_choose_L _ (Hfree E)) as [a Ha%elem_of_free]. by exists a. }
  intros a σ' Ha Hu _ HF'. apply wp_bind. eapply fat_iupd; [done|done|].
  intros σ2 HF2. apply wp_ret. eapply Hnew; done.
Qed.

(** A mapped block is found without a change. *)
Lemma bmap_hit_wp X V ic σ i ip bn Q :
  at_rest X V ic σ → ic !! i = Some ip → inode_wf (sb:=sb) (ds:=ds) V ip →
  0 ≤ bn < MAXFILE → (base.size X < NBUF)%nat → baddr V ip bn ≠ 0 →
  (∀ σ', at_rest X V ic σ' → Q (baddr V ip bn) σ') →
  wp (bmap i bn) Q σ.
Proof.
  intros HF Hi Hwf Hbn Hr Hb HQ.
  assert (∀ k σ (Q : Z → kst (fstate B) → Prop), at_rest X V ic σ → 0 ≤ k ≤ NDIRECT →
    addr_of ip k ≠ 0 → Q (addr_of ip k) σ → wp (addr_alloc i k) Q σ) as Hget.
  { intros k σ' Q' HF' Hk Hne HQ'. rewrite /addr_alloc. apply wp_bind.
    eapply addr_get_wp; [done|done|apply Hwf|done|]. rewrite (proj2 (Z.eqb_neq _ 0) Hne).
    by apply wp_ret. }
  rewrite /bmap. rewrite /baddr in Hb HQ.
  change MAXFILE with 140 in Hbn. change NDIRECT with 12 in *. change NINDIRECT with 128 in *.
  destruct (bn <? 12) eqn:E; breflect.
  { apply Hget; [done|lia|done|]. by apply HQ. }
  cbv zeta. rewrite (proj2 (Z.ltb_lt _ _)); [lia|].
  destruct (addr_of ip 12 =? 0) eqn:E2; [done|]. breflect.
  apply wp_bind. apply Hget; [done|lia|done|].
  apply wp_bind. eapply fat_iptr; [done|done|]. rewrite (wf_dev _ _ Hwf).
  destruct (wf_ind _ _ Hwf E2) as [Hd _].
  apply wp_bind. eapply fat_read; [done|by apply Hfl| | |].
  { intros j. by rewrite lookup_empty. } { rewrite map_size_empty. lia. }
  intros bp σ1 Hbp HF1. apply wp_bind. eapply fat_data; [done|by apply lookup_insert_eq|].
  change NDIRECT with 12. rewrite (proj2 (Z.eqb_neq _ 0) Hb).
  apply wp_bind. eapply fat_rel; [done|by apply lookup_insert_eq|set_solver|].
  intros σ2 HF2. rewrite delete_insert_id // in HF2. by apply wp_ret, HQ.
Qed.

(** Data blocks in use, other than the indirect block, keep their contents. *)
Definition keeps V ip (V' : Z → block) : Prop :=
  ∀ b, data_used (sb:=sb) (ds:=ds) V b → b ≠ addr_of ip NDIRECT → V' b = V b.

(** What [bmap] promises about the block [a] it returns. *)
Record mapped X V ip bn (a : Z) X' (V' : Z → block) (ip' : inode) : Prop := {
  mp_ext : fext (sb:=sb) (ds:=ds) V ip V' ip';
  mp_keeps : keeps V ip V';
  mp_addr : baddr V' ip' bn = a;
  mp_nz : a ≠ 0;
  mp_log : (base.size X' ≤ base.size X + 4)%nat;
  mp_free : (base.size (free_set (sb:=sb) V) ≤ base.size (free_set (sb:=sb) V') + 2)%nat;
  mp_new : baddr V ip bn = 0 → used V sb a = false ∧ V' a = zero_block;
  mp_hit : baddr V ip bn ≠ 0 → ip' = ip
}.

Lemma keeps_alloc V ip a :
  ds ≤ a < sb_size sb → used V sb a = false → keeps V ip (alloc (sb:=sb) V a).
Proof. intros Ha Hu b [Hb Hb'] _. apply (alloc_data Hfl); first [done|lia|congruence]. Qed.

Lemma size_two (X : gset Z) a b : (base.size ({[a]} ∪ ({[b]} ∪ X)) ≤ base.size X + 2)%nat.
Proof.
  pose proof (size_union_le {[a]} ({[b]} ∪ X)) as H1. pose proof (size_union_le {[b]} X) as H2.
  rewrite size_singleton in H1. rewrite size_singleton in H2. lia.
Qed.

(** A direct address. *)
Lemma mapped_direct X V ip bn a :
  (∀ b, block_ok (V b)) → inode_wf (sb:=sb) (ds:=ds) V ip → meta_used V sb ds →
  0 ≤ bn < NDIRECT → addr_of ip bn = 0 → ds ≤ a < sb_size sb → used V sb a = false →
  mapped X V ip bn a ({[a]} ∪ ({[BBLOCK a sb]} ∪ X)) (alloc (sb:=sb) V a)
    (set_iaddrs (<[Z.to_nat bn := a]> (iaddrs ip)) ip).
Proof.
  intros Hok Hwf Hmu Hbn H0 Ha Hu. pose proof (fl_ds _ _ _ Hfl).
  assert (bn <? NDIRECT = true) as Hlt by (apply Z.ltb_lt; lia).
  split; [apply (fext_slot Hfl); auto; lia|by apply keeps_alloc| |lia| | | |].
  - rewrite /baddr Hlt addr_of_insert //; [apply Hwf|lia|lia|]. by rewrite decide_True.
  - pose proof (size_two X a (BBLOCK a sb)). lia.
  - rewrite (free_alloc Hfl V a) //. lia.
  - intros _. split; [done|]. apply upd_eq.
  - rewrite /baddr Hlt. done.
Qed.

(** An entry of an indirect block that exists. *)
Lemma mapped_entry X V ip e a :
  let d := addr_of ip NDIRECT in
  (∀ b, block_ok (V b)) → inode_wf (sb:=sb) (ds:=ds) V ip → meta_used V sb ds →
  0 ≤ e < NINDIRECT → d ≠ 0 → ind_get (V d) e = 0 → ds ≤ a < sb_size sb → used V sb a = false →
  mapped X V ip (NDIRECT + e) a ({[d]} ∪ ({[a]} ∪ ({[BBLOCK a sb]} ∪ X)))
    (upd (alloc (sb:=sb) V a) d (ind_set (alloc (sb:=sb) V a d) e a)) ip.
Proof.
  intros d Hok Hwf Hmu He Hd H0 Ha Hu. pose proof (fl_ds _ _ _ Hfl).
  destruct (fext_entry Hfl V a Hok Ha Hu ip e Hwf Hmu He Hd H0) as [Hx Hb].
  destruct (wf_ind _ _ Hwf Hd) as [Hdr Hdu]. fold d in Hdr, Hdu.
  split; [done| |done|lia| | | |done].
  - intros b Hb1 Hb2. rewrite upd_ne //. by apply (keeps_alloc V ip).
  - pose proof (size_two X a (BBLOCK a sb)).
    pose proof (size_union_le {[d]} ({[a]} ∪ ({[BBLOCK a sb]} ∪ X))) as H2.
    rewrite size_singleton in H2. lia.
  - rewrite (free_upd Hfl) //; [lia|]. rewrite (free_alloc Hfl V a) //. lia.
  - intros _. split; [done|]. rewrite upd_ne; [congruence|]. apply upd_eq.
Qed.

(** The indirect block is allocated first. *)
Lemma mapped_two X V ip e a0 a :
  let V1 := alloc (sb:=sb) V a0 in
  let ip1 := set_iaddrs (<[Z.to_nat NDIRECT := a0]> (iaddrs ip)) ip in
  (∀ b, block_ok (V b)) → (∀ b, block_ok (V1 b)) →
  inode_wf (sb:=sb) (ds:=ds) V ip → meta_used V sb ds →
  0 ≤ e < NINDIRECT → addr_of ip NDIRECT = 0 → ds ≤ a0 < sb_size sb → used V sb a0 = false →
  ds ≤ a < sb_size sb → used V1 sb a = false →
  mapped X V ip (NDIRECT + e) a
    ({[a0]} ∪ ({[a]} ∪ ({[BBLOCK a sb]} ∪ ({[a0]} ∪ ({[BBLOCK a0 sb]} ∪ X)))))
    (upd (alloc (sb:=sb) V1 a) a0 (ind_set (alloc (sb:=sb) V1 a a0) e a)) ip1.
Proof.
  intros V1 ip1 Hok Hok1 Hwf Hmu He H0 Ha0 Hu0 Ha Hu. pose proof (fl_ds _ _ _ Hfl).
  assert (fext (sb:=sb) (ds:=ds) V ip V1 ip1) as Hx1 by (apply (fext_slot Hfl); auto; unfold NDIRECT; lia).
  assert (addr_of ip1 NDIRECT = a0) as Hd.
  { by rewrite addr_of_insert; [apply Hwf|done|done|case_decide]. }
  assert (mapped ({[a0]} ∪ ({[BBLOCK a0 sb]} ∪ X)) V1 ip1 (NDIRECT + e) a
    ({[a0]} ∪ ({[a]} ∪ ({[BBLOCK a sb]} ∪ ({[a0]} ∪ ({[BBLOCK a0 sb]} ∪ X)))))
    (upd (alloc (sb:=sb) V1 a) a0 (ind_set (alloc (sb:=sb) V1 a a0) e a)) ip1) as [Mx Mk Ma Mn Ml Mf Mw _].
  { pose proof (mapped_entry ({[a0]} ∪ ({[BBLOCK a0 sb]} ∪ X)) V1 ip1 e a) as Hm. cbv zeta in Hm.
    rewrite Hd in Hm. apply Hm; [done|apply Hx1|apply Hx1|done|lia| |done|done].
    rewrite /V1 /alloc upd_eq. by apply ind_get_zero. }
  assert (used V sb a = false) as HuV.
  { rewrite /V1 (used_alloc Hfl) // in Hu; [lia|]. by case_decide. }
  split; [by eapply (fext_trans Hfl)| |done|done| | | |].
  - intros b Hb1 Hb2. destruct Hb1 as [Hb1 Hbu]. rewrite Mk.
    + split; [done|]. apply (fx_used _ _ _ _ Hx1); [lia|done].
    + rewrite Hd. congruence.
    + apply (keeps_alloc V ip); [done|done|by split|done].
  - rewrite (_ : {[a0]} ∪ _ = {[a]} ∪ ({[BBLOCK a sb]} ∪ ({[a0]} ∪ ({[BBLOCK a0 sb]} ∪ X)))) ; [set_solver|].
    pose proof (size_two ({[a0]} ∪ ({[BBLOCK a0 sb]} ∪ X)) a (BBLOCK a sb)).
    pose proof (size_two X a0 (BBLOCK a0 sb)). lia.
  - rewrite (free_upd Hfl); [lia|]. rewrite (free_alloc Hfl V a0) // -/V1 (free_alloc Hfl V1 a) //. lia.
  - intros _. split; [done|]. rewrite upd_ne; [|by apply upd_eq].
    intros ->. rewrite /V1 (used_alloc Hfl) // in Hu; [lia|]. by case_decide.
  - rewrite /baddr H0 (proj2 (Z.ltb_ge _ _)) //. lia.
Qed.

Lemma mapped_hit X V ip bn :
  inode_wf (sb:=sb) (ds:=ds) V ip → meta_used V sb ds → baddr V ip bn ≠ 0 →
  mapped X V ip bn (baddr V ip bn) X V ip.
Proof. intros. split; try done; try lia. by apply fext_refl. Qed.

(** The tail of [bmap] on an indirect block [d] that exists. *)
Lemma bmap_entry_wp X V ic σ i ip d e (Q : Z → kst (fstate B) → Prop) :
  at_rest X V ic σ → ic !! i = Some ip → inode_wf (sb:=sb) (ds:=ds) V ip → meta_used V sb ds →
  d = addr_of ip NDIRECT → d ≠ 0 →
  0 ≤ e < NINDIRECT → (base.size X + 2 < cap)%nat → ind_get (V d) e = 0 →
  free_set (sb:=sb) V ≠ ∅ →
  (∀ a σ', ds ≤ a < sb_size sb → used V sb a = false →
     at_rest ({[d]} ∪ ({[a]} ∪ ({[BBLOCK a sb]} ∪ X)))
       (upd (alloc (sb:=sb) V a) d (ind_set (alloc (sb:=sb) V a d) e a)) ic σ' → Q a σ') →
  wp (ip ← iptr i; bp ← b_read (idev ip) d; x ← b_data bp;
      if ind_get x e =? 0 then
        addr ← balloc (idev ip); x ← b_data bp; b_set bp (ind_set x e addr);;
        b_log bp;; b_rel bp;; mret addr
      else b_rel bp;; mret (ind_get x e)) Q σ.
Proof.
  intros HF Hi Hwf Hmu Hd Hd0 He Hc H0 Hfree HQ.
  apply wp_bind. eapply fat_iptr; [done|done|]. rewrite (wf_dev _ _ Hwf).
  destruct (wf_ind _ _ Hwf) as [Hdr Hdu]; [by rewrite -Hd|]. rewrite -Hd in Hdr Hdu.
  apply wp_bind. eapply fat_read; [done|by apply Hfl| | |].
  { intros j. by rewrite lookup_empty. } { rewrite map_size_empty. lia. }
  intros bp σ1 Hbp HF1. apply wp_bind. eapply fat_data; [done|by apply lookup_insert_eq|].
  rewrite H0 /=. apply wp_bind. eapply (balloc_wp _ _ Hfl); [exact HF1| |done| |lia| |].
  { intros j b [[<- <-]|[_ [=]]]%lookup_insert_Some. done. }
  { rewrite map_size_insert_None // map_size_empty. lia. }
  { destruct (set_choose_L _ Hfree) as [a Ha%elem_of_free]. by exists a. }
  intros a σ2 Ha Hu _ HF2. apply wp_bind. eapply fat_data; [done|by apply lookup_insert_eq|].
  pose proof (fat_block_ok _ _ _ _ _ _ _ _ _ d HF2) as Hdok.
  apply wp_bind. eapply fat_set; [done|by apply lookup_insert_eq|by apply ind_set_ok|].
  intros σ3 HF3. rewrite union_empty_r_L in HF3.
  eapply fat_log_rel_k; [exact HF3|done|by apply Hfl| |].
  { pose proof (size_two X a (BBLOCK a sb)). lia. }
  intros σ4 HF4. apply wp_ret. by apply HQ.
Qed.

Lemma bmap_wp X V ic σ i ip bn Q :
  at_rest X V ic σ → ic !! i = Some ip → inode_wf (sb:=sb) (ds:=ds) V ip → meta_used V sb ds →
  0 ≤ bn < MAXFILE → (base.size X + 4 < cap)%nat →
  (baddr V ip bn = 0 → (2 ≤ base.size (free_set (sb:=sb) V))%nat) →
  (∀ a X' V' ip' σ', mapped X V ip bn a X' V' ip' → at_rest X' V' (<[i := ip']> ic) σ' → Q a σ') →
  wp (bmap i bn) Q σ.
Proof.
  intros HF Hi Hwf Hmu Hbn Hc Hfree HQ.
  assert (∀ b, block_ok (V b)) as Hok by (intros b; by eapply fat_block_ok).
  destruct (decide (baddr V ip bn = 0)) as [H0|Hne].
  2:{ eapply bmap_hit_wp; [done..|lia|done|]. intros σ' HF'. eapply HQ; [by apply mapped_hit|].
      by rewrite list_insert_id. }
  specialize (Hfree H0).
  assert (∀ W : Z → block, (1 ≤ base.size (free_set (sb:=sb) W))%nat → free_set (sb:=sb) W ≠ ∅) as Hne.
  { intros W HW HE. rewrite HE size_empty in HW. lia. }
  rewrite /bmap. destruct (bn <? NDIRECT) eqn:E; breflect.
  { rewrite /baddr (proj2 (Z.ltb_lt _ _) E) in H0.
    eapply addr_alloc_wp; [done..|lia|lia|intros _; apply Hne; lia|done|].
    intros _ a σ' Ha Hu HF'. eapply HQ; [|done]. apply mapped_direct; try done; lia. }
  cbv zeta. set (e := bn - NDIRECT). assert (0 ≤ e < NINDIRECT) as He.
  { rewrite /e. change MAXFILE with 140 in Hbn. change NDIRECT with 12 in *.
    change NINDIRECT with 128. lia. }
  rewrite (proj2 (Z.ltb_lt e NINDIRECT)); [lia|].
  assert (bn = NDIRECT + e) as Hbe by (rewrite /e; lia).
  apply wp_bind. eapply addr_alloc_wp; [done..|done|lia|intros _; apply Hne; lia| |].
  - intros Hd. rewrite /baddr (proj2 (Z.ltb_ge _ _) E) (proj2 (Z.eqb_neq _ 0) Hd) in H0.
    eapply (bmap_entry_wp _ V _ _ _ _ (addr_of ip NDIRECT) e); [done..|lia|done|apply Hne; lia|].
    intros a σ' Ha Hu HF'. eapply HQ; [rewrite Hbe; by apply mapped_entry|]. by rewrite list_insert_id.
  - intros Hd0 a0 σ1 Ha0 Hu0 HF1. set (V1 := alloc V a0) in *.
    assert (∀ b, block_ok (V1 b)) as Hok1 by (intros b; by eapply fat_block_ok).
    set (ip1 := set_iaddrs _ ip) in *.
    assert (fext (sb:=sb) (ds:=ds) V ip V1 ip1) as Hx1.
    { apply (fext_slot Hfl); auto. unfold NDIRECT. lia. }
    assert (addr_of ip1 NDIRECT = a0) as Hd.
    { by rewrite addr_of_insert; [apply Hwf|done|done|case_decide]. }
    pose proof (fl_ds _ _ _ Hfl).
    eapply (bmap_entry_wp _ V1 _ _ _ ip1 a0 e);
      [exact HF1|by eapply lookup_upd|apply Hx1|apply Hx1|done|lia|done| | | |].
    { pose proof (size_two X a0 (BBLOCK a0 sb)). lia. }
    { rewrite /V1 /alloc upd_eq. by apply ind_get_zero. }
    { apply Hne. rewrite (free_alloc Hfl V a0) // -/V1 in Hfree. lia. }
    intros a σ' Ha Hu HF'. eapply HQ; [rewrite Hbe; by apply (mapped_two _ V ip e a0 a)|].
    done.
Qed.
End Bmap.
