(* ===== verification/FsInode.v ===== *)
(** * Inodes on disk: the codec of [struct dinode], [iupdate], [ilock]

    [dinode_on V sb num] is inode [num] as the inode blocks hold it. *)

From S2P Require Import Prelude CInt CString Kernel Params Sleeplock Bio BioSpec Cache Log LogSpec BlockIO Fs FsBlock FsFile.

(** ** Codec *)

Definition is_s16 (z : Z) : Prop := - 2 ^ 15 ≤ z < 2 ^ 15.

Record dinode_rng (d : dinode) : Prop := {
  dr_type : is_s16 (d_type d);
  dr_major : is_s16 (d_major d);
  dr_minor : is_s16 (d_minor d);
  dr_nlink : is_s16 (d_nlink d);
  dr_size : is_u32 (d_size d);
  dr_addrs : Forall is_u32 (d_addrs d);
  dr_len : length (d_addrs d) = 13%nat
}.

Lemma s16_u16 z : is_s16 z → s16 (u16 z) = z.
Proof.
  rewrite /is_s16 /s16 /sext /u16. intros Hz.
  destruct (decide (0 ≤ z)).
  - rewrite (Z.mod_small z) //; [lia|]. rewrite Z.mod_small; [lia|]. destruct (Z.ltb_spec z (2 ^ (16 - 1))); lia.
  - rewrite (_ : z mod 2 ^ 16 = z + 2 ^ 16).
    { symmetry. apply (Z.mod_unique _ _ (-1)); lia. }
    rewrite Z.mod_small; [lia|]. destruct (Z.ltb_spec (z + 2 ^ 16) (2 ^ (16 - 1))); lia.
Qed.

Lemma half_enc z : is_s16 z → s16 (le_val (le_bytes 2 (u16 z))) = z.
Proof.
  intros Hz. rewrite le_val_bytes_id; [|by apply s16_u16].
  rewrite /u16. apply Z.mod_pos_bound. done.
Qed.

Lemma word_enc z : is_u32 z → le_val (le_bytes 4 (u32 z)) = z.
Proof. intros Hz. rewrite u32_small // le_val_bytes_id //. Qed.

Lemma length_mjoin_words (l : list Z) : length (mjoin (le_bytes 4 <$> l)) = (4 * length l)%nat.
Proof.
  induction l as [|z l IH]; [done|]. rewrite fmap_cons /= in IH |- *. rewrite IH. lia.
Qed.

Lemma slice_words (l : list Z) k z :
  l !! k = Some z → slice (4 * k) 4 (mjoin (le_bytes 4 <$> l)) = le_bytes 4 z.
Proof.
  revert k. induction l as [|y l IH]; intros k Hk; [done|]. rewrite fmap_cons.
  change (mjoin (le_bytes 4 y :: (le_bytes 4 <$> l))) with (le_bytes 4 y ++ mjoin (le_bytes 4 <$> l)).
  destruct k as [|k]; simpl in Hk.
  - injection Hk as ->. rewrite slice_app_l; [by rewrite length_le_bytes|].
    by rewrite slice_all // length_le_bytes.
  - rewrite slice_app_r length_le_bytes; [lia|].
    replace (4 * S k - 4)%nat with (4 * k)%nat by lia. by apply IH.
Qed.

Lemma length_dinode_enc d : length (d_addrs d) = 13%nat → length (dinode_enc d) = 64%nat.
Proof.
  intros Hl. rewrite /dinode_enc !length_app !length_le_bytes length_mjoin_words length_fmap Hl. done.
Qed.

Lemma dinode_enc_bytes d : Forall is_byte (dinode_enc d).
Proof.
  rewrite /dinode_enc. repeat (apply Forall_app; split; [apply le_bytes_bytes|]).
  induction (d_addrs d) as [|z l IH]; [constructor|]. rewrite !fmap_cons.
  apply Forall_app. split; [apply le_bytes_bytes|done].
Qed.

(** Decoding gives back what [iupdate] stored. *)
Lemma dinode_roundtrip d : dinode_rng d → dinode_dec (dinode_enc d) = d.
Proof.
  intros [Ht Hma Hmi Hn Hs Ha Hl]. destruct d as [t ma mi n s l]; simpl in *.
  rewrite /dinode_dec /half_at /dinode_enc; cbn [d_type d_major d_minor d_nlink d_size d_addrs].
  set (W := mjoin _).
  assert (∀ o k n (z : Z) b, (n ≤ o)%nat → slice o k (le_bytes n z ++ b) = slice (o - n) k b) as Hr.
  { intros o k n' z b Ho. rewrite slice_app_r length_le_bytes //. }
  assert (∀ k (z : Z) b, slice 0 k (le_bytes k z ++ b) = le_bytes k z) as H0.
  { intros k z b. rewrite slice_app_l; [by rewrite length_le_bytes|].
    by rewrite slice_all // length_le_bytes. }
  f_equal.
  - by rewrite H0 // half_enc.
  - rewrite Hr; [lia|]. rewrite H0 half_enc //.
  - do 2 (rewrite Hr; [lia|]). rewrite H0 half_enc //.
  - do 3 (rewrite Hr; [lia|]). rewrite H0 half_enc //.
  - do 4 (rewrite Hr; [lia|]). rewrite H0 word_enc //.
  - apply list_eq. intros k. destruct (decide (k < 13)%nat) as [Hk|Hk].
    + rewrite list_lookup_fmap lookup_seq_lt //. destruct (lookup_lt_is_Some_2 l k) as [z Hz]; [lia|].
      rewrite Hz. cbn [fmap option_fmap option_map]. f_equal. rewrite Nat.add_0_l. do 5 (rewrite Hr; [lia|]).
      replace (12 + 4 * k - 2 - 2 - 2 - 2 - 4)%nat with (4 * k)%nat by lia.
      rewrite (slice_words _ k (u32 z)); [by rewrite list_lookup_fmap Hz|].
      apply word_enc. by eapply (Forall_lookup_1 _ _ _ _ Ha).
    + rewrite lookup_ge_None_2; [rewrite length_fmap length_seq; unfold NDIRECT; lia|].
      rewrite lookup_ge_None_2 //. lia.
Qed.

(** ** Inodes in blocks *)

Definition dinode_on (V : Z → block) (sb : superblock) (num : Z) : dinode :=
  dinode_dec (slice (dip_off num) (Z.to_nat DINODE_SIZE) (V (IBLOCK num sb))).

Definition put_dinode (V : Z → block) (sb : superblock) (num : Z) (d : dinode) : Z → block :=
  upd V (IBLOCK num sb) (blit (dip_off num) (dinode_enc d) (V (IBLOCK num sb))).

Lemma dip_off_eq num : Z.of_nat (dip_off num) = num mod 8 * 64.
Proof.
  rewrite /dip_off. change IPB with 8. change DINODE_SIZE with 64.
  pose proof (Z.mod_pos_bound num 8 ltac:(done)). lia.
Qed.

Lemma dip_off_fit num x : block_ok x → (dip_off num + 64 ≤ length x)%nat.
Proof.
  intros [-> _]. pose proof (dip_off_eq num). pose proof (Z.mod_pos_bound num 8 ltac:(done)).
  unfold BSIZE. lia.
Qed.

Section DinodeOn.
Context {home : Z → Prop} {sb : superblock} {ds : Z} (Hfl : fs_layout home sb ds).
Context (V : Z → block) (HVok : ∀ b, block_ok (V b)).
Context (num : Z) (d : dinode) (Hnum : 0 < num < sb_ninodes sb) (Hd : dinode_rng d).

Lemma put_dinode_same : dinode_on (put_dinode V sb num d) sb num = d.
Proof.
  rewrite /dinode_on /put_dinode upd_eq. pose proof (length_dinode_enc d (dr_len _ Hd)) as Hl.
  rewrite slice_blit_eq; [by rewrite Hl|rewrite Hl; by apply dip_off_fit|].
  by apply dinode_roundtrip.
Qed.

Lemma put_dinode_other num' :
  0 < num' < sb_ninodes sb → num' ≠ num →
  dinode_on (put_dinode V sb num d) sb num' = dinode_on V sb num'.
Proof.
  intros Hn' Hne. rewrite /dinode_on /put_dinode /upd. case_decide as E; [|done].
  destruct (fl_inode _ _ _ Hfl num Hnum) as (_&_&E1&_).
  destruct (fl_inode _ _ _ Hfl num' Hn') as (_&_&E2&_).
  assert (num' mod 8 ≠ num mod 8) as Hm.
  { intros Hm. apply Hne. rewrite (Z.div_mod num' 8) // (Z.div_mod num 8) // Hm. do 2 f_equal.
    rewrite E1 E2 in E. change IPB with 8 in E. lia. }
  rewrite E. pose proof (length_dinode_enc d (dr_len _ Hd)) as Hl.
  pose proof (dip_off_eq num). pose proof (dip_off_eq num').
  pose proof (dip_off_fit num (V (IBLOCK num sb)) (HVok _)).
  change (Z.to_nat DINODE_SIZE) with 64%nat. f_equal.
  destruct (decide (num' mod 8 < num mod 8)).
  - rewrite slice_blit_before //; rewrite ?Hl; lia.
  - rewrite slice_blit_after //; rewrite ?Hl; lia.
Qed.

Lemma put_dinode_used b : 0 ≤ b < sb_size sb → used (put_dinode V sb num d) sb b = used V sb b.
Proof.
  intros Hb. rewrite /used /put_dinode upd_ne //.
  destruct (fl_inode _ _ _ Hfl num Hnum) as (_&_&_&Hne). intros E. by apply (Hne b Hb).
Qed.

Lemma put_dinode_data b : ds ≤ b → put_dinode V sb num d b = V b.
Proof.
  intros Hb. rewrite /put_dinode upd_ne //.
  destruct (fl_inode _ _ _ Hfl num Hnum) as (_&?&_). lia.
Qed.

Lemma put_dinode_block_ok : block_ok (blit (dip_off num) (dinode_enc d) (V (IBLOCK num sb))).
Proof.
  pose proof (length_dinode_enc d (dr_len _ Hd)) as Hl. split.
  - rewrite length_blit; [rewrite Hl; by apply dip_off_fit|]. apply HVok.
  - apply Forall_blit; [apply dinode_enc_bytes|apply HVok].
Qed.
End DinodeOn.

(** ** [iupdate] *)

Section Iupdate.
Context {B : Type} `{!BlockIO B} {home : Z → Prop} {cap : nat} `{!BlockIOSpec B home cap}.
Context {S0 : Type} (σ0 : kst S0) (pid : Z) {sb : superblock} {ds : Z}.
Context (Hfl : fs_layout home sb ds) (Hcap : (cap < NBUF)%nat).

Lemma iupdate_wp X V ic i ip σ Q :
  Fat σ0 pid ∅ X ∅ V ic sb σ → ic !! i = Some ip → idev ip = ROOTDEV →
  0 < inum ip < sb_ninodes sb → dinode_rng (to_dinode ip) → (base.size X < cap)%nat →
  (∀ σ', Fat σ0 pid ∅ ({[IBLOCK (inum ip) sb]} ∪ X) ∅
           (put_dinode V sb (inum ip) (to_dinode ip)) ic sb σ' → Q tt σ') →
  wp (iupdate i) Q σ.
Proof.
  intros HF Hi Hdev Hnum Hrng HX HQ. rewrite /iupdate. apply wp_bind. eapply fat_sb; [done|].
  apply wp_bind. eapply fat_iptr; [done|done|]. rewrite Hdev.
  destruct (fl_inode _ _ _ Hfl (inum ip) Hnum) as (Hhome&_).
  apply wp_bind. eapply fat_read; [done|done|intros j; by rewrite lookup_empty| |].
  { rewrite map_size_empty. lia. }
  intros bp σ1 Hbp HF1. apply wp_bind. eapply fat_data; [done|by apply lookup_insert_eq|].
  apply wp_bind. eapply fat_set; [done|by apply lookup_insert_eq| |].
  { apply put_dinode_block_ok; [|done]. intros b. by eapply fat_block_ok. }
  intros σ2 HF2. rewrite union_empty_r_L in HF2. eapply fat_log_rel; [exact HF2|done|done|done|].
  intros σ3 HF3. by apply HQ.
Qed.
End Iupdate.
