(* ===== verification/FsRw.v ===== *)
(** * File data: correctness of [readi] and [writei]

    [fbyte V ip o] is the byte at offset [o] of a file.  [readi] returns the
    bytes asked for, up to the end of the file; [writei] changes exactly the
    range written and extends the file when it writes past its end. *)

From S2P Require Import Prelude CInt CString Kernel Params Sleeplock Bio BioSpec Cache Log LogSpec BlockIO Fs FsBlock FsFile FsInode.

Definition fbyte (V : Z → block) (ip : inode) (o : Z) : option Z :=
  V (baddr V ip (o / BSIZE)) !! Z.to_nat (o mod BSIZE).

(** The [n] bytes of a file from offset [off]. *)
Definition fread (V : Z → block) (ip : inode) (off n : Z) : list Z :=
  (λ j : nat, default 0 (fbyte V ip (off + j))) <$> seq 0 (Z.to_nat n).

Lemma length_fread V ip off n : length (fread V ip off n) = Z.to_nat n.
Proof. by rewrite length_fmap length_seq. Qed.

Lemma fread_app V ip off m k :
  0 ≤ m → 0 ≤ k → fread V ip off (m + k) = fread V ip off m ++ fread V ip (off + m) k.
Proof.
  intros Hm Hk. rewrite /fread Z2Nat.inj_add // seq_app fmap_app. f_equal.
  rewrite -(Nat.add_0_r (0 + Z.to_nat m)) -fmap_add_seq -list_fmap_compose.
  apply list_fmap_ext. intros _ j _. simpl. do 2 f_equal. lia.
Qed.

(** Bytes to copy at once. *)
Lemma chunk_pos n tot off : tot < n → 1 ≤ chunk n tot off ≤ n - tot.
Proof.
  intros. rewrite /chunk. pose proof (Z.mod_pos_bound off BSIZE ltac:(done)). lia.
Qed.

Lemma chunk_in_block n tot off :
  off mod BSIZE + chunk n tot off ≤ BSIZE.
Proof. rewrite /chunk. lia. Qed.

(** Offsets of a chunk are in the same block. *)
Lemma in_block off j : 0 ≤ j → off mod BSIZE + j < BSIZE →
  (off + j) / BSIZE = off / BSIZE ∧ (off + j) mod BSIZE = off mod BSIZE + j.
Proof.
  intros Hj Hlt. pose proof (Z.mod_pos_bound off BSIZE ltac:(done)).
  pose proof (Z.div_mod off BSIZE ltac:(done)). split; symmetry.
  - apply (Z.div_unique _ _ _ (off mod BSIZE + j)); lia.
  - apply (Z.mod_unique _ _ (off / BSIZE)); lia.
Qed.

(** Number of blocks a transfer of [r] bytes at [off] touches. *)
Definition nchunks (off r : Z) : Z :=
  if r =? 0 then 0 else (off + r - 1) / BSIZE - off / BSIZE + 1.

Lemma nchunks_pos off r : 0 < r → 1 ≤ nchunks off r.
Proof.
  intros. rewrite /nchunks. destruct (Z.eqb_spec r 0); [lia|].
  pose proof (Z.div_le_mono off (off + r - 1) BSIZE ltac:(done)). lia.
Qed.

Lemma nchunks_step off r :
  0 < r → let m := Z.min r (BSIZE - off mod BSIZE) in
  nchunks (off + m) (r - m) ≤ nchunks off r - 1.
Proof.
  intros Hr m. pose proof (nchunks_pos off r Hr).
  pose proof (Z.mod_pos_bound off BSIZE ltac:(done)). rewrite {1}/nchunks.
  destruct (Z.eqb_spec (r - m) 0); [lia|].
  assert (m = BSIZE - off mod BSIZE) as Hm by lia.
  rewrite /nchunks. destruct (Z.eqb_spec r 0); [lia|].
  replace (off + m + (r - m) - 1) with (off + r - 1) by lia.
  assert ((off + m) / BSIZE = off / BSIZE + 1) as ->; [|lia].
  rewrite Hm {1}(Z.div_mod off BSIZE) //.
  replace (BSIZE * (off / BSIZE) + off mod BSIZE + (BSIZE - off mod BSIZE))
    with ((off / BSIZE + 1) * BSIZE) by lia.
  by rewrite Z.div_mul.
Qed.

Section Rw.
Context {B : Type} `{!BlockIO B} {home : Z → Prop} {cap : nat} `{!BlockIOSpec B home cap}.
Context {S0 : Type} (σ0 : kst S0) (pid : Z) {sb : superblock} {ds : Z}.
Context (Hfl : fs_layout home sb ds) (Hcap : (cap < NBUF)%nat).
Context (devsw : Z → devops (fstate B)).
Implicit Types (X : gset Z) (V : Z → block) (ic : list inode) (ip : inode).

Notation at_rest X V ic := (Fat σ0 pid ∅ X ∅ V ic sb).

(** A file without holes. *)
Record file_ok V ip : Prop := {
  fo_wf : inode_wf (sb:=sb) (ds:=ds) V ip;
  fo_size : 0 ≤ isize ip ≤ MAXFILE * BSIZE;
  fo_full : ∀ bn, 0 ≤ bn → bn * BSIZE < isize ip → baddr V ip bn ≠ 0
}.

Lemma block_range V ip o :
  file_ok V ip → 0 ≤ o < isize ip → 0 ≤ o / BSIZE < MAXFILE ∧ baddr V ip (o / BSIZE) ≠ 0.
Proof.
  intros [_ Hs Hf] Ho. pose proof (Z.mul_div_le o BSIZE ltac:(done)).
  assert (0 ≤ o / BSIZE) by (apply Z.div_pos; [lia|done]).
  split; [split; [done|]|apply Hf; lia].
  apply Z.div_lt_upper_bound; [done|]. unfold BSIZE, MAXFILE in *. lia.
Qed.

(** The part of a block that is read is a part of the file. *)
Lemma slice_fread V ip off m :
  (∀ b, block_ok (V b)) → 0 ≤ off → 0 ≤ m → off mod BSIZE + m ≤ BSIZE →
  slice (Z.to_nat (off mod BSIZE)) (Z.to_nat m) (V (baddr V ip (off / BSIZE))) = fread V ip off m.
Proof.
  intros Hok Hoff Hm Hb. pose proof (Z.mod_pos_bound off BSIZE ltac:(done)).
  destruct (Hok (baddr V ip (off / BSIZE))) as [Hl _].
  apply list_eq. intros j. destruct (decide (j < Z.to_nat m)%nat) as [Hj|Hj].
  - rewrite lookup_slice // list_lookup_fmap lookup_seq_lt //= /fbyte.
    destruct (in_block off j) as [-> ->]; [lia|lia|].
    rewrite Z2Nat.inj_add; [lia|lia|]. rewrite Nat2Z.id.
    destruct (lookup_lt_is_Some_2 (V (baddr V ip (off / BSIZE))) (Z.to_nat (off mod BSIZE) + j))
      as [y Hy]; [rewrite Hl; unfold BSIZE in *; lia|by rewrite Hy].
  - rewrite lookup_ge_None_2; [rewrite length_slice; [rewrite Hl; unfold BSIZE in *|]; lia|].
    rewrite lookup_ge_None_2 // length_fread. lia.
Qed.

Lemma readi_loop_wp X V ic i ip n fuel off tot σ Q :
  at_rest X V ic σ → ic !! i = Some ip → file_ok V ip → meta_used V sb ds →
  (base.size X < NBUF)%nat →
  0 ≤ tot ≤ n → 0 ≤ off → off + (n - tot) ≤ isize ip → n ≤ MAXFILE * BSIZE →
  (Z.to_nat (n - tot) ≤ fuel)%nat →
  (∀ σ', at_rest X V ic σ' → Q (fread V ip off (n - tot)) σ') →
  wp (readi_loop fuel i off tot n) Q σ.
Proof.
  revert off tot σ Q. induction fuel as [|fuel IH]; intros off tot σ Q HF Hi Hfo Hmu Hr Ht Ho He Hn Hf HQ.
  { cbn [readi_loop]. destruct (Z.ltb_spec tot n); [lia|]. simpl. apply wp_ret.
    replace (n - tot) with 0 in HQ by lia. by apply HQ. }
  cbn [readi_loop]. destruct (Z.ltb_spec tot n) as [Hlt|Hge]; simpl.
  2:{ apply wp_ret. replace (n - tot) with 0 in HQ by lia. by apply HQ. }
  pose proof (fo_wf _ _ Hfo) as Hwf. destruct (block_range V ip off Hfo) as [Hbn Hba]; [lia|].
  apply wp_bind. eapply fat_iptr; [done|done|]. rewrite (wf_dev _ _ Hwf).
  apply wp_bind. eapply (bmap_hit_wp _ _ Hfl); [done..|]. intros σ1 HF1.
  destruct (wf_data _ _ Hwf _ Hbn Hba) as [Hd _].
  apply wp_bind. eapply fat_read; [done|by apply Hfl| | |].
  { intros j. by rewrite lookup_empty. } { rewrite map_size_empty. lia. }
  intros bp σ2 Hbp HF2. apply wp_bind. eapply fat_data; [done|by apply lookup_insert_eq|].
  apply wp_bind. eapply fat_rel; [done|by apply lookup_insert_eq|set_solver|].
  intros σ3 HF3. rewrite delete_insert_id // in HF3.
  pose proof (chunk_pos n tot off Hlt). pose proof (chunk_in_block n tot off).
  pose proof (fo_size _ _ Hfo). set (m := chunk n tot off) in *.
  assert (MAXFILE * BSIZE < 2 ^ 32) by done.
  rewrite !u32_small; [rewrite /is_u32; lia..|].
  apply wp_bind. eapply IH; [done..|lia|lia|lia|lia|lia|]. intros σ4 HF4. apply wp_ret.
  rewrite slice_fread //; [intros b; by eapply fat_block_ok|lia|].
  replace (n - (tot + m)) with (n - tot - m) by lia.
  rewrite -fread_app; [lia|lia|]. replace (m + (n - tot - m)) with (n - tot) by lia. by apply HQ.
Qed.

(** [readi] on a file or directory. *)
Lemma readi_wp X V ic i ip off n σ Q :
  at_rest X V ic σ → ic !! i = Some ip → file_ok V ip → meta_used V sb ds →
  (base.size X < NBUF)%nat → itype ip ≠ T_DEV → 0 ≤ off → 0 ≤ n → off + n < 2 ^ 32 →
  off ≤ isize ip →
  (∀ σ', at_rest X V ic σ' → let r := Z.min n (isize ip - off) in Q (r, fread V ip off r) σ') →
  wp (readi devsw i off n) Q σ.
Proof.
  intros HF Hi Hfo Hmu Hr Hty Ho Hn Hon Hos HQ. rewrite /readi. apply wp_bind.
  eapply fat_iptr; [done|done|]. rewrite (proj2 (Z.eqb_neq _ _) Hty).
  pose proof (fo_size _ _ Hfo). assert (MAXFILE * BSIZE < 2 ^ 31) by done.
  rewrite !u32_small; [rewrite /is_u32; lia..|].
  rewrite (proj2 (Z.ltb_ge _ _)); [lia|]. rewrite (proj2 (Z.ltb_ge (off + n) off)); [lia|]. simpl orb.
  cbv iota zeta.
  rewrite (_ : (if isize ip <? off + n then _ else n) = Z.min n (isize ip - off)).
  { destruct (Z.ltb_spec (isize ip) (off + n)); lia. }
  apply wp_bind. eapply readi_loop_wp; [done..|lia|lia|lia|lia|lia|]. intros σ' HF'.
  rewrite Z.sub_0_r. apply wp_ret. rewrite s32_small; [lia|]. by apply HQ.
Qed.

(** Reading past the end, or a range that wraps around, is an error. *)
Lemma readi_bad_wp X V ic i ip off n σ Q :
  at_rest X V ic σ → ic !! i = Some ip → itype ip ≠ T_DEV →
  isize ip < off ∨ u32 (off + n) < off → Q (-1, []) σ → wp (readi devsw i off n) Q σ.
Proof.
  intros HF Hi Hty Hbad HQ. rewrite /readi. apply wp_bind. eapply fat_iptr; [done|done|].
  rewrite (proj2 (Z.eqb_neq _ _) Hty). rewrite (_ : (_ <? _) || _ = true); [|by apply wp_ret].
  apply orb_true_iff. destruct Hbad; [left|right]; by apply Z.ltb_lt.
Qed.

(** ** Writing a block of a file *)

Section WriteBlock.
Context (V : Z → block) (ip : inode) (bn : Z) (y : block).
Context (Hwf : inode_wf (sb:=sb) (ds:=ds) V ip) (Hmu : meta_used V sb ds).
Context (Hbn : 0 ≤ bn < MAXFILE) (Hb : baddr V ip bn ≠ 0).

Let a := baddr V ip bn.

Lemma write_baddr bn' : baddr (upd V a y) ip bn' = baddr V ip bn'.
Proof.
  rewrite /baddr. destruct (bn' <? NDIRECT); [done|]. destruct (_ =? 0) eqn:E; [done|].
  rewrite upd_ne //. intros He. by apply (wf_ind_ne _ _ Hwf bn Hbn Hb).
Qed.

Lemma write_used b : 0 ≤ b < sb_size sb → used (upd V a y) sb b = used V sb b.
Proof. intros. apply (used_data Hfl); [|done]. by apply (wf_data _ _ Hwf bn Hbn Hb). Qed.

Lemma write_fext : fext (sb:=sb) (ds:=ds) V ip (upd V a y) ip.
Proof.
  pose proof (fl_ds _ _ _ Hfl). destruct (wf_data _ _ Hwf bn Hbn Hb) as [Har Hau].
  assert (∀ b, data_used (sb:=sb) (ds:=ds) V b → data_used (sb:=sb) (ds:=ds) (upd V a y) b) as Hdu.
  { intros b [Hr Hu]. split; [done|]. rewrite write_used //. lia. }
  split.
  - by destruct ip.
  - destruct Hwf. split; try done; try setoid_rewrite write_baddr; auto.
  - intros b H1 H2. rewrite write_used; [lia|]. by apply Hmu.
  - intros b Hr Hu. by rewrite write_used.
  - intros b Hr Hu Hno. apply upd_ne. intros ->. destruct Hno. split; [lia|]. right. by exists bn.
  - intros b (Hb0&Ho). left. split; [done|]. setoid_rewrite write_baddr in Ho. done.
  - intros b Hr Hc. apply upd_ne. lia.
  - intros bn' _ _. apply write_baddr.
Qed.

(** Every byte of the file outside of the block stays. *)
Lemma write_fbyte o :
  0 ≤ o < MAXFILE * BSIZE → baddr V ip (o / BSIZE) ≠ 0 →
  fbyte (upd V a y) ip o = if decide (o / BSIZE = bn) then y !! Z.to_nat (o mod BSIZE) else fbyte V ip o.
Proof.
  intros Ho Hne. rewrite /fbyte write_baddr. case_decide as E.
  - by rewrite E upd_eq.
  - rewrite upd_ne //. intros He. apply E. eapply (wf_inj _ _ Hwf); [|done|done|done].
    split; [apply Z.div_pos; [lia|done]|]. apply Z.div_lt_upper_bound; [done|]. lia.
Qed.
End WriteBlock.

(** ** Writing a range *)

(** The file changed from [V, ip] to [V', ip'] by writing [s] at [off]. *)
Record wrote (off : Z) (s : list Z) V ip (V' : Z → block) (ip' : inode) : Prop := {
  wr_ext : fext (sb:=sb) (ds:=ds) V ip V' ip';
  wr_in : ∀ o, off ≤ o < off + length s →
    baddr V' ip' (o / BSIZE) ≠ 0 ∧ fbyte V' ip' o = s !! Z.to_nat (o - off);
  wr_out : ∀ o, 0 ≤ o < MAXFILE * BSIZE → ¬ (off ≤ o < off + length s) →
    baddr V ip (o / BSIZE) ≠ 0 → fbyte V' ip' o = fbyte V ip o;
  wr_same : (∀ o, off ≤ o < off + length s → baddr V ip (o / BSIZE) ≠ 0) → ip' = ip
}.

Lemma off_block o : 0 ≤ o < MAXFILE * BSIZE → 0 ≤ o / BSIZE < MAXFILE.
Proof.
  intros. split; [apply Z.div_pos; [lia|done]|]. apply Z.div_lt_upper_bound; [done|]. lia.
Qed.

Lemma wrote_nil off V ip :
  inode_wf (sb:=sb) (ds:=ds) V ip → meta_used V sb ds → wrote off [] V ip V ip.
Proof. intros. split; [by apply fext_refl|simpl; lia|done|done]. Qed.

Lemma wrote_app off s1 s2 V0 i0 V1 i1 V2 i2 :
  0 ≤ off → off + length s1 + length s2 ≤ MAXFILE * BSIZE →
  wrote off s1 V0 i0 V1 i1 → wrote (off + length s1) s2 V1 i1 V2 i2 →
  wrote off (s1 ++ s2) V0 i0 V2 i2.
Proof.
  intros Hoff Hlim [Hx1 Hin1 Hout1 Hs1] [Hx2 Hin2 Hout2 Hs2].
  split; [by eapply (fext_trans Hfl)| | |]; rewrite length_app.
  - intros o Ho. destruct (decide (o < off + length s1)).
    + destruct (Hin1 o) as [Hb1 Hf1]; [lia|]. split.
      * rewrite (fx_addr _ _ _ _ Hx2) //. apply off_block. lia.
      * rewrite Hout2 //; [lia|lia|]. rewrite Hf1 lookup_app_l //. lia.
    + destruct (Hin2 o) as [Hb2 Hf2]; [lia|]. split; [done|].
      rewrite Hf2 lookup_app_r; [lia|]. f_equal. lia.
  - intros o Ho Hno Hb. rewrite Hout2; [done|lia| |].
    + rewrite (fx_addr _ _ _ _ Hx1) //. by apply off_block.
    + apply Hout1; [done|lia|done].
  - intros Hall. rewrite Hs2; [|apply Hs1; intros o Ho; apply Hall; lia].
    intros o Ho. rewrite (fx_addr _ _ _ _ Hx1); [apply off_block; lia|..]; apply Hall; lia.
Qed.

(** One iteration of the loop. *)
Lemma wrote_chunk X V ip off a X' V' ip' s :
  (∀ b, block_ok (V' b)) → inode_wf (sb:=sb) (ds:=ds) V ip →
  0 ≤ off → off + length s ≤ MAXFILE * BSIZE → off mod BSIZE + length s ≤ BSIZE → s ≠ [] →
  mapped (sb:=sb) (ds:=ds) X V ip (off / BSIZE) a X' V' ip' →
  wrote off s V ip (upd V' a (blit (Z.to_nat (off mod BSIZE)) s (V' a))) ip'.
Proof.
  intros Hok Hwf Hoff Hlim Hs Hne [Hx Hk Ha Hnz _ _ _ Hsame].
  assert (0 < length s) as Hls by (destruct s; [done|simpl; lia]).
  pose proof (Z.mod_pos_bound off BSIZE ltac:(done)) as Hmod.
  assert (0 ≤ off / BSIZE < MAXFILE) as Hbn by (apply off_block; lia).
  assert (Z.to_nat (off mod BSIZE) + length s ≤ length (V' a))%nat as Hfit.
  { destruct (Hok a) as [-> _]. unfold BSIZE in *. lia. }
  set (y := blit _ s (V' a)). subst a.
  pose proof (write_fext V' ip' (off / BSIZE) y (fx_wf _ _ _ _ Hx) (fx_meta_used _ _ _ _ Hx) Hbn Hnz) as Hx2.
  pose proof (write_fbyte V' ip' (off / BSIZE) y (fx_wf _ _ _ _ Hx) Hbn Hnz) as Hfb.
  split; [by eapply (fext_trans Hfl)| | |intros Hall; apply Hsame, Hall; lia].
  - intros o Ho. destruct (in_block off (o - off)) as [Hd Hm]; [lia|lia|].
    replace (off + (o - off)) with o in Hd, Hm by lia. split.
    + rewrite Hd (fx_addr _ _ _ _ Hx2) //.
    + rewrite Hfb ?Hd //; [lia|]. rewrite decide_True // /y Hm lookup_blit_in; [lia|lia|]. f_equal. lia.
  - intros o Ho Hno Hb. pose proof (off_block o Ho) as Hob.
    rewrite Hfb //; [by rewrite (fx_addr _ _ _ _ Hx)|].
    assert (V' (baddr V ip (o / BSIZE)) = V (baddr V ip (o / BSIZE))) as HV.
    { apply Hk; [by apply Hwf|by apply Hwf]. }
    case_decide as E.
    + assert (baddr V' ip' (off / BSIZE) = baddr V ip (o / BSIZE)) as Hab.
      { rewrite -E. by apply (fx_addr _ _ _ _ Hx). }
      rewrite /fbyte -HV /y Hab. rewrite Hab in Hfit. rewrite lookup_blit_out //.
      pose proof (Z.mod_pos_bound o BSIZE ltac:(done)).
      pose proof (Z.div_mod o BSIZE ltac:(done)). pose proof (Z.div_mod off BSIZE ltac:(done)). lia.
    + by rewrite /fbyte (fx_addr _ _ _ _ Hx) // HV.
Qed.

Lemma writei_loop_wp X V ic i ip src n fuel off tot σ Q :
  at_rest X V ic σ → ic !! i = Some ip → inode_wf (sb:=sb) (ds:=ds) V ip → meta_used V sb ds →
  Forall is_byte src → n ≤ length src → n ≤ MAXFILE * BSIZE →
  0 ≤ tot ≤ n → 0 ≤ off → off + (n - tot) ≤ MAXFILE * BSIZE →
  base.size X + 5 * nchunks off (n - tot) ≤ cap →
  2 * nchunks off (n - tot) ≤ base.size (free_set (sb:=sb) V) →
  (Z.to_nat (n - tot) ≤ fuel)%nat →
  (∀ X' V' ip' σ', wrote off (slice (Z.to_nat tot) (Z.to_nat (n - tot)) src) V ip V' ip' →
     base.size X' ≤ base.size X + 5 * nchunks off (n - tot) →
     at_rest X' V' (<[i := ip']> ic) σ' → Q (off + (n - tot)) σ') →
  wp (writei_loop fuel i src off tot n) Q σ.
Proof.
  revert X V ic ip off tot σ Q. induction fuel as [|fuel IH];
    intros X V ic ip off tot σ Q HF Hi Hwf Hmu Hsrc Hn HnM Ht Ho Hlim HX Hfree Hf HQ;
    cbn [writei_loop]; destruct (Z.ltb_spec tot n) as [Hlt|Hge]; simpl; try lia.
  1,3: apply wp_ret; replace (n - tot) with 0 in HQ by lia; rewrite Z.add_0_r in HQ;
    eapply (HQ X V ip); [by apply wrote_nil|rewrite /nchunks /=; lia|by rewrite list_insert_id].
  apply wp_bind. eapply fat_iptr; [done|done|]. rewrite (wf_dev _ _ Hwf).
  pose proof (nchunks_pos off (n - tot)) as Hnc.
  pose proof (chunk_pos n tot off Hlt) as Hm. pose proof (chunk_in_block n tot off) as Hmb.
  pose proof (nchunks_step off (n - tot)) as Hstep. cbv zeta in Hstep. fold (chunk n tot off) in Hstep.
  assert (MAXFILE * BSIZE < 2 ^ 31) as Hmax by done. set (m := chunk n tot off) in *.
  apply wp_bind. eapply (bmap_wp _ _ Hfl Hcap); [done..| |lia|lia|].
  { apply off_block. lia. }
  intros a X' V' ip' σ1 Hmap HF1. pose proof Hmap as [Hx Hk Ha Hnz HX' Hfr _ _].
  destruct (wf_data _ _ (fx_wf _ _ _ _ Hx) (off / BSIZE)) as [Hd _]; [apply off_block; lia|by rewrite Ha|].
  rewrite Ha in Hd.
  apply wp_bind. eapply fat_read; [exact HF1|by apply Hfl| | |].
  { intros j. by rewrite lookup_empty. } { rewrite map_size_empty. lia. }
  intros bp σ2 Hbp HF2. apply wp_bind. eapply fat_data; [done|by apply lookup_insert_eq|].
  destruct (lookup_lt_is_Some_2 src (Z.to_nat (tot + m - 1))) as [c Hc]; [lia|].
  apply wp_bind. eapply wp_deref; [exact Hc|].
  set (s := slice (Z.to_nat tot) (Z.to_nat m) src).
  assert (length s = Z.to_nat m) as Hls by (apply length_slice; lia).
  set (y := blit _ s (V' a)).
  assert (block_ok y) as Hy.
  { destruct (fat_block_ok _ _ _ _ _ _ _ _ _ a HF2) as [Hl Hbb].
    pose proof (Z.mod_pos_bound off BSIZE ltac:(done)). split.
    - rewrite length_blit // Hls Hl. unfold BSIZE in *. lia.
    - by apply Forall_blit; [apply Forall_slice|]. }
  apply wp_bind. eapply fat_set; [done|by apply lookup_insert_eq|done|].
  intros σ3 HF3. rewrite union_empty_r_L in HF3.
  eapply fat_log_rel_k; [exact HF3|done|by apply Hfl|lia|]. intros σ4 HF4.
  assert (wrote off s V ip (upd V' a y) ip') as Hw.
  { eapply wrote_chunk; try done; rewrite ?Hls; try lia.
    - intros b. by eapply fat_block_ok.
    - intros Hs. rewrite Hs in Hls. simpl in Hls. lia. }
  rewrite !u32_small; [rewrite /is_u32; lia..|].
  pose proof (size_union_le {[a]} X') as Hsz. rewrite size_singleton in Hsz.
  replace (n - tot - m) with (n - (tot + m)) in Hstep by lia.
  eapply IH; [exact HF4|by eapply lookup_upd|apply Hw|apply Hw|done|done|done|lia|lia|lia|lia| |lia|].
  { rewrite (free_upd Hfl); lia. }
  intros X'' V'' ip'' σ5 Hw' HX'' HF5. rewrite list_insert_insert_eq in HF5.
  replace (off + m + (n - (tot + m))) with (off + (n - tot)) by lia.
  eapply (HQ X'' V'' ip''); [|lia|exact HF5].
  replace (Z.to_nat (n - tot)) with (Z.to_nat m + Z.to_nat (n - (tot + m)))%nat by lia.
  rewrite slice_add -/s. rewrite Z2Nat.inj_add in Hw'; [lia|lia|].
  eapply wrote_app; [done| |done|].
  - rewrite Hls length_slice; lia.
  - by replace (off + length s) with (off + m) by lia.
Qed.

(** ** [writei] *)

(** A cached inode that agrees with its copy in the inode blocks. *)
Record inode_inv V ip : Prop := {
  iv_file : file_ok V ip;
  iv_num : 0 < inum ip < sb_ninodes sb;
  iv_rng : dinode_rng (to_dinode ip);
  iv_sync : dinode_on V sb (inum ip) = to_dinode ip
}.

(** The effect of writing [s] at offset [off] of a file on the whole disk. *)
Record file_written (off : Z) (s : list Z) V ip (V' : Z → block) (ip' : inode) : Prop := {
  fw_inv : inode_inv V' ip';
  fw_meta : meta_used V' sb ds;
  fw_fields : ip' = set_isize (isize ip') (set_iaddrs (iaddrs ip') ip);
  fw_size : isize ip' = Z.max (isize ip) (off + length s);
  fw_bytes : ∀ o, 0 ≤ o < isize ip' → fbyte V' ip' o =
    if decide (off ≤ o < off + length s) then s !! Z.to_nat (o - off) else fbyte V ip o;
  fw_frame : ∀ b, ds ≤ b < sb_size sb → used V sb b = true → ¬ owned V ip b → V' b = V b;
  fw_inodes : ∀ num, 0 < num < sb_ninodes sb → num ≠ inum ip →
    dinode_on V' sb num = dinode_on V sb num;
  fw_used : ∀ b, 0 ≤ b < sb_size sb → used V sb b = true → used V' sb b = true
}.

Lemma wf_addrs_u32 V ip : inode_wf (sb:=sb) (ds:=ds) V ip → Forall is_u32 (iaddrs ip).
Proof.
  intros Hwf. pose proof (fl_ds _ _ _ Hfl). pose proof (fl_size _ _ _ Hfl).
  apply Forall_lookup. intros k z Hz. pose proof (lookup_lt_Some _ _ _ Hz) as Hk.
  rewrite (wf_len _ _ Hwf) in Hk.
  assert (addr_of ip k = z) as Ha by by rewrite /addr_of Nat2Z.id Hz.
  destruct (decide (z = 0)) as [->|Hne]; [rewrite /is_u32; lia|].
  assert (data_used (sb:=sb) (ds:=ds) V z) as [? _]; [|rewrite /is_u32; lia].
  destruct (decide (k = 12%nat)) as [->|].
  - rewrite -Ha. apply Hwf. change NDIRECT with 12. by rewrite Ha.
  - assert (baddr V ip k = z) as Hb.
    { rewrite /baddr. change NDIRECT with 12. rewrite (proj2 (Z.ltb_lt _ _)); [lia|done]. }
    rewrite -Hb. apply Hwf; [change MAXFILE with 140; lia|by rewrite Hb].
Qed.

(** Inodes stay on disk while a file grows. *)
Lemma fext_dinode V ip V' ip' num :
  fext (sb:=sb) (ds:=ds) V ip V' ip' → 0 < num < sb_ninodes sb →
  dinode_on V' sb num = dinode_on V sb num.
Proof.
  intros Hx Hn. destruct (fl_inode _ _ _ Hfl num Hn) as (_&Hlt&_&Hne).
  rewrite /dinode_on (fx_inodes _ _ _ _ Hx) //. split; [|done]. rewrite /IBLOCK. apply u32_range.
Qed.

(** The contents of a file do not depend on the inode blocks. *)
Lemma fbyte_data V V' ip ip' o :
  inode_wf (sb:=sb) (ds:=ds) V ip → iaddrs ip' = iaddrs ip → (∀ b, ds ≤ b → V' b = V b) →
  0 ≤ o < MAXFILE * BSIZE → baddr V ip (o / BSIZE) ≠ 0 →
  baddr V' ip' (o / BSIZE) = baddr V ip (o / BSIZE) ∧ fbyte V' ip' o = fbyte V ip o.
Proof.
  intros Hwf Ha HV Ho Hne. assert (∀ k, addr_of ip' k = addr_of ip k) as Hak.
  { intros k. by rewrite /addr_of Ha. }
  assert (baddr V' ip' (o / BSIZE) = baddr V ip (o / BSIZE)) as Hb.
  { rewrite /baddr !Hak. destruct (_ <? _); [done|]. destruct (_ =? 0) eqn:E; [done|].
    rewrite HV //. breflect. by apply Hwf. }
  split; [done|]. rewrite /fbyte Hb HV //. by apply (wf_data _ _ Hwf); [apply off_block|].
Qed.

Lemma wf_same_data V V' ip ip' :
  inode_wf (sb:=sb) (ds:=ds) V ip → idev ip' = idev ip → iaddrs ip' = iaddrs ip →
  (∀ b, ds ≤ b → V' b = V b) → (∀ b, 0 ≤ b < sb_size sb → used V' sb b = used V sb b) →
  (∀ bn, baddr V' ip' bn = baddr V ip bn) ∧ inode_wf (sb:=sb) (ds:=ds) V' ip'.
Proof.
  intros Hwf Hdev Ha HV Hu. pose proof (fl_ds _ _ _ Hfl).
  assert (∀ k, addr_of ip' k = addr_of ip k) as Hak by (intros k; by rewrite /addr_of Ha).
  assert (∀ bn, baddr V' ip' bn = baddr V ip bn) as Hb.
  { intros bn. rewrite /baddr !Hak. destruct (_ <? _); [done|]. destruct (_ =? 0) eqn:E; [done|].
    rewrite HV //. breflect. by apply Hwf. }
  assert (∀ b, data_used (sb:=sb) (ds:=ds) V b → data_used (sb:=sb) (ds:=ds) V' b) as Hdu.
  { intros b [Hr ?]. split; [done|]. rewrite Hu //. lia. }
  split; [done|]. destruct Hwf as [Wd Wl Wi Wb Wj Wn].
  split; rewrite ?Hak ?Hdev ?Ha //; try setoid_rewrite Hb; auto.
Qed.

Lemma written_same V ip off s V1 ip1 :
  inode_inv V ip → wrote off s V ip V1 ip1 → 0 ≤ off → off + length s ≤ isize ip →
  file_written off s V ip V1 ip1.
Proof.
  intros [Hfo Hnum Hrng Hsync] [Hx Hin Hout Hsame] Hoff Hle.
  assert (ip1 = ip) as -> by (apply Hsame; intros o Ho; by apply (block_range V ip o Hfo); lia).
  pose proof (fo_size _ _ Hfo).
  split; [|apply Hx| |lia| |apply Hx| |apply Hx].
  - split; [|done|done|by rewrite (fext_dinode V ip V1 ip)].
    split; [apply Hx|done|]. intros bn Hbn Hlt. rewrite (fx_addr _ _ _ _ Hx).
    + split; [done|]. unfold BSIZE, MAXFILE in *. lia.
    + by apply Hfo.
    + by apply Hfo.
  - by destruct ip.
  - intros o Ho. case_decide; [by apply Hin|]. apply Hout; [lia|done|]. by apply (block_range V ip o Hfo).
  - intros num Hn _. by apply (fext_dinode V ip V1 ip).
Qed.

Lemma written_grow V ip off s V1 ip1 :
  let ip2 := set_isize (off + length s) ip1 in
  (∀ b, block_ok (V1 b)) →
  inode_inv V ip → wrote off s V ip V1 ip1 → 0 ≤ off ≤ isize ip → isize ip < off + length s →
  off + length s ≤ MAXFILE * BSIZE →
  file_written off s V ip (put_dinode V1 sb (inum ip) (to_dinode ip2)) ip2 ∧
  dinode_rng (to_dinode ip2).
Proof.
  intros ip2 Hok [Hfo Hnum Hrng Hsync] [Hx Hin Hout Hsame] Hoff Hgt Hlim.
  pose proof (fx_meta _ _ _ _ Hx) as Hip1. pose proof (fx_wf _ _ _ _ Hx) as Hwf1.
  assert (MAXFILE * BSIZE < 2 ^ 31) as Hmax by done.
  assert (dinode_rng (to_dinode ip2)) as Hrng2.
  { destruct Hrng. rewrite /ip2 Hip1. split; simpl; try done.
    - rewrite /is_u32. lia.
    - by apply (wf_addrs_u32 V1).
    - apply Hwf1. }
  assert (inum ip2 = inum ip) as Hin2 by by rewrite /ip2 Hip1.
  set (V2 := put_dinode _ _ _ _).
  assert (∀ b, 0 ≤ b < sb_size sb → used V2 sb b = used V1 sb b) as Hu2.
  { intros b Hb. by apply (put_dinode_used Hfl). }
  assert (∀ b, ds ≤ b → V2 b = V1 b) as HV2 by (intros b Hb; by apply (put_dinode_data Hfl)).
  destruct (wf_same_data V1 V2 ip1 ip2) as [Hb2 Hwf2]; [done|done|done|done|done|].
  assert (∀ bn, 0 ≤ bn → bn * BSIZE < off + length s → baddr V1 ip1 bn ≠ 0) as Hfull.
  { intros bn Hbn Hlt. assert (bn < MAXFILE) by (unfold BSIZE, MAXFILE in *; lia).
    destruct (decide (bn * BSIZE < isize ip)).
    - rewrite (fx_addr _ _ _ _ Hx) //; by apply Hfo.
    - destruct (Hin (bn * BSIZE)) as [Hb _]; [lia|]. by rewrite Z.div_mul in Hb. }
  split; [|done]. split.
  - split; [|by rewrite Hin2|done|]. 2:{ rewrite Hin2. by apply put_dinode_same. }
    split; [done|simpl; lia|]. intros bn Hbn Hlt. rewrite Hb2. by apply Hfull.
  - intros b H1 H2. rewrite Hu2; [lia|]. by apply Hx.
  - rewrite /ip2 /= {1}Hip1. by destruct ip.
  - simpl. lia.
  - simpl. intros o Ho. destruct (fbyte_data V1 V2 ip1 ip2 o) as [_ ->]; [done|done|done|lia| |].
    + apply Hfull; [apply Z.div_pos; [lia|done]|]. pose proof (Z.mul_div_le o BSIZE ltac:(done)). lia.
    + case_decide; [by apply Hin|]. apply Hout; [lia|done|]. apply (block_range V ip o Hfo). lia.
  - intros b Hb Hu Hno. rewrite HV2; [lia|]. by apply Hx.
  - intros num Hn Hne. rewrite (put_dinode_other Hfl) //. by apply (fext_dinode V ip V1 ip1).
  - intros b Hb Hu. rewrite Hu2 //. by apply (fx_used _ _ _ _ Hx).
Qed.

Lemma slice_0_take {A} n (l : list A) : slice 0 n l = take n l.
Proof. by rewrite /slice drop_0. Qed.

Lemma writei_wp X V ic i ip src off n σ Q :
  at_rest X V ic σ → ic !! i = Some ip → inode_inv V ip → meta_used V sb ds →
  itype ip ≠ T_DEV → Forall is_byte src → 0 ≤ n ≤ length src → 0 ≤ off ≤ isize ip →
  off + n ≤ MAXFILE * BSIZE →
  base.size X + 5 * nchunks off n + 1 ≤ cap →
  2 * nchunks off n ≤ base.size (free_set (sb:=sb) V) →
  (∀ X' V' ip' σ', file_written off (take (Z.to_nat n) src) V ip V' ip' →
     base.size X' ≤ base.size X + 5 * nchunks off n + 1 →
     at_rest X' V' (<[i := ip']> ic) σ' → Q n σ') →
  wp (writei devsw i src off n) Q σ.
Proof.
  intros HF Hi Hinv Hmu Hty Hsrc Hn Hoff Hlim HX Hfree HQ. rewrite /writei. apply wp_bind.
  eapply fat_iptr; [done|done|]. rewrite (proj2 (Z.eqb_neq _ _) Hty).
  assert (MAXFILE * BSIZE < 2 ^ 31) as Hmax by done.
  rewrite !u32_small; [rewrite /is_u32; lia..|].
  rewrite (proj2 (Z.ltb_ge _ _)); [lia|]. rewrite (proj2 (Z.ltb_ge (off + n) off)); [lia|].
  rewrite (proj2 (Z.ltb_ge _ _)) //. cbn [orb].
  apply wp_bind. eapply writei_loop_wp; [done|done|apply Hinv|done|done|lia|lia|lia|lia| | | |lia|].
  { by rewrite Z.sub_0_r. } { rewrite Z.sub_0_r. lia. } { by rewrite Z.sub_0_r. }
  rewrite !Z.sub_0_r slice_0_take. intros X1 V1 ip1 σ1 Hw HX1 HF1.
  set (s := take (Z.to_nat n) src) in *.
  assert (length s = Z.to_nat n) as Hls by (rewrite length_take; lia).
  apply wp_bind. eapply fat_iptr; [done|by eapply lookup_upd|].
  rewrite (_ : isize ip1 = isize ip); [by rewrite (fx_meta _ _ _ _ (wr_ext _ _ _ _ _ _ Hw))|].
  destruct ((0 <? n) && (isize ip <? off + n)) eqn:E.
  - apply andb_true_iff in E as [E1%Z.ltb_lt E2%Z.ltb_lt].
    destruct (written_grow V ip off s V1 ip1) as [Hfw Hrng]; [|done|done|lia|lia|lia|].
    { intros b. by eapply fat_block_ok. }
    pose proof (fx_meta _ _ _ _ (wr_ext _ _ _ _ _ _ Hw)) as Hip1.
    replace (off + length s) with (off + n) in Hfw, Hrng by lia.
    assert (inum (set_isize (off + n) ip1) = inum ip) as Hnum by by rewrite Hip1.
    apply wp_bind, wp_bind. eapply fat_iupd; [exact HF1|by eapply lookup_upd|]. intros σ2 HF2.
    rewrite list_insert_insert_eq in HF2.
    eapply (iupdate_wp _ _ Hfl Hcap); [exact HF2|by eapply lookup_upd| | |done|lia|].
    { rewrite Hip1. apply (iv_file _ _ Hinv). } { rewrite Hnum. apply Hinv. }
    intros σ3 HF3. apply wp_ret. rewrite s32_small; [lia|]. rewrite Hnum in HF3.
    eapply HQ; [exact Hfw| |exact HF3].
    pose proof (size_union_le {[IBLOCK (inum ip) sb]} X1) as Hsz. rewrite size_singleton in Hsz. lia.
  - apply wp_bind, wp_ret, wp_ret. rewrite s32_small; [lia|]. eapply HQ; [| |exact HF1]; [|lia].
    apply written_same; [done|done|lia|].
    apply andb_false_iff in E as [E%Z.ltb_ge|E%Z.ltb_ge]; lia.
Qed.
End Rw.
