(* ===== verification/FsCache.v ===== *)
(** * The inode cache: correctness of [iget], [idup], [ilock], [iunlock]

    [icache_ok] is the invariant of [icache.inode]: no two entries in use hold
    the same inode, so that a handle returned by [iget] names the one copy of
    the inode in memory. *)

From S2P Require Import Prelude CInt CString Kernel Params Sleeplock Bio BioSpec Cache Log LogSpec BlockIO Fs FsBlock FsFile FsInode.

(** ** The scan of [iget] *)

(** An entry in use that holds inode [num] of device [dev]. *)
Definition in_use (dev num : Z) (ip : inode) : Prop :=
  0 < iref ip ∧ idev ip = dev ∧ inum ip = num.

Lemma in_use_test dev num ip :
  (0 <? iref ip) && (idev ip =? dev) && (inum ip =? num) = true ↔ in_use dev num ip.
Proof.
  rewrite /in_use !andb_true_iff Z.ltb_lt !Z.eqb_eq. tauto.
Qed.

Lemma iget_scan_spec dev num l k e :
  match iget_scan dev num l k e with
  | inl i => ∃ j ip, i = (k + j)%nat ∧ l !! j = Some ip ∧ in_use dev num ip
  | inr e' =>
      (∀ j ip, l !! j = Some ip → ¬ in_use dev num ip) ∧
      match e with
      | Some i => e' = Some i
      | None =>
          match e' with
          | Some i => ∃ j ip, i = (k + j)%nat ∧ l !! j = Some ip ∧ iref ip = 0
          | None => ∀ j ip, l !! j = Some ip → iref ip ≠ 0
          end
      end
  end.
Proof.
  revert k e. induction l as [|ip l IH]; intros k e; cbn [iget_scan].
  { destruct e; (split; [by intros|]); [done|by intros]. }
  destruct (_ && _ && _) eqn:E.
  { apply in_use_test in E. exists 0%nat, ip. split_and!; [lia|done|done]. }
  assert (¬ in_use dev num ip) as Hno by (rewrite -in_use_test E; done).
  set (e1 := match e with Some _ => _ | None => _ end).
  specialize (IH (S k) e1). destruct (iget_scan dev num l (S k) e1) as [i|e'].
  - destruct IH as (j&x&->&Hj&Hu). exists (S j), x. split_and!; [lia|done|done].
  - destruct IH as [Hall He]. split.
    { intros [|j] x Hx; simpl in Hx; [by injection Hx as <-|by eapply Hall]. }
    destruct e as [i|]; [done|]. rewrite /e1 in He. destruct (iref ip =? 0) eqn:E0; breflect.
    + subst e'. exists 0%nat, ip. split_and!; [lia|done|done].
    + destruct e' as [i|].
      * destruct He as (j&x&->&Hj&Hr). exists (S j), x. split_and!; [lia|done|done].
      * intros [|j] x Hx; simpl in Hx; [by injection Hx as <-|by eapply He].
Qed.

(** ** The invariant *)

Record icache_ok (ic : list inode) : Prop := {
  ok_len : length ic = NINODE;
  ok_ref : ∀ i ip, ic !! i = Some ip → 0 ≤ iref ip;
  ok_uniq : ∀ i j ip jp, ic !! i = Some ip → ic !! j = Some jp →
    in_use (idev jp) (inum jp) ip → 0 < iref jp → i = j
}.

(** The cache after [iget dev num] returned entry [i]. *)
Definition got (dev num : Z) (ic : list inode) (i : nat) (ic' : list inode) : Prop :=
  (∃ ip, ic !! i = Some ip ∧ in_use dev num ip ∧ ic' = <[i := set_iref (iref ip + 1) ip]> ic) ∨
  (∃ ip, ic !! i = Some ip ∧ iref ip = 0 ∧ (∀ j jp, ic !! j = Some jp → ¬ in_use dev num jp) ∧
     ic' = <[i := Inode dev num 1 (ilk ip) 0 (itype ip) (imajor ip) (iminor ip) (inlink ip)
                        (isize ip) (iaddrs ip)]> ic).

Lemma got_ok dev num ic i ic' :
  icache_ok ic → got dev num ic i ic' →
  icache_ok ic' ∧ ∃ ip', ic' !! i = Some ip' ∧ in_use dev num ip'.
Proof.
  intros [Hl Hr Hu] [(ip&Hi&Hin&->)|(ip&Hi&H0&Hno&->)].
  - pose proof Hin as (Hp&Hd&Hn). split; [split|].
    + by rewrite length_insert.
    + intros j x [(<-&<-&_)|[_ ?]]%list_lookup_insert_Some; [simpl; lia|by eapply Hr].
    + intros a b x y Hx Hy. rewrite /in_use.
      apply list_lookup_insert_Some in Hx as [(<-&<-&_)|[Ha Hx]];
        apply list_lookup_insert_Some in Hy as [(<-&<-&_)|[Hb Hy]]; simpl; try done.
      * intros (_&E1&E2) Hy0. eapply Hu; [done|done|split_and!; done|done].
      * intros (Hx0&E1&E2) _. eapply Hu; [done|done|split_and!; done|done].
      * intros Hx0 Hy0. by eapply Hu.
    + eexists. split; [by eapply lookup_upd|]. split_and!; simpl; [lia|done|done].
  - split; [split|].
    + by rewrite length_insert.
    + intros j x [(<-&<-&_)|[_ ?]]%list_lookup_insert_Some; [simpl; lia|by eapply Hr].
    + intros a b x y Hx Hy. rewrite /in_use.
      apply list_lookup_insert_Some in Hx as [(<-&<-&_)|[Ha Hx]];
        apply list_lookup_insert_Some in Hy as [(<-&<-&_)|[Hb Hy]]; simpl; try done.
      * intros (_&E1&E2) Hy0. destruct (Hno b y Hy). by split_and!.
      * intros (Hx0&E1&E2) _. destruct (Hno a x Hx). by split_and!.
      * intros Hx0 Hy0. by eapply Hu.
    + eexists. split; [by eapply lookup_upd|]. split_and!; simpl; [lia|done|done].
Qed.

(** ** Routines *)

Section Icache.
Context {B : Type} `{!BlockIO B} {home : Z → Prop} {cap : nat} `{!BlockIOSpec B home cap}.
Context {S0 : Type} (σ0 : kst S0) (pid : Z) {sb : superblock} {ds : Z}.
Context (Hfl : fs_layout home sb ds) (Hcap : (cap < NBUF)%nat).
Implicit Types (H : gmap nat Z) (X M : gset Z) (V : Z → block) (ic : list inode) (ip : inode).

Lemma fat_quiet H X M V ic σ : Fat σ0 pid H X M V ic sb σ → quiet pid σ.
Proof. intros []. pose proof (io_quiet _ _ _ _ _ _ fa_io) as (?&?&?). done. Qed.

(** A change of the inode cache and of the sleepers only. *)
Lemma fat_icache H X M V ic c w w' s ic' :
  Fat σ0 pid H X M V ic sb (Kst c ∅ w s) → w' ⊆ w →
  Fat σ0 pid H X M V ic' sb (Kst c ∅ w' (set_icache ic' s)).
Proof.
  intros [Hf Hio Hic Hsb] Hw. split; [|by eapply io_move|done|done].
  destruct Hf as (?&?&?). split_and!; [done|done|]. simpl in *. by etrans.
Qed.

(** Updating entry [i] inside of a critical section of [icache.lock]. *)
Lemma wp_iupd_locked c L w (s : fstate B) i ip f Q :
  icache s !! i = Some ip →
  Q tt (Kst c L w (set_icache (<[i := f ip]> (icache s)) s)) → wp (iupd i f) Q (Kst c L w s).
Proof.
  intros Hi HQ. rewrite /iupd /iptr. apply wp_bind, wp_bind, wp_gets. eapply wp_deref; [done|].
  apply wp_modify. by rewrite /set_data /= (alter_insert_eq _ _ _ _ Hi).
Qed.

(** [iget] finds the entry of the inode or takes an empty one. *)
Lemma iget_wp H X M V ic σ dev num Q :
  Fat σ0 pid H X M V ic sb σ →
  (∃ i ip, ic !! i = Some ip ∧ (in_use dev num ip ∨ iref ip = 0)) →
  (∀ i ic' σ', got dev num ic i ic' → Fat σ0 pid H X M V ic' sb σ' → Q i σ') →
  wp (iget dev num) Q σ.
Proof.
  destruct σ as [c L w s]. intros HF Hex HQ. pose proof (fat_quiet _ _ _ _ _ _ HF) as (Hc&HL&Hp).
  simpl in HL, Hc. subst L. pose proof (fa_ic _ _ _ _ _ _ _ _ _ HF) as Hic. simpl in Hic.
  rewrite /iget. kstep. kstep. rewrite Hic.
  pose proof (iget_scan_spec dev num ic 0 None) as Hscan.
  destruct (iget_scan dev num ic 0 None) as [i|[i|]].
  - destruct Hscan as (j&ip&->&Hj&Hu). apply wp_bind.
    eapply wp_iupd_locked; [by rewrite Hic|]. apply wp_bind, wp_release_last; [done|done|].
    apply wp_ret. rewrite Hic. eapply HQ; [left; eauto|]. by eapply fat_icache.
  - destruct Hscan as [Hno (j&ip&->&Hj&H0)]. apply wp_bind.
    eapply wp_iupd_locked; [by rewrite Hic|]. apply wp_bind, wp_release_last; [done|done|].
    apply wp_ret. rewrite Hic. eapply HQ; [right; eauto|]. by eapply fat_icache.
  - destruct Hscan as [Hno H0], Hex as (i&ip&Hi&[Hu|Hr]); exfalso; [by eapply Hno|by eapply H0].
Qed.

Lemma idup_wp H X M V ic σ i ip Q :
  Fat σ0 pid H X M V ic sb σ → ic !! i = Some ip →
  (∀ σ', Fat σ0 pid H X M V (<[i := set_iref (iref ip + 1) ip]> ic) sb σ' → Q i σ') →
  wp (idup i) Q σ.
Proof.
  destruct σ as [c L w s]. intros HF Hi HQ. pose proof (fat_quiet _ _ _ _ _ _ HF) as (Hc&HL&Hp).
  simpl in HL, Hc. subst L. pose proof (fa_ic _ _ _ _ _ _ _ _ _ HF) as Hic. simpl in Hic.
  rewrite /idup. kstep. apply wp_bind. eapply wp_iupd_locked; [by rewrite Hic|].
  apply wp_bind, wp_release_last; [done|done|]. apply wp_ret, HQ. rewrite Hic. by eapply fat_icache.
Qed.

(** The sleep lock of an inode. *)
Lemma fat_acquire H X M V ic σ i ip Q :
  Fat σ0 pid H X M V ic sb σ → ic !! i = Some ip → slocked (ilk ip) = 0 →
  (∀ σ', Fat σ0 pid H X M V (<[i := set_ilk (Sleeplock 1 pid) ip]> ic) sb σ' → Q tt σ') →
  wp (acquiresleep (SInode i) (ilens i)) Q σ.
Proof.
  intros HF Hi H0 HQ. pose proof (fa_ic _ _ _ _ _ _ _ _ _ HF) as Hic.
  eapply acquiresleep_wp; [by eapply fat_quiet|by rewrite /= Hic Hi|done|]. apply HQ.
  pose proof (fat_quiet _ _ _ _ _ _ HF) as (Hc&HL&Hp). destruct σ as [c L w s]. simpl in *. subst L.
  rewrite /set_data /= Hic (alter_insert_eq _ _ _ _ Hi). by eapply fat_icache.
Qed.

Lemma fat_release H X M V ic σ i ip Q :
  Fat σ0 pid H X M V ic sb σ → ic !! i = Some ip →
  (∀ σ', Fat σ0 pid H X M V (<[i := set_ilk (Sleeplock 0 0) ip]> ic) sb σ' → Q tt σ') →
  wp (releasesleep (SInode i) (ilens i)) Q σ.
Proof.
  intros HF Hi HQ. pose proof (fa_ic _ _ _ _ _ _ _ _ _ HF) as Hic.
  eapply releasesleep_wp; [by eapply fat_quiet|by rewrite /= Hic Hi|]. intros w' Hw. apply HQ.
  pose proof (fat_quiet _ _ _ _ _ _ HF) as (Hc&HL&Hp). destruct σ as [c L w s]. simpl in *. subst L.
  rewrite Hic (alter_insert_eq _ _ _ _ Hi). by eapply fat_icache.
Qed.

Lemma fat_holding H X M V ic σ i ip Q :
  Fat σ0 pid H X M V ic sb σ → ic !! i = Some ip →
  Q (negb (slocked (ilk ip) =? 0) && (spid (ilk ip) =? pid)) σ →
  wp (holdingsleep (SInode i) (ilens i)) Q σ.
Proof.
  intros HF Hi HQ. eapply holdingsleep_wp; [by eapply fat_quiet| |done].
  by rewrite /= (fa_ic _ _ _ _ _ _ _ _ _ HF) Hi.
Qed.

(** The inode after [ilock]: read from its block if it was not valid. *)
Definition locked_inode V ip : inode :=
  let ip1 := set_ilk (Sleeplock 1 pid) ip in
  if ivalid ip =? 0 then set_ivalid 1 (set_dinode (dinode_on V sb (inum ip)) ip1) else ip1.

Lemma ilock_wp X V ic σ i ip Q :
  Fat σ0 pid ∅ X ∅ V ic sb σ → ic !! i = Some ip → 1 ≤ iref ip → slocked (ilk ip) = 0 →
  idev ip = ROOTDEV → 0 < inum ip < sb_ninodes sb → (base.size X < NBUF)%nat →
  (ivalid ip = 0 → d_type (dinode_on V sb (inum ip)) ≠ 0) →
  (∀ σ', Fat σ0 pid ∅ X ∅ V (<[i := locked_inode V ip]> ic) sb σ' → Q tt σ') →
  wp (ilock (Some i)) Q σ.
Proof.
  intros HF Hi Hr H0 Hdev Hnum HX Hty HQ. rewrite /ilock. apply wp_bind.
  eapply fat_iptr; [done|done|]. rewrite (proj2 (Z.ltb_ge _ _)) //.
  apply wp_bind. eapply fat_acquire; [done..|]. intros σ1 HF1.
  apply wp_bind. eapply fat_iptr; [done|by eapply lookup_upd|]. cbn [ivalid set_ilk idev inum].
  rewrite /locked_inode in HQ. destruct (ivalid ip =? 0) eqn:E; breflect; [|by apply wp_ret, HQ].
  apply wp_bind. eapply fat_sb; [done|]. rewrite Hdev.
  destruct (fl_inode _ _ _ Hfl _ Hnum) as (Hhome&_).
  apply wp_bind. eapply fat_read; [done|done|intros j; by rewrite lookup_empty| |].
  { rewrite map_size_empty. lia. }
  intros bp σ2 Hbp HF2. apply wp_bind. eapply fat_data; [done|by apply lookup_insert_eq|].
  apply wp_bind. eapply fat_iupd; [done|by eapply lookup_upd|]. intros σ3 HF3.
  rewrite list_insert_insert_eq in HF3.
  apply wp_bind. eapply fat_rel; [done|by apply lookup_insert_eq|set_solver|]. intros σ4 HF4.
  rewrite delete_insert_id // in HF4.
  apply wp_bind. eapply fat_iupd; [done|by eapply lookup_upd|]. intros σ5 HF5.
  rewrite list_insert_insert_eq in HF5.
  apply wp_bind. eapply fat_iptr; [done|by eapply lookup_upd|]. cbn [itype set_ivalid set_dinode].
  fold (dinode_on V sb (inum ip)). rewrite (proj2 (Z.eqb_neq _ _) (Hty E)). by apply wp_ret, HQ.
Qed.

Lemma iunlock_wp H X M V ic σ i ip Q :
  Fat σ0 pid H X M V ic sb σ → ic !! i = Some ip → ilk ip = Sleeplock 1 pid → 1 ≤ iref ip →
  (∀ σ', Fat σ0 pid H X M V (<[i := set_ilk (Sleeplock 0 0) ip]> ic) sb σ' → Q tt σ') →
  wp (iunlock (Some i)) Q σ.
Proof.
  intros HF Hi Hlk Hr HQ. rewrite /iunlock. apply wp_bind. eapply fat_holding; [done|done|].
  rewrite Hlk /= Z.eqb_refl. apply wp_bind. eapply fat_iptr; [done|done|].
  rewrite (proj2 (Z.ltb_ge _ _)) //=. by eapply fat_release.
Qed.

(** Unlocking an inode the process does not hold panics. *)
Lemma iunlock_not_held H X M V ic σ i ip :
  Fat σ0 pid H X M V ic sb σ → ic !! i = Some ip →
  slocked (ilk ip) = 0 ∨ spid (ilk ip) ≠ pid ∨ iref ip < 1 →
  iunlock (Some i) σ = Panic "iunlock" σ.
Proof.
  intros HF Hi Hbad. rewrite /iunlock.
  destruct (wp_inv (holdingsleep (SInode i) (ilens i))
    (λ h σ', h = negb (slocked (ilk ip) =? 0) && (spid (ilk ip) =? pid) ∧ σ' = σ) σ)
    as (h&?&E&->&->); [by eapply fat_holding|].
  rewrite (bind_ret _ _ _ _ _ E) /iptr /mbind /K_bind /gets (fa_ic _ _ _ _ _ _ _ _ _ HF) Hi /=.
  rewrite (_ : negb _ || _ = true) //.
  destruct Hbad as [->|[Hne|Hlt]]; [done| |].
  - by rewrite (proj2 (Z.eqb_neq _ _) Hne) andb_false_r.
  - by rewrite (proj2 (Z.ltb_lt _ _) Hlt) orb_true_r.
Qed.

(** Dropping a reference that is not the last one of an unlinked inode. *)
Lemma iput_keep_wp X V ic σ i ip Q :
  Fat σ0 pid ∅ X ∅ V ic sb σ → ic !! i = Some ip → slocked (ilk ip) = 0 →
  ivalid ip = 0 ∨ inlink ip ≠ 0 ∨ iref ip ≠ 1 →
  (∀ σ', Fat σ0 pid ∅ X ∅ V (<[i := set_iref (iref ip - 1) (set_ilk (Sleeplock 0 0) ip)]> ic) sb σ' →
     Q tt σ') →
  wp (iput i) Q σ.
Proof.
  intros HF Hi H0 Hk HQ. rewrite /iput. apply wp_bind. eapply fat_acquire; [done..|]. intros σ1 HF1.
  apply wp_bind. eapply fat_iptr; [done|by eapply lookup_upd|]. cbn [ivalid inlink set_ilk].
  apply wp_bind.
  assert (∀ σ2, Fat σ0 pid ∅ X ∅ V (<[i := set_ilk (Sleeplock 1 pid) ip]> ic) sb σ2 →
    wp (releasesleep (SInode i) (ilens i);; acquire Licache;;
        iupd i (λ ip, set_iref (iref ip - 1) ip);; release Licache) Q σ2) as Hrest.
  { intros σ2 HF2. apply wp_bind. eapply fat_release; [done|by eapply lookup_upd|]. intros σ3 HF3.
    rewrite list_insert_insert_eq in HF3. destruct σ3 as [c L w s].
    pose proof (fat_quiet _ _ _ _ _ _ HF3) as (Hc&HL&Hp). simpl in HL, Hc. subst L.
    pose proof (fa_ic _ _ _ _ _ _ _ _ _ HF3) as Hic. simpl in Hic.
    kstep. apply wp_bind. eapply wp_iupd_locked; [rewrite Hic; by eapply lookup_upd|].
    apply wp_release_last; [done|done|]. apply HQ. rewrite Hic list_insert_insert_eq.
    by eapply fat_icache. }
  destruct (negb (ivalid ip =? 0) && (inlink ip =? 0)) eqn:E; [|by apply wp_ret, Hrest].
  apply andb_true_iff in E as [E1 E2]. apply negb_true_iff, Z.eqb_neq in E1. apply Z.eqb_eq in E2.
  assert (iref ip ≠ 1) as Hr by naive_solver.
  destruct σ1 as [c L w s]. pose proof (fat_quiet _ _ _ _ _ _ HF1) as (Hc&HL&Hp).
  simpl in HL, Hc. subst L. pose proof (fa_ic _ _ _ _ _ _ _ _ _ HF1) as Hic. simpl in Hic.
  kstep. rewrite /iptr. kstep. rewrite Hic.
  eapply wp_deref; [by eapply lookup_upd|]. cbn [iref set_ilk].
  apply wp_bind, wp_release_last; [done|done|].
  rewrite (proj2 (Z.eqb_neq _ _) Hr). apply wp_ret. by apply Hrest.
Qed.
End Icache.
