(* ===== verification/FsTrunc.v ===== *)
(** * Freeing files: correctness of [itrunc] and of the last [iput]

    [freed F V V']: the blocks of [F] were freed, nothing else changed but
    bitmap blocks. *)

From S2P Require Import Prelude CInt CString Kernel Params Sleeplock Bio BioSpec Cache Log LogSpec BlockIO Fs FsBlock FsFile FsInode FsRw FsCache.

Section Freed.
Context {home : Z → Prop} {sb : superblock} {ds : Z} (Hfl : fs_layout home sb ds).
Implicit Types (V : Z → block) (F : gset Z).

Record freed F V V' : Prop := {
  fr_used : ∀ b, 0 ≤ b < sb_size sb → used V' sb b = if decide (b ∈ F) then false else used V sb b;
  fr_rest : ∀ b, (∀ c, 0 ≤ c < sb_size sb → b ≠ BBLOCK c sb) → V' b = V b
}.

Lemma freed_nil V : freed ∅ V V.
Proof. split; [|done]. intros b _. by case_decide; [set_solver|]. Qed.

Lemma freed_step F V V' b :
  freed F V V' → (∀ c, block_ok (V' c)) → 0 ≤ b < sb_size sb → freed ({[b]} ∪ F) V (mark V' sb b false).
Proof.
  intros [Hu Hr] Hok Hb. split.
  - intros c Hc. rewrite (used_mark Hfl) // Hu //.
    repeat case_decide; try done; set_solver.
  - intros c Hc. rewrite /mark upd_ne; [by apply Hc|]. by apply Hr.
Qed.

Lemma freed_data F V V' b : freed F V V' → ds ≤ b → V' b = V b.
Proof.
  intros Hf Hb. apply (fr_rest _ _ _ Hf). intros c Hc. destruct (fl_bmap _ _ _ Hfl c Hc) as (_&_&?). lia.
Qed.

(** The bitmap blocks. *)
Definition bm_blocks : gset Z :=
  list_to_set ((λ b, BBLOCK b sb) <$> seqZ 0 (sb_size sb)).

Lemma elem_of_bm b : 0 ≤ b < sb_size sb → BBLOCK b sb ∈ bm_blocks.
Proof.
  intros Hb. apply elem_of_list_to_set, list_elem_of_fmap. exists b. split; [done|].
  apply elem_of_seqZ. lia.
Qed.
End Freed.

Arguments freed {sb} F V V'.
Arguments bm_blocks sb : clear implicits.

Section Trunc.
Context {B : Type} `{!BlockIO B} {home : Z → Prop} {cap : nat} `{!BlockIOSpec B home cap}.
Context {S0 : Type} (σ0 : kst S0) (pid : Z) {sb : superblock} {ds : Z}.
Context (Hfl : fs_layout home sb ds) (Hcap : (cap < NBUF)%nat).
Implicit Types (H : gmap nat Z) (X F : gset Z) (V : Z → block) (ic : list inode) (ip : inode).

(** One conditional [bfree] of a loop: the address is zero or freed. *)
Lemma bfree_step_wp H X V0 V F ic σ a Q :
  Fat σ0 pid H X ∅ V ic sb σ → (∀ i c, H !! i = Some c → ds ≤ c) →
  (base.size X + base.size H < NBUF)%nat → (base.size X < cap)%nat →
  freed (sb:=sb) F V0 V → data_used (sb:=sb) (ds:=ds) V0 a → a ∉ F →
  (∀ σ' V', Fat σ0 pid H ({[BBLOCK a sb]} ∪ X) ∅ V' ic sb σ' → freed (sb:=sb) ({[a]} ∪ F) V0 V' → Q tt σ') →
  wp (bfree ROOTDEV a) Q σ.
Proof.
  intros HF HH Hr HX Hfr [Ha Hu] Hno HQ. pose proof (fl_ds _ _ _ Hfl).
  eapply (bfree_wp _ _ Hfl); [done|done|done|done|lia| |].
  { rewrite (fr_used _ _ _ Hfr); [lia|]. by case_decide. }
  intros σ' HF'. eapply HQ; [exact HF'|]. apply (freed_step Hfl); [done| |lia].
  intros c. by eapply fat_block_ok.
Qed.

(** The nonzero values of [f] below [t]. *)
Definition nz (f : Z → Z) (t : nat) : gset Z :=
  list_to_set (filter (λ a, a ≠ 0) ((λ k : nat, f k) <$> seq 0 t)).

Lemma elem_of_nz f t a : a ∈ nz f t ↔ a ≠ 0 ∧ ∃ k : nat, (k < t)%nat ∧ a = f k.
Proof.
  rewrite /nz elem_of_list_to_set list_elem_of_filter list_elem_of_fmap.
  split.
  - intros (Ha&k&->&Hk%elem_of_seq). split; [done|]. exists k. split; [lia|done].
  - intros (Ha&k&Hk&->). split; [done|]. exists k. split; [done|]. apply elem_of_seq. lia.
Qed.

Lemma nz_S f (t : nat) : nz f (S t) = if decide (f t = 0) then nz f t else {[f t]} ∪ nz f t.
Proof.
  apply set_eq. intros a. destruct (decide (f t = 0)) as [E|E];
    rewrite ?elem_of_union ?elem_of_singleton !elem_of_nz.
  - split; intros (Ha&k&Hk&->); (split; [done|]).
    + exists k. split; [|done]. destruct (decide (k = t)) as [->|]; [done|lia].
    + exists k. split; [lia|done].
  - split.
    + intros (Ha&k&Hk&->). destruct (decide (k = t)) as [->|]; [by left|right].
      split; [done|]. exists k. split; [lia|done].
    + intros [->|(Ha&k&Hk&->)]; [split; [done|]; exists t; split; [lia|done]|].
      split; [done|]. exists k. split; [lia|done].
Qed.

(** The logged blocks stay within the bitmap. *)
Definition logs_bm X0 X : Prop := X ⊆ X0 ∪ bm_blocks sb.

Lemma logs_bm_size X0 X : logs_bm X0 X → (base.size X ≤ base.size (X0 ∪ bm_blocks sb))%nat.
Proof. intros HX. by apply subseteq_size. Qed.

Lemma logs_bm_step X0 X a :
  logs_bm X0 X → 0 ≤ a < sb_size sb → logs_bm X0 ({[BBLOCK a sb]} ∪ X).
Proof. intros HX Ha. pose proof (elem_of_bm a Ha). rewrite /logs_bm in HX |- *. set_solver. Qed.

(** The first loop of [itrunc]: [t] direct addresses freed and cleared. *)
Definition cleared ip (t : nat) : inode := set_iaddrs (replicate t 0 ++ drop t (iaddrs ip)) ip.

Lemma cleared_S ip t a : iaddrs ip !! t = Some a →
  set_iaddrs (<[t := 0]> (iaddrs (cleared ip t))) (cleared ip t) = cleared ip (S t).
Proof.
  intros Ht. rewrite /cleared /set_iaddrs /=. f_equal.
  rewrite insert_app_r_alt length_replicate // Nat.sub_diag (drop_S _ _ _ Ht) /=.
  change (0 :: replicate t 0 ++ drop (S t) (iaddrs ip)) with (replicate (S t) 0 ++ drop (S t) (iaddrs ip)).
  rewrite (replicate_S_end t 0) -app_assoc //.
Qed.

Lemma cleared_lookup ip t a : iaddrs ip !! t = Some a → iaddrs (cleared ip t) !! t = Some a.
Proof.
  intros Ht. rewrite /= lookup_app_r length_replicate // Nat.sub_diag lookup_drop Nat.add_0_r //.
Qed.

Lemma cleared_same ip t : iaddrs ip !! t = Some 0 → cleared ip t = cleared ip (S t).
Proof.
  intros Ht. rewrite -(cleared_S _ _ _ Ht) list_insert_id; [by apply cleared_lookup|done].
Qed.

Lemma trunc_direct_wp X0 X V ic σ i ip Q :
  Fat σ0 pid ∅ X ∅ V ic sb σ → ic !! i = Some ip → inode_wf (sb:=sb) (ds:=ds) V ip →
  logs_bm X0 X → (base.size (X0 ∪ bm_blocks sb) < cap)%nat →
  (∀ σ' X' V', Fat σ0 pid ∅ X' ∅ V' (<[i := cleared ip 12]> ic) sb σ' → logs_bm X0 X' →
     freed (sb:=sb) (nz (addr_of ip) 12) V V' → Q tt σ') →
  wp (for_each (seq 0 (Z.to_nat NDIRECT)) (λ k,
        ip ← iptr i; addr ← deref (iaddrs ip !! k);
        if addr =? 0 then mret () else
        bfree (idev ip) addr;;
        iupd i (λ ip, set_iaddrs (<[k := 0]> (iaddrs ip)) ip))) Q σ.
Proof.
  intros HF Hi Hwf HX Hc HQ. pose proof (fl_ds _ _ _ Hfl).
  apply (wp_for_seq _ _ (λ t σ', ∃ X' V', Fat σ0 pid ∅ X' ∅ V' (<[i := cleared ip t]> ic) sb σ' ∧
    logs_bm X0 X' ∧ freed (sb:=sb) (nz (addr_of ip) t) V V')).
  - exists X, V. split_and!; [|done|apply (freed_nil Hfl)]. rewrite list_insert_id //. by destruct ip.
  - intros t σ1 Ht (X1&V1&HF1&HX1&Hfr1). change (Z.to_nat NDIRECT) with 12%nat in Ht.
    destruct (lookup_lt_is_Some_2 (iaddrs ip) t) as [a Ha]; [rewrite (wf_len _ _ Hwf); lia|].
    assert (addr_of ip t = a) as Hat by by rewrite /addr_of Nat2Z.id Ha.
    assert (baddr V ip t = a) as Hbt.
    { rewrite /baddr (proj2 (Z.ltb_lt _ _)) //. change NDIRECT with 12. lia. }
    apply wp_bind. eapply fat_iptr; [done|by eapply lookup_upd|].
    apply wp_bind. eapply wp_deref; [by apply cleared_lookup|].
    destruct (a =? 0) eqn:E; breflect.
    + apply wp_ret. exists X1, V1. rewrite nz_S Hat decide_True //. split_and!; [|done|done].
      rewrite -cleared_same //. congruence.
    + cbn [idev cleared set_iaddrs]. rewrite (wf_dev _ _ Hwf). pose proof (logs_bm_size _ _ HX1).
      assert (data_used (sb:=sb) (ds:=ds) V a) as Hda.
      { rewrite -Hbt. apply Hwf; [change MAXFILE with 140; lia|congruence]. }
      apply wp_bind. eapply bfree_step_wp; [done|by intros ??|rewrite map_size_empty; lia|lia|done|done| |].
      { rewrite elem_of_nz. intros (_&k&Hk&Hak).
        assert (baddr V ip k = a) as Hbk.
        { rewrite /baddr (proj2 (Z.ltb_lt _ _)) //. change NDIRECT with 12. lia. }
        enough (Z.of_nat t = k) by lia.
        eapply (wf_inj _ _ Hwf); [change MAXFILE with 140; lia..|congruence|congruence]. }
      intros σ2 V2 HF2 Hfr2. eapply fat_iupd; [done|by eapply lookup_upd|]. intros σ3 HF3.
      exists ({[BBLOCK a sb]} ∪ X1), V2. rewrite list_insert_insert_eq (cleared_S _ _ _ Ha) in HF3.
      rewrite nz_S Hat decide_False //. split_and!; [done| |done].
      apply logs_bm_step; [done|]. destruct Hda. lia.
  - intros σ' (X'&V'&HF'&HX'&Hfr'). by eapply HQ.
Qed.

(** The entries of the indirect block. *)
Definition ent V ip (j : Z) : Z := ind_get (V (addr_of ip NDIRECT)) j.

Lemma ent_baddr V ip (j : nat) :
  addr_of ip NDIRECT ≠ 0 → baddr V ip (NDIRECT + j) = ent V ip j.
Proof.
  intros Hd. rewrite /baddr (proj2 (Z.ltb_ge _ _)); [lia|]. rewrite (proj2 (Z.eqb_neq _ _) Hd) /ent.
  f_equal. lia.
Qed.

(** The second loop of [itrunc], with the indirect block [d] held. *)
Lemma trunc_ind_wp X0 X V0 V F ic σ bp ip (Q : unit → kst (fstate B) → Prop) :
  let d := addr_of ip NDIRECT in
  Fat σ0 pid (<[bp := d]> ∅) X ∅ V ic sb σ → inode_wf (sb:=sb) (ds:=ds) V0 ip → d ≠ 0 →
  logs_bm X0 X → (base.size (X0 ∪ bm_blocks sb) < cap)%nat →
  freed (sb:=sb) F V0 V → (∀ j : nat, (j < 128)%nat → ent V0 ip j ≠ 0 → ent V0 ip j ∉ F) →
  (∀ σ' X' V', Fat σ0 pid (<[bp := d]> ∅) X' ∅ V' ic sb σ' → logs_bm X0 X' →
     freed (sb:=sb) (nz (ent V0 ip) 128 ∪ F) V0 V' → Q tt σ') →
  wp (for_each (seq 0 (Z.to_nat NINDIRECT)) (λ j,
        x ← b_data bp;
        if ind_get x j =? 0 then mret () else bfree ROOTDEV (ind_get x j))) Q σ.
Proof.
  intros d HF Hwf Hd HX Hc Hfr Hno HQ. destruct (wf_ind _ _ Hwf Hd) as [Hdr Hdu].
  apply (wp_for_seq _ _ (λ t σ', ∃ X' V', Fat σ0 pid (<[bp := d]> ∅) X' ∅ V' ic sb σ' ∧
    logs_bm X0 X' ∧ freed (sb:=sb) (nz (ent V0 ip) t ∪ F) V0 V')).
  - exists X, V. split_and!; [done|done|]. replace (nz (ent V0 ip) 0 ∪ F) with F; [done|].
    rewrite /nz /= union_empty_l_L //.
  - intros t σ1 Ht (X1&V1&HF1&HX1&Hfr1). change (Z.to_nat NINDIRECT) with 128%nat in Ht.
    apply wp_bind. eapply fat_data; [done|by apply lookup_insert_eq|].
    rewrite (freed_data Hfl _ _ _ d Hfr1); [fold d in Hdr; lia|]. change (ind_get (V0 d) t) with (ent V0 ip t).
    rewrite nz_S. destruct (ent V0 ip t =? 0) eqn:E; breflect.
    + apply wp_ret. exists X1, V1. by rewrite decide_True.
    + pose proof (logs_bm_size _ _ HX1). rewrite decide_False //.
      pose proof (ent_baddr V0 ip t Hd) as Hbt.
      assert (∀ k : nat, (k < 128)%nat → 0 ≤ NDIRECT + k < MAXFILE) as Hrng.
      { intros k Hk. change MAXFILE with 140. change NDIRECT with 12. lia. }
      assert (data_used (sb:=sb) (ds:=ds) V0 (ent V0 ip t)) as Hda.
      { rewrite -Hbt. apply Hwf; [by apply Hrng|congruence]. }
      eapply bfree_step_wp; [done| | |lia|done|done| |].
      { intros k c [[<- <-]|[_ [=]]]%lookup_insert_Some. fold d in Hdr. lia. }
      { rewrite map_size_insert_None // map_size_empty. lia. }
      { rewrite elem_of_union elem_of_nz. intros [(_&k&Hk&Hek)|Hin]; [|by eapply Hno].
        enough (NDIRECT + Z.of_nat t = NDIRECT + k) by lia.
        eapply (wf_inj _ _ Hwf); [by apply Hrng|apply Hrng; lia|congruence|].
        rewrite !ent_baddr //. }
      intros σ2 V2 HF2 Hfr2. exists ({[BBLOCK (ent V0 ip t) sb]} ∪ X1), V2.
      rewrite union_assoc_L in Hfr2. split_and!; [done| |done].
      apply logs_bm_step; [done|]. pose proof (fl_ds _ _ _ Hfl). destruct Hda. lia.
  - intros σ' (X'&V'&HF'&HX'&Hfr'). by eapply HQ.
Qed.

(** All blocks of a file. *)
Definition file_blocks V ip : gset Z :=
  if decide (addr_of ip NDIRECT = 0) then nz (addr_of ip) 12 else
  {[addr_of ip NDIRECT]} ∪ (nz (ent V ip) 128 ∪ nz (addr_of ip) 12).

Lemma elem_of_file_blocks V ip b : b ∈ file_blocks V ip ↔ owned V ip b.
Proof.
  assert (∀ k : nat, (k < 12)%nat → baddr V ip k = addr_of ip k) as Hdir.
  { intros k Hk. rewrite /baddr (proj2 (Z.ltb_lt _ _)) //. change NDIRECT with 12. lia. }
  rewrite /file_blocks /owned. case_decide as Hd.
  - rewrite elem_of_nz Hd. split.
    + intros (Hb&k&Hk&->). split; [done|]. right. exists k. rewrite Hdir //. split; [|done].
      change MAXFILE with 140. lia.
    + intros (Hb&[?|(bn&Hbn&->)]); [done|]. split; [done|].
      rewrite /baddr in Hb |- *. destruct (bn <? NDIRECT) eqn:E; [|by rewrite Hd in Hb]. breflect.
      exists (Z.to_nat bn). change NDIRECT with 12 in E. rewrite Z2Nat.id; [lia|]. split; [lia|done].
  - rewrite !elem_of_union elem_of_singleton !elem_of_nz. split.
    + intros [->|[(Hb&k&Hk&->)|(Hb&k&Hk&->)]]; [by split; [|left]| |]; (split; [done|]); right.
      * exists (NDIRECT + k). rewrite ent_baddr //. split; [|done].
        change MAXFILE with 140. change NDIRECT with 12. lia.
      * exists k. rewrite Hdir //. split; [|done]. change MAXFILE with 140. lia.
    + intros (Hb&[->|(bn&Hbn&->)]); [by left|right]. change MAXFILE with 140 in Hbn.
      destruct (decide (bn < 12)); [right|left]; (split; [done|]).
      * exists (Z.to_nat bn). rewrite Z2Nat.id; [lia|]. split; [lia|].
        rewrite /baddr (proj2 (Z.ltb_lt _ _)) //.
      * exists (Z.to_nat (bn - 12)). split; [lia|]. rewrite -ent_baddr //. f_equal.
        change NDIRECT with 12. lia.
Qed.

Definition truncated ip : inode := set_isize 0 (set_iaddrs (replicate 13 0) ip).

Lemma cleared_all ip : length (iaddrs ip) = 13%nat → set_isize 0 (cleared ip 13) = truncated ip.
Proof. intros Hl. rewrite /cleared /truncated drop_ge; [lia|]. by rewrite app_nil_r. Qed.

Lemma truncated_rng ip : dinode_rng (to_dinode ip) → dinode_rng (to_dinode (truncated ip)).
Proof.
  intros []. split; simpl; try done. apply (Forall_replicate _ 13). rewrite /is_u32. lia.
Qed.

(** [itrunc] after the two loops. *)
Lemma trunc_end_wp X0 X V0 V ic σ i ip Q :
  Fat σ0 pid ∅ X ∅ V (<[i := cleared ip 13]> ic) sb σ → is_Some (ic !! i) → idev ip = ROOTDEV →
  length (iaddrs ip) = 13%nat → 0 < inum ip < sb_ninodes sb → dinode_rng (to_dinode ip) →
  logs_bm X0 X → (base.size (X0 ∪ bm_blocks sb) < cap)%nat →
  freed (sb:=sb) (file_blocks V0 ip) V0 V →
  (∀ σ' X' V1, freed (sb:=sb) (file_blocks V0 ip) V0 V1 →
     X' ⊆ {[IBLOCK (inum ip) sb]} ∪ X0 ∪ bm_blocks sb →
     Fat σ0 pid ∅ X' ∅ (put_dinode V1 sb (inum ip) (to_dinode (truncated ip)))
       (<[i := truncated ip]> ic) sb σ' → Q tt σ') →
  wp (iupd i (set_isize 0);; iupdate i) Q σ.
Proof.
  intros HF [x Hx] Hdev Hl Hnum Hrng HX Hc Hfr HQ. apply wp_bind.
  eapply fat_iupd; [done|by eapply lookup_upd|]. intros σ1 HF1.
  rewrite list_insert_insert_eq cleared_all // in HF1. pose proof (logs_bm_size _ _ HX).
  eapply (iupdate_wp _ _ Hfl Hcap); [exact HF1|by eapply lookup_upd|done|done|by apply truncated_rng|lia|].
  intros σ2 HF2. eapply HQ; [done| |exact HF2]. rewrite /logs_bm in HX. set_solver.
Qed.

Lemma itrunc_wp X V ic σ i ip Q :
  Fat σ0 pid ∅ X ∅ V ic sb σ → ic !! i = Some ip → inode_wf (sb:=sb) (ds:=ds) V ip →
  0 < inum ip < sb_ninodes sb → dinode_rng (to_dinode ip) →
  (base.size (X ∪ bm_blocks sb) < cap)%nat →
  (∀ σ' X' V1, freed (sb:=sb) (file_blocks V ip) V V1 →
     X' ⊆ {[IBLOCK (inum ip) sb]} ∪ X ∪ bm_blocks sb →
     Fat σ0 pid ∅ X' ∅ (put_dinode V1 sb (inum ip) (to_dinode (truncated ip)))
       (<[i := truncated ip]> ic) sb σ' → Q tt σ') →
  wp (itrunc i) Q σ.
Proof.
  intros HF Hi Hwf Hnum Hrng Hc HQ. pose proof (wf_dev _ _ Hwf) as Hdev.
  pose proof (wf_len _ _ Hwf) as Hl. rewrite /itrunc. apply wp_bind.
  eapply trunc_direct_wp; [done|done|done| |done|]; [rewrite /logs_bm; set_solver|].
  intros σ1 X1 V1 HF1 HX1 Hfr1. set (d := addr_of ip NDIRECT).
  destruct (lookup_lt_is_Some_2 (iaddrs ip) 12) as [d' Hd']; [lia|].
  assert (d' = d) as -> by by rewrite /d /addr_of /= Hd'.
  apply wp_bind. eapply fat_iptr; [done|by eapply lookup_upd|].
  apply wp_bind. eapply wp_deref; [by apply cleared_lookup|].
  cbn [idev cleared set_iaddrs]. rewrite Hdev. apply wp_bind.
  destruct (d =? 0) eqn:E; breflect.
  { apply wp_ret. eapply (trunc_end_wp X _ V V1); [| |done|done|done|done|done|done| |].
    - rewrite -cleared_same //. congruence.
    - by eexists.
    - by rewrite /file_blocks decide_True.
    - done. }
  destruct (wf_ind _ _ Hwf E) as [Hdr Hdu]. fold d in Hdr, Hdu. pose proof (logs_bm_size _ _ HX1).
  apply wp_bind. eapply fat_read; [exact HF1|by apply Hfl|intros j; by rewrite lookup_empty| |].
  { rewrite map_size_empty. lia. }
  intros bp σ2 Hbp HF2. apply wp_bind.
  eapply (trunc_ind_wp X _ V V1 (nz (addr_of ip) 12)); [exact HF2|done|done|done|done|done| |].
  { intros j Hj Hj0. rewrite elem_of_nz. intros (_&k&Hk&He).
    pose proof (ent_baddr V ip j E) as Hbj.
    assert (baddr V ip k = addr_of ip k) as Hbk.
    { rewrite /baddr (proj2 (Z.ltb_lt _ _)) //. change NDIRECT with 12. lia. }
    enough (NDIRECT + Z.of_nat j = k) by (change NDIRECT with 12 in *; lia).
    eapply (wf_inj _ _ Hwf); [change MAXFILE with 140; change NDIRECT with 12; lia..|congruence|congruence]. }
  intros σ3 X3 V3 HF3 HX3 Hfr3. pose proof (logs_bm_size _ _ HX3).
  apply wp_bind. eapply fat_rel; [done|by apply lookup_insert_eq|set_solver|]. intros σ4 HF4.
  rewrite delete_insert_id // in HF4.
  apply wp_bind. eapply bfree_step_wp; [exact HF4|by intros ??|rewrite map_size_empty; lia|lia|exact Hfr3|done| |].
  { rewrite elem_of_union !elem_of_nz. intros [(_&k&Hk&He)|(_&k&Hk&He)].
    - eapply (wf_ind_ne _ _ Hwf (NDIRECT + k)); rewrite ?ent_baddr -?He //.
      change MAXFILE with 140. change NDIRECT with 12. lia.
    - assert (baddr V ip k = d) as Hbk.
      { rewrite /baddr (proj2 (Z.ltb_lt _ _)) //. change NDIRECT with 12. lia. }
      eapply (wf_ind_ne _ _ Hwf k); rewrite ?Hbk //. change MAXFILE with 140. lia. }
  intros σ5 V5 HF5 Hfr5. eapply fat_iupd; [done|by eapply lookup_upd|]. intros σ6 HF6.
  rewrite list_insert_insert_eq in HF6.
  eapply (trunc_end_wp X _ V V5); [|by eexists|done|done|done|done| |done| |done].
  - change (Z.to_nat NDIRECT) with 12%nat in HF6. by rewrite (cleared_S _ _ _ Hd') in HF6.
  - apply logs_bm_step; [done|]. pose proof (fl_ds _ _ _ Hfl). lia.
  - by rewrite /file_blocks decide_False.
Qed.

(** The inode on disk after it was freed. *)
Definition dead_dinode ip : dinode := to_dinode (set_itype 0 (truncated ip)).

Lemma dead_rng ip : dinode_rng (to_dinode ip) → dinode_rng (dead_dinode ip).
Proof. intros Hr%truncated_rng. by destruct Hr. Qed.

(** What is left of an inode whose last reference is dropped. *)
Definition dropped ip : inode :=
  set_iref 0 (set_ilk (Sleeplock 0 0) (set_ivalid 0 (set_itype 0 (truncated ip)))).

(** Freeing blocks does not touch inode blocks. *)
Lemma freed_inode V V1 ip F :
  freed (sb:=sb) F V V1 → 0 < inum ip < sb_ninodes sb → V1 (IBLOCK (inum ip) sb) = V (IBLOCK (inum ip) sb).
Proof.
  intros Hfr Hnum. destruct (fl_inode _ _ _ Hfl _ Hnum) as (_&_&_&Hbb). by apply (fr_rest _ _ _ Hfr).
Qed.

(** [iput] of the last reference to an unlinked inode frees its blocks and the
    inode. *)
Lemma iput_free_wp X V ic σ i ip Q :
  Fat σ0 pid ∅ X ∅ V ic sb σ → ic !! i = Some ip → slocked (ilk ip) = 0 →
  ivalid ip ≠ 0 → inlink ip = 0 → iref ip = 1 → inode_wf (sb:=sb) (ds:=ds) V ip →
  0 < inum ip < sb_ninodes sb → dinode_rng (to_dinode ip) →
  (base.size ({[IBLOCK (inum ip) sb]} ∪ X ∪ bm_blocks sb) < cap)%nat →
  (∀ σ' X' V1 V2, freed (sb:=sb) (file_blocks V ip) V V1 →
     (∀ b, b ≠ IBLOCK (inum ip) sb → V2 b = V1 b) →
     dinode_on V2 sb (inum ip) = dead_dinode ip →
     (∀ num, 0 < num < sb_ninodes sb → num ≠ inum ip → dinode_on V2 sb num = dinode_on V sb num) →
     Fat σ0 pid ∅ X' ∅ V2 (<[i := dropped ip]> ic) sb σ' → Q tt σ') →
  wp (iput i) Q σ.
Proof.
  intros HF Hi Hlk Hval Hnl Href Hwf Hnum Hrng Hc HQ. rewrite /iput.
  apply wp_bind. eapply fat_acquire; [done..|]. intros σ1 HF1. set (ip1 := set_ilk _ ip) in *.
  apply wp_bind. eapply fat_iptr; [done|by eapply lookup_upd|]. cbn [ivalid inlink set_ilk ip1].
  rewrite (proj2 (Z.eqb_neq _ _) Hval) Hnl /=. apply wp_bind.
  destruct σ1 as [c L w s]. pose proof (fat_quiet _ _ _ _ _ _ _ _ HF1) as (Hcp&HL&Hp).
  simpl in HL, Hcp. subst L. pose proof (fa_ic _ _ _ _ _ _ _ _ _ HF1) as Hic. simpl in Hic.
  kstep. rewrite /iptr. kstep. rewrite Hic. eapply wp_deref; [by eapply lookup_upd|].
  cbn [iref set_ilk ip1]. apply wp_bind, wp_release_last; [done|done|]. rewrite Href /=.
  apply wp_bind. eapply (itrunc_wp X V _ _ i ip1); [exact HF1|by eapply lookup_upd|by destruct Hwf|done|done| |].
  { eapply Nat.le_lt_trans; [apply subseteq_size|exact Hc]. set_solver. }
  intros σ2 X2 V1 Hfr HX2 HF2. rewrite list_insert_insert_eq in HF2.
  apply wp_bind. eapply fat_iupd; [done|by eapply lookup_upd|]. intros σ3 HF3.
  rewrite list_insert_insert_eq in HF3.
  apply wp_bind. eapply (iupdate_wp _ _ Hfl Hcap);
    [exact HF3|by eapply lookup_upd|apply Hwf|done|by apply (dead_rng ip1)| |].
  { eapply Nat.le_lt_trans; [apply subseteq_size; exact HX2|exact Hc]. }
  intros σ4 HF4. eapply fat_iupd; [done|by eapply lookup_upd|]. intros σ5 HF5.
  rewrite list_insert_insert_eq in HF5.
  apply wp_bind. eapply fat_release; [done|by eapply lookup_upd|]. intros σ6 HF6.
  rewrite list_insert_insert_eq in HF6. clear Hcp Hic Hp.
  destruct σ6 as [c6 L w6 s6]. pose proof (fat_quiet _ _ _ _ _ _ _ _ HF6) as (Hcp&HL&Hp).
  simpl in HL, Hcp. subst L. pose proof (fa_ic _ _ _ _ _ _ _ _ _ HF6) as Hic. simpl in Hic.
  kstep. apply wp_bind. eapply wp_iupd_locked; [rewrite Hic; by eapply lookup_upd|].
  apply wp_release_last; [done|done|]. rewrite Hic list_insert_insert_eq.
  cbn [iref set_ilk set_ivalid set_itype truncated set_isize set_iaddrs ip1]. rewrite Href.
  assert (∀ b, block_ok (V1 b)) as Hok1.
  { intros b. destruct (decide (b = IBLOCK (inum ip) sb)) as [->|Hb].
    - rewrite (freed_inode V V1 ip _ Hfr) //. by eapply fat_block_ok.
    - pose proof (fat_block_ok _ _ _ _ _ _ _ _ _ b HF2) as Hb2. by rewrite /put_dinode upd_ne in Hb2. }
  assert (∀ b, block_ok (put_dinode V1 sb (inum ip1) (to_dinode (truncated ip1)) b)) as Hok2.
  { intros b. by eapply fat_block_ok. }
  eapply HQ; [exact Hfr| | | |].
  4:{ eapply fat_icache; [exact HF6|done]. }
  - intros b Hb. by rewrite /put_dinode !upd_ne.
  - apply put_dinode_same; [done|]. by apply (dead_rng ip1).
  - intros num Hn Hne. rewrite (put_dinode_other Hfl) //; [by apply (dead_rng ip1)|].
    rewrite (put_dinode_other Hfl) //; [by apply truncated_rng|].
    rewrite /dinode_on. f_equal. f_equal. destruct (fl_inode _ _ _ Hfl num Hn) as (_&_&_&Hbb).
    by apply (fr_rest _ _ _ Hfr).
Qed.
End Trunc.
