(* ===== verification/FsDir.v ===== *)
(** * Directories: correctness of [dirlookup] and [dirlink]

    A directory is a file whose contents are a list of entries; [dents] is that
    list.  [dirlookup] is [list_find] over it and [dirlink] fills the first
    free entry, so that a lookup of the new name finds the new inode and every
    other lookup gives what it gave before. *)

From S2P Require Import Prelude CInt CString Kernel Params Sleeplock Bio BioSpec Cache Log LogSpec BlockIO Fs FsBlock FsFile FsInode FsRw FsCache.

(** ** Entries *)

(** The entry [de] is in use and carries [name], as [namecmp] compares them. *)
Definition named (name de : list Z) : Prop :=
  de_inum de ≠ 0 ∧ cprefix DIRSIZ name = cprefix DIRSIZ (de_name de).

#[global] Instance named_dec name de : Decision (named name de).
Proof. rewrite /named. apply _. Defined.

Definition dent (V : Z → block) (ip : inode) (k : nat) : list Z :=
  fread V ip (k * DIRENT_SIZE) DIRENT_SIZE.

(** The entries of a directory. *)
Definition dents (V : Z → block) (ip : inode) : list (list Z) :=
  dent V ip <$> seq 0 (Z.to_nat (isize ip / DIRENT_SIZE)).

(** The entry [dirlink] writes. *)
Definition new_dent (name : list Z) (num : Z) : list Z :=
  le_bytes 2 (u16 num) ++ strncpy_bytes name DIRSIZ.

Lemma length_dents V ip : length (dents V ip) = Z.to_nat (isize ip / DIRENT_SIZE).
Proof. by rewrite length_fmap length_seq. Qed.

Lemma lookup_dents V ip k de :
  dents V ip !! k = Some de → (k < length (dents V ip))%nat ∧ de = dent V ip k.
Proof.
  rewrite length_dents list_lookup_fmap. intros (x&[-> Hk]%lookup_seq&->)%fmap_Some. done.
Qed.

Lemma lookup_dents_lt V ip k :
  (k < Z.to_nat (isize ip / DIRENT_SIZE))%nat → dents V ip !! k = Some (dent V ip k).
Proof. intros Hk. by rewrite list_lookup_fmap lookup_seq_lt. Qed.

Lemma length_dent V ip k : length (dent V ip k) = 16%nat.
Proof. by rewrite length_fread. Qed.

Lemma length_new_dent name num : length (new_dent name num) = 16%nat.
Proof. by rewrite length_app length_le_bytes length_strncpy_bytes. Qed.

Lemma new_dent_inum name num : 0 ≤ num < 2 ^ 16 → de_inum (new_dent name num) = num.
Proof.
  intros Hn. rewrite /de_inum /new_dent slice_app_l ?length_le_bytes //.
  rewrite slice_all ?length_le_bytes // le_val_bytes /u16 (Z.mod_small num); [done|].
  by apply Z.mod_small.
Qed.

Lemma new_dent_name name num : de_name (new_dent name num) = strncpy_bytes name DIRSIZ.
Proof.
  rewrite /de_name /new_dent slice_app_r ?length_le_bytes //.
  by rewrite slice_all ?length_strncpy_bytes.
Qed.

(** The new entry carries the new name and no other. *)
Lemma named_new name num n :
  0 < num < 2 ^ 16 → named n (new_dent name num) ↔ cprefix DIRSIZ n = cprefix DIRSIZ name.
Proof.
  intros Hn. rewrite /named new_dent_name cprefix_strncpy new_dent_inum; [lia|].
  split; [by intros []|split; [lia|done]].
Qed.

Lemma free_not_named name de : de_inum de = 0 → ¬ named name de.
Proof. by intros ? []. Qed.

(** ** Lookups in a list of entries after an update *)

Lemma find_insert_hit {A} (P : A → Prop) `{∀ x, Decision (P x)} l k x y :
  list_find P l = None → l !! k = Some y → P x → list_find P (<[k := x]> l) = Some (k, x).
Proof.
  intros Hno%list_find_None Hk Hx. pose proof (lookup_lt_Some _ _ _ Hk).
  apply list_find_Some. split_and!; [by apply list_lookup_insert_eq|done|].
  intros j z Hj Hjk. rewrite list_lookup_insert_ne in Hj; [lia|].
  rewrite Forall_forall in Hno. apply Hno. by eapply list_elem_of_lookup_2.
Qed.

Lemma find_insert_miss {A} (P : A → Prop) `{∀ x, Decision (P x)} l k x y :
  l !! k = Some y → ¬ P y → ¬ P x → list_find P (<[k := x]> l) = list_find P l.
Proof.
  revert k. induction l as [|a l IH]; intros [|k] Hk Hy Hx; try done; simpl in *.
  - injection Hk as ->. by rewrite !decide_False.
  - case_decide; [done|]. by rewrite (IH k).
Qed.

(** The entry [dirlink] takes, and the directory after it wrote entry [k]. *)
Definition dir_slot (l : list (list Z)) : nat :=
  match list_find (λ de, de_inum de = 0) l with Some (k, _) => k | None => length l end.

Definition dir_put (k : nat) (de : list Z) (l : list (list Z)) : list (list Z) :=
  if decide (k < length l)%nat then <[k := de]> l else l ++ [de].

Lemma dir_slot_le l : (dir_slot l ≤ length l)%nat.
Proof.
  rewrite /dir_slot. destruct (list_find _ l) as [[k de]|] eqn:E; [|done].
  apply list_find_Some in E as (E%lookup_lt_Some&_). lia.
Qed.

(** After linking [name], its lookup finds the new entry... *)
Lemma dir_put_find name num l :
  0 < num < 2 ^ 16 → list_find (named name) l = None →
  list_find (named name) (dir_put (dir_slot l) (new_dent name num) l) =
    Some (dir_slot l, new_dent name num).
Proof.
  intros Hn Hno. assert (named name (new_dent name num)) as Hnew by by apply named_new.
  rewrite /dir_put. case_decide as Hd.
  - destruct (lookup_lt_is_Some_2 _ _ Hd) as [y Hy]. by eapply find_insert_hit.
  - assert (dir_slot l = length l) as -> by (pose proof (dir_slot_le l); lia).
    apply list_find_Some. split_and!; [by rewrite lookup_app_r ?Nat.sub_diag|done|].
    intros j y Hj Hlt. rewrite lookup_app_l // in Hj. apply list_find_None in Hno.
    rewrite Forall_forall in Hno. apply Hno. by eapply list_elem_of_lookup_2.
Qed.

(** ... and the lookup of any other name gives what it gave before. *)
Lemma dir_put_other name num n l :
  0 < num < 2 ^ 16 → cprefix DIRSIZ n ≠ cprefix DIRSIZ name →
  list_find (named n) (dir_put (dir_slot l) (new_dent name num) l) = list_find (named n) l.
Proof.
  intros Hn Hne. assert (¬ named n (new_dent name num)) as Hnew by by rewrite named_new.
  rewrite /dir_put. case_decide as Hd.
  - revert Hd. rewrite /dir_slot. destruct (list_find _ l) as [[k de]|] eqn:E; [|lia]. intros _.
    apply list_find_Some in E as (Hk&H0&_). eapply find_insert_miss; [done| |done].
    by apply free_not_named.
  - destruct (list_find (named n) l) as [[k de]|] eqn:E; [by apply list_find_app_l|].
    apply list_find_None. apply list_find_None in E. apply Forall_app. by rewrite Forall_singleton.
Qed.

Lemma cprefix_bytes n l : Forall is_byte l → Forall is_byte (cprefix n l).
Proof.
  intros Hl. revert n. induction Hl as [|a l Ha Hl IH]; intros [|n]; simpl; try constructor.
  destruct (a =? 0); [constructor|]. by constructor.
Qed.

Lemma new_dent_bytes name num : Forall is_byte name → Forall is_byte (new_dent name num).
Proof.
  intros Hn. apply Forall_app. split; [auto with xv6|]. apply Forall_app.
  split; [by apply cprefix_bytes|]. by apply Forall_replicate.
Qed.

(** An entry lies in one block. *)
Lemma nchunks_dirent (k : nat) : nchunks (k * DIRENT_SIZE) DIRENT_SIZE = 1.
Proof.
  rewrite /nchunks. replace (DIRENT_SIZE =? 0) with false by done.
  assert ((k * DIRENT_SIZE + DIRENT_SIZE - 1) / BSIZE = k * DIRENT_SIZE / BSIZE) as ->; [|lia].
  unfold DIRENT_SIZE, BSIZE. Z.div_mod_to_equations. lia.
Qed.

(** ** Routines *)

Section Dir.
Context {B : Type} `{!BlockIO B} {home : Z → Prop} {cap : nat} `{!BlockIOSpec B home cap}.
Context {S0 : Type} (σ0 : kst S0) (pid : Z) {sb : superblock} {ds : Z}.
Context (Hfl : fs_layout home sb ds) (Hcap : (cap < NBUF)%nat).
Context (devsw : Z → devops (fstate B)).
Implicit Types (X : gset Z) (V : Z → block) (ic : list inode) (ip : inode).

Notation at_rest X V ic := (Fat σ0 pid ∅ X ∅ V ic sb).

(** A directory: a file that holds a whole number of entries. *)
Record dir_ok V ip : Prop := {
  do_file : file_ok (sb:=sb) (ds:=ds) V ip;
  do_type : itype ip = T_DIR;
  do_size : isize ip mod DIRENT_SIZE = 0
}.

Lemma dir_offs_size V ip : dir_ok V ip →
  dir_offs (isize ip) = (λ k : nat, k * DIRENT_SIZE) <$> seq 0 (Z.to_nat (isize ip / DIRENT_SIZE)).
Proof.
  intros [_ _ Hm]. rewrite /dir_offs. do 2 f_equal.
  pose proof (Z.div_mod (isize ip) DIRENT_SIZE ltac:(done)) as Hd. rewrite Hm Z.add_0_r in Hd.
  f_equal. symmetry. apply (Z.div_unique _ _ _ (DIRENT_SIZE - 1)); [left; done|].
  rewrite {1}Hd. lia.
Qed.

Lemma read_dirent_wp X V ic i ip (k : nat) msg σ Q :
  at_rest X V ic σ → ic !! i = Some ip → dir_ok V ip → meta_used V sb ds →
  (base.size X < NBUF)%nat → (k < Z.to_nat (isize ip / DIRENT_SIZE))%nat →
  (∀ σ', at_rest X V ic σ' → Q (dent V ip k) σ') →
  wp (read_dirent devsw i (k * DIRENT_SIZE) msg) Q σ.
Proof.
  intros HF Hi [Hfo Hty Hm] Hmu HX Hk HQ. rewrite /read_dirent.
  pose proof (fo_size _ _ Hfo) as Hs. assert (MAXFILE * BSIZE < 2 ^ 31) as Hmax by done.
  pose proof (Z.mul_div_le (isize ip) DIRENT_SIZE ltac:(done)) as Hd.
  assert (k * DIRENT_SIZE + DIRENT_SIZE ≤ isize ip) as Hin by (unfold DIRENT_SIZE in *; lia).
  assert (DIRENT_SIZE = 16) as HD by done.
  apply wp_bind. eapply (readi_wp σ0 pid Hfl); [done..| | | | |lia|].
  { by rewrite Hty. } { unfold DIRENT_SIZE in *; lia. } { done. } { lia. }
  intros σ' HF'. cbv zeta beta. rewrite Z.min_l; [lia|]. rewrite Z.eqb_refl. by apply wp_ret, HQ.
Qed.

Lemma dent_cstr V ip k : cstr_ok DIRSIZ (de_name (dent V ip k)).
Proof. left. rewrite /de_name length_slice ?length_dent //. Qed.

(** [dirlookup] finds the first entry in use that carries the name, and
    returns a handle on its inode and its offset. *)
Lemma dirlookup_wp X V ic i ip name σ Q :
  at_rest X V ic σ → ic !! i = Some ip → dir_ok V ip → meta_used V sb ds →
  (base.size X < NBUF)%nat → cstr_ok DIRSIZ name →
  (∀ k de, list_find (named name) (dents V ip) = Some (k, de) →
     ∃ j jp, ic !! j = Some jp ∧ (in_use (idev ip) (de_inum de) jp ∨ iref jp = 0)) →
  (∀ σ', list_find (named name) (dents V ip) = None → at_rest X V ic σ' → Q None σ') →
  (∀ (k : nat) de j ic' σ', list_find (named name) (dents V ip) = Some (k, de) →
     got (idev ip) (de_inum de) ic j ic' → at_rest X V ic' σ' → Q (Some (j, k * DIRENT_SIZE)) σ') →
  wp (dirlookup devsw i name) Q σ.
Proof.
  intros HF Hi Hd Hmu HX Hn Hroom HQ0 HQ1. rewrite /dirlookup. apply wp_bind.
  eapply fat_iptr; [done|done|]. rewrite (do_type _ _ Hd) /= (dir_offs_size V ip Hd).
  apply (wp_find_seq _ _ _ (λ t σ', at_rest X V ic σ' ∧ ∀ k : nat, (k < t)%nat → ¬ named name (dent V ip k))).
  - split; [done|lia].
  - intros t σ' Ht [HF' Hno].
    assert (list_find (named name) (dents V ip) = Some (t, dent V ip t) ∨
            ¬ named name (dent V ip t)) as Hcase.
    { destruct (decide (named name (dent V ip t))) as [Hy|]; [left|by right].
      apply list_find_Some. split_and!; [by apply lookup_dents_lt|done|].
      intros j y [_ ->]%lookup_dents Hj. by apply Hno. }
    apply wp_bind. eapply read_dirent_wp; [done..|]. intros σ1 HF1.
    destruct (de_inum _ =? 0) eqn:E0; breflect.
    { apply wp_ret. split; [done|]. intros k Hk. destruct (decide (k = t)) as [->|]; [|apply Hno; lia].
      by apply free_not_named. }
    apply wp_bind. rewrite /namecmp.
    destruct (strncmp_total name (de_name (dent V ip t)) DIRSIZ) as (r&Hr&Hiff);
      [done|apply dent_cstr|]. eapply wp_deref; [done|].
    destruct (r =? 0) eqn:Er; breflect.
    + assert (named name (dent V ip t)) as Hy by (split; [done|by apply Hiff]).
      destruct Hcase as [Hf|]; [|done].
      apply wp_bind. eapply iget_wp; [exact HF1|by eapply Hroom|]. intros j ic' σ2 Hg HF2.
      apply wp_ret. by eapply HQ1.
    + apply wp_ret. split; [done|]. intros k Hk. destruct (decide (k = t)) as [->|]; [|apply Hno; lia].
      intros [_ Heq]. by apply Er, Hiff.
  - intros σ' [HF' Hno]. apply HQ0; [|done]. apply list_find_None, Forall_forall.
    intros de (k&[Hk ->]%lookup_dents)%list_elem_of_lookup. apply Hno. by rewrite length_dents in Hk.
Qed.

(** [dirlookup] in something that is not a directory. *)
Lemma dirlookup_not_dir X V ic i ip name σ :
  at_rest X V ic σ → ic !! i = Some ip → itype ip ≠ T_DIR →
  dirlookup devsw i name σ = Panic "dirlookup not DIR" σ.
Proof.
  intros HF Hi Hty. rewrite /dirlookup /iptr /mbind /K_bind /gets (fa_ic _ _ _ _ _ _ _ _ _ HF) Hi /=.
  by rewrite (proj2 (Z.eqb_neq _ _) Hty).
Qed.

(** The entries of a directory after one was written. *)
Lemma dents_written V ip (k : nat) s V' ip' :
  dir_ok V ip → file_written (sb:=sb) (ds:=ds) (k * DIRENT_SIZE) s V ip V' ip' → length s = 16%nat →
  (k ≤ length (dents V ip))%nat → dents V' ip' = dir_put k s (dents V ip).
Proof.
  intros [Hfo Hty Hm] Hw Hls Hk. rewrite length_dents in Hk. pose proof (fo_size _ _ Hfo) as [Hs0 _].
  pose proof (fw_size _ _ _ _ _ _ Hw) as Hsz. rewrite Hls in Hsz.
  assert (∃ n : nat, isize ip = n * DIRENT_SIZE) as [n Hn].
  { exists (Z.to_nat (isize ip / DIRENT_SIZE)). unfold DIRENT_SIZE in *. Z.div_mod_to_equations. lia. }
  assert (isize ip / DIRENT_SIZE = n) as Hdiv by (rewrite Hn Z.div_mul //).
  rewrite Hdiv Nat2Z.id in Hk.
  assert (isize ip' = (n `max` (k + 1))%nat * DIRENT_SIZE) as Hn'.
  { rewrite Hsz Hn. unfold DIRENT_SIZE. lia. }
  assert (∀ j : nat, (j < n `max` (k + 1))%nat →
    dent V' ip' j = if decide (j = k) then s else dent V ip j) as Hd.
  { intros j Hj. apply list_eq. intros o. destruct (decide (o < 16)%nat) as [Ho|Ho].
    2:{ rewrite !lookup_ge_None_2 //; try case_decide; rewrite ?length_dent; lia. }
    assert (dent V' ip' j !! o = Some (default 0 (fbyte V' ip' (j * DIRENT_SIZE + o)))) as ->.
    { rewrite list_lookup_fmap lookup_seq_lt //. }
    rewrite (fw_bytes _ _ _ _ _ _ Hw); [rewrite Hn'; unfold DIRENT_SIZE; lia|]. rewrite Hls.
    destruct (decide (j = k)) as [->|Hne].
    - case_decide as Hin; [|unfold DIRENT_SIZE in Hin; lia].
      replace (Z.to_nat _) with o by lia.
      destruct (lookup_lt_is_Some_2 s o) as [y Hy]; [lia|]. by rewrite Hy.
    - case_decide as Hin; [unfold DIRENT_SIZE in Hin; lia|].
      by rewrite list_lookup_fmap lookup_seq_lt. }
  apply list_eq. intros j. destruct (decide (j < n `max` (k + 1))%nat) as [Hj|Hj].
  - rewrite lookup_dents_lt; [rewrite Hn' Z.div_mul // Nat2Z.id //|]. rewrite Hd // /dir_put.
    rewrite length_dents Hdiv Nat2Z.id.
    destruct (decide (k < n)%nat), (decide (j = k)) as [->|Hne].
    + rewrite list_lookup_insert_eq // length_dents Hdiv. lia.
    + rewrite list_lookup_insert_ne // lookup_dents_lt // Hdiv. lia.
    + rewrite lookup_app_r length_dents Hdiv; [lia|]. by replace (k - _)%nat with 0%nat by lia.
    + rewrite lookup_app_l ?length_dents ?Hdiv; [lia|]. rewrite lookup_dents_lt // Hdiv. lia.
  - assert (length (dir_put k s (dents V ip)) = n `max` (k + 1))%nat as Hlp.
    { rewrite /dir_put length_dents Hdiv Nat2Z.id. case_decide.
      - rewrite length_insert length_dents Hdiv. lia.
      - rewrite length_app length_dents Hdiv /=. lia. }
    rewrite !lookup_ge_None_2 ?Hlp ?length_dents ?Hn' ?Z.div_mul //; lia.
Qed.

(** The scan of [dirlink] for a free entry. *)
Lemma dirlink_scan_wp X V ic i ip σ Q :
  at_rest X V ic σ → ic !! i = Some ip → dir_ok V ip → meta_used V sb ds →
  (base.size X < NBUF)%nat →
  (∀ r σ', default (isize ip) r = dir_slot (dents V ip) * DIRENT_SIZE → at_rest X V ic σ' → Q r σ') →
  wp (for_find (dir_offs (isize ip)) (λ off, de ← read_dirent devsw i off "dirlink read";
        mret (if de_inum de =? 0 then Some off else None))) Q σ.
Proof.
  intros HF Hi Hd Hmu HX HQ. rewrite (dir_offs_size V ip Hd).
  apply (wp_find_seq _ _ _ (λ t σ', at_rest X V ic σ' ∧ ∀ k : nat, (k < t)%nat → de_inum (dent V ip k) ≠ 0)).
  - split; [done|lia].
  - intros t σ' Ht [HF' Hno]. apply wp_bind. eapply read_dirent_wp; [done..|]. intros σ1 HF1.
    apply wp_ret. destruct (de_inum _ =? 0) eqn:E0; breflect.
    + apply HQ; [|done]. rewrite /dir_slot.
      rewrite (_ : list_find _ _ = Some (t, dent V ip t)) //. apply list_find_Some.
      split_and!; [by apply lookup_dents_lt|done|]. intros j y [_ ->]%lookup_dents Hj. by apply Hno.
    + split; [done|]. intros k Hk. destruct (decide (k = t)) as [->|]; [done|apply Hno; lia].
  - intros σ' [HF' Hno]. apply HQ; [|done]. simpl. rewrite /dir_slot.
    rewrite (_ : list_find _ _ = None).
    { apply list_find_None, Forall_forall. intros de (k&[Hk ->]%lookup_dents)%list_elem_of_lookup.
      apply Hno. by rewrite length_dents in Hk. }
    rewrite length_dents. pose proof (do_size _ _ Hd). pose proof (fo_size _ _ (do_file _ _ Hd)) as [? _].
    unfold DIRENT_SIZE in *. Z.div_mod_to_equations. lia.
Qed.

(** [dirlink] of a new name. *)
Lemma dirlink_new_wp X V ic i ip name num σ Q :
  at_rest X V ic σ → ic !! i = Some ip → dir_ok V ip → inode_inv (sb:=sb) (ds:=ds) V ip →
  meta_used V sb ds → cstr_ok DIRSIZ name → Forall is_byte name → 0 < num < 2 ^ 16 →
  list_find (named name) (dents V ip) = None →
  (dir_slot (dents V ip) + 1) * DIRENT_SIZE ≤ MAXFILE * BSIZE →
  base.size X + 6 ≤ cap → 2 ≤ base.size (free_set (sb:=sb) V) →
  (∀ X' V' ip' σ',
     file_written (sb:=sb) (ds:=ds) (dir_slot (dents V ip) * DIRENT_SIZE) (new_dent name num) V ip V' ip' →
     dents V' ip' = dir_put (dir_slot (dents V ip)) (new_dent name num) (dents V ip) →
     base.size X' ≤ base.size X + 6 →
     at_rest X' V' (<[i := ip']> ic) σ' → Q 0 σ') →
  wp (dirlink devsw i name num) Q σ.
Proof.
  intros HF Hi Hd Hinv Hmu Hn Hb Hnum Hno Hlim HX Hfree HQ. rewrite /dirlink.
  assert (base.size X < NBUF)%nat as HX' by lia.
  pose proof (length_new_dent name num) as Hln. pose proof (dir_slot_le (dents V ip)) as Hsl.
  set (k := dir_slot (dents V ip)) in *. set (nd := new_dent name num) in *.
  assert (DIRENT_SIZE = 16) as HD by done.
  assert (k * DIRENT_SIZE ≤ isize ip) as Hks.
  { rewrite length_dents in Hsl. pose proof (fo_size _ _ (do_file _ _ Hd)) as [? _].
    pose proof (Z.mul_div_le (isize ip) DIRENT_SIZE ltac:(done)). unfold DIRENT_SIZE in *. lia. }
  apply wp_bind. eapply dirlookup_wp; [exact HF|done..| | |].
  { intros ?? Hf. by rewrite Hno in Hf. } 2:{ intros ????? Hf. by rewrite Hno in Hf. }
  intros σ1 _ HF1. apply wp_bind. eapply fat_iptr; [done|done|].
  apply wp_bind. eapply dirlink_scan_wp; [done..|]. intros r σ2 Hr HF2. cbv zeta.
  rewrite (_ : default _ r = k * DIRENT_SIZE).
  { rewrite -Hr. destruct r as [o|]; [done|]. simpl. pose proof (do_size _ _ Hd).
    unfold DIRENT_SIZE in *. Z.div_mod_to_equations. lia. }
  apply wp_bind. rewrite -/(new_dent name num) -/nd.
  eapply (writei_wp σ0 pid Hfl Hcap); [exact HF2|done..|by rewrite (do_type _ _ Hd)
    |by apply new_dent_bytes|lia|lia|lia|rewrite nchunks_dirent; lia|rewrite nchunks_dirent; lia|].
  rewrite nchunks_dirent take_ge; [lia|]. intros X' V' ip' σ3 Hw HX3 HF3. rewrite Z.eqb_refl.
  apply wp_ret. eapply HQ; [done|by eapply dents_written| |exact HF3]. lia.
Qed.

(** [dirlink] of a name that is there drops the handle it got and fails. *)
Lemma dirlink_exists_wp X V ic i ip name num k de σ Q :
  at_rest X V ic σ → ic !! i = Some ip → dir_ok V ip → meta_used V sb ds →
  (base.size X < NBUF)%nat → cstr_ok DIRSIZ name →
  list_find (named name) (dents V ip) = Some (k, de) →
  (∃ j jp, ic !! j = Some jp ∧ (in_use (idev ip) (de_inum de) jp ∨ iref jp = 0)) →
  (∀ j jp, ic !! j = Some jp → in_use (idev ip) (de_inum de) jp ∨ iref jp = 0 → slocked (ilk jp) = 0) →
  (∀ j jp ic' σ', got (idev ip) (de_inum de) ic j ic' → ic' !! j = Some jp →
     at_rest X V (<[j := set_iref (iref jp - 1) (set_ilk (Sleeplock 0 0) jp)]> ic') σ' →
     Q (-1) σ') →
  wp (dirlink devsw i name num) Q σ.
Proof.
  intros HF Hi Hd Hmu HX Hn Hf Hroom Hlk HQ. rewrite /dirlink. apply wp_bind.
  eapply dirlookup_wp; [exact HF|done..| | |].
  { intros ??. rewrite Hf. by intros [= -> ->]. } { intros σ1 H1. by rewrite Hf in H1. }
  intros ? ? j ic' σ1. rewrite Hf. intros [= <- <-] Hg HF1. apply wp_bind.
  assert (∃ jp, ic' !! j = Some jp ∧ slocked (ilk jp) = 0 ∧ (ivalid jp = 0 ∨ iref jp ≠ 1))
    as (jp&Hj&H0&Hk).
  { destruct Hg as [(x&Hx&Hu&->)|(x&Hx&Hr&_&->)]; (eexists; split_and!; [by eapply lookup_upd|..]).
    - simpl. eauto.
    - right. simpl. destruct Hu. lia.
    - simpl. eauto.
    - by left. }
  eapply iput_keep_wp; [exact HF1|done|done|naive_solver|]. intros σ2 HF2. apply wp_ret. by eapply HQ.
Qed.

(** [dirlink] in a locked directory of a name whose entry is the directory
    itself (such as [.]) waits for the lock the caller holds. *)
Lemma dirlink_self X V ic i ip name num k de σ :
  at_rest X V ic σ → icache_ok ic → ic !! i = Some ip → dir_ok V ip → meta_used V sb ds →
  (base.size X < NBUF)%nat → cstr_ok DIRSIZ name →
  list_find (named name) (dents V ip) = Some (k, de) →
  1 ≤ iref ip → de_inum de = inum ip → ilk ip = Sleeplock 1 pid →
  ∃ σ', dirlink devsw i name num σ = Sleep (CSleep (SInode i)) (Lsleep (SInode i)) σ' ∧
    ilk <$> icache (kdata σ') !! i = Some (Sleeplock 1 pid).
Proof.
  intros HF Hok Hi Hd Hmu HX Hn Hf Hr Hde Hlk.
  assert (in_use (idev ip) (de_inum de) ip) as Hu by (split_and!; [lia|done|done]).
  destruct (wp_inv (dirlookup devsw i name) (λ r σ', ∃ o ic', r = Some (i, o) ∧
    at_rest X V ic' σ' ∧ ilk <$> ic' !! i = Some (Sleeplock 1 pid)) σ) as (?&σ1&E&o&ic'&->&HF1&Hl1).
  { eapply dirlookup_wp; [exact HF|done..| | |].
    - intros ??. rewrite Hf. intros [= -> ->]. eauto.
    - intros σ1 H1. by rewrite Hf in H1.
    - intros ? ? j ic' σ1. rewrite Hf. intros [= <- <-] [(x&Hx&Hu'&->)|(x&Hx&_&Hno&_)] HF1.
      2:{ exfalso. exact (Hno _ _ Hi Hu). }
      assert (j = i) as ->. { eapply (ok_uniq _ Hok); [exact Hx|exact Hi|by rewrite -Hde|lia]. }
      assert (x = ip) as -> by congruence.
      eexists _, _. split_and!; [done|exact HF1|]. by rewrite (lookup_upd _ _ _ _ Hx) /= Hlk. }
  destruct (ic' !! i) as [jp|] eqn:Hj; [|done]. injection Hl1 as Hl1.
  destruct (acquiresleep_held (SInode i) (ilens i) pid (Sleeplock 1 pid) σ1) as (σ2&E2&Hd2).
  { by eapply fat_quiet. } { by rewrite /= (fa_ic _ _ _ _ _ _ _ _ _ HF1) Hj /= Hl1. } { done. }
  exists σ2. rewrite /dirlink (bind_ret _ _ _ _ _ E) /iput /mbind /K_bind E2.
  by rewrite Hd2 (fa_ic _ _ _ _ _ _ _ _ _ HF1) Hj /= Hl1.
Qed.
End Dir.
