(* ===== verification/FsPath.v ===== *)
(** * Path names: correctness of [skipelem] and [namex]

    [elems] is the specification of path parsing: the nonempty pieces of the
    path between slashes.  [walk] resolves a list of elements against the
    directories on disk; [namex] computes it, terminates, and leaves all
    reference counts but the one of its result as they were. *)

From S2P Require Import Prelude CInt CString Kernel Params Sleeplock Bio BioSpec Cache Log LogSpec BlockIO Fs FsBlock FsFile FsInode FsRw FsCache FsDir.

(** ** Path elements *)

Fixpoint split_on (c : Z) (s : list Z) : list (list Z) :=
  match s with
  | [] => [[]]
  | a :: s =>
      if a =? c then [] :: split_on c s
      else match split_on c s with [] => [[a]] | w :: ws => (a :: w) :: ws end
  end.

Definition elems (s : list Z) : list (list Z) := filter (λ w, w ≠ []) (split_on 47 s).

Lemma split_on_cons c s : ∃ w ws, split_on c s = w :: ws.
Proof.
  destruct s as [|a s]; simpl; [by eexists _, _|].
  destruct (a =? c); [by eexists _, _|]. destruct (split_on c s); by eexists _, _.
Qed.

Lemma split_on_app c e s : c ∉ e → split_on c (e ++ c :: s) = e :: split_on c s.
Proof.
  induction e as [|a e IH]; intros Hc; simpl; [by rewrite Z.eqb_refl|].
  apply not_elem_of_cons in Hc as [Ha Hc]. rewrite (proj2 (Z.eqb_neq a c)); [done|].
  by rewrite IH.
Qed.

Lemma split_on_none c e : c ∉ e → split_on c e = [e].
Proof.
  induction e as [|a e IH]; intros Hc; [done|]. apply not_elem_of_cons in Hc as [Ha Hc]. simpl.
  rewrite (proj2 (Z.eqb_neq a c)); [done|]. by rewrite IH.
Qed.

Lemma elems_slash s : elems (47 :: s) = elems s.
Proof. done. Qed.

Lemma elems_app e s : 47 ∉ e → e ≠ [] → elems (e ++ 47 :: s) = e :: elems s.
Proof. intros He Hne. rewrite /elems split_on_app // filter_cons_True //. Qed.

Lemma elems_one e : 47 ∉ e → e ≠ [] → elems e = [e].
Proof. intros He Hne. rewrite /elems split_on_none // filter_cons_True //. Qed.

Lemma elems_nonempty s e : e ∈ elems s → e ≠ [].
Proof. by intros [? _]%list_elem_of_filter. Qed.

(** A path that does not start with a slash has an element unless it is empty. *)
Lemma elems_nil s : s !! 0%nat ≠ Some 47 → elems s = [] → s = [].
Proof.
  destruct s as [|a s]; [done|]. intros Ha. rewrite /elems /=.
  rewrite (proj2 (Z.eqb_neq a 47)); [by intros ->|].
  destruct (split_on_cons 47 s) as (w&ws&->). by rewrite filter_cons_True.
Qed.

(** ** The loops of [skipelem] *)

Definition skipped (s t : list Z) : Prop :=
  t !! 0%nat ≠ Some 47 ∧ elems t = elems s ∧ (length t ≤ length s)%nat ∧ (0 ∉ s → 0 ∉ t).

Lemma skip_slash_spec s r :
  ∃ t, skip_slash (s ++ 0 :: r) = Some (t ++ 0 :: r) ∧ skipped s t.
Proof.
  induction s as [|a s IH]; [by exists []|]. simpl. destruct (a =? 47) eqn:E; breflect.
  - subst a. destruct IH as (t&->&Hs&He&Hl&H0). exists t. split; [done|].
    split_and!; [done|by rewrite He|simpl; lia|set_solver].
  - exists (a :: s). split; [done|]. split_and!; [naive_solver|done|done|done].
Qed.

Lemma scan_elem_spec s r : 0 ∉ s →
  ∃ e t, s = e ++ t ∧ 47 ∉ e ∧ (t = [] ∨ ∃ u, t = 47 :: u) ∧
    scan_elem (s ++ 0 :: r) = Some (e, t ++ 0 :: r).
Proof.
  induction s as [|a s IH]; intros H0.
  - exists [], []. split_and!; [done|set_solver|by left|done].
  - apply not_elem_of_cons in H0 as [Ha H0]. simpl. destruct (a =? 47) eqn:E; breflect; simpl.
    + subst a. exists [], (47 :: s). split_and!; [done|set_solver|by eauto|done].
    + rewrite (proj2 (Z.eqb_neq a 0)); [done|]. destruct (IH H0) as (e&t&->&He&Ht&->).
      exists (a :: e), t. split_and!; [done|set_solver|done|done].
Qed.

(** The buffer [name] after [skipelem] stored [e] in it. *)
Definition name_buf (e name : list Z) : list Z :=
  if decide (DIRSIZ ≤ length e)%nat then blit 0 (take DIRSIZ e) name else blit 0 (e ++ [0]) name.

Lemma length_name_buf e name : length name = DIRSIZ → length (name_buf e name) = DIRSIZ.
Proof.
  intros Hn. rewrite /name_buf. case_decide; rewrite length_blit // Hn ?length_take ?length_app; cbn [length]; lia.
Qed.

Lemma not_elem_of_take (x : Z) n l : x ∉ l → x ∉ take n l.
Proof.
  intros Hx (i&[Hi _]%lookup_take_Some)%list_elem_of_lookup. by apply list_elem_of_lookup_2 in Hi.
Qed.

Lemma cprefix_long n e : 0 ∉ e → cprefix n e = take n e.
Proof.
  intros H0. rewrite -cprefix_take. rewrite -{1}(app_nil_r (take n e)).
  apply cprefix_app; [|rewrite length_take; lia|by left].
  by apply not_elem_of_take.
Qed.

(** [name] then compares like the element. *)
Lemma name_buf_prefix e name :
  length name = DIRSIZ → 0 ∉ e → cprefix DIRSIZ (name_buf e name) = cprefix DIRSIZ e.
Proof.
  intros Hn H0. rewrite (cprefix_long _ e H0) /name_buf /blit.
  destruct (decide (DIRSIZ ≤ length e)%nat); rewrite take_0 app_nil_l Nat.add_0_l.
  - rewrite length_take Nat.min_l // drop_ge ?Hn // app_nil_r cprefix_long.
    { by apply not_elem_of_take. }
    by rewrite take_take Nat.min_id.
  - rewrite -app_assoc (take_ge e); [lia|]. apply cprefix_app; [done|lia|]. by right; right.
Qed.

Lemma name_buf_cstr e name : length name = DIRSIZ → cstr_ok DIRSIZ (name_buf e name).
Proof. intros Hn. left. by rewrite length_name_buf. Qed.

(** [skipelem] removes the first element. *)
Lemma skipelem_spec s r name : 0 ∉ s →
  match elems s with
  | [] => skipelem (s ++ 0 :: r) name = Some None
  | e :: es => ∃ t, skipelem (s ++ 0 :: r) name = Some (Some (t ++ 0 :: r, name_buf e name)) ∧
      elems t = es ∧ 0 ∉ t ∧ 0 ∉ e ∧ (t = [] ↔ es = []) ∧ (length t < length s)%nat
  end.
Proof.
  intros H0. rewrite /skipelem. destruct (skip_slash_spec s r) as (p&->&Hp&He&Hl&Hp0).
  specialize (Hp0 H0). rewrite -He. cbn [mbind option_bind].
  destruct p as [|c p]; [done|]. assert (c ≠ 47) by naive_solver.
  apply not_elem_of_cons in Hp0 as Hc. destruct Hc as [Hc _]. 
  change (((c :: p) ++ 0 :: r) !! 0%nat) with (Some c). cbn [mbind option_bind].
  rewrite (proj2 (Z.eqb_neq c 0)) //.
  destruct (scan_elem_spec (c :: p) r Hp0) as (e&t&Hcp&Hes&Ht&->). cbn [mbind option_bind].
  assert (e ≠ []) as Hne. { intros ->. destruct Ht as [->|[u ->]]; naive_solver. }
  destruct (skip_slash_spec t r) as (u&->&Hu&Heu&Hlu&Hu0). cbn [mbind option_bind].
  assert (elems (c :: p) = e :: elems t) as ->.
  { rewrite Hcp. destruct Ht as [->|[v ->]]; [rewrite app_nil_r; by apply elems_one|rewrite elems_slash; by apply elems_app]. }
  assert (length t < length (c :: p))%nat. { rewrite Hcp length_app. destruct e; [done|simpl; lia]. }
  rewrite Hcp in Hp0. exists u. split_and!; [done|done|set_solver|set_solver| |lia].
  rewrite -Heu. split; [by intros ->|by apply elems_nil].
Qed.
