(* ===== verification/FsNamex.v ===== *)
(** * Path resolution: [namex], [namei] and [nameiparent]

    [walk] resolves path elements against the directories on disk.  [namex]
    returns a handle on the inode [walk] gives, with every other reference
    count of the inode cache as it was. *)

From S2P Require Import Prelude CInt CString Kernel Params Sleeplock Bio BioSpec Cache Log LogSpec BlockIO Fs FsBlock FsFile FsInode FsRw FsCache FsDir FsPath.

(** ** Reference counts *)

(** What an entry of the cache adds to the references of inode [n]. *)
Definition ref_of (n : Z) (ip : inode) : Z := if decide (inum ip = n) then iref ip else 0.

(** References to inode [n] in the cache. *)
Definition refs (ic : list inode) (n : Z) : Z := foldr (λ ip a, ref_of n ip + a) 0 ic.

Lemma refs_insert ic i ip jp n :
  ic !! i = Some ip → refs (<[i := jp]> ic) n = refs ic n - ref_of n ip + ref_of n jp.
Proof.
  revert i. induction ic as [|x ic IH]; intros [|i] Hi; try done; simpl in *.
  - injection Hi as ->. lia.
  - rewrite (IH i) //. lia.
Qed.

Lemma refs_pos ic n : (∀ i ip, ic !! i = Some ip → 0 ≤ iref ip) → 0 ≤ refs ic n.
Proof.
  induction ic as [|x ic IH]; intros H; simpl; [done|].
  assert (0 ≤ refs ic n) by (apply IH; intros i ip Hi; by apply (H (S i) ip)).
  pose proof (H 0%nat x eq_refl). rewrite /ref_of. case_decide; lia.
Qed.

Lemma refs_used ic i ip :
  (∀ i ip, ic !! i = Some ip → 0 ≤ iref ip) → ic !! i = Some ip → iref ip ≤ refs ic (inum ip).
Proof.
  revert i. induction ic as [|x ic IH]; intros [|i] H Hi; try done; simpl in *.
  - injection Hi as ->. rewrite /ref_of decide_True //.
    pose proof (refs_pos ic (inum ip) (λ j jp Hj, H (S j) jp Hj)). lia.
  - specialize (IH i (λ j jp Hj, H (S j) jp Hj) Hi). pose proof (H 0%nat x eq_refl).
    rewrite /ref_of. case_decide; lia.
Qed.

Lemma NoDup_inums (ic : list inode) :
  (∀ i j ip jp, ic !! i = Some ip → ic !! j = Some jp → inum ip = inum jp → i = j) →
  NoDup (inum <$> ic).
Proof.
  intros H. apply NoDup_alt. intros i j x Hi Hj. 
  apply list_lookup_fmap_Some in Hi as (ip&->&Hi), Hj as (jp&Heq&Hj). by eapply H.
Qed.

(** One more reference to inode [num]. *)
Definition bump (num n : Z) : Z := if decide (n = num) then 1 else 0.

Section Namex.
Context {B : Type} `{!BlockIO B} {home : Z → Prop} {cap : nat} `{!BlockIOSpec B home cap}.
Context {S0 : Type} (σ0 : kst S0) (pid : Z) {sb : superblock} {ds : Z}.
Context (Hfl : fs_layout home sb ds) (Hcap : (cap < NBUF)%nat).
Context (devsw : Z → devops (fstate B)) (V : Z → block) (X : gset Z) (HX : (base.size X < NBUF)%nat).
Implicit Types (ic : list inode) (ip : inode) (L : gset nat).

Notation at_rest ic := (Fat σ0 pid ∅ X ∅ V ic sb).

(** ** Resolution on disk *)

(** Inode [num] as it is on disk. *)
Definition ino (num : Z) : inode :=
  set_dinode (dinode_on V sb num) (Inode ROOTDEV num 0 (Sleeplock 0 0) 1 0 0 0 0 0 []).

Definition is_inum (num : Z) : Prop :=
  0 < num < sb_ninodes sb ∧ d_type (dinode_on V sb num) ≠ 0.

(** The directory tree on disk: directories are well-formed, their entries
    name allocated inodes, and no allocated inode is unlinked. *)
Record tree_ok : Prop := {
  to_dir : ∀ num, is_inum num → d_type (dinode_on V sb num) = T_DIR → dir_ok (sb:=sb) (ds:=ds) V (ino num);
  to_ent : ∀ num de, is_inum num → d_type (dinode_on V sb num) = T_DIR → de ∈ dents V (ino num) →
    de_inum de ≠ 0 → is_inum (de_inum de);
  to_link : ∀ num, is_inum num → d_nlink (dinode_on V sb num) ≠ 0
}.

(** The inode the elements [es] lead to from [num]; the parent of the last one
    if [np]. *)
Fixpoint walk (np : bool) (num : Z) (es : list (list Z)) : option Z :=
  match es with
  | [] => if np then None else Some num
  | e :: es =>
      if decide (d_type (dinode_on V sb num) = T_DIR) then
        if np && bool_decide (es = []) then Some num else
        match list_find (named e) (dents V (ino num)) with
        | Some (_, de) => walk np (de_inum de) es
        | None => None
        end
      else None
  end.

(** ** The cache between operations *)

(** The entries of [L] are locked by this process and no others are; entries
    in use agree with the disk. *)
Record ic_inv L ic : Prop := {
  ci_ok : icache_ok ic;
  ci_lock : ∀ i ip, ic !! i = Some ip → i ∈ L → ilk ip = Sleeplock 1 pid ∧ 0 < iref ip;
  ci_free : ∀ i ip, ic !! i = Some ip → i ∉ L → slocked (ilk ip) = 0;
  ci_use : ∀ i ip, ic !! i = Some ip → 0 < iref ip → idev ip = ROOTDEV ∧ is_inum (inum ip);
  ci_sync : ∀ i ip, ic !! i = Some ip → 0 < iref ip → ivalid ip ≠ 0 →
    to_dinode ip = dinode_on V sb (inum ip)
}.

(** One entry replaced. *)
Lemma ic_inv_upd L L' ic i ip jp :
  ic_inv L ic → ic !! i = Some ip → icache_ok (<[i := jp]> ic) →
  (∀ j, j ≠ i → j ∈ L' ↔ j ∈ L) →
  (i ∈ L' → ilk jp = Sleeplock 1 pid ∧ 0 < iref jp) → (i ∉ L' → slocked (ilk jp) = 0) →
  (0 < iref jp → idev jp = ROOTDEV ∧ is_inum (inum jp)) →
  (0 < iref jp → ivalid jp ≠ 0 → to_dinode jp = dinode_on V sb (inum jp)) →
  ic_inv L' (<[i := jp]> ic).
Proof.
  intros Hci Hi Hok HL Hlk Hfr Hus Hsy.
  split; [done|..]; intros j x [(<-&<-&_)|[Hne Hj]]%list_lookup_insert_Some; try done.
  - rewrite HL //. by eapply ci_lock.
  - rewrite HL //. by eapply ci_free.
  - by eapply ci_use.
  - by eapply ci_sync.
Qed.

Lemma icache_ok_upd ic i ip jp :
  icache_ok ic → ic !! i = Some ip → 0 < iref ip → idev jp = idev ip → inum jp = inum ip →
  0 ≤ iref jp → icache_ok (<[i := jp]> ic).
Proof.
  intros [Hl Hr Hu] Hi Hp Hd Hn H0. split; [by rewrite length_insert|..].
  - intros j x [(<-&<-&_)|[_ ?]]%list_lookup_insert_Some; [done|by eapply Hr].
  - intros a b x y Hx Hy. rewrite /in_use.
    apply list_lookup_insert_Some in Hx as [(<-&<-&_)|[Ha Hx]];
      apply list_lookup_insert_Some in Hy as [(<-&<-&_)|[Hb Hy]]; rewrite ?Hd ?Hn; try done.
    + intros (_&E1&E2) Hy0. by eapply Hu.
    + intros (Hx0&E1&E2) _. by eapply Hu.
    + intros Hx0 Hy0. by eapply Hu.
Qed.

(** The rooms of the cache: [U] bounds the inodes in use. *)
Lemma room L ic (U : gset Z) dev num :
  ic_inv L ic → (∀ n, 0 < refs ic n → n ∈ U) → (base.size U < NINODE)%nat →
  ∃ i ip, ic !! i = Some ip ∧ (in_use dev num ip ∨ iref ip = 0).
Proof.
  intros Hci HU Hs. pose proof (ci_ok _ _ Hci) as [Hl Hr Hu].
  destruct (decide (Exists (λ ip, iref ip = 0) ic)) as [(ip&[i Hi]%list_elem_of_lookup&H0)%Exists_exists|Hno].
  { eauto. }
  exfalso. rewrite -Forall_Exists_neg Forall_lookup in Hno.
  assert (∀ i ip, ic !! i = Some ip → 0 < iref ip) as Hp.
  { intros i ip Hi. specialize (Hno _ _ Hi). specialize (Hr _ _ Hi). simpl in Hno. lia. }
  assert (base.size (list_to_set (inum <$> ic) : gset Z) = NINODE) as HN.
  { rewrite size_list_to_set ?length_fmap // . apply NoDup_inums. intros i j ip jp Hi Hj Hn.
    eapply Hu; [done|done| |by eapply Hp]. split_and!; [by eapply Hp| |done].
    destruct (ci_use _ _ Hci _ _ Hi) as [-> _]; [by eapply Hp|].
    by destruct (ci_use _ _ Hci _ _ Hj) as [-> _]; [by eapply Hp|]. }
  assert ((list_to_set (inum <$> ic) : gset Z) ⊆ U) as Hsub%subseteq_size; [|lia].
  intros n. rewrite elem_of_list_to_set list_elem_of_fmap. intros (ip&->&[i Hi]%list_elem_of_lookup).
  apply HU. eapply Z.lt_le_trans; [by eapply Hp|by eapply refs_used].
Qed.

(** ** What the routines do to the cache *)

Lemma got_inv L ic num i ic' :
  ic_inv L ic → is_inum num → got ROOTDEV num ic i ic' →
  ic_inv L ic' ∧ (∀ n, refs ic' n = refs ic n + bump num n) ∧
  (∃ ip, ic' !! i = Some ip ∧ in_use ROOTDEV num ip ∧
     (∀ jp, ic !! i = Some jp → 0 < iref jp → 1 < iref ip)) ∧
  (∀ j jp, ic !! j = Some jp → 0 < iref jp → ∃ jp', ic' !! j = Some jp' ∧ inum jp' = inum jp ∧
     idev jp' = idev jp ∧ 0 < iref jp' ∧ to_dinode jp' = to_dinode jp ∧ ivalid jp' = ivalid jp).
Proof.
  intros Hci Hn Hg. destruct (got_ok _ _ _ _ _ (ci_ok _ _ Hci) Hg) as [Hok' Hin].
  pose proof (ci_ok _ _ Hci) as [_ Hr _]. destruct Hin as (x&Hx&Hxu).
  destruct Hg as [(ip&Hi&(Hp&Hd&Hm)&->)|(ip&Hi&H0&Hno&->)].
  - split_and!; [|intros n|exists x; split_and!; [done..|]|].
    + eapply ic_inv_upd; [done|done|done|done|..]; simpl.
      * intros HL. split; [|lia]. by eapply ci_lock.
      * intros HL. by eapply ci_free.
      * intros _. by eapply ci_use.
      * intros _ Hv. exact (ci_sync _ _ Hci _ _ Hi Hp Hv).
    + rewrite (refs_insert _ _ ip) // /ref_of /bump /= Hm. do 2 case_decide; subst; try done; lia.
    + intros jp Hjp Hpj. assert (jp = ip) as -> by congruence. rewrite (lookup_upd _ _ _ _ Hi) in Hx.
      injection Hx as <-. simpl. lia.
    + intros j jp Hj Hpj. destruct (decide (i = j)) as [<-|Hne].
      * rewrite Hi in Hj. injection Hj as <-. eexists. split; [by eapply lookup_upd|].
        simpl. split_and!; try done; lia.
      * exists jp. by rewrite list_lookup_insert_ne.
  - assert (i ∉ L) as HiL. { intros HL. destruct (ci_lock _ _ Hci _ _ Hi HL). lia. }
    split_and!; [|intros n|exists x; split_and!; [done..|]|].
    + eapply ic_inv_upd; [done|done|done|done|..]; simpl; try done.
      intros _. by eapply ci_free.
    + rewrite (refs_insert _ _ ip) // /ref_of /bump /= H0. do 2 case_decide; subst; try done; try case_decide; lia.
    + intros jp Hjp Hpj. assert (jp = ip) as -> by congruence. lia.
    + intros j jp Hj Hpj. destruct (decide (i = j)) as [<-|Hne].
      * rewrite Hi in Hj. injection Hj as <-. lia.
      * exists jp. by rewrite list_lookup_insert_ne.
Qed.

(** Locking an entry in use. *)
Lemma lock_inv ic i ip :
  ic_inv ∅ ic → ic !! i = Some ip → 0 < iref ip →
  let jp := locked_inode pid (sb:=sb) V ip in
  ic_inv {[i]} (<[i := jp]> ic) ∧ (∀ n, refs (<[i := jp]> ic) n = refs ic n) ∧
  to_dinode jp = dinode_on V sb (inum ip) ∧ inum jp = inum ip ∧ iref jp = iref ip ∧ ivalid jp ≠ 0 ∧
  idev jp = ROOTDEV.
Proof.
  intros Hci Hi Hp jp. destruct (ci_use _ _ Hci _ _ Hi Hp) as [Hd Hn].
  assert (to_dinode jp = dinode_on V sb (inum ip) ∧ ilk jp = Sleeplock 1 pid ∧ inum jp = inum ip ∧
    iref jp = iref ip ∧ ivalid jp ≠ 0 ∧ idev jp = ROOTDEV) as (Hto&Hlk&Hnum&Hrf&Hv&Hdv).
  { rewrite /jp /locked_inode. destruct (ivalid ip =? 0) eqn:E; breflect; simpl; split_and!; try done.
    exact (ci_sync _ _ Hci _ _ Hi Hp E). }
  split_and!; try done.
  - eapply ic_inv_upd; [done|done|..].
    + eapply icache_ok_upd; [apply Hci|done|done|congruence|done|lia].
    + set_solver.
    + rewrite Hlk Hrf. done.
    + set_solver.
    + rewrite Hdv Hnum. done.
    + rewrite Hto Hnum. done.
  - intros n. rewrite (refs_insert _ _ ip) // /ref_of Hnum Hrf. lia.
Qed.

(** Dropping a reference to an unlocked or just unlocked entry. *)
Lemma drop_inv L ic i ip :
  ic_inv L ic → ic !! i = Some ip → 0 < iref ip →
  let ic' := <[i := set_iref (iref ip - 1) (set_ilk (Sleeplock 0 0) ip)]> ic in
  ic_inv (L ∖ {[i]}) ic' ∧ (∀ n, refs ic' n = refs ic n - bump (inum ip) n).
Proof.
  intros Hci Hi Hp ic'. destruct (ci_use _ _ Hci _ _ Hi Hp) as [Hd Hn]. split.
  - eapply ic_inv_upd; [done|done|..]; simpl.
    + eapply icache_ok_upd; [apply Hci|done|done|done|done|simpl; lia].
    + set_solver.
    + set_solver.
    + done.
    + done.
    + intros _ Hv. exact (ci_sync _ _ Hci _ _ Hi Hp Hv).
  - intros n. rewrite (refs_insert _ _ ip) // /ref_of /bump /=. do 2 case_decide; subst; try done; lia.
Qed.

(** One more reference to an entry in use. *)
Lemma dup_inv ic i ip :
  ic_inv ∅ ic → ic !! i = Some ip → 0 < iref ip →
  let ic' := <[i := set_iref (iref ip + 1) ip]> ic in
  ic_inv ∅ ic' ∧ (∀ n, refs ic' n = refs ic n + bump (inum ip) n).
Proof.
  intros Hci Hi Hp. destruct (ci_use _ _ Hci _ _ Hi Hp) as [Hd Hn].
  destruct (got_inv ∅ ic (inum ip) i (<[i := set_iref (iref ip + 1) ip]> ic) Hci Hn) as (?&?&_); [|done].
  left. exists ip. by split_and!.
Qed.

(** Unlocking an entry. *)
Lemma unlock_inv ic i ip :
  ic_inv {[i]} ic → ic !! i = Some ip → 
  let ic' := <[i := set_ilk (Sleeplock 0 0) ip]> ic in
  ic_inv ∅ ic' ∧ (∀ n, refs ic' n = refs ic n).
Proof.
  intros Hci Hi ic'. destruct (ci_lock _ _ Hci _ _ Hi ltac:(set_solver)) as [Hlk Hp].
  destruct (ci_use _ _ Hci _ _ Hi Hp) as [Hd Hn]. split.
  - eapply ic_inv_upd; [done|done|..]; simpl.
    + eapply icache_ok_upd; [apply Hci|done|done|done|done|simpl; lia].
    + set_solver.
    + set_solver.
    + done.
    + done.
    + intros _ Hv. exact (ci_sync _ _ Hci _ _ Hi Hp Hv).
  - intros n. rewrite (refs_insert _ _ ip) // /ref_of /=. lia.
Qed.

(** A cached directory reads like the one on disk. *)
Lemma dents_ino ip : to_dinode ip = dinode_on V sb (inum ip) → dents V ip = dents V (ino (inum ip)).
Proof.
  intros Hd. rewrite /ino -Hd. destruct ip. done.
Qed.

Lemma dir_ok_ino ip :
  to_dinode ip = dinode_on V sb (inum ip) → idev ip = ROOTDEV →
  dir_ok (sb:=sb) (ds:=ds) V (ino (inum ip)) → dir_ok (sb:=sb) (ds:=ds) V ip.
Proof.
  intros Hd Hdev. rewrite /ino -Hd. destruct ip. simpl in Hdev. subst. intros [[[] ? ?] ? ?].
  split; [split; [split|..]|..]; done.
Qed.

Context (Htree : tree_ok) (Hmu : meta_used V sb ds).

(** [iput] of an inode that is linked only drops the reference. *)
Lemma iput_linked_wp ic i ip σ Q :
  at_rest ic σ → ic_inv ∅ ic → ic !! i = Some ip → 0 < iref ip →
  (∀ ic' σ', ic' = <[i := set_iref (iref ip - 1) (set_ilk (Sleeplock 0 0) ip)]> ic →
     ic_inv ∅ ic' → (∀ n, refs ic' n = refs ic n - bump (inum ip) n) → at_rest ic' σ' → Q tt σ') →
  wp (iput i) Q σ.
Proof.
  intros HF Hci Hi Hp HQ. destruct (ci_use _ _ Hci _ _ Hi Hp) as [Hd Hn].
  eapply iput_keep_wp; [exact HF|done|eapply ci_free; [done|done|set_solver]| |].
  { destruct (decide (ivalid ip = 0)) as [|Hv]; [by left|]. right; left.
    pose proof (to_link Htree _ Hn) as Hl. by rewrite -(ci_sync _ _ Hci _ _ Hi Hp Hv) in Hl. }
  intros σ' HF'. destruct (drop_inv ∅ ic i ip Hci Hi Hp) as [Hci' Hr].
  replace (∅ ∖ {[i]}) with (∅ : gset nat) in Hci' by set_solver. by eapply HQ.
Qed.

Lemma iunlockput_wp ic i ip σ Q :
  at_rest ic σ → ic_inv {[i]} ic → ic !! i = Some ip →
  (∀ ic' σ', ic' = <[i := set_iref (iref ip - 1) (set_ilk (Sleeplock 0 0) ip)]> ic →
     ic_inv ∅ ic' → (∀ n, refs ic' n = refs ic n - bump (inum ip) n) → at_rest ic' σ' → Q tt σ') →
  wp (iunlockput (Some i)) Q σ.
Proof.
  intros HF Hci Hi HQ. destruct (ci_lock _ _ Hci _ _ Hi ltac:(set_solver)) as [Hlk Hp].
  rewrite /iunlockput. apply wp_bind. eapply iunlock_wp; [exact HF|done|done|lia|]. intros σ1 HF1.
  destruct (unlock_inv ic i ip Hci Hi) as [Hci1 Hr1].
  eapply iput_linked_wp; [exact HF1|done|by eapply lookup_upd|done|].
  intros ic' σ' Hic Hci' Hr HF'. apply (HQ ic' σ'); [by rewrite Hic list_insert_insert_eq|done| |done].
  intros n. by rewrite Hr Hr1.
Qed.

(** What [namex] returns: a handle on the inode that was resolved, if any. *)
Definition handle (ic : list inode) (r : option nat) (w : option Z) : Prop :=
  match w with
  | Some n => ∃ j jp, r = Some j ∧ ic !! j = Some jp ∧ in_use ROOTDEV n jp
  | None => r = None
  end.

(** The effect of [namex] from inode [num], to which the caller gave a
    reference, on the elements [es]. *)
Record resolved (np : bool) (num : Z) (es : list (list Z)) ic (r : option nat) (name' : list Z) ic'
    : Prop := {
  rs_inv : ic_inv ∅ ic';
  rs_handle : handle ic' r (walk np num es);
  rs_refs : ∀ n, refs ic' n =
    refs ic n - bump num n + (if decide (walk np num es = Some n) then 1 else 0);
  rs_name : ∀ e, np = true → walk np num es ≠ None → last es = Some e →
    cprefix DIRSIZ name' = cprefix DIRSIZ e
}.

Lemma resolved_none np num es ic name' ic' :
  walk np num es = None → ic_inv ∅ ic' → (∀ n, refs ic' n = refs ic n - bump num n) →
  resolved np num es ic None name' ic'.
Proof.
  intros Hw Hci Hr. split; [done|by rewrite Hw| |by rewrite Hw].
  intros n. rewrite Hw Hr. case_decide; [done|lia].
Qed.

Lemma resolved_step np num e es de k ic r name' ic1 ic' :
  d_type (dinode_on V sb num) = T_DIR → np && bool_decide (es = []) = false →
  list_find (named e) (dents V (ino num)) = Some (k, de) →
  (∀ n, refs ic1 n = refs ic n + bump (de_inum de) n - bump num n) →
  resolved np (de_inum de) es ic1 r name' ic' → resolved np num (e :: es) ic r name' ic'.
Proof.
  intros Ht Hnp Hf Hr1 [Hci Hh Hr Hn].
  assert (walk np num (e :: es) = walk np (de_inum de) es) as Hw.
  { cbn [walk]. by rewrite decide_True // Hnp Hf. }
  split; [done|by rewrite Hw|..].
  - intros n. rewrite Hw Hr Hr1. lia.
  - rewrite Hw. intros e' Hnp' Hne Hl. apply Hn; [done..|]. destruct es; [|done]. by rewrite Hnp' in Hnp.
Qed.

(** The end of the path. *)
Lemma namex_end_wp np es ic i ip name σ Q :
  at_rest ic σ → ic_inv ∅ ic → ic !! i = Some ip → 0 < iref ip → es = [] →
  (∀ q name' ic' σ', resolved np (inum ip) es ic q name' ic' → at_rest ic' σ' → Q (q, name') σ') →
  wp (if np then iput i;; mret (None, name) else mret (Some i, name)) Q σ.
Proof.
  intros HF Hci Hi Hp -> HQ. destruct (ci_use _ _ Hci _ _ Hi Hp) as [Hdev _]. destruct np.
  - apply wp_bind. eapply iput_linked_wp; [done..|]. intros ic' σ' _ Hci' Hr HF'. apply wp_ret.
    eapply HQ; [|done]. by apply resolved_none.
  - apply wp_ret. eapply HQ; [|done]. split; [done| | |done].
    + exists i, ip. by split_and!.
    + intros n. rewrite /bump /=. do 2 case_decide; simplify_eq; lia.
Qed.

Lemma resolved_last num e ic name' i ip ic' :
  d_type (dinode_on V sb num) = T_DIR → ic_inv ∅ ic' → ic' !! i = Some ip →
  in_use ROOTDEV num ip → (∀ n, refs ic' n = refs ic n) →
  cprefix DIRSIZ name' = cprefix DIRSIZ e →
  resolved true num [e] ic (Some i) name' ic'.
Proof.
  intros Ht Hci Hi Hu Hr Hn. assert (walk true num [e] = Some num) as Hw by by rewrite /= decide_True.
  split; [done|rewrite Hw|intros n; rewrite Hw|by intros ? _ _ [= <-]].
  - exists i, ip. done.
  - rewrite Hr /bump. do 2 case_decide; simplify_eq; lia.
Qed.

(** The first character of the rest of the path tells whether it is empty. *)
Lemma lookup_path (t : list Z) r es : (t = [] ↔ es = @nil (list Z)) → 0 ∉ t →
  ∃ c, (t ++ 0 :: r) !! 0%nat = Some c ∧ (c = 0 ↔ es = []).
Proof.
  intros Ht H0. destruct t as [|a t]; [exists 0; split; [done|]; tauto|].
  exists a. split; [done|]. rewrite -Ht. split; [|done]. intros ->. set_solver.
Qed.

Lemma path_first (s : list Z) r : s !! 0%nat ≠ Some 47 → ∃ c, (s ++ 0 :: r) !! 0%nat = Some c ∧ c ≠ 47.
Proof. destruct s as [|c s]; intros Hs; [by exists 0|]. exists c. split; [done|]. naive_solver. Qed.

Lemma walk_np np c (es : list (list Z)) :
  (c = 0 ↔ es = []) → np && (c =? 0) = false → np && bool_decide (es = []) = false.
Proof.
  intros Hc. destruct np; [|done]. simpl. intros Hne%Z.eqb_neq. apply bool_decide_eq_false. tauto.
Qed.

Lemma find_name_buf e name l :
  length name = DIRSIZ → 0 ∉ e → list_find (named (name_buf e name)) l = list_find (named e) l.
Proof.
  intros Hn H0. assert (∀ de, named (name_buf e name) de ↔ named e de) as Hiff.
  { intros de. by rewrite /named name_buf_prefix. }
  induction l as [|a l IH]; [done|]. simpl. rewrite IH.
  destruct (decide (named (name_buf e name) a)) as [H1|H1], (decide (named e a)) as [H2|H2];
    try done; [by apply Hiff in H1|by apply Hiff in H2].
Qed.

(** The lookup of an element in a locked directory. *)
Lemma lookup_locked_wp (U : gset Z) ic i jp e name σ Q :
  at_rest ic σ → ic_inv {[i]} ic → ic !! i = Some jp → 0 < iref jp →
  to_dinode jp = dinode_on V sb (inum jp) → d_type (dinode_on V sb (inum jp)) = T_DIR →
  length name = DIRSIZ → 0 ∉ e → (base.size U + 2 ≤ NINODE)%nat →
  (∀ n, 0 < refs ic n - bump (inum jp) n → n ∈ U) →
  (∀ σ', list_find (named e) (dents V (ino (inum jp))) = None → at_rest ic σ' → Q None σ') →
  (∀ k de j o x jp' ic' σ', list_find (named e) (dents V (ino (inum jp))) = Some (k, de) →
     ic_inv {[i]} ic' → (∀ n, refs ic' n = refs ic n + bump (de_inum de) n) →
     ic' !! j = Some x → in_use ROOTDEV (de_inum de) x → (j = i → 1 < iref x) →
     ic' !! i = Some jp' → inum jp' = inum jp → at_rest ic' σ' → Q (Some (j, o)) σ') →
  wp (dirlookup devsw i (name_buf e name)) Q σ.
Proof.
  intros HF Hci Hi Hp Hto Hty Hn He0 HU HUin HQ0 HQ1.
  destruct (ci_use _ _ Hci _ _ Hi Hp) as [Hdev His]. set (name1 := name_buf e name).
  pose proof (dents_ino jp Hto) as Hdj.
  assert (dir_ok (sb:=sb) (ds:=ds) V jp) as Hdok. { apply dir_ok_ino; [done|done|]. by apply (to_dir Htree). }
  assert (∀ k de, list_find (named name1) (dents V jp) = Some (k, de) →
    list_find (named e) (dents V (ino (inum jp))) = Some (k, de) ∧ is_inum (de_inum de)) as Hfe.
  { intros k de Hf. rewrite Hdj in Hf. split; [by rewrite -(find_name_buf e name)|].
    apply list_find_Some in Hf as (Hk%list_elem_of_lookup_2&[? _]&_). by eapply (to_ent Htree). }
  eapply (dirlookup_wp σ0 pid Hfl Hcap devsw X V ic i jp); [done..|by apply name_buf_cstr| | |].
  { intros k de [_ Hde]%Hfe. eapply (room _ _ ({[inum jp]} ∪ U)); [done| |].
    - intros n Hpos. destruct (decide (n = inum jp)) as [->|Hne]; [set_solver|].
      apply elem_of_union_r, HUin. rewrite /bump decide_False //. lia.
    - pose proof (size_union_le {[inum jp]} U) as Hsz. rewrite size_singleton in Hsz. lia. }
  { intros σ2 Hno HF2. apply HQ0; [|done]. rewrite Hdj in Hno. by rewrite -(find_name_buf e name). }
  intros k de j ic2 σ2 [Hf Hde]%Hfe Hg HF2. rewrite Hdev in Hg.
  destruct (got_inv _ _ _ _ _ Hci Hde Hg) as (Hci2&Hr2&(x&Hx&Hxu&Hxi)&Hkeep).
  destruct (Hkeep i jp Hi Hp) as (jp'&Hi2&Hnum2&_).
  eapply HQ1; [done..|intros ->; by eapply Hxi|done|done|done].
Qed.

(** The loop of [namex]. [U] holds the inodes others have in use. *)
Lemma namex_loop_wp (U : gset Z) np s r fuel : 0 ∉ s → (length s ≤ fuel)%nat →
  ∀ ic i ip name σ Q, (base.size U + 2 ≤ NINODE)%nat →
  at_rest ic σ → ic_inv ∅ ic → ic !! i = Some ip → 0 < iref ip → length name = DIRSIZ →
  (∀ n, 0 < refs ic n - bump (inum ip) n → n ∈ U) →
  (∀ q name' ic' σ', resolved np (inum ip) (elems s) ic q name' ic' → at_rest ic' σ' →
     Q (q, name') σ') →
  wp (namex_loop devsw fuel i (s ++ 0 :: r) np name) Q σ.
Proof.
  revert s. induction fuel as [|fuel IH]; intros s H0 Hfuel ic i ip name σ Q HU HF Hci Hi Hp Hn HUin HQ;
    pose proof (skipelem_spec s r name H0) as Hsk; cbn [namex_loop]; apply wp_bind;
    revert Hsk HQ; destruct (elems s) as [|e es] eqn:Hes; intros Hsk HQ.
  1,3: eapply wp_deref; [exact Hsk|]; by eapply (namex_end_wp np []).
  { destruct Hsk as (t&_&_&_&_&_&Hl). lia. }
  destruct Hsk as (t&Hsk&Het&Ht0&He0&Htn&Hl). eapply wp_deref; [exact Hsk|].
  set (name1 := name_buf e name) in *. pose proof (length_name_buf e name Hn) as Hn1.
  destruct (ci_use _ _ Hci _ _ Hi Hp) as [Hdev [Hrng Hty]].
  destruct (lock_inv ic i ip Hci Hi Hp) as (Hci1&Hr1&Hto&Hnum&Href&Hval&Hdv).
  apply wp_bind. eapply (ilock_wp σ0 pid Hfl Hcap); [exact HF|done|lia|exact (ci_free _ _ Hci _ _ Hi (not_elem_of_empty i))|done..|].
  set (jp := locked_inode pid V ip) in *. set (ic1 := <[i := jp]> ic) in *.
  intros σ1 HF1. assert (ic1 !! i = Some jp) as Hi1 by by eapply lookup_upd.
  apply wp_bind. eapply fat_iptr; [done|done|].
  assert (itype jp = d_type (dinode_on V sb (inum ip))) as Hjt by by rewrite -Hto.
  rewrite Hjt. destruct (d_type _ =? T_DIR) eqn:Ed; breflect; cbn [negb].
  2:{ apply wp_bind. eapply iunlockput_wp; [done..|]. intros ic2 σ2 _ Hci2 Hr2 HF2. apply wp_ret.
      eapply HQ; [|done]. eapply resolved_none; [cbn [walk]; by rewrite decide_False|done|].
      intros n. by rewrite Hr2 Hr1 Hnum. }
  apply wp_bind. destruct (lookup_path t r es Htn Ht0) as (c&Hc&Hcz). eapply wp_deref; [exact Hc|].
  destruct (np && (c =? 0)) eqn:Enp.
  { apply andb_true_iff in Enp as [-> Ec%Z.eqb_eq%Hcz]. apply wp_bind.
    destruct (ci_lock _ _ Hci1 _ _ Hi1 ltac:(set_solver)) as [Hlk _].
    eapply iunlock_wp; [exact HF1|done|done|lia|]. intros σ2 HF2. apply wp_ret.
    destruct (unlock_inv _ _ _ Hci1 Hi1) as [Hci2 Hr2]. eapply HQ; [|exact HF2].
    rewrite Ec. apply (resolved_last _ _ _ _ i (set_ilk (Sleeplock 0 0) jp)); try done.
    - by eapply lookup_upd.
    - split_and!; [by rewrite /= Href|done|done].
    - intros n. by rewrite Hr2 Hr1.
    - by apply name_buf_prefix. }
  apply wp_bind.
  eapply (lookup_locked_wp U ic1 i jp e name); [done|done|done|lia|by rewrite Hnum|by rewrite Hnum|done..| | |].
  { intros n. rewrite Hr1 Hnum. apply HUin. }
  { rewrite Hnum. intros σ2 Hno HF2. apply wp_bind. eapply iunlockput_wp; [done..|].
    intros ic2 σ3 _ Hci2 Hr2 HF3. apply wp_ret. eapply HQ; [|done].
    apply resolved_none; [|done|intros n; by rewrite Hr2 Hr1 Hnum].
    cbn [walk]. by rewrite decide_True // (walk_np np c es Hcz Enp) Hno. }
  rewrite Hnum. intros k de j o x jp' ic2 σ2 Hf Hci2 Hr2 Hx Hxu Hxi Hi2 Hnum2 HF2.
  apply wp_bind. eapply iunlockput_wp; [exact HF2|done|done|]. intros ic3 σ3 Hic3 Hci3 Hr3 HF3.
  rewrite Hnum2 in Hr3.
  assert (∃ y, ic3 !! j = Some y ∧ in_use ROOTDEV (de_inum de) y) as (y&Hy&Hyp&_&Hyn).
  { subst ic3. destruct (decide (j = i)) as [->|Hne].
    - assert (x = jp') as -> by congruence. eexists. split; [by eapply lookup_upd|].
      destruct Hxu as (?&?&?). specialize (Hxi eq_refl). split_and!; simpl; [lia|done|done].
    - exists x. by rewrite list_lookup_insert_ne. }
  eapply (IH t Ht0); [lia|done|exact HF3|done|done|done|done| |].
  { intros n. rewrite Hr3 Hr2 Hr1 Hyn. intros Hpos. apply HUin. lia. }
  rewrite Hyn Het. intros q name' ic' σ' Hres HF'. eapply HQ; [|done].
  eapply resolved_step; [done|by eapply walk_np|done| |done]. intros n. rewrite Hr3 Hr2 Hr1. lia.
Qed.

(** Where a path starts: at the root, or at the current directory of the
    process. *)
Definition starts_at (σ : kst (fstate B)) (ic : list inode) (s : list Z) (num : Z) : Prop :=
  if decide (s !! 0%nat = Some 47) then num = ROOTINO
  else ∃ i ip, cwd (kdata σ) !! pid = Some i ∧ ic !! i = Some ip ∧ 0 < iref ip ∧ inum ip = num.

(** The effect of path resolution on the inode cache. *)
Record named_inode (np : bool) (num : Z) (es : list (list Z)) ic (r : option nat) (name' : list Z) ic'
    : Prop := {
  nm_inv : ic_inv ∅ ic';
  nm_handle : handle ic' r (walk np num es);
  nm_refs : ∀ n, refs ic' n = refs ic n + (if decide (walk np num es = Some n) then 1 else 0);
  nm_name : ∀ e, np = true → walk np num es ≠ None → last es = Some e →
    cprefix DIRSIZ name' = cprefix DIRSIZ e
}.

Lemma namex_wp (U : gset Z) np s r ic num name σ Q :
  at_rest ic σ → ic_inv ∅ ic → 0 ∉ s → length name = DIRSIZ → is_inum ROOTINO →
  (base.size U + 2 ≤ NINODE)%nat → (∀ n, 0 < refs ic n → n ∈ U) → starts_at σ ic s num →
  (∀ q name' ic' σ', named_inode np num (elems s) ic q name' ic' → at_rest ic' σ' → Q (q, name') σ') →
  wp (namex devsw (s ++ 0 :: r) np name) Q σ.
Proof.
  destruct σ as [c0 L0 w0 d0]. intros HF Hci H0 Hn Hroot HU HUin Hst HQ. rewrite /namex.
  assert (∀ ic1 i ip σ1, ic_inv ∅ ic1 → ic1 !! i = Some ip → 0 < iref ip → inum ip = num →
    (∀ n, refs ic1 n = refs ic n + bump num n) → at_rest ic1 σ1 →
    wp (namex_loop devsw (length (s ++ 0 :: r)) i (s ++ 0 :: r) np name) Q σ1) as Hloop.
  { intros ic1 i ip σ1 Hci1 Hi Hp Hnum Hr HF1.
    eapply (namex_loop_wp U); [done|rewrite length_app; lia|done|exact HF1|done|done|done|done| |].
    - intros n. rewrite Hr Hnum. intros. apply HUin. lia.
    - intros q name' ic' σ' [? ? Hrf ?] HF'. eapply HQ; [|done]. rewrite Hnum in Hrf. subst num.
      split; [done..| |done]. intros n. rewrite Hrf Hr. lia. }
  revert Hst. rewrite /starts_at. case_decide as Hs; intros Hst.
  - subst num. apply wp_bind. eapply wp_deref.
    { rewrite lookup_app_l; [by eapply lookup_lt_Some|exact Hs]. }
    apply wp_bind. replace (47 =? 47) with true by done. eapply iget_wp; [exact HF| |].
    { eapply room; [done|exact HUin|lia]. }
    intros i ic1 σ1 Hg HF1. destruct (got_inv _ _ _ _ _ Hci Hroot Hg) as (Hci1&Hr1&(x&Hx&(?&?&?)&_)&_).
    by eapply Hloop.
  - destruct Hst as (i&ip&Hcwd&Hi&Hp&Hnum). destruct (path_first s r Hs) as (c&Hc&Hc47).
    apply wp_bind. eapply wp_deref; [exact Hc|]. rewrite (proj2 (Z.eqb_neq _ _) Hc47).
    pose proof (fat_quiet _ _ _ _ _ _ _ _ HF) as (_&_&Hpid).
    apply wp_bind, wp_bind. eapply wp_myproc_pid; [exact Hpid|]. apply wp_bind, wp_gets. apply wp_bind.
    eapply wp_deref; [exact Hcwd|]. eapply idup_wp; [exact HF|done|]. intros σ1 HF1.
    destruct (dup_inv ic i ip Hci Hi Hp) as [Hci1 Hr1]. rewrite Hnum in Hr1.
    eapply Hloop; [done|by eapply lookup_upd|simpl; lia|done|done|done].
Qed.
End Namex.
