(* ===== verification/FsThms.v ===== *)
(** * The file system: a concrete disk, and the main theorems

    A disk of 1000 blocks as [mkfs] lays it out, with a root directory that
    holds the file [hi], and the state of the kernel in a transaction on it.
    The example inputs of the file system theorems are taken from here; behind it come the theorems. *)

From S2P Require Import Prelude CInt CString Kernel Params Sleeplock Bio BioSpec Cache Log LogSpec LogCrash Txn BlockIO Fs FsBlock FsFile FsInode FsRw FsCache FsTrunc FsDir FsPath FsNamex.

Definition fs_super : superblock := Sb 1000 941 200 30 2 32 58.

Definition pad_block (l : list Z) : block := l ++ replicate (512 - length l) 0.

Definition root_dinode : dinode := Dinode T_DIR 0 0 1 48 (59 :: replicate 12 0).
Definition file_dinode : dinode := Dinode T_FILE 0 0 1 5 (60 :: replicate 12 0).

(** Inode 0 is not used; the root is inode 1 and the file is inode 2. *)
Definition fs_inodes : block :=
  pad_block (replicate 64 0 ++ dinode_enc root_dinode ++ dinode_enc file_dinode).

(** The first 61 blocks are in use. *)
Definition fs_bitmap : block := pad_block (replicate 7 255 ++ [31]).

Definition fs_root : block :=
  pad_block (new_dent [46; 0] 1 ++ new_dent [46; 46; 0] 1 ++ new_dent [104; 105; 0] 2).

Definition fs_file : block := pad_block [104; 101; 108; 108; 111].

Definition fs_disk : disk :=
  Disk (list_to_map [(1, demo_super); (32, fs_inodes); (58, fs_bitmap); (59, fs_root); (60, fs_file)])
       1000 [].

(** The contents of the disk. *)
Definition fs_V (b : Z) : block := dread fs_disk b.

Lemma fs_V_ok b : block_ok (fs_V b).
Proof.
  rewrite /fs_V /dread. destruct (dblocks fs_disk !! b) as [x|] eqn:E; [|apply zero_block_ok].
  apply elem_of_list_to_map_2 in E. change (block_ok x).
  assert (Forall (λ y : Z * block, length y.2 = Z.to_nat BSIZE ∧ Forall is_byte y.2)
    [(1, demo_super); (32, fs_inodes); (58, fs_bitmap); (59, fs_root); (60, fs_file)]) as H.
  { apply (bool_decide_unpack _). by vm_compute. }
  rewrite Forall_forall in H. exact (H _ E).
Qed.

(** ** The kernel in a transaction *)

Definition fs_boot : kst lstate := Kst (Cpu 0 true 0 true (Some 1)) ∅ ∅ (bss_lstate fs_disk).

Lemma fs_boot_layout : log_layout 2 30 fs_disk.
Proof. split; try by vm_compute. apply fs_V_ok. Qed.

Lemma fs_boot_hdr : disk_hdr_ok 2 30 fs_disk.
Proof. split; [|apply fs_V_ok]. apply hdr_ok_nil; [by vm_compute|lia]. Qed.

(** Recovery of a clean disk writes back the empty header. *)
Lemma fs_recovered b : dread (recovered 2 fs_disk) b = fs_V b.
Proof.
  destruct (decide (b = 2)) as [->|Hb]; [by rewrite recovered_hdr; vm_compute|].
  apply recovered_other; [|done]. rewrite hdr_blocks_nil; [by vm_compute|set_solver].
Qed.

Lemma fs_boot_run :
  wp (boot;; begin_op) (λ _ σ, log_at 2 30 (recovered 2 fs_disk) 1 ∅ ∅ ∅ fs_V σ) fs_boot.
Proof.
  apply wp_bind. eapply wp_mono.
  { apply (boot_wp 1 2 30 fs_disk); [done|repeat split; simpl; lia|apply fs_boot_layout|apply fs_boot_hdr]. }
  cbv beta. intros [] σ (Hf&Hinv&Hd&Hst&Hsz&Hg&Hn&Ho&Hcm). set (lg := llog (kdata σ)) in *.
  assert (Lat σ 1 ∅ ∅ ∅ lg (recovered 2 fs_disk) fs_V σ) as HL.
  { split; auto with xv6; [eapply frame_quiet; [done|repeat split; simpl; lia]|].
    intros b. rewrite (binv_view 1 ∅ ∅ ∅); [done|set_solver..|]. by rewrite Hd fs_recovered. }
  eapply begin_op_wp; [exact HL|done|rewrite Hn Ho; by vm_compute|]. intros σ' HL'.
  apply lat_rebase in HL' as [_ HL']. eexists _, []. split; [exact HL'|]. split_and!; try done.
  - destruct Hg. rewrite /recovered disksize_dwrites.
    split; simpl; try done; try lia; [vm_compute; lia|apply NoDup_nil_2|set_solver].
  - simpl. lia.
  - set_solver.
Qed.

#[global] Instance fs_io : BlockIOSpec lstate (log_home 2 30 (recovered 2 fs_disk)) (log_cap 30) :=
  log_io_spec 2 30 (recovered 2 fs_disk).

(** A state in a transaction on the example disk, with any inode cache. *)
Lemma fs_state ic (cw : gmap Z nat) :
  ∃ σ : kst (fstate lstate), Fat σ 1 ∅ ∅ ∅ fs_V ic fs_super σ ∧ cwd (kdata σ) = cw.
Proof.
  destruct (wp_inv _ _ _ fs_boot_run) as ([]&σ&_&Hat).
  exists (Kst (kcpu σ) (klocks σ) (kslp σ) (Fst (kdata σ) ic fs_super cw)).
  split; [|done]. split; [done| |done|done]. by destruct σ.
Qed.

(** ** Facts about the example *)

Lemma fs_cap : (log_cap 30 < NBUF)%nat.
Proof. vm_compute. lia. Qed.

Lemma fs_disksize : disksize (recovered 2 fs_disk) = 1000.
Proof. by rewrite /recovered disksize_dwrites. Qed.

Lemma fs_lay : fs_layout (log_home 2 30 (recovered 2 fs_disk)) fs_super 59.
Proof.
  assert (∀ b, 0 ≤ b < 1000 → BBLOCK b fs_super = 58) as HB.
  { intros b Hb. rewrite /BBLOCK /= Z.div_small; [unfold BPB, BSIZE; lia|done]. }
  assert (∀ i, 0 < i < 200 → IBLOCK i fs_super = i / IPB + 32 ∧ 0 ≤ i / IPB < 25) as HI.
  { intros i Hi. change IPB with 8. assert (0 ≤ i / 8 < 25) as Hr by (Z.div_mod_to_equations; lia).
    split; [|done]. rewrite /IBLOCK. change IPB with 8. rewrite u32_small //= /is_u32. lia. }
  split; simpl; try lia.
  - intros b Hb. rewrite HB // Z.div_small; [unfold BPB, BSIZE; lia|].
    rewrite /log_home fs_disksize. split_and!; lia.
  - intros i Hi. destruct (HI i Hi) as [-> Hr]. rewrite /log_home fs_disksize. split_and!; try lia.
    intros b Hb. rewrite HB //. lia.
  - intros b Hb. rewrite /log_home fs_disksize. lia.
Qed.

(** A property of all numbers below a bound, by evaluation. *)
Lemma below_check (P : Z → Prop) `{∀ z, Decision (P z)} n :
  bool_decide (Forall P (seqZ 0 n)) = true → ∀ z, 0 ≤ z < n → P z.
Proof.
  intros Hall%bool_decide_eq_true z Hz. rewrite Forall_forall in Hall. apply Hall, elem_of_seqZ. lia.
Qed.

Lemma fs_meta : meta_used fs_V fs_super 59.
Proof.
  intros b Hb _. revert b Hb. apply (below_check (λ b, used fs_V fs_super b = true)). by vm_compute.
Qed.

(** The inodes of the example as the cache holds them. *)
Definition fs_ino (num ref : Z) (lk : sleeplock) (d : dinode) : inode :=
  set_dinode d (Inode ROOTDEV num ref lk 1 0 0 0 0 0 []).

Definition free_ino : inode := Inode 0 0 0 (Sleeplock 0 0) 0 0 0 0 0 0 (replicate 13 0).

(** The file, locked by process 1, and the root directory. *)
Definition fs_cached (lk1 lk2 : sleeplock) : list inode :=
  fs_ino 2 1 lk1 file_dinode :: fs_ino 1 1 lk2 root_dinode :: replicate 48 free_ino.

Definition mine : sleeplock := Sleeplock 1 1.
Definition nobody : sleeplock := Sleeplock 0 0.

(** A file of one block. *)
Lemma one_block_ok ip a :
  idev ip = ROOTDEV → iaddrs ip = a :: replicate 12 0 → 59 ≤ a < 61 →
  used fs_V fs_super a = true → 0 ≤ isize ip ≤ 512 →
  file_ok (sb:=fs_super) (ds:=59) fs_V ip.
Proof.
  intros Hd Ha Hr Hu Hs.
  assert (∀ bn, 0 ≤ bn < MAXFILE → baddr fs_V ip bn = if decide (bn = 0) then a else 0) as Hb.
  { intros bn Hbn. rewrite /baddr /addr_of Ha. destruct (Z.ltb_spec bn NDIRECT); [|by case_decide; subst].
    revert bn Hbn H. intros bn [H0 _] Hlt. unfold NDIRECT in Hlt.
    destruct (decide (bn = 0)) as [->|Hne]; [done|]. destruct (Z.to_nat bn) as [|k] eqn:E; [lia|].
    assert ((a :: replicate 12 0) !! S k = Some 0) as ->; [|done].
    change (replicate 12 0 !! k = Some 0). apply lookup_replicate_2. lia. }
  assert (addr_of ip NDIRECT = 0) as Hi by by rewrite /addr_of Ha.
  split; [split|..]; rewrite ?Hi; try done.
  - by rewrite Ha.
  - intros bn Hbn. rewrite Hb //. case_decide; [|done]. intros _. split; [simpl; lia|done].
  - intros bn bn' H1 H2. rewrite !Hb //. do 2 case_decide; subst; try done.
  - unfold MAXFILE, NDIRECT, NINDIRECT, BSIZE. split; [lia|]. etrans; [apply Hs|]. done.
  - intros bn H0 Hlt. assert (bn = 0) as -> by (unfold BSIZE in Hlt; lia). rewrite Hb; [done|]. simpl. lia.
Qed.

Lemma fs_file_inv ref lk : inode_inv (sb:=fs_super) (ds:=59) fs_V (fs_ino 2 ref lk file_dinode).
Proof.
  split.
  - apply (one_block_ok _ 60); try done; first [simpl; lia|by vm_compute].
  - simpl; lia.
  - split; try done. apply (bool_decide_unpack _). by vm_compute.
  - by vm_compute.
Qed.

Lemma fs_root_inv ref lk : inode_inv (sb:=fs_super) (ds:=59) fs_V (fs_ino 1 ref lk root_dinode).
Proof.
  split.
  - apply (one_block_ok _ 59); try done; first [simpl; lia|by vm_compute].
  - simpl; lia.
  - split; try done. apply (bool_decide_unpack _). by vm_compute.
  - by vm_compute.
Qed.

Lemma fs_root_dir ref lk : dir_ok (sb:=fs_super) (ds:=59) fs_V (fs_ino 1 ref lk root_dinode).
Proof. split; [apply fs_root_inv|done|done]. Qed.

(** A device table without devices. *)
Definition no_devs (major : Z) : devops (fstate lstate) := Devops _ None None.

Lemma fs_free2 : 2 ≤ base.size (free_set (sb:=fs_super) fs_V).
Proof.
  assert (({[61; 62]} : gset Z) ⊆ free_set (sb:=fs_super) fs_V) as Hs%subseteq_size.
  { intros b [Hb%elem_of_singleton|Hb%elem_of_singleton]%elem_of_union; apply elem_of_free; subst b;
      (split; [simpl; lia|by vm_compute]). }
  etrans; [|apply inj_le, Hs]. by vm_compute.
Qed.

Lemma fs_is_inum num : is_inum (sb:=fs_super) fs_V num → num = 1 ∨ num = 2.
Proof.
  intros [Hr Ht]. assert (0 ≤ num < 200) as Hr' by (simpl in Hr; lia). clear Hr. revert num Hr' Ht.
  apply (below_check (λ num, d_type (dinode_on fs_V fs_super num) ≠ 0 → num = 1 ∨ num = 2)).
  by vm_compute.
Qed.

Lemma fs_inum1 : is_inum (sb:=fs_super) fs_V 1.
Proof. split; [simpl; lia|by vm_compute]. Qed.

Lemma fs_inum2 : is_inum (sb:=fs_super) fs_V 2.
Proof. split; [simpl; lia|by vm_compute]. Qed.

Lemma fs_tree : tree_ok (sb:=fs_super) (ds:=59) fs_V.
Proof.
  split.
  - intros num [->| ->]%fs_is_inum Ht; [|by vm_compute in Ht].
    replace (ino fs_V 1) with (fs_ino 1 0 nobody root_dinode) by by vm_compute. apply fs_root_dir.
  - intros num de [->| ->]%fs_is_inum Ht Hde _; [|by vm_compute in Ht].
    assert (Forall (λ de, de_inum de = 1 ∨ de_inum de = 2) (dents fs_V (ino (sb:=fs_super) fs_V 1))) as H.
    { apply (bool_decide_unpack _). by vm_compute. }
    rewrite Forall_forall in H. destruct (H de Hde) as [-> | ->]; [apply fs_inum1|apply fs_inum2].
  - intros num [->| ->]%fs_is_inum; by vm_compute.
Qed.

Lemma fs_cached_lookup lk1 lk2 i ip :
  fs_cached lk1 lk2 !! i = Some ip →
  (i = 0%nat ∧ ip = fs_ino 2 1 lk1 file_dinode) ∨ (i = 1%nat ∧ ip = fs_ino 1 1 lk2 root_dinode) ∨
  ip = free_ino.
Proof.
  destruct i as [|[|i]]; [by intros [= <-]; left|by intros [= <-]; right; left|].
  intros [-> _]%lookup_replicate. by right; right.
Qed.

Lemma fs_cached_ok lk1 lk2 : icache_ok (fs_cached lk1 lk2).
Proof.
  split; [done|..].
  - intros i ip [[_ ->]|[[_ ->]| ->]]%fs_cached_lookup; done.
  - intros i j ip jp [[-> ->]|[[-> ->]| ->]]%fs_cached_lookup [[-> ->]|[[-> ->]| ->]]%fs_cached_lookup
      (?&?&?) ?; done.
Qed.

Lemma fs_cached_inv : ic_inv 1 (sb:=fs_super) fs_V ∅ (fs_cached nobody nobody).
Proof.
  split; [apply fs_cached_ok|set_solver|..];
    intros i ip [[-> ->]|[[-> ->]| ->]]%fs_cached_lookup; try done.
Qed.

Lemma refs_free n k : refs (replicate k free_ino) n = 0.
Proof.
  induction k as [|k IH]; [done|]. cbn [replicate refs foldr]. rewrite /refs in IH. rewrite IH /ref_of.
  by case_decide.
Qed.

Lemma fs_cached_refs n : 0 < refs (fs_cached nobody nobody) n → n ∈ ({[1; 2]} : gset Z).
Proof.
  rewrite /fs_cached. cbn [refs foldr]. change (foldr _ 0 _) with (refs (replicate 48 free_ino) n).
  rewrite refs_free /ref_of. do 2 case_decide; set_solver by (simpl in *; lia).
Qed.

(** ** The file system: main theorems

    What [balloc], [bfree], [readi], [writei], [iget], [iput], [dirlink],
    [dirlookup] and [namei] promise, each as a statement on the run of the
    routine in a transaction, with an example on the disk above. *)

Section Thms.
Context {B : Type} `{!BlockIO B} {home : Z → Prop} {cap : nat} `{!BlockIOSpec B home cap}.
Context {S0 : Type} (σ0 : kst S0) (pid : Z) {sb : superblock} {ds : Z}.
Context (Hfl : fs_layout home sb ds) (Hcap : (cap < NBUF)%nat).
Context (devsw : Z → devops (fstate B)).
Implicit Types (X : gset Z) (V : Z → block) (ic : list inode) (ip : inode).

Notation at_rest X V ic := (Fat σ0 pid ∅ X ∅ V ic sb).

Lemma fread_written off s V ip V' ip' :
  file_written (sb:=sb) (ds:=ds) off s V ip V' ip' → 0 ≤ off → fread V' ip' off (length s) = s.
Proof.
  intros Hw Hoff. pose proof (fw_size _ _ _ _ _ _ Hw) as Hs. apply list_eq. intros j.
  destruct (decide (j < length s)%nat) as [Hj|Hj].
  2:{ rewrite !lookup_ge_None_2 ?length_fread //; lia. }
  rewrite list_lookup_fmap lookup_seq_lt; [lia|]. simpl. rewrite (fw_bytes _ _ _ _ _ _ Hw); [lia|].
  case_decide; [|lia]. replace (Z.to_nat _) with j by lia.
  by destruct (lookup_lt_is_Some_2 s j Hj) as [y ->].
Qed.

(** C25: [balloc] returns the first free block of the bitmap.  The block is
    zeroed and marked in use, no other block changes its mark, and apart from
    the block and the bitmap nothing on disk changes. *)
Theorem balloc_first_free X V ic σ :
  at_rest X V ic σ → meta_used V sb ds → (base.size X + 1 < cap)%nat →
  (∃ a, 0 ≤ a < sb_size sb ∧ used V sb a = false) →
  ∃ a V' X' σ', balloc ROOTDEV σ = Ret a σ' ∧ at_rest X' V' ic σ' ∧
    ds ≤ a < sb_size sb ∧ used V sb a = false ∧ (∀ b, 0 ≤ b < a → used V sb b = true) ∧
    V' a = zero_block ∧ used V' sb a = true ∧
    (∀ b, 0 ≤ b < sb_size sb → b ≠ a → used V' sb b = used V sb b) ∧
    (∀ b, b ≠ a → b ≠ BBLOCK a sb → V' b = V b).
Proof.
  intros HF Hmu HX Hex. pose proof (fl_ds _ _ _ Hfl) as Hds.
  destruct (wp_inv (balloc ROOTDEV) (λ a σ', ds ≤ a < sb_size sb ∧ used V sb a = false ∧
    used_below (sb:=sb) V a ∧ ∃ X', at_rest X' (upd (mark V sb a true) a zero_block) ic σ') σ)
    as (a&σ'&E&Ha&Hu&Hb&X'&HF').
  { eapply (balloc_wp σ0 pid Hfl); [exact HF|by intros ??; rewrite lookup_empty|done|..].
    - rewrite map_size_empty. lia.
    - done.
    - done.
    - intros a σ' Ha Hu Hb HF'. eauto. }
  assert (∀ c, block_ok (V c)) as Hok by (intros c; by eapply fat_block_ok).
  exists a, (alloc (sb:=sb) V a), X', σ'. split_and!; try done; try lia.
  - intros b Hlt. apply Hb; lia.
  - by rewrite /alloc upd_eq.
  - rewrite (used_alloc Hfl) //; [lia|]. by rewrite decide_True.
  - intros b Hr Hne. rewrite (used_alloc Hfl) //. by rewrite decide_False.
  - intros b H1 H2. by rewrite /alloc upd_ne // /mark upd_ne.
Qed.

(** freeing a block clears its mark and no other; freeing it again stops
    the machine with the panic the code has for it. *)
Theorem bfree_twice X V ic σ b :
  at_rest X V ic σ → (base.size X < cap)%nat → ds ≤ b < sb_size sb → used V sb b = true →
  ∃ σ1 X1 V1 σ2, bfree ROOTDEV b σ = Ret tt σ1 ∧ at_rest X1 V1 ic σ1 ∧
    used V1 sb b = false ∧
    (∀ c, 0 ≤ c < sb_size sb → c ≠ b → used V1 sb c = used V sb c) ∧
    (∀ c, ds ≤ c → V1 c = V c) ∧
    bfree ROOTDEV b σ1 = Panic "freeing free block" σ2.
Proof.
  intros HF HX Hb Hu. pose proof (fl_ds _ _ _ Hfl) as Hds.
  assert (∀ c, block_ok (V c)) as Hok by (intros c; by eapply fat_block_ok).
  destruct (wp_inv (bfree ROOTDEV b) (λ _ σ', at_rest ({[BBLOCK b sb]} ∪ X) (mark V sb b false) ic σ') σ)
    as ([]&σ1&E1&HF1).
  { eapply (bfree_wp σ0 pid Hfl); [exact HF|by intros ??; rewrite lookup_empty|..]; try done; try lia.
    rewrite map_size_empty. lia. }
  assert (used (mark V sb b false) sb b = false) as Hu1.
  { rewrite (used_mark Hfl) //; [lia..|]. by rewrite decide_True. }
  destruct (bfree_free_panics σ0 pid Hfl ∅ ({[BBLOCK b sb]} ∪ X) (mark V sb b false) ic σ1 b)
    as (σ2&E2); try done; try lia.
  { pose proof (size_union_le {[BBLOCK b sb]} X) as Hs. rewrite size_singleton in Hs.
    rewrite map_size_empty. lia. }
  exists σ1, ({[BBLOCK b sb]} ∪ X), (mark V sb b false), σ2. split_and!; try done.
  - intros c Hc Hne. rewrite (used_mark Hfl) //; [lia|]. by rewrite decide_False.
  - intros c Hc. apply (mark_data Hfl); lia.
Qed.

(** C2: writing [s] at [off] into a file succeeds with the number of bytes, and
    reading the range back gives [s].  The write changes no byte of the file
    outside the range, no block of another file and no other inode, and keeps
    the invariant of the file. *)
Theorem writei_readi X V ic i ip s off σ :
  at_rest X V ic σ → ic !! i = Some ip → inode_inv (sb:=sb) (ds:=ds) V ip → meta_used V sb ds →
  itype ip ≠ T_DEV → Forall is_byte s → 0 ≤ off ≤ isize ip → off + length s ≤ MAXFILE * BSIZE →
  base.size X + 5 * nchunks off (length s) + 1 ≤ cap →
  2 * nchunks off (length s) ≤ base.size (free_set (sb:=sb) V) →
  ∃ X' V' ip' σ1 σ2, writei devsw i s off (length s) σ = Ret (Z.of_nat (length s)) σ1 ∧
    readi devsw i off (length s) σ1 = Ret (Z.of_nat (length s), s) σ2 ∧
    file_written (sb:=sb) (ds:=ds) off s V ip V' ip' ∧
    at_rest X' V' (<[i := ip']> ic) σ1 ∧ at_rest X' V' (<[i := ip']> ic) σ2.
Proof.
  intros HF Hi Hinv Hmu Hty Hs Hoff Hlim HX Hfree.
  destruct (wp_inv (writei devsw i s off (length s)) (λ n σ', n = length s ∧ ∃ X' V' ip',
    file_written (sb:=sb) (ds:=ds) off s V ip V' ip' ∧ (base.size X' < NBUF)%nat ∧
    at_rest X' V' (<[i := ip']> ic) σ') σ) as (?&σ1&E1&->&X'&V'&ip'&Hw&HX'&HF1).
  { eapply (writei_wp σ0 pid Hfl Hcap); [exact HF|done..|lia|done|done|done|done|].
    rewrite Nat2Z.id firstn_all. intros X' V' ip' σ' Hw HX' HF'. split; [done|].
    exists X', V', ip'. split_and!; [done|lia|done]. }
  pose proof (fw_inv _ _ _ _ _ _ Hw) as Hinv'. pose proof (fw_size _ _ _ _ _ _ Hw) as Hsz.
  assert (MAXFILE * BSIZE < 2 ^ 31) as Hmax by done.
  destruct (wp_inv (readi devsw i off (length s)) (λ r σ', r = (Z.of_nat (length s), s) ∧
    at_rest X' V' (<[i := ip']> ic) σ') σ1) as (?&σ2&E2&->&HF2).
  { eapply (readi_wp σ0 pid Hfl Hcap); [exact HF1|by eapply lookup_upd|apply Hinv'|apply Hw|done| |lia..|].
    - by rewrite (fw_fields _ _ _ _ _ _ Hw).
    - intros σ' HF'. cbv zeta. rewrite Z.min_l; [lia|]. split; [|done]. f_equal. eapply fread_written; [done|lia]. }
  exists X', V', ip', σ1, σ2. done.
Qed.

(** [readi] on every branch: an offset past the end is an error, otherwise
    it returns the bytes of the file from [off], cut at the end of the file.
    It changes nothing. *)
Theorem readi_spec X V ic i ip off n σ :
  at_rest X V ic σ → ic !! i = Some ip → inode_inv (sb:=sb) (ds:=ds) V ip → meta_used V sb ds →
  (base.size X < NBUF)%nat → itype ip ≠ T_DEV → 0 ≤ off → 0 ≤ n → off + n < 2 ^ 32 →
  ∃ σ', readi devsw i off n σ =
      Ret (if decide (off ≤ isize ip) then
             let r := Z.min n (isize ip - off) in (r, fread V ip off r) else (-1, [])) σ' ∧
    at_rest X V ic σ'.
Proof.
  intros HF Hi Hinv Hmu HX Hty Ho Hn Hon. case_decide as Hd.
  - destruct (wp_inv (readi devsw i off n) (λ r σ', r = (Z.min n (isize ip - off),
      fread V ip off (Z.min n (isize ip - off))) ∧ at_rest X V ic σ') σ) as (?&σ'&E&->&HF').
    { eapply (readi_wp σ0 pid Hfl Hcap); [exact HF|done|apply Hinv|done..|]. intros σ' HF'. done. }
    by exists σ'.
  - destruct (wp_inv (readi devsw i off n) (λ r σ', r = (-1, []) ∧ at_rest X V ic σ') σ) as (?&σ'&E&->&HF').
    { eapply readi_bad_wp; [exact HF|done|done| |done]. left. lia. }
    by exists σ'.
Qed.

(** C26: [iget] keeps one entry per inode in the cache.  Asking twice for an
    inode gives the same entry: the one that held the inode, with two references
    more and otherwise as it was, or, if none did, an entry that was free, now
    with two references and to be read from disk.  All other entries stay as
    they were, and no two entries in use hold the same inode. *)
Theorem iget_unique X V ic dev num σ :
  at_rest X V ic σ → icache_ok ic →
  (∃ i ip, ic !! i = Some ip ∧ (in_use dev num ip ∨ iref ip = 0)) →
  ∃ i ip ip' σ1 σ2, iget dev num σ = Ret i σ1 ∧ iget dev num σ1 = Ret i σ2 ∧
    at_rest X V (<[i := ip']> ic) σ2 ∧ icache_ok (<[i := ip']> ic) ∧ ic !! i = Some ip ∧
    (in_use dev num ip ∧ ip' = set_iref (iref ip + 2) ip ∨
     iref ip = 0 ∧ (∀ j jp, ic !! j = Some jp → ¬ in_use dev num jp) ∧
     idev ip' = dev ∧ inum ip' = num ∧ iref ip' = 2 ∧ ivalid ip' = 0 ∧ ilk ip' = ilk ip).
Proof.
  clear Hcap. intros HF Hok Hex.
  destruct (wp_inv (iget dev num) (λ i σ', ∃ ic', got dev num ic i ic' ∧ at_rest X V ic' σ') σ)
    as (i&σ1&E1&ic1&Hg1&HF1).
  { eapply iget_wp; [exact HF|done|]. eauto. }
  destruct (got_ok _ _ _ _ _ Hok Hg1) as [Hok1 (ip1&Hi1&Hu1)].
  destruct (wp_inv (iget dev num) (λ j σ', ∃ ic', got dev num ic1 j ic' ∧ at_rest X V ic' σ') σ1)
    as (j&σ2&E2&ic2&Hg2&HF2).
  { eapply iget_wp; [exact HF1|by eauto|]. eauto. }
  destruct (got_ok _ _ _ _ _ Hok1 Hg2) as [Hok2 _].
  destruct Hg2 as [(x&Hx&Hux&->)|(x&Hx&_&Hno&_)]; [|by destruct (Hno _ _ Hi1)].
  assert (j = i) as ->.
  { destruct Hux as (?&E3&E4), Hu1 as (?&E5&E6). eapply (ok_uniq _ Hok1); [exact Hx|exact Hi1| |done].
    split_and!; congruence. }
  destruct Hg1 as [(y&Hy&Huy&->)|(y&Hy&H0&Hno&->)]; rewrite list_insert_insert_eq in HF2, Hok2;
    rewrite list_lookup_insert_eq in Hx; try (by eapply lookup_lt_Some); injection Hx as <-.
  - exists i, y, (set_iref (iref y + 2) y), σ1, σ2. simpl in *. rewrite -Z.add_assoc in HF2, Hok2. split_and!; try done. by left.
  - eexists i, y, _, σ1, σ2. split_and!; [exact E1|exact E2|exact HF2|exact Hok2|exact Hy|]. right. by split_and!.
Qed.

(** Writing a whole entry keeps a directory a directory. *)
Lemma dir_written V ip (k : nat) de V' ip' :
  dir_ok (sb:=sb) (ds:=ds) V ip → length de = 16%nat →
  file_written (sb:=sb) (ds:=ds) (k * DIRENT_SIZE) de V ip V' ip' → dir_ok (sb:=sb) (ds:=ds) V' ip'.
Proof.
  intros [Hfo Hty Hm] Hl Hw. split.
  - apply (iv_file _ _ (fw_inv _ _ _ _ _ _ Hw)).
  - by rewrite (fw_fields _ _ _ _ _ _ Hw).
  - rewrite (fw_size _ _ _ _ _ _ Hw) Hl. unfold DIRENT_SIZE in *.
    destruct (Z.max_spec (isize ip) (k * 16 + 16%nat)) as [[_ ->]|[_ ->]]; [|done].
    rewrite (_ : k * 16 + 16%nat = (k + 1) * 16); [lia|]. by rewrite Z_mod_mult.
Qed.

(** C21: Linking a new name into a directory succeeds: it writes the new entry
    into the first free slot, or behind the last one, of the directory, whose
    cached inode and inode on disk describe it, and changes no other file.
    Looking the name up then gives the linked inode at the offset of the new
    entry, and every other name is found at the entry where it was before. *)
Theorem dirlink_dirlookup X V ic i ip name num σ :
  at_rest X V ic σ → ic !! i = Some ip → dir_ok (sb:=sb) (ds:=ds) V ip →
  inode_inv (sb:=sb) (ds:=ds) V ip → meta_used V sb ds → cstr_ok DIRSIZ name →
  Forall is_byte name → 0 < num < 2 ^ 16 → list_find (named name) (dents V ip) = None →
  (dir_slot (dents V ip) + 1) * DIRENT_SIZE ≤ MAXFILE * BSIZE →
  base.size X + 6 ≤ cap → 2 ≤ base.size (free_set (sb:=sb) V) →
  (∃ j jp, j ≠ i ∧ ic !! j = Some jp ∧ iref jp = 0) →
  ∃ V' ip' j ic' jp X' σ1 σ2, dirlink devsw i name num σ = Ret 0 σ1 ∧
    at_rest X' V' (<[i := ip']> ic) σ1 ∧
    file_written (sb:=sb) (ds:=ds) (dir_slot (dents V ip) * DIRENT_SIZE) (new_dent name num) V ip V' ip' ∧
    dents V' ip' = dir_put (dir_slot (dents V ip)) (new_dent name num) (dents V ip) ∧
    dirlookup devsw i name σ1 = Ret (Some (j, dir_slot (dents V ip) * DIRENT_SIZE)) σ2 ∧
    at_rest X' V' ic' σ2 ∧ ic' !! j = Some jp ∧ in_use (idev ip) num jp ∧
    dir_ok (sb:=sb) (ds:=ds) V' ip' ∧
    (∀ n, cprefix DIRSIZ n ≠ cprefix DIRSIZ name →
       list_find (named n) (dents V' ip') = list_find (named n) (dents V ip)).
Proof.
  intros HF Hi Hd Hinv Hmu Hn Hb Hnum Hno Hlim HX Hfree (j0&jp0&Hj0&Hjp0&Hr0).
  set (k := dir_slot (dents V ip)) in *.
  destruct (wp_inv (dirlink devsw i name num) (λ r σ', r = 0 ∧ ∃ X' V' ip',
    file_written (sb:=sb) (ds:=ds) (k * DIRENT_SIZE) (new_dent name num) V ip V' ip' ∧
    dents V' ip' = dir_put k (new_dent name num) (dents V ip) ∧ (base.size X' < NBUF)%nat ∧
    at_rest X' V' (<[i := ip']> ic) σ') σ) as (?&σ1&E1&->&X'&V'&ip'&Hw&Hde&HX'&HF1).
  { eapply (dirlink_new_wp σ0 pid Hfl Hcap); [exact HF|done..|].
    intros X' V' ip' σ' Hw Hde HX' HF'. split; [done|]. exists X', V', ip'. split_and!; [done|done|lia|done]. }
  assert (dir_ok (sb:=sb) (ds:=ds) V' ip') as Hd'.
  { eapply dir_written; [done|apply length_new_dent|done]. }
  assert (list_find (named name) (dents V' ip') = Some (k, new_dent name num)) as Hfind.
  { rewrite Hde. by apply dir_put_find. }
  assert (idev ip' = idev ip) as Hdev by by rewrite (fw_fields _ _ _ _ _ _ Hw).
  destruct (wp_inv (dirlookup devsw i name) (λ r σ', ∃ j ic', r = Some (j, k * DIRENT_SIZE) ∧
    got (idev ip) num (<[i := ip']> ic) j ic' ∧ at_rest X' V' ic' σ') σ1) as (?&σ2&E2&j&ic'&->&Hg&HF2).
  { eapply (dirlookup_wp σ0 pid Hfl Hcap); [exact HF1|by eapply lookup_upd|done|apply Hw|done|done|..].
    - intros ?? _. exists j0, jp0. rewrite list_lookup_insert_ne //. auto.
    - intros σ' Hf. by rewrite Hfind in Hf.
    - intros k' de' j ic' σ'. rewrite Hfind Hdev. intros [= <- <-]. rewrite new_dent_inum; [lia|].
      intros Hg HF'. eauto. }
  assert (∃ jp, ic' !! j = Some jp ∧ in_use (idev ip) num jp) as (jp&Hj&Hu).
  { destruct Hg as [(x&Hx&(?&?&?)&->)|(x&Hx&?&?&->)]; (eexists; split; [by eapply lookup_upd|]);
      split_and!; simpl; try done; lia. }
  exists V', ip', j, ic', jp, X', σ1, σ2. split_and!; try done.
  intros n Hne. rewrite Hde. by apply dir_put_other.
Qed.

(** C22: dropping the last reference to an unlinked inode frees the inode and
    exactly the blocks of its file, and no other inode changes. *)
Theorem iput_frees X V ic i ip σ :
  at_rest X V ic σ → ic !! i = Some ip → slocked (ilk ip) = 0 → ivalid ip ≠ 0 →
  inlink ip = 0 → iref ip = 1 → inode_wf (sb:=sb) (ds:=ds) V ip →
  0 < inum ip < sb_ninodes sb → dinode_rng (to_dinode ip) →
  (base.size ({[IBLOCK (inum ip) sb]} ∪ X ∪ bm_blocks sb) < cap)%nat →
  ∃ X' V' ip' σ', iput i σ = Ret tt σ' ∧ at_rest X' V' (<[i := ip']> ic) σ' ∧
    iref ip' = 0 ∧ ivalid ip' = 0 ∧ slocked (ilk ip') = 0 ∧
    d_type (dinode_on V' sb (inum ip)) = 0 ∧ d_size (dinode_on V' sb (inum ip)) = 0 ∧
    (∀ b, 0 ≤ b < sb_size sb → owned V ip b → used V' sb b = false) ∧
    (∀ b, 0 ≤ b < sb_size sb → ¬ owned V ip b → used V' sb b = used V sb b) ∧
    (∀ num, 0 < num < sb_ninodes sb → num ≠ inum ip → dinode_on V' sb num = dinode_on V sb num).
Proof.
  intros HF Hi Hlk Hv Hnl Hr Hwf Hnum Hrng HX.
  destruct (wp_inv (iput i) (λ _ σ', ∃ X' V1 V2, freed (sb:=sb) (file_blocks V ip) V V1 ∧
     (∀ b, b ≠ IBLOCK (inum ip) sb → V2 b = V1 b) ∧ dinode_on V2 sb (inum ip) = dead_dinode ip ∧
     (∀ num, 0 < num < sb_ninodes sb → num ≠ inum ip → dinode_on V2 sb num = dinode_on V sb num) ∧
     at_rest X' V2 (<[i := dropped ip]> ic) σ') σ)
    as ([]&σ'&E&X'&V1&V2&Hfr&Hblk&Hdead&Hoth&HF').
  { eapply (iput_free_wp σ0 pid Hfl Hcap); [exact HF|done..|]. eauto 10. }
  assert (∀ b, 0 ≤ b < sb_size sb → used V2 sb b = used V1 sb b) as Hu.
  { intros b Hb. rewrite /used Hblk //. destruct (fl_inode _ _ _ Hfl _ Hnum) as (_&_&_&H).
    symmetry. by apply H. }
  exists X', V2, (dropped ip), σ'. split_and!; try done; rewrite ?Hdead //.
  - intros b Hb Ho. rewrite Hu // (fr_used _ _ _ Hfr) // decide_True //. by apply (elem_of_file_blocks Hcap).
  - intros b Hb Ho. rewrite Hu // (fr_used _ _ _ Hfr) // decide_False //. by rewrite (elem_of_file_blocks Hcap).
Qed.

(** C36: [dirlink] in a directory locked by the caller, of a name whose entry is
    the directory itself (as [.] is), does not return an error: it goes to
    sleep on the lock the caller itself holds. *)
Theorem dirlink_dot_sleeps X V ic i ip name num k de σ :
  at_rest X V ic σ → icache_ok ic → ic !! i = Some ip → dir_ok (sb:=sb) (ds:=ds) V ip →
  meta_used V sb ds → (base.size X < NBUF)%nat → cstr_ok DIRSIZ name →
  list_find (named name) (dents V ip) = Some (k, de) →
  1 ≤ iref ip → de_inum de = inum ip → ilk ip = Sleeplock 1 pid →
  ∃ σ', dirlink devsw i name num σ = Sleep (CSleep (SInode i)) (Lsleep (SInode i)) σ' ∧
    ilk <$> icache (kdata σ') !! i = Some (Sleeplock 1 pid).
Proof. intros. by eapply (dirlink_self σ0 pid Hfl Hcap). Qed.

(** C6: path resolution.  [namex] terminates and returns a handle on the inode
    that walking the elements of the path through the directories on disk
    gives (of the parent of the last one in the mode of [nameiparent], with
    the last element in [name]), or 0 if an element is missing or not a
    directory.  No inode lock stays held, and every reference count is as
    before, but for one more reference to the result. *)
Theorem namex_resolves X V ic (U : gset Z) np s r num name σ :
  (base.size X < NBUF)%nat → tree_ok (sb:=sb) (ds:=ds) V → meta_used V sb ds →
  at_rest X V ic σ → ic_inv pid (sb:=sb) V ∅ ic → 0 ∉ s → length name = DIRSIZ →
  is_inum (sb:=sb) V ROOTINO →
  (base.size U + 2 ≤ NINODE)%nat → (∀ n, 0 < refs ic n → n ∈ U) → starts_at pid σ ic s num →
  ∃ q name' ic' σ', namex devsw (s ++ 0 :: r) np name σ = Ret (q, name') σ' ∧ at_rest X V ic' σ' ∧
    ic_inv pid (sb:=sb) V ∅ ic' ∧ handle ic' q (walk (sb:=sb) V np num (elems s)) ∧
    (∀ n, refs ic' n = refs ic n +
       (if decide (walk (sb:=sb) V np num (elems s) = Some n) then 1 else 0)) ∧
    (∀ e, np = true → q ≠ None → last (elems s) = Some e → cprefix DIRSIZ name' = cprefix DIRSIZ e).
Proof.
  intros HX Htree Hmu HF Hci H0 Hn Hroot HU HUin Hst.
  destruct (wp_inv (namex devsw (s ++ 0 :: r) np name) (λ a σ', ∃ ic',
    named_inode pid (sb:=sb) V np num (elems s) ic a.1 a.2 ic' ∧ at_rest X V ic' σ') σ)
    as ([q name']&σ'&E&ic'&[Hci' Hh Hr Hnm]&HF').
  { eapply (namex_wp σ0 pid Hfl Hcap devsw V X HX Htree Hmu U); [exact HF|done..|]. eauto. }
  exists q, name', ic', σ'. split_and!; try done.
  intros e Hnp Hq. apply Hnm; [done|]. simpl in Hh. rewrite /handle in Hh.
  destruct (walk _ _ _ _); [done|]. by destruct Hq.
Qed.
End Thms.

(** [skipelem] splits a path the way its comment says: it returns 0 when no
    element is left, and otherwise stores the first element (cut to DIRSIZ
    characters, so that it compares like the element) and returns the rest,
    which has the remaining elements, is shorter, and starts with an element
    or is empty. *)
Theorem skipelem_elems s r name :
  0 ∉ s → length name = DIRSIZ →
  match elems s with
  | [] => skipelem (s ++ 0 :: r) name = Some None
  | e :: es => ∃ t name', skipelem (s ++ 0 :: r) name = Some (Some (t ++ 0 :: r, name')) ∧
      elems t = es ∧ (length t < length s)%nat ∧ (t = [] ↔ es = []) ∧
      length name' = DIRSIZ ∧ cprefix DIRSIZ name' = take DIRSIZ e
  end.
Proof.
  intros H0 Hn. pose proof (skipelem_spec s r name H0) as Hs. destruct (elems s) as [|e es]; [done|].
  destruct Hs as (t&Hs&He&Ht0&He0&Htn&Hl). exists t, (name_buf e name).
  split_and!; try done; [by apply length_name_buf|]. by rewrite name_buf_prefix // cprefix_long.
Qed.

(** ** Examples *)

Lemma balloc_first_free_witness :
  ∃ (σ σ' : kst (fstate lstate)), balloc ROOTDEV σ = Ret 61 σ'.
Proof.
  destruct (fs_state (fs_cached nobody nobody) ∅) as (σ&HF&_).
  destruct (balloc_first_free σ 1 fs_lay fs_cap ∅ fs_V _ σ HF fs_meta) as (a&V'&X'&σ'&E&_&Ha&Hu&Hlt&_).
  - vm_compute. lia.
  - exists 61. split; [simpl; lia|by vm_compute].
  - exists σ, σ'. assert (a = 61) as ->; [|exact E].
    destruct (Z.lt_total a 61) as [Hl|[Hl|Hl]]; [|done|].
    + assert (a = 59 ∨ a = 60) as [-> | ->] by lia; by vm_compute in Hu.
    + specialize (Hlt 61 ltac:(lia)). by vm_compute in Hlt.
Defined.

Lemma bfree_twice_witness :
  ∃ (σ σ1 σ2 : kst (fstate lstate)), bfree ROOTDEV 60 σ = Ret tt σ1 ∧
    bfree ROOTDEV 60 σ1 = Panic "freeing free block" σ2.
Proof.
  destruct (fs_state (fs_cached nobody nobody) ∅) as (σ&HF&_).
  destruct (bfree_twice σ 1 fs_lay fs_cap ∅ fs_V _ σ 60 HF) as (σ1&_&_&σ2&E1&_&_&_&_&E2).
  - vm_compute. lia.
  - simpl. lia.
  - by vm_compute.
  - exists σ, σ1, σ2. by split.
Defined.

Lemma writei_readi_witness :
  ∃ (σ σ1 σ2 : kst (fstate lstate)), writei no_devs 0 [1; 2; 3] 5 3 σ = Ret 3 σ1 ∧
    readi no_devs 0 5 3 σ1 = Ret (3, [1; 2; 3]) σ2.
Proof.
  destruct (fs_state (fs_cached mine nobody) ∅) as (σ&HF&_).
  destruct (writei_readi σ 1 fs_lay fs_cap no_devs ∅ fs_V _ 0%nat (fs_ino 2 1 mine file_dinode)
    [1; 2; 3] 5 σ HF eq_refl (fs_file_inv _ _) fs_meta) as (_&_&_&σ1&σ2&E1&E2&_).
  - done.
  - apply (bool_decide_unpack _). by vm_compute.
  - by simpl.
  - by vm_compute.
  - by vm_compute.
  - apply fs_free2.
  - exists σ, σ1, σ2. by split.
Defined.

Lemma readi_spec_witness :
  ∃ (σ σ' : kst (fstate lstate)), readi no_devs 0 0 9 σ = Ret (5, [104; 101; 108; 108; 111]) σ'.
Proof.
  destruct (fs_state (fs_cached mine nobody) ∅) as (σ&HF&_).
  destruct (readi_spec σ 1 fs_lay fs_cap no_devs ∅ fs_V _ 0%nat (fs_ino 2 1 mine file_dinode)
    0 9 σ HF eq_refl (fs_file_inv _ _) fs_meta) as (σ'&E&_); [vm_compute; lia|done..|].
  exists σ, σ'. rewrite E. by vm_compute.
Defined.

Lemma iget_unique_witness :
  ∃ i (σ σ1 σ2 : kst (fstate lstate)), iget ROOTDEV 2 σ = Ret i σ1 ∧ iget ROOTDEV 2 σ1 = Ret i σ2.
Proof.
  destruct (fs_state (fs_cached nobody nobody) ∅) as (σ&HF&_).
  destruct (iget_unique σ 1 ∅ fs_V _ ROOTDEV 2 σ HF) as (i&_&_&σ1&σ2&E1&E2&_).
  - apply fs_cached_ok.
  - exists 0%nat. eexists. split; [reflexivity|]. left. by split_and!.
  - exists i, σ, σ1, σ2. by split.
Defined.

Lemma dirlink_dirlookup_witness :
  ∃ j (σ σ1 σ2 : kst (fstate lstate)), dirlink no_devs 1 [121; 0] 2 σ = Ret 0 σ1 ∧
    dirlookup no_devs 1 [121; 0] σ1 = Ret (Some (j, 48)) σ2.
Proof.
  destruct (fs_state (fs_cached nobody mine) ∅) as (σ&HF&_).
  destruct (dirlink_dirlookup σ 1 fs_lay fs_cap no_devs ∅ fs_V _ 1%nat (fs_ino 1 1 mine root_dinode)
    [121; 0] 2 σ HF eq_refl (fs_root_dir _ _) (fs_root_inv _ _) fs_meta)
    as (_&_&j&_&_&_&σ1&σ2&E1&_&_&_&E2&_).
  - right. by vm_compute; constructor 2; constructor.
  - apply (bool_decide_unpack _). by vm_compute.
  - done.
  - by vm_compute.
  - by vm_compute.
  - by vm_compute.
  - apply fs_free2.
  - exists 2%nat. eexists. split; [done|]. split; reflexivity.
  - exists j, σ, σ1, σ2. by split.
Defined.

Definition unlinked : inode := fs_ino 2 1 nobody (Dinode T_FILE 0 0 0 5 (60 :: replicate 12 0)).

Lemma unlinked_owned : ¬ owned fs_V unlinked 59.
Proof.
  intros [_ [H|(bn&Hbn&H)]]; [by vm_compute in H|].
  assert (∀ bn, 0 ≤ bn < 140 → 59 ≠ baddr fs_V unlinked bn) as Hno; [|by apply (Hno bn)].
  apply (below_check (λ bn, 59 ≠ baddr fs_V unlinked bn)). by vm_compute.
Qed.

Lemma iput_frees_witness :
  ∃ V' (σ σ' : kst (fstate lstate)), iput 0 σ = Ret tt σ' ∧ used V' fs_super 60 = false ∧
    used V' fs_super 59 = true.
Proof.
  destruct (fs_state (unlinked :: replicate 49 free_ino) ∅) as (σ&HF&_).
  destruct (iput_frees σ 1 fs_lay fs_cap ∅ fs_V _ 0%nat unlinked σ HF eq_refl)
    as (_&V'&_&σ'&E&_&_&_&_&_&_&Hown&Hoth&_); try done.
  - apply (one_block_ok _ 60); try done; first [simpl; lia|by vm_compute].
  - split; try done. apply (bool_decide_unpack _). by vm_compute.
  - vm_compute; lia.
  - exists V', σ, σ'. split; [exact E|]. split.
    + apply Hown; [simpl; lia|]. split; [done|]. right. exists 0. by vm_compute.
    + rewrite Hoth; [simpl; lia| |by vm_compute]. apply unlinked_owned.
Defined.

Lemma dirlink_dot_sleeps_witness :
  ∃ (σ σ' : kst (fstate lstate)),
    dirlink no_devs 1 [46; 0] 2 σ = Sleep (CSleep (SInode 1)) (Lsleep (SInode 1)) σ'.
Proof.
  destruct (fs_state (fs_cached nobody mine) ∅) as (σ&HF&_).
  destruct (dirlink_dot_sleeps σ 1 fs_lay fs_cap no_devs ∅ fs_V _ 1%nat (fs_ino 1 1 mine root_dinode)
    [46; 0] 2 0 (dent fs_V (fs_ino 1 1 mine root_dinode) 0) σ HF (fs_cached_ok _ _) eq_refl
    (fs_root_dir _ _) fs_meta) as (σ'&E&_); try done.
  - vm_compute. lia.
  - right. by vm_compute; constructor 2; constructor.
  - exists σ, σ'. exact E.
Defined.

Lemma namex_resolves_witness :
  ∃ q name' (σ σ' : kst (fstate lstate)),
    namex no_devs [47; 104; 105; 0] false (replicate DIRSIZ 0) σ = Ret (Some q, name') σ'.
Proof.
  destruct (fs_state (fs_cached nobody nobody) ∅) as (σ&HF&_).
  destruct (namex_resolves σ 1 fs_lay fs_cap no_devs ∅ fs_V (fs_cached nobody nobody) {[1; 2]} false
    [47; 104; 105] [] ROOTINO (replicate DIRSIZ 0) σ) as (q&name'&ic'&σ'&E&_&_&Hh&_).
  - vm_compute. lia.
  - apply fs_tree.
  - apply fs_meta.
  - exact HF.
  - apply fs_cached_inv.
  - apply (bool_decide_unpack _). by vm_compute.
  - done.
  - apply fs_inum1.
  - vm_compute. lia.
  - apply fs_cached_refs.
  - done.
  - replace (walk fs_V false ROOTINO (elems [47; 104; 105])) with (Some 2) in Hh by by vm_compute.
    destruct Hh as (j&_&->&_). exists j, name', σ, σ'. exact E.
Defined.

Lemma skipelem_elems_witness :
  ∃ t name', skipelem [47; 97; 47; 47; 98; 0] (replicate DIRSIZ 0) = Some (Some (t ++ [0], name')) ∧
    elems t = [[98]].
Proof.
  pose proof (skipelem_elems [47; 97; 47; 47; 98] [] (replicate DIRSIZ 0)) as H.
  replace (elems [47; 97; 47; 47; 98]) with [[97]; [98]] in H by by vm_compute.
  destruct H as (t&name'&E&He&_); [apply (bool_decide_unpack _); by vm_compute|done|].
  exists t, name'. by split.
Defined.
