(* ===== verification/Kalloc.v ===== *)
(** * Physical memory and its allocator

    Models [src/Xv6-Syscall/src/kalloc.c].  Physical memory is a map from page
    numbers to pages of 4096 bytes; kernel code addresses it through the
    mapping at KERNBASE.  The free list is threaded through the free pages
    themselves ([struct run]): [free_chain] relates it to the list of free
    pages. *)

From S2P Require Import Prelude CInt Kernel Params Sleeplock.

Definition page := list Z.

(** [kmem], [kpgdir] of vm.c, the page table register and the kernel stack
    pointer of the task state. *)
Record vmem := Vmem {
  ram : gmap Z page;
  use_lock : bool;
  freelist : Z;
  kpgdir : Z;
  cr3 : Z;
  esp0 : Z
}.

Definition set_ram (r : gmap Z page) (s : vmem) : vmem :=
  Vmem r (use_lock s) (freelist s) (kpgdir s) (cr3 s) (esp0 s).
Definition set_use_lock (b : bool) (s : vmem) : vmem :=
  Vmem (ram s) b (freelist s) (kpgdir s) (cr3 s) (esp0 s).
Definition set_freelist (v : Z) (s : vmem) : vmem :=
  Vmem (ram s) (use_lock s) v (kpgdir s) (cr3 s) (esp0 s).
Definition set_kpgdir (v : Z) (s : vmem) : vmem :=
  Vmem (ram s) (use_lock s) (freelist s) v (cr3 s) (esp0 s).
Definition set_cr3 (v : Z) (s : vmem) : vmem :=
  Vmem (ram s) (use_lock s) (freelist s) (kpgdir s) v (esp0 s).
Definition set_esp0 (v : Z) (s : vmem) : vmem :=
  Vmem (ram s) (use_lock s) (freelist s) (kpgdir s) (cr3 s) v.

(** ** Accesses through kernel addresses *)

(** The page and the offset a kernel address names. *)
Definition pn (v : Z) : Z := V2P v / PGSIZE.
Definition po (v : Z) : nat := Z.to_nat (V2P v mod PGSIZE).

Definition get_page (v : Z) : K vmem page := r ← gets ram; deref (r !! pn v).
Definition put_page (v : Z) (p : page) : K vmem unit :=
  modify (λ s, set_ram (<[pn v := p]> (ram s)) s).

Definition rd32 (v : Z) : K vmem Z := p ← get_page v; mret (le_val (slice (po v) 4 p)).
Definition wr32 (v w : Z) : K vmem unit :=
  p ← get_page v; put_page v (blit (po v) (le_bytes 4 (u32 w)) p).

Section Kalloc.
(** [end], the first address after the kernel. *)
Context (kend : Z).

Definition if_lock (m : K vmem unit) : K vmem unit :=
  l ← gets use_lock; if (l : bool) then m else mret ().

Definition kfree (v : Z) : K vmem unit :=
  if negb (v mod PGSIZE =? 0) || (v <? kend) || (PHYSTOP <=? V2P v) then panic "kfree" else
  _ ← get_page v;
  put_page v (replicate (Z.to_nat PGSIZE) (u8 1));;
  if_lock (acquire Lkmem);;
  f ← gets freelist;
  wr32 v f;;
  modify (set_freelist v);;
  if_lock (release Lkmem).

Definition kalloc : K vmem Z :=
  if_lock (acquire Lkmem);;
  r ← gets freelist;
  (if r =? 0 then mret () else n ← rd32 r; modify (set_freelist n));;
  if_lock (release Lkmem);;
  mret r.

(** [for(; p + PGSIZE <= vend; p += PGSIZE)] for addresses that do not wrap. *)
Definition freerange (vstart vend : Z) : K vmem unit :=
  let p := PGROUNDUP vstart in
  for_each ((λ k : nat, p + k * PGSIZE) <$> seq 0 (Z.to_nat ((vend - p) / PGSIZE))) kfree.

Definition kinit1 (vstart vend : Z) : K vmem unit :=
  initlock Lkmem;;
  modify (set_use_lock false);;
  freerange vstart vend.

Definition kinit2 (vstart vend : Z) : K vmem unit :=
  freerange vstart vend;;
  modify (set_use_lock true).

(** ** The free list *)

(** A page the allocator may hand out. *)
Definition page_addr (v : Z) : Prop :=
  v mod PGSIZE = 0 ∧ kend ≤ v < KERNBASE + PHYSTOP.

(** The word at kernel address [v]. *)
Definition word (r : gmap Z page) (v : Z) : Z := le_val (slice (po v) 4 (default [] (r !! pn v))).

Fixpoint free_chain (r : gmap Z page) (v : Z) (l : list Z) : Prop :=
  match l with
  | [] => v = 0
  | a :: l => v = a ∧ free_chain r (word r a) l
  end.

(** All pages the allocator manages are there, and have their size. *)
Definition ram_ok (r : gmap Z page) : Prop :=
  ∀ v, page_addr v → ∃ p, r !! pn v = Some p ∧ length p = Z.to_nat PGSIZE ∧ Forall is_byte p.

Record kmem_ok (l : list Z) (s : vmem) : Prop := {
  km_chain : free_chain (ram s) (freelist s) l;
  km_nodup : NoDup l;
  km_addr : Forall page_addr l;
  km_ram : ram_ok (ram s)
}.

Context (Hend : KERNBASE ≤ kend).

Lemma page_addr_V2P v : page_addr v → V2P v = v - KERNBASE.
Proof.
  intros [_ Hv]. rewrite /V2P u32_small //. unfold KERNBASE, PHYSTOP, is_u32 in *. lia.
Qed.

Lemma page_addr_pn v : page_addr v → v = KERNBASE + pn v * PGSIZE.
Proof.
  intros Hv. rewrite /pn page_addr_V2P //. destruct Hv as [Hm _].
  unfold PGSIZE, KERNBASE in *. Z.div_mod_to_equations. lia.
Qed.

Lemma pn_inj v w : page_addr v → page_addr w → pn v = pn w → v = w.
Proof. intros Hv Hw E. rewrite (page_addr_pn v Hv) (page_addr_pn w Hw) E //. Qed.

Lemma page_addr_po v : page_addr v → po v = 0%nat.
Proof.
  intros Hv. rewrite /po page_addr_V2P //. destruct Hv as [Hm _].
  unfold PGSIZE, KERNBASE in *. Z.div_mod_to_equations. lia.
Qed.

Lemma page_addr_nonzero v : page_addr v → v ≠ 0.
Proof. intros [_ Hv]. unfold KERNBASE in *. lia. Qed.

Lemma word_other r v w p : pn v ≠ pn w → word (<[pn v := p]> r) w = word r w.
Proof. intros Hne. by rewrite /word lookup_insert_ne. Qed.

(** Writing a page that is not free keeps the free list. *)
Lemma chain_other r x v p l :
  page_addr v → v ∉ l → Forall page_addr l →
  free_chain r x l → free_chain (<[pn v := p]> r) x l.
Proof.
  intros Hv Hn Hl. revert x. induction Hl as [|a l Ha Hl IH]; intros x; [done|].
  apply not_elem_of_cons in Hn as [Hne Hn]. intros [-> Hc]. split; [done|].
  rewrite word_other; [|by apply IH]. intros E. by apply Hne, pn_inj.
Qed.

Lemma ram_ok_put r v p :
  ram_ok r → length p = Z.to_nat PGSIZE → Forall is_byte p → ram_ok (<[pn v := p]> r).
Proof.
  intros Hr Hl Hb w Hw. destruct (decide (pn v = pn w)) as [E|E].
  - rewrite E lookup_insert_eq. eauto.
  - rewrite lookup_insert_ne //. by apply Hr.
Qed.

(** Writing an allocated page keeps the allocator's invariant. *)
Lemma kmem_ok_put l s v p :
  kmem_ok l s → page_addr v → v ∉ l → length p = Z.to_nat PGSIZE → Forall is_byte p →
  kmem_ok l (set_ram (<[pn v := p]> (ram s)) s).
Proof.
  intros [Hc Hn Ha Hr] Hv Hnl Hl Hb. split; simpl; [by apply chain_other|done|done|by apply ram_ok_put].
Qed.

(** ** Specifications *)

(** A page as [kfree] leaves it: junk, with the link in its first word. *)
Definition run_page (next : Z) : page :=
  blit 0 (le_bytes 4 (u32 next)) (replicate (Z.to_nat PGSIZE) (u8 1)).

Lemma run_page_length next : length (run_page next) = Z.to_nat PGSIZE.
Proof.
  rewrite length_blit length_replicate // length_le_bytes. unfold PGSIZE. lia.
Qed.

Lemma run_page_bytes next : Forall is_byte (run_page next).
Proof.
  apply Forall_app. split; [by rewrite take_0; constructor|].
  apply Forall_app. split; [auto with xv6|]. by apply Forall_drop, Forall_replicate.
Qed.

Lemma run_page_word next : 0 ≤ next < 2 ^ 32 → le_val (slice 0 4 (run_page next)) = next.
Proof.
  intros Hn. rewrite /run_page slice_blit_eq ?length_le_bytes //.
  { rewrite length_replicate. unfold PGSIZE. lia. }
  by rewrite u32_small // le_val_bytes_id.
Qed.

Lemma freelist_range l s : kmem_ok l s → 0 ≤ freelist s < 2 ^ 32.
Proof.
  intros [Hc _ Ha _]. destruct l as [|a l]; [by rewrite Hc|]. destruct Hc as [-> _].
  inversion Ha as [|? ? [_ Hr]]; subst. unfold KERNBASE, PHYSTOP in *. lia.
Qed.

(** CPU and lock table while [kmem.lock] is held, if it is in use. *)
Definition kheld (b : bool) (c : cpu) : cpu := if b then pushed c else c.
Definition klocked (b : bool) (c : cpu) (L : gmap lockid Z) : gmap lockid Z :=
  if b then <[Lkmem := apicid c]> L else L.

Lemma wp_if_lock_acquire c L w s Q :
  cpu_ok c → L !! Lkmem = None →
  Q tt (Kst (kheld (use_lock s) c) (klocked (use_lock s) c L) w s) →
  wp (if_lock (acquire Lkmem)) Q (Kst c L w s).
Proof.
  intros Hc HL HQ. rewrite /if_lock. apply wp_bind, wp_gets. cbn [kdata].
  destruct (use_lock s); [by apply wp_acquire|by apply wp_ret].
Qed.

Lemma wp_if_lock_release b c L w s Q :
  cpu_ok c → L !! Lkmem = None → use_lock s = b → Q tt (Kst c L w s) →
  wp (if_lock (release Lkmem)) Q (Kst (kheld b c) (klocked b c L) w s).
Proof.
  intros Hc HL Hb HQ. rewrite /if_lock. apply wp_bind, wp_gets. cbn [kdata]. rewrite Hb.
  destruct b; [by apply wp_release_last|by apply wp_ret].
Qed.

Lemma wp_get_page v p (σ : kst vmem) Q :
  ram (kdata σ) !! pn v = Some p → Q p σ → wp (get_page v) Q σ.
Proof. intros Hp HQ. rewrite /get_page. apply wp_bind, wp_gets. by eapply wp_deref. Qed.

Lemma wp_rd32 v (σ : kst vmem) Q :
  is_Some (ram (kdata σ) !! pn v) → Q (word (ram (kdata σ)) v) σ → wp (rd32 v) Q σ.
Proof.
  intros [p Hp] HQ. rewrite /rd32. apply wp_bind. eapply wp_get_page; [done|]. apply wp_ret.
  by rewrite /word Hp in HQ.
Qed.

(** [kfree] puts the page in front of the free list. *)
Lemma kfree_wp l v c L w s Q :
  cpu_ok c → L !! Lkmem = None → kmem_ok l s → page_addr v → v ∉ l →
  (∀ s', kmem_ok (v :: l) s' →
     s' = set_freelist v (set_ram (<[pn v := run_page (freelist s)]> (ram s)) s) →
     Q tt (Kst c L w s')) →
  wp (kfree v) Q (Kst c L w s).
Proof.
  intros Hc HL Hk Hv Hnl HQ. rewrite /kfree. pose proof Hv as [Hm Hr].
  pose proof (page_addr_V2P v Hv) as HV.
  rewrite Hm (proj2 (Z.ltb_ge _ _)); [lia|]. rewrite HV (proj2 (Z.leb_gt _ _)); [lia|]. cbn [orb negb].
  replace (0 =? 0) with true by done. cbn [orb negb].
  destruct (km_ram _ _ Hk v Hv) as (p&Hp&Hlp&_).
  apply wp_bind. eapply wp_get_page; [exact Hp|]. apply wp_bind, wp_modify. kst_simpl.
  apply wp_bind. apply wp_if_lock_acquire; [done|done|]. apply wp_bind, wp_gets. cbn [kdata freelist set_ram].
  apply wp_bind. rewrite /wr32. apply wp_bind. eapply wp_get_page; [by rewrite /= lookup_insert_eq|].
  apply wp_modify. kst_simpl. apply wp_bind, wp_modify. kst_simpl.
  rewrite page_addr_po //. cbn [set_ram ram]. rewrite insert_insert_eq.
  apply (wp_if_lock_release (use_lock s)); [done|done|done|]. apply HQ; [|done].
  pose proof (freelist_range l s Hk) as Hf. destruct Hk as [Hch Hnd Ha Hram].
  split; simpl; [|by constructor|by constructor|].
  - split; [done|]. rewrite /word lookup_insert_eq /= page_addr_po // run_page_word //.
    by apply chain_other.
  - apply ram_ok_put; [done|apply run_page_length|apply run_page_bytes].
Qed.

(** [kfree] of an address that is not a page of its own panics. *)
Lemma kfree_bad v σ : ¬ page_addr v → 0 ≤ v < 2 ^ 32 → kfree v σ = Panic "kfree" σ.
Proof.
  intros Hv Hr. rewrite /kfree.
  rewrite (_ : _ || _ || _ = true) //. destruct (_ || _) eqn:E; [done|]. apply orb_false_iff in E as [E1 E2].
  breflect. destruct Hv. rewrite /V2P u32_small in E2; [unfold is_u32, KERNBASE in *; lia|].
  split; [done|unfold KERNBASE in *; lia].
Qed.

(** [kalloc] takes the first page of the free list, or returns 0. *)
Lemma kalloc_wp l c L w s Q :
  cpu_ok c → L !! Lkmem = None → kmem_ok l s →
  (l = [] → Q 0 (Kst c L w s)) →
  (∀ v l' s', l = v :: l' → kmem_ok l' s' → page_addr v → v ∉ l' →
     s' = set_freelist (word (ram s) v) s → Q v (Kst c L w s')) →
  wp kalloc Q (Kst c L w s).
Proof.
  intros Hc HL Hk HQ0 HQ1. rewrite /kalloc. apply wp_bind, wp_if_lock_acquire; [done|done|].
  apply wp_bind, wp_gets. cbn [kdata]. pose proof Hk as [Hch Hnd Ha Hram]. destruct l as [|v l].
  - simpl in Hch. rewrite Hch. apply wp_bind, wp_ret, wp_bind.
    apply (wp_if_lock_release (use_lock s)); [done..|]. by apply wp_ret, HQ0.
  - destruct Hch as [Hf Hch]. apply Forall_cons in Ha as [Hv Ha]. apply NoDup_cons in Hnd as [Hnv Hnd].
    rewrite Hf (proj2 (Z.eqb_neq _ _) (page_addr_nonzero v Hv)).
    destruct (Hram v Hv) as (p&Hp&_).
    apply wp_bind, wp_bind. apply wp_rd32; [by rewrite /= Hp|]. apply wp_modify. kst_simpl.
    apply wp_bind. apply (wp_if_lock_release (use_lock s)); [done..|]. apply wp_ret.
    eapply HQ1; [done| |done|done|done]. split; done.
Qed.

(** The whole pages between two addresses. *)
Definition pages (vstart vend : Z) : list Z :=
  (λ k : nat, PGROUNDUP vstart + k * PGSIZE) <$> seq 0 (Z.to_nat ((vend - PGROUNDUP vstart) / PGSIZE)).

Lemma pages_NoDup a b : NoDup (pages a b).
Proof. apply NoDup_fmap; [|apply NoDup_seq]. intros j k E. unfold PGSIZE in E. lia. Qed.

Lemma freerange_wp vstart vend l c L w s Q :
  cpu_ok c → L !! Lkmem = None → kmem_ok l s →
  Forall page_addr (pages vstart vend) → (∀ v, v ∈ pages vstart vend → v ∉ l) →
  (∀ s', kmem_ok (reverse (pages vstart vend) ++ l) s' → use_lock s' = use_lock s →
     Q tt (Kst c L w s')) →
  wp (freerange vstart vend) Q (Kst c L w s).
Proof.
  intros Hc HL Hk Ha Hd HQ. rewrite /freerange -/(pages vstart vend).
  pose proof (pages_NoDup vstart vend) as Hn.
  apply (wp_for_each _ _ (λ todo σ, ∃ fr s', pages vstart vend = fr ++ todo ∧ σ = Kst c L w s' ∧
    kmem_ok (reverse fr ++ l) s' ∧ use_lock s' = use_lock s)).
  - by exists [], s.
  - intros v todo σ _ (fr&s'&Hp&->&Hk'&Hu). rewrite Hp in Hn, Ha, Hd.
    apply NoDup_app in Hn as (_&Hfr&Htd). apply NoDup_cons in Htd as [Hnv _].
    apply Forall_app in Ha as [_ Ha]. apply Forall_cons in Ha as [Hv _].
    eapply kfree_wp; [done|done|done|done| |].
    { rewrite elem_of_app elem_of_reverse. intros [Hin|Hin]; [by apply (Hfr v Hin); left|].
      apply (Hd v); [|done]. set_solver. }
    intros s1 Hk1 Hs1. exists (fr ++ [v]), s1. split_and!; [by rewrite -app_assoc|done| |by rewrite Hs1].
    by rewrite reverse_snoc.
  - intros σ (fr&s'&Hp&->&Hk'&Hu). rewrite app_nil_r in Hp. rewrite Hp in HQ. by apply HQ.
Qed.

(** C28: [kfree] and [kalloc] keep the free list well-formed, and pages are handed
    out in last-in first-out order: the page just freed is the next one
    allocated, and a second allocation gives a page that was free before, a
    different one. *)
Theorem kfree_kalloc l a v c w s :
  cpu_ok c → kmem_ok (a :: l) s → page_addr v → v ≠ a → v ∉ l →
  ∃ s1 s2 s3, kfree v (Kst c ∅ w s) = Ret tt (Kst c ∅ w s1) ∧ kmem_ok (v :: a :: l) s1 ∧
    kalloc (Kst c ∅ w s1) = Ret v (Kst c ∅ w s2) ∧ kmem_ok (a :: l) s2 ∧
    kalloc (Kst c ∅ w s2) = Ret a (Kst c ∅ w s3) ∧ kmem_ok l s3.
Proof.
  intros Hc Hk Hv Hne Hnl.
  destruct (wp_inv (kfree v) (λ _ σ, ∃ s1, σ = Kst c ∅ w s1 ∧ kmem_ok (v :: a :: l) s1) (Kst c ∅ w s))
    as ([]&?&E1&s1&->&Hk1).
  { eapply kfree_wp; [done|done|done|done|set_solver|]. eauto. }
  assert (∀ x l0 s0, kmem_ok (x :: l0) s0 →
    ∃ s', kalloc (Kst c ∅ w s0) = Ret x (Kst c ∅ w s') ∧ kmem_ok l0 s') as Halloc.
  { intros x l0 s0 Hk0.
    destruct (wp_inv kalloc (λ r σ, r = x ∧ ∃ s', σ = Kst c ∅ w s' ∧ kmem_ok l0 s') (Kst c ∅ w s0))
      as (?&?&E&->&s'&->&Hk'); [|by exists s'].
    eapply kalloc_wp; [done|done|done|done|]. intros y l' s' [= -> ->] Hk' _ _ _. eauto. }
  destruct (Halloc _ _ _ Hk1) as (s2&E2&Hk2). destruct (Halloc _ _ _ Hk2) as (s3&E3&Hk3).
  exists s1, s2, s3. done.
Qed.

Lemma kinit1_wp vstart vend c w s Q :
  cpu_ok c → ram_ok (ram s) → freelist s = 0 → Forall page_addr (pages vstart vend) →
  (∀ s', kmem_ok (reverse (pages vstart vend)) s' → use_lock s' = false → Q tt (Kst c ∅ w s')) →
  wp (kinit1 vstart vend) Q (Kst c ∅ w s).
Proof.
  intros Hc Hr Hf Ha HQ.
  rewrite /kinit1. apply wp_bind, wp_initlock, wp_bind, wp_modify. kst_simpl.
  apply (freerange_wp vstart vend []); [done|done| |done|set_solver|].
  - split; [done|constructor|constructor|done].
  - rewrite app_nil_r. eauto.
Qed.

(** [kinit1] builds a free list of exactly the whole pages of its range. *)
Theorem kinit1_free vstart vend c w s :
  cpu_ok c → ram_ok (ram s) → freelist s = 0 → Forall page_addr (pages vstart vend) →
  ∃ s', kinit1 vstart vend (Kst c ∅ w s) = Ret tt (Kst c ∅ w s') ∧
    kmem_ok (reverse (pages vstart vend)) s' ∧ use_lock s' = false.
Proof.
  intros Hc Hr Hf Ha.
  destruct (wp_inv (kinit1 vstart vend) (λ _ σ, ∃ s', σ = Kst c ∅ w s' ∧
    kmem_ok (reverse (pages vstart vend)) s' ∧ use_lock s' = false) (Kst c ∅ w s))
    as ([]&?&E&s'&->&Hk&Hu); [|by exists s'].
  apply kinit1_wp; [done..|eauto].
Qed.
End Kalloc.

(** ** Example: eight pages below PHYSTOP *)

Definition demo_end : Z := KERNBASE + PHYSTOP - 8 * PGSIZE.
Definition demo_page (k : nat) : Z := demo_end + k * PGSIZE.
Definition zero_page : page := replicate (Z.to_nat PGSIZE) 0.
Definition demo_ram : gmap Z page :=
  list_to_map ((λ k : nat, (pn (demo_page k), zero_page)) <$> seq 0 8).
Definition demo_vmem : vmem := Vmem demo_ram false 0 0 0 0.
Definition demo_cpu : cpu := Cpu 0 true 0 true (Some 1).

Lemma zero_page_ok : length zero_page = Z.to_nat PGSIZE ∧ Forall is_byte zero_page.
Proof. split; [apply length_replicate|by apply Forall_replicate]. Qed.

Lemma demo_page_addr k : (k < 8)%nat → page_addr demo_end (demo_page k).
Proof.
  intros Hk. rewrite /page_addr /demo_page /demo_end. unfold KERNBASE, PHYSTOP, PGSIZE.
  split; [|lia]. rewrite Z.mod_add //.
Qed.

Lemma demo_ram_ok : ram_ok demo_end demo_ram.
Proof.
  intros v [Hm Hv]. assert (∃ k : nat, (k < 8)%nat ∧ v = demo_page k) as (k&Hk&->).
  { exists (Z.to_nat ((v - demo_end) / PGSIZE)). rewrite /demo_page.
    unfold demo_end, KERNBASE, PHYSTOP, PGSIZE in *. Z.div_mod_to_equations. lia. }
  exists zero_page. split; [|apply zero_page_ok].
  do 8 (destruct k as [|k]; [by vm_compute|]). lia.
Qed.

Lemma demo_cpu_ok : cpu_ok demo_cpu.
Proof. repeat split; simpl; lia. Qed.

Lemma demo_pages : pages demo_end (KERNBASE + PHYSTOP) = demo_page <$> seq 0 8.
Proof. by vm_compute. Qed.

Lemma demo_pages_addr : Forall (page_addr demo_end) (pages demo_end (KERNBASE + PHYSTOP)).
Proof.
  rewrite demo_pages. apply Forall_fmap, Forall_forall. intros k Hk%elem_of_seq. apply demo_page_addr. lia.
Qed.

Lemma kinit1_free_witness :
  ∃ s', kinit1 demo_end demo_end (KERNBASE + PHYSTOP) (Kst demo_cpu ∅ ∅ demo_vmem) =
      Ret tt (Kst demo_cpu ∅ ∅ s') ∧
    kmem_ok demo_end (reverse (demo_page <$> seq 0 8)) s'.
Proof.
  destruct (kinit1_free demo_end ltac:(by vm_compute) demo_end (KERNBASE + PHYSTOP) demo_cpu ∅ demo_vmem)
    as (s'&E&Hk&_).
  - apply demo_cpu_ok.
  - apply demo_ram_ok.
  - reflexivity.
  - apply demo_pages_addr.
  - exists s'. split; [exact E|]. by rewrite demo_pages in Hk.
Defined.

(** The allocator with the first [n] pages free. *)
Lemma demo_page_inj j k : demo_page j = demo_page k → j = k.
Proof. rewrite /demo_page. unfold PGSIZE. lia. Qed.

Lemma demo_free (n : nat) :
  (n ≤ 8)%nat → ∃ s, kmem_ok demo_end (reverse (demo_page <$> seq 0 n)) s ∧ use_lock s = false ∧
    ∀ k, (n ≤ k < 8)%nat → ram s !! pn (demo_page k) = Some zero_page.
Proof.
  induction n as [|n IH]; intros Hn.
  - exists demo_vmem. split; [|split; [done|]].
    + split; [done|constructor|constructor|apply demo_ram_ok].
    + intros k [_ Hk]. do 8 (destruct k as [|k]; [by vm_compute|]). lia.
  - destruct IH as (s&Hk&Hu&Hz); [lia|].
    destruct (wp_inv (kfree demo_end (demo_page n)) (λ _ σ,
      kmem_ok demo_end (reverse (demo_page <$> seq 0 (S n))) (kdata σ) ∧ use_lock (kdata σ) = false ∧
      ∀ k, (S n ≤ k < 8)%nat → ram (kdata σ) !! pn (demo_page k) = Some zero_page)
      (Kst demo_cpu ∅ ∅ s)) as ([]&σ&_&H); [|by exists (kdata σ)].
    eapply kfree_wp; [by vm_compute|apply demo_cpu_ok|done|exact Hk|by apply demo_page_addr| |].
    + rewrite elem_of_reverse list_elem_of_fmap. intros (j&->%demo_page_inj&Hj%elem_of_seq). lia.
    + intros s' Hk' ->. split; [by rewrite seq_S fmap_app reverse_snoc|]. split; [done|].
      intros k Hnk. simpl. rewrite lookup_insert_ne; [|apply Hz; lia].
      intros E%(pn_inj demo_end)%demo_page_inj; [lia|by vm_compute|apply demo_page_addr; lia..].
Qed.

Lemma kfree_kalloc_witness :
  ∃ s s1 s2, kfree demo_end (demo_page 7) (Kst demo_cpu ∅ ∅ s) = Ret tt (Kst demo_cpu ∅ ∅ s1) ∧
    kalloc (Kst demo_cpu ∅ ∅ s1) = Ret (demo_page 7) (Kst demo_cpu ∅ ∅ s2).
Proof.
  destruct (demo_free 7 ltac:(lia)) as (s&Hk&_).
  destruct (kfree_kalloc demo_end ltac:(by vm_compute) (reverse (demo_page <$> seq 0 6)) (demo_page 6)
    (demo_page 7) demo_cpu ∅ s) as (s1&s2&_&E1&_&E2&_).
  - apply demo_cpu_ok.
  - exact Hk.
  - apply demo_page_addr. lia.
  - by intros E%demo_page_inj.
  - rewrite elem_of_reverse list_elem_of_fmap. intros (j&E%demo_page_inj&Hj%elem_of_seq). lia.
  - exists s, s1, s2. by split.
Defined.
