(* ===== verification/Vm.v ===== *)
(** * Page tables

    Models [src/Xv6-Syscall/src/vm.c] on the memory of [Kalloc]: the page
    directory and the page tables are pages of memory, so a page table entry is
    a word the code reads and writes at a kernel address.  Loading of the
    segment registers is not modelled. *)

From S2P Require Import Prelude CInt Kernel Params Sleeplock Kalloc.

Section Vm.
(** [end] and [data] of the linker script. *)
Context (kend kdata_addr : Z).

Definition set_bits (x : Z) (m : Z) : bool := negb (Z.land x m =? 0).

(** [memset(mem, 0, PGSIZE)] of a whole page. *)
Definition clear_page (v : Z) : K vmem unit := _ ← get_page v; put_page v zero_page.

(** The address of the page table entry of [va], or 0. *)
Definition walkpgdir (pgdir va : Z) (alloc : bool) : K vmem Z :=
  let pde := pgdir + 4 * PDX va in
  e ← rd32 pde;
  if set_bits e PTE_P then mret (P2V (PTE_ADDR e) + 4 * PTX va) else
  if negb alloc then mret 0 else
  pgtab ← kalloc;
  if pgtab =? 0 then mret 0 else
  clear_page pgtab;;
  wr32 pde (Z.lor (Z.lor (Z.lor (V2P pgtab) PTE_P) PTE_W) PTE_U);;
  mret (pgtab + 4 * PTX va).

(** The loop of [mappages]; it ends when [a] reaches [last]. *)
Fixpoint mappages_loop (fuel : nat) (pgdir a last pa perm : Z) : K vmem Z :=
  match fuel with
  | O => nofuel
  | S fuel =>
      pte ← walkpgdir pgdir a true;
      if pte =? 0 then mret (-1) else
      e ← rd32 pte;
      if set_bits e PTE_P then panic "remap" else
      wr32 pte (Z.lor (Z.lor pa perm) PTE_P);;
      if a =? last then mret 0 else
      mappages_loop fuel pgdir (u32 (a + PGSIZE)) last (u32 (pa + PGSIZE)) perm
  end.

Definition mappages (pgdir va size pa perm : Z) : K vmem Z :=
  let a := PGROUNDDOWN va in
  let last := PGROUNDDOWN (u32 (va + size - 1)) in
  mappages_loop (Z.to_nat (u32 (last - a) / PGSIZE + 1)) pgdir a last pa perm.

(** The loop of [deallocuvm]; a missing page table is skipped as a whole. *)
Fixpoint dealloc_loop (fuel : nat) (pgdir a oldsz : Z) : K vmem unit :=
  if oldsz <=? a then mret () else
  match fuel with
  | O => nofuel
  | S fuel =>
      pte ← walkpgdir pgdir a false;
      a ← (if pte =? 0 then mret (u32 (PGADDR (PDX a + 1) 0 0 - PGSIZE)) else
           e ← rd32 pte;
           if set_bits e PTE_P then
             let pa := PTE_ADDR e in
             if pa =? 0 then panic "kfree" else
             kfree kend (P2V pa);;
             wr32 pte 0;;
             mret a
           else mret a);
      dealloc_loop fuel pgdir (u32 (a + PGSIZE)) oldsz
  end.

Definition deallocuvm (pgdir oldsz newsz : Z) : K vmem Z :=
  if oldsz <=? newsz then mret (s32 oldsz) else
  dealloc_loop (Z.to_nat (oldsz / PGSIZE + 1)) pgdir (PGROUNDUP newsz) oldsz;;
  mret (s32 newsz).

Definition freevm (pgdir : Z) : K vmem unit :=
  if pgdir =? 0 then panic "freevm: no pgdir" else
  deallocuvm pgdir KERNBASE 0;;
  for_each (seq 0 NPDENTRIES) (λ i,
    e ← rd32 (pgdir + 4 * i);
    if set_bits e PTE_P then kfree kend (P2V (PTE_ADDR e)) else mret ());;
  kfree kend pgdir.

(** [struct kmap kmap[]]: virtual address, physical range and permissions. *)
Record kmap_entry := Kmap { virt : Z; phys_start : Z; phys_end : Z; kperm : Z }.

Definition kmap : list kmap_entry :=
  [ Kmap KERNBASE 0 EXTMEM PTE_W;
    Kmap KERNLINK (V2P KERNLINK) (V2P kdata_addr) 0;
    Kmap kdata_addr (V2P kdata_addr) PHYSTOP PTE_W;
    Kmap DEVSPACE DEVSPACE 0 PTE_W ].

Definition setupkvm : K vmem Z :=
  pgdir ← kalloc;
  if pgdir =? 0 then mret 0 else
  clear_page pgdir;;
  if DEVSPACE <? P2V PHYSTOP then panic "PHYSTOP too high" else
  r ← for_find kmap (λ k,
    r ← mappages pgdir (virt k) (u32 (phys_end k - phys_start k)) (phys_start k) (kperm k);
    if r <? 0 then freevm pgdir;; mret (Some 0) else mret None);
  mret (default pgdir r).

Definition switchkvm : K vmem unit := modify (λ s, set_cr3 (V2P (kpgdir s)) s).

Definition kvmalloc : K vmem unit :=
  p ← setupkvm;
  modify (set_kpgdir p);;
  switchkvm.

(** [switchuvm] for a process with the given kernel stack and page table; 0
    for the null pointer. *)
Definition switchuvm (p : option (Z * Z)) : K vmem unit :=
  match p with
  | None => panic "switchuvm: no process"
  | Some (kstack, pgdir) =>
      if kstack =? 0 then panic "switchuvm: no kstack" else
      if pgdir =? 0 then panic "switchuvm: no pgdir" else
      pushcli;;
      modify (set_esp0 (u32 (kstack + KSTACKSIZE)));;
      modify (set_cr3 (V2P pgdir));;
      popcli
  end.

(** [memmove(mem, init, sz)] into the start of a page. *)
Definition fill_page (v : Z) (x : list Z) : K vmem unit := p ← get_page v; put_page v (blit 0 x p).

Definition inituvm (pgdir : Z) (init : list Z) : K vmem unit :=
  if PGSIZE <=? length init then panic "inituvm: more than a page" else
  mem ← kalloc;
  clear_page mem;;
  mappages pgdir 0 PGSIZE (V2P mem) (Z.lor PTE_W PTE_U);;
  fill_page mem init.

(** The loop of [allocuvm]. *)
Fixpoint alloc_loop (fuel : nat) (pgdir oldsz newsz a : Z) : K vmem Z :=
  if newsz <=? a then mret (s32 newsz) else
  match fuel with
  | O => nofuel
  | S fuel =>
      mem ← kalloc;
      if mem =? 0 then deallocuvm pgdir newsz oldsz;; mret 0 else
      clear_page mem;;
      r ← mappages pgdir a PGSIZE (V2P mem) (Z.lor PTE_W PTE_U);
      if r <? 0 then deallocuvm pgdir newsz oldsz;; kfree kend mem;; mret 0 else
      alloc_loop fuel pgdir oldsz newsz (u32 (a + PGSIZE))
  end.

Definition allocuvm (pgdir oldsz newsz : Z) : K vmem Z :=
  if KERNBASE <=? newsz then mret 0 else
  if newsz <? oldsz then mret (s32 oldsz) else
  alloc_loop (Z.to_nat (newsz / PGSIZE + 1)) pgdir oldsz newsz (PGROUNDUP oldsz).

Definition clearpteu (pgdir uva : Z) : K vmem unit :=
  pte ← walkpgdir pgdir uva false;
  if pte =? 0 then panic "clearpteu" else
  e ← rd32 pte;
  wr32 pte (Z.land e (Z.lnot PTE_U)).

(** One round of the loop of [copyuvm]; [false] is [goto bad]. *)
Definition copy_page (pgdir d i : Z) : K vmem bool :=
  pte ← walkpgdir pgdir i false;
  if pte =? 0 then panic "copyuvm: pte should exist" else
  e ← rd32 pte;
  if negb (set_bits e PTE_P) then panic "copyuvm: page not present" else
  mem ← kalloc;
  if mem =? 0 then mret false else
  p ← get_page (P2V (PTE_ADDR e));
  _ ← get_page mem;
  put_page mem p;;
  r ← mappages d i PGSIZE (V2P mem) (PTE_FLAGS e);
  if r <? 0 then kfree kend mem;; mret false else mret true.

Definition copyuvm (pgdir sz : Z) : K vmem Z :=
  d ← setupkvm;
  if d =? 0 then mret 0 else
  bad ← for_find ((λ k : nat, k * PGSIZE) <$> seq 0 (Z.to_nat ((sz + PGSIZE - 1) / PGSIZE))) (λ i,
    ok ← copy_page pgdir d i; mret (if (ok : bool) then None else Some tt));
  match bad with
  | None => mret d
  | Some _ => freevm d;; mret 0
  end.

Definition uva2ka (pgdir uva : Z) : K vmem Z :=
  pte ← walkpgdir pgdir uva false;
  e ← rd32 pte;
  if negb (set_bits e PTE_P) then mret 0 else
  if negb (set_bits e PTE_U) then mret 0 else
  mret (P2V (PTE_ADDR e)).

(** [copyout] of the bytes [buf]; each round copies at least one byte. *)
Fixpoint copyout_loop (fuel : nat) (pgdir va : Z) (buf : list Z) : K vmem Z :=
  match buf with
  | [] => mret 0
  | _ =>
      match fuel with
      | O => nofuel
      | S fuel =>
          let va0 := PGROUNDDOWN va in
          pa0 ← uva2ka pgdir va0;
          if pa0 =? 0 then mret (-1) else
          let n := Z.to_nat (Z.min (PGSIZE - (va - va0)) (length buf)) in
          p ← get_page (pa0 + (va - va0));
          put_page (pa0 + (va - va0)) (blit (po (pa0 + (va - va0))) (take n buf) p);;
          copyout_loop fuel pgdir (u32 (va0 + PGSIZE)) (drop n buf)
      end
  end.

Definition copyout (pgdir va : Z) (buf : list Z) : K vmem Z :=
  copyout_loop (length buf) pgdir va buf.
End Vm.

Section Load.
(** [loaduvm] reads a file into pages, so it runs on a state that has both a
    memory and a file system; [rd off n] stands for [readi(ip, _, off, n)]. *)
Context {S : Type} (vget : S → vmem) (vput : vmem → S → S) (rd : Z → Z → K S (Z * list Z)).

Definition loaduvm (pgdir addr offset sz : Z) : K S Z :=
  if negb (addr mod PGSIZE =? 0) then panic "loaduvm: addr must be page aligned" else
  r ← for_find ((λ k : nat, k * PGSIZE) <$> seq 0 (Z.to_nat ((sz + PGSIZE - 1) / PGSIZE))) (λ i,
    pte ← zoom vget vput (walkpgdir pgdir (addr + i) false);
    if pte =? 0 then panic "loaduvm: address should exist" else
    e ← zoom vget vput (rd32 pte);
    let n := if sz - i <? PGSIZE then sz - i else PGSIZE in
    '(r, x) ← rd (u32 (offset + i)) n;
    zoom vget vput (fill_page (P2V (PTE_ADDR e)) x);;
    mret (if r =? n then None else Some (-1)));
  mret (default 0 r).
End Load.
