(* ===== verification/VmSpec.v ===== *)
(** * Page tables: correctness of [walkpgdir] and [mappages]

    [pte_at r pgdir n] is the entry for virtual page [n] as the hardware finds
    it in memory [r]; a missing page table reads as 0.  [pt_ok] is the
    invariant of a page table: the directory and the tables are different
    allocated pages. *)

From S2P Require Import Prelude CInt Kernel Params Sleeplock Kalloc Vm.

(** ** Entries *)

Lemma set_bits_P e : set_bits e PTE_P = Z.testbit e 0.
Proof. rewrite /set_bits (land_mask e 0) // negb_involutive //. Qed.

Lemma set_bits_U e : set_bits e PTE_U = Z.testbit e 2.
Proof. rewrite /set_bits (land_mask e 2) // negb_involutive //. Qed.

Lemma PTE_ADDR_add a f : a mod PGSIZE = 0 → 0 ≤ f < PGSIZE → is_u32 (a + f) → PTE_ADDR (a + f) = a.
Proof.
  intros Ha Hf Hr. rewrite /PTE_ADDR u32_small //. change 4095 with (Z.ones 12).
  rewrite land_lnot_ones //. change (2 ^ 12) with PGSIZE. unfold PGSIZE in *.
  rewrite Z.add_mod // Ha Z.add_0_l Z.mod_mod // (Z.mod_small f) //. lia.
Qed.

Lemma testbit_add a f j : a mod PGSIZE = 0 → 0 ≤ f < PGSIZE → 0 ≤ j < 12 →
  Z.testbit (a + f) j = Z.testbit f j.
Proof.
  intros Ha Hf Hj. rewrite -(lor_add 12) // Z.lor_spec.
  by rewrite -(Z.mod_pow2_bits_low a 12 j) ?Ha ?Z.bits_0; [lia|].
Qed.

Lemma P2V_V2P v : is_u32 v → P2V (V2P v) = v.
Proof.
  intros Hv. rewrite /P2V /V2P /u32 Zplus_mod_idemp_l. replace (v - KERNBASE + KERNBASE) with v by lia.
  by apply Z.mod_small.
Qed.

(** Indices of the two levels. *)
Lemma PDX_page n : 0 ≤ n < 2 ^ 20 → PDX (n * PGSIZE) = n / 1024.
Proof.
  intros Hn. rewrite /PDX u32_small; [unfold is_u32, PGSIZE; lia|]. change 1023 with (Z.ones 10).
  rewrite Z.land_ones // Z.shiftr_div_pow2 //. change (2 ^ PDXSHIFT) with (PGSIZE * 1024).
  rewrite -Z.div_div // Z.div_mul // Z.mod_small //. Z.div_mod_to_equations. lia.
Qed.

Lemma PTX_page n : 0 ≤ n < 2 ^ 20 → PTX (n * PGSIZE) = n mod 1024.
Proof.
  intros Hn. rewrite /PTX u32_small; [unfold is_u32, PGSIZE; lia|]. change 1023 with (Z.ones 10).
  rewrite Z.land_ones // Z.shiftr_div_pow2 //. change (2 ^ PTXSHIFT) with PGSIZE. by rewrite Z.div_mul.
Qed.

(** ** Words of a page *)

Definition wput (r : gmap Z page) (a w : Z) : gmap Z page :=
  <[pn a := blit (po a) (le_bytes 4 (u32 w)) (default [] (r !! pn a))]> r.

Lemma default_Some {A} (x y : A) : default x (Some y) = y.
Proof. done. Qed.

Lemma wp_wr32 a w (σ : kst vmem) Q :
  is_Some (ram (kdata σ) !! pn a) →
  Q tt (set_data (set_ram (wput (ram (kdata σ)) a w) (kdata σ)) σ) → wp (wr32 a w) Q σ.
Proof.
  intros [p Hp] HQ. rewrite /wr32. apply wp_bind. eapply wp_get_page; [done|]. apply wp_modify.
  by rewrite /wput Hp in HQ.
Qed.

Section VmSpec.
Context (kend kdata_addr : Z) (Hend : KERNBASE ≤ kend).
Implicit Types (r : gmap Z page) (l : list Z) (s : vmem).
Notation page_addr := (page_addr kend).
Notation kmem_ok := (kmem_ok kend).

Lemma page_addr_u32 v : page_addr v → KERNBASE ≤ v ∧ v + PGSIZE < 2 ^ 32.
Proof. intros [_ Hv]. unfold KERNBASE, PHYSTOP, PGSIZE in *. lia. Qed.

Lemma in_page v o : page_addr v → 0 ≤ o < PGSIZE → pn (v + o) = pn v ∧ po (v + o) = Z.to_nat o.
Proof.
  intros Hv Ho. pose proof (page_addr_u32 v Hv) as Hr. pose proof Hv as [Hm _].
  rewrite /pn /po (page_addr_V2P _ Hend v Hv) {1 2}/V2P u32_small; [unfold is_u32, PGSIZE, KERNBASE in *; lia|].
  unfold PGSIZE, KERNBASE in *. split; [|f_equal]; Z.div_mod_to_equations; lia.
Qed.

Lemma V2P_aligned v : page_addr v → V2P v mod PGSIZE = 0 ∧ 0 ≤ V2P v ∧ V2P v + PGSIZE < 2 ^ 32.
Proof.
  intros Hv. rewrite (page_addr_V2P _ Hend v Hv). pose proof (page_addr_u32 v Hv). destruct Hv as [Hm _].
  unfold PGSIZE, KERNBASE in *. split; [|lia]. Z.div_mod_to_equations. lia.
Qed.

Lemma word_wput_eq r v i p w :
  page_addr v → 0 ≤ i < 1024 → r !! pn v = Some p → length p = Z.to_nat PGSIZE →
  word (wput r (v + 4 * i) w) (v + 4 * i) = u32 w.
Proof.
  intros Hv Hi Hp Hl. destruct (in_page v (4 * i) Hv) as [Hpn Hpo]; [unfold PGSIZE; lia|].
  rewrite /word /wput Hpn Hpo Hp lookup_insert_eq !default_Some slice_blit_eq ?length_le_bytes //.
  { rewrite ?length_le_bytes Hl. unfold PGSIZE. lia. }
  rewrite le_val_bytes_id //. apply u32_range.
Qed.

Lemma word_wput_ne r v i v' j p w :
  page_addr v → page_addr v' → 0 ≤ i < 1024 → 0 ≤ j < 1024 → v ≠ v' ∨ i ≠ j →
  r !! pn v = Some p → length p = Z.to_nat PGSIZE →
  word (wput r (v + 4 * i) w) (v' + 4 * j) = word r (v' + 4 * j).
Proof.
  intros Hv Hv' Hi Hj Hne Hp Hl. destruct (in_page v (4 * i) Hv) as [Hpn Hpo]; [unfold PGSIZE; lia|].
  destruct (in_page v' (4 * j) Hv') as [Hpn' Hpo']; [unfold PGSIZE; lia|].
  rewrite /word /wput Hpn Hpo Hpn' Hpo' Hp. destruct (decide (v = v')) as [<-|Hvv].
  - rewrite lookup_insert_eq Hp !default_Some. f_equal. destruct Hne as [?|Hne]; [done|].
    apply slice_blit_other; rewrite ?length_le_bytes ?Hl; unfold PGSIZE; lia.
  - rewrite lookup_insert_ne //. intros E. by apply Hvv, (pn_inj _ Hend).
Qed.

Lemma page_ram r v : ram_ok kend r → page_addr v → is_Some (r !! pn v).
Proof. intros Hr Hv. destruct (Hr v Hv) as (p&Hp&_). by exists p. Qed.

Lemma wput_ok r v i w : ram_ok kend r → page_addr v → 0 ≤ i < 1024 → ram_ok kend (wput r (v + 4 * i) w).
Proof.
  intros Hr Hv Hi. destruct (Hr v Hv) as (p&Hp&Hl&Hb).
  destruct (in_page v (4 * i) Hv) as [Hpn Hpo]; [unfold PGSIZE; lia|].
  rewrite /wput Hpo Hpn Hp default_Some. apply ram_ok_put; [done| |].
  - rewrite length_blit // length_le_bytes Hl. unfold PGSIZE. lia.
  - apply Forall_app. split; [by apply Forall_take|]. apply Forall_app.
    split; [auto with xv6|by apply Forall_drop].
Qed.

Lemma wput_page r v i w v' :
  page_addr v → page_addr v' → 0 ≤ i < 1024 → v ≠ v' → wput r (v + 4 * i) w !! pn v' = r !! pn v'.
Proof.
  intros Hv Hv' Hi Hne. destruct (in_page v (4 * i) Hv) as [Hpn _]; [unfold PGSIZE; lia|].
  rewrite /wput Hpn lookup_insert_ne //. intros E. by apply Hne, (pn_inj _ Hend).
Qed.

(** Writing a word of an allocated page keeps the allocator's invariant. *)
Lemma kmem_ok_wput l s v i w :
  kmem_ok l s → page_addr v → v ∉ l → 0 ≤ i < 1024 →
  kmem_ok l (set_ram (wput (ram s) (v + 4 * i) w) s).
Proof.
  intros [Hc Hn Ha Hr] Hv Hnl Hi. destruct (in_page v (4 * i) Hv) as [Hpn _]; [unfold PGSIZE; lia|].
  split; simpl; [|done|done|by apply wput_ok].
  rewrite /wput Hpn. by apply (chain_other kend Hend).
Qed.

(** ** The entries in memory *)

(** The page table for directory slot [d]. *)
Definition ptab r (pgdir d : Z) : option Z :=
  let e := word r (pgdir + 4 * d) in if set_bits e PTE_P then Some (P2V (PTE_ADDR e)) else None.

Definition pte_at r (pgdir n : Z) : Z :=
  match ptab r pgdir (n / 1024) with Some t => word r (t + 4 * (n mod 1024)) | None => 0 end.

Lemma filter_ext_in {A} (P1 P2 : A → Prop) `{!∀ x, Decision (P1 x), !∀ x, Decision (P2 x)} (k : list A) :
  Forall (λ x, P1 x ↔ P2 x) k → filter P1 k = filter P2 k.
Proof. induction 1 as [|x k Hx _ IH]; [done|]. rewrite !filter_cons IH. by rewrite (decide_ext _ _ _ _ Hx). Qed.

(** How many page tables there are. *)
Definition ntab r pgdir : nat := length (filter (λ d, is_Some (ptab r pgdir d)) (seqZ 0 1024)).

Lemma ntab_same r r' pgdir : (∀ d, 0 ≤ d < 1024 → ptab r' pgdir d = ptab r pgdir d) → ntab r' pgdir = ntab r pgdir.
Proof.
  intros H. rewrite /ntab. f_equal. apply filter_ext_in. apply Forall_forall. intros d Hd%elem_of_seqZ. rewrite H; [lia|done].
Qed.

Lemma ntab_new r r' pgdir d : 0 ≤ d < 1024 → ptab r pgdir d = None → is_Some (ptab r' pgdir d) →
  (∀ d', 0 ≤ d' < 1024 → d' ≠ d → ptab r' pgdir d' = ptab r pgdir d') → ntab r' pgdir = S (ntab r pgdir).
Proof.
  intros Hd Hno Hyes H. rewrite /ntab.
  assert (seqZ 0 1024 = seqZ 0 d ++ [d] ++ seqZ (d + 1) (1023 - d)) as ->.
  { pose proof (seqZ_app 0 d (1024 - d) ltac:(lia) ltac:(lia)) as E. rewrite Zplus_minus in E. rewrite E Z.add_0_l. f_equal.
    rewrite seqZ_cons; [lia|]. simpl. do 2 f_equal; lia. }
  rewrite !filter_app !length_app !filter_cons !filter_nil.
  rewrite (decide_True _ _ Hyes) decide_False; [rewrite Hno; by intros []|].
  rewrite (filter_ext_in (λ d, is_Some (ptab r' pgdir d)) (λ d, is_Some (ptab r pgdir d)) (seqZ 0 d)).
  { apply Forall_forall. intros d' Hd'%elem_of_seqZ. rewrite H; [lia|lia|done]. }
  rewrite (filter_ext_in (λ d, is_Some (ptab r' pgdir d)) (λ d, is_Some (ptab r pgdir d)) (seqZ (d + 1) _)).
  { apply Forall_forall. intros d' Hd'%elem_of_seqZ. rewrite H; [lia|lia|done]. }
  simpl. lia.
Qed.

(** The page tables of the pages [a .. b) were added. *)
Definition touched r pgdir a b r' : Prop :=
  ∀ d, 0 ≤ d < 1024 → is_Some (ptab r' pgdir d) ↔ is_Some (ptab r pgdir d) ∨ (a < b ∧ 1024 * d < b ∧ a < 1024 * (d + 1)).

Lemma touched_none r pgdir a r' : (∀ d, 0 ≤ d < 1024 → ptab r' pgdir d = ptab r pgdir d) → touched r pgdir a a r'.
Proof. intros H d Hd. rewrite H //. split; [by left|]. intros [?|?]; [done|lia]. Qed.

Lemma touched_trans r pgdir a b c r1 r2 :
  a ≤ b ≤ c → touched r pgdir a b r1 → touched r1 pgdir b c r2 → touched r pgdir a c r2.
Proof.
  intros Hab H1 H2 d Hd. rewrite (H2 d Hd) (H1 d Hd). split; [intros [[?|?]|?]; [by left|right; lia..]|].
  intros [?|?]; [by left; left|]. destruct (decide (b ≤ 1024 * d ∨ b = a)); [right; lia|left; right; lia].
Qed.

Record pt_ok l r pgdir : Prop := {
  pt_dir : page_addr pgdir ∧ pgdir ∉ l;
  pt_tab : ∀ d t, 0 ≤ d < 1024 → ptab r pgdir d = Some t → page_addr t ∧ t ∉ l ∧ t ≠ pgdir;
  pt_inj : ∀ d d' t, 0 ≤ d < 1024 → 0 ≤ d' < 1024 →
    ptab r pgdir d = Some t → ptab r pgdir d' = Some t → d = d'
}.

(** A page that is neither free nor part of the page table. *)
Definition data_page l r pgdir v : Prop :=
  page_addr v ∧ v ∉ l ∧ v ≠ pgdir ∧ ∀ d, 0 ≤ d < 1024 → ptab r pgdir d ≠ Some v.

(** The page table code took pages from the free list and wrote only to
    them and to the page table. *)
Record pt_step l r l' r' pgdir : Prop := {
  ps_suffix : ∃ k, l = k ++ l';
  ps_tab : ∀ d t, 0 ≤ d < 1024 → ptab r' pgdir d = Some t → ptab r pgdir d = Some t ∨ t ∈ l;
  ps_data : ∀ v, data_page l r pgdir v → r' !! pn v = r !! pn v;
  ps_count : (length l + ntab r pgdir = length l' + ntab r' pgdir)%nat
}.

Lemma pt_step_refl l r pgdir : pt_step l r l r pgdir.
Proof. split; [by exists []|auto|done|done]. Qed.

Lemma data_page_step l r l' r' pgdir v :
  pt_step l r l' r' pgdir → data_page l r pgdir v → data_page l' r' pgdir v.
Proof.
  intros [[k ->] Ht _ _] (Ha&Hl&Hd&Hp). split_and!; [done|set_solver|done|].
  intros d Hr Hd'. destruct (Ht d v Hr Hd') as [?|?]; [by eapply Hp|set_solver].
Qed.

Lemma pt_step_trans l r l1 r1 l2 r2 pgdir :
  pt_step l r l1 r1 pgdir → pt_step l1 r1 l2 r2 pgdir → pt_step l r l2 r2 pgdir.
Proof.
  intros H1 H2. destruct (ps_suffix _ _ _ _ _ H1) as [k1 ->], (ps_suffix _ _ _ _ _ H2) as [k2 ->].
  split.
  - exists (k1 ++ k2). by rewrite app_assoc.
  - intros d t Hd Ht. destruct (ps_tab _ _ _ _ _ H2 d t Hd Ht) as [Ht1|?]; [|set_solver].
    by apply (ps_tab _ _ _ _ _ H1).
  - intros v Hv. rewrite (ps_data _ _ _ _ _ H2); [by eapply data_page_step|].
    by apply (ps_data _ _ _ _ _ H1).
  - rewrite (ps_count _ _ _ _ _ H1). apply (ps_count _ _ _ _ _ H2).
Qed.

Lemma index_range n : 0 ≤ n < 2 ^ 20 → 0 ≤ n / 1024 < 1024 ∧ 0 ≤ n mod 1024 < 1024.
Proof. intros. split; Z.div_mod_to_equations; lia. Qed.

(** ** Writing an entry *)

Section Entry.
Context (l : list Z) (r : gmap Z page) (pgdir d t i w : Z).
Context (Hr : ram_ok kend r) (Hpt : pt_ok l r pgdir) (Hd : 0 ≤ d < 1024) (Hi : 0 ≤ i < 1024).
Context (Ht : ptab r pgdir d = Some t).

Lemma tab_addr : page_addr t ∧ t ∉ l ∧ t ≠ pgdir.
Proof. by apply (pt_tab _ _ _ Hpt d). Qed.

Lemma wput_ptab d' : 0 ≤ d' < 1024 → ptab (wput r (t + 4 * i) w) pgdir d' = ptab r pgdir d'.
Proof.
  intros Hd'. destruct tab_addr as (Hta&_&Hne). destruct (Hr t Hta) as (p&Hp&Hl&_).
  rewrite /ptab (word_wput_ne r t i pgdir d' p) //; [apply Hpt|by left].
Qed.

Lemma wput_pt_ok : pt_ok l (wput r (t + 4 * i) w) pgdir.
Proof.
  split; [apply Hpt|..].
  - intros d' t' Hd'. rewrite wput_ptab //. by apply Hpt.
  - intros d1 d2 t' H1 H2. rewrite !wput_ptab //. by apply Hpt.
Qed.

Lemma wput_pte n :
  0 ≤ n < 2 ^ 20 → pte_at (wput r (t + 4 * i) w) pgdir n =
    if decide (n = d * 1024 + i) then u32 w else pte_at r pgdir n.
Proof.
  intros Hn. destruct (index_range n Hn) as [Hq Hm]. destruct tab_addr as (Hta&_&Hne).
  destruct (Hr t Hta) as (p&Hp&Hl&_).
  assert (n = n / 1024 * 1024 + n mod 1024) as Hdm by (pose proof (Z.div_mod n 1024); lia).
  rewrite /pte_at wput_ptab //. case_decide as E.
  - assert (n / 1024 = d ∧ n mod 1024 = i) as [E1 E2] by lia. rewrite E1 Ht E2. by eapply word_wput_eq.
  - destruct (ptab r pgdir (n / 1024)) as [t'|] eqn:Et; [|done].
    destruct (pt_tab _ _ _ Hpt (n / 1024) t' Hq Et) as (Hta'&_).
    apply (word_wput_ne r t i t' (n mod 1024) p); try done.
    destruct (decide (t = t')) as [<-|]; [right|by left]. intros Ei.
    apply E. rewrite (pt_inj _ _ _ Hpt _ _ _ Hq Hd Et Ht) in Hdm. lia.
Qed.

Lemma wput_step : pt_step l r l (wput r (t + 4 * i) w) pgdir.
Proof.
  split; [by exists []| | |].
  - intros d' t' Hd'. rewrite wput_ptab //. auto.
  - intros v (Hv&Hnl&Hnp&Hnt). destruct tab_addr as (Hta&_). apply wput_page; [done..|].
    intros ->. by apply (Hnt d).
  - f_equal. symmetry. apply ntab_same. intros d' Hd'. by apply wput_ptab.
Qed.
End Entry.

Lemma page_word_other r v v' p j :
  page_addr v → page_addr v' → v ≠ v' → 0 ≤ j < 1024 →
  word (<[pn v := p]> r) (v' + 4 * j) = word r (v' + 4 * j).
Proof.
  intros Hv Hv' Hne Hj. destruct (in_page v' (4 * j) Hv') as [Hpn _]; [unfold PGSIZE; lia|].
  apply word_other. rewrite Hpn. intros E. by apply Hne, (pn_inj _ Hend).
Qed.

Lemma zero_word r v j : page_addr v → 0 ≤ j < 1024 → r !! pn v = Some zero_page → word r (v + 4 * j) = 0.
Proof.
  intros Hv Hj Hp. destruct (in_page v (4 * j) Hv) as [Hpn Hpo]; [unfold PGSIZE; lia|].
  rewrite /word Hpn Hpo Hp default_Some /zero_page /slice drop_replicate take_replicate.
  by replace (_ `min` _)%nat with 4%nat by (unfold PGSIZE; lia).
Qed.

(** ** Adding a page table *)

Section NewTable.
Context (l : list Z) (r : gmap Z page) (pgdir d t : Z).
Context (Hr : ram_ok kend r) (Hpt : pt_ok (t :: l) r pgdir) (Hd : 0 ≤ d < 1024).
Context (Hta : page_addr t) (Htl : t ∉ l) (Hno : ptab r pgdir d = None).

Definition with_table : gmap Z page := wput (<[pn t := zero_page]> r) (pgdir + 4 * d) (V2P t + 7).

Lemma dir_not_t : pgdir ≠ t ∧ page_addr pgdir ∧ pgdir ∉ l.
Proof. destruct (pt_dir _ _ _ Hpt) as [? [? ?]%not_elem_of_cons]. done. Qed.

Lemma r1_ok : ram_ok kend (<[pn t := zero_page]> r).
Proof. destruct zero_page_ok. by apply ram_ok_put. Qed.

Lemma r1_dir : ∃ p, <[pn t := zero_page]> r !! pn pgdir = Some p ∧ length p = Z.to_nat PGSIZE.
Proof. destruct dir_not_t as (_&Hp&_). destruct (r1_ok pgdir Hp) as (p&?&?&_). eauto. Qed.

Lemma new_tab_same : ptab with_table pgdir d = Some t.
Proof.
  destruct r1_dir as (p&Hp&Hl), dir_not_t as (_&Hpg&_). destruct (V2P_aligned t Hta) as (Hm&H0&H1).
  assert (is_u32 (V2P t + 7)) as Hu by (unfold is_u32, PGSIZE in *; lia).
  rewrite /ptab /with_table (word_wput_eq _ pgdir d p) // u32_small //.
  rewrite set_bits_P (testbit_add (V2P t) 7) // PTE_ADDR_add // P2V_V2P //.
  pose proof (page_addr_u32 t Hta). unfold is_u32, PGSIZE, KERNBASE in *. lia.
Qed.

Lemma new_tab_other d' : 0 ≤ d' < 1024 → d' ≠ d → ptab with_table pgdir d' = ptab r pgdir d'.
Proof.
  intros Hd' Hne. destruct r1_dir as (p&Hp&Hl), dir_not_t as (Hnt&Hpg&_).
  rewrite /ptab /with_table (word_wput_ne _ pgdir d pgdir d' p) //; [by right; apply not_eq_sym|].
  rewrite (page_word_other r t) //.
Qed.

(** A word of a page other than the directory and the new table. *)
Lemma new_word v j : page_addr v → 0 ≤ j < 1024 → v ≠ pgdir → v ≠ t →
  word with_table (v + 4 * j) = word r (v + 4 * j).
Proof.
  intros Hv Hj Hn1 Hn2. destruct r1_dir as (p&Hp&Hl), dir_not_t as (Hnt&Hpg&_).
  rewrite /with_table (word_wput_ne _ pgdir d v j p) //; [by left; apply not_eq_sym|].
  rewrite (page_word_other r t) //.
Qed.

Lemma old_tab d' t' : 0 ≤ d' < 1024 → ptab r pgdir d' = Some t' →
  page_addr t' ∧ t' ≠ t ∧ t' ∉ l ∧ t' ≠ pgdir.
Proof.
  intros Hd' H. by destruct (pt_tab _ _ _ Hpt d' t' Hd' H) as (?&[? ?]%not_elem_of_cons&?).
Qed.

Lemma new_tab_ok : pt_ok l with_table pgdir.
Proof.
  assert (∀ d' t', 0 ≤ d' < 1024 → ptab with_table pgdir d' = Some t' →
    (d' = d ∧ t' = t) ∨ (d' ≠ d ∧ ptab r pgdir d' = Some t')) as Hcase.
  { intros d' t' Hd' H. destruct (decide (d' = d)) as [->|Hne].
    - rewrite new_tab_same in H. injection H as ->. auto.
    - rewrite new_tab_other // in H. auto. }
  split.
  - split; apply dir_not_t.
  - intros d' t' Hd' [[-> ->]|[_ H]]%Hcase; [|by destruct (old_tab _ _ Hd' H) as (?&_&?&?)|done].
    destruct dir_not_t as (?&_). by split_and!.
  - intros d1 d2 t' H1 H2 [[-> ->]|[_ E1]]%(Hcase _ _ H1) [[-> E2]|[_ E2]]%(Hcase _ _ H2); try done.
    + by destruct (old_tab _ _ H2 E2) as (_&?&_).
    + subst. by destruct (old_tab _ _ H1 E1) as (_&?&_).
    + by eapply (pt_inj _ _ _ Hpt).
Qed.

Lemma new_tab_page v : page_addr v → v ≠ pgdir → v ≠ t → with_table !! pn v = r !! pn v.
Proof.
  intros Hv H1 H2. destruct dir_not_t as (Hnt&Hpg&_).
  rewrite /with_table wput_page //.
  rewrite lookup_insert_ne //. intros E. by apply H2, eq_sym, (pn_inj _ Hend).
Qed.

Lemma new_tab_pte n : 0 ≤ n < 2 ^ 20 → pte_at with_table pgdir n = pte_at r pgdir n.
Proof.
  intros Hn. destruct (index_range n Hn) as [Hq Hm]. rewrite /pte_at.
  destruct (decide (n / 1024 = d)) as [E|E].
  - rewrite E new_tab_same Hno. apply zero_word; [done|done|]. destruct dir_not_t as (Hnt&Hpg&_).
    rewrite /with_table wput_page // lookup_insert_eq //.
  - rewrite new_tab_other //. destruct (ptab r pgdir (n / 1024)) as [t'|] eqn:Et; [|done].
    destruct (old_tab _ _ Hq Et) as (?&?&_&?). by apply new_word.
Qed.

Lemma new_tab_step : pt_step (t :: l) r l with_table pgdir.
Proof.
  split; [by exists [t]| | |].
  - intros d' t' Hd' H. destruct (decide (d' = d)) as [->|Hne].
    + rewrite new_tab_same in H. injection H as ->. right. left.
    + rewrite new_tab_other // in H. auto.
  - intros v (Hv&Hnl&Hnp&_). apply new_tab_page; [done|done|]. by apply not_elem_of_cons in Hnl as [? _].
  - rewrite (ntab_new r with_table pgdir d Hd Hno); [rewrite new_tab_same; by eexists|apply new_tab_other|]. simpl. lia.
Qed.

Lemma new_tab_touched n : n / 1024 = d → touched r pgdir n (n + 1) with_table.
Proof.
  intros Hn d' Hd'. destruct (decide (d' = d)) as [->|Hne].
  - rewrite new_tab_same. split; [|by eexists]. intros _. right. Z.div_mod_to_equations. lia.
  - rewrite new_tab_other //. split; [by left|]. intros [?|Hin]; [done|]. exfalso. Z.div_mod_to_equations. lia.
Qed.
End NewTable.

(** ** [walkpgdir] *)

Definition slot_of (o : option Z) (n : Z) : Z :=
  match o with Some t => t + 4 * (n mod 1024) | None => 0 end.

Lemma slot_nonzero t i : page_addr t → 0 ≤ i → t + 4 * i ≠ 0.
Proof. intros Ht Hi. pose proof (page_addr_u32 t Ht). unfold KERNBASE in *. lia. Qed.

Lemma walk_lookup_wp l n c L w s pgdir Q :
  kmem_ok l s → pt_ok l (ram s) pgdir → 0 ≤ n < 2 ^ 20 →
  Q (slot_of (ptab (ram s) pgdir (n / 1024)) n) (Kst c L w s) →
  wp (walkpgdir pgdir (n * PGSIZE) false) Q (Kst c L w s).
Proof.
  intros Hk Hpt Hn HQ. destruct (index_range n Hn) as [Hq _].
  rewrite /walkpgdir PDX_page // PTX_page //. destruct (pt_dir _ _ _ Hpt) as [Hpg _].
  apply wp_bind, wp_rd32.
  { cbn [kdata]. destruct (in_page pgdir (4 * (n / 1024)) Hpg) as [-> _]; [unfold PGSIZE; lia|].
    apply page_ram; [apply Hk|done]. }
  cbn [kdata]. rewrite /ptab in HQ. destruct (set_bits _ _); by apply wp_ret.
Qed.

Lemma walk_alloc_wp l n c L w s pgdir Q :
  cpu_ok c → L !! Lkmem = None → kmem_ok l s → pt_ok l (ram s) pgdir → 0 ≤ n < 2 ^ 20 →
  (l = [] → ptab (ram s) pgdir (n / 1024) = None → Q 0 (Kst c L w s)) →
  (∀ t l' s', ptab (ram s') pgdir (n / 1024) = Some t → kmem_ok l' s' → pt_ok l' (ram s') pgdir →
     (∀ m, 0 ≤ m < 2 ^ 20 → pte_at (ram s') pgdir m = pte_at (ram s) pgdir m) →
     pt_step l (ram s) l' (ram s') pgdir → touched (ram s) pgdir n (n + 1) (ram s') →
     Q (t + 4 * (n mod 1024)) (Kst c L w s')) →
  wp (walkpgdir pgdir (n * PGSIZE) true) Q (Kst c L w s).
Proof.
  intros Hc HL Hk Hpt Hn HQ0 HQ1. destruct (index_range n Hn) as [Hq Hi].
  rewrite /walkpgdir PDX_page // PTX_page //. destruct (pt_dir _ _ _ Hpt) as [Hpg _].
  destruct (in_page pgdir (4 * (n / 1024)) Hpg) as [Hpn _]; [unfold PGSIZE; lia|].
  apply wp_bind, wp_rd32; [rewrite Hpn; apply page_ram; [apply Hk|done]|]. cbn [kdata].
  destruct (set_bits _ _) eqn:E.
  { assert (is_Some (ptab (ram s) pgdir (n / 1024))) as Hyes by (rewrite /ptab E; by eexists).
    apply wp_ret. eapply HQ1; [|done|done|done|apply pt_step_refl|]; [by rewrite /ptab E|].
    intros d Hd. split; [by left|]. intros [?|?]; [done|]. assert (d = n / 1024) as -> by (Z.div_mod_to_equations; lia). done. }
  assert (ptab (ram s) pgdir (n / 1024) = None) as Hno by by rewrite /ptab E.
  cbn [negb]. apply wp_bind. eapply (kalloc_wp kend Hend); [done|done|exact Hk|..].
  { intros ->. by apply wp_ret, HQ0. }
  intros t l' s1 -> Hk1 Hta Htl Hs1. rewrite (proj2 (Z.eqb_neq t 0)); [by apply (page_addr_nonzero kend Hend)|].
  assert (ram s1 = ram s) as Hram by by rewrite Hs1.
  destruct (page_ram (ram s) t (km_ram _ _ _ Hk) Hta) as [p Hp].
  apply wp_bind. rewrite /clear_page. apply wp_bind. eapply wp_get_page; [by rewrite /= Hram|].
  apply wp_modify. kst_simpl. rewrite Hram. destruct (V2P_aligned t Hta) as (Hm&H0&H1).
  replace (Z.lor _ PTE_U) with (V2P t + 7) by (rewrite -!Z.lor_assoc (lor_add 12) //).
  apply wp_bind, wp_wr32; [cbn [kdata ram set_ram]; rewrite Hpn; apply (page_ram _ pgdir); [apply r1_ok, Hk|done]|].
  kst_simpl. cbn [ram set_ram]. apply wp_ret. destruct (dir_not_t l' (ram s) pgdir t Hpt) as (Hnt&_&Hpl).
  rewrite -/(with_table (ram s) pgdir (n / 1024) t).
  eapply (HQ1 t l'); cbn [ram set_ram].
  - apply (new_tab_same l'); [apply Hk|done..].
  - assert (kmem_ok l' (set_ram (<[pn t := zero_page]> (ram s)) s1)) as Hk2.
    { rewrite -Hram. destruct zero_page_ok. by apply (kmem_ok_put kend Hend). }
    by apply (kmem_ok_wput l' _ pgdir (n / 1024) (V2P t + 7) Hk2).
  - apply (new_tab_ok l'); [apply Hk|done..].
  - intros m Hm'. apply (new_tab_pte l'); [apply Hk|done..].
  - apply (new_tab_step l'); [apply Hk|done..].
  - apply (new_tab_touched l'); [apply Hk|done..].
Qed.

(** ** [mappages] *)

(** The [k] virtual pages from [n] map to the physical pages from [pa]. *)
Definition mapped r pgdir n k pa perm r' : Prop :=
  ∀ m, 0 ≤ m < 2 ^ 20 → pte_at r' pgdir m =
    if decide (n ≤ m < n + k) then pa + (m - n) * PGSIZE + Z.lor perm PTE_P else pte_at r pgdir m.

Definition present r pgdir n : bool := set_bits (pte_at r pgdir n) PTE_P.

Lemma wp_slot l s pgdir n t :
  kmem_ok l s → pt_ok l (ram s) pgdir → 0 ≤ n < 2 ^ 20 → ptab (ram s) pgdir (n / 1024) = Some t →
  is_Some (ram s !! pn (t + 4 * (n mod 1024))) ∧ word (ram s) (t + 4 * (n mod 1024)) = pte_at (ram s) pgdir n.
Proof.
  intros Hk Hpt Hn Ht. destruct (index_range n Hn) as [Hq Hi].
  destruct (pt_tab _ _ _ Hpt _ _ Hq Ht) as (Hta&_). split; [|by rewrite /pte_at Ht].
  destruct (in_page t (4 * (n mod 1024)) Hta) as [-> _]; [unfold PGSIZE; lia|].
  apply page_ram; [apply Hk|done].
Qed.

(** Writing the entry of page [n]. *)
Lemma set_pte_wp l c L w s pgdir n t e Q :
  kmem_ok l s → pt_ok l (ram s) pgdir → 0 ≤ n < 2 ^ 20 → ptab (ram s) pgdir (n / 1024) = Some t →
  (∀ s', kmem_ok l s' → pt_ok l (ram s') pgdir → pt_step l (ram s) l (ram s') pgdir →
     (∀ m, 0 ≤ m < 2 ^ 20 → pte_at (ram s') pgdir m = if decide (m = n) then u32 e else pte_at (ram s) pgdir m) →
     (∀ d, 0 ≤ d < 1024 → ptab (ram s') pgdir d = ptab (ram s) pgdir d) →
     Q tt (Kst c L w s')) →
  wp (wr32 (t + 4 * (n mod 1024)) e) Q (Kst c L w s).
Proof.
  intros Hk Hpt Hn Ht HQ. destruct (index_range n Hn) as [Hq Hi].
  destruct (wp_slot _ _ _ _ _ Hk Hpt Hn Ht) as [Hs _]. destruct (pt_tab _ _ _ Hpt _ _ Hq Ht) as (Hta&Htl&_).
  pose proof (km_ram _ _ _ Hk) as Hr. apply wp_wr32; [done|]. kst_simpl. apply HQ; cbn [ram set_ram].
  - exact (kmem_ok_wput l s t (n mod 1024) e Hk Hta Htl Hi).
  - eapply (wput_pt_ok l _ _ (n / 1024)); done.
  - eapply (wput_step l _ _ (n / 1024)); done.
  - intros m Hm. rewrite (wput_pte l _ _ (n / 1024)) //. rewrite (Z.mul_comm _ 1024) -Z.div_mod //.
  - intros d Hd. by apply (wput_ptab l _ _ (n / 1024)).
Qed.

Lemma mapped_S r pgdir n k pa perm r1 r2 :
  0 ≤ k → mapped r pgdir n 1 pa perm r1 → mapped r1 pgdir (n + 1) k (pa + PGSIZE) perm r2 →
  mapped r pgdir n (k + 1) pa perm r2.
Proof.
  intros Hk H1 H2 m Hm. rewrite (H2 m Hm) (H1 m Hm). repeat case_decide; try lia.
  all: try (unfold PGSIZE; lia).
Qed.

Lemma mappages_loop_wp c L w pgdir perm Q : cpu_ok c → L !! Lkmem = None →
  0 ≤ Z.lor perm PTE_P < PGSIZE → ∀ k l s n pa fuel, (k < fuel)%nat →
  kmem_ok l s → pt_ok l (ram s) pgdir → 0 ≤ n → n + k < 2 ^ 20 →
  pa mod PGSIZE = 0 → 0 ≤ pa → pa + (k + 1) * PGSIZE ≤ 2 ^ 32 →
  (∀ m, n ≤ m ≤ n + k → present (ram s) pgdir m = false) →
  (∀ l' s', kmem_ok l' s' → pt_ok l' (ram s') pgdir → pt_step l (ram s) l' (ram s') pgdir →
     mapped (ram s) pgdir n (k + 1) pa perm (ram s') → touched (ram s) pgdir n (n + (k + 1)) (ram s') → Q 0 (Kst c L w s')) →
  (∀ s' j, 0 ≤ j ≤ k → kmem_ok [] s' → pt_ok [] (ram s') pgdir → pt_step l (ram s) [] (ram s') pgdir →
     mapped (ram s) pgdir n j pa perm (ram s') → touched (ram s) pgdir n (n + j) (ram s') →
     ptab (ram s') pgdir ((n + j) / 1024) = None → Q (-1) (Kst c L w s')) →
  wp (mappages_loop fuel pgdir (n * PGSIZE) ((n + k) * PGSIZE) pa perm) Q (Kst c L w s).
Proof.
  intros Hc HL Hperm k. induction k as [|k IH]; intros l s n pa [|fuel] Hf Hk Hpt Hn Hnk Hpa Hpa0 Hpa1 Hfree HQ0 HQ1;
    try lia; cbn [mappages_loop]; (assert (0 ≤ n < 2 ^ 20) as Hn20 by lia); apply wp_bind.
  all: eapply walk_alloc_wp; [done|done|exact Hk|exact Hpt|exact Hn20|intros -> Hno; apply wp_ret|].
  1,3: eapply (HQ1 s 0); [lia|done|done|apply pt_step_refl| |rewrite Z.add_0_r; by apply touched_none|by rewrite Z.add_0_r];
    intros m Hm; case_decide; [lia|done].
  all: intros t l1 s1 Ht Hk1 Hpt1 Hv1 Hst1 Htc1; destruct (index_range n Hn20) as [Hq Hi];
    destruct (pt_tab _ _ _ Hpt1 _ _ Hq Ht) as (Hta&_);
    rewrite (proj2 (Z.eqb_neq _ _) (slot_nonzero t (n mod 1024) Hta ltac:(lia)));
    destruct (wp_slot _ _ _ _ _ Hk1 Hpt1 Hn20 Ht) as [Hs1 Hw1];
    apply wp_bind, wp_rd32; [done|]; cbn [kdata]; rewrite Hw1 Hv1 //;
    pose proof (Hfree n ltac:(lia)) as Hfn; rewrite /present in Hfn; rewrite Hfn;
    rewrite -Z.lor_assoc (lor_add 12) //; apply wp_bind; eapply set_pte_wp; [done..|];
    intros s2 Hk2 Hpt2 Hst2 Hv2 Htb2;
    assert (touched (ram s) pgdir n (n + 1) (ram s2)) as Htc2
      by (eapply touched_trans; [|exact Htc1|by apply touched_none]; lia);
    assert (mapped (ram s) pgdir n 1 pa perm (ram s2)) as Hm1.
  1,3: intros m Hm; rewrite Hv2 // Hv1 //; repeat case_decide; try lia; subst m;
    rewrite u32_small; [unfold is_u32, PGSIZE in *; lia|]; replace (n - n) with 0 by lia; lia.
  - rewrite (proj2 (Z.eqb_eq _ _)); [unfold PGSIZE; lia|]. apply wp_ret.
    eapply (HQ0 l1); [done|done|by eapply pt_step_trans|done|done].
  - rewrite (proj2 (Z.eqb_neq _ _)); [unfold PGSIZE; lia|].
    rewrite !u32_small; [unfold is_u32, PGSIZE in *; lia..|].
    replace (n * PGSIZE + PGSIZE) with ((n + 1) * PGSIZE) by lia.
    replace (n + S k) with (n + 1 + k) by lia.
    assert (pt_step l (ram s) l1 (ram s2) pgdir) as Hst by by eapply pt_step_trans.
    eapply (IH l1 s2 (n + 1) (pa + PGSIZE) fuel); [lia|done|done|lia|lia| |unfold PGSIZE in *; lia|unfold PGSIZE in *; lia|..].
    + rewrite Z.add_mod // Hpa //.
    + intros m Hm. rewrite /present Hm1; [lia|]. case_decide; [lia|]. apply Hfree. lia.
    + intros l' s' Hk' Hpt' Hst' Hm' Htc'. eapply (HQ0 l'); [done|done|by eapply pt_step_trans| |].
      * replace (S k + 1) with (k + 1 + 1) by lia. eapply mapped_S; [lia|done|done].
      * replace (n + (S k + 1)) with (n + 1 + (k + 1)) by lia. eapply touched_trans; [|done|done]. lia.
    + intros s' j Hj Hk' Hpt' Hst' Hm' Htc' Hno'. eapply (HQ1 s' (j + 1)); [lia|done|done|by eapply pt_step_trans|..].
      * eapply mapped_S; [lia|done|done].
      * rewrite (Z.add_comm j) Z.add_assoc. eapply touched_trans; [|done|done]. lia.
      * by rewrite (Z.add_comm j) Z.add_assoc.
Qed.
End VmSpec.
