(* ===== verification/VmCopy.v ===== *)
(** * User memory: correctness of [mappages], [uva2ka] and [copyout]

    [upage] translates a virtual page the way the processor does for user
    code, and [ubyte] is the byte of user memory at a virtual address.
    [copyout] writes exactly the bytes it is asked to write. *)

From S2P Require Import Prelude CInt Kernel Params Sleeplock Kalloc Vm VmSpec.

Lemma PGROUNDDOWN_eq a : is_u32 a → PGROUNDDOWN a = a / PGSIZE * PGSIZE.
Proof.
  intros Ha. rewrite /PGROUNDDOWN. change (PGSIZE - 1) with (Z.ones 12). rewrite land_lnot_ones //.
  change (2 ^ 12) with PGSIZE. pose proof (Z.div_mod a PGSIZE ltac:(done)).
  pose proof (Z.mod_pos_bound a PGSIZE ltac:(done)).
  rewrite u32_small; [unfold is_u32 in *|lia]. pose proof (Z.div_pos a PGSIZE ltac:(lia) ltac:(done)).
  unfold PGSIZE in *. lia.
Qed.

Section VmCopy.
Context (kend : Z) (Hend : KERNBASE ≤ kend).
Implicit Types (r : gmap Z page) (l : list Z) (s : vmem).
Notation page_addr := (page_addr kend).
Notation kmem_ok := (kmem_ok kend).
Notation pt_ok := (pt_ok kend).
Notation pt_step := (pt_step kend).
Notation data_page := (data_page kend).

(** ** [mappages] on any range *)

Lemma mappages_wp l c L w s pgdir va size pa perm Q :
  let n := va / PGSIZE in let k := (va + size - 1) / PGSIZE - n + 1 in
  cpu_ok c → L !! Lkmem = None → kmem_ok l s → pt_ok l (ram s) pgdir →
  0 ≤ Z.lor perm PTE_P < PGSIZE → 0 ≤ va → 0 < size → va + size ≤ 2 ^ 32 →
  pa mod PGSIZE = 0 → 0 ≤ pa → pa + k * PGSIZE ≤ 2 ^ 32 →
  (∀ m, n ≤ m < n + k → present (ram s) pgdir m = false) →
  (∀ l' s', kmem_ok l' s' → pt_ok l' (ram s') pgdir → pt_step l (ram s) l' (ram s') pgdir →
     mapped (ram s) pgdir n k pa perm (ram s') → touched (ram s) pgdir n (n + k) (ram s') → Q 0 (Kst c L w s')) →
  (∀ s' j, 0 ≤ j < k → kmem_ok [] s' → pt_ok [] (ram s') pgdir → pt_step l (ram s) [] (ram s') pgdir →
     mapped (ram s) pgdir n j pa perm (ram s') → touched (ram s) pgdir n (n + j) (ram s') →
     ptab (ram s') pgdir ((n + j) / 1024) = None → Q (-1) (Kst c L w s')) →
  wp (mappages pgdir va size pa perm) Q (Kst c L w s).
Proof.
  intros n k Hc HL Hk Hpt Hperm Hva Hsz Hend' Hpa Hpa0 Hpa1 Hfree HQ0 HQ1. rewrite /mappages.
  assert (n ≤ (va + size - 1) / PGSIZE) as Hle by (apply Z.div_le_mono; [done|lia]).
  assert (0 ≤ n) as Hn0 by by apply Z.div_pos.
  assert ((va + size - 1) / PGSIZE < 2 ^ 20) as Hlt.
  { apply Z.div_lt_upper_bound; [done|]. unfold PGSIZE. lia. }
  rewrite (PGROUNDDOWN_eq va); [unfold is_u32; lia|]. rewrite PGROUNDDOWN_eq; [apply u32_range|].
  rewrite (u32_small (_ + _ - _)); [unfold is_u32; lia|].
  fold n. set (j := Z.to_nat (k - 1)). replace ((va + size - 1) / PGSIZE) with (n + j) by lia.
  eapply (mappages_loop_wp kend Hend c L w pgdir perm Q Hc HL Hperm j l s n pa);
    [|done|done|lia|lia|done|done| |intros m Hm; apply Hfree; lia| |].
  - rewrite -Z.mul_sub_distr_r u32_small; [unfold is_u32, PGSIZE; lia|]. rewrite Z.div_mul //. lia.
  - replace (j + 1) with k by lia. done.
  - replace (j + 1) with k by lia. done.
  - intros s' i Hi. apply HQ1. lia.
Qed.

(** ** User memory *)

Definition upage r pgdir n : option Z :=
  let e := pte_at r pgdir n in
  if set_bits e PTE_P && set_bits e PTE_U then Some (P2V (PTE_ADDR e)) else None.

Definition ubyte r pgdir (x : Z) : option Z :=
  v ← upage r pgdir (x / PGSIZE); p ← r !! pn v; p !! Z.to_nat (x mod PGSIZE).

(** A present page, whether or not user code may access it. *)
Definition ppage r pgdir n : option Z :=
  let e := pte_at r pgdir n in if set_bits e PTE_P then Some (P2V (PTE_ADDR e)) else None.

(** Virtual pages below KERNBASE. *)
Definition NU : Z := KERNBASE / PGSIZE.

(** The pages mapped below KERNBASE are allocated pages of their own, each
    mapped once, and user code cannot access anything above. *)
Record user_ok l r pgdir : Prop := {
  uo_data : ∀ n v, 0 ≤ n < NU → ppage r pgdir n = Some v → data_page l r pgdir v;
  uo_inj : ∀ n m v, 0 ≤ n < NU → 0 ≤ m < NU →
    ppage r pgdir n = Some v → ppage r pgdir m = Some v → n = m;
  uo_kern : ∀ n, NU ≤ n < 2 ^ 20 → upage r pgdir n = None
}.

Lemma NU_eq : NU = 2 ^ 19.
Proof. done. Qed.

Lemma upage_ppage l r pgdir n v :
  user_ok l r pgdir → 0 ≤ n < 2 ^ 20 → upage r pgdir n = Some v → 0 ≤ n < NU ∧ ppage r pgdir n = Some v.
Proof.
  intros Hu Hn Hv. destruct (decide (n < NU)) as [|Hge].
  - split; [lia|]. revert Hv. rewrite /upage /ppage. by destruct (set_bits _ _), (set_bits _ _).
  - rewrite (uo_kern _ _ _ Hu) // in Hv. lia.
Qed.

Lemma upage_data l r pgdir n v :
  user_ok l r pgdir → 0 ≤ n < 2 ^ 20 → upage r pgdir n = Some v → data_page l r pgdir v.
Proof. intros Hu Hn Hv. destruct (upage_ppage _ _ _ _ _ Hu Hn Hv). by apply (uo_data _ _ _ Hu n). Qed.

Lemma upage_inj l r pgdir n m v :
  user_ok l r pgdir → 0 ≤ n < 2 ^ 20 → 0 ≤ m < 2 ^ 20 →
  upage r pgdir n = Some v → upage r pgdir m = Some v → n = m.
Proof.
  intros Hu Hn Hm Hv Hv'. destruct (upage_ppage _ _ _ _ _ Hu Hn Hv), (upage_ppage _ _ _ _ _ Hu Hm Hv').
  by eapply (uo_inj _ _ _ Hu).
Qed.

Section Write.
Context (l : list Z) (r : gmap Z page) (pgdir n v : Z) (p : page) (o : nat) (x : list Z).
Context (Hr : ram_ok kend r) (Hpt : pt_ok l r pgdir) (Hu : user_ok l r pgdir) (Hn : 0 ≤ n < 2 ^ 20).
Context (Hv : upage r pgdir n = Some v) (Hp : r !! pn v = Some p) (Hx : Forall is_byte x).
Context (Hl : length p = Z.to_nat PGSIZE) (Hb : Forall is_byte p) (Hfit : (o + length x ≤ length p)%nat).

Definition written : gmap Z page := <[pn v := blit o x p]> r.

Lemma v_data : data_page l r pgdir v.
Proof. by eapply upage_data. Qed.

Lemma written_ptab d : 0 ≤ d < 1024 → ptab written pgdir d = ptab r pgdir d.
Proof.
  intros Hd. destruct v_data as (Hva&_&Hne&_). rewrite /ptab /written.
  rewrite (page_word_other kend Hend) //; apply Hpt.
Qed.

Lemma written_pte m : 0 ≤ m < 2 ^ 20 → pte_at written pgdir m = pte_at r pgdir m.
Proof.
  intros Hm. destruct (index_range m Hm) as [Hq Hi]. rewrite /pte_at written_ptab //.
  destruct (ptab r pgdir (m / 1024)) as [t|] eqn:Et; [|done].
  destruct (pt_tab _ _ _ _ Hpt _ _ Hq Et) as (Hta&_). destruct v_data as (Hva&_&_&Hnt).
  rewrite /written (page_word_other kend Hend) //. intros ->. by apply (Hnt (m / 1024)).
Qed.

Lemma written_upage m : 0 ≤ m < 2 ^ 20 → upage written pgdir m = upage r pgdir m.
Proof. intros Hm. by rewrite /upage written_pte. Qed.

Lemma written_ppage m : 0 ≤ m < 2 ^ 20 → ppage written pgdir m = ppage r pgdir m.
Proof. intros Hm. by rewrite /ppage written_pte. Qed.

Lemma written_pt_ok : pt_ok l written pgdir.
Proof.
  split; [apply Hpt|..].
  - intros d t Hd. rewrite written_ptab //. by apply Hpt.
  - intros d d' t Hd Hd'. rewrite !written_ptab //. by apply Hpt.
Qed.

Lemma written_user_ok : user_ok l written pgdir.
Proof.
  split.
  - intros m w Hm. rewrite written_ppage; [rewrite NU_eq in Hm; lia|]. intros Hw. destruct (uo_data _ _ _ Hu m w Hm Hw) as (?&?&?&Hnt).
    split_and!; try done. intros d Hd. rewrite written_ptab //. by apply Hnt.
  - intros m m' w Hm Hm'. rewrite NU_eq in Hm, Hm'. rewrite !written_ppage; [lia..|]. by apply Hu.
  - intros m Hm. rewrite written_upage; [rewrite NU_eq in Hm; lia|]. by apply Hu.
Qed.

Lemma written_bytes : length (blit o x p) = Z.to_nat PGSIZE ∧ Forall is_byte (blit o x p).
Proof.
  split; [by rewrite length_blit|]. apply Forall_app. split; [by apply Forall_take|].
  apply Forall_app. split; [done|by apply Forall_drop].
Qed.

Lemma written_byte a : is_u32 a →
  ubyte written pgdir a =
    if decide (n * PGSIZE + o ≤ a < n * PGSIZE + o + length x) then x !! Z.to_nat (a - (n * PGSIZE + o))
    else ubyte r pgdir a.
Proof.
  intros Ha. assert (0 ≤ a / PGSIZE < 2 ^ 20) as Hq.
  { unfold is_u32, PGSIZE in *. Z.div_mod_to_equations. lia. }
  pose proof (Z.mod_pos_bound a PGSIZE ltac:(done)) as Hm. pose proof (Z.div_mod a PGSIZE ltac:(done)) as Hd.
  rewrite /ubyte written_upage //. destruct (decide (a / PGSIZE = n)) as [E|E].
  - rewrite E Hv /= /written lookup_insert_eq Hp /=. rewrite lookup_blit //.
    rewrite E in Hd. destruct (decide (o ≤ Z.to_nat (a mod PGSIZE) < o + length x)%nat).
    + rewrite decide_True; [unfold PGSIZE in *; lia|]. f_equal. unfold PGSIZE in *. lia.
    + rewrite decide_False //. unfold PGSIZE in *. lia.
  - rewrite decide_False.
    { intros Hin. apply E. pose proof Hfit as Hf; rewrite Hl in Hf. unfold PGSIZE in *. Z.div_mod_to_equations. lia. }
    destruct (upage r pgdir (a / PGSIZE)) as [w|] eqn:Ew; [|done]. simpl.
    rewrite /written lookup_insert_ne //. intros Epn. apply E.
    destruct (upage_data _ _ _ _ _ Hu Hq Ew) as (Hwa&_), v_data as (Hva&_).
    apply (pn_inj _ Hend) in Epn; [|done|done]. subst w. by eapply upage_inj.
Qed.
End Write.

Lemma upage_tab r pgdir n v : upage r pgdir n = Some v → ∃ t, ptab r pgdir (n / 1024) = Some t.
Proof. rewrite /upage /pte_at. destruct (ptab r pgdir (n / 1024)) as [t|]; [eauto|done]. Qed.

Lemma uva2ka_wp l c L w s pgdir n Q :
  kmem_ok l s → pt_ok l (ram s) pgdir → 0 ≤ n < 2 ^ 20 → is_Some (ptab (ram s) pgdir (n / 1024)) →
  Q (default 0 (upage (ram s) pgdir n)) (Kst c L w s) →
  wp (uva2ka pgdir (n * PGSIZE)) Q (Kst c L w s).
Proof.
  intros Hk Hpt Hn [t Ht] HQ. rewrite /uva2ka. apply wp_bind.
  eapply (walk_lookup_wp kend Hend); [done|done|done|]. rewrite Ht /=.
  destruct (wp_slot kend Hend _ _ _ _ _ Hk Hpt Hn Ht) as [Hs Hw].
  apply wp_bind, wp_rd32; [done|]. cbn [kdata]. rewrite Hw. rewrite /upage in HQ.
  destruct (set_bits _ PTE_P); [|by apply wp_ret]. by destruct (set_bits _ PTE_U); apply wp_ret.
Qed.

(** The effect of copying [buf] to [va]. *)
Definition copied r pgdir va (buf : list Z) r' : Prop :=
  (∀ a, is_u32 a → ubyte r' pgdir a =
     if decide (va ≤ a < va + length buf) then buf !! Z.to_nat (a - va) else ubyte r pgdir a) ∧
  (∀ m, 0 ≤ m < 2 ^ 20 → pte_at r' pgdir m = pte_at r pgdir m).

Lemma copied_nil r pgdir va : copied r pgdir va [] r.
Proof. split; [|done]. intros a _. case_decide; [simpl in *; lia|done]. Qed.

Lemma copied_app r pgdir va x y r1 r2 :
  copied r pgdir va x r1 → copied r1 pgdir (va + length x) y r2 → copied r pgdir va (x ++ y) r2.
Proof.
  intros [H1 P1] [H2 P2]. split; [|intros m Hm; by rewrite P2 // P1].
  intros a Ha. rewrite H2 // H1 // length_app. repeat case_decide; try lia; try done.
  - rewrite lookup_app_r; [lia|]. f_equal. lia.
  - rewrite lookup_app_l //. lia.
Qed.

(** Storing bytes into a user page. *)
Lemma write_user_wp {A} (k : K vmem A) l c L w s pgdir va v x Q :
  kmem_ok l s → pt_ok l (ram s) pgdir → user_ok l (ram s) pgdir → Forall is_byte x → is_u32 va →
  upage (ram s) pgdir (va / PGSIZE) = Some v → va mod PGSIZE + length x ≤ PGSIZE →
  (∀ s', kmem_ok l s' → pt_ok l (ram s') pgdir → user_ok l (ram s') pgdir →
     copied (ram s) pgdir va x (ram s') →
     (∀ d, 0 ≤ d < 1024 → ptab (ram s') pgdir d = ptab (ram s) pgdir d) →
     (∀ m, 0 ≤ m < 2 ^ 20 → upage (ram s') pgdir m = upage (ram s) pgdir m) →
     wp k Q (Kst c L w s')) →
  let a := v + va mod PGSIZE in
  wp (p ← get_page a; put_page a (blit (po a) x p);; k) Q (Kst c L w s).
Proof.
  intros Hk Hpt Hu Hx Hva Hv Hfit HQ a. pose proof (Z.mod_pos_bound va PGSIZE ltac:(done)) as Hm.
  pose proof (Z.div_mod va PGSIZE ltac:(done)) as Hd. set (n := va / PGSIZE) in *.
  assert (0 ≤ n < 2 ^ 20) as Hn. { subst n. unfold is_u32, PGSIZE in *. Z.div_mod_to_equations. lia. }
  destruct (upage_data _ _ _ _ _ Hu Hn Hv) as (Hva'&Hvl&_).
  destruct (in_page kend Hend v (va mod PGSIZE) Hva' Hm) as [Hpn Hpo]. fold a in Hpn, Hpo.
  destruct (km_ram _ _ _ Hk v Hva') as (p&Hp&Hlp&Hbp).
  apply wp_bind. eapply wp_get_page; [by rewrite /= Hpn|]. apply wp_bind, wp_modify. kst_simpl.
  rewrite Hpn Hpo. set (o := Z.to_nat (va mod PGSIZE)).
  assert (o + length x ≤ length p)%nat as Hf by (rewrite Hlp; lia).
  apply HQ; cbn [ram set_ram].
  - destruct (written_bytes p o x) as [? ?]; [done..|].
    exact (kmem_ok_put kend Hend l s v (blit o x p) Hk Hva' Hvl H H0).
  - by apply (written_pt_ok l _ _ n v).
  - by apply (written_user_ok l _ _ n v).
  - split.
    + intros b Hb. rewrite (written_byte l _ _ n v p o x) //.
      by replace (n * PGSIZE + o) with va by lia.
    + intros m Hm'. by apply (written_pte l _ _ n v).
  - intros d Hd'. by apply (written_ptab l _ _ n v).
  - intros m Hm'. by apply (written_upage l _ _ n v).
Qed.

(** What [copyout] leaves: the bytes of [buf] written, all of them or those
    before the first page that is not a user page. *)
Lemma copyout_loop_wp c L w pgdir l Q : ∀ fuel buf va s,
  kmem_ok l s → pt_ok l (ram s) pgdir → user_ok l (ram s) pgdir → Forall is_byte buf →
  (length buf ≤ fuel)%nat → 0 ≤ va → va + length buf ≤ 2 ^ 32 →
  (∀ a, va ≤ a < va + length buf → is_Some (ptab (ram s) pgdir (a / PGSIZE / 1024))) →
  (∀ s', kmem_ok l s' → pt_ok l (ram s') pgdir → user_ok l (ram s') pgdir →
     (∀ a, va ≤ a < va + length buf → is_Some (upage (ram s) pgdir (a / PGSIZE))) →
     copied (ram s) pgdir va buf (ram s') → Q 0 (Kst c L w s')) →
  (∀ s' j, (j < length buf)%nat → kmem_ok l s' → pt_ok l (ram s') pgdir → user_ok l (ram s') pgdir →
     upage (ram s) pgdir ((va + j) / PGSIZE) = None →
     copied (ram s) pgdir va (take j buf) (ram s') → Q (-1) (Kst c L w s')) →
  wp (copyout_loop fuel pgdir va buf) Q (Kst c L w s).
Proof.
  induction fuel as [|fuel IH]; intros buf va s Hk Hpt Hu Hb Hf Hva Hlen Htab HQ0 HQ1.
  - destruct buf; [|simpl in Hf; lia]. apply wp_ret, HQ0; [done..|simpl; lia|apply copied_nil].
  - destruct buf as [|b buf]; [apply wp_ret, HQ0; [done..|simpl; lia|apply copied_nil]|].
    remember (b :: buf) as bs eqn:Hbs. assert (0 < length bs)%nat as Hpos by (subst; simpl; lia).
    cbn [copyout_loop]. rewrite {1}Hbs. clear Hbs b buf. set (n := va / PGSIZE).
    assert (0 ≤ n < 2 ^ 20) as Hn.
    { subst n. unfold PGSIZE. Z.div_mod_to_equations. lia. }
    pose proof (Z.mod_pos_bound va PGSIZE ltac:(done)) as Hm. pose proof (Z.div_mod va PGSIZE ltac:(done)) as Hd.
    fold n in Hd. rewrite PGROUNDDOWN_eq; [unfold is_u32; lia|]. fold n.
    replace (va - n * PGSIZE) with (va mod PGSIZE) by lia.
    apply wp_bind. eapply uva2ka_wp; [done|done|done|apply (Htab va); lia|].
    destruct (upage (ram s) pgdir n) as [v|] eqn:Ev; cbn [default]; simpl.
    2:{ apply wp_ret. eapply (HQ1 s 0%nat); [lia|done..|by rewrite Z.add_0_r|]. rewrite take_0. apply copied_nil. }
    destruct (upage_data _ _ _ _ _ Hu Hn Ev) as (Hva'&_).
    rewrite (proj2 (Z.eqb_neq v 0) (page_addr_nonzero kend Hend v Hva')).
    set (k := Z.to_nat _). assert (length (take k bs) = k) as Hlk by (rewrite length_take; lia).
    eapply write_user_wp; [exact Hk|done|done|by apply Forall_take|unfold is_u32; lia|exact Ev|lia|].
    intros s1 Hk1 Hpt1 Hu1 Hcp Htab1 Hup1.
    assert (∀ a, va ≤ a < va + k → upage (ram s) pgdir (a / PGSIZE) = Some v) as Hpg.
    { intros a Ha. rewrite -Ev. f_equal. subst n k. symmetry.
      apply (Z.div_unique _ _ _ (a mod PGSIZE)); [left; by apply Z.mod_pos_bound|].
      unfold PGSIZE in *. Z.div_mod_to_equations. lia. }
    destruct (decide (drop k bs = [])) as [Hnil|Hne].
    { rewrite Hnil. assert (take k bs = bs) as Htk by (rewrite -{2}(take_drop k bs) Hnil app_nil_r //).
      assert (length bs = k) as Hbk by (rewrite -Htk; lia). rewrite Htk in Hcp.
      assert (wp (mret 0) Q (Kst c L w s1)) as Hdone; [|by destruct fuel].
      apply wp_ret, HQ0; [done..| |done]. intros a Ha. rewrite Hpg; [lia|]. done. }
    assert (k < length bs)%nat as Hkl.
    { destruct (decide (k < length bs)%nat); [done|]. destruct Hne. apply drop_ge. lia. }
    assert (va + k = n * PGSIZE + PGSIZE) as Hnext by lia.
    rewrite u32_small; [unfold is_u32; lia|]. rewrite -Hnext.
    assert (∀ a, va + k ≤ a < va + length bs → 0 ≤ a / PGSIZE < 2 ^ 20) as Hq.
    { intros a Ha. unfold PGSIZE. Z.div_mod_to_equations. lia. }
    eapply IH; [done|done|done|by apply Forall_drop|rewrite length_drop; lia|lia|rewrite length_drop; lia|..];
      rewrite length_drop.
    + intros a Ha. destruct (index_range (a / PGSIZE)) as [? _]; [apply Hq; lia|]. rewrite Htab1 //. apply Htab. lia.
    + intros s' Hk' Hpt' Hu' Hall Hcp'. apply HQ0; [done..| |].
      * intros a Ha. destruct (decide (a < va + k)); [rewrite Hpg; [lia|done]|].
        rewrite -Hup1; [apply Hq; lia|]. apply Hall. lia.
      * rewrite -(take_drop k bs). eapply copied_app; [done|by rewrite Hlk].
    + intros s' j Hj Hk' Hpt' Hu' Hno Hcp'. apply (HQ1 s' (k + j)%nat); [lia|done..| |].
      * replace (va + (k + j)%nat) with (va + k + j) by lia. rewrite -Hup1 //. apply Hq. lia.
      * rewrite -take_take_drop. eapply copied_app; [done|by rewrite Hlk].
Qed.
End VmCopy.

(** ** Growing and shrinking user memory: [allocuvm] and [deallocuvm]

    [deallocuvm] gives exactly the pages of its range back to the allocator
    and leaves the rest of the address space alone; [allocuvm] maps fresh
    zeroed pages, or gives back what it took. *)

Section VmAlloc.
Context (kend : Z) (Hkend : KERNBASE < kend).
Implicit Types (r : gmap Z page) (l : list Z) (s : vmem).
Notation page_addr := (page_addr kend).
Notation kmem_ok := (kmem_ok kend).
Notation pt_ok := (pt_ok kend).
Notation user_ok := (user_ok kend).
Notation data_page := (data_page kend).

Lemma Hend : KERNBASE ≤ kend.
Proof. lia. Qed.

(** ** Freeing one page *)

Section PutPage.
Context (l : list Z) (r : gmap Z page) (pgdir v : Z) (p : page).
Context (Hpt : pt_ok l r pgdir) (Hv : data_page l r pgdir v).

(** Overwriting a page outside of the page table. *)
Lemma put_ptab d : 0 ≤ d < 1024 → ptab (<[pn v := p]> r) pgdir d = ptab r pgdir d.
Proof.
  intros Hd. destruct Hv as (Hva&_&Hne&_). rewrite /ptab.
  rewrite (page_word_other kend Hend) //; apply Hpt.
Qed.

Lemma put_pte m : 0 ≤ m < 2 ^ 20 → pte_at (<[pn v := p]> r) pgdir m = pte_at r pgdir m.
Proof.
  intros Hm. destruct (index_range m Hm) as [Hq Hi]. rewrite /pte_at put_ptab //.
  destruct (ptab r pgdir (m / 1024)) as [t|] eqn:Et; [|done].
  destruct (pt_tab _ _ _ _ Hpt _ _ Hq Et) as (Hta&_). destruct Hv as (Hva&_&_&Hnt).
  rewrite (page_word_other kend Hend) //. intros ->. by apply (Hnt (m / 1024)).
Qed.

Lemma put_pt_ok : pt_ok l (<[pn v := p]> r) pgdir.
Proof.
  split; [apply Hpt|..].
  - intros d t Hd. rewrite put_ptab //. by apply Hpt.
  - intros d d' t Hd Hd'. rewrite !put_ptab //. by apply Hpt.
Qed.

Lemma put_free_pt_ok : pt_ok (v :: l) (<[pn v := p]> r) pgdir.
Proof.
  destruct Hv as (Hva&_&Hne&Hnt). split.
  - destruct (pt_dir _ _ _ _ Hpt). split; [done|]. apply not_elem_of_cons. by split.
  - intros d t Hd. rewrite put_ptab //. intros Ht.
    destruct (pt_tab _ _ _ _ Hpt d t Hd Ht) as (?&?&?). split_and!; [done| |done].
    apply not_elem_of_cons. split; [|done]. intros ->. by apply (Hnt d).
  - intros d d' t Hd Hd'. rewrite !put_ptab //. by apply Hpt.
Qed.

Lemma put_data_page x : data_page l r pgdir x → data_page l (<[pn v := p]> r) pgdir x.
Proof. intros (?&?&?&Hnt). split_and!; try done. intros d Hd. rewrite put_ptab //. by apply Hnt. Qed.

Lemma put_other x : page_addr x → x ≠ v → <[pn v := p]> r !! pn x = r !! pn x.
Proof.
  intros Hx Hne. rewrite lookup_insert_ne //. intros E. apply Hne. destruct Hv.
  by apply eq_sym, (pn_inj _ Hend).
Qed.
End PutPage.

Lemma pt_ok_tail l r pgdir v : pt_ok (v :: l) r pgdir → pt_ok l r pgdir.
Proof.
  intros [[? [? ?]%not_elem_of_cons] Ht Hi]. split; [done| |done].
  intros d t Hd H'. destruct (Ht d t Hd H') as (?&[? ?]%not_elem_of_cons&?). done.
Qed.

Lemma data_page_tail l r pgdir v x : data_page (v :: l) r pgdir x → data_page l r pgdir x.
Proof. by intros (?&[? ?]%not_elem_of_cons&?&?). Qed.

Lemma user_ok_tail l r pgdir v : user_ok (v :: l) r pgdir → user_ok l r pgdir.
Proof.
  intros [Hd Hi Hk]. split; [|done|done]. intros n x Hn Hx. by eapply data_page_tail, Hd.
Qed.

(** The first free page is outside of the page table. *)
Lemma head_data_page l r pgdir v :
  pt_ok (v :: l) r pgdir → page_addr v → v ∉ l → data_page l r pgdir v.
Proof.
  intros Hpt Hv Hl. destruct (pt_dir _ _ _ _ Hpt) as [_ [? _]%not_elem_of_cons]. split_and!; [done|done|done|].
  intros d Hd Ht. by destruct (pt_tab _ _ _ _ Hpt d v Hd Ht) as (_&[? _]%not_elem_of_cons&_).
Qed.

Lemma pv_data l r pgdir n v :
  user_ok l r pgdir → 0 ≤ n < NU → ppage r pgdir n = Some v → data_page l r pgdir v.
Proof. intros Hu. by apply (uo_data _ _ _ _ Hu n). Qed.

Lemma ppage_small n : 0 ≤ n < NU → 0 ≤ n < 2 ^ 20.
Proof. rewrite NU_eq. lia. Qed.

Lemma ppage_tab r pgdir n v : ppage r pgdir n = Some v → ∃ t, ptab r pgdir (n / 1024) = Some t.
Proof. rewrite /ppage /pte_at. destruct (ptab r pgdir (n / 1024)) as [t|]; [eauto|done]. Qed.

(** The effect of freeing the pages [n .. m). *)
Record freed_pages l r l' r' pgdir n m : Prop := {
  fp_out : ∀ i, 0 ≤ i < 2 ^ 20 → ¬ (n ≤ i < m) → pte_at r' pgdir i = pte_at r pgdir i;
  fp_in : ∀ i, n ≤ i < m → present r' pgdir i = false;
  fp_list : ∃ k, l' = k ++ l ∧ ∀ v, v ∈ k ↔ ∃ i, n ≤ i < m ∧ ppage r pgdir i = Some v;
  fp_tab : ∀ d, 0 ≤ d < 1024 → ptab r' pgdir d = ptab r pgdir d;
  fp_data : ∀ v, data_page l r pgdir v → v ∉ l' → r' !! pn v = r !! pn v
}.

Lemma ppage_present r pgdir i : ppage r pgdir i = None ↔ present r pgdir i = false.
Proof. rewrite /ppage /present. by destruct (set_bits _ _). Qed.

(** Pages that are not present need nothing. *)
Lemma freed_none l r pgdir n m :
  (∀ i, n ≤ i < m → present r pgdir i = false) → freed_pages l r l r pgdir n m.
Proof.
  intros H. split; try done. exists []. split; [done|]. intros v. split; [set_solver|].
  intros (i&Hi&Hv). rewrite (proj2 (ppage_present r pgdir i)) in Hv; [by apply H|done].
Qed.

Lemma freed_pages_data l r l' r' pgdir n m v :
  freed_pages l r l' r' pgdir n m → data_page l r pgdir v → v ∉ l' → data_page l' r' pgdir v.
Proof.
  intros Hf (?&?&?&Hnt) Hl. split_and!; try done. intros d Hd. rewrite (fp_tab _ _ _ _ _ _ _ Hf) //. by apply Hnt.
Qed.

Lemma freed_trans l r l1 r1 l2 r2 pgdir n k m :
  0 ≤ n → n ≤ k → k ≤ m → m ≤ 2 ^ 20 →
  freed_pages l r l1 r1 pgdir n k → freed_pages l1 r1 l2 r2 pgdir k m →
  freed_pages l r l2 r2 pgdir n m.
Proof.
  intros H0 Hnk Hkm Hm H1 H2.
  destruct (fp_list _ _ _ _ _ _ _ H1) as (x1&->&Hx1), (fp_list _ _ _ _ _ _ _ H2) as (x2&->&Hx2).
  assert (∀ i, k ≤ i < m → ppage r1 pgdir i = ppage r pgdir i) as Hp.
  { intros i Hi. rewrite /ppage (fp_out _ _ _ _ _ _ _ H1) //; lia. }
  split.
  - intros i Hi Hn. rewrite (fp_out _ _ _ _ _ _ _ H2) //; [lia|]. apply (fp_out _ _ _ _ _ _ _ H1); [done|lia].
  - intros i Hi. destruct (decide (i < k)) as [Hlt|Hge]; [|apply (fp_in _ _ _ _ _ _ _ H2); lia].
    rewrite /present (fp_out _ _ _ _ _ _ _ H2); [lia..|]. apply (fp_in _ _ _ _ _ _ _ H1). lia.
  - exists (x2 ++ x1). rewrite app_assoc. split; [done|]. intros v. rewrite elem_of_app Hx1 Hx2. split.
    + intros [(i&Hi&Hv)|(i&Hi&Hv)]; exists i; [rewrite Hp in Hv; [lia|]|]; (split; [lia|done]).
    + intros (i&Hi&Hv). destruct (decide (i < k)); [right|left]; exists i; [by split; [lia|]|].
      rewrite Hp; [lia|]. split; [lia|done].
  - intros d Hd. rewrite (fp_tab _ _ _ _ _ _ _ H2) //. by apply (fp_tab _ _ _ _ _ _ _ H1).
  - intros v Hv Hl. assert (v ∉ x1 ++ l) as Hl1 by set_solver.
    rewrite (fp_data _ _ _ _ _ _ _ H2) //; [by eapply freed_pages_data|]. by apply (fp_data _ _ _ _ _ _ _ H1).
Qed.

(** Clearing an entry keeps the other user pages. *)
Lemma user_ok_clear l r r2 pgdir n v :
  user_ok l r pgdir → 0 ≤ n < NU → ppage r pgdir n = Some v → pte_at r2 pgdir n = 0 →
  (∀ m, 0 ≤ m < 2 ^ 20 → m ≠ n → pte_at r2 pgdir m = pte_at r pgdir m) →
  (∀ x, data_page l r pgdir x → x ≠ v → data_page (v :: l) r2 pgdir x) →
  user_ok (v :: l) r2 pgdir.
Proof.
  intros Hu Hn Hv Hin Hout Hdp.
  assert (∀ m x, 0 ≤ m < NU → ppage r2 pgdir m = Some x → m ≠ n ∧ ppage r pgdir m = Some x) as Hpp.
  { intros m x Hm. rewrite /ppage. destruct (decide (m = n)) as [->|Hne]; [by rewrite Hin|].
    rewrite Hout //. by apply ppage_small. }
  split.
  - intros m x Hm [Hne Hx]%Hpp; [|done]. apply Hdp; [by eapply (uo_data _ _ _ _ Hu m)|].
    intros ->. by apply Hne, (uo_inj _ _ _ _ Hu m n v).
  - intros m m' x Hm Hm' [_ Hx]%Hpp [_ Hx']%Hpp; [|done..]. by apply (uo_inj _ _ _ _ Hu m m' x).
  - intros m Hm. rewrite /upage Hout; [rewrite NU_eq in Hm; lia|lia|]. by apply (uo_kern _ _ _ _ Hu).
Qed.

Lemma free_page_wp {A} (k : K vmem A) l c L w s pgdir n t v Q :
  cpu_ok c → L !! Lkmem = None → kmem_ok l s → pt_ok l (ram s) pgdir → user_ok l (ram s) pgdir →
  0 ≤ n < NU → ptab (ram s) pgdir (n / 1024) = Some t → ppage (ram s) pgdir n = Some v →
  (∀ s', kmem_ok (v :: l) s' → pt_ok (v :: l) (ram s') pgdir → user_ok (v :: l) (ram s') pgdir →
     freed_pages l (ram s) (v :: l) (ram s') pgdir n (n + 1) → wp k Q (Kst c L w s')) →
  wp (kfree kend v;; wr32 (t + 4 * (n mod 1024)) 0;; k) Q (Kst c L w s).
Proof.
  intros Hc HL Hk Hpt Hu Hn Ht Hv HQ. pose proof (ppage_small n Hn) as Hn20.
  destruct (pv_data _ _ _ _ _ Hu Hn Hv) as (Hva&Hvl&Hvp&Hvt).
  apply wp_bind. eapply (kfree_wp kend Hend); [done|done|exact Hk|done|done|]. intros s1 Hk1 Hs1.
  assert (ram s1 = <[pn v := run_page (freelist s)]> (ram s)) as Hr1 by by rewrite Hs1.
  pose proof (pv_data _ _ _ _ _ Hu Hn Hv) as Hdv.
  pose proof (put_free_pt_ok _ _ _ _ (run_page (freelist s)) Hpt Hdv) as Hpt1. rewrite -Hr1 in Hpt1.
  assert (∀ d, 0 ≤ d < 1024 → ptab (ram s1) pgdir d = ptab (ram s) pgdir d) as Htab1.
  { intros d Hd. rewrite Hr1. by eapply put_ptab. }
  assert (∀ m, 0 ≤ m < 2 ^ 20 → pte_at (ram s1) pgdir m = pte_at (ram s) pgdir m) as Hpte1.
  { intros m Hm. rewrite Hr1. by eapply put_pte. }
  destruct (index_range n Hn20) as [Hq Hi].
  apply wp_bind. eapply (set_pte_wp kend Hend (v :: l)); [exact Hk1|done|done|by rewrite Htab1|].
  intros s2 Hk2 Hpt2 Hst2 Hpte2 Htab2'.
  assert (∀ m, 0 ≤ m < 2 ^ 20 → m ≠ n → pte_at (ram s2) pgdir m = pte_at (ram s) pgdir m) as Hout.
  { intros m Hm Hne. rewrite Hpte2 //. case_decide; [done|]. by apply Hpte1. }
  assert (pte_at (ram s2) pgdir n = 0) as Hin. { rewrite Hpte2 //. by case_decide. }
  assert (∀ d, 0 ≤ d < 1024 → ptab (ram s2) pgdir d = ptab (ram s) pgdir d) as Htab2.
  { intros d Hd. rewrite Htab2' //. by apply Htab1. }
  assert (∀ x, data_page l (ram s) pgdir x → x ≠ v → data_page (v :: l) (ram s2) pgdir x) as Hdp.
  { intros x (?&?&?&Hnt) Hne. split_and!; [done|by apply not_elem_of_cons|done|].
    intros d Hd. rewrite Htab2 //. by apply Hnt. }
  apply HQ; [done|done|..].
  - apply (user_ok_clear l (ram s) (ram s2) pgdir n v); done.
  - split.
    + intros i Hi' Hne. apply Hout; [done|lia].
    + intros i Hi'. assert (i = n) as -> by lia. by rewrite /present Hin.
    + exists [v]. split; [done|]. intros x. rewrite list_elem_of_singleton. split.
      * intros ->. exists n. split; [lia|done].
      * intros (i&Hi'&Hx). assert (i = n) as -> by lia. congruence.
    + done.
    + intros x Hx Hxl. apply not_elem_of_cons in Hxl as [Hxv Hxl].
      rewrite (ps_data _ _ _ _ _ _ Hst2).
      * destruct Hx as (?&?&?&Hnt). split_and!; [done|by apply not_elem_of_cons|done|].
        intros d Hd. rewrite Htab1 //. by apply Hnt.
      * rewrite Hr1 lookup_insert_ne //. intros E. apply Hxv. destruct Hx.
        by apply eq_sym, (pn_inj _ Hend).
Qed.

(** ** [deallocuvm] *)

Definition pages_up (sz : Z) : Z := (sz + PGSIZE - 1) / PGSIZE.

Lemma pages_up_le sz n : 0 ≤ sz → 0 ≤ n → (sz ≤ n * PGSIZE ↔ pages_up sz ≤ n).
Proof. intros. rewrite /pages_up. unfold PGSIZE. split; intros; Z.div_mod_to_equations; lia. Qed.

Lemma pages_up_NU sz : 0 ≤ sz ≤ KERNBASE → 0 ≤ pages_up sz ≤ NU.
Proof. intros. rewrite /pages_up NU_eq. unfold PGSIZE, KERNBASE in *. split; Z.div_mod_to_equations; lia. Qed.

Lemma PGROUNDUP_eq sz : 0 ≤ sz ≤ KERNBASE → PGROUNDUP sz = pages_up sz * PGSIZE.
Proof.
  intros Hs. rewrite /PGROUNDUP. change (Z.lnot (PGSIZE - 1)) with (Z.lnot (Z.ones 12)).
  rewrite land_lnot_ones //. change (2 ^ 12) with PGSIZE.
  pose proof (Z.div_mod (sz + PGSIZE - 1) PGSIZE ltac:(done)). pose proof (pages_up_NU sz Hs) as Hp.
  rewrite NU_eq in Hp. rewrite /pages_up in Hp |- *. rewrite u32_small; [|lia].
  unfold is_u32, PGSIZE, KERNBASE in *. lia.
Qed.

(** The address [deallocuvm] goes on with when a page table is missing. *)
Lemma skip_table n : 0 ≤ n < NU →
  u32 (u32 (PGADDR (PDX (n * PGSIZE) + 1) 0 0 - PGSIZE) + PGSIZE) = (n / 1024 + 1) * 1024 * PGSIZE.
Proof.
  intros Hn. rewrite PDX_page; [by apply ppage_small|]. rewrite NU_eq in Hn.
  assert (0 ≤ n / 1024 < 512) as Hd by (Z.div_mod_to_equations; lia).
  rewrite /PGADDR Z.shiftl_0_l !Z.lor_0_r Z.shiftl_mul_pow2 //. unfold PGSIZE, PDXSHIFT.
  rewrite !u32_small; [unfold is_u32; lia..|]. lia.
Qed.

Lemma no_table_absent r pgdir n i :
  ptab r pgdir (n / 1024) = None → i / 1024 = n / 1024 → present r pgdir i = false.
Proof. intros Hno Hi. by rewrite /present /pte_at Hi Hno. Qed.

Lemma ppage_entry r pgdir n t v :
  ppage r pgdir n = Some v → ptab r pgdir (n / 1024) = Some t →
  set_bits (word r (t + 4 * (n mod 1024))) PTE_P = true ∧ P2V (PTE_ADDR (word r (t + 4 * (n mod 1024)))) = v.
Proof. rewrite /ppage /pte_at. intros Hv Ht. rewrite Ht in Hv. destruct (set_bits _ _); naive_solver. Qed.

Lemma dealloc_loop_wp c L w pgdir oldsz Q : cpu_ok c → L !! Lkmem = None → 0 ≤ oldsz ≤ KERNBASE →
  ∀ (fuel : nat) l s n, kmem_ok l s → pt_ok l (ram s) pgdir → user_ok l (ram s) pgdir →
  0 ≤ n ≤ NU + 1024 → pages_up oldsz - n ≤ fuel →
  (∀ l' s', kmem_ok l' s' → pt_ok l' (ram s') pgdir → user_ok l' (ram s') pgdir →
     freed_pages l (ram s) l' (ram s') pgdir n (pages_up oldsz) → Q tt (Kst c L w s')) →
  wp (dealloc_loop kend fuel pgdir (n * PGSIZE) oldsz) Q (Kst c L w s).
Proof.
  intros Hc HL Hold. set (N := pages_up oldsz). pose proof (pages_up_NU oldsz Hold) as HN. fold N in HN.
  assert (∀ s n (fuel : nat), 0 ≤ n → N ≤ n → Q tt (Kst c L w s) →
    wp (dealloc_loop kend fuel pgdir (n * PGSIZE) oldsz) Q (Kst c L w s)) as Hstop.
  { intros s n fuel H0 Hn HQ.
    assert (oldsz <=? n * PGSIZE = true) as E by (apply Z.leb_le, pages_up_le; [lia..|done]).
    by destruct fuel; cbn [dealloc_loop]; rewrite E; apply wp_ret. }
  induction fuel as [|fuel IH]; intros l s n Hk Hpt Hu Hn Hf HQ;
    (destruct (decide (N ≤ n)) as [Hge|Hlt]; [apply Hstop; [lia|done|]; by eapply HQ; [..|apply freed_none; lia]|]); [lia|].
  cbn [dealloc_loop]. rewrite (proj2 (Z.leb_gt _ _)).
  { apply Z.nle_gt. intros Hle%pages_up_le; [|lia..]. done. }
  assert (0 ≤ n < NU) as HnU by lia. pose proof (ppage_small n HnU) as Hn20.
  destruct (index_range n Hn20) as [Hq Hi].
  apply wp_bind. eapply (walk_lookup_wp kend Hend); [exact Hk|done|done|].
  destruct (ptab (ram s) pgdir (n / 1024)) as [t|] eqn:Ht; cbn [slot_of].
  2:{ apply wp_bind, wp_ret. rewrite skip_table //. set (n' := (n / 1024 + 1) * 1024).
      assert (n < n') as Hnn by (subst n'; Z.div_mod_to_equations; lia).
      assert (∀ i, n ≤ i < n' → present (ram s) pgdir i = false) as Hab.
      { intros i Hi'. eapply no_table_absent; [done|]. subst n'. Z.div_mod_to_equations. lia. }
      destruct (decide (N ≤ n')) as [Hge'|Hlt'].
      { apply Hstop; [lia|done|]. eapply HQ; [done..|]. apply freed_none. intros i Hi'. apply Hab. lia. }
      apply (IH l); [done..|lia|lia|]. intros l' s' Hk' Hpt' Hu' Hfr. eapply HQ; [done..|].
      eapply (freed_trans l _ l _ l' _ pgdir n n'); [lia|lia|lia|rewrite NU_eq in HN; lia| |done].
      by apply freed_none. }
  destruct (pt_tab _ _ _ _ Hpt _ _ Hq Ht) as (Hta&_).
  rewrite (proj2 (Z.eqb_neq _ _) (slot_nonzero kend Hend t (n mod 1024) Hta ltac:(lia))).
  destruct (wp_slot kend Hend _ _ _ _ _ Hk Hpt Hn20 Ht) as [Hs Hw].
  assert (u32 (n * PGSIZE + PGSIZE) = (n + 1) * PGSIZE) as Hnext.
  { rewrite u32_small; [rewrite NU_eq in HnU; unfold is_u32, PGSIZE; lia|lia]. }
  apply wp_bind, wp_bind, wp_rd32; [done|]. cbn [kdata].
  destruct (ppage (ram s) pgdir n) as [v|] eqn:Hv.
  - destruct (ppage_entry _ _ _ _ _ Hv Ht) as [-> Hpv].
    destruct (pv_data _ _ _ _ _ Hu HnU Hv) as (Hva&_).
    rewrite (proj2 (Z.eqb_neq (PTE_ADDR _) 0)).
    { intros E. rewrite E in Hpv. destruct Hva as [_ Hva]. rewrite -Hpv in Hva.
      change (P2V 0) with KERNBASE in Hva. lia. }
    rewrite Hpv. eapply (free_page_wp _ l); [done|done|exact Hk|done..|].
    intros s1 Hk1 Hpt1 Hu1 Hf1. apply wp_ret. rewrite Hnext.
    apply (IH (v :: l)); [done..|lia|lia|]. intros l' s' Hk' Hpt' Hu' Hfr. eapply HQ; [done..|].
    eapply (freed_trans l _ (v :: l) _ l' _ pgdir n (n + 1)); [lia|lia|lia|rewrite NU_eq in HN; lia|done|done].
  - apply ppage_present in Hv. rewrite /present /pte_at Ht in Hv. rewrite Hv. apply wp_ret. rewrite Hnext.
    apply (IH l); [done..|lia|lia|]. intros l' s' Hk' Hpt' Hu' Hfr. eapply HQ; [done..|].
    eapply (freed_trans l _ l _ l' _ pgdir n (n + 1)); [lia|lia|lia|rewrite NU_eq in HN; lia| |done].
    apply freed_none. intros i Hi'. assert (i = n) as -> by lia. by rewrite /present /pte_at Ht.
Qed.
End VmAlloc.
