(* ===== verification/VmGrow.v ===== *)
(** * Growing and shrinking user memory

    [allocuvm] and [deallocuvm] of [src/Xv6-Syscall/src/vm.c]: growing maps
    fresh zeroed pages and keeps the rest of user memory, or runs out of pages
    and gives back what it took; shrinking frees exactly the pages above the
    new size. *)

From S2P Require Import Prelude CInt Kernel Params Sleeplock Kalloc Vm VmSpec VmCopy.

Section VmGrow.
Context (kend : Z) (Hkend : KERNBASE < kend).
Implicit Types (r : gmap Z page) (l : list Z) (s : vmem).
Notation page_addr := (page_addr kend).
Notation kmem_ok := (kmem_ok kend).
Notation pt_ok := (pt_ok kend).
Notation pt_step := (pt_step kend).
Notation data_page := (data_page kend).
Notation user_ok := (user_ok kend).
Notation freed_pages := (freed_pages kend).

Lemma Hend' : KERNBASE ≤ kend.
Proof. lia. Qed.

Lemma deallocuvm_wp l c L w s pgdir oldsz newsz Q :
  cpu_ok c → L !! Lkmem = None → 0 ≤ newsz ≤ oldsz → oldsz ≤ KERNBASE →
  kmem_ok l s → pt_ok l (ram s) pgdir → user_ok l (ram s) pgdir →
  (∀ l' s', kmem_ok l' s' → pt_ok l' (ram s') pgdir → user_ok l' (ram s') pgdir →
     freed_pages l (ram s) l' (ram s') pgdir (pages_up newsz) (pages_up oldsz) →
     Q (s32 newsz) (Kst c L w s')) →
  wp (deallocuvm kend pgdir oldsz newsz) Q (Kst c L w s).
Proof.
  intros Hc HL Hsz Hold Hk Hpt Hu HQ. rewrite /deallocuvm. destruct (oldsz <=? newsz) eqn:E; breflect.
  { assert (oldsz = newsz) as -> by lia. apply wp_ret. eapply (HQ l); [done..|]. apply freed_none; lia. }
  apply wp_bind. rewrite (PGROUNDUP_eq newsz); [lia|]. pose proof (pages_up_NU newsz ltac:(lia)) as HN.
  eapply (dealloc_loop_wp kend Hkend); [done|done|lia|exact Hk|done|done|lia| |].
  - assert (pages_up oldsz ≤ oldsz / PGSIZE + 1); [|lia].
    rewrite /pages_up. unfold PGSIZE. Z.div_mod_to_equations. lia.
  - intros l' s' Hk' Hpt' Hu' Hf. by eapply wp_ret, HQ.
Qed.

(** The effect of mapping fresh pages at [n .. m). *)
Record grown l r l' r' pgdir n m : Prop := {
  gr_out : ∀ i, 0 ≤ i < 2 ^ 20 → ¬ (n ≤ i < m) → pte_at r' pgdir i = pte_at r pgdir i;
  gr_in : ∀ i, n ≤ i < m → ∃ v, v ∈ l ∧ upage r' pgdir i = Some v ∧ r' !! pn v = Some zero_page;
  gr_data : ∀ v, data_page l r pgdir v → data_page l' r' pgdir v ∧ r' !! pn v = r !! pn v;
  gr_list : ∃ k, l = k ++ l'
}.

Lemma grown_refl l r pgdir n : grown l r l r pgdir n n.
Proof. split; [done|lia|done|by exists []]. Qed.

Lemma grown_trans l r l1 r1 l2 r2 pgdir n k m :
  0 ≤ n → n ≤ k → k ≤ m → m ≤ NU → user_ok l1 r1 pgdir →
  grown l r l1 r1 pgdir n k → grown l1 r1 l2 r2 pgdir k m → grown l r l2 r2 pgdir n m.
Proof.
  intros H0 Hnk Hkm Hm Hu1 H1 H2. rewrite NU_eq in Hm.
  destruct (gr_list _ _ _ _ _ _ _ H1) as (x1&->), (gr_list _ _ _ _ _ _ _ H2) as (x2&->). split.
  - intros i Hi Hn. rewrite (gr_out _ _ _ _ _ _ _ H2) //; [lia|]. apply (gr_out _ _ _ _ _ _ _ H1); [done|lia].
  - intros i Hi. destruct (decide (i < k)) as [Hlt|Hge].
    + destruct (gr_in _ _ _ _ _ _ _ H1 i) as (v&Hv&Hup&Hz); [lia|]. exists v. split; [done|].
      assert (0 ≤ i < 2 ^ 20) as Hi20 by lia.
      destruct (gr_data _ _ _ _ _ _ _ H2 v) as [_ ->]; [by eapply (upage_data kend)|]. split; [|done].
      rewrite -Hup /upage (gr_out _ _ _ _ _ _ _ H2) //. lia.
    + destruct (gr_in _ _ _ _ _ _ _ H2 i) as (v&Hv&?&?); [lia|]. exists v. split; [|done].
      apply elem_of_app. by right.
  - intros v Hv. destruct (gr_data _ _ _ _ _ _ _ H1 v Hv) as [Hv1 <-]. by apply (gr_data _ _ _ _ _ _ _ H2).
  - exists (x1 ++ x2). by rewrite app_assoc.
Qed.

(** The directory slots of the pages [n .. m) that have no page table, and the
    pages that mapping them takes. *)
Definition no_table r pgdir n m : list Z :=
  filter (λ d, ptab r pgdir d = None ∧ n < m ∧ 1024 * d < m ∧ n < 1024 * (d + 1)) (seqZ 0 1024).
Definition pages_needed r pgdir n m : Z := m - n + length (no_table r pgdir n m).

(** [k] pages were taken from the free list besides the page tables of the
    pages [n .. m). *)
Definition took l r l' r' pgdir n m (k : Z) : Prop :=
  touched r pgdir n m r' ∧ Z.of_nat (length l) + ntab r pgdir = length l' + ntab r' pgdir + k.

Lemma took_trans l r l1 r1 l2 r2 pgdir n k m a b : n ≤ k ≤ m →
  took l r l1 r1 pgdir n k a → took l1 r1 l2 r2 pgdir k m b → took l r l2 r2 pgdir n m (a + b).
Proof. intros Hn [H1 E1] [H2 E2]. split; [by eapply touched_trans|lia]. Qed.

Lemma took_length l r l' r' pgdir n m k : took l r l' r' pgdir n m k →
  Z.of_nat (length l) = length l' + k + length (no_table r pgdir n m).
Proof.
  intros [Ht E]. enough (ntab r' pgdir = ntab r pgdir + length (no_table r pgdir n m))%nat by lia. clear E.
  rewrite /ntab /no_table. assert (Forall (λ d, 0 ≤ d < 1024) (seqZ 0 1024)) as Hall.
  { apply Forall_forall. intros d Hd%elem_of_seqZ. lia. }
  induction Hall as [|d ds Hd _ IH]; [done|]. rewrite !filter_cons. specialize (Ht d Hd).
  destruct (decide (is_Some (ptab r' pgdir d))) as [H1|H1], (decide (is_Some (ptab r pgdir d))) as [H2|H2],
    (decide (ptab r pgdir d = None ∧ n < m ∧ 1024 * d < m ∧ n < 1024 * (d + 1))) as [H3|H3];
    try (simpl; lia); exfalso.
  - destruct H3 as [H3 _]. rewrite H3 in H2. by destruct H2.
  - apply H3. split; [by apply eq_None_not_Some|]. by destruct (proj1 Ht H1).
  - apply H1, Ht. by left.
  - apply H1, Ht. by left.
  - apply H1, Ht. right. apply H3.
Qed.

Lemma filter_le {A} (P1 P2 : A → Prop) `{!∀ x, Decision (P1 x), !∀ x, Decision (P2 x)} (k : list A) :
  (∀ x, P1 x → P2 x) → (length (filter P1 k) ≤ length (filter P2 k))%nat ∧
  ((∃ x, x ∈ k ∧ P2 x ∧ ¬ P1 x) → (length (filter P1 k) < length (filter P2 k))%nat).
Proof.
  intros Hi. induction k as [|x k [IH1 IH2]]; [split; [done|by intros (x&?%not_elem_of_nil&_)]|].
  rewrite !filter_cons. destruct (decide (P1 x)) as [H1|H1], (decide (P2 x)) as [H2|H2]; simpl; [|by destruct H2; auto|..].
  all: split; [lia|]; intros (y&[->|Hy]%elem_of_cons&Hp&Hn); try done; try lia; specialize (IH2 (ex_intro _ y (conj Hy (conj Hp Hn)))); lia.
Qed.

(** Out of pages before the page [m], and before its page table. *)
Lemma took_all l r r' pgdir n k m : n ≤ k < m → took l r [] r' pgdir n k (k - n) → length l < pages_needed r pgdir n m.
Proof.
  intros Hk Ht%took_length. rewrite /pages_needed. simpl in Ht.
  destruct (filter_le (λ d, ptab r pgdir d = None ∧ n < k ∧ 1024 * d < k ∧ n < 1024 * (d + 1))
    (λ d, ptab r pgdir d = None ∧ n < m ∧ 1024 * d < m ∧ n < 1024 * (d + 1)) (seqZ 0 1024)) as [Hle _].
  { intros d (?&?&?&?). split_and!; try done; lia. }
  unfold no_table in *. lia.
Qed.

Lemma took_all_table l r r' pgdir n k m : 0 ≤ n ≤ k → k < m → k < 2 ^ 20 → took l r [] r' pgdir n k (k - n + 1) →
  ptab r' pgdir (k / 1024) = None → length l < pages_needed r pgdir n m.
Proof.
  intros Hn Hk Hk20 Ht Hno. pose proof (took_length _ _ _ _ _ _ _ _ Ht) as El. rewrite /pages_needed. simpl in El.
  assert (0 ≤ k / 1024 < 1024) as Hd by (Z.div_mod_to_equations; lia).
  pose proof (proj1 Ht (k / 1024) Hd) as Hiff. rewrite Hno in Hiff.
  assert (ptab r pgdir (k / 1024) = None) as Hr.
  { apply eq_None_not_Some. intros Hs. by destruct (proj2 Hiff (or_introl Hs)). }
  destruct (filter_le (λ d, ptab r pgdir d = None ∧ n < k ∧ 1024 * d < k ∧ n < 1024 * (d + 1))
    (λ d, ptab r pgdir d = None ∧ n < m ∧ 1024 * d < m ∧ n < 1024 * (d + 1)) (seqZ 0 1024)) as [_ Hlt].
  { intros d (?&?&?&?). split_and!; try done; lia. }
  assert (length (no_table r pgdir n k) < length (no_table r pgdir n m))%nat; [|lia]. apply Hlt. exists (k / 1024).
  split_and!; [apply elem_of_seqZ; lia|done|lia|Z.div_mod_to_equations; lia..|].
  intros (_&Hin). destruct (proj2 Hiff (or_intror Hin)). done.
Qed.

(** Entries unchanged and data pages kept: still well-formed. *)
Lemma user_ok_same l r l' r' pgdir :
  user_ok l r pgdir → (∀ i, 0 ≤ i < 2 ^ 20 → pte_at r' pgdir i = pte_at r pgdir i) →
  (∀ i v, 0 ≤ i < NU → ppage r pgdir i = Some v → data_page l' r' pgdir v) → user_ok l' r' pgdir.
Proof.
  intros Hu Hpte Hdp.
  assert (∀ i, 0 ≤ i < NU → ppage r' pgdir i = ppage r pgdir i) as Hpp.
  { intros i Hi%ppage_small. by rewrite /ppage Hpte. }
  split.
  - intros i v Hi. rewrite Hpp //. by apply Hdp.
  - intros i j v Hi Hj. rewrite !Hpp //. by apply (uo_inj _ _ _ _ Hu).
  - intros i Hi. rewrite /upage Hpte; [|by apply (uo_kern _ _ _ _ Hu)]. rewrite NU_eq in Hi. lia.
Qed.

(** ** A fresh page *)

Section Fresh.
Context (v : Z) (l : list Z) (r : gmap Z page) (pgdir n : Z).
Context (Hpt : pt_ok (v :: l) r pgdir) (Hu : user_ok (v :: l) r pgdir) (Hn : 0 ≤ n < NU).
Context (Hva : page_addr v) (Hvl : v ∉ l).

Definition cleared : gmap Z page := <[pn v := zero_page]> r.

Lemma fresh_data : data_page l r pgdir v.
Proof. by apply head_data_page. Qed.

Lemma cleared_pt_ok : pt_ok l cleared pgdir.
Proof. apply (put_pt_ok kend Hkend); [by eapply pt_ok_tail|apply fresh_data]. Qed.

Lemma cleared_pte i : 0 ≤ i < 2 ^ 20 → pte_at cleared pgdir i = pte_at r pgdir i.
Proof. apply (put_pte kend Hkend l); [by eapply pt_ok_tail|apply fresh_data]. Qed.

Lemma cleared_data x : data_page l r pgdir x → data_page l cleared pgdir x.
Proof. apply (put_data_page kend Hkend l); [by eapply pt_ok_tail|apply fresh_data]. Qed.

Lemma cleared_other x : data_page (v :: l) r pgdir x → data_page l cleared pgdir x ∧ cleared !! pn x = r !! pn x.
Proof.
  intros Hx. split; [by eapply cleared_data, data_page_tail|].
  destruct Hx as (?&[? ?]%not_elem_of_cons&_). apply (put_other kend Hkend l _ pgdir); [apply fresh_data|done..].
Qed.

Lemma cleared_user_ok : user_ok l cleared pgdir.
Proof.
  eapply user_ok_same; [exact Hu|apply cleared_pte|]. intros i x Hi Hx.
  apply cleared_other. by eapply (uo_data _ _ _ _ Hu).
Qed.

Context (l2 : list Z) (r2 : gmap Z page) (Hst : pt_step l cleared l2 r2 pgdir).

(** The attempt to map it fails without an entry. *)
Lemma fresh_unmapped perm : mapped cleared pgdir n 0 (V2P v) perm r2 →
  (∀ i, 0 ≤ i < 2 ^ 20 → pte_at r2 pgdir i = pte_at r pgdir i) ∧ user_ok l2 r2 pgdir ∧
  grown (v :: l) r l2 r2 pgdir n n ∧ data_page l2 r2 pgdir v.
Proof.
  intros Hm. assert (∀ i, 0 ≤ i < 2 ^ 20 → pte_at r2 pgdir i = pte_at r pgdir i) as Hpte.
  { intros i Hi. rewrite Hm //. case_decide; [lia|]. by apply cleared_pte. }
  assert (∀ x, data_page (v :: l) r pgdir x → data_page l2 r2 pgdir x ∧ r2 !! pn x = r !! pn x) as Hd.
  { intros x Hx. destruct (cleared_other x Hx) as [Hx' <-].
    split; [by eapply (data_page_step kend Hend'); [exact Hst|]|by apply (ps_data _ _ _ _ _ _ Hst)]. }
  split; [done|]. split; [|split].
  - eapply user_ok_same; [exact Hu|done|]. intros i x Hi Hx. apply Hd. by eapply (uo_data _ _ _ _ Hu).
  - split; [by intros; apply Hpte|lia|done|]. destruct (ps_suffix _ _ _ _ _ _ Hst) as [k ->]. by exists (v :: k).
  - eapply (data_page_step kend Hend'); [exact Hst|]. apply cleared_data, fresh_data.
Qed.

Lemma fresh_took m : touched cleared pgdir n m r2 → took (v :: l) r l2 r2 pgdir n m 1.
Proof.
  assert (∀ d, 0 ≤ d < 1024 → ptab cleared pgdir d = ptab r pgdir d) as Hpt'.
  { intros d Hd. apply (put_ptab kend Hkend l); [by eapply pt_ok_tail|apply fresh_data|done]. }
  intros Ht. split.
  - intros d Hd. by rewrite (Ht d Hd) Hpt'.
  - pose proof (ps_count _ _ _ _ _ _ Hst) as E. rewrite (ntab_same _ _ _ Hpt') in E. simpl. lia.
Qed.

Context (Hm : mapped cleared pgdir n 1 (V2P v) (Z.lor PTE_W PTE_U) r2).

Lemma fresh_entry : pte_at r2 pgdir n = V2P v + 7.
Proof.
  rewrite Hm; [by apply ppage_small|]. rewrite decide_True; [lia|].
  change (Z.lor (Z.lor PTE_W PTE_U) PTE_P) with 7. lia.
Qed.

Lemma fresh_upage : upage r2 pgdir n = Some v ∧ ppage r2 pgdir n = Some v.
Proof.
  destruct (V2P_aligned kend Hend' v Hva) as (Ha&H0&H1).
  assert (P2V (PTE_ADDR (V2P v + 7)) = v) as Hp.
  { assert (is_u32 (V2P v + 7)) by (unfold is_u32, PGSIZE in *; lia).
    rewrite PTE_ADDR_add // P2V_V2P //. pose proof (page_addr_u32 kend Hend' v Hva).
    unfold is_u32, PGSIZE, KERNBASE in *. lia. }
  rewrite /upage /ppage fresh_entry set_bits_P set_bits_U !(testbit_add (V2P v) 7) // Hp. done.
Qed.

Lemma fresh_out i : 0 ≤ i < 2 ^ 20 → i ≠ n → pte_at r2 pgdir i = pte_at r pgdir i.
Proof. intros Hi Hne. rewrite Hm //. rewrite decide_False; [lia|]. by apply cleared_pte. Qed.

Lemma fresh_user_ok : user_ok l2 r2 pgdir.
Proof.
  assert (∀ i x, 0 ≤ i < NU → ppage r2 pgdir i = Some x →
    i = n ∧ x = v ∨ i ≠ n ∧ ppage r pgdir i = Some x ∧ data_page (v :: l) r pgdir x) as Hc.
  { intros i x Hi Hx. destruct (decide (i = n)) as [->|Hne].
    - left. destruct fresh_upage as [_ E]. split; [done|congruence].
    - right. rewrite /ppage fresh_out // in Hx; [by apply ppage_small|].
      split_and!; [done|done|]. by apply (uo_data _ _ _ _ Hu i). }
  split.
  - intros i x Hi Hx. eapply (data_page_step kend Hend'); [exact Hst|].
    destruct (Hc i x Hi Hx) as [[_ ->]|(_&_&Hx')]; [apply cleared_data, fresh_data|by apply cleared_other].
  - intros i j x Hi Hj Hx Hx'.
    destruct (Hc i x Hi Hx) as [[-> ->]|(Hni&E&Hd)], (Hc j _ Hj Hx') as [[-> E']|(Hnj&E'&Hd')].
    + done.
    + destruct Hd' as (_&[? _]%not_elem_of_cons&_). done.
    + subst x. destruct Hd as (_&[? _]%not_elem_of_cons&_). done.
    + by apply (uo_inj _ _ _ _ Hu i j x).
  - intros i Hi. rewrite /upage fresh_out; [rewrite NU_eq in Hi; lia|lia|]. by apply (uo_kern _ _ _ _ Hu).
Qed.

Lemma fresh_grown : grown (v :: l) r l2 r2 pgdir n (n + 1).
Proof.
  split.
  - intros i Hi Hne. apply fresh_out; [done|lia].
  - intros i Hi. assert (i = n) as -> by lia. exists v. split; [left|]. split; [apply fresh_upage|].
    rewrite (ps_data _ _ _ _ _ _ Hst); [apply cleared_data, fresh_data|]. by rewrite /cleared lookup_insert_eq.
  - intros x Hx. destruct (cleared_other x Hx) as [Hd <-]. split; [by eapply (data_page_step kend Hend'); [exact Hst|]|].
    by apply (ps_data _ _ _ _ _ _ Hst).
  - destruct (ps_suffix _ _ _ _ _ _ Hst) as [k ->]. by exists (v :: k).
Qed.
End Fresh.

(** Running out of pages: everything taken is given back, but for page
    tables. *)
Record undone l r l' r' pgdir n m : Prop := {
  un_out : ∀ i, 0 ≤ i < 2 ^ 20 → ¬ (n ≤ i < m) → pte_at r' pgdir i = pte_at r pgdir i;
  un_in : ∀ i, n ≤ i < m → present r' pgdir i = false;
  un_data : ∀ v, data_page l r pgdir v → data_page l' r' pgdir v ∧ r' !! pn v = r !! pn v;
  un_list : ∀ v, v ∈ l' → v ∈ l
}.

Lemma undo l0 r0 l r l' r' pgdir n0 n N :
  0 ≤ n0 ≤ n → n ≤ N → N ≤ NU → grown l0 r0 l r pgdir n0 n →
  (∀ i, n ≤ i < N → present r pgdir i = false) → freed_pages l r l' r' pgdir n0 N →
  undone l0 r0 l' r' pgdir n0 N.
Proof.
  intros Hn0 Hn HN Hg Hab Hf. destruct (fp_list _ _ _ _ _ _ _ _ Hf) as (k&->&Hk).
  assert (∀ v, v ∈ k ++ l → v ∈ l0) as Hl.
  { intros v [Hv|Hv]%elem_of_app.
    - apply Hk in Hv as (i&Hi&Hv). destruct (decide (i < n)) as [Hlt|Hge].
      + destruct (gr_in _ _ _ _ _ _ _ Hg i) as (v'&Hv'&Hup&_); [lia|].
        revert Hup Hv. rewrite /upage /ppage. destruct (set_bits _ _), (set_bits _ _); naive_solver.
      + rewrite (proj2 (ppage_present r pgdir i)) in Hv; [apply Hab; lia|done].
    - destruct (gr_list _ _ _ _ _ _ _ Hg) as [k0 ->]. set_solver. }
  split; [|apply (fp_in _ _ _ _ _ _ _ _ Hf)| |done].
  - intros i Hi Hne. rewrite (fp_out _ _ _ _ _ _ _ _ Hf) //. apply (gr_out _ _ _ _ _ _ _ Hg); [done|lia].
  - intros v Hv. assert (v ∉ k ++ l) as Hnl. { intros Hin%Hl. by destruct Hv as (_&?&_). }
    destruct (gr_data _ _ _ _ _ _ _ Hg v Hv) as [Hv' <-].
    split; [by eapply freed_pages_data|by apply (fp_data _ _ _ _ _ _ _ _ Hf)].
Qed.

(** Freeing a page that is not mapped. *)
Lemma kfree_unmapped_wp l0 r0 l c L w s pgdir v n m Q :
  cpu_ok c → L !! Lkmem = None → kmem_ok l s → pt_ok l (ram s) pgdir → user_ok l (ram s) pgdir →
  0 ≤ n → m ≤ NU → undone l0 r0 l (ram s) pgdir n m → v ∈ l0 → data_page l (ram s) pgdir v →
  (∀ i, 0 ≤ i < NU → ppage (ram s) pgdir i ≠ Some v) →
  (∀ s', kmem_ok (v :: l) s' → pt_ok (v :: l) (ram s') pgdir → user_ok (v :: l) (ram s') pgdir →
     undone l0 r0 (v :: l) (ram s') pgdir n m → Q tt (Kst c L w s')) →
  wp (kfree kend v) Q (Kst c L w s).
Proof.
  intros Hc HL Hk Hpt Hu Hn Hm Hun Hv0 Hv Hno HQ. pose proof Hv as (Hva&Hvl&_).
  eapply (kfree_wp kend Hend'); [done|done|exact Hk|done|done|]. intros s' Hk' Hs'.
  assert (ram s' = <[pn v := run_page (freelist s)]> (ram s)) as Hr by by rewrite Hs'.
  assert (∀ i, 0 ≤ i < 2 ^ 20 → pte_at (ram s') pgdir i = pte_at (ram s) pgdir i) as Hpte.
  { intros i Hi. rewrite Hr. by eapply (put_pte kend Hkend). }
  assert (∀ x, data_page l (ram s) pgdir x → x ≠ v →
    data_page (v :: l) (ram s') pgdir x ∧ ram s' !! pn x = ram s !! pn x) as Hd.
  { intros x Hx Hne. rewrite Hr. pose proof Hx as (Hxa&Hxl&Hxp&_).
    destruct (put_data_page kend Hkend _ _ _ _ (run_page (freelist s)) Hpt Hv x Hx) as (_&_&_&Ht).
    split; [split_and!; [done|by apply not_elem_of_cons|done|done]|]. by eapply (put_other kend Hkend). }
  apply HQ; [done|rewrite Hr; by apply (put_free_pt_ok kend Hkend)|..].
  - eapply user_ok_same; [exact Hu|done|]. intros i x Hi Hx. apply Hd; [by eapply (uo_data _ _ _ _ Hu)|].
    intros ->. by apply (Hno i).
  - split.
    + intros i Hi Hne. rewrite Hpte //. by apply (un_out _ _ _ _ _ _ _ Hun).
    + intros i Hi. rewrite /present Hpte; [rewrite NU_eq in Hm; lia|]. by apply (un_in _ _ _ _ _ _ _ Hun).
    + intros x Hx. destruct (un_data _ _ _ _ _ _ _ Hun x Hx) as [Hx' <-]. apply Hd; [done|].
      intros ->. by destruct Hx as (_&?&_).
    + intros x [->|Hx]%elem_of_cons; [done|]. by apply (un_list _ _ _ _ _ _ _ Hun).
Qed.

(** Any outcome of [allocuvm] from [n0] to [N]. *)
Definition alloc_post l r pgdir n0 N newsz l' s' res : Prop :=
  kmem_ok l' s' ∧ pt_ok l' (ram s') pgdir ∧ user_ok l' (ram s') pgdir ∧
  (res = newsz ∧ grown l r l' (ram s') pgdir n0 N ∧ Z.of_nat (length l) = length l' + pages_needed r pgdir n0 N ∨
   res = 0 ∧ undone l r l' (ram s') pgdir n0 N ∧ length l < pages_needed r pgdir n0 N).

(** The exit of the loop when the fresh page [v] could not be mapped. *)
Lemma map_fail_wp c L w pgdir oldsz newsz l0 r0 v l1 r s Q :
  let n0 := pages_up oldsz in let N := pages_up newsz in
  cpu_ok c → L !! Lkmem = None → 0 ≤ oldsz ≤ newsz → newsz < KERNBASE →
  kmem_ok [] s → pt_ok [] (ram s) pgdir → user_ok [] (ram s) pgdir →
  user_ok (v :: l1) r pgdir → data_page [] (ram s) pgdir v → v ∈ l0 →
  (∀ i, 0 ≤ i < 2 ^ 20 → pte_at (ram s) pgdir i = pte_at r pgdir i) →
  (∀ l' s', freed_pages [] (ram s) l' (ram s') pgdir n0 N → undone l0 r0 l' (ram s') pgdir n0 N) →
  length l0 < pages_needed r0 pgdir n0 N →
  (∀ l' s' res, alloc_post l0 r0 pgdir n0 N newsz l' s' res → Q res (Kst c L w s')) →
  wp (deallocuvm kend pgdir newsz oldsz;; kfree kend v;; mret 0) Q (Kst c L w s).
Proof.
  intros n0 N Hc HL Hsz Hlt Hk Hpt Hu Hu0 Hd Hv0 Hpte Hundo Hshort HQ.
  assert (∀ i, 0 ≤ i < NU → ppage (ram s) pgdir i ≠ Some v) as Hno.
  { intros i Hi. rewrite /ppage Hpte; [by apply ppage_small|]. intros Hv.
    destruct (uo_data _ _ _ _ Hu0 i v Hi Hv) as (_&Hvl&_). by destruct Hvl; left. }
  pose proof (pages_up_NU oldsz ltac:(lia)) as Hn0. pose proof (pages_up_NU newsz ltac:(lia)) as HN.
  apply wp_bind. eapply deallocuvm_wp; [done|done|lia|lia|exact Hk|done|done|].
  intros l' s' Hk' Hpt' Hu' Hf. pose proof (Hundo _ _ Hf) as Hun.
  assert (v ∉ l') as Hvl.
  { destruct (fp_list _ _ _ _ _ _ _ _ Hf) as (k&->&Hin). rewrite app_nil_r Hin. intros (i&Hi&Hv).
    apply (Hno i); [lia|done]. }
  apply wp_bind. eapply kfree_unmapped_wp; [done|done|exact Hk'|done|done| | |exact Hun|done| | |].
  - lia.
  - lia.
  - by eapply freed_pages_data.
  - intros i Hi Hv. destruct (decide (n0 ≤ i < N)) as [Hin|Hout].
    + rewrite (proj2 (ppage_present _ pgdir i)) in Hv; [by apply (fp_in _ _ _ _ _ _ _ _ Hf)|done].
    + apply (Hno i Hi). rewrite -Hv /ppage (fp_out _ _ _ _ _ _ _ _ Hf) //. by apply ppage_small.
  - intros s2 Hk2 Hpt2 Hu2 Hun2. apply wp_ret. eapply HQ. split_and!; [exact Hk2|done|done|]. by right.
Qed.

Lemma alloc_loop_wp c L w pgdir oldsz newsz l0 r0 Q :
  let n0 := pages_up oldsz in let N := pages_up newsz in
  cpu_ok c → L !! Lkmem = None → 0 ≤ oldsz ≤ newsz → newsz < KERNBASE →
  (∀ l' s' res, alloc_post l0 r0 pgdir n0 N newsz l' s' res → Q res (Kst c L w s')) →
  ∀ (fuel : nat) l s n, kmem_ok l s → pt_ok l (ram s) pgdir → user_ok l (ram s) pgdir →
  n0 ≤ n ≤ N → N - n ≤ fuel → grown l0 r0 l (ram s) pgdir n0 n → took l0 r0 l (ram s) pgdir n0 n (n - n0) →
  (∀ i, n ≤ i < N → present (ram s) pgdir i = false) →
  wp (alloc_loop kend fuel pgdir oldsz newsz (n * PGSIZE)) Q (Kst c L w s).
Proof.
  intros n0 N Hc HL Hsz Hlt HQ. pose proof (pages_up_NU oldsz ltac:(lia)) as Hn0.
  pose proof (pages_up_NU newsz ltac:(lia)) as HN. fold n0 in Hn0. fold N in HN.
  assert (∀ s n (fuel : nat), 0 ≤ n → N ≤ n → Q newsz (Kst c L w s) →
    wp (alloc_loop kend fuel pgdir oldsz newsz (n * PGSIZE)) Q (Kst c L w s)) as Hstop.
  { intros s n fuel H0 Hn HQ'.
    assert (newsz <=? n * PGSIZE = true) as E by (apply Z.leb_le, pages_up_le; [lia..|done]).
    assert (s32 newsz = newsz) as E2 by (apply s32_small; unfold KERNBASE in *; lia).
    destruct fuel; cbn [alloc_loop]; rewrite E E2; by apply wp_ret. }
  induction fuel as [|fuel IH]; intros l s n Hk Hpt Hu Hn Hf Hg Htk Hab;
    (destruct (decide (N ≤ n)) as [Hge|Hnlt];
     [assert (n = N) as -> by lia; apply Hstop; [lia|done|]; eapply (HQ l); split_and!; [done..|left]; split_and!;
      [done|done|rewrite (took_length _ _ _ _ _ _ _ _ Htk) /pages_needed; lia]|]); [lia|].
  cbn [alloc_loop]. rewrite (proj2 (Z.leb_gt _ _)).
  { apply Z.nle_gt. intros Hle%pages_up_le; [|lia..]. done. }
  apply wp_bind. eapply (kalloc_wp kend Hend'); [done|done|exact Hk|..].
  { intros ->. apply wp_bind. eapply deallocuvm_wp; [done|done|lia|lia|exact Hk|done|done|].
    intros l' s' Hk' Hpt' Hu' Hfr. apply wp_ret. eapply HQ. split_and!; [exact Hk'|done|done|].
    right. split; [done|]. split; [eapply undo; [| | |exact Hg|done|exact Hfr]; lia|]. eapply (took_all _ _ _ _ _ n); [lia|done]. }
  intros v l1 s1 -> Hk1 Hva Hvl Hs1. rewrite (proj2 (Z.eqb_neq v 0)); [by apply (page_addr_nonzero kend Hend')|].
  assert (ram s1 = ram s) as Hram by by rewrite Hs1. assert (0 ≤ n < NU) as HnU by lia.
  destruct (km_ram _ _ _ Hk v Hva) as (p&Hp&_). destruct zero_page_ok as [Hz1 Hz2].
  apply wp_bind. rewrite /clear_page. apply wp_bind. eapply wp_get_page; [by rewrite /= Hram|].
  apply wp_modify. kst_simpl. set (s2 := set_ram _ s1).
  assert (kmem_ok l1 s2) as Hk2 by by apply (kmem_ok_put kend Hend').
  assert (ram s2 = cleared v (ram s)) as Hr2 by by rewrite -Hram.
  pose proof (cleared_pt_ok _ _ _ _ Hpt Hva Hvl) as Hpt2. rewrite -Hr2 in Hpt2.
  destruct (V2P_aligned kend Hend' v Hva) as (Ha&H0&H1).
  assert (n * PGSIZE / PGSIZE = n) as E1 by by apply Z.div_mul.
  assert ((n * PGSIZE + PGSIZE - 1) / PGSIZE - n + 1 = 1) as E2.
  { unfold PGSIZE. Z.div_mod_to_equations. lia. }
  apply wp_bind. eapply (mappages_wp kend Hend'); rewrite ?E1 ?E2;
    [done|done|exact Hk2|done|done|unfold PGSIZE; lia|done| |done|lia|unfold PGSIZE in *; lia|..].
  { rewrite NU_eq in HnU. unfold PGSIZE. lia. }
  { intros m Hm. assert (m = n) as -> by lia. rewrite /present Hr2.
    rewrite (cleared_pte v l1 (ram s) pgdir Hpt Hva Hvl n (ppage_small n HnU)). apply Hab. lia. }
  - intros l3 s3 Hk3 Hpt3 Hst3 Hm3 Htc3. rewrite Hr2 in Hst3, Hm3, Htc3. cbn [Z.ltb Z.compare].
    pose proof (fresh_user_ok _ _ _ _ _ Hpt Hu HnU Hva Hvl _ _ Hst3 Hm3) as Hu3.
    pose proof (fresh_grown _ _ _ _ _ Hpt Hu HnU Hva Hvl _ _ Hst3 Hm3) as Hg3.
    replace (u32 _) with ((n + 1) * PGSIZE).
    2:{ rewrite u32_small; [rewrite NU_eq in HnU; unfold is_u32, PGSIZE; lia|lia]. }
    eapply (IH l3); [exact Hk3|done|done|lia|lia| | |].
    + eapply (grown_trans l0 r0 _ _ _ _ _ n0 n (n + 1)); [lia..|exact Hu|done|done].
    + replace (n + 1 - n0) with (n - n0 + 1) by lia. eapply (took_trans _ _ (v :: l1) (ram s) _ _ _ _ n); [lia|exact Htk|].
      by eapply (fresh_took v l1).
    + intros i Hi. rewrite /present (gr_out _ _ _ _ _ _ _ Hg3); [rewrite NU_eq in HN; lia|lia|]. apply Hab. lia.
  - intros s3 j Hj Hk3 Hpt3 Hst3 Hm3 Htc3 Hno3. assert (j = 0) as -> by lia. rewrite Hr2 in Hst3, Hm3, Htc3. rewrite Z.add_0_r in Htc3, Hno3.
    destruct (fresh_unmapped _ _ _ _ _ Hpt Hu Hva Hvl _ _ Hst3 _ Hm3) as (Hpte3&Hu3&Hg3&Hd3).
    cbn [Z.ltb Z.compare]. destruct (gr_list _ _ _ _ _ _ _ Hg) as [k0 Hl0].
    apply (map_fail_wp c L w pgdir oldsz newsz l0 r0 v l1 (ram s));
      [exact Hc|exact HL|exact Hsz|exact Hlt|exact Hk3|exact Hpt3|exact Hu3|exact Hu|exact Hd3
      |rewrite Hl0; apply elem_of_app; right; left|exact Hpte3| | |exact HQ].
    + intros l' s' Hf'. eapply (undo l0 r0 [] (ram s3) _ _ _ _ n); [lia..| | |exact Hf'].
      * apply (grown_trans l0 r0 (v :: l1) (ram s) [] (ram s3) pgdir n0 n n); [lia..|done|done|done].
      * intros i Hi. rewrite /present Hpte3; [rewrite NU_eq in HN; lia|]. by apply Hab.
    + eapply (took_all_table _ _ (ram s3) _ _ n); [lia|lia|rewrite NU_eq in HnU; lia| |done].
      eapply (took_trans _ _ (v :: l1) (ram s) _ _ _ _ n); [lia|exact Htk|]. by eapply (fresh_took v l1).
Qed.

Lemma allocuvm_wp l c L w s pgdir oldsz newsz Q :
  let n0 := pages_up oldsz in let N := pages_up newsz in
  cpu_ok c → L !! Lkmem = None → 0 ≤ oldsz ≤ newsz → newsz < KERNBASE →
  kmem_ok l s → pt_ok l (ram s) pgdir → user_ok l (ram s) pgdir →
  (∀ i, n0 ≤ i < N → present (ram s) pgdir i = false) →
  (∀ l' s' res, alloc_post l (ram s) pgdir n0 N newsz l' s' res → Q res (Kst c L w s')) →
  wp (allocuvm kend pgdir oldsz newsz) Q (Kst c L w s).
Proof.
  intros n0 N Hc HL Hsz Hlt Hk Hpt Hu Hab HQ. rewrite /allocuvm.
  rewrite (proj2 (Z.leb_gt _ _)) // (proj2 (Z.ltb_ge _ _)); [lia|]. rewrite PGROUNDUP_eq; [lia|].
  assert (n0 ≤ N) as Hle by (subst n0 N; rewrite /pages_up; apply Z.div_le_mono; [done|lia]).
  eapply (alloc_loop_wp c L w pgdir oldsz newsz l (ram s) Q Hc HL Hsz Hlt HQ _ l s n0);
    [done..|fold n0 N; lia| |apply grown_refl| |done].
  - assert (N ≤ newsz / PGSIZE + 1); [|fold n0 N; pose proof (pages_up_NU oldsz ltac:(lia)); lia].
    subst N. rewrite /pages_up. unfold PGSIZE. Z.div_mod_to_equations. lia.
  - split; [by apply touched_none|]. fold n0. lia.
Qed.
End VmGrow.
