(* ===== verification/VmThms.v ===== *)
(** * Theorems about virtual memory

    The statements about [src/Xv6-Syscall/src/vm.c], each for every memory that
    satisfies the invariants: [kmem_ok] (the free list), [pt_ok] (the page
    table is made of pages of its own) and [user_ok] (user memory consists of
    allocated pages, each mapped once). *)

From S2P Require Import Prelude CInt Kernel Params Sleeplock Kalloc Vm VmSpec VmCopy VmGrow.

Section VmThms.
Context (kend : Z) (Hkend : KERNBASE < kend).
Implicit Types (r : gmap Z page) (l : list Z) (s : vmem).

(** The invariants of the memory and of one page table. *)
Definition vm_ok l s pgdir : Prop :=
  kmem_ok kend l s ∧ pt_ok kend l (ram s) pgdir ∧ user_ok kend l (ram s) pgdir.

Lemma grown_bytes l r l' r' pgdir oldsz newsz :
  let n := pages_up oldsz in let N := pages_up newsz in
  0 ≤ oldsz ≤ newsz → newsz < KERNBASE → user_ok kend l r pgdir → grown kend l r l' r' pgdir n N →
  ∀ a, is_u32 a → ubyte r' pgdir a =
    if decide (n * PGSIZE ≤ a < N * PGSIZE) then Some 0 else ubyte r pgdir a.
Proof.
  intros n N Hsz Hlt Hu Hg a Ha. assert (0 ≤ a / PGSIZE < 2 ^ 20) as Hq.
  { unfold is_u32, PGSIZE in *. Z.div_mod_to_equations. lia. }
  assert (n * PGSIZE ≤ a < N * PGSIZE ↔ n ≤ a / PGSIZE < N) as Hin.
  { unfold PGSIZE. split; intros; Z.div_mod_to_equations; lia. }
  rewrite /ubyte. case_decide as E; rewrite Hin in E.
  - destruct (gr_in _ _ _ _ _ _ _ _ Hg _ E) as (v&_&->&Hz). simpl. rewrite Hz. simpl.
    apply lookup_replicate_2. pose proof (Z.mod_pos_bound a PGSIZE ltac:(done)). lia.
  - rewrite {1}/upage (gr_out _ _ _ _ _ _ _ _ Hg) // -/(upage r pgdir (a / PGSIZE)).
    destruct (upage r pgdir (a / PGSIZE)) as [v|] eqn:Ev; [|done]. simpl.
    destruct (gr_data _ _ _ _ _ _ _ _ Hg v) as [_ ->]; [by eapply (upage_data kend)|done].
Qed.

Lemma undone_bytes l r l' r' pgdir n N :
  0 ≤ n → N ≤ NU → user_ok kend l r pgdir → undone kend l r l' r' pgdir n N →
  (∀ i, n ≤ i < N → present r pgdir i = false) → ∀ a, is_u32 a → ubyte r' pgdir a = ubyte r pgdir a.
Proof.
  intros Hn HN Hu Hd Hab a Ha. assert (0 ≤ a / PGSIZE < 2 ^ 20) as Hq.
  { unfold is_u32, PGSIZE in *. Z.div_mod_to_equations. lia. }
  rewrite /ubyte. destruct (decide (n ≤ a / PGSIZE < N)) as [E|E].
  - pose proof (Hab _ E) as H1. pose proof (un_in _ _ _ _ _ _ _ _ Hd _ E) as H2. rewrite /present in H1 H2.
    by rewrite /upage H1 H2.
  - rewrite {1}/upage (un_out _ _ _ _ _ _ _ _ Hd) // -/(upage r pgdir (a / PGSIZE)).
    destruct (upage r pgdir (a / PGSIZE)) as [v|] eqn:Ev; [|done]. simpl.
    destruct (un_data _ _ _ _ _ _ _ _ Hd v) as [_ ->]; [by eapply (upage_data kend)|done].
Qed.

(** C20: If the free list has a page for each new page of user memory and for
    each page table that is missing, [allocuvm] takes exactly these pages and
    returns the new size, with the new pages readable as zeros and every other
    byte of user memory unchanged.  If it has fewer, [allocuvm] returns 0 with
    user memory as it was.  In both cases the invariants of the allocator and
    of the page table hold. *)
Theorem allocuvm_grows l c w s pgdir oldsz newsz :
  cpu_ok c → vm_ok l s pgdir → 0 ≤ oldsz ≤ newsz → newsz < KERNBASE →
  (∀ i, pages_up oldsz ≤ i < pages_up newsz → present (ram s) pgdir i = false) →
  ∃ res l' s', allocuvm kend pgdir oldsz newsz (Kst c ∅ w s) = Ret res (Kst c ∅ w s') ∧
    vm_ok l' s' pgdir ∧
    ((res = newsz ∧ pages_needed (ram s) pgdir (pages_up oldsz) (pages_up newsz) = length l - length l' ∧
      ∀ a, is_u32 a → ubyte (ram s') pgdir a =
        if decide (pages_up oldsz * PGSIZE ≤ a < pages_up newsz * PGSIZE) then Some 0
        else ubyte (ram s) pgdir a) ∨
     (res = 0 ∧ length l < pages_needed (ram s) pgdir (pages_up oldsz) (pages_up newsz) ∧
      ∀ a, is_u32 a → ubyte (ram s') pgdir a = ubyte (ram s) pgdir a)).
Proof.
  intros Hc (Hk&Hpt&Hu) Hsz Hlt Hab.
  pose proof (pages_up_NU oldsz ltac:(lia)) as Hn. pose proof (pages_up_NU newsz ltac:(lia)) as HN.
  destruct (wp_inv (allocuvm kend pgdir oldsz newsz) (λ res σ, ∃ l' s', σ = Kst c ∅ w s' ∧
      alloc_post kend l (ram s) pgdir (pages_up oldsz) (pages_up newsz) newsz l' s' res) (Kst c ∅ w s))
    as (res&σ&E&l'&s'&->&H).
  { by eapply (allocuvm_wp kend Hkend l); eauto. }
  destruct H as (Hk'&Hpt'&Hu'&Hres). exists res, l', s'. split; [done|]. split; [done|].
  destruct Hres as [(->&Hg&Hcount)|(->&Hun&Hcount)]; [left|right]; (split; [done|]); (split; [lia|]).
  - by eapply grown_bytes.
  - eapply undone_bytes; [| |done|done|done]; lia.
Qed.

(** [deallocuvm] to a smaller size unmaps exactly the pages above it, puts
    the physical pages that were mapped there, and no others, on the free
    list, and leaves every byte below unchanged. *)
Theorem deallocuvm_frees l c w s pgdir oldsz newsz :
  cpu_ok c → vm_ok l s pgdir → 0 ≤ newsz ≤ oldsz → oldsz ≤ KERNBASE →
  ∃ l' s', deallocuvm kend pgdir oldsz newsz (Kst c ∅ w s) = Ret (s32 newsz) (Kst c ∅ w s') ∧
    vm_ok l' s' pgdir ∧
    (∃ k, l' = k ++ l ∧ ∀ v, v ∈ k ↔
       ∃ i, pages_up newsz ≤ i < pages_up oldsz ∧ ppage (ram s) pgdir i = Some v) ∧
    ∀ a, is_u32 a → ubyte (ram s') pgdir a =
      if decide (pages_up newsz * PGSIZE ≤ a < pages_up oldsz * PGSIZE) then None
      else ubyte (ram s) pgdir a.
Proof.
  intros Hc (Hk&Hpt&Hu) Hsz Hold. pose proof (pages_up_NU oldsz ltac:(lia)) as HN.
  pose proof (pages_up_NU newsz ltac:(lia)) as Hn0.
  destruct (wp_inv (deallocuvm kend pgdir oldsz newsz) (λ res σ, ∃ l' s', res = s32 newsz ∧ σ = Kst c ∅ w s' ∧
      vm_ok l' s' pgdir ∧ freed_pages kend l (ram s) l' (ram s') pgdir (pages_up newsz) (pages_up oldsz))
      (Kst c ∅ w s)) as (res&σ&E&l'&s'&->&->&Hv&Hf).
  { eapply (deallocuvm_wp kend Hkend l); [done..|]. intros l' s' ? ? ? ?. by exists l', s'. }
  exists l', s'. split; [done|]. split; [done|]. split; [apply (fp_list _ _ _ _ _ _ _ _ Hf)|].
  intros a Ha. set (n := pages_up newsz) in *. set (N := pages_up oldsz) in *.
  assert (0 ≤ a / PGSIZE < 2 ^ 20) as Hq. { unfold is_u32, PGSIZE in *. Z.div_mod_to_equations. lia. }
  assert (n * PGSIZE ≤ a < N * PGSIZE ↔ n ≤ a / PGSIZE < N) as Hin.
  { unfold PGSIZE. split; intros; Z.div_mod_to_equations; lia. }
  rewrite /ubyte. case_decide as Ed; rewrite Hin in Ed.
  - pose proof (fp_in _ _ _ _ _ _ _ _ Hf _ Ed) as H2. rewrite /present in H2. by rewrite /upage H2.
  - rewrite {1}/upage (fp_out _ _ _ _ _ _ _ _ Hf) // -/(upage (ram s) pgdir (a / PGSIZE)).
    destruct (upage (ram s) pgdir (a / PGSIZE)) as [v|] eqn:Ev; [|done]. simpl.
    destruct (upage_ppage _ _ _ _ _ _ Hu Hq Ev) as [HqU Hpp].
    rewrite (fp_data _ _ _ _ _ _ _ _ Hf) //; [by eapply (uo_data _ _ _ _ Hu)|].
    destruct (fp_list _ _ _ _ _ _ _ _ Hf) as (k&->&Hkv). rewrite elem_of_app Hkv. intros [(i&Hi&Hv')|Hvl].
    + apply Ed. by rewrite (uo_inj _ _ _ _ Hu (a / PGSIZE) i v HqU ltac:(lia) Hpp Hv').
    + by destruct (uo_data _ _ _ _ Hu _ _ HqU Hpp) as (_&?&_).
Qed.

(** C27: [copyout] to an address range with page tables writes the whole buffer
    and returns 0 when every page of the range is a user page, and otherwise
    returns -1 having written the bytes before the first page that is not;
    no other byte of user memory changes. *)
Theorem copyout_writes l c w s pgdir va buf :
  vm_ok l s pgdir → Forall is_byte buf → 0 ≤ va → va + length buf ≤ 2 ^ 32 →
  (∀ a, va ≤ a < va + length buf → is_Some (ptab (ram s) pgdir (a / PGSIZE / 1024))) →
  ∃ res (j : nat) s', copyout pgdir va buf (Kst c ∅ w s) = Ret res (Kst c ∅ w s') ∧
    vm_ok l s' pgdir ∧
    ((res = 0 ∧ j = length buf) ∨
     (res = -1 ∧ (j < length buf)%nat ∧ upage (ram s) pgdir ((va + j) / PGSIZE) = None)) ∧
    ∀ a, is_u32 a → ubyte (ram s') pgdir a =
      if decide (va ≤ a < va + j) then buf !! Z.to_nat (a - va) else ubyte (ram s) pgdir a.
Proof.
  intros (Hk&Hpt&Hu) Hb Hva Hlen Htab.
  destruct (wp_inv (copyout pgdir va buf) (λ res σ, ∃ (j : nat) s', σ = Kst c ∅ w s' ∧
      vm_ok l s' pgdir ∧ ((res = 0 ∧ j = length buf) ∨
        (res = -1 ∧ (j < length buf)%nat ∧ upage (ram s) pgdir ((va + j) / PGSIZE) = None)) ∧
      copied (ram s) pgdir va (take j buf) (ram s')) (Kst c ∅ w s)) as (res&σ&E&j&s'&->&H).
  { eapply (copyout_loop_wp kend ltac:(lia) c ∅ w pgdir l); [done..|lia|done|done| |].
    - intros s' ? ? ? _ Hcp. exists (length buf), s'. rewrite firstn_all. split_and!; [done..| |done]. by left.
    - intros s' j Hj ? ? ? Hno Hcp. exists j, s'. split_and!; [done..| |done]. right. by split_and!. }
  destruct H as (Hv&Hres&[Hcp _]). exists res, j, s'. split_and!; [done|done|done|].
  intros a Ha. rewrite Hcp //.
  assert (length (take j buf) = j) as ->. { rewrite length_take. destruct Hres as [[_ ->]|(_&?&_)]; lia. }
  case_decide; [|done]. rewrite lookup_take_lt //. lia.
Qed.
End VmThms.

(** ** Example: eight pages, the last one an empty page directory *)

Definition demo_dir : Z := demo_page 7.

Definition state_of {A} (o : outcome (kst vmem) A) : vmem :=
  match o with Ret _ σ => kdata σ | _ => demo_vmem end.

Definition demo_boot : vmem :=
  state_of (kinit1 demo_end demo_end demo_dir (Kst demo_cpu ∅ ∅ demo_vmem)).

(** Two pages of user memory. *)
Definition demo_user : vmem :=
  state_of (allocuvm demo_end demo_dir 0 (2 * PGSIZE) (Kst demo_cpu ∅ ∅ demo_boot)).

Lemma demo_end_lt : KERNBASE < demo_end.
Proof. by vm_compute. Qed.

Lemma state_of_wp {A} (m : K vmem A) Q c L w s :
  wp m Q (Kst c L w s) → ∃ a σ, Q a σ ∧ state_of (m (Kst c L w s)) = kdata σ.
Proof. rewrite /wp /state_of. destruct (m _); naive_solver. Qed.

Lemma demo_boot_free : kmem_ok demo_end (reverse (demo_page <$> seq 0 7)) demo_boot.
Proof.
  assert (pages demo_end demo_dir = demo_page <$> seq 0 7) as Hp by by vm_compute.
  destruct (state_of_wp (kinit1 demo_end demo_end demo_dir)
    (λ _ σ, kmem_ok demo_end (reverse (demo_page <$> seq 0 7)) (kdata σ)) demo_cpu ∅ ∅ demo_vmem)
    as (a&σ&H&E); [|by rewrite /demo_boot E].
  apply (kinit1_wp demo_end ltac:(by vm_compute)); [apply demo_cpu_ok|apply demo_ram_ok|done| |].
  - rewrite Hp. apply Forall_fmap, Forall_forall. intros k Hk%elem_of_seq. apply demo_page_addr. lia.
  - by rewrite Hp.
Qed.

Lemma demo_boot_dir : ram demo_boot !! pn demo_dir = Some zero_page.
Proof. vm_cast_no_check (eq_refl (Some zero_page)). Qed.

Lemma demo_boot_ptab d : 0 ≤ d < 1024 → ptab (ram demo_boot) demo_dir d = None.
Proof.
  intros Hd. rewrite /ptab (zero_word demo_end); [by vm_compute|apply demo_page_addr; lia|done| |done].
  apply demo_boot_dir.
Qed.

Lemma demo_boot_pte i : 0 ≤ i < 2 ^ 20 → pte_at (ram demo_boot) demo_dir i = 0.
Proof. intros Hi. rewrite /pte_at demo_boot_ptab //. by apply index_range. Qed.

Lemma demo_boot_ok : vm_ok demo_end (reverse (demo_page <$> seq 0 7)) demo_boot demo_dir.
Proof.
  split; [apply demo_boot_free|]. split; split.
  - split; [apply demo_page_addr; lia|]. rewrite elem_of_reverse list_elem_of_fmap.
    intros (j&E%demo_page_inj&Hj%elem_of_seq). lia.
  - intros d t Hd. by rewrite demo_boot_ptab.
  - intros d d' t Hd Hd'. by rewrite demo_boot_ptab.
  - intros n v Hn. rewrite /ppage demo_boot_pte //. by apply ppage_small.
  - intros n m v Hn Hm. rewrite /ppage demo_boot_pte //. by apply ppage_small.
  - intros n Hn. rewrite /upage demo_boot_pte //. rewrite NU_eq in Hn. lia.
Qed.

Lemma demo_boot_absent i :
  pages_up 0 ≤ i < pages_up (2 * PGSIZE) → present (ram demo_boot) demo_dir i = false.
Proof.
  change (pages_up 0) with 0. change (pages_up (2 * PGSIZE)) with 2. intros Hi.
  rewrite /present demo_boot_pte //. lia.
Qed.

Lemma demo_user_ok : ∃ l, vm_ok demo_end l demo_user demo_dir.
Proof.
  destruct demo_boot_ok as (Hk&Hpt&Hu).
  destruct (state_of_wp (allocuvm demo_end demo_dir 0 (2 * PGSIZE))
    (λ _ σ, ∃ l, vm_ok demo_end l (kdata σ) demo_dir) demo_cpu ∅ ∅ demo_boot)
    as (a&σ&H&E); [|by rewrite /demo_user E].
  eapply (allocuvm_wp demo_end demo_end_lt); [apply demo_cpu_ok|done|done|done|exact Hk|done|done|apply demo_boot_absent|].
  intros l' s' res (?&?&?&_). exists l'. by split_and!.
Qed.

Lemma byte_in {P : Prop} `{Decision P} (x y z : option Z) :
  P → (z = if decide P then x else y) → z = x.
Proof. intros HP ->. by rewrite decide_True. Qed.

Lemma in_demo a : 4096 ≤ a < 4100 → is_u32 a ∧ pages_up 0 * PGSIZE ≤ a < pages_up (2 * PGSIZE) * PGSIZE.
Proof.
  change (pages_up 0) with 0. change (pages_up (2 * PGSIZE)) with 2. unfold is_u32, PGSIZE. lia.
Qed.

Lemma allocuvm_grows_witness :
  ∃ s', allocuvm demo_end demo_dir 0 (2 * PGSIZE) (Kst demo_cpu ∅ ∅ demo_boot) =
      Ret (2 * PGSIZE) (Kst demo_cpu ∅ ∅ s') ∧
    ubyte (ram s') demo_dir 4097 = Some 0.
Proof.
  destruct (allocuvm_grows demo_end demo_end_lt (reverse (demo_page <$> seq 0 7)) demo_cpu ∅ demo_boot demo_dir
    0 (2 * PGSIZE)) as (res&l'&s'&E&_&Hb).
  - apply demo_cpu_ok.
  - apply demo_boot_ok.
  - done.
  - done.
  - apply demo_boot_absent.
  - assert (match allocuvm demo_end demo_dir 0 (2 * PGSIZE) (Kst demo_cpu ∅ ∅ demo_boot) with
      Ret z _ => z | _ => 0 end = 2 * PGSIZE) as Hr by by vm_compute.
    rewrite E in Hr. subst res. exists s'. split; [exact E|].
    destruct Hb as [(_&_&Hb)|[Hb _]]; [|discriminate Hb].
    destruct (in_demo 4097) as [H1 H2]; [lia|]. by eapply (byte_in _ _ _ H2), (Hb 4097 H1).
Defined.

Lemma deallocuvm_frees_witness :
  ∃ l l' s', deallocuvm demo_end demo_dir (2 * PGSIZE) 0 (Kst demo_cpu ∅ ∅ demo_user) =
      Ret 0 (Kst demo_cpu ∅ ∅ s') ∧ vm_ok demo_end l demo_user demo_dir ∧
    vm_ok demo_end l' s' demo_dir ∧ ubyte (ram s') demo_dir 4097 = None.
Proof.
  destruct demo_user_ok as [l Hl].
  destruct (deallocuvm_frees demo_end demo_end_lt l demo_cpu ∅ demo_user demo_dir (2 * PGSIZE) 0)
    as (l'&s'&E&Hv&_&Hb).
  - apply demo_cpu_ok.
  - exact Hl.
  - done.
  - done.
  - exists l, l', s'. split; [exact E|]. split; [exact Hl|]. split; [exact Hv|].
    destruct (in_demo 4097) as [H1 H2]; [lia|]. by eapply (byte_in _ _ _ H2), (Hb 4097 H1).
Defined.

Lemma copyout_writes_witness :
  ∃ s', copyout demo_dir 4094 [1; 2; 3] (Kst demo_cpu ∅ ∅ demo_user) = Ret 0 (Kst demo_cpu ∅ ∅ s') ∧
    ubyte (ram s') demo_dir 4096 = Some 3.
Proof.
  destruct demo_user_ok as [l Hl].
  destruct (copyout_writes demo_end demo_end_lt l demo_cpu ∅ demo_user demo_dir 4094 [1; 2; 3])
    as (res&j&s'&E&_&Hres&Hb).
  - exact Hl.
  - repeat constructor; done.
  - done.
  - done.
  - intros a Ha. assert (a / PGSIZE / 1024 = 0) as ->.
    { simpl in Ha. unfold PGSIZE. Z.div_mod_to_equations. lia. }
    by vm_compute; eexists.
  - assert (match copyout demo_dir 4094 [1; 2; 3] (Kst demo_cpu ∅ ∅ demo_user) with
      Ret z _ => z | _ => 1 end = 0) as Hr by by vm_compute.
    rewrite E in Hr. subst res. exists s'. split; [exact E|].
    destruct Hres as [[_ ->]|[Hr _]]; [|discriminate Hr].
    destruct (in_demo 4096) as [H1 _]; [lia|]. assert (4094 ≤ 4096 < 4094 + length [1; 2; 3]) as H2 by (simpl; lia).
    change (Some 3) with ([1; 2; 3] !! Z.to_nat (4096 - 4094)). by eapply (byte_in _ _ _ H2), (Hb 4096 H1).
Defined.
