(* ===== verification/VmFree.v ===== *)
(** * Freeing a page table: [freevm] of [src/Xv6-Syscall/src/vm.c]

    [freevm] gives back every page of user memory, every page table page and
    the directory, each exactly once. *)

From S2P Require Import Prelude CInt Kernel Params Sleeplock Kalloc Vm VmSpec VmCopy VmGrow VmThms.

Section VmFree.
Context (kend : Z) (Hkend : KERNBASE < kend).
Implicit Types (r : gmap Z page) (l : list Z) (s : vmem).
Notation page_addr := (page_addr kend).
Notation kmem_ok := (kmem_ok kend).
Notation pt_ok := (pt_ok kend).

(** The page tables of the directory slots below [n]. *)
Definition tables r pgdir (n : nat) : list Z :=
  omap (λ d : nat, ptab r pgdir d) (seq 0 n).

Lemma tables_S r pgdir n :
  tables r pgdir (S n) = tables r pgdir n ++ option_list (ptab r pgdir n).
Proof. rewrite /tables seq_S omap_app /=. by destruct (ptab r pgdir n). Qed.

Lemma elem_of_tables r pgdir n t : t ∈ tables r pgdir n ↔ ∃ d : nat, (d < n)%nat ∧ ptab r pgdir d = Some t.
Proof.
  rewrite /tables list_elem_of_omap. setoid_rewrite elem_of_seq. split; intros (d&?&?); exists d; (split; [lia|done]).
Qed.

(** What the loop over the directory leaves intact. *)
Record dir_left l r pgdir (n : nat) l' r' : Prop := {
  dl_list : ∀ v, v ∈ l' ↔ v ∈ tables r pgdir n ∨ v ∈ l;
  dl_word : ∀ d, 0 ≤ d < 1024 → word r' (pgdir + 4 * d) = word r (pgdir + 4 * d)
}.

Lemma free_tables_wp l c L w s pgdir Q :
  cpu_ok c → L !! Lkmem = None → kmem_ok l s → pt_ok l (ram s) pgdir →
  (∀ l' s', kmem_ok l' s' → dir_left l (ram s) pgdir NPDENTRIES l' (ram s') → Q tt (Kst c L w s')) →
  wp (for_each (seq 0 NPDENTRIES) (λ i : nat,
    e ← rd32 (pgdir + 4 * i);
    if set_bits e PTE_P then kfree kend (P2V (PTE_ADDR e)) else mret ())) Q (Kst c L w s).
Proof.
  intros Hc HL Hk Hpt HQ. destruct (pt_dir _ _ _ _ Hpt) as [Hpg Hpl].
  apply (wp_for_seq _ _ (λ n σ, (n ≤ NPDENTRIES)%nat ∧ ∃ l' s', σ = Kst c L w s' ∧ kmem_ok l' s' ∧
    dir_left l (ram s) pgdir n l' (ram s'))).
  - split; [lia|]. exists l, s. split_and!; [done|done|]. split; [|done]. set_solver.
  - intros n σ Hn (_&l'&s'&->&Hk'&[Hl' Hw']).
    assert (0 ≤ n < 1024) as Hn'. { change NPDENTRIES with 1024%nat in Hn. lia. }
    apply wp_bind, wp_rd32.
    { cbn [kdata]. destruct (in_page kend (Hend kend Hkend) pgdir (4 * n) Hpg) as [-> _]; [unfold PGSIZE; lia|].
      apply (page_ram kend); [apply Hk'|done]. }
    cbn [kdata]. rewrite Hw' //. destruct (set_bits _ _) eqn:E.
    + assert (ptab (ram s) pgdir n = Some (P2V (PTE_ADDR (word (ram s) (pgdir + 4 * n))))) as Ht by by rewrite /ptab E.
      set (t := P2V _) in *. destruct (pt_tab _ _ _ _ Hpt n t Hn' Ht) as (Hta&Htl&Htp).
      eapply (kfree_wp kend (Hend kend Hkend)); [done|done|exact Hk'|done| |].
      { rewrite Hl' elem_of_tables. intros [(d&Hd&Hdt)|?]; [|done].
        assert (d < 1024) by lia. pose proof (pt_inj _ _ _ _ Hpt d n t ltac:(lia) Hn' Hdt Ht). lia. }
      intros s2 Hk2 Hs2. split; [lia|]. exists (t :: l'), s2. split_and!; [done|done|]. split.
      * intros v. rewrite elem_of_cons Hl' tables_S Ht /= elem_of_app list_elem_of_singleton. tauto.
      * intros d Hd. rewrite -Hw' // Hs2. apply (page_word_other kend (Hend kend Hkend)); done.
    + apply wp_ret. split; [lia|]. exists l', s'. split_and!; [done|done|]. split; [|done].
      intros v. assert (ptab (ram s) pgdir n = None) as Ht by by rewrite /ptab E.
      by rewrite tables_S Ht /= app_nil_r.
  - intros σ (_&l'&s'&->&Hk'&Hd). by eapply HQ.
Qed.

(** The pages of a page table: user pages, tables and the directory. *)
Definition owned r pgdir v : Prop :=
  v = pgdir ∨ (∃ d, 0 ≤ d < 1024 ∧ ptab r pgdir d = Some v) ∨ (∃ n, 0 ≤ n < NU ∧ ppage r pgdir n = Some v).

Lemma freevm_wp l c L w s pgdir Q :
  cpu_ok c → L !! Lkmem = None → vm_ok kend l s pgdir →
  (∀ l' s', kmem_ok l' s' → (∀ v, v ∈ l' ↔ v ∈ l ∨ owned (ram s) pgdir v) → Q tt (Kst c L w s')) →
  wp (freevm kend pgdir) Q (Kst c L w s).
Proof.
  intros Hc HL (Hk&Hpt&Hu) HQ. destruct (pt_dir _ _ _ _ Hpt) as [Hpg Hpl]. rewrite /freevm.
  rewrite (proj2 (Z.eqb_neq pgdir 0)); [by apply (page_addr_nonzero kend (Hend kend Hkend))|].
  apply wp_bind. eapply (deallocuvm_wp kend Hkend); [done|done|done|done|exact Hk|done|done|].
  intros l1 s1 Hk1 Hpt1 Hu1 Hf. change (pages_up 0) with 0 in Hf. change (pages_up KERNBASE) with NU in Hf.
  apply wp_bind. eapply free_tables_wp; [done|done|exact Hk1|done|]. intros l2 s2 Hk2 [Hl2 _].
  destruct (fp_list _ _ _ _ _ _ _ _ Hf) as (k&->&Hkv).
  assert (∀ v, v ∈ tables (ram s1) pgdir NPDENTRIES ↔ ∃ d, 0 ≤ d < 1024 ∧ ptab (ram s) pgdir d = Some v) as Htab.
  { intros v. rewrite elem_of_tables. change NPDENTRIES with 1024%nat. split.
    - intros (d&Hd&Ht). exists d. split; [lia|]. rewrite -(fp_tab _ _ _ _ _ _ _ _ Hf) //. lia.
    - intros (d&Hd&Ht). exists (Z.to_nat d). rewrite Z2Nat.id; [lia|]. split; [lia|].
      rewrite (fp_tab _ _ _ _ _ _ _ _ Hf) //. }
  assert (pgdir ∉ l2) as Hnl.
  { rewrite Hl2 Htab elem_of_app. intros [(d&Hd&Ht)|[Hv|?]]; [|apply Hkv in Hv as (n&Hn&Hv)|done].
    - by destruct (pt_tab _ _ _ _ Hpt d pgdir Hd Ht) as (_&_&?).
    - by destruct (uo_data _ _ _ _ Hu n pgdir Hn Hv) as (_&_&?&_). }
  eapply (kfree_wp kend (Hend kend Hkend)); [done|done|exact Hk2|done|done|]. intros s3 Hk3 _.
  eapply HQ; [exact Hk3|]. intros v. rewrite elem_of_cons Hl2 Htab elem_of_app Hkv /owned. naive_solver.
Qed.

(** C23: [freevm] returns all pages of a page table to the allocator: afterwards
    the free list, which is well-formed and so holds no page twice, consists of
    the pages that were free, the pages of user memory, the page tables and
    the directory. *)
Theorem freevm_frees l c w s pgdir :
  cpu_ok c → vm_ok kend l s pgdir →
  ∃ l' s', freevm kend pgdir (Kst c ∅ w s) = Ret tt (Kst c ∅ w s') ∧ kmem_ok l' s' ∧ NoDup l' ∧
    ∀ v, v ∈ l' ↔ v ∈ l ∨ owned (ram s) pgdir v.
Proof.
  intros Hc Hv.
  destruct (wp_inv (freevm kend pgdir) (λ _ σ, ∃ l' s', σ = Kst c ∅ w s' ∧ kmem_ok l' s' ∧
    ∀ v, v ∈ l' ↔ v ∈ l ∨ owned (ram s) pgdir v) (Kst c ∅ w s)) as ([]&σ&E&l'&s'&->&Hk'&Hl').
  { eapply freevm_wp; [done|done|exact Hv|]. eauto. }
  exists l', s'. split_and!; [done|done|apply Hk'|done].
Qed.
End VmFree.

Lemma freevm_frees_witness :
  ∃ l l' s', vm_ok demo_end l demo_user demo_dir ∧
    freevm demo_end demo_dir (Kst demo_cpu ∅ ∅ demo_user) = Ret tt (Kst demo_cpu ∅ ∅ s') ∧
    kmem_ok demo_end l' s' ∧ demo_dir ∈ l'.
Proof.
  destruct demo_user_ok as [l Hl].
  destruct (freevm_frees demo_end demo_end_lt l demo_cpu ∅ demo_user demo_dir) as (l'&s'&E&Hk&_&Hin).
  - apply demo_cpu_ok.
  - exact Hl.
  - exists l, l', s'. split; [exact Hl|]. split; [exact E|]. split; [exact Hk|].
    apply Hin. right. left. reflexivity.
Defined.
