(* ===== verification/Sys.v ===== *)
(** * The kernel's global state, and sleeping and waking on the process table

    [struct proc], [struct file], [struct pipe] and the tables of [proc.c],
    [file.c], [trap.c] and [sysfile.c] of [src/Xv6-Syscall/src], with
    [myproc], [sched], [sleep], [wakeup1] and [wakeup] of [proc.c].

    A [struct proc *] and a [struct file *] are indices in their tables; a
    [struct pipe *] is the address of the page [pipealloc] got from [kalloc],
    and the structures in these pages are kept in a map.  [p->cwd] is kept in
    the file system state, by pid.

    The file system and the memory see the sleeping processes as the map
    [kslp]; [low] runs a routine of these components in the whole kernel, with
    [sleepers] giving this view of the process table. *)

From S2P Require Import Prelude CInt CString Kernel Params Sleeplock Bio Log BlockIO Fs Kalloc Vm.

Inductive procstate := UNUSED | EMBRYO | SLEEPING | RUNNABLE | RUNNING | ZOMBIE.

#[global] Instance procstate_eq_dec : EqDecision procstate.
Proof. solve_decision. Defined.

Record proc := Proc {
  p_sz : Z;
  p_pgdir : Z;
  p_kstack : Z;
  p_state : procstate;
  p_pid : Z;
  p_parent : option nat;
  p_tf : Z;
  p_context : Z;
  p_chan : option chan;
  p_killed : Z;
  p_ofile : list (option nat);
  p_name : list Z
}.

Definition set_sz (v : Z) (p : proc) : proc :=
  Proc v (p_pgdir p) (p_kstack p) (p_state p) (p_pid p) (p_parent p) (p_tf p) (p_context p)
       (p_chan p) (p_killed p) (p_ofile p) (p_name p).
Definition set_pgdir (v : Z) (p : proc) : proc :=
  Proc (p_sz p) v (p_kstack p) (p_state p) (p_pid p) (p_parent p) (p_tf p) (p_context p)
       (p_chan p) (p_killed p) (p_ofile p) (p_name p).
Definition set_kstack (v : Z) (p : proc) : proc :=
  Proc (p_sz p) (p_pgdir p) v (p_state p) (p_pid p) (p_parent p) (p_tf p) (p_context p)
       (p_chan p) (p_killed p) (p_ofile p) (p_name p).
Definition set_state (v : procstate) (p : proc) : proc :=
  Proc (p_sz p) (p_pgdir p) (p_kstack p) v (p_pid p) (p_parent p) (p_tf p) (p_context p)
       (p_chan p) (p_killed p) (p_ofile p) (p_name p).
Definition set_pid (v : Z) (p : proc) : proc :=
  Proc (p_sz p) (p_pgdir p) (p_kstack p) (p_state p) v (p_parent p) (p_tf p) (p_context p)
       (p_chan p) (p_killed p) (p_ofile p) (p_name p).
Definition set_parent (v : option nat) (p : proc) : proc :=
  Proc (p_sz p) (p_pgdir p) (p_kstack p) (p_state p) (p_pid p) v (p_tf p) (p_context p)
       (p_chan p) (p_killed p) (p_ofile p) (p_name p).
Definition set_tf (v : Z) (p : proc) : proc :=
  Proc (p_sz p) (p_pgdir p) (p_kstack p) (p_state p) (p_pid p) (p_parent p) v (p_context p)
       (p_chan p) (p_killed p) (p_ofile p) (p_name p).
Definition set_context (v : Z) (p : proc) : proc :=
  Proc (p_sz p) (p_pgdir p) (p_kstack p) (p_state p) (p_pid p) (p_parent p) (p_tf p) v
       (p_chan p) (p_killed p) (p_ofile p) (p_name p).
Definition set_chan (v : option chan) (p : proc) : proc :=
  Proc (p_sz p) (p_pgdir p) (p_kstack p) (p_state p) (p_pid p) (p_parent p) (p_tf p) (p_context p)
       v (p_killed p) (p_ofile p) (p_name p).
Definition set_killed (v : Z) (p : proc) : proc :=
  Proc (p_sz p) (p_pgdir p) (p_kstack p) (p_state p) (p_pid p) (p_parent p) (p_tf p) (p_context p)
       (p_chan p) v (p_ofile p) (p_name p).
Definition set_ofile (v : list (option nat)) (p : proc) : proc :=
  Proc (p_sz p) (p_pgdir p) (p_kstack p) (p_state p) (p_pid p) (p_parent p) (p_tf p) (p_context p)
       (p_chan p) (p_killed p) v (p_name p).
Definition set_pname (v : list Z) (p : proc) : proc :=
  Proc (p_sz p) (p_pgdir p) (p_kstack p) (p_state p) (p_pid p) (p_parent p) (p_tf p) (p_context p)
       (p_chan p) (p_killed p) (p_ofile p) v.

Inductive fdtype := FD_NONE | FD_PIPE | FD_INODE.

#[global] Instance fdtype_eq_dec : EqDecision fdtype.
Proof. solve_decision. Defined.

Record file := File {
  f_type : fdtype;
  f_ref : Z;
  f_readable : Z;
  f_writable : Z;
  f_pipe : Z;
  f_ip : option nat;
  f_off : Z
}.

Definition set_fref (n : Z) (f : file) : file :=
  File (f_type f) n (f_readable f) (f_writable f) (f_pipe f) (f_ip f) (f_off f).
Definition set_ftype (t : fdtype) (f : file) : file :=
  File t (f_ref f) (f_readable f) (f_writable f) (f_pipe f) (f_ip f) (f_off f).
Definition set_foff (n : Z) (f : file) : file :=
  File (f_type f) (f_ref f) (f_readable f) (f_writable f) (f_pipe f) (f_ip f) n.

Record pipe := Pipe {
  pp_data : list Z;
  pp_nread : Z;
  pp_nwrite : Z;
  pp_readopen : Z;
  pp_writeopen : Z
}.

(** The tables of the kernel.  [k_cur] is [mycpu()->proc], [k_first] the static
    variable of [forkret]. *)
Record sys := Sys {
  k_proc : list proc;
  k_nextpid : Z;
  k_initproc : option nat;
  k_cur : option nat;
  k_vm : vmem;
  k_fs : fstate lstate;
  k_file : list file;
  k_pipe : gmap Z pipe;
  k_ticks : Z;
  k_read_count : Z;
  k_first : Z
}.

Definition set_kproc (v : list proc) (s : sys) : sys :=
  Sys v (k_nextpid s) (k_initproc s) (k_cur s) (k_vm s) (k_fs s) (k_file s) (k_pipe s)
      (k_ticks s) (k_read_count s) (k_first s).
Definition set_knextpid (v : Z) (s : sys) : sys :=
  Sys (k_proc s) v (k_initproc s) (k_cur s) (k_vm s) (k_fs s) (k_file s) (k_pipe s)
      (k_ticks s) (k_read_count s) (k_first s).
Definition set_kinitproc (v : option nat) (s : sys) : sys :=
  Sys (k_proc s) (k_nextpid s) v (k_cur s) (k_vm s) (k_fs s) (k_file s) (k_pipe s)
      (k_ticks s) (k_read_count s) (k_first s).
Definition set_kcur (v : option nat) (s : sys) : sys :=
  Sys (k_proc s) (k_nextpid s) (k_initproc s) v (k_vm s) (k_fs s) (k_file s) (k_pipe s)
      (k_ticks s) (k_read_count s) (k_first s).
Definition set_kvm (v : vmem) (s : sys) : sys :=
  Sys (k_proc s) (k_nextpid s) (k_initproc s) (k_cur s) v (k_fs s) (k_file s) (k_pipe s)
      (k_ticks s) (k_read_count s) (k_first s).
Definition set_kfs (v : fstate lstate) (s : sys) : sys :=
  Sys (k_proc s) (k_nextpid s) (k_initproc s) (k_cur s) (k_vm s) v (k_file s) (k_pipe s)
      (k_ticks s) (k_read_count s) (k_first s).
Definition set_kfile (v : list file) (s : sys) : sys :=
  Sys (k_proc s) (k_nextpid s) (k_initproc s) (k_cur s) (k_vm s) (k_fs s) v (k_pipe s)
      (k_ticks s) (k_read_count s) (k_first s).
Definition set_kpipe (v : gmap Z pipe) (s : sys) : sys :=
  Sys (k_proc s) (k_nextpid s) (k_initproc s) (k_cur s) (k_vm s) (k_fs s) (k_file s) v
      (k_ticks s) (k_read_count s) (k_first s).
Definition set_kticks (v : Z) (s : sys) : sys :=
  Sys (k_proc s) (k_nextpid s) (k_initproc s) (k_cur s) (k_vm s) (k_fs s) (k_file s) (k_pipe s)
      v (k_read_count s) (k_first s).
Definition set_kread_count (v : Z) (s : sys) : sys :=
  Sys (k_proc s) (k_nextpid s) (k_initproc s) (k_cur s) (k_vm s) (k_fs s) (k_file s) (k_pipe s)
      (k_ticks s) v (k_first s).
Definition set_kfirst (v : Z) (s : sys) : sys :=
  Sys (k_proc s) (k_nextpid s) (k_initproc s) (k_cur s) (k_vm s) (k_fs s) (k_file s) (k_pipe s)
      (k_ticks s) (k_read_count s) v.

(** ** The process table *)

Definition pget (i : nat) : K sys proc := l ← gets k_proc; deref (l !! i).
Definition pset (i : nat) (f : proc → proc) : K sys unit :=
  _ ← pget i; modify (λ s, set_kproc (alter f i (k_proc s)) s).

(** [myproc()]: the slot of the current process, null between processes. *)
Definition myproc : K sys (option nat) :=
  pushcli;;
  _ ← mycpu;
  p ← gets k_cur;
  popcli;;
  mret p.

(** [myproc()->...] dereferences the pointer. *)
Definition curproc : K sys nat := p ← myproc; deref p.

(** [sched] up to the [swtch] to the scheduler. *)
Definition sched {A} : K sys A :=
  i ← curproc;
  h ← holding Lptable;
  if negb h then panic "sched ptable.lock" else
  c ← mycpu;
  if negb (ncli c =? 1) then panic "sched locks" else
  p ← pget i;
  if bool_decide (p_state p = RUNNING) then panic "sched running" else
  e ← readeflags_if;
  if (e : bool) then panic "sched interruptible" else
  λ σ, Switch σ.

(** The statements of [sleep] before its [sched], in their order: other CPUs
    may run between any two of them. *)
Definition sleep_stmts (i : nat) (ch : chan) (lk : lockid) : list (K sys unit) :=
  (if bool_decide (lk = Lptable) then [] else [acquire Lptable; release lk]) ++
  [pset i (set_chan (Some ch)); pset i (set_state SLEEPING)].

(** One statement after the other. *)
Definition in_order (l : list (K sys unit)) : K sys unit := for_each l (λ m, m).

(** [sleep] up to its [sched]. *)
Definition sleep {A} (ch : chan) (lk : lockid) : K sys A :=
  o ← myproc;
  match o with
  | None => panic "sleep"
  | Some i =>
      in_order (sleep_stmts i ch lk);;
      sched
  end.

(** [sleep] after [sched] returned in process [i]. *)
Definition sleep_resume (i : nat) (lk : lockid) : K sys unit :=
  pset i (set_chan None);;
  if bool_decide (lk = Lptable) then mret () else release Lptable;; acquire lk.

Definition wake (ch : chan) (p : proc) : proc :=
  if bool_decide (p_state p = SLEEPING) && bool_decide (p_chan p = Some ch)
  then set_state RUNNABLE p else p.

Definition wakeup1 (ch : chan) : K sys unit :=
  for_each (seq 0 NPROC) (λ i, pset i (wake ch)).

Definition wakeup_stmts (ch : chan) : list (K sys unit) :=
  [acquire Lptable; wakeup1 ch; release Lptable].

Definition wakeup (ch : chan) : K sys unit := in_order (wakeup_stmts ch).

(** ** Routines of the memory and of the file system *)

(** The sleeping processes, by pid. *)
Definition sleepers (l : list proc) : gmap Z chan :=
  list_to_map (omap (λ p, if bool_decide (p_state p = SLEEPING)
                          then c ← p_chan p; Some (p_pid p, c) else None) l).

(** The processes that are no longer in [w] become runnable. *)
Definition keep_asleep (w : gmap Z chan) (p : proc) : proc :=
  if bool_decide (p_state p = SLEEPING) && bool_decide (w !! p_pid p = None)
  then set_state RUNNABLE p else p.

Definition set_cproc (o : option Z) (c : cpu) : cpu := Cpu (apicid c) (eif c) (ncli c) (intena c) o.

Definition cur_pid (s : sys) : option Z := i ← k_cur s; p_pid <$> k_proc s !! i.

Definition low {T A} (get : sys → T) (put : T → sys → sys) (m : K T A) : K sys A := λ σ,
  let s := kdata σ in
  let back (τ : kst T) :=
    Kst (set_cproc (cproc (kcpu σ)) (kcpu τ)) (klocks τ) (kslp σ)
        (let s' := put (kdata τ) s in set_kproc (keep_asleep (kslp τ) <$> k_proc s') s') in
  match m (Kst (set_cproc (cur_pid s) (kcpu σ)) (klocks σ) (sleepers (k_proc s)) (get s)) with
  | Ret a τ => Ret a (back τ)
  | Panic msg τ => Panic msg (back τ)
  | Sleep ch lk τ => sleep ch lk (back τ)
  | Spin lk τ => Spin lk (back τ)
  | Switch τ => Switch (back τ)
  | Undef => Undef
  | NoFuel => NoFuel
  end.

Definition vm {A} (m : K vmem A) : K sys A := low k_vm set_kvm m.
Definition fs {A} (m : K (fstate lstate) A) : K sys A := low k_fs set_kfs m.

(** [begin_op()] and [end_op()] of the log. *)
Definition op_begin : K sys unit := fs (zoom fblk set_fblk begin_op).
Definition op_end : K sys unit := fs (zoom fblk set_fblk end_op).

(** ** Sleeping and waking: specifications

    [wakeup] makes exactly the processes asleep on its channel runnable, and
    [sleep] atomically marks the caller and gives up the lock it was called
    with.  [wakeup_sleepers] relates the process table to the map of sleepers
    the memory and the file system are modelled with. *)

Section SysSpec.
Implicit Types (c : cpu) (L : gmap lockid Z) (w : gmap Z chan) (s : sys).

Lemma wp_myproc c L w s Q :
  cpu_ok c → Q (k_cur s) (Kst c L w s) → wp myproc Q (Kst c L w s).
Proof.
  intros Hc HQ. rewrite /myproc. apply wp_bind. eapply wp_eq; [apply pushcli_run|].
  apply wp_bind. eapply (wp_eq mycpu (pushed c)); [done|]. apply wp_bind, wp_gets. cbn [kdata].
  apply wp_bind. by eapply wp_eq; [apply popcli_run|].
Qed.

Lemma wp_curproc c L w s i Q :
  cpu_ok c → k_cur s = Some i → Q i (Kst c L w s) → wp curproc Q (Kst c L w s).
Proof. intros Hc Hi HQ. apply wp_bind, wp_myproc; [done|]. by rewrite Hi. Qed.

Lemma wp_pget c L w s i p Q :
  k_proc s !! i = Some p → Q p (Kst c L w s) → wp (pget i) Q (Kst c L w s).
Proof. intros Hp HQ. apply wp_bind, wp_gets. cbn [kdata]. by rewrite Hp. Qed.

Lemma wp_pset c L w s i p f Q :
  k_proc s !! i = Some p → Q tt (Kst c L w (set_kproc (alter f i (k_proc s)) s)) →
  wp (pset i f) Q (Kst c L w s).
Proof. intros Hp HQ. apply wp_bind. eapply wp_pget; [done|]. by apply wp_modify. Qed.

Lemma pset_run c L w s i p f :
  k_proc s !! i = Some p →
  pset i f (Kst c L w s) = Ret tt (Kst c L w (set_kproc (alter f i (k_proc s)) s)).
Proof.
  intros Hp. destruct (wp_inv (pset i f) (λ _ σ, σ = Kst c L w (set_kproc (alter f i (k_proc s)) s)) (Kst c L w s))
    as ([]&?&E&->); [by eapply wp_pset|done].
Qed.

(** Updating every slot of the table. *)
Lemma wp_pset_all f c L w s Q :
  length (k_proc s) = NPROC → Q tt (Kst c L w (set_kproc (f <$> k_proc s) s)) →
  wp (for_each (seq 0 NPROC) (λ i, pset i f)) Q (Kst c L w s).
Proof.
  intros Hl HQ.
  apply (wp_for_seq _ _ (λ t σ, σ = Kst c L w (set_kproc ((f <$> take t (k_proc s)) ++ drop t (k_proc s)) s))).
  - rewrite take_0 drop_0. by destruct s.
  - intros t σ Ht ->. destruct (lookup_lt_is_Some_2 (k_proc s) t) as [p Hp]; [lia|].
    assert (length (f <$> take t (k_proc s)) = t) as Hlen by (rewrite length_fmap length_take; lia).
    eapply wp_pset; cbn [k_proc set_kproc].
    + rewrite lookup_app_r Hlen; [done|]. by rewrite Nat.sub_diag lookup_drop Nat.add_0_r.
    + rewrite (drop_S _ p) // (take_S_r _ _ p) // fmap_app.
      rewrite alter_app_r_alt Hlen //. by rewrite Nat.sub_diag /= -app_assoc.
  - intros σ ->. rewrite take_ge ?drop_ge ?app_nil_r //; lia.
Qed.

Lemma wp_wakeup1 ch c L w s Q :
  length (k_proc s) = NPROC → Q tt (Kst c L w (set_kproc (wake ch <$> k_proc s) s)) →
  wp (wakeup1 ch) Q (Kst c L w s).
Proof. apply wp_pset_all. Qed.

Lemma wp_sys_wakeup ch c L w s Q :
  cpu_ok c → L !! Lptable = None → length (k_proc s) = NPROC →
  Q tt (Kst c L w (set_kproc (wake ch <$> k_proc s) s)) → wp (wakeup ch) Q (Kst c L w s).
Proof.
  intros Hc HL Hl HQ. apply wp_bind, wp_acquire; [done|done|].
  apply wp_bind, wp_wakeup1; [done|]. by apply wp_bind, wp_release_last.
Qed.

(** [sleep] of process [i], called with the only lock [lk] held. *)
Definition asleep (i : nat) (ch : chan) (s : sys) : sys :=
  set_kproc (alter (set_state SLEEPING ∘ set_chan (Some ch)) i (k_proc s)) s.

Lemma mark_run i ch c L w s p :
  k_proc s !! i = Some p →
  in_order [pset i (set_chan (Some ch)); pset i (set_state SLEEPING)] (Kst c L w s) =
    Ret tt (Kst c L w (asleep i ch s)).
Proof.
  intros Hp. rewrite /in_order /= (bind_ret _ _ _ _ _ (pset_run _ _ _ _ _ _ _ Hp)).
  rewrite (bind_ret _ _ _ _ _ (pset_run _ _ _ _ _ (set_chan (Some ch) p) _ _)).
  - cbn [k_proc set_kproc]. by rewrite list_lookup_alter_eq Hp.
  - rewrite /asleep /=. by rewrite list_alter_alter_eq.
Qed.

Lemma sched_switch {A} c L w s i p :
  cpu_ok c → ncli c = 0 → L !! Lptable = Some (apicid c) →
  k_cur s = Some i → k_proc s !! i = Some p → p_state p ≠ RUNNING →
  sched (A:=A) (Kst (pushed c) L w s) = Switch (Kst (pushed c) L w s).
Proof.
  intros Hc Hn HL Hi Hp Hs. rewrite /sched.
  pose proof (pushed_ok c Hc) as Hpc.
  destruct (wp_inv curproc (λ j σ, j = i ∧ σ = Kst (pushed c) L w s)
    (Kst (pushed c) L w s)) as (j&σ&E&->&->).
  { by eapply wp_curproc. }
  rewrite (bind_ret _ _ _ _ _ E).
  rewrite (bind_ret _ _ _ _ _ (holding_run Lptable _ _ w s Hpc)).
  rewrite bool_decide_eq_true_2; [done|]. cbn [negb].
  rewrite (bind_ret mycpu _ _ (pushed c) (Kst (pushed c) L w s)) //.
  cbn [ncli pushed]. rewrite Hn. change (negb (0 + 1 =? 1)) with false. cbv iota.
  rewrite (bind_ret (pget i) _ _ p (Kst (pushed c) L w s)).
  { by rewrite /pget /mbind /K_bind /= Hp. }
  by rewrite bool_decide_eq_false_2.
Qed.

Lemma sleep_switch {A} ch lk c w s i p :
  cpu_ok c → ncli c = 0 → k_cur s = Some i → k_proc s !! i = Some p → lk ≠ Lptable →
  sleep (A:=A) ch lk (Kst (pushed c) {[lk := apicid c]} w s) =
    Switch (Kst (pushed c) {[Lptable := apicid c]} w (asleep i ch s)).
Proof.
  intros Hc Hn Hi Hp Hlk. rewrite /sleep. pose proof (pushed_ok c Hc) as Hpc.
  destruct (wp_inv myproc (λ o σ, o = Some i ∧ σ = Kst (pushed c) {[lk := apicid c]} w s)
    (Kst (pushed c) {[lk := apicid c]} w s)) as (o&σ&E&->&->).
  { apply wp_myproc; [done|]. by rewrite Hi. }
  rewrite (bind_ret _ _ _ _ _ E) /sleep_stmts bool_decide_eq_false_2 //.
  rewrite (bind_ret _ _ _ tt (Kst (pushed c) {[Lptable := apicid c]} w (asleep i ch s))).
  { assert (({[lk := apicid c]} : gmap lockid Z) !! Lptable = None) as Hno by by rewrite lookup_singleton_ne.
    rewrite /in_order /= (bind_ret _ _ _ _ _ (acquire_run Lptable (pushed c) _ w s Hpc Hno)).
    rewrite (bind_ret _ _ _ tt (Kst (pushed c) {[Lptable := apicid c]} w s)).
    { rewrite release_run //; [by rewrite lookup_insert_ne // lookup_singleton_eq|].
      do 2 f_equal. rewrite delete_insert_ne // delete_singleton_eq //. }
    by apply (mark_run i ch _ _ w s p). }
  apply (sched_switch c _ w (asleep i ch s) i (set_state SLEEPING (set_chan (Some ch) p))); [done|done|by rewrite lookup_singleton_eq|done| |done].
  by rewrite /asleep /= list_lookup_alter_eq Hp.
Qed.

(** ** The map of sleepers *)

(** Sleeping processes have a channel, and distinct pids. *)
Record sleep_ok (l : list proc) : Prop := {
  so_chan : ∀ p, p ∈ l → p_state p = SLEEPING → is_Some (p_chan p);
  so_pid : ∀ i j p q, l !! i = Some p → l !! j = Some q → p_state p = SLEEPING → p_state q = SLEEPING →
    p_pid p = p_pid q → i = j
}.

Definition sleep_entry (p : proc) : option (Z * chan) :=
  if bool_decide (p_state p = SLEEPING) then c ← p_chan p; Some (p_pid p, c) else None.

Lemma sleep_entry_Some p x y :
  sleep_entry p = Some (x, y) ↔ p_state p = SLEEPING ∧ p_pid p = x ∧ p_chan p = Some y.
Proof.
  rewrite /sleep_entry. case_bool_decide; [|naive_solver]. destruct (p_chan p); simpl; naive_solver.
Qed.

Lemma sleepers_NoDup l : sleep_ok l → NoDup (omap sleep_entry l).*1.
Proof.
  intros [_ Hpid]. induction l as [|p l IH]; [constructor|]. simpl.
  assert (NoDup (omap sleep_entry l).*1) as Hl.
  { apply IH. intros i j q q' Hi Hj ? ? E. specialize (Hpid (S i) (S j) q q' Hi Hj). naive_solver. }
  destruct (sleep_entry p) as [[x y]|] eqn:Ep; [|done]. simpl. constructor; [|done].
  apply sleep_entry_Some in Ep as (Hs&Hx&Hy). rewrite list_elem_of_fmap.
  intros ([x' y']&->&(q&Hq&Eq)%list_elem_of_omap). apply sleep_entry_Some in Eq as (Hs'&Hx'&Hy').
  apply list_elem_of_lookup in Hq as [j Hj]. simpl in *.
  by specialize (Hpid 0%nat (S j) p q eq_refl Hj Hs Hs' ltac:(congruence)).
Qed.

Lemma sleepers_lookup l p ch :
  sleep_ok l → p ∈ l → p_state p = SLEEPING → p_chan p = Some ch → sleepers l !! p_pid p = Some ch.
Proof.
  intros Hl Hp Hs Hc. rewrite /sleepers -/sleep_entry. apply elem_of_list_to_map_1; [by apply sleepers_NoDup|].
  apply list_elem_of_omap. exists p. split; [done|]. by apply sleep_entry_Some.
Qed.

Lemma keep_asleep_wake l ch :
  sleep_ok l → keep_asleep (filter (λ kv, kv.2 ≠ ch) (sleepers l)) <$> l = wake ch <$> l.
Proof.
  intros Hl. apply list_fmap_ext. intros i p Hi. apply list_elem_of_lookup_2 in Hi.
  rewrite /keep_asleep /wake. case_bool_decide as Hs; [|done]. simpl.
  destruct (so_chan _ Hl p Hi Hs) as [d Hd]. pose proof (sleepers_lookup l p d Hl Hi Hs Hd) as Hk.
  rewrite Hd. destruct (decide (d = ch)) as [->|Hne].
  - rewrite !bool_decide_eq_true_2 // map_lookup_filter_None. right. intros x Hx Hne. simpl in Hne. congruence.
  - rewrite (bool_decide_eq_false_2 (Some d = Some ch)); [congruence|]. rewrite bool_decide_eq_false_2 //.
    rewrite map_lookup_filter_None. intros [?|H]; [congruence|]. by apply (H d Hk).
Qed.

Lemma keep_asleep_id l : sleep_ok l → keep_asleep (sleepers l) <$> l = l.
Proof.
  intros Hl. rewrite -{3}(list_fmap_id l). apply list_fmap_ext. intros i p Hi. apply list_elem_of_lookup_2 in Hi.
  rewrite /keep_asleep. case_bool_decide as Hs; [|done]. destruct (so_chan _ Hl p Hi Hs) as [d Hd].
  by rewrite (sleepers_lookup l p d) // bool_decide_eq_false_2.
Qed.

Lemma set_cproc_ok o c : cpu_ok c → cpu_ok (set_cproc o c).
Proof. by intros (?&?&?). Qed.

Lemma set_cproc_back o c : set_cproc (cproc c) (set_cproc o c) = c.
Proof. by destruct c. Qed.

(** A routine of the memory that wakes nobody. *)
Lemma wp_vm {A} (m : K vmem A) c L w s Q :
  cpu_ok c → sleep_ok (k_proc s) →
  (∀ c' w', cpu_ok c' → wp m (λ a τ, ∃ v, τ = Kst c' L w' v ∧ Q a (Kst c L w (set_kvm v s)))
     (Kst c' L w' (k_vm s))) →
  wp (vm m) Q (Kst c L w s).
Proof.
  intros Hc Hs Hm. specialize (Hm _ (sleepers (k_proc s)) (set_cproc_ok (cur_pid s) c Hc)).
  rewrite /wp /vm /low. cbn [kcpu klocks kslp kdata]. rewrite /wp in Hm.
  destruct (m _) as [a τ|?|?|?|?| |]; try done. destruct Hm as (v&->&HQ).
  cbn [kcpu klocks kslp kdata]. cbn [k_proc set_kvm]. by rewrite set_cproc_back keep_asleep_id.
Qed.

(** The view of the process table the memory and the file system are
    modelled with is faithful: waking a channel in the map of sleepers, and
    taking the result back to the process table, is [wakeup] on the table. *)
Theorem wakeup_sleepers ch c L w s :
  cpu_ok c → L !! Lptable = None → length (k_proc s) = NPROC → sleep_ok (k_proc s) →
  vm (Kernel.wakeup ch) (Kst c L w s) = wakeup ch (Kst c L w s) ∧
  fs (Kernel.wakeup ch) (Kst c L w s) = wakeup ch (Kst c L w s).
Proof.
  intros Hc HL Hl Hs.
  destruct (wp_inv (wakeup ch) (λ _ σ, σ = Kst c L w (set_kproc (wake ch <$> k_proc s) s)) (Kst c L w s))
    as ([]&?&E&->); [by apply wp_sys_wakeup|].
  pose proof (set_cproc_ok (cur_pid s) c Hc) as Hc'.
  rewrite E /vm /fs /low. cbn [kcpu klocks kslp kdata]. rewrite !wakeup_run //.
  cbn [kcpu klocks kslp kdata]. cbn [k_proc set_kvm set_kfs].
  rewrite keep_asleep_wake // set_cproc_back //.
Qed.
End SysSpec.
