(* ===== verification/Pipe.v ===== *)
(** * Pipes

    Models [src/Xv6-Syscall/src/pipe.c], with [filealloc] and [fileclose]'s
    part on the file table from [file.c].  A pipe is a ring of PIPESIZE bytes
    with two 32-bit counters; [queue] is the list of bytes it holds. *)

From S2P Require Import Prelude CInt CString Kernel Params Sleeplock Bio Log BlockIO Fs Kalloc Vm Sys.

Definition PIPESIZE : Z := 512.

Definition set_pdata (d : list Z) (p : pipe) : pipe :=
  Pipe d (pp_nread p) (pp_nwrite p) (pp_readopen p) (pp_writeopen p).
Definition set_nread (n : Z) (p : pipe) : pipe :=
  Pipe (pp_data p) n (pp_nwrite p) (pp_readopen p) (pp_writeopen p).
Definition set_nwrite (n : Z) (p : pipe) : pipe :=
  Pipe (pp_data p) (pp_nread p) n (pp_readopen p) (pp_writeopen p).
Definition set_readopen (n : Z) (p : pipe) : pipe :=
  Pipe (pp_data p) (pp_nread p) (pp_nwrite p) n (pp_writeopen p).
Definition set_writeopen (n : Z) (p : pipe) : pipe :=
  Pipe (pp_data p) (pp_nread p) (pp_nwrite p) (pp_readopen p) n.

Definition pipe_get (a : Z) : K sys pipe := m ← gets k_pipe; deref (m !! a).
Definition pipe_upd (a : Z) (f : pipe → pipe) : K sys unit :=
  _ ← pipe_get a; modify (λ s, set_kpipe (alter f a (k_pipe s)) s).

(** [myproc()->killed]. *)
Definition killed : K sys bool :=
  i ← curproc; p ← pget i; mret (negb (p_killed p =? 0)).

(** [p->data[p->nwrite++ % PIPESIZE] = b]. *)
Definition push_byte (b : Z) (p : pipe) : pipe :=
  set_nwrite (u32 (pp_nwrite p + 1)) (set_pdata (<[Z.to_nat (pp_nwrite p mod PIPESIZE) := b]> (pp_data p)) p).

(** The loop of [pipewrite] from byte [i] on, the lock held; the result says
    whether all bytes were written. *)
Fixpoint pipewrite_loop (a : Z) (src : list Z) : K sys bool :=
  match src with
  | [] => mret true
  | b :: src =>
      p ← pipe_get a;
      (if pp_nwrite p =? u32 (pp_nread p + PIPESIZE) then
         r ← (if pp_readopen p =? 0 then mret true else killed);
         if (r : bool) then release (Lpipe a);; mret false else
         wakeup (CPipeR a);;
         sleep (CPipeW a) (Lpipe a)
       else
         pipe_upd a (push_byte b);;
         pipewrite_loop a src)
  end.

Definition pipewrite (a : Z) (addr : list Z) (n : Z) : K sys Z :=
  acquire (Lpipe a);;
  _ ← deref (if n <=? length addr then Some tt else None);
  ok ← pipewrite_loop a (take (Z.to_nat n) addr);
  if negb ok then mret (-1) else
  wakeup (CPipeR a);;
  release (Lpipe a);;
  mret n.

Fixpoint piperead_loop (a : Z) (n : nat) : K sys (list Z) :=
  match n with
  | O => mret []
  | S n =>
      p ← pipe_get a;
      if pp_nread p =? pp_nwrite p then mret [] else
      b ← deref (pp_data p !! Z.to_nat (pp_nread p mod PIPESIZE));
      pipe_upd a (set_nread (u32 (pp_nread p + 1)));;
      l ← piperead_loop a n;
      mret (b :: l)
  end.

(** Returns [i] and the bytes stored at [addr]. *)
Definition piperead (a : Z) (n : Z) : K sys (Z * list Z) :=
  acquire (Lpipe a);;
  p ← pipe_get a;
  if (pp_nread p =? pp_nwrite p) && negb (pp_writeopen p =? 0) then
    k ← killed;
    if (k : bool) then release (Lpipe a);; mret (-1, []) else
    sleep (CPipeR a) (Lpipe a)
  else
  l ← piperead_loop a (Z.to_nat n);
  wakeup (CPipeW a);;
  release (Lpipe a);;
  mret (Z.of_nat (length l), l).

Section Close.
Context (kend : Z).

Definition pipeclose (a : Z) (writable : Z) : K sys unit :=
  acquire (Lpipe a);;
  (if negb (writable =? 0) then
     pipe_upd a (set_writeopen 0);;
     wakeup (CPipeR a)
   else
     pipe_upd a (set_readopen 0);;
     wakeup (CPipeW a));;
  p ← pipe_get a;
  if (pp_readopen p =? 0) && (pp_writeopen p =? 0) then
    release (Lpipe a);;
    modify (λ s, set_kpipe (delete a (k_pipe s)) s);;
    vm (kfree kend a)
  else release (Lpipe a).
End Close.

(** ** The ring as a queue *)

(** Number of bytes in the pipe. *)
Definition used (p : pipe) : Z := u32 (pp_nwrite p - pp_nread p).

Definition queue (p : pipe) : list Z :=
  (λ k : nat, pp_data p !!! Z.to_nat ((pp_nread p + k) mod PIPESIZE)) <$> seq 0 (Z.to_nat (used p)).

Record pipe_ok (p : pipe) : Prop := {
  po_data : length (pp_data p) = Z.to_nat PIPESIZE;
  po_read : is_u32 (pp_nread p);
  po_write : is_u32 (pp_nwrite p);
  po_used : used p ≤ PIPESIZE
}.

Lemma u32_mod x : u32 x mod PIPESIZE = x mod PIPESIZE.
Proof. rewrite /u32. unfold PIPESIZE. Z.div_mod_to_equations. lia. Qed.

Lemma used_range p : 0 ≤ used p.
Proof. rewrite /used. pose proof (u32_range (pp_nwrite p - pp_nread p)) as H. unfold is_u32 in H. lia. Qed.

Lemma length_queue p : length (queue p) = Z.to_nat (used p).
Proof. by rewrite /queue length_fmap length_seq. Qed.

(** The tests the code makes on the counters. *)
Lemma full_spec p : pipe_ok p → (pp_nwrite p =? u32 (pp_nread p + PIPESIZE)) = (used p =? PIPESIZE).
Proof.
  intros [_ Hr Hw Hu]. apply eq_bool_prop_intro. rewrite !Is_true_true !Z.eqb_eq /used in Hu |- *.
  rewrite /u32 in Hu |- *. unfold is_u32, PIPESIZE in *. split; intros; Z.div_mod_to_equations; lia.
Qed.

Lemma empty_spec p : pipe_ok p → (pp_nread p =? pp_nwrite p) = (used p =? 0).
Proof.
  intros [_ Hr Hw Hu]. apply eq_bool_prop_intro. rewrite !Is_true_true !Z.eqb_eq /used in Hu |- *.
  rewrite /u32 in Hu |- *. unfold is_u32, PIPESIZE in *. split; intros; Z.div_mod_to_equations; lia.
Qed.

Lemma used_push b p : pipe_ok p → used p < PIPESIZE → used (push_byte b p) = used p + 1.
Proof.
  intros [_ Hr Hw _] Hu. pose proof (used_range p). rewrite /used /= in Hu |- *. rewrite /u32 in Hu |- *.
  unfold is_u32, PIPESIZE in *. Z.div_mod_to_equations. lia.
Qed.

Lemma used_pop p : pipe_ok p → 0 < used p → used (set_nread (u32 (pp_nread p + 1)) p) = used p - 1.
Proof.
  intros [_ Hr Hw _] Hu. rewrite /used /= in Hu |- *. rewrite /u32 in Hu |- *.
  unfold is_u32, PIPESIZE in *. Z.div_mod_to_equations. lia.
Qed.

Lemma push_ok b p : pipe_ok p → used p < PIPESIZE → pipe_ok (push_byte b p).
Proof.
  intros Hp Hu. split; simpl.
  - rewrite length_insert. apply Hp.
  - apply Hp.
  - apply u32_range.
  - rewrite used_push //. lia.
Qed.

Lemma pop_ok p : pipe_ok p → 0 < used p → pipe_ok (set_nread (u32 (pp_nread p + 1)) p).
Proof.
  intros Hp Hu. split; simpl; [apply Hp|apply u32_range|apply Hp|]. rewrite used_pop //. destruct Hp. lia.
Qed.

(** The slot of the [k]-th byte. *)
Lemma write_slot p : pipe_ok p → (pp_nread p + used p) mod PIPESIZE = pp_nwrite p mod PIPESIZE.
Proof.
  intros _. rewrite /used -(u32_mod (pp_nread p + _)) /u32 Zplus_mod_idemp_r -/(u32 _).
  replace (pp_nread p + (pp_nwrite p - pp_nread p)) with (pp_nwrite p) by lia. apply u32_mod.
Qed.

Lemma queue_push b p : pipe_ok p → used p < PIPESIZE → queue (push_byte b p) = queue p ++ [b].
Proof.
  intros Hp Hu. pose proof (used_range p) as H0. rewrite /queue used_push //.
  replace (Z.to_nat (used p + 1)) with (S (Z.to_nat (used p))) by lia.
  rewrite seq_S fmap_app /=. f_equal.
  - apply list_fmap_ext. intros i k Hk. apply lookup_seq in Hk as [-> Hk]. simpl.
    rewrite list_lookup_total_insert_ne //. intros E. apply Z2Nat.inj in E; [|apply Z.mod_pos_bound; done..].
    rewrite -(write_slot p Hp) in E. unfold PIPESIZE in *. Z.div_mod_to_equations. lia.
  - rewrite Z2Nat.id // (write_slot p Hp) list_lookup_total_insert. rewrite (po_data _ Hp) decide_True //.
    split; [done|]. pose proof (Z.mod_pos_bound (pp_nwrite p) PIPESIZE ltac:(done)). lia.
Qed.

Lemma queue_pop p : pipe_ok p → 0 < used p →
  ∃ b, pp_data p !! Z.to_nat (pp_nread p mod PIPESIZE) = Some b ∧
    queue p = b :: queue (set_nread (u32 (pp_nread p + 1)) p).
Proof.
  intros Hp Hu. pose proof (Z.mod_pos_bound (pp_nread p) PIPESIZE ltac:(done)) as Hm.
  destruct (lookup_lt_is_Some_2 (pp_data p) (Z.to_nat (pp_nread p mod PIPESIZE))) as [b Hb].
  { rewrite (po_data _ Hp). lia. }
  exists b. split; [done|]. rewrite /queue used_pop //.
  replace (Z.to_nat (used p)) with (S (Z.to_nat (used p - 1))) by lia. cbn [seq fmap list_fmap]. f_equal.
  - rewrite Z.add_0_r. by apply list_lookup_total_correct.
  - rewrite -fmap_S_seq -list_fmap_compose. apply list_fmap_ext. intros i k _. simpl. do 2 f_equal.
    rewrite -(u32_mod (pp_nread p + S k)) -(u32_mod (u32 _ + k)). f_equal. rewrite /u32 Zplus_mod_idemp_l.
    f_equal. lia.
Qed.
