(* ===== verification/PipeSpec.v ===== *)
(** * Pipes are queues

    [pipewrite] and [piperead] on every branch, and the refinement of any
    sequence of them to a first-in first-out queue. *)

From S2P Require Import Prelude CInt CString Kernel Params Sleeplock Bio Log LogCrash Txn BlockIO Fs Kalloc Vm Sys Pipe.

(** The current process [i] runs, and the process table has its size. *)
Record running (i : nat) (p : proc) (c : cpu) (s : sys) : Prop := {
  ru_cpu : cpu_ok c;
  ru_cur : k_cur s = Some i;
  ru_proc : k_proc s !! i = Some p;
  ru_len : length (k_proc s) = NPROC
}.

Section PipeSpec.
Implicit Types (c : cpu) (L : gmap lockid Z) (w : gmap Z chan) (s : sys) (a : Z) (p : pipe).

Definition put_pipe a p s : sys := set_kpipe (<[a := p]> (k_pipe s)) s.
Definition woken (ch : chan) s : sys := set_kproc (wake ch <$> k_proc s) s.

(** Same end points. *)
Definition same_ends p p' : Prop := pp_readopen p' = pp_readopen p ∧ pp_writeopen p' = pp_writeopen p.

Lemma wp_pipe_get a c L w s p Q :
  k_pipe s !! a = Some p → Q p (Kst c L w s) → wp (pipe_get a) Q (Kst c L w s).
Proof. intros Hp HQ. apply wp_bind, wp_gets. cbn [kdata]. by rewrite Hp. Qed.

Lemma wp_pipe_upd a f c L w s p Q :
  k_pipe s !! a = Some p → Q tt (Kst c L w (put_pipe a (f p) s)) → wp (pipe_upd a f) Q (Kst c L w s).
Proof.
  intros Hp HQ. apply wp_bind. eapply wp_pipe_get; [done|]. apply wp_modify. kst_simpl.
  assert (alter f a (k_pipe s) = <[a := f p]> (k_pipe s)) as ->; [|done].
  apply map_eq. intros b. destruct (decide (a = b)) as [<-|Hne].
  - by rewrite lookup_alter_eq Hp lookup_insert_eq.
  - by rewrite lookup_alter_ne // lookup_insert_ne.
Qed.

Lemma put_pipe_eq a p s : k_pipe s !! a = Some p → put_pipe a p s = s.
Proof. intros Hp. rewrite /put_pipe insert_id //. by destruct s. Qed.

Lemma put_pipe_put a p p' s : put_pipe a p' (put_pipe a p s) = put_pipe a p' s.
Proof. by rewrite /put_pipe /= insert_insert_eq. Qed.

Lemma put_pipe_get a p s : k_pipe (put_pipe a p s) !! a = Some p.
Proof. by rewrite /put_pipe /= lookup_insert_eq. Qed.

Lemma wp_eq_run {A B} (m : K sys A) (f : A → K sys B) σ (v : A) σ' :
  wp m (λ x τ, x = v ∧ τ = σ') σ → (m ≫= f) σ = f v σ'.
Proof. intros (x&τ&E&->&->)%wp_inv. by apply bind_ret. Qed.

(** Bytes that fit are appended, and the loop goes on with the rest. *)
Lemma pipewrite_loop_fits a c L w : ∀ src rest s p,
  k_pipe s !! a = Some p → pipe_ok p → used p + length src ≤ PIPESIZE →
  ∃ p', pipe_ok p' ∧ queue p' = queue p ++ src ∧ same_ends p p' ∧
    pipewrite_loop a (src ++ rest) (Kst c L w s) = pipewrite_loop a rest (Kst c L w (put_pipe a p' s)).
Proof.
  induction src as [|b src IH]; intros rest s p Hp Hok Hfit; simpl in Hfit.
  - exists p. rewrite app_nil_r put_pipe_eq //.
  - assert (used p < PIPESIZE) as Hlt by lia.
    destruct (IH rest (put_pipe a (push_byte b p) s) (push_byte b p)) as (p'&Hok'&Hq'&He'&E).
    + apply put_pipe_get.
    + by apply push_ok.
    + rewrite used_push //. lia.
    + exists p'. split; [done|]. split; [|split].
      * rewrite Hq' queue_push // -app_assoc //.
      * done.
      * cbn [app pipewrite_loop].
        rewrite (wp_eq_run _ _ _ p (Kst c L w s)); [by eapply wp_pipe_get|].
        rewrite full_spec // (proj2 (Z.eqb_neq _ _)); [lia|].
        rewrite (wp_eq_run _ _ _ tt (Kst c L w (put_pipe a (push_byte b p) s))); [by eapply wp_pipe_upd|].
        by rewrite E put_pipe_put.
Qed.

(** The loop at a full pipe. *)
Lemma pipewrite_loop_full a b src c w s p i q :
  running i q c s → ncli c = 0 → k_pipe s !! a = Some p → pipe_ok p → used p = PIPESIZE →
  pipewrite_loop a (b :: src) (Kst (pushed c) {[Lpipe a := apicid c]} w s) =
    if (pp_readopen p =? 0) || negb (p_killed q =? 0) then Ret false (Kst c ∅ w s)
    else Switch (Kst (pushed c) {[Lptable := apicid c]} w (asleep i (CPipeW a) (woken (CPipeR a) s))).
Proof.
  intros [Hc Hcur Hq Hlen] Hn Hp Hok Hu. set (L := {[Lpipe a := apicid c]}). cbn [pipewrite_loop].
  rewrite (wp_eq_run _ _ _ p (Kst (pushed c) L w s)); [by eapply wp_pipe_get|].
  rewrite full_spec // (proj2 (Z.eqb_eq _ _)) //.
  pose proof (pushed_ok c Hc) as Hpc.
  rewrite (wp_eq_run _ _ _ ((pp_readopen p =? 0) || negb (p_killed q =? 0)) (Kst (pushed c) L w s)).
  { destruct (pp_readopen p =? 0); [done|]. apply wp_bind. eapply wp_curproc; [done|done|].
    apply wp_bind. by eapply wp_pget. }
  assert (release (Lpipe a) (Kst (pushed c) L w s) = Ret tt (Kst c ∅ w s)) as Hrel.
  { rewrite release_run // /L ?lookup_singleton_eq //. by rewrite delete_singleton_eq. }
  destruct (_ || _); [by rewrite (bind_ret _ _ _ _ _ Hrel)|].
  rewrite (wp_eq_run _ _ _ tt (Kst (pushed c) L w (woken (CPipeR a) s))).
  { apply wp_sys_wakeup; [done|by rewrite lookup_singleton_ne|done|done]. }
  by apply (sleep_switch _ _ c w (woken (CPipeR a) s) i (wake (CPipeR a) q)); [..|rewrite /= list_lookup_fmap Hq|].
Qed.

(** [pipewrite] of [n] bytes, by the room there is. *)
Lemma pipewrite_fits a addr (n : nat) c w s p i q :
  running i q c s → k_pipe s !! a = Some p → pipe_ok p →
  (n ≤ length addr)%nat → used p + n ≤ PIPESIZE →
  ∃ p', pipe_ok p' ∧ queue p' = queue p ++ take n addr ∧ same_ends p p' ∧
    pipewrite a addr n (Kst c ∅ w s) = Ret (Z.of_nat n) (Kst c ∅ w (woken (CPipeR a) (put_pipe a p' s))).
Proof.
  intros [Hc Hcur Hq Hlen] Hp Hok Hl Hfit. set (L := <[Lpipe a := apicid c]> (∅ : gmap lockid Z)).
  destruct (pipewrite_loop_fits a (pushed c) L w (take n addr) [] s p) as (p'&Hok'&Hq'&He&E);
    [done|done|rewrite length_take; lia|].
  exists p'. split_and!; [done|done|done|]. rewrite /pipewrite.
  rewrite (bind_ret _ _ _ _ _ (acquire_run (Lpipe a) c ∅ w s Hc (lookup_empty _))).
  rewrite (proj2 (Z.leb_le _ _)); [lia|]. rewrite (bind_ret _ _ _ tt (Kst (pushed c) L w s)) //.
  rewrite Nat2Z.id. rewrite app_nil_r in E. rewrite (bind_ret _ _ _ _ _ E). cbn [negb].
  pose proof (pushed_ok c Hc) as Hpc.
  rewrite (wp_eq_run _ _ _ tt (Kst (pushed c) L w (woken (CPipeR a) (put_pipe a p' s)))).
  { apply wp_sys_wakeup; [done|by rewrite /L lookup_insert_ne|done|done]. }
  rewrite (wp_eq_run _ _ _ tt (Kst c ∅ w (woken (CPipeR a) (put_pipe a p' s)))) //.
  by apply wp_release_last.
Qed.

(** [pipewrite] when its bytes do not fit: it fills the pipe; if the read
    end is closed or the process was killed it returns -1 with no lock held,
    and otherwise it wakes the readers and sleeps until a reader made room,
    with the pipe's lock released. *)
Theorem pipewrite_blocks a addr (n : nat) c w s p i q :
  running i q c s → ncli c = 0 → k_pipe s !! a = Some p → pipe_ok p →
  (n ≤ length addr)%nat → PIPESIZE < used p + n →
  ∃ p', pipe_ok p' ∧ queue p' = queue p ++ take (Z.to_nat (PIPESIZE - used p)) addr ∧ used p' = PIPESIZE ∧
    pipewrite a addr n (Kst c ∅ w s) =
      if (pp_readopen p =? 0) || negb (p_killed q =? 0) then Ret (-1) (Kst c ∅ w (put_pipe a p' s))
      else Switch (Kst (pushed c) {[Lptable := apicid c]} w
                       (asleep i (CPipeW a) (woken (CPipeR a) (put_pipe a p' s)))).
Proof.
  intros Hr Hn Hp Hok Hl Hfull. pose proof (po_used _ Hok) as Hu. pose proof (used_range p) as H0.
  set (L := {[Lpipe a := apicid c]} : gmap lockid Z). set (k := Z.to_nat (PIPESIZE - used p)).
  destruct (lookup_lt_is_Some_2 (take n addr) k) as [b Hb]; [rewrite length_take; lia|].
  pose proof (take_drop_middle _ _ _ Hb) as Hsplit. rewrite take_take Nat.min_l in Hsplit; [lia|].
  destruct (pipewrite_loop_fits a (pushed c) L w (take k addr) (b :: drop (S k) (take n addr)) s p)
    as (p'&Hok'&Hq'&He&E); [done|done|rewrite length_take; lia|].
  assert (used p' = PIPESIZE) as Hu'.
  { pose proof (f_equal length Hq') as Hlen. rewrite length_app !length_queue length_take in Hlen.
    pose proof (used_range p'). lia. }
  exists p'. split_and!; [done|done|done|]. rewrite Hsplit in E. rewrite /pipewrite.
  rewrite (bind_ret _ _ _ _ _ (acquire_run (Lpipe a) c ∅ w s (ru_cpu _ _ _ _ Hr) (lookup_empty _))).
  rewrite (proj2 (Z.leb_le _ _)); [lia|]. rewrite (bind_ret _ _ _ tt (Kst (pushed c) L w s)) // Nat2Z.id.
  rewrite /mbind {1}/K_bind E (pipewrite_loop_full a _ _ c w (put_pipe a p' s) p' i q) //.
  - by destruct Hr.
  - apply put_pipe_get.
  - destruct He as [-> _]. by destruct (_ || _).
Qed.

(** ** Reading *)

Lemma piperead_loop_wp a c L w : ∀ n s p Q,
  k_pipe s !! a = Some p → pipe_ok p →
  (∀ p', pipe_ok p' → queue p' = drop n (queue p) → same_ends p p' →
     Q (take n (queue p)) (Kst c L w (put_pipe a p' s))) →
  wp (piperead_loop a n) Q (Kst c L w s).
Proof.
  induction n as [|n IH]; intros s p Q Hp Hok HQ; cbn [piperead_loop].
  - apply wp_ret. rewrite -{1}(put_pipe_eq a p s) //. by apply HQ.
  - apply wp_bind. eapply wp_pipe_get; [done|]. rewrite empty_spec //. destruct (used p =? 0) eqn:E; breflect.
    + apply wp_ret. assert (queue p = []) as Hnil by (apply length_zero_iff_nil; rewrite length_queue; lia).
      specialize (HQ p). rewrite Hnil in HQ. rewrite -(put_pipe_eq a p s) //. by apply HQ.
    + pose proof (used_range p). destruct (queue_pop p) as (b&Hb&Hq); [done|lia|].
      apply wp_bind. eapply wp_deref; [done|]. apply wp_bind. eapply wp_pipe_upd; [done|].
      apply wp_bind. eapply IH; [apply put_pipe_get|apply pop_ok; [done|lia]|].
      intros p' Hok' Hq' He'. apply wp_ret. rewrite put_pipe_put. specialize (HQ p' Hok'). rewrite Hq in HQ.
      by apply HQ.
Qed.

(** [piperead] when there is something to read, or nobody left to write. *)
Lemma piperead_ready a (n : nat) c w s p i q :
  running i q c s → k_pipe s !! a = Some p → pipe_ok p → queue p ≠ [] ∨ pp_writeopen p = 0 →
  ∃ p', pipe_ok p' ∧ queue p' = drop n (queue p) ∧ same_ends p p' ∧
    piperead a n (Kst c ∅ w s) =
      Ret (Z.of_nat (length (take n (queue p))), take n (queue p))
          (Kst c ∅ w (woken (CPipeW a) (put_pipe a p' s))).
Proof.
  intros [Hc Hcur Hq Hlen] Hp Hok Hrd. set (L := <[Lpipe a := apicid c]> (∅ : gmap lockid Z)).
  pose proof (pushed_ok c Hc) as Hpc.
  destruct (wp_inv (piperead a n) (λ r σ, ∃ p', pipe_ok p' ∧ queue p' = drop n (queue p) ∧ same_ends p p' ∧
    r = (Z.of_nat (length (take n (queue p))), take n (queue p)) ∧
    σ = Kst c ∅ w (woken (CPipeW a) (put_pipe a p' s))) (Kst c ∅ w s))
    as (r&σ&E&p'&?&?&?&->&->); [|by exists p'].
  rewrite /piperead. apply wp_bind, wp_acquire; [done|apply lookup_empty|]. fold L.
  apply wp_bind. eapply wp_pipe_get; [done|]. rewrite empty_spec //.
  assert ((used p =? 0) && negb (pp_writeopen p =? 0) = false) as ->.
  { destruct Hrd as [Hne| ->]; [|by rewrite andb_false_r]. destruct (used p =? 0) eqn:E0; [|done]. breflect.
    destruct Hne. apply length_zero_iff_nil. rewrite length_queue. lia. }
  apply wp_bind. eapply piperead_loop_wp; [done|done|]. intros p' Hok' Hq' He'. rewrite Nat2Z.id in Hq' |- *.
  apply wp_bind, wp_sys_wakeup; [done|by rewrite /L lookup_insert_ne|done|].
  apply wp_bind, wp_release_last; [done|apply lookup_empty|]. apply wp_ret. by exists p'.
Qed.

(** ** Any sequence of reads and writes *)

Inductive pipe_op := PWrite (l : list Z) | PRead (n : nat).

(** The bytes a sequence of operations reads. *)
Fixpoint pipe_run (a : Z) (ops : list pipe_op) : K sys (list Z) :=
  match ops with
  | [] => mret []
  | PWrite l :: ops => _ ← pipewrite a l (length l); pipe_run a ops
  | PRead n :: ops => r ← piperead a n; l ← pipe_run a ops; mret (r.2 ++ l)
  end.

(** The specification: a queue, with the operations that do not block. *)
Fixpoint queue_run (q : list Z) (ops : list pipe_op) : option (list Z * list Z) :=
  match ops with
  | [] => Some ([], q)
  | PWrite l :: ops =>
      if decide (length (q ++ l) ≤ PIPESIZE) then queue_run (q ++ l) ops else None
  | PRead n :: ops =>
      if decide (q = []) then None
      else '(out, q') ← queue_run (drop n q) ops; Some (take n q ++ out, q')
  end.

Lemma pipe_run_wp a c w i : ∀ ops s p q out q' Q,
  running i q c s → k_pipe s !! a = Some p → pipe_ok p → queue_run (queue p) ops = Some (out, q') →
  (∀ s' p', k_pipe s' !! a = Some p' → pipe_ok p' → queue p' = q' → Q out (Kst c ∅ w s')) →
  wp (pipe_run a ops) Q (Kst c ∅ w s).
Proof.
  assert (∀ ch s q p, running i q c s → running i (wake ch q) c (woken ch (put_pipe a p s))) as Hwake.
  { intros ch s q p [? ? Hq ?]. split; simpl; [done|done|by rewrite list_lookup_fmap Hq|by rewrite length_fmap]. }
  induction ops as [|[l|n] ops IH]; intros s p q out q' Q Hr Hp Hok Hrun HQ; simpl in Hrun.
  - simplify_eq. by eapply wp_ret, HQ.
  - case_decide as Hfit; [|done]. rewrite length_app length_queue in Hfit. pose proof (used_range p).
    destruct (pipewrite_fits a l (length l) c w s p i q) as (p'&Hok'&Hq'&_&E); [done..|lia|].
    rewrite firstn_all in Hq'. cbn [pipe_run]. apply wp_bind. eapply wp_eq; [exact E|].
    eapply IH; [by apply Hwake|apply lookup_insert_eq|done|by rewrite Hq'|done].
  - case_decide as Hne; [done|]. destruct (queue_run _ _) as [[out1 q1]|] eqn:Hrest; [|done].
    simpl in Hrun. simplify_eq. destruct (piperead_ready a n c w s p i q) as (p'&Hok'&Hq'&_&E); [done..|by left|].
    cbn [pipe_run]. apply wp_bind. eapply wp_eq; [exact E|]. apply wp_bind.
    eapply IH; [by apply Hwake|apply lookup_insert_eq|done|by rewrite Hq'|].
    intros s' p1 Hp1 Hok1 Hq1. by eapply wp_ret, HQ.
Qed.

(** C5: A pipe is a first-in first-out queue of PIPESIZE bytes: any sequence of
    writes and reads that the bounded queue can perform without blocking
    returns, with the bytes the queue gives, whatever the values of the
    counters, which wrap around at 32 bits. *)
Theorem pipe_fifo a ops c w s p i q out q' :
  running i q c s → k_pipe s !! a = Some p → pipe_ok p → queue_run (queue p) ops = Some (out, q') →
  ∃ s' p', pipe_run a ops (Kst c ∅ w s) = Ret out (Kst c ∅ w s') ∧
    k_pipe s' !! a = Some p' ∧ pipe_ok p' ∧ queue p' = q'.
Proof.
  intros Hr Hp Hok Hrun.
  destruct (wp_inv (pipe_run a ops) (λ r σ, r = out ∧ ∃ s' p', σ = Kst c ∅ w s' ∧
    k_pipe s' !! a = Some p' ∧ pipe_ok p' ∧ queue p' = q') (Kst c ∅ w s))
    as (r&σ&E&->&s'&p'&->&?&?&?); [|by exists s', p'].
  eapply pipe_run_wp; [done..|]. intros s' p' ? ? ?. split; [done|]. by exists s', p'.
Qed.
End PipeSpec.

(** ** Example: one process and a pipe whose counters are about to wrap *)

Definition demo_proc (st : procstate) (pid : Z) : proc :=
  Proc 4096 0 0 st pid None 0 0 None 0 (replicate NOFILE None) (replicate 16 0).

Definition demo_procs : list proc :=
  demo_proc RUNNING 1 :: replicate (NPROC - 1) (demo_proc UNUSED 0).

Definition demo_fs : fstate lstate := Fst (bss_lstate (Disk ∅ 0 [])) [] (Sb 0 0 0 0 0 0 0) ∅.

Definition demo_pipe : pipe := Pipe (replicate 512 0) (2 ^ 32 - 2) (2 ^ 32 - 2) 1 1.

Definition demo_sys (p : pipe) : sys :=
  Sys demo_procs 2 (Some 0%nat) (Some 0%nat) demo_vmem demo_fs [] {[ 4096 := p ]} 0 0 0.

Lemma demo_running p : running 0 (demo_proc RUNNING 1) demo_cpu (demo_sys p).
Proof. split; [apply demo_cpu_ok|done|done|done]. Qed.

Lemma demo_pipe_ok : pipe_ok demo_pipe.
Proof. split; [done|by vm_compute|by vm_compute|by vm_compute]. Qed.

Definition demo_ops : list pipe_op := [PWrite [1; 2; 3]; PRead 2; PWrite [4; 5]; PRead 9].

Lemma pipe_fifo_witness :
  ∃ s', pipe_run 4096 demo_ops (Kst demo_cpu ∅ ∅ (demo_sys demo_pipe)) =
    Ret [1; 2; 3; 4; 5] (Kst demo_cpu ∅ ∅ s').
Proof.
  destruct (pipe_fifo 4096 demo_ops demo_cpu ∅ (demo_sys demo_pipe) demo_pipe 0 (demo_proc RUNNING 1)
    [1; 2; 3; 4; 5] []) as (s'&p'&E&_).
  - apply demo_running.
  - reflexivity.
  - apply demo_pipe_ok.
  - by vm_compute.
  - exists s'. exact E.
Defined.

Lemma pipewrite_blocks_witness :
  ∃ σ', pipewrite 4096 (replicate 600 7) 600%nat (Kst demo_cpu ∅ ∅ (demo_sys demo_pipe)) = Switch σ'.
Proof.
  destruct (pipewrite_blocks 4096 (replicate 600 7) 600 demo_cpu ∅ (demo_sys demo_pipe) demo_pipe 0
    (demo_proc RUNNING 1)) as (p'&_&_&_&E).
  - apply demo_running.
  - reflexivity.
  - reflexivity.
  - apply demo_pipe_ok.
  - rewrite length_replicate. lia.
  - by vm_compute.
  - rewrite E. simpl. by eexists.
Defined.
