(* ===== verification/File.v ===== *)
(** * Open files

    Models [src/Xv6-Syscall/src/file.c] and [pipealloc] of [pipe.c].  The bytes
    [fileread] stores at [addr] are returned.

    [ftable_ok] says that the unused entries of the file table have type
    FD_NONE: closing a file that was allocated but not set up yet, as the error
    paths of [pipealloc] and [sys_open] do, then touches no inode and no pipe. *)

From S2P Require Import Prelude CInt CString Kernel Params Sleeplock Bio Log BlockIO Fs Kalloc Vm Sys Pipe PipeSpec.

Section File.
Context (kend : Z) (devsw : Z → devops (fstate lstate)).

Definition fget (i : nat) : K sys file := l ← gets k_file; deref (l !! i).
Definition fupd (i : nat) (f : file → file) : K sys unit :=
  _ ← fget i; modify (λ s, set_kfile (alter f i (k_file s)) s).

Definition fileinit : K sys unit := initlock Lftable.

Definition filealloc : K sys (option nat) :=
  acquire Lftable;;
  r ← for_find (seq 0 NFILE) (λ i,
    f ← fget i;
    if f_ref f =? 0 then fupd i (set_fref 1);; release Lftable;; mret (Some i) else mret None);
  match r with
  | Some i => mret (Some i)
  | None => release Lftable;; mret None
  end.

Definition filedup (i : nat) : K sys nat :=
  acquire Lftable;;
  f ← fget i;
  if f_ref f <? 1 then panic "filedup" else
  fupd i (set_fref (s32 (f_ref f + 1)));;
  release Lftable;;
  mret i.

Definition fileclose (i : nat) : K sys unit :=
  acquire Lftable;;
  f ← fget i;
  if f_ref f <? 1 then panic "fileclose" else
  fupd i (set_fref (f_ref f - 1));;
  if 0 <? f_ref f - 1 then release Lftable else
  ff ← fget i;
  fupd i (set_fref 0);;
  fupd i (set_ftype FD_NONE);;
  release Lftable;;
  match f_type ff with
  | FD_PIPE => pipeclose kend (f_pipe ff) (f_writable ff)
  | FD_INODE =>
      op_begin;;
      ip ← deref (f_ip ff);
      fs (iput ip);;
      op_end
  | FD_NONE => mret ()
  end.

Definition filestat (i : nat) : K sys (Z * option stat) :=
  f ← fget i;
  match f_type f with
  | FD_INODE =>
      fs (ilock (f_ip f));;
      ip ← deref (f_ip f);
      st ← fs (stati ip);
      fs (iunlock (f_ip f));;
      mret (0, Some st)
  | _ => mret (-1, None)
  end.

Definition fileread (i : nat) (n : Z) : K sys (Z * list Z) :=
  f ← fget i;
  if f_readable f =? 0 then mret (-1, []) else
  match f_type f with
  | FD_PIPE => piperead (f_pipe f) n
  | FD_INODE =>
      fs (ilock (f_ip f));;
      ip ← deref (f_ip f);
      r ← fs (readi devsw ip (f_off f) (u32 n));
      (if 0 <? r.1 then fupd i (set_foff (u32 (f_off f + r.1))) else mret ());;
      fs (iunlock (f_ip f));;
      mret r
  | FD_NONE => panic "fileread"
  end.

(** At most this many bytes are written in one transaction. *)
Definition write_max : Z := (MAXOPBLOCKS - 1 - 1 - 2) / 2 * 512.

(** The [while] loop of [filewrite]; the result is the final [i]. *)
Fixpoint filewrite_loop (fuel : nat) (fd : nat) (addr : list Z) (i n : Z) : K sys Z :=
  if negb (i <? n) then mret i else
  match fuel with
  | O => nofuel
  | S fuel =>
      let n1 := if write_max <? n - i then write_max else n - i in
      op_begin;;
      f ← fget fd;
      fs (ilock (f_ip f));;
      ip ← deref (f_ip f);
      r ← fs (writei devsw ip (drop (Z.to_nat i) addr) (f_off f) (u32 n1));
      (if 0 <? r then fupd fd (set_foff (u32 (f_off f + r))) else mret ());;
      fs (iunlock (f_ip f));;
      op_end;;
      if r <? 0 then mret i else
      if negb (r =? n1) then panic "short filewrite" else
      filewrite_loop fuel fd addr (i + r) n
  end.

Definition filewrite (fd : nat) (addr : list Z) (n : Z) : K sys Z :=
  f ← fget fd;
  if f_writable f =? 0 then mret (-1) else
  match f_type f with
  | FD_PIPE => pipewrite (f_pipe f) addr n
  | FD_INODE =>
      i ← filewrite_loop (Z.to_nat n) fd addr 0 n;
      mret (if i =? n then n else -1)
  | FD_NONE => panic "filewrite"
  end.

(** Closing a file that was allocated. *)
Definition close_if (o : option nat) : K sys unit :=
  match o with Some i => fileclose i | None => mret () end.

Definition pipealloc : K sys (option (nat * nat)) :=
  f0 ← filealloc;
  f1 ← (match f0 with Some _ => filealloc | None => mret None end);
  p ← (match f1 with Some _ => vm kalloc | None => mret 0 end);
  match f0, f1 with
  | Some i0, Some i1 =>
      if p =? 0 then close_if f0;; close_if f1;; mret None else
      modify (λ s, set_kpipe (<[p := Pipe (replicate (Z.to_nat PIPESIZE) 0) 0 0 1 1]> (k_pipe s)) s);;
      initlock (Lpipe p);;
      fupd i0 (λ f, File FD_PIPE (f_ref f) 1 0 p (f_ip f) (f_off f));;
      fupd i1 (λ f, File FD_PIPE (f_ref f) 0 1 p (f_ip f) (f_off f));;
      mret (Some (i0, i1))
  | _, _ => close_if f0;; close_if f1;; mret None
  end.
End File.

(** ** The file table *)

Definition ftable_ok (l : list file) : Prop :=
  length l = NFILE ∧ ∀ i f, l !! i = Some f → 0 ≤ f_ref f ∧ (f_ref f = 0 → f_type f = FD_NONE).

Section FileSpec.
Context (kend : Z).
Implicit Types (c : cpu) (L : gmap lockid Z) (w : gmap Z chan) (s : sys).

Lemma wp_fget c L w s i f Q :
  k_file s !! i = Some f → Q f (Kst c L w s) → wp (fget i) Q (Kst c L w s).
Proof. intros Hf HQ. apply wp_bind, wp_gets. cbn [kdata]. by rewrite Hf. Qed.

Lemma wp_fupd c L w s i f g Q :
  k_file s !! i = Some f → Q tt (Kst c L w (set_kfile (<[i := g f]> (k_file s)) s)) →
  wp (fupd i g) Q (Kst c L w s).
Proof.
  intros Hf HQ. apply wp_bind. eapply wp_fget; [done|]. apply wp_modify. kst_simpl.
  assert (alter g i (k_file s) = <[i := g f]> (k_file s)) as ->; [|done].
  apply list_eq. intros j. destruct (decide (i = j)) as [<-|Hne].
  - rewrite list_lookup_alter_eq Hf list_lookup_insert_eq //. by eapply lookup_lt_Some.
  - by rewrite list_lookup_alter_ne // list_lookup_insert_ne.
Qed.

(** The entries of one slot changed. *)
Definition put_file (i : nat) (f : file) (s : sys) : sys := set_kfile (<[i := f]> (k_file s)) s.

Lemma ftable_ok_put i f s :
  ftable_ok (k_file s) → 0 ≤ f_ref f → (f_ref f = 0 → f_type f = FD_NONE) → ftable_ok (k_file (put_file i f s)).
Proof.
  intros [Hl Ht] H0 Hn. split; [by rewrite /= length_insert|]. intros j g. simpl.
  rewrite list_lookup_insert. case_decide; naive_solver.
Qed.

Lemma filealloc_wp c L w s Q :
  cpu_ok c → L !! Lftable = None → ftable_ok (k_file s) →
  (∀ i f, k_file s !! i = Some f → f_ref f = 0 → (∀ j g, (j < i)%nat → k_file s !! j = Some g → f_ref g ≠ 0) →
     Q (Some i) (Kst c L w (put_file i (set_fref 1 f) s))) →
  ((∀ j g, k_file s !! j = Some g → f_ref g ≠ 0) → Q None (Kst c L w s)) →
  wp filealloc Q (Kst c L w s).
Proof.
  intros Hc HL [Hl Ht] HQ1 HQ0. apply wp_bind, wp_acquire; [done|done|]. apply wp_bind.
  rewrite -(list_fmap_id (seq 0 NFILE)).
  apply (wp_find_seq _ _ _ (λ t σ, σ = Kst (pushed c) (<[Lftable := apicid c]> L) w s ∧
    ∀ j g, (j < t)%nat → k_file s !! j = Some g → f_ref g ≠ 0)).
  - split; [done|]. lia.
  - intros t σ Htn [-> Hno]. destruct (lookup_lt_is_Some_2 (k_file s) t) as [f Hf]; [lia|].
    apply wp_bind. eapply wp_fget; [done|]. destruct (f_ref f =? 0) eqn:E; breflect.
    + apply wp_bind. eapply wp_fupd; [done|]. apply wp_bind, wp_release_last; [done|done|].
      apply wp_ret, wp_ret. by eapply (HQ1 t f).
    + apply wp_ret. split; [done|]. intros j g Hj Hg. destruct (decide (j = t)) as [->|]; [naive_solver|].
      apply (Hno j g); [lia|done].
  - intros σ [-> Hno]. apply wp_bind, wp_release_last; [done|done|]. apply wp_ret, HQ0.
    intros j g Hg. apply (Hno j g); [|done]. apply lookup_lt_Some in Hg. lia.
Qed.

Lemma filedup_wp c L w s i f Q :
  cpu_ok c → L !! Lftable = None → k_file s !! i = Some f → 1 ≤ f_ref f < 2 ^ 31 - 1 →
  Q i (Kst c L w (put_file i (set_fref (f_ref f + 1) f) s)) → wp (filedup i) Q (Kst c L w s).
Proof.
  intros Hc HL Hf Hr HQ. apply wp_bind, wp_acquire; [done|done|]. apply wp_bind. eapply wp_fget; [done|].
  rewrite (proj2 (Z.ltb_ge _ _)); [lia|]. apply wp_bind. eapply wp_fupd; [done|].
  rewrite s32_small; [lia|]. apply wp_bind, wp_release_last; [done|done|]. by apply wp_ret.
Qed.

(** [fileclose] of a file with other references. *)
Lemma fileclose_shared_wp c L w s i f Q :
  cpu_ok c → L !! Lftable = None → k_file s !! i = Some f → 1 < f_ref f →
  Q tt (Kst c L w (put_file i (set_fref (f_ref f - 1) f) s)) → wp (fileclose kend i) Q (Kst c L w s).
Proof.
  intros Hc HL Hf Hr HQ. apply wp_bind, wp_acquire; [done|done|]. apply wp_bind. eapply wp_fget; [done|].
  rewrite (proj2 (Z.ltb_ge _ _)); [lia|]. apply wp_bind. eapply wp_fupd; [done|].
  rewrite (proj2 (Z.ltb_lt _ _)); [lia|]. by apply wp_release_last.
Qed.

(** [fileclose] of a file that was not set up. *)
Lemma fileclose_none_wp c L w s i f Q :
  cpu_ok c → L !! Lftable = None → k_file s !! i = Some f → f_ref f = 1 → f_type f = FD_NONE →
  Q tt (Kst c L w (put_file i (set_fref 0 f) s)) → wp (fileclose kend i) Q (Kst c L w s).
Proof.
  intros Hc HL Hf Hr Ht HQ. pose proof (lookup_lt_Some _ _ _ Hf) as Hlt.
  apply wp_bind, wp_acquire; [done|done|]. apply wp_bind. eapply wp_fget; [done|].
  rewrite Hr. cbn [Z.ltb Z.compare]. apply wp_bind. eapply wp_fupd; [done|]. cbn [Z.sub Z.ltb Z.compare].
  change (0 <? 1 - 1) with false. cbv iota.
  apply wp_bind. eapply wp_fget; [by rewrite /= list_lookup_insert_eq|].
  apply wp_bind. eapply wp_fupd; [by rewrite /= list_lookup_insert_eq|].
  apply wp_bind. eapply wp_fupd; [rewrite /= list_lookup_insert_eq //; by rewrite length_insert|].
  apply wp_bind, wp_release_last; [done|done|]. rewrite /= Ht. apply wp_ret.
  rewrite /set_kfile /= !list_insert_insert_eq. rewrite /put_file in HQ. by destruct f; simplify_eq/=.
Qed.

Lemma put_file_put i f g s : put_file i g (put_file i f s) = put_file i g s.
Proof. by rewrite /put_file /set_kfile /= list_insert_insert_eq. Qed.

Lemma put_file_id i f s : k_file s !! i = Some f → put_file i f s = s.
Proof. intros Hf. rewrite /put_file list_insert_id //. by destruct s. Qed.

Lemma put_file_get i f g s : k_file s !! i = Some g → k_file (put_file i f s) !! i = Some f.
Proof. intros Hg. rewrite /put_file /= list_lookup_insert_eq //. by eapply lookup_lt_Some. Qed.

Lemma put_file_comm i j f g s : i ≠ j → put_file i f (put_file j g s) = put_file j g (put_file i f s).
Proof. intros Hne. rewrite /put_file /set_kfile /=. f_equal. by apply list_insert_insert_ne. Qed.

(** [filedup] followed by [fileclose] gives back the state as it was: no
    inode and no pipe is touched while another reference is left. *)
Theorem filedup_fileclose c w s i f :
  cpu_ok c → k_file s !! i = Some f → 1 ≤ f_ref f < 2 ^ 31 - 1 →
  ∃ s1, filedup i (Kst c ∅ w s) = Ret i (Kst c ∅ w s1) ∧
    k_file s1 !! i = Some (set_fref (f_ref f + 1) f) ∧
    fileclose kend i (Kst c ∅ w s1) = Ret tt (Kst c ∅ w s).
Proof.
  intros Hc Hf Hr. pose proof (put_file_get i (set_fref (f_ref f + 1) f) f s Hf) as Hf1.
  destruct (wp_inv (filedup i) (λ r σ, r = i ∧ σ = Kst c ∅ w (put_file i (set_fref (f_ref f + 1) f) s))
    (Kst c ∅ w s)) as (?&?&E&->&->); [by eapply filedup_wp|].
  exists (put_file i (set_fref (f_ref f + 1) f) s). split; [done|]. split; [done|].
  destruct (wp_inv (fileclose kend i) (λ _ σ, σ = Kst c ∅ w s)
    (Kst c ∅ w (put_file i (set_fref (f_ref f + 1) f) s))) as ([]&?&E2&->); [|done].
  eapply fileclose_shared_wp; [done|done|exact Hf1|simpl; lia|].
  rewrite put_file_put /= put_file_id //. replace (f_ref f + 1 - 1) with (f_ref f) by lia. by destruct f.
Qed.

(** Allocating a file and closing it again. *)
Lemma close_fresh_wp c w s i f Q :
  cpu_ok c → ftable_ok (k_file s) → k_file s !! i = Some f → f_ref f = 0 →
  Q tt (Kst c ∅ w s) → wp (fileclose kend i) Q (Kst c ∅ w (put_file i (set_fref 1 f) s)).
Proof.
  intros Hc [_ Ht] Hf Hr HQ. destruct (Ht i f Hf) as [_ Hty].
  eapply fileclose_none_wp; [done|done|by eapply put_file_get|done|by apply Hty|].
  rewrite put_file_put put_file_id //. by destruct f; simplify_eq/=.
Qed.

(** A pipe as [pipealloc] makes it. *)
Definition new_pipe : pipe := Pipe (replicate (Z.to_nat PIPESIZE) 0) 0 0 1 1.

Lemma new_pipe_ok : pipe_ok new_pipe ∧ queue new_pipe = [].
Proof. split; [|done]. split; [done|by vm_compute|by vm_compute|by vm_compute]. Qed.

(** The two ends of pipe [v] in the file table. *)
Definition pipe_ends (i0 i1 : nat) (v : Z) (s s' : sys) : Prop :=
  (∃ f, k_file s' !! i0 = Some f ∧ f_type f = FD_PIPE ∧ f_ref f = 1 ∧ f_readable f = 1 ∧ f_writable f = 0 ∧ f_pipe f = v) ∧
  (∃ f, k_file s' !! i1 = Some f ∧ f_type f = FD_PIPE ∧ f_ref f = 1 ∧ f_readable f = 0 ∧ f_writable f = 1 ∧ f_pipe f = v) ∧
  ∀ i, i ≠ i0 → i ≠ i1 → k_file s' !! i = k_file s !! i.

Definition pipealloc_post (c : cpu) (w : gmap Z chan) (s : sys) (l : list Z) r (σ : kst sys) : Prop :=
  (r = None ∧ σ = Kst c ∅ w s) ∨
  ∃ i0 i1 v s', r = Some (i0, i1) ∧ σ = Kst c ∅ w s' ∧ i0 ≠ i1 ∧ v ∈ l ∧ ftable_ok (k_file s') ∧
    k_pipe s' = <[v := new_pipe]> (k_pipe s) ∧ pipe_ends i0 i1 v s s' ∧
    ∀ i, i = i0 ∨ i = i1 → ∃ f, k_file s !! i = Some f ∧ f_ref f = 0.

(** The last part of [pipealloc], with both files and the page at hand. *)
Lemma pipealloc_setup c w s l i0 i1 f0 f1 v vm' :
  cpu_ok c → ftable_ok (k_file s) → i0 ≠ i1 → v ∈ l →
  k_file s !! i0 = Some f0 → f_ref f0 = 0 → k_file s !! i1 = Some f1 → f_ref f1 = 0 →
  wp (modify (λ s, set_kpipe (<[v := new_pipe]> (k_pipe s)) s);;
      initlock (Lpipe v);;
      fupd i0 (λ f, File FD_PIPE (f_ref f) 1 0 v (f_ip f) (f_off f));;
      fupd i1 (λ f, File FD_PIPE (f_ref f) 0 1 v (f_ip f) (f_off f));;
      mret (Some (i0, i1))) (pipealloc_post c w s l)
     (Kst c ∅ w (set_kvm vm' (put_file i1 (set_fref 1 f1) (put_file i0 (set_fref 1 f0) s)))).
Proof.
  intros Hc Hft Hne Hv H0 Hr0 H1 Hr1.
  apply wp_bind, wp_modify. kst_simpl. apply wp_bind, wp_initlock.
  pose proof (lookup_lt_Some _ _ _ H0) as Hl0. pose proof (lookup_lt_Some _ _ _ H1) as Hl1.
  apply wp_bind. eapply wp_fupd.
  { cbn [k_file set_kpipe set_kvm put_file set_kfile]. rewrite list_lookup_insert_ne //. by apply list_lookup_insert_eq. }
  apply wp_bind. eapply wp_fupd.
  { cbn [k_file set_kpipe set_kvm put_file set_kfile]. rewrite list_lookup_insert_ne //.
    apply list_lookup_insert_eq. by rewrite length_insert. }
  apply wp_ret. right. exists i0, i1, v. eexists. split; [done|]. split; [done|].
  cbn [k_file k_pipe set_kpipe set_kvm put_file set_kfile].
  split_and!; [done|done| |done| |].
  - destruct Hft as [Hl Ht]. split; [by rewrite !length_insert|]. intros j g.
    rewrite !list_lookup_insert !length_insert. repeat case_decide; naive_solver lia.
  - rewrite /pipe_ends. cbn [k_file set_kfile].
    split_and!.
    + eexists. split; [rewrite list_lookup_insert_ne // list_lookup_insert_eq // !length_insert //|by split_and!].
    + eexists. split; [rewrite list_lookup_insert_eq // !length_insert //|by split_and!].
    + intros i Hi0 Hi1. by rewrite !list_lookup_insert_ne.
  - intros i [->| ->]; eauto.
Qed.

(** [pipealloc] takes two unused files and a free page and makes them the
    read and the write end of an empty pipe, or, when files or memory run
    out, fails and leaves the whole kernel state as it was. *)
Theorem pipealloc_spec c w s l :
  cpu_ok c → sleep_ok (k_proc s) → ftable_ok (k_file s) →
  KERNBASE ≤ kend → kmem_ok kend l (k_vm s) →
  ∃ r σ, pipealloc kend (Kst c ∅ w s) = Ret r σ ∧ pipealloc_post c w s l r σ.
Proof.
  intros Hc Hs Hft Hend Hk. apply wp_inv. rewrite /pipealloc. apply wp_bind.
  apply filealloc_wp; [done|done|done| |].
  2:{ intros _. apply wp_bind, wp_ret, wp_bind, wp_ret. cbn [close_if].
      apply wp_bind, wp_ret, wp_bind, wp_ret, wp_ret. by left. }
  intros i0 f0 H0 Hr0 _. set (s0 := put_file i0 (set_fref 1 f0) s).
  assert (ftable_ok (k_file s0)) as Hft0 by by apply ftable_ok_put.
  apply wp_bind. apply filealloc_wp; [done|done|done| |].
  2:{ intros _. apply wp_bind, wp_ret. cbn [close_if]. apply wp_bind, close_fresh_wp; [done..|].
      apply wp_bind, wp_ret, wp_ret. by left. }
  intros i1 f1 H1 Hr1 _.
  assert (i0 ≠ i1) as Hne.
  { intros <-. rewrite (put_file_get _ _ _ _ H0) in H1. by simplify_eq. }
  assert (k_file s !! i1 = Some f1) as H1' by by rewrite /s0 /= list_lookup_insert_ne // in H1.
  apply wp_bind, wp_vm; [done|exact Hs|]. intros c' w' Hc'. eapply (kalloc_wp kend Hend); [done|done|exact Hk|..].
  - intros _. exists (k_vm s). split; [done|]. cbn [Z.eqb close_if].
    replace (set_kvm _ _) with (put_file i0 (set_fref 1 f0) (put_file i1 (set_fref 1 f1) s)).
    2:{ rewrite /s0 put_file_comm //. }
    apply wp_bind, close_fresh_wp; [done|by apply ftable_ok_put|by rewrite /= list_lookup_insert_ne|done|].
    apply wp_bind, close_fresh_wp; [done|done|done|done|]. apply wp_ret. by left.
  - intros v l' vm' -> _ Hv _ _. exists vm'. split; [done|].
    rewrite (proj2 (Z.eqb_neq v 0)); [by apply (page_addr_nonzero kend Hend)|].
    apply pipealloc_setup; [done|done|done|left|done..].
Qed.
End FileSpec.
