(* ===== verification/Proc.v ===== *)
(** * Processes

    Models [src/Xv6-Syscall/src/proc.c] on the state of [Sys].  Trap frames and
    contexts live in the kernel stack pages, at the offsets of [struct
    trapframe] ([x86.h]) and [struct context] ([proc.h]).

    A routine that gives up the CPU ends in [Switch]; what it does when it is
    scheduled again is a definition of its own ([sleep_resume],
    [yield_resume]). *)

From S2P Require Import Prelude CInt CString Kernel Params Sleeplock Bio Log BlockIO Fs Kalloc Vm Sys Pipe PipeSpec File.

(** ** Trap frame and context *)

Definition TF_SIZE : Z := 76.
Definition CONTEXT_SIZE : Z := 20.
Definition TF_eax : Z := 28.
Definition TF_es : Z := 40.
Definition TF_ds : Z := 44.
Definition TF_trapno : Z := 48.
Definition TF_eip : Z := 56.
Definition TF_cs : Z := 60.
Definition TF_eflags : Z := 64.
Definition TF_esp : Z := 68.
Definition TF_ss : Z := 72.
Definition CONTEXT_eip : Z := 16.

Definition SEG_UCODE : Z := 3.
Definition SEG_UDATA : Z := 4.
Definition DPL_USER : Z := 3.
Definition FL_IF : Z := 512.

(** Bytes within one page of kernel memory. *)
Definition rd_bytes (v : Z) (n : nat) : K vmem (list Z) :=
  p ← get_page v; mret (slice (po v) n p).
Definition wr_bytes (v : Z) (l : list Z) : K vmem unit :=
  p ← get_page v; put_page v (blit (po v) l p).

(** [safestrcpy(dst, src, sizeof(dst))]. *)
Definition copy_name (dst src : list Z) : K sys (list Z) :=
  m ← deref (safestrcpy (dst ++ src) 0 (length dst) (length dst)); mret (take (length dst) m).

(** [p->cwd]. *)
Definition set_cwd (m : gmap Z nat) (f : fstate lstate) : fstate lstate :=
  Fst (fblk f) (icache f) (fsb f) m.
Definition cwd_of (pid : Z) : K sys (option nat) := f ← gets k_fs; mret (cwd f !! pid).
Definition put_cwd (pid : Z) (o : option nat) : K sys unit :=
  modify (λ s, set_kfs (set_cwd (partial_alter (λ _, o) pid (cwd (k_fs s))) (k_fs s)) s).

Section Proc.
Context (kend kdata_addr trapret_addr forkret_addr : Z) (initcode : list Z).
Context (devsw : Z → devops (fstate lstate)).

Definition pinit : K sys unit := initlock Lptable.

Definition allocproc : K sys (option nat) :=
  acquire Lptable;;
  r ← for_find (seq 0 NPROC) (λ i,
    p ← pget i; mret (if bool_decide (p_state p = UNUSED) then Some i else None));
  match r with
  | None => release Lptable;; mret None
  | Some i =>
      pset i (set_state EMBRYO);;
      n ← gets k_nextpid;
      pset i (set_pid n);;
      modify (set_knextpid (s32 (n + 1)));;
      release Lptable;;
      k ← vm kalloc;
      pset i (set_kstack k);;
      if k =? 0 then pset i (set_state UNUSED);; mret None else
      let sp := k + KSTACKSIZE - TF_SIZE in
      pset i (set_tf sp);;
      let sp := sp - 4 in
      vm (wr32 sp trapret_addr);;
      let sp := sp - CONTEXT_SIZE in
      pset i (set_context sp);;
      vm (wr_bytes sp (replicate (Z.to_nat CONTEXT_SIZE) 0));;
      vm (wr32 (sp + CONTEXT_eip) forkret_addr);;
      mret (Some i)
  end.

(** 16-bit stores of selectors. *)
Definition wr16 (v w : Z) : K vmem unit := wr_bytes v (le_bytes 2 (u16 w)).
Definition rd16 (v : Z) : K vmem Z := l ← rd_bytes v 2; mret (le_val l).

Definition userinit : K sys unit :=
  o ← allocproc;
  modify (set_kinitproc o);;
  i ← deref o;
  pg ← vm (setupkvm kend kdata_addr);
  pset i (set_pgdir pg);;
  if pg =? 0 then panic "userinit: out of memory?" else
  vm (inituvm pg initcode);;
  pset i (set_sz PGSIZE);;
  p ← pget i;
  let tf := p_tf p in
  vm (wr_bytes tf (replicate (Z.to_nat TF_SIZE) 0));;
  vm (wr16 (tf + TF_cs) (Z.lor (Z.shiftl SEG_UCODE 3) DPL_USER));;
  vm (wr16 (tf + TF_ds) (Z.lor (Z.shiftl SEG_UDATA 3) DPL_USER));;
  ds ← vm (rd16 (tf + TF_ds));
  vm (wr16 (tf + TF_es) ds);;
  vm (wr16 (tf + TF_ss) ds);;
  vm (wr32 (tf + TF_eflags) FL_IF);;
  vm (wr32 (tf + TF_esp) PGSIZE);;
  vm (wr32 (tf + TF_eip) 0);;
  nm ← copy_name (p_name p) [105; 110; 105; 116; 99; 111; 100; 101; 0];
  pset i (set_pname nm);;
  ip ← fs (namei devsw [47; 0]);
  put_cwd (p_pid p) ip;;
  acquire Lptable;;
  pset i (set_state RUNNABLE);;
  release Lptable.

Definition growproc (n : Z) : K sys Z :=
  i ← curproc;
  p ← pget i;
  let sz := p_sz p in
  sz ← (if 0 <? n then vm (allocuvm kend (p_pgdir p) sz (u32 (sz + n))) else
        if n <? 0 then vm (deallocuvm kend (p_pgdir p) sz (u32 (sz + n))) else mret sz);
  if negb (n =? 0) && (u32 sz =? 0) then mret (-1) else
  pset i (set_sz (u32 sz));;
  vm (switchuvm (Some (p_kstack p, p_pgdir p)));;
  mret 0.

(** The loop over the open files in [fork]. *)
Definition fork_files (i np : nat) : K sys unit :=
  for_each (seq 0 NOFILE) (λ fd,
    p ← pget i;
    o ← deref (p_ofile p !! fd);
    match o with
    | Some f =>
        g ← filedup f;
        pset np (λ q, set_ofile (<[fd := Some g]> (p_ofile q)) q)
    | None => mret ()
    end).

Definition fork : K sys Z :=
  i ← curproc;
  o ← allocproc;
  match o with
  | None => mret (-1)
  | Some np =>
      p ← pget i;
      pg ← vm (copyuvm kend kdata_addr (p_pgdir p) (p_sz p));
      pset np (set_pgdir pg);;
      q ← pget np;
      if pg =? 0 then
        vm (kfree kend (p_kstack q));;
        pset np (set_kstack 0);;
        pset np (set_state UNUSED);;
        mret (-1)
      else
      pset np (set_sz (p_sz p));;
      pset np (set_parent (Some i));;
      l ← vm (rd_bytes (p_tf p) (Z.to_nat TF_SIZE));
      vm (wr_bytes (p_tf q) l);;
      vm (wr32 (p_tf q + TF_eax) 0);;
      fork_files i np;;
      c ← cwd_of (p_pid p);
      c ← deref c;
      c ← fs (idup c);
      put_cwd (p_pid q) (Some c);;
      nm ← copy_name (p_name q) (p_name p);
      pset np (set_pname nm);;
      q ← pget np;
      let pid := p_pid q in
      acquire Lptable;;
      pset np (set_state RUNNABLE);;
      release Lptable;;
      mret pid
  end.

(** [wakeup1(p)] for a process pointer; nobody sleeps on a null pointer. *)
Definition wakeup1_proc (o : option nat) : K sys unit :=
  match o with Some i => wakeup1 (CProc i) | None => mret () end.

(** Children are passed to init. *)
Definition exit_children (i : nat) : K sys unit :=
  for_each (seq 0 NPROC) (λ j,
    p ← pget j;
    if bool_decide (p_parent p = Some i) then
      init ← gets k_initproc;
      pset j (set_parent init);;
      if bool_decide (p_state p = ZOMBIE) then wakeup1_proc init else mret ()
    else mret ()).

Definition exit_files (i : nat) : K sys unit :=
  for_each (seq 0 NOFILE) (λ fd,
    p ← pget i;
    o ← deref (p_ofile p !! fd);
    match o with
    | Some f =>
        fileclose kend f;;
        pset i (λ q, set_ofile (<[fd := None]> (p_ofile q)) q)
    | None => mret ()
    end).

Definition exit {A} : K sys A :=
  i ← curproc;
  init ← gets k_initproc;
  if bool_decide (init = Some i) then panic "init exiting" else
  exit_files i;;
  p ← pget i;
  op_begin;;
  c ← cwd_of (p_pid p);
  c ← deref c;
  fs (iput c);;
  op_end;;
  put_cwd (p_pid p) None;;
  acquire Lptable;;
  p ← pget i;
  wakeup1_proc (p_parent p);;
  exit_children i;;
  pset i (set_state ZOMBIE);;
  sched.

(** The scan of [wait] for an exited child: the pid of a child that was
    reaped, and whether there are children. *)
Fixpoint wait_scan (i : nat) (l : list nat) (havekids : bool) : K sys (option Z * bool) :=
  match l with
  | [] => mret (None, havekids)
  | j :: l =>
      p ← pget j;
      if negb (bool_decide (p_parent p = Some i)) then wait_scan i l havekids else
      if bool_decide (p_state p = ZOMBIE) then
        let pid := p_pid p in
        vm (kfree kend (p_kstack p));;
        pset j (set_kstack 0);;
        vm (freevm kend (p_pgdir p));;
        pset j (set_pid 0);;
        pset j (set_parent None);;
        pset j (λ q, set_pname (<[0%nat := 0]> (p_name q)) q);;
        pset j (set_killed 0);;
        pset j (set_state UNUSED);;
        mret (Some pid, true)
      else wait_scan i l true
  end.

Definition wait : K sys Z :=
  i ← curproc;
  acquire Lptable;;
  r ← wait_scan i (seq 0 NPROC) false;
  match r with
  | (Some pid, _) => release Lptable;; mret pid
  | (None, havekids) =>
      p ← pget i;
      if negb havekids || negb (p_killed p =? 0) then release Lptable;; mret (-1) else
      sleep (CProc i) Lptable
  end.

(** One pass of [scheduler] over the table; [run i] stands for process [i]
    running from the [swtch] to it up to its [swtch] back. *)
Definition schedule (run : nat → K sys unit) (i : nat) : K sys unit :=
  p ← pget i;
  if negb (bool_decide (p_state p = RUNNABLE)) then mret () else
  modify (set_kcur (Some i));;
  vm (switchuvm (Some (p_kstack p, p_pgdir p)));;
  pset i (set_state RUNNING);;
  run i;;
  vm switchkvm;;
  modify (set_kcur None).

Definition scheduler_pass (run : nat → K sys unit) : K sys unit :=
  (λ σ, Ret tt (set_cpu (sti (kcpu σ)) σ));;
  acquire Lptable;;
  for_each (seq 0 NPROC) (schedule run);;
  release Lptable.

Definition yield {A} : K sys A :=
  acquire Lptable;;
  i ← curproc;
  pset i (set_state RUNNABLE);;
  sched.

Definition yield_resume : K sys unit := release Lptable.

Definition forkret : K sys unit :=
  release Lptable;;
  f ← gets k_first;
  if negb (f =? 0) then
    modify (set_kfirst 0);;
    fs (iinit ROOTDEV readsb);;
    fs (zoom fblk set_fblk (initlog ROOTDEV))
  else mret ().

Definition kill (pid : Z) : K sys Z :=
  acquire Lptable;;
  r ← for_find (seq 0 NPROC) (λ i,
    p ← pget i;
    if p_pid p =? pid then
      pset i (set_killed 1);;
      (if bool_decide (p_state p = SLEEPING) then pset i (set_state RUNNABLE) else mret ());;
      release Lptable;;
      mret (Some 0)
    else mret None);
  match r with
  | Some r => mret r
  | None => release Lptable;; mret (-1)
  end.
End Proc.
