(* ===== verification/ProcSpec.v ===== *)
(** * Processes: specifications

    [allocproc], [kill], [wait], the children of an exiting process and the
    scheduler, on process tables of the right size in which the sleeping
    processes have distinct pids. *)

From S2P Require Import Prelude CInt CString Kernel Params Sleeplock Bio Log LogCrash Txn BlockIO Fs Kalloc Vm VmSpec VmCopy VmGrow VmThms VmFree Sys Pipe PipeSpec File Proc.

Section ProcSpec.
Context (kend kdata_addr trapret_addr forkret_addr : Z).
Context (Hend : KERNBASE ≤ kend).
Implicit Types (c : cpu) (L : gmap lockid Z) (w : gmap Z chan) (s : sys) (i j : nat) (p q : proc).

Definition put_proc i p s : sys := set_kproc (<[i := p]> (k_proc s)) s.

Lemma put_proc_put i p q s : put_proc i q (put_proc i p s) = put_proc i q s.
Proof. by rewrite /put_proc /set_kproc /= list_insert_insert_eq. Qed.

Lemma put_proc_get i p q s : k_proc s !! i = Some q → k_proc (put_proc i p s) !! i = Some p.
Proof. intros Hq. rewrite /put_proc /= list_lookup_insert_eq //. by eapply lookup_lt_Some. Qed.

Lemma put_proc_other i j p s : i ≠ j → k_proc (put_proc i p s) !! j = k_proc s !! j.
Proof. intros Hne. by rewrite /put_proc /= list_lookup_insert_ne. Qed.

Lemma wp_pput c L w s i p f Q :
  k_proc s !! i = Some p → Q tt (Kst c L w (put_proc i (f p) s)) → wp (pset i f) Q (Kst c L w s).
Proof.
  intros Hp HQ. eapply wp_pset; [done|].
  assert (alter f i (k_proc s) = <[i := f p]> (k_proc s)) as ->; [|done].
  apply list_eq. intros j. destruct (decide (i = j)) as [<-|Hne].
  - rewrite list_lookup_alter_eq Hp list_lookup_insert_eq //. by eapply lookup_lt_Some.
  - by rewrite list_lookup_alter_ne // list_lookup_insert_ne.
Qed.

(** The machine between two system calls of the current process. *)
Record sys_ok c s : Prop := {
  sk_cpu : cpu_ok c;
  sk_len : length (k_proc s) = NPROC;
  sk_sleep : sleep_ok (k_proc s);
  sk_cur : ∀ i, k_cur s = Some i → ∃ p, k_proc s !! i = Some p ∧ p_state p = RUNNING
}.

Lemma sleep_ok_put i p q (l : list proc) :
  sleep_ok l → l !! i = Some q → p_state p ≠ SLEEPING → sleep_ok (<[i := p]> l).
Proof.
  intros [Hc Hp] Hq Hs. split.
  - intros x [j Hj]%list_elem_of_lookup Hsx. rewrite list_lookup_insert in Hj. case_decide; [naive_solver|].
    apply Hc; [|done]. by eapply list_elem_of_lookup_2.
  - intros j k x y. rewrite !list_lookup_insert. repeat case_decide; naive_solver.
Qed.

(** Changing a slot that is not the current process and not asleep. *)
Lemma sys_ok_put c s i p q :
  sys_ok c s → k_proc s !! i = Some q → k_cur s ≠ Some i → p_state p ≠ SLEEPING → sys_ok c (put_proc i p s).
Proof.
  intros [Hc Hl Hs Hcur] Hq Hne Hst. split; [done| | |].
  - by rewrite /= length_insert.
  - by eapply sleep_ok_put.
  - intros j Hj. destruct (Hcur j Hj) as (x&Hx&Hr). exists x. split; [|done].
    rewrite put_proc_other //. intros ->. done.
Qed.

Lemma sys_ok_vm c s v : sys_ok c s → sys_ok c (set_kvm v s).
Proof. by intros []. Qed.

Lemma unused_not_cur c s i p : sys_ok c s → k_proc s !! i = Some p → p_state p ≠ RUNNING → k_cur s ≠ Some i.
Proof. intros Hok Hp Hs Hc. destruct (sk_cur _ _ Hok i Hc) as (q&Hq&?). congruence. Qed.

(** ** [allocproc] *)

(** The first unused slot. *)
Definition first_unused (l : list proc) i : Prop :=
  (∃ p, l !! i = Some p ∧ p_state p = UNUSED) ∧
  ∀ j p, (j < i)%nat → l !! j = Some p → p_state p ≠ UNUSED.

(** A process as [allocproc] leaves it with kernel stack [k]. *)
Definition embryo (n k : Z) p : proc :=
  Proc (p_sz p) (p_pgdir p) k EMBRYO n (p_parent p) (k + KSTACKSIZE - TF_SIZE)
       (k + KSTACKSIZE - TF_SIZE - 4 - CONTEXT_SIZE) (p_chan p) (p_killed p) (p_ofile p) (p_name p).

Lemma scan_unused_wp c L w s Q :
  length (k_proc s) = NPROC →
  (∀ i, first_unused (k_proc s) i → Q (Some i) (Kst c L w s)) →
  ((∀ j p, k_proc s !! j = Some p → p_state p ≠ UNUSED) → Q None (Kst c L w s)) →
  wp (for_find (seq 0 NPROC) (λ i,
    p ← pget i; mret (if bool_decide (p_state p = UNUSED) then Some i else None))) Q (Kst c L w s).
Proof.
  intros Hl HQ1 HQ0. rewrite -(list_fmap_id (seq 0 NPROC)).
  apply (wp_find_seq _ _ _ (λ t σ, σ = Kst c L w s ∧
    ∀ j p, (j < t)%nat → k_proc s !! j = Some p → p_state p ≠ UNUSED)).
  - split; [done|lia].
  - intros t σ Ht [-> Hno]. destruct (lookup_lt_is_Some_2 (k_proc s) t) as [p Hp]; [lia|].
    apply wp_bind. eapply wp_pget; [done|]. apply wp_ret. case_bool_decide as Hs.
    + apply HQ1. split; [eauto|done].
    + split; [done|]. intros j q Hj Hq. destruct (decide (j = t)) as [->|]; [naive_solver|].
      apply (Hno j q); [lia|done].
  - intros σ [-> Hno]. apply HQ0. intros j q Hq. apply (Hno j q); [|done]. apply lookup_lt_Some in Hq. lia.
Qed.

(** Stores into the allocated page [v]. *)
Lemma wr_bytes_wp l c L w m v o x Q :
  kmem_ok kend l m → page_addr kend v → v ∉ l → 0 ≤ o < PGSIZE → o + length x ≤ PGSIZE → Forall is_byte x →
  (∀ m' (pg : page), kmem_ok kend l m' → ram m !! pn v = Some pg → ram m' = <[pn v := blit (Z.to_nat o) x pg]> (ram m) →
     Q tt (Kst c L w m')) → wp (wr_bytes (v + o) x) Q (Kst c L w m).
Proof.
  intros Hk Hv Hl Ho Hx Hb HQ. destruct (in_page kend Hend v o Hv Ho) as [Hpn Hpo].
  destruct (km_ram _ _ _ Hk v Hv) as (p&Hp&Hlp&Hbp). rewrite /wr_bytes.
  apply wp_bind. eapply wp_get_page; [by rewrite /= Hpn|]. apply wp_modify. kst_simpl. rewrite Hpn Hpo.
  eapply HQ; [|exact Hp|done]. apply (kmem_ok_put kend Hend l m v); [done|done|done| |].
  - rewrite length_blit //. lia.
  - apply Forall_app. split; [by apply Forall_take|]. apply Forall_app. split; [done|by apply Forall_drop].
Qed.

Lemma wr32_wp l c L w m v o x Q :
  kmem_ok kend l m → page_addr kend v → v ∉ l → 0 ≤ o → o + 4 ≤ PGSIZE →
  (∀ m' (pg : page), kmem_ok kend l m' → ram m !! pn v = Some pg → ram m' = <[pn v := blit (Z.to_nat o) (le_bytes 4 (u32 x)) pg]> (ram m) →
     Q tt (Kst c L w m')) → wp (wr32 (v + o) x) Q (Kst c L w m).
Proof.
  intros Hk Hv Hl Ho Hx HQ. eapply (wr_bytes_wp l c L w m v o (le_bytes 4 (u32 x)));
    [done|done|done|lia|rewrite length_le_bytes; lia|auto with xv6|done].
Qed.

Lemma wp_vm_keep {A} (m : K vmem A) c L w s Q :
  sys_ok c s → (∀ c' w', cpu_ok c' →
    wp m (λ a τ, ∃ v, τ = Kst c' L w' v ∧ Q a (Kst c L w (set_kvm v s))) (Kst c' L w' (k_vm s))) →
  wp (vm m) Q (Kst c L w s).
Proof. intros [] Hm. by apply wp_vm. Qed.

(** The kernel stack at [k] of a new process, from the top: the trap frame, the
    return address [trapret], and the context with which the scheduler starts
    the process at [forkret].  No other page changed. *)
Record stack_built (k : Z) (m m' : vmem) : Prop := {
  sb_ret : word (ram m') (k + KSTACKSIZE - TF_SIZE - 4) = u32 trapret_addr;
  sb_eip : word (ram m') (k + KSTACKSIZE - TF_SIZE - 4 - CONTEXT_SIZE + CONTEXT_eip) = u32 forkret_addr;
  sb_regs : ∀ j, 0 ≤ j < 4 → word (ram m') (k + KSTACKSIZE - TF_SIZE - 4 - CONTEXT_SIZE + 4 * j) = 0;
  sb_frame : ∀ n, n ≠ pn k → ram m' !! n = ram m !! n
}.

Lemma slice_blit_in (o n off : nat) (x p : list Z) : (off ≤ o)%nat → (o + n ≤ off + length x)%nat → (off + length x ≤ length p)%nat →
  slice o n (blit off x p) = slice (o - off) n x.
Proof.
  intros H1 H2 H3. apply list_eq. intros j. destruct (decide (j < n)%nat) as [Hj|Hj].
  - rewrite !lookup_slice // lookup_blit_in; [lia|lia|]. f_equal. lia.
  - rewrite !lookup_ge_None_2 // length_slice ?length_blit //; lia.
Qed.

Lemma stack_words k m m' (p : page) : page_addr kend k → length p = Z.to_nat PGSIZE →
  ram m' = <[pn k := blit (Z.to_nat 4012) (le_bytes 4 (u32 forkret_addr)) (blit (Z.to_nat 3996) (replicate 20 0) (blit (Z.to_nat 4016) (le_bytes 4 (u32 trapret_addr)) p))]> (ram m) →
  stack_built k m m'.
Proof.
  intros Hk Hp Hm. assert (length p = Z.to_nat 4096) as Hl by done.
  set (p1 := blit (Z.to_nat 4016) _ p) in Hm. assert (length p1 = Z.to_nat 4096) as Hl1 by (rewrite /p1 length_blit ?length_le_bytes Hl; lia).
  set (p2 := blit (Z.to_nat 3996) _ p1) in Hm. assert (length p2 = Z.to_nat 4096) as Hl2 by (rewrite /p2 length_blit ?length_replicate Hl1; lia).
  assert (∀ o, 0 ≤ o < PGSIZE → word (ram m') (k + o) = le_val (slice (Z.to_nat o) 4 (blit (Z.to_nat 4012) (le_bytes 4 (u32 forkret_addr)) p2))) as Hw.
  { intros o Ho. destruct (in_page kend Hend k o Hk Ho) as [Hpn Hpo]. by rewrite /word Hpn Hpo Hm lookup_insert_eq. }
  split.
  - rewrite (_ : k + KSTACKSIZE - TF_SIZE - 4 = k + 4016); [unfold KSTACKSIZE, TF_SIZE; lia|]. rewrite Hw; [done|].
    rewrite slice_blit_after ?length_le_bytes; [rewrite Hl2; lia|lia|]. rewrite /p2 slice_blit_after ?length_replicate; [rewrite Hl1; lia|lia|].
    rewrite /p1 slice_blit_eq ?length_le_bytes //; [rewrite Hl; lia|]. rewrite le_val_bytes_id //. apply u32_range.
  - rewrite (_ : k + KSTACKSIZE - TF_SIZE - 4 - CONTEXT_SIZE + CONTEXT_eip = k + 4012).
    { unfold KSTACKSIZE, TF_SIZE, CONTEXT_SIZE, CONTEXT_eip. lia. }
    rewrite Hw; [done|]. rewrite slice_blit_eq ?length_le_bytes //; [rewrite Hl2; lia|]. rewrite le_val_bytes_id //. apply u32_range.
  - intros j Hj. rewrite (_ : k + KSTACKSIZE - TF_SIZE - 4 - CONTEXT_SIZE + 4 * j = k + (3996 + 4 * j)).
    { unfold KSTACKSIZE, TF_SIZE, CONTEXT_SIZE. lia. }
    rewrite Hw; [unfold PGSIZE; lia|]. rewrite slice_blit_before ?length_le_bytes; [rewrite Hl2; lia|lia|].
    rewrite /p2 slice_blit_in ?length_replicate; [lia|lia|rewrite Hl1; lia|].
    rewrite /slice drop_replicate take_replicate. by rewrite (_ : (_ `min` _)%nat = 4%nat); [lia|].
  - intros n Hn. by rewrite Hm lookup_insert_ne.
Qed.

(** Setting up the kernel stack of slot [i]. *)
Lemma kstack_wp l c w s i p k Q :
  sys_ok c s → k_proc s !! i = Some p → k_cur s ≠ Some i → p_state p = EMBRYO →
  kmem_ok kend l (k_vm s) → page_addr kend k → k ∉ l → p_kstack p = k →
  (∀ m, kmem_ok kend l m → stack_built k (k_vm s) m →
     Q (Some i) (Kst c ∅ w (set_kvm m (put_proc i (embryo (p_pid p) k p) s)))) →
  let sp := k + KSTACKSIZE - TF_SIZE in
  let sp' := sp - 4 - CONTEXT_SIZE in
  wp (pset i (set_tf sp);;
      vm (wr32 (sp - 4) trapret_addr);;
      pset i (set_context sp');;
      vm (wr_bytes sp' (replicate (Z.to_nat CONTEXT_SIZE) 0));;
      vm (wr32 (sp' + CONTEXT_eip) forkret_addr);;
      mret (Some i)) Q (Kst c ∅ w s).
Proof.
  intros Hok Hp Hne Hst Hk Hka Hkl Hks HQ sp sp'.
  apply wp_bind. eapply wp_pput; [done|]. set (p1 := set_tf sp p).
  assert (sys_ok c (put_proc i p1 s)) as Hok1 by (eapply sys_ok_put; [done|done|done|by rewrite /= Hst]).
  apply wp_bind, wp_vm_keep; [done|]. intros c' w' Hc'. cbn [k_vm put_proc set_kproc].
  replace (sp - 4) with (k + (KSTACKSIZE - TF_SIZE - 4)) by (subst sp; lia).
  eapply wr32_wp; [exact Hk|done|done|done|done|]. intros m1 pg1 Hk1 Hpg1 Em1. exists m1. split; [done|].
  set (s1 := set_kvm m1 _). assert (sys_ok c s1) as Hok1' by by apply sys_ok_vm.
  assert (k_proc s1 !! i = Some p1) as Hp1 by exact (put_proc_get _ _ _ _ Hp).
  apply wp_bind. eapply wp_pput; [exact Hp1|]. set (p2 := set_context sp' p1).
  assert (sys_ok c (put_proc i p2 s1)) as Hok2 by (eapply sys_ok_put; [done|exact Hp1|done|by rewrite /= Hst]).
  apply wp_bind, wp_vm_keep; [done|]. intros c2 w2 Hc2. cbn [k_vm put_proc set_kproc].
  replace sp' with (k + (KSTACKSIZE - TF_SIZE - 4 - CONTEXT_SIZE)) by (subst sp' sp; lia).
  eapply wr_bytes_wp; [exact Hk1|done|done|done|done| |].
  { by apply Forall_replicate. }
  intros m2 pg2 Hk2 Hpg2 Em2. exists m2. split; [done|]. set (s2 := set_kvm m2 _).
  assert (sys_ok c s2) as Hok3 by by apply sys_ok_vm.
  apply wp_bind, wp_vm_keep; [done|]. intros c3 w3 Hc3. rewrite -Z.add_assoc.
  eapply wr32_wp; [exact Hk2|done|done|done|done|]. intros m3 pg3 Hk3 Hpg3 Em3. exists m3. split; [done|].
  apply wp_ret. replace (set_kvm m3 s2) with (set_kvm m3 (put_proc i (embryo (p_pid p) k p) s)).
  { apply HQ; [done|]. cbn [k_vm set_kvm put_proc set_kproc s2 s1] in *. rewrite Em1 lookup_insert_eq in Hpg2. injection Hpg2 as <-.
    rewrite Em2 lookup_insert_eq in Hpg3. injection Hpg3 as <-. apply (stack_words k _ _ pg1); [done| |].
    - destruct (km_ram _ _ _ Hk k Hka) as (p'&Hp'&Hlp&_). rewrite Hpg1 in Hp'. injection Hp' as <-. exact Hlp.
    - rewrite Em3 Em2 Em1 !insert_insert_eq //. }
  rewrite /s2 /s1 /set_kvm /put_proc /set_kproc /= list_insert_insert_eq. do 2 f_equal.
  by rewrite /p2 /p1 /embryo /set_context /set_tf /= Hst Hks.
Qed.

(** A slot whose kernel stack could not be allocated. *)
Definition no_stack (n : Z) p : proc := set_state UNUSED (set_kstack 0 (set_pid n (set_state EMBRYO p))).

Lemma allocproc_wp l c w s Q :
  sys_ok c s → kmem_ok kend l (k_vm s) → 0 ≤ k_nextpid s < 2 ^ 31 - 1 →
  ((∀ j p, k_proc s !! j = Some p → p_state p ≠ UNUSED) → Q None (Kst c ∅ w s)) →
  (∀ i p, first_unused (k_proc s) i → k_proc s !! i = Some p → l = [] →
     Q None (Kst c ∅ w (set_knextpid (k_nextpid s + 1) (put_proc i (no_stack (k_nextpid s) p) s)))) →
  (∀ i p k l' m, first_unused (k_proc s) i → k_proc s !! i = Some p → l = k :: l' → kmem_ok kend l' m → stack_built k (k_vm s) m →
     Q (Some i) (Kst c ∅ w (set_kvm m (set_knextpid (k_nextpid s + 1) (put_proc i (embryo (k_nextpid s) k p) s))))) →
  wp (allocproc trapret_addr forkret_addr) Q (Kst c ∅ w s).
Proof.
  intros Hok Hk Hn HQ0 HQ1 HQ2. pose proof (sk_cpu _ _ Hok) as Hc.
  apply wp_bind, wp_acquire; [done|done|]. apply wp_bind, scan_unused_wp; [apply Hok| |].
  2:{ intros Hno. apply wp_bind, wp_release_last; [done|done|]. by apply wp_ret, HQ0. }
  intros i Hfirst. pose proof Hfirst as [(p&Hp&Hs) _].
  assert (k_cur s ≠ Some i) as Hne by (eapply unused_not_cur; [done|done|by rewrite Hs]).
  apply wp_bind. eapply wp_pput; [done|]. apply wp_bind, wp_gets. cbn [kdata k_nextpid put_proc set_kproc].
  apply wp_bind. eapply wp_pput; [by eapply put_proc_get|]. rewrite put_proc_put.
  apply wp_bind, wp_modify. kst_simpl. rewrite s32_small; [lia|].
  apply wp_bind, wp_release_last; [done|done|].
  set (p1 := set_pid (k_nextpid s) (set_state EMBRYO p)). set (s1 := set_knextpid _ _).
  assert (sys_ok c s1) as Hok1.
  { assert (sys_ok c (put_proc i p1 s)) as [] by by eapply sys_ok_put. by split. }
  assert (k_proc s1 !! i = Some p1) as Hp1 by exact (put_proc_get _ _ _ _ Hp).
  apply wp_bind, wp_vm_keep; [done|]. intros c' w' Hc'. eapply (kalloc_wp kend Hend); [done|done|exact Hk|..].
  - intros ->. exists (k_vm s1). split; [done|]. replace (set_kvm (k_vm s1) s1) with s1 by by destruct s.
    apply wp_bind. eapply wp_pput; [exact Hp1|]. apply wp_bind. eapply wp_pput; [by eapply put_proc_get|].
    apply wp_ret. rewrite put_proc_put.
    replace (put_proc i _ s1) with (set_knextpid (k_nextpid s + 1) (put_proc i (no_stack (k_nextpid s) p) s)).
    + by apply HQ1.
    + rewrite /s1 /put_proc /set_kproc /set_knextpid /= list_insert_insert_eq //.
  - intros k l' m -> Hk' Hka Hkl Em. exists m. split; [done|]. set (s2 := set_kvm m s1).
    assert (sys_ok c s2) as Hok2 by by apply sys_ok_vm.
    assert (k_proc s2 !! i = Some p1) as Hp2 by exact Hp1.
    apply wp_bind. eapply wp_pput; [exact Hp2|].
    rewrite (proj2 (Z.eqb_neq k 0)); [by apply (page_addr_nonzero kend Hend)|].
    assert (sys_ok c (put_proc i (set_kstack k p1) s2)) as Hok3 by (eapply sys_ok_put; [done|exact Hp2|done|done]).
    eapply (kstack_wp l'); [exact Hok3|exact (put_proc_get _ _ _ _ Hp2)|done|done|exact Hk'|done|done|done|].
    intros m' Hm' Hsb. rewrite put_proc_put.
    replace (set_kvm m' _) with (set_kvm m' (set_knextpid (k_nextpid s + 1) (put_proc i (embryo (k_nextpid s) k p) s))).
    + eapply HQ2; [done|done|done|done|]. cbn in Hsb. rewrite Em in Hsb. destruct Hsb. by split.
    + rewrite /s2 /s1 /put_proc /set_kproc /set_knextpid /set_kvm /= list_insert_insert_eq //.
Qed.

(** ** [kill] *)

Definition killed_proc p : proc :=
  let p := set_killed 1 p in if bool_decide (p_state p = SLEEPING) then set_state RUNNABLE p else p.

Lemma kill_wp c w s pid Q :
  cpu_ok c → length (k_proc s) = NPROC →
  (∀ i p, k_proc s !! i = Some p → p_pid p = pid →
     (∀ j q, (j < i)%nat → k_proc s !! j = Some q → p_pid q ≠ pid) →
     Q 0 (Kst c ∅ w (put_proc i (killed_proc p) s))) →
  ((∀ j q, k_proc s !! j = Some q → p_pid q ≠ pid) → Q (-1) (Kst c ∅ w s)) →
  wp (kill pid) Q (Kst c ∅ w s).
Proof.
  intros Hc Hl HQ1 HQ0. apply wp_bind, wp_acquire; [done|done|]. apply wp_bind.
  rewrite -(list_fmap_id (seq 0 NPROC)).
  apply (wp_find_seq _ _ _ (λ t σ, σ = Kst (pushed c) (<[Lptable := apicid c]> ∅) w s ∧
    ∀ j q, (j < t)%nat → k_proc s !! j = Some q → p_pid q ≠ pid)).
  - split; [done|lia].
  - intros t σ Ht [-> Hno]. destruct (lookup_lt_is_Some_2 (k_proc s) t) as [p Hp]; [lia|].
    apply wp_bind. eapply wp_pget; [done|]. destruct (p_pid p =? pid) eqn:E; breflect.
    + apply wp_bind. eapply wp_pput; [done|]. apply wp_bind.
      assert (∀ Q', Q' tt (Kst (pushed c) (<[Lptable := apicid c]> ∅) w (put_proc t (killed_proc p) s)) →
        wp (if bool_decide (p_state p = SLEEPING) then pset t (set_state RUNNABLE) else mret ()) Q'
           (Kst (pushed c) (<[Lptable := apicid c]> ∅) w (put_proc t (set_killed 1 p) s))) as Hmark.
      { intros Q' HQ'. rewrite /killed_proc /= in HQ'. case_bool_decide; [|done].
        eapply wp_pput; [by eapply put_proc_get|]. by rewrite put_proc_put. }
      apply Hmark. apply wp_bind, wp_release_last; [done|done|]. apply wp_ret, wp_ret. by eapply HQ1.
    + apply wp_ret. split; [done|]. intros j q Hj Hq. destruct (decide (j = t)) as [->|]; [naive_solver|].
      apply (Hno j q); [lia|done].
  - intros σ [-> Hno]. apply wp_bind, wp_release_last; [done|done|]. apply wp_ret, HQ0.
    intros j q Hq. apply (Hno j q); [|done]. apply lookup_lt_Some in Hq. lia.
Qed.
End ProcSpec.

(** ** [wait], [exit] and the scheduler

    [wait] frees everything an exited child owned; the children of an exiting
    process are passed to init; the scheduler runs a process only with
    [ptable.lock] held and the process marked RUNNING. *)

Section ProcWait.
Context (kend : Z) (Hkend : KERNBASE < kend).
Implicit Types (c : cpu) (L : gmap lockid Z) (w : gmap Z chan) (s : sys) (i j : nat) (p q : proc).

Lemma sys_ok_pushed c s : sys_ok c s → sys_ok (pushed c) s.
Proof. intros []. split; try done. by apply pushed_ok. Qed.

(** Freeing an allocated page that is not part of the page table. *)
Lemma kfree_data_wp l c L w m pgdir v Q :
  cpu_ok c → L !! Lkmem = None → vm_ok kend l m pgdir → data_page kend l (ram m) pgdir v →
  (∀ n, 0 ≤ n < NU → ppage (ram m) pgdir n ≠ Some v) →
  (∀ m', vm_ok kend (v :: l) m' pgdir → (∀ x, owned (ram m') pgdir x ↔ owned (ram m) pgdir x) →
     Q tt (Kst c L w m')) →
  wp (kfree kend v) Q (Kst c L w m).
Proof.
  intros Hc HL (Hk&Hpt&Hu) Hd Hno HQ. pose proof Hd as (Hva&Hvl&_).
  eapply (kfree_wp kend (Hend kend Hkend)); [done|done|exact Hk|done|done|]. intros m' Hk' Hm'.
  assert (ram m' = <[pn v := run_page (freelist m)]> (ram m)) as Hr by by rewrite Hm'.
  assert (∀ n, 0 ≤ n < 2 ^ 20 → pte_at (ram m') pgdir n = pte_at (ram m) pgdir n) as Hpte.
  { intros n Hn. rewrite Hr. by eapply (put_pte kend Hkend). }
  assert (∀ d, 0 ≤ d < 1024 → ptab (ram m') pgdir d = ptab (ram m) pgdir d) as Htab.
  { intros d Hd'. rewrite Hr. by eapply (put_ptab kend Hkend). }
  apply HQ.
  - split; [done|]. split; [rewrite Hr; by apply (put_free_pt_ok kend Hkend)|].
    eapply user_ok_same; [exact Hu|done|]. intros n x Hn Hx.
    destruct (uo_data _ _ _ _ Hu n x Hn Hx) as (?&?&?&Hnt). split_and!; [done| |done|].
    + apply not_elem_of_cons. split; [|done]. intros ->. by apply (Hno n).
    + intros d Hd'. rewrite Htab //. by apply Hnt.
  - intros x. rewrite /owned. apply or_iff_compat_l.
    assert (∀ n, 0 ≤ n < NU → ppage (ram m') pgdir n = ppage (ram m) pgdir n) as Hpp.
    { intros n Hn. rewrite /ppage Hpte //. by apply ppage_small. }
    split; (intros [(d&Hd'&Ht)|(n&Hn&Hx)]; [left; exists d|right; exists n]; (split; [done|])).
    + by rewrite -Htab. + by rewrite -Hpp. + by rewrite Htab. + by rewrite Hpp.
Qed.

(** ** The scan of [wait] *)

Definition kid i p : bool := bool_decide (p_parent p = Some i).
Definition dead_kid i p : bool := kid i p && bool_decide (p_state p = ZOMBIE).

(** Slots without an exited child are skipped. *)
Lemma wait_scan_skip i c L w s l rest hk :
  (∀ j, j ∈ l → ∃ p, k_proc s !! j = Some p ∧ dead_kid i p = false) →
  wait_scan kend i (l ++ rest) hk (Kst c L w s) =
    wait_scan kend i rest (hk || existsb (λ j, from_option (kid i) false (k_proc s !! j)) l) (Kst c L w s).
Proof.
  revert hk. induction l as [|j l IH]; intros hk Hl; [by rewrite /= orb_false_r|].
  destruct (Hl j) as (p&Hp&Hd); [left|]. cbn [app wait_scan existsb]. rewrite Hp /=.
  rewrite (wp_eq_run _ _ _ p (Kst c L w s)); [by eapply wp_pget|].
  rewrite /dead_kid in Hd. fold (kid i p). destruct (kid i p); cbn [negb].
  - simpl in Hd. rewrite Hd IH; [set_solver|]. simpl. by rewrite orb_true_r.
  - rewrite IH; [set_solver|]. done.
Qed.

(** A slot after its process was reaped. *)
Definition reaped p : proc :=
  Proc (p_sz p) (p_pgdir p) 0 UNUSED 0 None (p_tf p) (p_context p) (p_chan p) 0 (p_ofile p)
       (<[0%nat := 0]> (p_name p)).

Lemma wait_scan_reap i j rest hk c w s l p Q :
  let L := <[Lptable := apicid c]> (∅ : gmap lockid Z) in
  sys_ok c s → k_cur s = Some i → k_proc s !! j = Some p → dead_kid i p = true →
  vm_ok kend l (k_vm s) (p_pgdir p) → data_page kend l (ram (k_vm s)) (p_pgdir p) (p_kstack p) →
  (∀ n, 0 ≤ n < NU → ppage (ram (k_vm s)) (p_pgdir p) n ≠ Some (p_kstack p)) →
  (∀ l' m, kmem_ok kend l' m →
     (∀ v, v ∈ l' ↔ v ∈ l ∨ v = p_kstack p ∨ owned (ram (k_vm s)) (p_pgdir p) v) →
     Q (Some (p_pid p), true) (Kst (pushed c) L w (set_kvm m (put_proc j (reaped p) s)))) →
  wp (wait_scan kend i (j :: rest) hk) Q (Kst (pushed c) L w s).
Proof.
  intros L Hok Hcur Hp Hd Hv Hks Hno HQ. rewrite /dead_kid in Hd. apply andb_true_iff in Hd as [Hkid Hz].
  pose proof (sys_ok_pushed _ _ Hok) as Hokp. pose proof (sk_cpu _ _ Hokp) as Hcp.
  assert (k_cur s ≠ Some j) as Hne.
  { eapply unused_not_cur; [done|done|]. apply bool_decide_eq_true in Hz. by rewrite Hz. }
  cbn [wait_scan]. apply wp_bind. eapply wp_pget; [done|]. fold (kid i p). rewrite Hkid Hz. cbn [negb].
  apply wp_bind, wp_vm_keep; [done|]. intros cw1 w1 Hcw1.
  eapply kfree_data_wp; [done|by rewrite /L lookup_insert_ne|exact Hv|done|done|].
  intros m1 Hv1 Hown1. exists m1. split; [done|]. set (s1 := set_kvm m1 s).
  apply wp_bind. eapply wp_pput; [exact Hp|].
  assert (sys_ok (pushed c) (put_proc j (set_kstack 0 p) s1)) as Hok2.
  { eapply sys_ok_put; [by apply sys_ok_vm|exact Hp|done|].
    apply bool_decide_eq_true in Hz. by rewrite /= Hz. }
  apply wp_bind, wp_vm_keep; [exact Hok2|]. intros cw2 w2 Hcw2.
  eapply (freevm_wp kend Hkend); [done|by rewrite /L lookup_insert_ne|exact Hv1|].
  intros l' m2 Hk2 Hl2. exists m2. split; [done|]. set (s2 := set_kvm m2 _).
  assert (k_proc s2 !! j = Some (set_kstack 0 p)) as Hp2 by exact (put_proc_get _ _ _ _ Hp).
  do 5 (apply wp_bind; eapply wp_pput; [first [exact Hp2|by eapply put_proc_get]|]; rewrite ?put_proc_put).
  apply wp_ret.
  replace (put_proc j _ s2) with (set_kvm m2 (put_proc j (reaped p) s)).
  - eapply HQ; [exact Hk2|]. intros v. rewrite Hl2 elem_of_cons Hown1. tauto.
  - rewrite /s2 /s1 /put_proc /set_kproc /set_kvm /= list_insert_insert_eq //.
Qed.

(** C29: [wait] with an exited child: it returns the child's pid, makes its slot
    unused and leaves the other slots alone, and the free list gains exactly
    the kernel stack and all pages of the child's page table. *)
Theorem wait_reaps i j c w s l p :
  sys_ok c s → k_cur s = Some i → k_proc s !! j = Some p → dead_kid i p = true →
  (∀ j' q, (j' < j)%nat → k_proc s !! j' = Some q → dead_kid i q = false) →
  vm_ok kend l (k_vm s) (p_pgdir p) → data_page kend l (ram (k_vm s)) (p_pgdir p) (p_kstack p) →
  (∀ n, 0 ≤ n < NU → ppage (ram (k_vm s)) (p_pgdir p) n ≠ Some (p_kstack p)) →
  ∃ l' s', wait kend (Kst c ∅ w s) = Ret (p_pid p) (Kst c ∅ w s') ∧
    k_proc s' = <[j := reaped p]> (k_proc s) ∧ kmem_ok kend l' (k_vm s') ∧
    ∀ v, v ∈ l' ↔ v ∈ l ∨ v = p_kstack p ∨ owned (ram (k_vm s)) (p_pgdir p) v.
Proof.
  intros Hok Hcur Hp Hd Hfirst Hv Hks Hno.
  destruct (wp_inv (wait kend) (λ r σ, ∃ l' s', r = p_pid p ∧ σ = Kst c ∅ w s' ∧
    k_proc s' = <[j := reaped p]> (k_proc s) ∧ kmem_ok kend l' (k_vm s') ∧
    ∀ v, v ∈ l' ↔ v ∈ l ∨ v = p_kstack p ∨ owned (ram (k_vm s)) (p_pgdir p) v) (Kst c ∅ w s))
    as (r&σ&E&l'&s'&->&->&?&?&?); [|by exists l', s'].
  rewrite /wait. pose proof (sk_cpu _ _ Hok) as Hc. apply wp_bind. eapply wp_curproc; [done|done|].
  apply wp_bind, wp_acquire; [done|done|]. apply wp_bind.
  pose proof (lookup_lt_Some _ _ _ Hp) as Hlt. rewrite (sk_len _ _ Hok) in Hlt.
  replace NPROC with (j + S (NPROC - S j))%nat at 1 by lia. rewrite seq_app. cbn [seq Nat.add].
  rewrite /wp wait_scan_skip.
  { intros k Hk%elem_of_seq. destruct (lookup_lt_is_Some_2 (k_proc s) k) as [q Hq].
    - rewrite (sk_len _ _ Hok). lia.
    - exists q. split; [done|]. apply (Hfirst k q); [lia|done]. }
  eapply (wait_scan_reap i j); [done|done|done|done|exact Hv|done|done|].
  intros l' m Hk' Hl'. apply wp_bind, wp_release_last; [done|done|]. apply wp_ret.
  by exists l', (set_kvm m (put_proc j (reaped p) s)).
Qed.

(** C30: [wait] without an exited child: it returns -1 when the process has no
    children or was killed, and otherwise sleeps on its own process structure,
    which is the channel [exit] of a child wakes, holding no lock but
    [ptable.lock]. *)
Theorem wait_blocks i c w s p :
  sys_ok c s → ncli c = 0 → k_cur s = Some i → k_proc s !! i = Some p →
  (∀ j q, k_proc s !! j = Some q → dead_kid i q = false) →
  wait kend (Kst c ∅ w s) =
    if negb (existsb (kid i) (k_proc s)) || negb (p_killed p =? 0) then Ret (-1) (Kst c ∅ w s)
    else Switch (Kst (pushed c) {[Lptable := apicid c]} w (asleep i (CProc i) s)).
Proof.
  intros Hok Hn Hcur Hp Hno. pose proof (sk_cpu _ _ Hok) as Hc. rewrite /wait.
  set (L := {[Lptable := apicid c]} : gmap lockid Z).
  rewrite (wp_eq_run _ _ _ i (Kst c ∅ w s)); [by eapply wp_curproc|].
  rewrite (bind_ret _ _ _ _ _ (acquire_run Lptable c ∅ w s Hc (lookup_empty _))). fold L.
  rewrite (bind_ret _ _ _ (None, existsb (kid i) (k_proc s)) (Kst (pushed c) L w s)).
  { rewrite -(app_nil_r (seq 0 NPROC)) wait_scan_skip.
    - intros j Hj%elem_of_seq. destruct (lookup_lt_is_Some_2 (k_proc s) j) as [q Hq];
        [rewrite (sk_len _ _ Hok); lia|]. exists q. split; [done|]. by apply (Hno j).
    - cbn [wait_scan orb]. rewrite /mret /K_ret. do 2 f_equal. rewrite -(sk_len _ _ Hok).
      clear. generalize (k_proc s) as l. intros l. induction l as [|q l IH]; [done|]. cbn [length seq existsb].
      cbn [lookup list_lookup from_option]. f_equal. rewrite -IH -fmap_S_seq. clear.
      generalize (seq 0 (length l)). intros k. by induction k as [|x k IH]; [done|]; cbn; rewrite IH. }
  rewrite (wp_eq_run _ _ _ p (Kst (pushed c) L w s)); [by eapply wp_pget|].
  destruct (_ || _).
  - rewrite (wp_eq_run _ _ _ tt (Kst c ∅ w s)) //. by apply wp_release_last.
  - rewrite /sleep. pose proof (pushed_ok c Hc) as Hcp.
    rewrite (wp_eq_run _ _ _ (Some i) (Kst (pushed c) L w s)).
    { apply wp_myproc; [done|]. by rewrite Hcur. }
    rewrite /sleep_stmts bool_decide_eq_true_2 //. rewrite (bind_ret _ _ _ _ _ (mark_run i (CProc i) _ _ w s p Hp)).
    apply (sched_switch c _ w (asleep i (CProc i) s) i (set_state SLEEPING (set_chan (Some (CProc i)) p)));
      [done|done|by rewrite lookup_singleton_eq|done| |done]. by rewrite /asleep /= list_lookup_alter_eq Hp.
Qed.

(** ** The children of an exiting process *)

Definition reparent i (init : option nat) p : proc :=
  if bool_decide (p_parent p = Some i) then set_parent init p else p.

Definition wake_if (b : bool) (z : nat) p : proc := if b then wake (CProc z) p else p.

Lemma wake_if_parent b z p : p_parent (wake_if b z p) = p_parent p.
Proof. rewrite /wake_if /wake. destruct b; [|done]. by destruct (_ && _). Qed.

Lemma wake_if_zombie b z p : p_state (wake_if b z p) = ZOMBIE ↔ p_state p = ZOMBIE.
Proof.
  rewrite /wake_if /wake. destruct b; [|done]. do 2 (case_bool_decide; simpl; [|done]). split; [done|congruence].
Qed.

Lemma wake_if_set b z o p : wake_if b z (set_parent o p) = set_parent o (wake_if b z p).
Proof. rewrite /wake_if /wake /=. destruct b; [|done]. by destruct (_ && _). Qed.

Lemma wake_twice b z p : wake (CProc z) (wake_if b z p) = wake_if true z p.
Proof.
  rewrite /wake_if. destruct b; [|done]. rewrite /wake.
  destruct (bool_decide (p_state p = SLEEPING)) eqn:E1; simpl; [|by rewrite E1].
  destruct (bool_decide (p_chan p = _)) eqn:E2; simpl; [|by rewrite E1 E2]. done.
Qed.

Lemma exit_children_wp i z c L w s Q :
  length (k_proc s) = NPROC → k_initproc s = Some z →
  Q tt (Kst c L w (set_kproc (wake_if (existsb (dead_kid i) (k_proc s)) z <$> (reparent i (Some z) <$> k_proc s)) s)) →
  wp (exit_children i) Q (Kst c L w s).
Proof.
  intros Hl Hz HQ. set (l := k_proc s) in *.
  set (st t b := set_kproc (wake_if b z <$> ((reparent i (Some z) <$> take t l) ++ drop t l)) s).
  apply (wp_for_seq _ _ (λ t σ, σ = Kst c L w (st t (existsb (dead_kid i) (take t l))))).
  - rewrite take_0 /st /= drop_0 list_fmap_id. by destruct s.
  - intros t σ Ht ->. destruct (lookup_lt_is_Some_2 l t) as [p Hp]; [lia|].
    rewrite (take_S_r _ _ p) // existsb_app /= orb_false_r. set (b := existsb _ (take t l)).
    assert (length (reparent i (Some z) <$> take t l) = t) as Hlen by (rewrite length_fmap length_take; lia).
    assert (k_proc (st t b) !! t = Some (wake_if b z p)) as Hpt.
    { rewrite /st /= list_lookup_fmap lookup_app_r ?Hlen // Nat.sub_diag lookup_drop Nat.add_0_r Hp //. }
    apply wp_bind. eapply wp_pget; [exact Hpt|]. rewrite wake_if_parent.
    assert (∀ x, x = reparent i (Some z) p → put_proc t (wake_if b z x) (st t b) = st (S t) b) as Hst.
    { intros x ->. rewrite /put_proc /st /set_kproc /=. f_equal.
      rewrite (take_S_r _ _ p) // (drop_S _ p) // !fmap_app /= -app_assoc /=.
      rewrite insert_app_r_alt length_fmap Hlen // Nat.sub_diag //. }
    rewrite /dead_kid /kid. case_bool_decide as Hk; simpl.
    + apply wp_bind, wp_gets. cbn [kdata k_initproc st set_kproc]. rewrite Hz.
      apply wp_bind. eapply wp_pput; [exact Hpt|]. rewrite -wake_if_set Hst; [by rewrite /reparent bool_decide_eq_true_2|].
      rewrite (bool_decide_ext _ _ (wake_if_zombie b z p)). case_bool_decide as Hzo; simpl.
      * rewrite orb_true_r. apply wp_wakeup1; [rewrite /st /= length_fmap length_app length_fmap length_take length_drop; lia|].
        f_equal. rewrite /st /set_kproc /=. f_equal. rewrite -list_fmap_compose. apply list_fmap_ext.
        intros k x _. apply wake_twice.
      * by rewrite orb_false_r.
    + rewrite orb_false_r. apply wp_ret. rewrite -(Hst p); [by rewrite /reparent bool_decide_eq_false_2|].
      rewrite /put_proc list_insert_id //.
  - intros σ ->. rewrite /st firstn_all2 ?skipn_all2 ?app_nil_r //; lia.
Qed.
End ProcWait.
