(* ===== verification/ProcThms.v ===== *)
(** * Theorems about processes

    Allocation of process table slots, [kill], the scheduler, and growing and shrinking a process. *)

From S2P Require Import Prelude CInt CString Kernel Params Sleeplock Bio Log LogCrash Txn BlockIO Fs Kalloc Vm VmSpec VmCopy VmGrow VmThms VmFree Sys Pipe PipeSpec File Proc ProcSpec.

Section ProcThms.
Context (kend trapret_addr forkret_addr : Z) (Hkend : KERNBASE < kend).
Implicit Types (c : cpu) (L : gmap lockid Z) (w : gmap Z chan) (s : sys) (i j : nat) (p q : proc).

(** The processes in use have distinct positive pids below [nextpid]. *)
Record pid_ok (l : list proc) (n : Z) : Prop := {
  pi_range : ∀ i p, l !! i = Some p → p_state p ≠ UNUSED → 0 < p_pid p < n;
  pi_inj : ∀ i j p q, l !! i = Some p → l !! j = Some q → p_state p ≠ UNUSED → p_state q ≠ UNUSED →
    p_pid p = p_pid q → i = j
}.

Lemma pid_ok_put l n i p q :
  pid_ok l n → 0 < n → l !! i = Some q → p_state q = UNUSED → p_pid p = n →
  pid_ok (<[i := p]> l) (n + 1).
Proof.
  intros [Hr Hi] Hn Hq Hu Hp. pose proof (lookup_lt_Some _ _ _ Hq) as Hlt.
  assert (∀ j x, <[i := p]> l !! j = Some x → p_state x ≠ UNUSED →
    (j = i ∧ x = p) ∨ (j ≠ i ∧ l !! j = Some x ∧ 0 < p_pid x < n)) as Hc.
  { intros j x Hj Hx. destruct (decide (j = i)) as [->|Hne].
    - rewrite list_lookup_insert_eq // in Hj. naive_solver.
    - rewrite list_lookup_insert_ne // in Hj. right. naive_solver. }
  split.
  - intros j x Hj Hx. destruct (Hc j x Hj Hx) as [[_ ->]|(_&_&?)]; lia.
  - intros j k x y Hj Hk Hx Hy E.
    destruct (Hc j x Hj Hx) as [[-> ->]|(Hnj&Hj'&Hrj)], (Hc k y Hk Hy) as [[-> ->]|(Hnk&Hk'&Hrk)]; try lia.
    by eapply (Hi j k x y).
Qed.

(** C31: [allocproc] hands out the first unused slot, in state EMBRYO, with a pid
    no process in use has and a kernel stack on which the scheduler starts
    [forkret], which returns to [trapret].  It changes nothing else but the
    counter of pids and the free list, from which it takes the page of the
    stack.  It fails when the table is full, and then changes nothing, or when
    there is no free page, and then the slot is unused again but has got the
    pid.  The pids of the processes stay distinct. *)
Theorem allocproc_unique l c w s :
  sys_ok c s → kmem_ok kend l (k_vm s) → pid_ok (k_proc s) (k_nextpid s) → 0 < k_nextpid s < 2 ^ 31 - 1 →
  ∃ r l' s', allocproc trapret_addr forkret_addr (Kst c ∅ w s) = Ret r (Kst c ∅ w s') ∧
    sys_ok c s' ∧ kmem_ok kend l' (k_vm s') ∧ pid_ok (k_proc s') (k_nextpid s') ∧
    (∀ j p, k_proc s !! j = Some p → p_state p ≠ UNUSED → k_proc s' !! j = Some p) ∧
    match r with
    | Some i => ∃ p k, first_unused (k_proc s) i ∧ k_proc s !! i = Some p ∧ l = k :: l' ∧
                  s' = set_kvm (k_vm s') (set_knextpid (k_nextpid s + 1) (put_proc i (embryo (k_nextpid s) k p) s)) ∧
                  stack_built trapret_addr forkret_addr k (k_vm s) (k_vm s')
    | None => (∀ j p, k_proc s !! j = Some p → p_state p ≠ UNUSED) ∧ s' = s ∧ l' = l ∨
              ∃ i p, first_unused (k_proc s) i ∧ k_proc s !! i = Some p ∧ l = [] ∧ l' = [] ∧
                s' = set_knextpid (k_nextpid s + 1) (put_proc i (no_stack (k_nextpid s) p) s)
    end.
Proof.
  intros Hok Hk Hpid Hn.
  match goal with |- ∃ r l' s', _ = Ret r _ ∧ @?P r l' s' =>
    destruct (wp_inv (allocproc trapret_addr forkret_addr) (λ r σ, ∃ l' s', σ = Kst c ∅ w s' ∧ P r l' s')
      (Kst c ∅ w s)) as (r&?&E&l'&s'&->&H); [|by exists r, l', s']
  end.
  assert (∀ i p q, first_unused (k_proc s) i → k_proc s !! i = Some p →
    ∀ j x, k_proc s !! j = Some x → p_state x ≠ UNUSED → k_proc (put_proc i q s) !! j = Some x) as Hother.
  { intros i p q [(p'&Hp'&Hu) _] Hp j x Hx Hsx. rewrite put_proc_other //. intros ->. naive_solver. }
  assert (∀ i p q, first_unused (k_proc s) i → k_proc s !! i = Some p → p_state q ≠ SLEEPING →
    sys_ok c (put_proc i q s)) as Hsys.
  { intros i p q [(p'&Hp'&Hu) _] Hp Hq. eapply sys_ok_put; [done|exact Hp|eapply unused_not_cur; [done|exact Hp'|by rewrite Hu]|done]. }
  eapply (allocproc_wp kend trapret_addr forkret_addr ltac:(lia)); [done|exact Hk|lia|..].
  - intros Hno. exists l, s. split_and!; try done. by left.
  - intros i p Hfirst Hp ->. exists [], (set_knextpid (k_nextpid s + 1) (put_proc i (no_stack (k_nextpid s) p) s)).
    pose proof Hfirst as [(p'&Hp'&Hu) _]. simplify_eq. split_and!; try done.
    + assert (sys_ok c (put_proc i (no_stack (k_nextpid s) p) s)) as [] by by eapply Hsys. by split.
    + eapply pid_ok_put; [done|lia|exact Hp|done|done].
    + intros j x Hx Hsx. by eapply (Hother i p).
    + right. by exists i, p.
  - intros i p k l' m Hfirst Hp -> Hm Hsb. exists l', (set_kvm m (set_knextpid (k_nextpid s + 1) (put_proc i (embryo (k_nextpid s) k p) s))).
    pose proof Hfirst as [(p'&Hp'&Hu) _]. simplify_eq. split_and!; try done.
    + assert (sys_ok c (put_proc i (embryo (k_nextpid s) k p) s)) as [] by by eapply Hsys. by split.
    + eapply pid_ok_put; [done|lia|exact Hp|done|done].
    + intros j x Hx Hsx. by eapply (Hother i p).
    + exists p, k. by split_and!.
Qed.

(** [kill] of the pid of a process in use marks that process, makes it
    runnable if it sleeps, changes no other slot and returns 0. *)
Theorem kill_marks c w s n i p :
  sys_ok c s → pid_ok (k_proc s) n → (∀ j q, k_proc s !! j = Some q → p_state q = UNUSED → p_pid q = 0) →
  k_proc s !! i = Some p → p_state p ≠ UNUSED →
  kill (p_pid p) (Kst c ∅ w s) = Ret 0 (Kst c ∅ w (put_proc i (killed_proc p) s)).
Proof.
  intros Hok Hpid Hz Hp Hs.
  destruct (wp_inv (kill (p_pid p)) (λ r σ, r = 0 ∧ σ = Kst c ∅ w (put_proc i (killed_proc p) s)) (Kst c ∅ w s))
    as (?&?&E&->&->); [|done].
  destruct (pi_range _ _ Hpid i p Hp Hs) as [Hpos _].
  eapply kill_wp; [apply Hok|apply Hok| |].
  - intros j q Hq E _. assert (p_state q ≠ UNUSED) as Hsq. { intros Hu. specialize (Hz j q Hq Hu). lia. }
    pose proof (pi_inj _ _ Hpid j i q p Hq Hp Hsq Hs E) as ->. by simplify_eq.
  - intros Hno. by destruct (Hno i p Hp).
Qed.

(** C38: [kill(0)] matches an unused slot, whose pid is 0, and the mark survives:
    the process that is given this slot next starts out killed. *)
Theorem kill_zero_poisons l c w s i p k :
  sys_ok c s → kmem_ok kend (k :: l) (k_vm s) → 0 < k_nextpid s < 2 ^ 31 - 1 →
  k_proc s !! i = Some p → p_state p = UNUSED → p_pid p = 0 →
  (∀ j q, (j < i)%nat → k_proc s !! j = Some q → p_state q ≠ UNUSED ∧ p_pid q ≠ 0) →
  ∃ s1 s2 q, kill 0 (Kst c ∅ w s) = Ret 0 (Kst c ∅ w s1) ∧
    allocproc trapret_addr forkret_addr (Kst c ∅ w s1) = Ret (Some i) (Kst c ∅ w s2) ∧
    k_proc s2 !! i = Some q ∧ p_state q = EMBRYO ∧ p_killed q = 1.
Proof.
  intros Hok Hk Hn Hp Hu Hz Hbefore.
  assert (killed_proc p = set_killed 1 p) as Hkp by by rewrite /killed_proc /= Hu.
  destruct (wp_inv (kill 0) (λ r σ, r = 0 ∧ σ = Kst c ∅ w (put_proc i (set_killed 1 p) s)) (Kst c ∅ w s))
    as (?&?&E1&->&->).
  { eapply kill_wp; [apply Hok|apply Hok| |].
    - intros j q Hq E Hfirst. destruct (lt_eq_lt_dec j i) as [[Hlt| ->]|Hgt].
      + by destruct (Hbefore j q Hlt Hq).
      + simplify_eq. by rewrite Hkp.
      + by destruct (Hfirst i p Hgt Hp).
    - intros Hno. by destruct (Hno i p Hp). }
  set (s1 := put_proc i (set_killed 1 p) s) in *.
  assert (k_proc s1 !! i = Some (set_killed 1 p)) as Hp1 by exact (put_proc_get _ _ _ _ Hp).
  assert (sys_ok c s1) as Hok1.
  { eapply sys_ok_put; [done|exact Hp|eapply unused_not_cur; [done|exact Hp|by rewrite Hu]|by rewrite /= Hu]. }
  assert (∀ j, first_unused (k_proc s1) j → j = i) as Hone.
  { intros j [(q&Hq&Hsq) Hmin]. destruct (lt_eq_lt_dec j i) as [[Hlt| ->]|Hgt]; [|done|].
    - rewrite put_proc_other in Hq; [lia|]. by destruct (Hbefore j q Hlt Hq).
    - by destruct (Hmin i _ Hgt Hp1). }
  destruct (wp_inv (allocproc trapret_addr forkret_addr) (λ r σ, r = Some i ∧ ∃ s2 q, σ = Kst c ∅ w s2 ∧
    k_proc s2 !! i = Some q ∧ p_state q = EMBRYO ∧ p_killed q = 1) (Kst c ∅ w s1)) as (?&?&E2&->&s2&q&->&?&?&?);
    [|by exists s1, s2, q].
  eapply (allocproc_wp kend trapret_addr forkret_addr ltac:(lia)); [done|exact Hk|simpl; lia|..].
  - intros Hno. by destruct (Hno i _ Hp1).
  - done.
  - intros j q k' l' m Hfirst Hq _ _. pose proof (Hone j Hfirst) as ->. split; [done|].
    rewrite Hp1 in Hq. simplify_eq. eexists _, _. split; [done|]. split; [exact (put_proc_get _ _ _ _ Hp1)|done].
Qed.

(** The children of an exiting process are passed to init: afterwards no
    process has the exiting one as its parent, the parents of all others are
    as before, and init is woken if it waits and one of the children is a
    zombie. *)
Theorem exit_children_reparents c L w s i z :
  length (k_proc s) = NPROC → k_initproc s = Some z → i ≠ z →
  ∃ s', exit_children i (Kst c L w s) = Ret tt (Kst c L w s') ∧
    (∀ j p', k_proc s' !! j = Some p' → p_parent p' ≠ Some i) ∧
    (∀ j p, k_proc s !! j = Some p → ∃ p', k_proc s' !! j = Some p' ∧ p_pid p' = p_pid p ∧
       p_parent p' = (if bool_decide (p_parent p = Some i) then Some z else p_parent p) ∧
       (p_state p ≠ SLEEPING → p_state p' = p_state p)) ∧
    ∀ p j q, k_proc s !! z = Some p → p_state p = SLEEPING → p_chan p = Some (CProc z) →
      k_proc s !! j = Some q → p_parent q = Some i → p_state q = ZOMBIE →
      ∃ p', k_proc s' !! z = Some p' ∧ p_state p' = RUNNABLE.
Proof.
  intros Hl Hz Hne.
  set (s' := set_kproc (wake_if (existsb (dead_kid i) (k_proc s)) z <$> (reparent i (Some z) <$> k_proc s)) s).
  destruct (wp_inv (exit_children i) (λ _ σ, σ = Kst c L w s') (Kst c L w s)) as ([]&?&E&->).
  { by eapply exit_children_wp. }
  exists s'. split; [done|].
  assert (∀ j p, k_proc s !! j = Some p →
    k_proc s' !! j = Some (wake_if (existsb (dead_kid i) (k_proc s)) z (reparent i (Some z) p))) as Hj.
  { intros j p Hp. by rewrite /s' /= !list_lookup_fmap Hp. }
  split_and!.
  - intros j p' Hp'. rewrite /s' /= !list_lookup_fmap in Hp'. destruct (k_proc s !! j) as [p|]; [|done].
    simplify_eq/=. rewrite wake_if_parent /reparent. case_bool_decide; simpl; [congruence|done].
  - intros j p Hp. eexists. split; [by apply Hj|]. rewrite wake_if_parent /wake_if /wake /reparent.
    destruct (bool_decide (p_parent p = Some i)); (split_and!; [|done|]);
      destruct (existsb _ _); repeat case_bool_decide; done.
  - intros p j q Hp Hs Hch Hq Hpar Hzo. eexists. split; [by apply Hj|].
    assert (existsb (dead_kid i) (k_proc s) = true) as ->.
    { apply existsb_exists. exists q. split; [by eapply list_elem_of_In, list_elem_of_lookup_2|].
      by rewrite /dead_kid /kid !bool_decide_eq_true_2. }
    rewrite /wake_if /wake /reparent.
    destruct (bool_decide (p_parent p = Some i)); by rewrite /= Hs Hch !bool_decide_eq_true_2.
Qed.

(** ** The scheduler *)

(** Processes that can be switched to have a kernel stack and a page table. *)
Record sched_ok s : Prop := {
  sd_len : length (k_proc s) = NPROC;
  sd_sleep : sleep_ok (k_proc s);
  sd_run : ∀ i p, k_proc s !! i = Some p → p_state p = RUNNABLE → p_kstack p ≠ 0 ∧ p_pgdir p ≠ 0
}.

Lemma switchuvm_wp c L w m k g Q :
  cpu_ok c → k ≠ 0 → g ≠ 0 →
  Q tt (Kst c L w (set_cr3 (V2P g) (set_esp0 (u32 (k + KSTACKSIZE)) m))) →
  wp (switchuvm (Some (k, g))) Q (Kst c L w m).
Proof.
  intros Hc Hk Hg HQ. rewrite /switchuvm (proj2 (Z.eqb_neq _ _) Hk) (proj2 (Z.eqb_neq _ _) Hg).
  apply wp_bind. eapply wp_eq; [apply pushcli_run|]. do 2 (apply wp_bind, wp_modify; kst_simpl).
  by eapply wp_eq; [apply popcli_run|].
Qed.

Lemma vm_wp_sched {A} (m : K vmem A) c L w s Q :
  cpu_ok c → sched_ok s →
  (∀ c' w', cpu_ok c' →
    wp m (λ a τ, ∃ v, τ = Kst c' L w' v ∧ Q a (Kst c L w (set_kvm v s))) (Kst c' L w' (k_vm s))) →
  wp (vm m) Q (Kst c L w s).
Proof. intros Hc [] Hm. by apply wp_vm. Qed.

(** What the scheduler expects of the code it switches to. *)
Definition runs c w (run : nat → K sys unit) : Prop :=
  let L := {[Lptable := apicid c]} in
  ∀ i p s, sched_ok s → k_cur s = Some i → k_proc s !! i = Some p → p_state p = RUNNING →
    cr3 (k_vm s) = V2P (p_pgdir p) → esp0 (k_vm s) = u32 (p_kstack p + KSTACKSIZE) →
    wp (run i) (λ _ σ, ∃ s', σ = Kst (pushed c) L w s' ∧ sched_ok s' ∧ k_cur s' = Some i) (Kst (pushed c) L w s).

Lemma schedule_wp run c w s i Q :
  let L := {[Lptable := apicid c]} in
  cpu_ok c → runs c w run → sched_ok s → (i < NPROC)%nat → k_cur s = None →
  (∀ s', sched_ok s' → k_cur s' = None → Q tt (Kst (pushed c) L w s')) →
  wp (schedule run i) Q (Kst (pushed c) L w s).
Proof.
  intros L Hc Hrun Hs Hi Hcur HQ. destruct (lookup_lt_is_Some_2 (k_proc s) i) as [p Hp]; [by rewrite (sd_len _ Hs)|].
  pose proof (pushed_ok c Hc) as Hpc. rewrite /schedule. apply wp_bind. eapply wp_pget; [done|].
  case_bool_decide as Hst; cbn [negb]; [|by apply wp_ret, HQ].
  destruct (sd_run _ Hs i p Hp Hst) as [Hk Hg]. apply wp_bind, wp_modify. kst_simpl.
  set (s1 := set_kcur (Some i) s). assert (sched_ok s1) as Hs1 by by destruct Hs.
  apply wp_bind, vm_wp_sched; [done|done|]. intros c' w' Hc'. apply switchuvm_wp; [done|done|done|].
  eexists. split; [done|]. set (m := set_cr3 _ _). apply wp_bind.
  eapply (wp_pput _ _ _ (set_kvm m s1) i p); [exact Hp|]. set (s2 := put_proc i _ _).
  assert (sched_ok s2) as Hs2.
  { destruct Hs as [Hlen Hsl Hru]. split.
    - by rewrite /s2 /= length_insert.
    - by eapply sleep_ok_put.
    - intros j q Hq Hsq. rewrite /s2 /= list_lookup_insert in Hq. case_decide; [naive_solver|]. by apply (Hru j). }
  apply wp_bind. eapply wp_mono.
  { apply (Hrun i (set_state RUNNING p) s2 Hs2); [done| |done|done|done]. exact (put_proc_get i _ p (set_kvm m s1) Hp). }
  intros _ σ (s3&->&Hs3&Hc3). apply wp_bind, vm_wp_sched; [done|done|]. intros c3 w3 _.
  apply wp_modify. eexists. split; [done|]. apply wp_modify. kst_simpl. apply HQ; [by destruct Hs3|done].
Qed.

(** Enabling interrupts and taking a lock outside of any critical section. *)
Lemma acquire_sti_run lk c L w s :
  ncli c = 0 → L !! lk = None →
  let c1 := Cpu (apicid c) true 0 true (cproc c) in
  acquire lk (Kst (sti c) L w s) = Ret tt (Kst (pushed c1) (<[lk := apicid c]> L) w s) ∧ cpu_ok c1.
Proof.
  intros Hn HL c1. assert (cpu_ok c1) as Hc1 by (split_and!; simpl; [lia|lia|done]).
  split; [|done]. rewrite -(acquire_run lk c1 L w s Hc1 HL) /acquire.
  rewrite (bind_ret _ _ _ _ _ (pushcli_run (sti c) L w s)) (bind_ret _ _ _ _ _ (pushcli_run c1 L w s)).
  do 2 f_equal. rewrite /pushed /= Hn //.
Qed.

(** The scheduler keeps its contract with the code it switches to: when the
    code for a process returns with [ptable.lock] held whenever it is entered
    with the lock held, the process RUNNING and its page table and kernel stack
    loaded, then a pass over the table ends with no process on the CPU, no lock
    held and interrupts enabled, and never panics. *)
Theorem scheduler_pass_contract run c w s :
  let c1 := Cpu (apicid c) true 0 true (cproc c) in
  ncli c = 0 → runs c1 w run → sched_ok s → k_cur s = None →
  ∃ s', scheduler_pass run (Kst c ∅ w s) = Ret tt (Kst c1 ∅ w s') ∧ sched_ok s' ∧ k_cur s' = None.
Proof.
  intros c1 Hn Hrun Hs Hcur. destruct (acquire_sti_run Lptable c ∅ w s Hn (lookup_empty _)) as [Hacq Hc1].
  rewrite /scheduler_pass. rewrite (bind_ret _ _ _ tt (Kst (sti c) ∅ w s)) //.
  rewrite (bind_ret _ _ _ _ _ Hacq). fold c1.
  destruct (wp_inv (for_each (seq 0 NPROC) (schedule run)) (λ _ σ, ∃ s', σ = Kst (pushed c1) {[Lptable := apicid c1]} w s' ∧
    sched_ok s' ∧ k_cur s' = None) (Kst (pushed c1) {[Lptable := apicid c1]} w s)) as ([]&?&E&s'&->&Hs'&Hcur').
  { apply (wp_for_seq _ _ (λ _ σ, ∃ s', σ = Kst (pushed c1) {[Lptable := apicid c1]} w s' ∧ sched_ok s' ∧ k_cur s' = None)).
    - by exists s.
    - intros t σ Ht (s1&->&Hs1&Hcur1). apply schedule_wp; [done|done|done|done|done|]. eauto.
    - done. }
  exists s'. split; [|done]. rewrite (bind_ret _ _ _ _ _ E).
  destruct (wp_inv (release Lptable) (λ _ σ, σ = Kst c1 ∅ w s') (Kst (pushed c1) {[Lptable := apicid c1]} w s'))
    as ([]&?&E2&->); [by apply wp_release_last|done].
Qed.

(** ** [growproc] *)

(** C39: [growproc] by the negative of the whole size frees all of the user
    memory, but returns -1 and keeps the old size of the process. *)
Theorem growproc_to_zero l c w s i p :
  sys_ok c s → k_cur s = Some i → k_proc s !! i = Some p → vm_ok kend l (k_vm s) (p_pgdir p) →
  0 < p_sz p ≤ KERNBASE →
  ∃ s', growproc kend (- p_sz p) (Kst c ∅ w s) = Ret (-1) (Kst c ∅ w s') ∧ k_proc s' = k_proc s ∧
    ∀ a, 0 ≤ a < p_sz p → ubyte (ram (k_vm s')) (p_pgdir p) a = None.
Proof.
  intros Hok Hcur Hp (Hk&Hpt&Hu) Hsz.
  destruct (wp_inv (growproc kend (- p_sz p)) (λ r σ, r = -1 ∧ ∃ s', σ = Kst c ∅ w s' ∧ k_proc s' = k_proc s ∧
    ∀ a, 0 ≤ a < p_sz p → ubyte (ram (k_vm s')) (p_pgdir p) a = None) (Kst c ∅ w s))
    as (?&?&E&->&s'&->&?&?); [|by exists s'].
  rewrite /growproc. apply wp_bind. eapply wp_curproc; [apply Hok|done|]. apply wp_bind. eapply wp_pget; [done|].
  rewrite (proj2 (Z.ltb_ge 0 _)); [lia|]. rewrite (proj2 (Z.ltb_lt _ 0)); [lia|].
  rewrite (proj2 (Z.eqb_neq (- p_sz p) 0)); [lia|]. replace (p_sz p + - p_sz p) with 0 by lia.
  apply wp_bind, wp_vm_keep; [done|]. intros c' w' Hc'. change (u32 0) with 0.
  eapply (deallocuvm_wp kend Hkend); [done|done|lia|lia|exact Hk|done|done|].
  intros l' m Hk' Hpt' Hu' Hf. exists m. split; [done|]. apply wp_ret. split; [done|].
  exists (set_kvm m s). split; [done|]. split; [done|]. intros a Ha. cbn [k_vm set_kvm].
  change (pages_up 0) with 0 in Hf. rewrite /ubyte.
  assert (upage (ram m) (p_pgdir p) (a / PGSIZE) = None) as ->; [|done].
  assert (present (ram m) (p_pgdir p) (a / PGSIZE) = false) as Hab.
  { apply (fp_in _ _ _ _ _ _ _ _ Hf). split; [apply Z.div_pos; [lia|done]|].
    rewrite /pages_up. unfold PGSIZE. Z.div_mod_to_equations. lia. }
  rewrite /present in Hab. by rewrite /upage Hab.
Qed.
End ProcThms.
