(* ===== verification/ProcDemo.v ===== *)
(** * Examples for the theorems about processes, files and sleeping

    A small machine: eight pages of memory, the last of them a page directory,
    one of them a kernel stack, and a process table with a few processes. *)

From S2P Require Import Prelude CInt CString Kernel Params Sleeplock Bio Log LogCrash Txn BlockIO Fs Kalloc Vm VmSpec VmCopy VmGrow VmThms VmFree Sys Pipe PipeSpec File Proc ProcSpec ProcThms.

(** Page 6 is allocated: the kernel stack of a process. *)
Definition demo_stack : vmem := state_of (kalloc (Kst demo_cpu ∅ ∅ demo_boot)).
Definition demo_six : list Z := reverse (demo_page <$> seq 0 6).

Lemma demo_stack_eq :
  kmem_ok demo_end demo_six demo_stack ∧ ram demo_stack = ram demo_boot.
Proof.
  destruct (state_of_wp kalloc (λ v σ, kmem_ok demo_end demo_six (kdata σ) ∧ ram (kdata σ) = ram demo_boot)
    demo_cpu ∅ ∅ demo_boot) as (v&σ&H&E); [|by rewrite /demo_stack E].
  eapply (kalloc_wp demo_end ltac:(by vm_compute)); [apply demo_cpu_ok|done|apply demo_boot_free|done|].
  intros v l' s' Hl Hk _ _ ->. split; [|done].
  replace demo_six with l'; [done|]. assert (reverse (demo_page <$> seq 0 7) = demo_page 6 :: demo_six) as E by done.
  congruence.
Qed.

Lemma demo_stack_ok : vm_ok demo_end demo_six demo_stack demo_dir.
Proof.
  destruct demo_stack_eq as [Hk Hr]. destruct demo_boot_ok as (_&Hpt&Hu). split; [done|]. rewrite Hr.
  split; [by apply (pt_ok_tail _ _ _ _ (demo_page 6))|by apply (user_ok_tail _ _ _ _ (demo_page 6))].
Qed.

Lemma demo_stack_page : data_page demo_end demo_six (ram demo_stack) demo_dir (demo_page 6).
Proof.
  destruct demo_stack_eq as [_ ->]. split_and!.
  - apply demo_page_addr. lia.
  - rewrite elem_of_reverse list_elem_of_fmap. intros (j&E%demo_page_inj&Hj%elem_of_seq). lia.
  - by intros E%demo_page_inj.
  - intros d Hd. by rewrite demo_boot_ptab.
Qed.

Lemma demo_stack_unmapped n : 0 ≤ n < NU → ppage (ram demo_stack) demo_dir n ≠ Some (demo_page 6).
Proof.
  destruct demo_stack_eq as [_ ->]. intros Hn. rewrite /ppage demo_boot_pte //. by apply ppage_small.
Qed.

(** ** Process tables *)

(** The first slots are given; the others are unused. *)
Definition demo_table (l : list proc) : list proc :=
  l ++ replicate (NPROC - length l) (demo_proc UNUSED 0).

Definition demo_files : list file := replicate NFILE (File FD_NONE 0 0 0 0 None 0).

Definition demo_state (cur : option nat) (l : list proc) (m : vmem) : sys :=
  Sys (demo_table l) 5 (Some 0%nat) cur m demo_fs demo_files ∅ 0 0 0.

(** No process, or one process, sleeps. *)
Definition few_sleepers (l : list proc) : bool :=
  match omap (λ p, if bool_decide (p_state p = SLEEPING) then Some (p_chan p) else None) l with
  | [] => true
  | [Some _] => true
  | _ => false
  end.

Lemma omap_index {A B} (f : A → option B) (l : list A) i j x y a b :
  omap f l = [a] → l !! i = Some x → l !! j = Some y → f x = Some b → is_Some (f y) → i = j ∧ b = a.
Proof.
  revert i j. induction l as [|z l IH]; intros i j; [done|]. simpl.
  assert (∀ k u, l !! k = Some u → is_Some (f u) → omap f l ≠ []) as Hne.
  { intros k u Hk [v Hv] Hnil. assert (v ∈ omap f l) as Hin by (apply list_elem_of_omap; exists u;
      split; [by eapply list_elem_of_lookup_2|done]). rewrite Hnil in Hin. by apply not_elem_of_nil in Hin. }
  destruct (f z) as [v|] eqn:Ez.
  - intros [= -> Hnil] Hi Hj Hx Hy. destruct i as [|i]; simpl in Hi.
    + simplify_eq. destruct j as [|j]; simpl in Hj; [naive_solver|]. by destruct (Hne j y Hj Hy).
    + destruct (Hne i x Hi); [by exists b|done].
  - intros Hl Hi Hj Hx Hy. destruct i as [|i]; simpl in Hi; [simplify_eq|]. destruct j as [|j]; simpl in Hj.
    + simplify_eq. by destruct Hy; congruence.
    + destruct (IH i j Hl Hi Hj Hx Hy) as [-> ->]. done.
Qed.

Lemma few_sleepers_ok l : few_sleepers l = true → sleep_ok l.
Proof.
  rewrite /few_sleepers. set (f := λ p, if bool_decide (p_state p = SLEEPING) then Some (p_chan p) else None).
  intros H.
  assert (∀ p, p ∈ l → p_state p = SLEEPING → ∃ a, omap f l = [Some a]) as Hone.
  { intros p Hp Hs. assert (p_chan p ∈ omap f l) as Hin.
    { apply list_elem_of_omap. exists p. split; [done|]. by rewrite /f bool_decide_eq_true_2. }
    destruct (omap f l) as [|[a|] [|]]; try done; [by apply not_elem_of_nil in Hin|eauto]. }
  split.
  - intros p Hp Hs. destruct (Hone p Hp Hs) as [a Ha]. pose proof Hp as [i Hi]%list_elem_of_lookup.
    assert (f p = Some (p_chan p)) as Hfp by by rewrite /f bool_decide_eq_true_2.
    destruct (omap_index f l i i p p _ _ Ha Hi Hi Hfp ltac:(by rewrite Hfp)) as [_ ->]. eauto.
  - intros i j p q Hi Hj Hsp Hsq _. destruct (Hone p) as [a Ha]; [by eapply list_elem_of_lookup_2|done|].
    assert (f p = Some (p_chan p)) as Hfp by by rewrite /f bool_decide_eq_true_2.
    assert (f q = Some (p_chan q)) as Hfq by by rewrite /f bool_decide_eq_true_2.
    by destruct (omap_index f l i j p q _ _ Ha Hi Hj Hfp ltac:(by rewrite Hfq)).
Qed.

Lemma demo_sys_ok cur l m :
  few_sleepers (demo_table l) = true → length (demo_table l) = NPROC →
  (∀ i, cur = Some i → ∃ p, demo_table l !! i = Some p ∧ p_state p = RUNNING) →
  sys_ok demo_cpu (demo_state cur l m).
Proof. intros Hf Hl Hc. split; [apply demo_cpu_ok|done|by apply few_sleepers_ok|done]. Qed.

(** Init running, and the child in slot 1. *)
Definition demo_child (st : procstate) (ch : option chan) : proc :=
  Proc 4096 demo_dir (demo_page 6) st 2 (Some 0%nat) 0 0 ch 0 (replicate NOFILE None) (replicate 16 0).

Lemma demo_two_ok st ch m :
  st ≠ SLEEPING ∨ is_Some ch → sys_ok demo_cpu (demo_state (Some 0%nat) [demo_proc RUNNING 1; demo_child st ch] m).
Proof.
  intros Hst. apply demo_sys_ok; [|done|].
  - destruct st, ch; try done; by destruct Hst as [?|[? ?]].
  - intros i [= <-]. by exists (demo_proc RUNNING 1).
Qed.

Lemma demo_table_lookup l i p :
  demo_table l !! i = Some p → l !! i = Some p ∨ p = demo_proc UNUSED 0.
Proof.
  rewrite /demo_table lookup_app. destruct (l !! i); [auto|]. intros Hp.
  apply lookup_replicate in Hp as [-> _]. by right.
Qed.

Lemma demo_two_lookup q i p :
  demo_table [demo_proc RUNNING 1; q] !! i = Some p →
  (i = 0%nat ∧ p = demo_proc RUNNING 1) ∨ (i = 1%nat ∧ p = q) ∨ p = demo_proc UNUSED 0.
Proof.
  intros [H|H]%demo_table_lookup; [|by right; right]. destruct i as [|[|i]]; simpl in H; [left|right; left|done]; naive_solver.
Qed.

Lemma demo_two_pids st ch :
  pid_ok (demo_table [demo_proc RUNNING 1; demo_child st ch]) 5.
Proof.
  split.
  - intros i p [[_ ->]|[[_ ->]| ->]]%demo_two_lookup Hs; simpl; [lia|lia|done].
  - intros i j p q [[-> ->]|[[-> ->]| ->]]%demo_two_lookup [[-> ->]|[[-> ->]| ->]]%demo_two_lookup ? ? E; done.
Qed.

(** ** Witnesses *)

Lemma wakeup_sleepers_witness :
  let s := demo_state (Some 0%nat) [demo_proc RUNNING 1; demo_child SLEEPING (Some CTicks)] demo_stack in
  vm (Kernel.wakeup CTicks) (Kst demo_cpu ∅ ∅ s) = wakeup CTicks (Kst demo_cpu ∅ ∅ s).
Proof.
  intros s. destruct (demo_two_ok SLEEPING (Some CTicks) demo_stack) as [Hc Hl Hs _]; [by right|].
  destruct (wakeup_sleepers CTicks demo_cpu ∅ ∅ s) as [E _].
  - exact Hc.
  - reflexivity.
  - exact Hl.
  - exact Hs.
  - exact E.
Defined.

Lemma demo_files_ok : ftable_ok demo_files.
Proof. split; [done|]. intros i f Hf. apply lookup_replicate in Hf as [-> _]. done. Qed.

Definition demo_open : sys :=
  let s := demo_state (Some 0%nat) [demo_proc RUNNING 1] demo_stack in
  put_file 3 (File FD_INODE 1 1 0 0 (Some 0%nat) 0) s.

Lemma filedup_fileclose_witness :
  ∃ s1, filedup 3 (Kst demo_cpu ∅ ∅ demo_open) = Ret 3%nat (Kst demo_cpu ∅ ∅ s1) ∧
    fileclose demo_end 3 (Kst demo_cpu ∅ ∅ s1) = Ret tt (Kst demo_cpu ∅ ∅ demo_open).
Proof.
  destruct (filedup_fileclose demo_end demo_cpu ∅ demo_open 3 (File FD_INODE 1 1 0 0 (Some 0%nat) 0))
    as (s1&E1&_&E2).
  - apply demo_cpu_ok.
  - reflexivity.
  - simpl. lia.
  - exists s1. by split.
Defined.

Lemma pipealloc_spec_witness :
  let s := demo_state (Some 0%nat) [demo_proc RUNNING 1] demo_stack in
  ∃ r σ, pipealloc demo_end (Kst demo_cpu ∅ ∅ s) = Ret r σ ∧
    pipealloc_post demo_cpu ∅ s demo_six r σ.
Proof.
  intros s. destruct (pipealloc_spec demo_end demo_cpu ∅ s demo_six) as (r&σ&E&H).
  - apply demo_cpu_ok.
  - by apply few_sleepers_ok.
  - apply demo_files_ok.
  - by vm_compute.
  - apply demo_stack_eq.
  - exists r, σ. by split.
Defined.

Lemma wait_reaps_witness :
  let s := demo_state (Some 0%nat) [demo_proc RUNNING 1; demo_child ZOMBIE None] demo_stack in
  ∃ s', wait demo_end (Kst demo_cpu ∅ ∅ s) = Ret 2 (Kst demo_cpu ∅ ∅ s').
Proof.
  intros s.
  destruct (wait_reaps demo_end demo_end_lt 0 1 demo_cpu ∅ s demo_six (demo_child ZOMBIE None)) as (l'&s'&E&_).
  - apply demo_two_ok. by left.
  - reflexivity.
  - reflexivity.
  - reflexivity.
  - intros j q Hj Hq. assert (j = 0%nat) as -> by lia. by injection Hq as <-.
  - apply demo_stack_ok.
  - apply demo_stack_page.
  - apply demo_stack_unmapped.
  - exists s'. exact E.
Defined.

Lemma wait_blocks_witness :
  let s := demo_state (Some 0%nat) [demo_proc RUNNING 1; demo_child RUNNABLE None] demo_stack in
  ∃ σ, wait demo_end (Kst demo_cpu ∅ ∅ s) = Switch σ.
Proof.
  intros s. eexists.
  rewrite (wait_blocks demo_end demo_end_lt 0 demo_cpu ∅ s (demo_proc RUNNING 1)).
  - apply demo_two_ok. by left.
  - reflexivity.
  - reflexivity.
  - reflexivity.
  - by intros j q [[-> ->]|[[-> ->]| ->]]%demo_two_lookup.
  - reflexivity.
Defined.

Lemma allocproc_unique_witness :
  let s := demo_state (Some 0%nat) [demo_proc RUNNING 1; demo_child RUNNABLE None] demo_stack in
  ∃ r s', allocproc 0 0 (Kst demo_cpu ∅ ∅ s) = Ret r (Kst demo_cpu ∅ ∅ s') ∧ pid_ok (k_proc s') (k_nextpid s').
Proof.
  intros s. destruct (allocproc_unique demo_end 0 0 demo_end_lt demo_six demo_cpu ∅ s) as (r&l'&s'&E&_&_&H&_).
  - apply demo_two_ok. by left.
  - apply demo_stack_eq.
  - apply demo_two_pids.
  - simpl. lia.
  - exists r, s'. by split.
Defined.

Lemma kill_marks_witness :
  let s := demo_state (Some 0%nat) [demo_proc RUNNING 1; demo_child SLEEPING (Some CTicks)] demo_stack in
  kill 2 (Kst demo_cpu ∅ ∅ s) =
    Ret 0 (Kst demo_cpu ∅ ∅ (put_proc 1 (killed_proc (demo_child SLEEPING (Some CTicks))) s)).
Proof.
  intros s. apply (kill_marks demo_cpu ∅ s 5 1 (demo_child SLEEPING (Some CTicks))).
  - apply demo_two_ok. by right.
  - apply demo_two_pids.
  - by intros j q [[-> ->]|[[-> ->]| ->]]%demo_two_lookup.
  - reflexivity.
  - discriminate.
Defined.

Lemma kill_zero_poisons_witness :
  let s := demo_state (Some 0%nat) [demo_proc RUNNING 1; demo_child RUNNABLE None] demo_stack in
  ∃ s1 s2 q, kill 0 (Kst demo_cpu ∅ ∅ s) = Ret 0 (Kst demo_cpu ∅ ∅ s1) ∧
    allocproc 0 0 (Kst demo_cpu ∅ ∅ s1) = Ret (Some 2%nat) (Kst demo_cpu ∅ ∅ s2) ∧
    k_proc s2 !! 2%nat = Some q ∧ p_killed q = 1.
Proof.
  intros s.
  destruct (kill_zero_poisons demo_end 0 0 demo_end_lt (reverse (demo_page <$> seq 0 5)) demo_cpu ∅ s 2
    (demo_proc UNUSED 0) (demo_page 5)) as (s1&s2&q&E1&E2&Hq&_&Hk).
  - apply demo_two_ok. by left.
  - apply demo_stack_eq.
  - simpl. lia.
  - reflexivity.
  - reflexivity.
  - reflexivity.
  - intros j q Hj Hq. destruct j as [|[|j]]; [| |lia]; injection Hq as <-; done.
  - exists s1, s2, q. by split_and!.
Defined.

Lemma exit_children_reparents_witness :
  let s := demo_state (Some 1%nat) [demo_proc RUNNING 1; demo_child RUNNING None;
    set_parent (Some 1%nat) (demo_proc ZOMBIE 3)] demo_stack in
  ∃ s' p', exit_children 1 (Kst demo_cpu ∅ ∅ s) = Ret tt (Kst demo_cpu ∅ ∅ s') ∧
    k_proc s' !! 2%nat = Some p' ∧ p_parent p' = Some 0%nat.
Proof.
  intros s. destruct (exit_children_reparents demo_cpu ∅ ∅ s 1 0) as (s'&E&_&Hp&_).
  - reflexivity.
  - reflexivity.
  - lia.
  - destruct (Hp 2%nat (set_parent (Some 1%nat) (demo_proc ZOMBIE 3)) eq_refl) as (p'&Hp'&_&Hpar&_).
    exists s', p'. by split_and!.
Defined.

Lemma scheduler_pass_contract_witness :
  let s := demo_state None [demo_child RUNNABLE None] demo_stack in
  ∃ s', scheduler_pass (λ _, mret ()) (Kst demo_cpu ∅ ∅ s) = Ret tt (Kst demo_cpu ∅ ∅ s') ∧ k_cur s' = None.
Proof.
  intros s. destruct (scheduler_pass_contract (λ _, mret ()) demo_cpu ∅ s) as (s'&E&_&Hc).
  - reflexivity.
  - intros i p s0 Hs Hcur _ _ _ _. by exists s0.
  - split; [done|by apply few_sleepers_ok|].
    intros i p [Hp| ->]%demo_table_lookup Hs; [|done]. destruct i; [|done]. injection Hp as <-. done.
  - reflexivity.
  - exists s'. by split.
Defined.

Definition demo_owner : proc :=
  Proc (2 * PGSIZE) demo_dir (demo_page 6) RUNNING 2 (Some 0%nat) 0 0 None 0 (replicate NOFILE None) (replicate 16 0).

Lemma growproc_to_zero_witness :
  let s := demo_state (Some 0%nat) [demo_owner] demo_user in
  ∃ s', growproc demo_end (- (2 * PGSIZE)) (Kst demo_cpu ∅ ∅ s) = Ret (-1) (Kst demo_cpu ∅ ∅ s') ∧
    k_proc s' = k_proc s.
Proof.
  intros s. destruct demo_user_ok as [l Hl].
  destruct (growproc_to_zero demo_end demo_end_lt l demo_cpu ∅ s 0 demo_owner) as (s'&E&Hp&_).
  - apply demo_sys_ok; [done|done|]. intros i [= <-]. by exists demo_owner.
  - reflexivity.
  - reflexivity.
  - exact Hl.
  - by vm_compute.
  - exists s'. by split.
Defined.
