(* ===== verification/SleepWake.v ===== *)
(** * Sleeping and waking on several CPUs

    [sleep] and [wakeup] of [src/Xv6-Syscall/src/proc.c], statement by
    statement, on CPUs that run at the same time: the interleaving that the
    order of [acquire(&ptable.lock)] and [release(lk)] in [sleep] is about.

    A machine is a list of CPUs that share the memory and the locks; a step of
    it runs the next statement of one of them.  A CPU that would have to wait
    for a lock has no step.  One CPU runs [sleep] of a process, the others
    [wakeup] after they have changed what the process waits for, as the timer
    interrupt and the ends of a pipe do. *)

From S2P Require Import Prelude CInt CString Kernel Params Sleeplock Bio Log LogCrash Txn BlockIO Fs Kalloc Vm VmSpec VmCopy VmGrow VmThms VmFree Sys Pipe PipeSpec File Proc ProcSpec ProcThms ProcDemo.

Record thread := Thread { t_cpu : cpu; t_cur : option nat; t_code : list (K sys unit) }.

Record machine := Machine {
  m_locks : gmap lockid Z;
  m_slp : gmap Z chan;
  m_sys : sys;
  m_thr : list thread
}.

(** The next statement of a CPU.  After the switch the CPU is in [scheduler],
    which still has to release [ptable.lock]. *)
Definition tstep (m : machine) (t : thread) : option (kst sys * thread) :=
  match t_code t with
  | [] => None
  | a :: rest =>
      match a (Kst (t_cpu t) (m_locks m) (m_slp m) (set_kcur (t_cur t) (m_sys m))) with
      | Ret _ σ => Some (σ, Thread (kcpu σ) (t_cur t) rest)
      | Switch σ => Some (σ, Thread (kcpu σ) None [release Lptable])
      | _ => None
      end
  end.

(** A CPU is done, has a step, or waits for a lock: it does not panic. *)
Definition alive (m : machine) (t : thread) : Prop :=
  match t_code t with
  | [] => True
  | a :: _ =>
      match a (Kst (t_cpu t) (m_locks m) (m_slp m) (set_kcur (t_cur t) (m_sys m))) with
      | Ret _ _ | Switch _ | Spin _ _ => True
      | _ => False
      end
  end.

Inductive mstep (m : machine) : machine → Prop :=
| mstep_cpu n t σ t' : m_thr m !! n = Some t → tstep m t = Some (σ, t') →
    mstep m (Machine (klocks σ) (kslp σ) (kdata σ) (<[n := t']> (m_thr m))).

(** A CPU about to change the state and to wake the sleepers on [ch]. *)
Record waker := Waker { w_cpu : cpu; w_cur : option nat; w_change : sys → sys }.

Record waker_ok (wk : waker) : Prop := {
  wo_cpu : cpu_ok (w_cpu wk);
  wo_proc : ∀ s, k_proc (w_change wk s) = k_proc s
}.

Definition waker_code (ch : chan) (lk : lockid) (wk : waker) : list (K sys unit) :=
  acquire lk :: modify (w_change wk) :: wakeup_stmts ch ++ [release lk].

Definition waker_thread (ch : chan) (lk : lockid) (wk : waker) : thread :=
  Thread (w_cpu wk) (w_cur wk) (waker_code ch lk wk).

(** A CPU whose process [i] has entered [sleep] with the lock [lk] held. *)
Definition sleeper_thread (i : nat) (ch : chan) (lk : lockid) (c : cpu) : thread :=
  Thread (pushed c) (Some i) (sleep_stmts i ch lk ++ [sched]).

Lemma tstep_alive m t σ t' : tstep m t = Some (σ, t') → alive m t.
Proof. rewrite /tstep /alive. destruct (t_code t); [done|]. by case_match. Qed.

Lemma acquire_busy {T} l a c L w (d : T) : cpu_ok c → L !! l = Some a →
  (a ≠ apicid c ∧ ∃ σ, acquire l (Kst c L w d) = Spin l σ) ∨ a = apicid c ∧ ∃ σ, acquire l (Kst c L w d) = Panic "acquire" σ.
Proof.
  intros Hc HL. destruct (decide (a = apicid c)) as [->|Hne].
  - right. split; [done|]. eexists. by apply acquire_deadlock.
  - left. split; [done|]. rewrite /acquire (bind_ret _ _ _ _ _ (pushcli_run c L w d)).
    rewrite (bind_ret _ _ _ _ _ (holding_run l _ L w d (pushed_ok c Hc))).
    rewrite bool_decide_eq_false_2; [rewrite HL; by intros [= ->]|].
    rewrite /mbind /K_bind /xchg_loop /= HL. by eexists.
Qed.

Lemma wakeup1_run ch c L w s : length (k_proc s) = NPROC →
  wakeup1 ch (Kst c L w s) = Ret tt (Kst c L w (set_kproc (wake ch <$> k_proc s) s)).
Proof.
  intros Hl. destruct (wp_inv (wakeup1 ch) (λ _ σ, σ = Kst c L w (set_kproc (wake ch <$> k_proc s) s)) (Kst c L w s))
    as ([]&?&E&->); [by apply wp_wakeup1|done].
Qed.

Section Interleaving.
Variables (i : nat) (ch : chan) (lk : lockid) (c : cpu) (ws : list waker).
Hypotheses (Hc : cpu_ok c) (Hn : ncli c = 0) (Hlk : lk ≠ Lptable).
Hypotheses (Hws : Forall waker_ok ws) (Hids : NoDup (apicid c :: ((apicid ∘ w_cpu) <$> ws))).

(** The CPUs after [p] and [k] of their statements. *)
Definition sthread (p : nat) : thread :=
  Thread (match p with 1%nat => pushed (pushed c) | 6%nat => c | _ => pushed c end)
    (match p with 5%nat | 6%nat => None | _ => Some i end)
    (match p with 5%nat => [release Lptable] | 6%nat => [] | _ => drop p (sleep_stmts i ch lk ++ [sched]) end).

Definition wthread (wk : waker) (k : nat) : thread :=
  Thread (match k with 1%nat | 2%nat | 5%nat => pushed (w_cpu wk)
          | 3%nat | 4%nat => pushed (pushed (w_cpu wk)) | _ => w_cpu wk end)
    (w_cur wk) (drop k (waker_code ch lk wk)).

(** Who holds the lock [l], when the sleeper holds it at the positions [sf]
    and a waker at [wf]. *)
Definition wheld (wf : nat → bool) (ps : list nat) (a : Z) : Prop :=
  ∃ j wk k, ws !! j = Some wk ∧ ps !! j = Some k ∧ wf k = true ∧ a = apicid (w_cpu wk).

Definition owns (l : lockid) (sf wf : nat → bool) (L : gmap lockid Z) (p : nat) (ps : list nat) : Prop :=
  ∀ a, L !! l = Some a ↔ (sf p = true ∧ a = apicid c) ∨ wheld wf ps a.

Definition s_lk (p : nat) : bool := bool_decide (p ≤ 1)%nat.
Definition w_lk (k : nat) : bool := bool_decide (1 ≤ k ≤ 5)%nat.
Definition s_pt (p : nat) : bool := bool_decide (1 ≤ p ≤ 5)%nat.
Definition w_pt (k : nat) : bool := bool_decide (3 ≤ k ≤ 4)%nat.

Lemma ids_s j wk : ws !! j = Some wk → apicid (w_cpu wk) ≠ apicid c.
Proof.
  intros Hj E. apply NoDup_cons in Hids as [Hx _]. apply Hx. rewrite -E.
  apply (list_elem_of_fmap_2 (apicid ∘ w_cpu)). by eapply list_elem_of_lookup_2.
Qed.

Lemma ids_w j j' wk wk' : ws !! j = Some wk → ws !! j' = Some wk' →
  apicid (w_cpu wk) = apicid (w_cpu wk') → j = j'.
Proof.
  intros Hj Hj' E. apply NoDup_cons in Hids as [_ Hd]. eapply (NoDup_lookup _ j j' _ Hd).
  - by rewrite list_lookup_fmap Hj.
  - by rewrite list_lookup_fmap Hj' /= E.
Qed.

Lemma owns_locks l sf wf L L' p ps : L' !! l = L !! l → owns l sf wf L p ps → owns l sf wf L' p ps.
Proof. rewrite /owns. by intros ->. Qed.

Lemma owns_s_same l sf wf L p p' ps : sf p' = sf p → owns l sf wf L p ps → owns l sf wf L p' ps.
Proof. rewrite /owns. by intros ->. Qed.

Lemma owns_s_take l sf wf L p p' ps :
  L !! l = None → sf p' = true → owns l sf wf L p ps → owns l sf wf (<[l := apicid c]> L) p' ps.
Proof.
  intros HL Hp' Ho a. rewrite lookup_insert_eq Hp'. split; [intros [= <-]; by left|].
  intros [[_ ->]|Hw]; [done|]. assert (L !! l = Some a) as E by (apply Ho; by right). congruence.
Qed.

Lemma owns_s_drop l sf wf L p p' ps :
  sf p = true → sf p' = false → owns l sf wf L p ps → owns l sf wf (delete l L) p' ps.
Proof.
  intros Hp Hp' Ho a. rewrite lookup_delete_eq Hp'. split; [done|]. intros [[? _]|Hw]; [done|].
  assert (L !! l = Some a) as E by (apply Ho; by right).
  assert (L !! l = Some (apicid c)) as E' by (apply Ho; by left).
  destruct Hw as (j&wk&k&Hj&_&_&->). by destruct (ids_s _ _ Hj); congruence.
Qed.

Lemma wheld_insert wf ps j k k' wk a :
  ps !! j = Some k → ws !! j = Some wk →
  wheld wf (<[j := k']> ps) a ↔
    (wf k' = true ∧ a = apicid (w_cpu wk)) ∨ (wheld wf ps a ∧ a ≠ apicid (w_cpu wk)).
Proof.
  intros Hk Hj. pose proof (lookup_lt_Some _ _ _ Hk). split.
  - intros (j1&wk1&k1&Hj1&Hk1&Hf&->). destruct (decide (j1 = j)) as [->|Hne].
    + rewrite list_lookup_insert_eq // in Hk1. simplify_eq. by left.
    + rewrite list_lookup_insert_ne // in Hk1. right. split; [by exists j1, wk1, k1|].
      intros E. by destruct Hne; eapply ids_w.
  - intros [[Hf ->]|[(j1&wk1&k1&Hj1&Hk1&Hf&->) Hne]].
    + exists j, wk, k'. by rewrite list_lookup_insert_eq.
    + exists j1, wk1, k1. rewrite list_lookup_insert_ne //. by intros ->; simplify_eq.
Qed.

Lemma wheld_at wf ps j k wk :
  ps !! j = Some k → ws !! j = Some wk → wheld wf ps (apicid (w_cpu wk)) ↔ wf k = true.
Proof.
  intros Hk Hj. split; [|intros Hf; by exists j, wk, k].
  intros (j1&wk1&k1&Hj1&Hk1&Hf&E). pose proof (ids_w _ _ _ _ Hj Hj1 E) as <-. by simplify_eq.
Qed.

Lemma owns_w_same l sf wf L p ps j k k' wk :
  ps !! j = Some k → ws !! j = Some wk → wf k' = wf k → owns l sf wf L p ps → owns l sf wf L p (<[j := k']> ps).
Proof.
  intros Hk Hj Hf Ho a. rewrite (Ho a) (wheld_insert _ _ _ _ _ _ _ Hk Hj) Hf -(wheld_at wf _ _ _ _ Hk Hj).
  destruct (decide (a = apicid (w_cpu wk))) as [->|]; naive_solver.
Qed.

Lemma owns_w_take l sf wf L p ps j k k' wk :
  ps !! j = Some k → ws !! j = Some wk → L !! l = None → wf k' = true →
  owns l sf wf L p ps → owns l sf wf (<[l := apicid (w_cpu wk)]> L) p (<[j := k']> ps).
Proof.
  intros Hk Hj HL Hf Ho a. rewrite lookup_insert_eq (wheld_insert _ _ _ _ _ _ _ Hk Hj) Hf.
  split; [intros [= <-]; by right; left|]. pose proof (proj2 (Ho a)) as E. rewrite HL in E. naive_solver.
Qed.

Lemma owns_w_drop l sf wf L p ps j k k' wk :
  ps !! j = Some k → ws !! j = Some wk → wf k = true → wf k' = false →
  owns l sf wf L p ps → owns l sf wf (delete l L) p (<[j := k']> ps).
Proof.
  intros Hk Hj Hf Hf' Ho a. rewrite lookup_delete_eq (wheld_insert _ _ _ _ _ _ _ Hk Hj) Hf'.
  split; [done|]. assert (L !! l = Some (apicid (w_cpu wk))) as E.
  { apply Ho. right. by apply (wheld_at _ _ _ _ _ Hk Hj). }
  pose proof (proj2 (Ho a)) as E'. rewrite E in E'. intros [[Hp ->]|[[? _]|[Hw Hne]]]; [|done|].
  - assert (Some (apicid (w_cpu wk)) = Some (apicid c)) as [= E1] by (apply E'; by left). by destruct (ids_s _ _ Hj).
  - assert (Some (apicid (w_cpu wk)) = Some a) as [= E1] by (apply E'; by right). by destruct Hne.
Qed.

(** The invariant of the machine: the locks are held by whom the positions
    say, a waker starts its change only when the sleeper has given up [lk] and
    reaches the process table only when the sleeper's CPU has left it, and
    then the process is asleep until the first waker has passed [wakeup1]. *)
Definition woken (ps : list nat) : bool := existsb (λ k, bool_decide (4 ≤ k)%nat) ps.

Record inv (p : nat) (ps : list nat) (m : machine) : Prop := {
  iv_thr : m_thr m = sthread p :: zip_with wthread ws ps;
  iv_len : length ps = length ws;
  iv_p : (p ≤ 6)%nat;
  iv_ps : Forall (λ k, k ≤ 6)%nat ps;
  iv_lk : owns lk s_lk w_lk (m_locks m) p ps;
  iv_pt : owns Lptable s_pt w_pt (m_locks m) p ps;
  iv_rest : ∀ l, l ≠ lk → l ≠ Lptable → m_locks m !! l = None;
  iv_go : Forall (λ k, (1 ≤ k → 2 ≤ p) ∧ (3 ≤ k → p = 6))%nat ps;
  iv_procs : length (k_proc (m_sys m)) = NPROC;
  iv_proc : ∃ q, k_proc (m_sys m) !! i = Some q ∧ ((3 ≤ p)%nat → p_chan q = Some ch) ∧
    ((4 ≤ p)%nat → p_state q = if woken ps then RUNNABLE else SLEEPING)
}.

Lemma inv_in p ps m j k : inv p ps m → ps !! j = Some k → (1 ≤ k → 2 ≤ p)%nat ∧ (3 ≤ k → p = 6)%nat.
Proof. intros Hi Hk. exact (Forall_lookup_1 _ _ _ _ (iv_go _ _ _ Hi) Hk). Qed.

Lemma inv_unwoken p ps m : inv p ps m → (p < 6)%nat → woken ps = false ∧ ∀ a, ¬ wheld w_pt ps a.
Proof.
  intros Hi Hp. split.
  - apply not_true_is_false. rewrite /woken existsb_exists. intros (k&Hk%list_elem_of_In&Hk4%bool_decide_eq_true).
    apply list_elem_of_lookup in Hk as [j Hj]. destruct (inv_in _ _ _ _ _ Hi Hj). lia.
  - intros a (j&wk&k&_&Hj&Hf%bool_decide_eq_true&_). destruct (inv_in _ _ _ _ _ Hi Hj). lia.
Qed.

(** A step of the sleeper. *)
Lemma inv_sleeper p ps m L w s :
  inv p ps m → (p < 6)%nat → owns lk s_lk w_lk L (S p) ps → owns Lptable s_pt w_pt L (S p) ps →
  (∀ l, l ≠ lk → l ≠ Lptable → L !! l = None) → length (k_proc s) = NPROC →
  (∃ q, k_proc s !! i = Some q ∧ ((3 ≤ S p)%nat → p_chan q = Some ch) ∧ ((4 ≤ S p)%nat → p_state q = SLEEPING)) →
  inv (S p) ps (Machine L w s (<[0%nat := sthread (S p)]> (m_thr m))).
Proof.
  intros Hi Hp Ho1 Ho2 Hr Hl (q&Hq&Hch&Hst). destruct (inv_unwoken _ _ _ Hi Hp) as [Hw _]. split; cbn.
  - by rewrite (iv_thr _ _ _ Hi).
  - apply Hi.
  - lia.
  - apply Hi.
  - done.
  - done.
  - done.
  - apply Forall_lookup_2. intros j k Hk. destruct (inv_in _ _ _ _ _ Hi Hk) as [H1 H3].
    split; intros Hk'; [specialize (H1 Hk')|specialize (H3 Hk')]; lia.
  - done.
  - exists q. by rewrite Hw.
Qed.

Lemma inv_sleeper_keep p ps m w s :
  inv p ps m → (p < 6)%nat → s_lk (S p) = s_lk p → s_pt (S p) = s_pt p → length (k_proc s) = NPROC →
  (∃ q, k_proc s !! i = Some q ∧ ((3 ≤ S p)%nat → p_chan q = Some ch) ∧ ((4 ≤ S p)%nat → p_state q = SLEEPING)) →
  inv (S p) ps (Machine (m_locks m) w s (<[0%nat := sthread (S p)]> (m_thr m))).
Proof.
  intros Hi Hp H1 H2 Hl Hq. apply inv_sleeper; [done|done| | |apply Hi|done|done].
  - eapply owns_s_same; [done|apply Hi].
  - eapply owns_s_same; [done|apply Hi].
Qed.

Lemma inv_sleeper_drop l p ps m w s :
  inv p ps m → (p < 6)%nat → (l = lk ∧ p = 1 ∨ l = Lptable ∧ p = 5)%nat → k_proc s = k_proc (m_sys m) →
  inv (S p) ps (Machine (delete l (m_locks m)) w s (<[0%nat := sthread (S p)]> (m_thr m))).
Proof.
  intros Hi Hp Hl Hs. destruct (inv_unwoken _ _ _ Hi Hp) as [Hw _]. destruct (iv_proc _ _ _ Hi) as (q&Hq&Hch&Hst).
  rewrite Hw in Hst. apply inv_sleeper; [done|done|..].
  - destruct Hl as [[-> ->]|[-> ->]]; [eapply owns_s_drop; [..|apply Hi]; done|].
    eapply owns_locks; [by rewrite lookup_delete_ne|]. by eapply owns_s_same; [|apply Hi].
  - destruct Hl as [[-> ->]|[-> ->]]; [|eapply owns_s_drop; [..|apply Hi]; done].
    eapply owns_locks; [by rewrite lookup_delete_ne|]. by eapply owns_s_same; [|apply Hi].
  - intros l' Hl' Hl''. rewrite lookup_delete_ne; [naive_solver|]. by apply (iv_rest _ _ _ Hi).
  - rewrite Hs. apply Hi.
  - exists q. rewrite Hs. destruct Hl as [[_ ->]|[_ ->]]; (split_and!; [done|lia || (intros _; apply Hch; lia)|lia || (intros _; apply Hst; lia)]).
Qed.

Lemma sleeper_step p ps m : inv p ps m → (p < 6)%nat →
  ∃ σ, tstep m (sthread p) = Some (σ, sthread (S p)) ∧
    inv (S p) ps (Machine (klocks σ) (kslp σ) (kdata σ) (<[0%nat := sthread (S p)]> (m_thr m))).
Proof.
  intros Hi Hp. destruct (inv_unwoken _ _ _ Hi Hp) as [Hw Hno]. destruct (iv_proc _ _ _ Hi) as (q&Hq&Hch&Hst).
  rewrite Hw in Hst. pose proof (pushed_ok _ Hc) as Hpc.
  assert (∀ f, k_proc (set_kproc (alter f i (k_proc (m_sys m))) (set_kcur (Some i) (m_sys m))) !! i = Some (f q)) as Halt.
  { intros f. cbn. by rewrite list_lookup_alter_eq Hq. }
  remember (sthread (S p)) as t' eqn:Et. rewrite /tstep. destruct p as [|[|[|[|[|[|p]]]]]]; [..|lia]; cbn [sthread t_code t_cpu t_cur];
    rewrite /sleep_stmts ?bool_decide_eq_false_2 //; cbn [app drop].
  - assert (m_locks m !! Lptable = None) as Hfree.
    { destruct (m_locks m !! Lptable) eqn:E; [|done].
      apply (iv_pt _ _ _ Hi) in E as [[? _]|E]; [done|by destruct (Hno _ E)]. }
    rewrite acquire_run //. eexists. split; [by rewrite Et /sthread /sleep_stmts ?bool_decide_eq_false_2|]. rewrite Et. apply (inv_sleeper 0); [done|done|..|apply Hi|].
    + eapply owns_locks; [by rewrite lookup_insert_ne|]. by eapply owns_s_same; [|apply Hi].
    + by eapply owns_s_take; [..|apply Hi].
    + intros l Hl Hl'. rewrite lookup_insert_ne //. by apply (iv_rest _ _ _ Hi).
    + exists q. split_and!; [done|lia|lia].
  - rewrite (release_run lk (pushed c)); [done|apply (iv_lk _ _ _ Hi); by left|]. eexists. split; [by rewrite Et /sthread /sleep_stmts ?bool_decide_eq_false_2|]. rewrite Et.
    apply (inv_sleeper_drop lk 1); auto.
  - erewrite pset_run; [|exact Hq]. eexists. split; [by rewrite Et /sthread /sleep_stmts ?bool_decide_eq_false_2|]. rewrite Et.
    apply (inv_sleeper_keep 2); [done..| |].
    + cbn. rewrite length_alter. apply Hi.
    + eexists. split_and!; [apply Halt|done|lia].
  - erewrite pset_run; [|exact Hq]. eexists. split; [by rewrite Et /sthread /sleep_stmts ?bool_decide_eq_false_2|]. rewrite Et.
    apply (inv_sleeper_keep 3); [done..| |].
    + cbn. rewrite length_alter. apply Hi.
    + eexists. split_and!; [apply Halt|intros _; apply Hch; lia|done].
  - erewrite sched_switch; [|done|done|apply (iv_pt _ _ _ Hi); by left|done|exact Hq|rewrite Hst //; lia].
    eexists. split; [by rewrite Et /sthread /sleep_stmts ?bool_decide_eq_false_2|]. rewrite Et.
    apply (inv_sleeper_keep 4); [done..|apply Hi|].
    exists q. split_and!; [done|intros _; apply Hch; lia|intros _; apply Hst; lia].
  - rewrite release_run //; [apply (iv_pt _ _ _ Hi); by left|]. eexists. split; [by rewrite Et /sthread /sleep_stmts ?bool_decide_eq_false_2|]. rewrite Et.
    apply (inv_sleeper_drop Lptable 5); auto.
Qed.

(** A step of a waker. *)
Lemma woken_insert ps j k : ps !! j = Some k → (k < 6)%nat →
  woken (<[j := S k]> ps) = woken ps || bool_decide (4 ≤ S k)%nat.
Proof.
  rewrite /woken. revert j. induction ps as [|x ps IH]; intros [|j] Hj Hk; simplify_eq/=.
  - destruct (existsb _ ps); rewrite ?orb_true_r ?orb_false_r //.
    repeat case_bool_decide; simpl; done || lia.
  - by rewrite IH // orb_assoc.
Qed.

Lemma inv_waker p ps m j wk k L w s :
  inv p ps m → ws !! j = Some wk → ps !! j = Some k → (k < 6)%nat →
  owns lk s_lk w_lk L p (<[j := S k]> ps) → owns Lptable s_pt w_pt L p (<[j := S k]> ps) →
  (∀ l, l ≠ lk → l ≠ Lptable → L !! l = None) → (2 ≤ p)%nat → ((3 ≤ S k)%nat → p = 6%nat) →
  length (k_proc s) = NPROC →
  (∀ q, k_proc (m_sys m) !! i = Some q → ∃ q', k_proc s !! i = Some q' ∧ p_chan q' = p_chan q ∧
     ((4 ≤ p)%nat → p_chan q = Some ch → p_state q = (if woken ps then RUNNABLE else SLEEPING) →
       p_state q' = if woken ps || bool_decide (4 ≤ S k)%nat then RUNNABLE else SLEEPING)) →
  inv p (<[j := S k]> ps) (Machine L w s (<[S j := wthread wk (S k)]> (m_thr m))).
Proof.
  intros Hi Hj Hk Hk6 Ho1 Ho2 Hr Hp2 Hp6 Hl Hq. destruct (iv_proc _ _ _ Hi) as (q&Hq0&Hch&Hst).
  destruct (Hq q Hq0) as (q'&Hq'&Ech&Est). split; cbn.
  - rewrite (iv_thr _ _ _ Hi) /=. f_equal. apply list_eq. intros n. rewrite lookup_zip_with.
    destruct (decide (n = j)) as [->|Hne].
    + assert (j < length ps)%nat by by eapply lookup_lt_Some.
      rewrite Hj list_lookup_insert_eq; [rewrite length_zip_with (iv_len _ _ _ Hi); pose proof (iv_len _ _ _ Hi); lia|].
      by rewrite list_lookup_insert_eq.
    + by rewrite !list_lookup_insert_ne // lookup_zip_with.
  - rewrite length_insert. apply Hi.
  - apply Hi.
  - apply Forall_insert; [apply Hi|lia].
  - done.
  - done.
  - done.
  - apply Forall_insert; [apply Hi|]. by split.
  - done.
  - exists q'. rewrite woken_insert //. split_and!; [done|by rewrite Ech|]. intros Hp4. apply Est; [done| |by apply Hst].
    apply Hch. lia.
Qed.

Lemma inv_waker_keep p ps m j wk k w s :
  inv p ps m → ws !! j = Some wk → ps !! j = Some k → (k < 6)%nat → w_lk (S k) = w_lk k → w_pt (S k) = w_pt k →
  (2 ≤ p)%nat → ((3 ≤ S k)%nat → p = 6%nat) → length (k_proc s) = NPROC →
  (∀ q, k_proc (m_sys m) !! i = Some q → ∃ q', k_proc s !! i = Some q' ∧ p_chan q' = p_chan q ∧
     ((4 ≤ p)%nat → p_chan q = Some ch → p_state q = (if woken ps then RUNNABLE else SLEEPING) →
       p_state q' = if woken ps || bool_decide (4 ≤ S k)%nat then RUNNABLE else SLEEPING)) →
  inv p (<[j := S k]> ps) (Machine (m_locks m) w s (<[S j := wthread wk (S k)]> (m_thr m))).
Proof.
  intros Hi Hj Hk Hk6 H1 H2 Hp2 Hp6 Hl Hq. apply inv_waker; [done..| | |apply Hi|done|done|done|done].
  - by eapply owns_w_same; [..|apply Hi].
  - by eapply owns_w_same; [..|apply Hi].
Qed.

(** The process table does not change in the other steps; [wakeup1] is passed
    when it is left. *)
Lemma proc_same p ps m j k s :
  inv p ps m → ps !! j = Some k → (k < 6)%nat → k ≠ 3%nat → k_proc s = k_proc (m_sys m) →
  ∀ q, k_proc (m_sys m) !! i = Some q → ∃ q', k_proc s !! i = Some q' ∧ p_chan q' = p_chan q ∧
     ((4 ≤ p)%nat → p_chan q = Some ch → p_state q = (if woken ps then RUNNABLE else SLEEPING) →
       p_state q' = if woken ps || bool_decide (4 ≤ S k)%nat then RUNNABLE else SLEEPING).
Proof.
  intros Hi Hk Hk6 Hk3 Hs q Hq. exists q. rewrite Hs. split_and!; [done|done|]. intros _ _ ->.
  destruct (woken ps) eqn:Hw; [done|]. rewrite bool_decide_eq_false_2 //. intros Hk4.
  assert (woken ps = true) as Hw'; [|congruence]. rewrite /woken existsb_exists. exists k.
  split; [by eapply list_elem_of_In, list_elem_of_lookup_2|]. apply bool_decide_eq_true. lia.
Qed.

Lemma inv_waker_take l p ps m j wk k w s :
  inv p ps m → ws !! j = Some wk → ps !! j = Some k → m_locks m !! l = None →
  (l = lk ∧ k = 0 ∨ l = Lptable ∧ k = 2)%nat → k_proc s = k_proc (m_sys m) →
  inv p (<[j := S k]> ps) (Machine (<[l := apicid (w_cpu wk)]> (m_locks m)) w s (<[S j := wthread wk (S k)]> (m_thr m))).
Proof.
  intros Hi Hj Hk Hfree Hl Hs. assert (k < 6)%nat by lia. assert (2 ≤ p ∧ (3 ≤ S k → p = 6))%nat as [Hp2 Hp6].
  { pose proof (iv_p _ _ _ Hi). destruct (inv_in _ _ _ _ _ Hi Hk) as [H1 H3]. destruct Hl as [[-> ->]|[-> ->]].
    - split; [|lia]. destruct (decide (2 ≤ p)%nat); [done|].
      assert (m_locks m !! lk = Some (apicid c)); [|congruence]. apply (iv_lk _ _ _ Hi). left. split; [|done].
      apply bool_decide_eq_true. lia.
    - assert (2 ≤ p)%nat by (apply H1; lia). split; [done|]. intros _. destruct (decide (p = 6)%nat); [done|].
      assert (m_locks m !! Lptable = Some (apicid c)); [|congruence]. apply (iv_pt _ _ _ Hi). left. split; [|done].
      apply bool_decide_eq_true. lia. }
  apply inv_waker; [done..| | | |done|done|rewrite Hs; apply Hi|eapply proc_same; [done..|lia|done]].
  - destruct Hl as [[-> ->]|[-> ->]]; [by eapply owns_w_take; [..|apply Hi]|].
    eapply owns_locks; [by rewrite lookup_insert_ne|]. by eapply owns_w_same; [..|apply Hi].
  - destruct Hl as [[-> ->]|[-> ->]]; [|by eapply owns_w_take; [..|apply Hi]].
    eapply owns_locks; [by rewrite lookup_insert_ne|]. by eapply owns_w_same; [..|apply Hi].
  - intros l' Hl' Hl''. rewrite lookup_insert_ne; [naive_solver|]. by apply (iv_rest _ _ _ Hi).
Qed.

Lemma inv_waker_drop l p ps m j wk k w s :
  inv p ps m → ws !! j = Some wk → ps !! j = Some k →
  (l = lk ∧ k = 5 ∨ l = Lptable ∧ k = 4)%nat → k_proc s = k_proc (m_sys m) →
  inv p (<[j := S k]> ps) (Machine (delete l (m_locks m)) w s (<[S j := wthread wk (S k)]> (m_thr m))).
Proof.
  intros Hi Hj Hk Hl Hs. assert (k < 6)%nat by lia. destruct (inv_in _ _ _ _ _ Hi Hk) as [H1 H3].
  apply inv_waker; [done..| | | |lia|lia|rewrite Hs; apply Hi|eapply proc_same; [done..|lia|done]].
  - destruct Hl as [[-> ->]|[-> ->]]; [by eapply owns_w_drop; [..|apply Hi]|].
    eapply owns_locks; [by rewrite lookup_delete_ne|]. by eapply owns_w_same; [..|apply Hi].
  - destruct Hl as [[-> ->]|[-> ->]]; [|by eapply owns_w_drop; [..|apply Hi]].
    eapply owns_locks; [by rewrite lookup_delete_ne|]. by eapply owns_w_same; [..|apply Hi].
  - intros l' Hl' Hl''. rewrite lookup_delete_ne; [naive_solver|]. by apply (iv_rest _ _ _ Hi).
Qed.

Lemma waker_holds p ps m j wk k l wf sf : owns l sf wf (m_locks m) p ps →
  ws !! j = Some wk → ps !! j = Some k → wf k = true → m_locks m !! l = Some (apicid (w_cpu wk)).
Proof. intros Ho Hj Hk Hf. apply Ho. right. by apply (wheld_at _ _ _ _ _ Hk Hj). Qed.

Lemma waker_step p ps m j wk k :
  inv p ps m → ws !! j = Some wk → ps !! j = Some k → (k < 6)%nat →
  (k = 0%nat → m_locks m !! lk = None) → (k = 2%nat → m_locks m !! Lptable = None) →
  ∃ σ, tstep m (wthread wk k) = Some (σ, wthread wk (S k)) ∧
    inv p (<[j := S k]> ps) (Machine (klocks σ) (kslp σ) (kdata σ) (<[S j := wthread wk (S k)]> (m_thr m))).
Proof.
  intros Hi Hj Hk Hk6 Hlkf Hptf. destruct (Forall_lookup_1 _ _ _ _ Hws Hj) as [Hwc Hch].
  pose proof (pushed_ok _ Hwc) as Hpc. destruct (inv_in _ _ _ _ _ Hi Hk) as [H1 H3].
  remember (wthread wk (S k)) as t' eqn:Et. rewrite /tstep.
  destruct k as [|[|[|[|[|[|k]]]]]]; [..|lia]; cbn [wthread t_code t_cpu t_cur waker_code wakeup_stmts drop app].
  - rewrite acquire_run //; [by apply Hlkf|]. eexists. split; [by rewrite Et|]. rewrite Et. apply inv_waker_take; auto.
  - eexists. split; [by rewrite Et|]. rewrite Et. apply inv_waker_keep; [done..|lia|lia| |].
    + cbn. rewrite Hch. apply Hi.
    + eapply proc_same; [done..|]. cbn. by rewrite Hch.
  - rewrite acquire_run //; [by apply Hptf|]. eexists. split; [by rewrite Et|]. rewrite Et. apply inv_waker_take; auto.
  - rewrite wakeup1_run; [apply Hi|]. eexists. split; [by rewrite Et|]. rewrite Et.
    apply inv_waker_keep; [done..|lia|lia| |].
    + cbn. rewrite length_fmap. apply Hi.
    + intros q Hq. exists (wake ch q). cbn. rewrite list_lookup_fmap Hq. split; [done|]. rewrite /wake orb_true_r.
      split; [by destruct (_ && _)|]. intros _ Hqc Hqs. 
      destruct (woken ps); rewrite Hqc Hqs; by repeat (case_bool_decide; simpl).
  - rewrite (release_run _ (pushed (w_cpu wk))) //; [by eapply waker_holds; [apply Hi|..]|].
    eexists. split; [by rewrite Et|]. rewrite Et. apply inv_waker_drop; auto.
  - rewrite release_run //; [by eapply waker_holds; [apply Hi|..]|].
    eexists. split; [by rewrite Et|]. rewrite Et. apply inv_waker_drop; auto.
Qed.

Lemma sum_list_S ps j k : ps !! j = Some k → sum_list (<[j := S k]> ps) = S (sum_list ps).
Proof.
  revert j. induction ps as [|x ps IH]; intros [|j] Hj; simplify_eq/=; [lia|]. rewrite IH //; lia.
Qed.

Lemma thr_waker p ps m j t : inv p ps m → m_thr m !! S j = Some t →
  ∃ wk k, ws !! j = Some wk ∧ ps !! j = Some k ∧ t = wthread wk k ∧ (k ≤ 6)%nat.
Proof.
  intros Hi Ht. rewrite (iv_thr _ _ _ Hi) /= lookup_zip_with in Ht.
  destruct (ws !! j) as [wk|] eqn:Hj, (ps !! j) as [k|] eqn:Hk; simplify_eq/=. exists wk, k.
  split_and!; [done|done|done|]. exact (Forall_lookup_1 _ _ _ _ (iv_ps _ _ _ Hi) Hk).
Qed.

Lemma not_mine p ps j wk k l sf wf L a : owns l sf wf L p ps → ws !! j = Some wk → ps !! j = Some k →
  wf k = false → L !! l = Some a → a ≠ apicid (w_cpu wk).
Proof.
  intros Ho Hj Hk Hf Ha ->. apply Ho in Ha as [[_ E]|Hw]; [by apply (ids_s _ _ Hj)|].
  apply (wheld_at _ _ _ _ _ Hk Hj) in Hw. congruence.
Qed.

(** A waker in front of a lock that is held waits. *)
Lemma waker_waits p ps m j wk k l a :
  inv p ps m → ws !! j = Some wk → ps !! j = Some k →
  (l = lk ∧ k = 0 ∨ l = Lptable ∧ k = 2)%nat → m_locks m !! l = Some a →
  tstep m (wthread wk k) = None ∧ alive m (wthread wk k).
Proof.
  intros Hi Hj Hk Hl Ha. destruct (Forall_lookup_1 _ _ _ _ Hws Hj) as [Hwc _]. pose proof (pushed_ok _ Hwc) as Hpc.
  rewrite /tstep /alive. destruct Hl as [[-> ->]|[-> ->]]; cbn [wthread t_code t_cpu t_cur waker_code wakeup_stmts drop app].
  - destruct (acquire_busy lk a (w_cpu wk) (m_locks m) (m_slp m) (set_kcur (w_cur wk) (m_sys m))) as [(_&?&->)|[E _]]; [done..|].
    by destruct (not_mine _ _ _ _ _ _ _ _ _ _ (iv_lk _ _ _ Hi) Hj Hk eq_refl Ha).
  - destruct (acquire_busy Lptable a (pushed (w_cpu wk)) (m_locks m) (m_slp m) (set_kcur (w_cur wk) (m_sys m))) as [(_&?&->)|[E _]]; [done..|].
    by destruct (not_mine _ _ _ _ _ _ _ _ _ _ (iv_pt _ _ _ Hi) Hj Hk eq_refl Ha).
Qed.

(** No CPU panics. *)
Lemma all_alive p ps m : inv p ps m → Forall (alive m) (m_thr m).
Proof.
  intros Hi. apply Forall_lookup_2. intros [|j] t Ht.
  - assert (t = sthread p) as -> by (rewrite (iv_thr _ _ _ Hi) /= in Ht; congruence).
    pose proof (iv_p _ _ _ Hi). destruct (decide (p = 6)%nat) as [->|]; [done|].
    destruct (sleeper_step p ps m Hi) as (σ&E&_); [lia|]. by eapply tstep_alive.
  - destruct (thr_waker _ _ _ _ _ Hi Ht) as (wk&k&Hj&Hk&->&Hk6). destruct (decide (k = 6)%nat) as [->|]; [done|].
    destruct (m_locks m !! lk) as [a|] eqn:El; [destruct (decide (k = 0)%nat) as [->|]|].
    { by eapply waker_waits; [..|by left|]. }
    all: destruct (m_locks m !! Lptable) as [b|] eqn:Ep; [destruct (decide (k = 2)%nat) as [->|]|].
    all: try by eapply waker_waits; [..|by right|].
    all: destruct (waker_step p ps m j wk k) as (σ&E&_); [done|done|done|lia|done|done|]; by eapply tstep_alive.
Qed.

Lemma mstep_inv p ps m m' : inv p ps m → mstep m m' →
  ∃ p' ps', inv p' ps' m' ∧ (p' + sum_list ps' = S (p + sum_list ps))%nat.
Proof.
  intros Hi [[|j] t σ t' Ht E].
  - assert (t = sthread p) as -> by (rewrite (iv_thr _ _ _ Hi) /= in Ht; congruence).
    pose proof (iv_p _ _ _ Hi). destruct (decide (p = 6)%nat) as [->|]; [done|].
    destruct (sleeper_step p ps m Hi) as (σ'&E'&Hi'); [lia|]. rewrite E' in E. simplify_eq.
    exists (S p), ps. split; [done|lia].
  - destruct (thr_waker _ _ _ _ _ Hi Ht) as (wk&k&Hj&Hk&->&Hk6).
    destruct (decide (k = 6)%nat) as [->|]; [done|].
    destruct (waker_step p ps m j wk k) as (σ'&E'&Hi'); [done|done|done|lia|..].
    + intros ->. destruct (m_locks m !! lk) eqn:Hl; [|done]. by edestruct waker_waits as [E' _]; [done..|by left|done|congruence].
    + intros ->. destruct (m_locks m !! Lptable) eqn:Hl; [|done]. by edestruct waker_waits as [E' _]; [done..|by right|done|congruence].
    + rewrite E' in E. simplify_eq. eexists p, _. split; [done|]. rewrite (sum_list_S _ _ _ Hk). lia.
Qed.

Lemma free_unless l sf wf L p ps : owns l sf wf L p ps → sf p = false →
  (∀ j wk k, ws !! j = Some wk → ps !! j = Some k → wf k = false) → L !! l = None.
Proof.
  intros Ho Hs Hw. destruct (L !! l) as [a|] eqn:E; [|done].
  apply Ho in E as [[? _]|(j&wk&k&Hj&Hk&Hf&_)]; [congruence|]. rewrite (Hw _ _ _ Hj Hk) in Hf. done.
Qed.

Lemma waker_mstep p ps m j k : inv p ps m → ps !! j = Some k → (k < 6)%nat →
  (k = 0%nat → m_locks m !! lk = None) → (k = 2%nat → m_locks m !! Lptable = None) → ∃ m', mstep m m'.
Proof.
  intros Hi Hk Hk6 H0 H2. destruct (lookup_lt_is_Some_2 ws j) as [wk Hj].
  { rewrite -(iv_len _ _ _ Hi). by eapply lookup_lt_Some. }
  destruct (waker_step p ps m j wk k) as (σ&E&_); [done..|]. eexists. eapply (mstep_cpu m (S j) (wthread wk k)); [|exact E].
  by rewrite (iv_thr _ _ _ Hi) /= lookup_zip_with Hj /= Hk.
Qed.

(** Some CPU has a step until all are done: first the sleeper, then the waker
    that is in the process table, the one that holds [lk], any other. *)
Lemma mstep_progress p ps m : inv p ps m → (∃ m', mstep m m') ∨ (p = 6%nat ∧ Forall (λ k, k = 6%nat) ps).
Proof.
  intros Hi. pose proof (iv_p _ _ _ Hi). destruct (decide (p = 6)%nat) as [->|]; last first.
  { left. destruct (sleeper_step p ps m Hi) as (σ&E&_); [lia|]. eexists.
    eapply (mstep_cpu m 0 (sthread p)); [|exact E]. by rewrite (iv_thr _ _ _ Hi). }
  assert (∀ f, (∃ j k, ps !! j = Some k ∧ f k = true) ∨ ∀ j k, ps !! j = Some k → f k = false) as Hdec.
  { intros f. destruct (decide (Exists (λ k, f k = true) ps)) as [He|He].
    - left. apply Exists_exists in He as (k&[j Hj]%list_elem_of_lookup&Hf). eauto.
    - right. intros j k Hj. apply not_true_is_false. intros Hf. apply He, Exists_exists. exists k.
      split; [by eapply list_elem_of_lookup_2|done]. }
  destruct (Hdec w_pt) as [(j&k&Hk&Hf%bool_decide_eq_true)|Hpt].
  { left. apply (waker_mstep 6 ps m j k); [done|done|lia..]. }
  assert (m_locks m !! Lptable = None) as Hptf by (eapply free_unless; [apply Hi|done|]; eauto).
  destruct (Hdec w_lk) as [(j&k&Hk&Hf%bool_decide_eq_true)|Hl].
  { left. apply (waker_mstep 6 ps m j k); [done|done| |lia|done].
    pose proof (Forall_lookup_1 _ _ _ _ (iv_ps _ _ _ Hi) Hk). simpl in *. lia. }
  assert (m_locks m !! lk = None) as Hlkf by (eapply free_unless; [apply Hi|done|]; eauto).
  destruct (Hdec (λ k, bool_decide (k < 6)%nat)) as [(j&k&Hk&Hf%bool_decide_eq_true)|Hd].
  { left. by apply (waker_mstep 6 ps m j k). }
  right. split; [done|]. apply Forall_lookup_2. intros j k Hk. specialize (Hd j k Hk).
  apply bool_decide_eq_false in Hd. pose proof (Forall_lookup_1 _ _ _ _ (iv_ps _ _ _ Hi) Hk). simpl in *. lia.
Qed.

Lemma inv_start L w s q :
  L = {[lk := apicid c]} → length (k_proc s) = NPROC → k_proc s !! i = Some q →
  inv 0 ((λ _, 0%nat) <$> ws) (Machine L w s (sleeper_thread i ch lk c :: (waker_thread ch lk <$> ws))).
Proof.
  intros -> Hl Hq. assert (∀ f a, f 0%nat = false → ¬ wheld f ((λ _, 0%nat) <$> ws) a) as Hno.
  { intros f a Hf (j&wk&k&_&Hk&Hf'&_). rewrite list_lookup_fmap in Hk.
    destruct (ws !! j); simplify_eq/=; congruence. }
  assert (∀ P : nat → Prop, P 0%nat → Forall P ((λ _ : waker, 0%nat) <$> ws)) as Hz.
  { intros P HP. apply Forall_fmap, Forall_true. by intros. }
  split; cbn.
  - f_equal. apply list_eq. intros n. rewrite lookup_zip_with !list_lookup_fmap. by destruct (ws !! n).
  - by rewrite length_fmap.
  - lia.
  - apply Hz. lia.
  - intros a. rewrite lookup_singleton_eq. split; [intros [= <-]; by left|]. intros [[_ ->]|Hw]; [done|].
    by destruct (Hno w_lk a).
  - intros a. rewrite lookup_singleton_ne //. split; [done|]. intros [[? _]|Hw]; [done|]. by destruct (Hno w_pt a).
  - intros l Hl' _. by rewrite lookup_singleton_ne.
  - apply Hz. lia.
  - done.
  - exists q. split_and!; [done|lia|lia].
Qed.

Lemma inv_end ps m : inv 6 ps m → Forall (λ k, k = 6%nat) ps →
  Forall (λ t, t_code t = []) (m_thr m) ∧ m_locks m = ∅ ∧
  ∃ q, k_proc (m_sys m) !! i = Some q ∧ p_chan q = Some ch ∧ (ws ≠ [] → p_state q = RUNNABLE).
Proof.
  intros Hi Hd. assert (∀ j k, ps !! j = Some k → k = 6%nat) as H6 by (intros j k Hk; exact (Forall_lookup_1 _ _ _ _ Hd Hk)).
  split_and!.
  - apply Forall_lookup_2. intros [|j] t Ht; [rewrite (iv_thr _ _ _ Hi) /= in Ht; by simplify_eq|].
    destruct (thr_waker _ _ _ _ _ Hi Ht) as (wk&k&Hj&Hk&->&_). by rewrite (H6 j k Hk).
  - apply map_empty. intros l. destruct (decide (l = lk)) as [->|];
      [|destruct (decide (l = Lptable)) as [->|]; [|by apply (iv_rest _ _ _ Hi)]].
    + eapply free_unless; [apply (iv_lk _ _ _ Hi)|done|]. intros j wk k _ Hk. by rewrite (H6 j k Hk).
    + eapply free_unless; [apply (iv_pt _ _ _ Hi)|done|]. intros j wk k _ Hk. by rewrite (H6 j k Hk).
  - destruct (iv_proc _ _ _ Hi) as (q&Hq&Hch&Hst). exists q. split_and!; [done|apply Hch; lia|].
    intros Hne. rewrite Hst; [lia|]. pose proof (iv_len _ _ _ Hi) as Hlen. destruct ps as [|k ps]; [by destruct ws|].
    by rewrite (H6 0%nat k).
Qed.

Lemma nsteps_inv n m m' p ps : nsteps mstep n m m' → inv p ps m →
  ∃ p' ps', inv p' ps' m' ∧ (p' + sum_list ps' = n + (p + sum_list ps))%nat.
Proof.
  intros Hn'. revert p ps. induction Hn' as [m|n m m1 m2 Hs _ IH]; intros p ps Hi; [by exists p, ps|].
  destruct (mstep_inv _ _ _ _ Hi Hs) as (p1&ps1&Hi1&E1). destruct (IH _ _ Hi1) as (p2&ps2&Hi2&E2).
  exists p2, ps2. split; [done|lia].
Qed.
End Interleaving.

(** C24: No wakeup is lost, however the CPUs interleave.  One CPU runs [sleep]
    on [ch] for process [i] with the lock [lk] held, after the process found
    under that lock that it has to wait; any number of other CPUs take the
    lock, change what the process waits for, call [wakeup] on [ch] and release
    the lock.  Every run of such a machine, one statement of one CPU at a time,
    is finite and does not get stuck before all CPUs are done; at no time does
    one panic, and none waits for a lock for ever.  At the end all locks are free
    and, if there was a [wakeup] at all, the process is runnable.  Alone, [sleep] is this sequence
    of statements, and gives up the CPU with the process asleep. *)
Theorem sleep_wakeup {A} ch lk c w s i q ws :
  cpu_ok c → ncli c = 0 → length (k_proc s) = NPROC → k_cur s = Some i → k_proc s !! i = Some q → lk ≠ Lptable →
  Forall waker_ok ws → NoDup (apicid c :: ((apicid ∘ w_cpu) <$> ws)) →
  let σ := Kst (pushed c) {[lk := apicid c]} w s in
  let m0 := Machine {[lk := apicid c]} w s (sleeper_thread i ch lk c :: (waker_thread ch lk <$> ws)) in
  sleep (A:=A) ch lk σ = (in_order (sleep_stmts i ch lk);; sched) σ ∧
  sleep (A:=A) ch lk σ = Switch (Kst (pushed c) {[Lptable := apicid c]} w (asleep i ch s)) ∧
  ∀ n m, nsteps mstep n m0 m → (n ≤ 6 + 6 * length ws)%nat ∧ Forall (alive m) (m_thr m) ∧
    ((∃ m', mstep m m') ∨
     (Forall (λ t, t_code t = []) (m_thr m) ∧ m_locks m = ∅ ∧
      ∃ q', k_proc (m_sys m) !! i = Some q' ∧ (ws ≠ [] → p_state q' = RUNNABLE))).
Proof.
  intros Hc Hn Hl Hcur Hq Hlk Hws Hids σ m0. split_and!.
  - rewrite /sleep. destruct (wp_inv myproc (λ o τ, o = Some i ∧ τ = σ) σ) as (o&τ&E&->&->).
    { apply wp_myproc; [by apply pushed_ok|]. by rewrite Hcur. }
    by rewrite (bind_ret _ _ _ _ _ E).
  - by eapply sleep_switch.
  - intros n m Hm. destruct (nsteps_inv i ch lk c ws Hc Hn Hlk Hws Hids _ _ _ 0 ((λ _, 0%nat) <$> ws) Hm)
      as (p&ps&Hi&E); [by eapply inv_start|].
    assert (sum_list ((λ _ : waker, 0%nat) <$> ws) = 0%nat) as E0 by (clear; by induction ws).
    split_and!.
    + pose proof (iv_p _ _ _ _ _ _ _ _ Hi). assert (sum_list ps ≤ 6 * length ps)%nat.
      { pose proof (iv_ps _ _ _ _ _ _ _ _ Hi) as Hps. clear -Hps. induction Hps; simpl; lia. }
      rewrite -(iv_len _ _ _ _ _ _ _ _ Hi). lia.
    + by eapply all_alive.
    + destruct (mstep_progress i ch lk c ws Hc Hn Hlk Hws Hids _ _ _ Hi) as [?|[-> Hd]]; [by left|right].
      destruct (inv_end i ch lk c ws Hlk Hws Hids _ _ Hi Hd) as (?&?&q'&?&_&?). split_and!; [done|done|by exists q'].
Qed.

(** ** The order matters

    Runs of a machine by the numbers of the CPUs that take the steps. *)
Fixpoint exec (l : list nat) (m : machine) : option machine :=
  match l with
  | [] => Some m
  | n :: l =>
      t ← m_thr m !! n;
      '(σ, t') ← tstep m t;
      exec l (Machine (klocks σ) (kslp σ) (kdata σ) (<[n := t']> (m_thr m)))
  end.

Lemma exec_mstep l m m' : exec l m = Some m' → nsteps mstep (length l) m m'.
Proof.
  revert m. induction l as [|n l IH]; intros m; cbn [exec length].
  - intros [= <-]. constructor.
  - destruct (m_thr m !! n) as [t|] eqn:Ht; [|done]. cbn [mbind option_bind].
    destruct (tstep m t) as [[σ t']|] eqn:E; [|done]. cbn [mbind option_bind]. intros H.
    econstructor; [by econstructor|]. by apply IH.
Qed.

Definition tick : waker := Waker (Cpu 1 false 0 false None) None (λ s, set_kticks (k_ticks s + 1) s).

Definition demo_sys : sys := demo_state (Some 0%nat) [demo_proc RUNNING 1] demo_stack.

Definition demo_machine (code : list (K sys unit)) : machine :=
  Machine {[Ltickslock := 0]} ∅ demo_sys
    [Thread (pushed demo_cpu) (Some 0%nat) code; waker_thread CTicks Ltickslock tick].

Definition state_of (i : nat) (m : machine) : option procstate := p_state <$> k_proc (m_sys m) !! i.

(** With the lock released before [ptable.lock] is taken the timer interrupt
    can come in between, and the process sleeps for ever. *)
Lemma reversed_order_loses :
  (exec [0; 1; 1; 1; 1; 1; 1; 0; 0; 0; 0; 0]%nat (demo_machine
     [release Ltickslock; acquire Lptable; pset 0 (set_chan (Some CTicks)); pset 0 (set_state SLEEPING); sched])
   ≫= state_of 0) = Some SLEEPING.
Proof. vm_compute. reflexivity. Qed.

Lemma sleep_wakeup_witness :
  let m0 := demo_machine (sleep_stmts 0 CTicks Ltickslock ++ [sched]) in
  (∃ m, exec [0; 0; 1; 1; 0; 0; 0; 0; 1; 1; 1; 1]%nat m0 = Some m ∧ state_of 0 m = Some RUNNABLE ∧ m_locks m = ∅) ∧
  ∃ m', mstep m0 m'.
Proof.
  intros m0. assert (cpu_ok (w_cpu tick)) as Hw by (split_and!; simpl; [lia|done|done]).
  destruct (sleep_wakeup (A:=unit) CTicks Ltickslock demo_cpu ∅ demo_sys 0 (demo_proc RUNNING 1) [tick]) as (_&_&H).
  - exact demo_cpu_ok.
  - reflexivity.
  - reflexivity.
  - reflexivity.
  - reflexivity.
  - discriminate.
  - constructor; [by split|constructor].
  - apply NoDup_cons. split; [by intros ?%list_elem_of_singleton|apply NoDup_singleton].
  - split.
    + destruct (exec [0; 0; 1; 1; 0; 0; 0; 0; 1; 1; 1; 1]%nat m0) as [m|] eqn:E; [|by vm_compute in E].
      exists m. split; [done|]. apply exec_mstep in E.
      destruct (H _ _ E) as (_&_&[[m' Hm']|(_&HL&q&Hq&Hr)]).
      * destruct (H (S 12) m') as [Hle _]; [|simpl in Hle; lia]. eapply nsteps_r; [exact E|exact Hm'].
      * split; [|exact HL]. by rewrite /state_of Hq /= Hr.
    + destruct (H 0%nat m0) as (_&_&[Hm|(Hf&_)]); [constructor|exact Hm|].
      by apply Forall_cons_1 in Hf as [? _].
Defined.
