(* ===== verification/Syscall.v ===== *)
(** * System call arguments and the process system calls

    Models [fetchint], [fetchstr], [argint], [argptr] and [argstr] of
    [src/Xv6-Syscall/src/syscall.c] and the system calls of [sysproc.c].

    The kernel reads user memory through the page table of the current
    process; an access to an address that is not mapped is undefined (it traps
    in the kernel).  A string argument is its bytes, up to and with the NUL. *)

From S2P Require Import Prelude CInt CString Kernel Params Sleeplock Bio Log BlockIO Fs Kalloc Vm Sys Pipe PipeSpec File Proc.

(** The kernel address of the byte at user address [a]. *)
Definition translate (pgdir a : Z) : K vmem Z :=
  pte ← walkpgdir pgdir a false;
  if pte =? 0 then undef else
  e ← rd32 pte;
  if set_bits e PTE_P then mret (P2V (PTE_ADDR e) + a mod PGSIZE) else undef.

Definition rd_user (pgdir a : Z) : K vmem Z :=
  v ← translate pgdir a; p ← get_page v; deref (p !! po v).

Definition wr_user (pgdir a b : Z) : K vmem unit :=
  v ← translate pgdir a; p ← get_page v; put_page v (blit (po v) [b] p).

Fixpoint rd_user_bytes (pgdir a : Z) (n : nat) : K vmem (list Z) :=
  match n with
  | O => mret []
  | S n => b ← rd_user pgdir a; l ← rd_user_bytes pgdir (u32 (a + 1)) n; mret (b :: l)
  end.

Fixpoint wr_user_bytes (pgdir a : Z) (l : list Z) : K vmem unit :=
  match l with
  | [] => mret ()
  | b :: l => wr_user pgdir a b;; wr_user_bytes pgdir (u32 (a + 1)) l
  end.

(** [*ip], or [None] for -1. *)
Definition fetchint (addr : Z) : K sys (option Z) :=
  i ← curproc;
  p ← pget i;
  if (p_sz p <=? addr) || (p_sz p <? u32 (addr + 4)) then mret None else
  l ← vm (rd_user_bytes (p_pgdir p) addr 4);
  mret (Some (s32 (le_val l))).

(** The loop of [fetchstr]: [n] bytes are left up to the end of the process. *)
Fixpoint fetchstr_loop (pgdir s : Z) (n : nat) : K vmem (option (list Z)) :=
  match n with
  | O => mret None
  | S n =>
      b ← rd_user pgdir s;
      if b =? 0 then mret (Some [0]) else
      o ← fetchstr_loop pgdir (u32 (s + 1)) n;
      mret (cons b <$> o)
  end.

Definition fetchstr (addr : Z) : K sys (option (list Z)) :=
  i ← curproc;
  p ← pget i;
  if p_sz p <=? addr then mret None else
  vm (fetchstr_loop (p_pgdir p) addr (Z.to_nat (p_sz p - addr))).

Definition argint (n : Z) : K sys (option Z) :=
  i ← curproc;
  p ← pget i;
  esp ← vm (rd32 (p_tf p + TF_esp));
  fetchint (u32 (esp + 4 + 4 * n)).

Definition argptr (n size : Z) : K sys (option Z) :=
  i ← curproc;
  o ← argint n;
  match o with
  | None => mret None
  | Some a =>
      p ← pget i;
      if (size <? 0) || (p_sz p <=? u32 a) || (p_sz p <? u32 (u32 a + size)) then mret None else
      mret (Some (u32 a))
  end.

Definition argstr (n : Z) : K sys (option (list Z)) :=
  o ← argint n;
  match o with None => mret None | Some addr => fetchstr (u32 addr) end.

(** ** sysproc.c *)

Section Sysproc.
Context (kend kdata_addr trapret_addr forkret_addr : Z).

Definition sys_fork : K sys Z := fork kend kdata_addr trapret_addr forkret_addr.
Definition sys_exit : K sys Z := exit kend.
Definition sys_wait : K sys Z := wait kend.

Definition sys_kill : K sys Z :=
  o ← argint 0;
  match o with None => mret (-1) | Some pid => kill pid end.

Definition sys_getpid : K sys Z := i ← curproc; p ← pget i; mret (p_pid p).

Definition sys_sbrk : K sys Z :=
  o ← argint 0;
  match o with
  | None => mret (-1)
  | Some n =>
      i ← curproc;
      p ← pget i;
      let addr := s32 (p_sz p) in
      r ← growproc kend n;
      if r <? 0 then mret (-1) else mret addr
  end.

(** [sys_sleep] from the test of its loop on, [tickslock] held. *)
Definition sleep_until (ticks0 n : Z) : K sys Z :=
  t ← gets k_ticks;
  if u32 (t - ticks0) <? u32 n then
    k ← killed;
    if (k : bool) then release Ltickslock;; mret (-1) else sleep CTicks Ltickslock
  else
    release Ltickslock;;
    mret 0.

Definition sys_sleep : K sys Z :=
  o ← argint 0;
  match o with
  | None => mret (-1)
  | Some n =>
      acquire Ltickslock;;
      ticks0 ← gets k_ticks;
      sleep_until ticks0 n
  end.

Definition sys_uptime : K sys Z :=
  acquire Ltickslock;;
  x ← gets k_ticks;
  release Ltickslock;;
  mret (s32 x).
End Sysproc.
