(* ===== verification/Sysfile.v ===== *)
(** * File system calls

    Models [src/Xv6-Syscall/src/sysfile.c].  A null [struct inode *] is
    [None].  Error exits return -1. *)

From S2P Require Import Prelude CInt CString Kernel Params Sleeplock Bio Log BlockIO Fs Kalloc Vm Sys Pipe PipeSpec File Proc Syscall.

Section Sysfile.
Context (kend : Z) (devsw : Z → devops (fstate lstate)).

(** The descriptor and the file, or [None] for -1. *)
Definition argfd (n : Z) : K sys (option (nat * nat)) :=
  o ← argint n;
  match o with
  | None => mret None
  | Some fd =>
      if (fd <? 0) || (NOFILE <=? fd) then mret None else
      i ← curproc;
      p ← pget i;
      f ← deref (p_ofile p !! Z.to_nat fd);
      mret (match f with Some f => Some (Z.to_nat fd, f) | None => None end)
  end.

Definition fdalloc (f : nat) : K sys Z :=
  i ← curproc;
  r ← for_find (seq 0 NOFILE) (λ fd,
    p ← pget i;
    o ← deref (p_ofile p !! fd);
    match o with
    | Some _ => mret None
    | None => pset i (λ p, set_ofile (<[fd := Some f]> (p_ofile p)) p);; mret (Some (Z.of_nat fd))
    end);
  mret (default (-1) r).

Definition sys_dup : K sys Z :=
  o ← argfd 0;
  match o with
  | None => mret (-1)
  | Some (_, f) =>
      fd ← fdalloc f;
      if fd <? 0 then mret (-1) else
      filedup f;;
      mret fd
  end.

Definition readcountinit : K sys unit := initlock Lread_count.

(** Copies the bytes read to the user's buffer. *)
Definition copy_to_user (a : Z) (l : list Z) : K sys unit :=
  i ← curproc; p ← pget i; vm (wr_user_bytes (p_pgdir p) a l).
Definition copy_from_user (a : Z) (n : Z) : K sys (list Z) :=
  i ← curproc; p ← pget i; vm (rd_user_bytes (p_pgdir p) a (Z.to_nat n)).

(** The file, the buffer and its size: the checks [sys_read] and [sys_write]
    share. *)
Definition arg_io : K sys (option (nat * Z * Z)) :=
  o ← argfd 0;
  match o with
  | None => mret None
  | Some (_, f) =>
      o ← argint 2;
      match o with
      | None => mret None
      | Some n =>
          o ← argptr 1 n;
          match o with None => mret None | Some a => mret (Some (f, a, n)) end
      end
  end.

Definition sys_read : K sys Z :=
  acquire Lread_count;;
  modify (λ s, set_kread_count (s32 (k_read_count s + 1)) s);;
  release Lread_count;;
  o ← arg_io;
  match o with
  | None => mret (-1)
  | Some (f, a, n) =>
      r ← fileread devsw f n;
      copy_to_user a r.2;;
      mret r.1
  end.

Definition sys_getreadcount : K sys Z := gets k_read_count.

Definition sys_write : K sys Z :=
  o ← arg_io;
  match o with
  | None => mret (-1)
  | Some (f, a, n) => l ← copy_from_user a n; filewrite devsw f l n
  end.

Definition sys_close : K sys Z :=
  o ← argfd 0;
  match o with
  | None => mret (-1)
  | Some (fd, f) =>
      i ← curproc;
      pset i (λ p, set_ofile (<[fd := None]> (p_ofile p)) p);;
      fileclose kend f;;
      mret 0
  end.

(** The bytes of a [struct stat]. *)
Definition stat_bytes (st : stat) : list Z :=
  le_bytes 2 (u16 (st_type st)) ++ [0; 0] ++ le_bytes 4 (u32 (st_dev st)) ++ le_bytes 4 (u32 (st_ino st)) ++
  le_bytes 2 (u16 (st_nlink st)) ++ [0; 0] ++ le_bytes 4 (u32 (st_size st)).
Definition STAT_SIZE : Z := 20.

Definition sys_fstat : K sys Z :=
  o ← argfd 0;
  match o with
  | None => mret (-1)
  | Some (_, f) =>
      o ← argptr 1 STAT_SIZE;
      match o with
      | None => mret (-1)
      | Some a =>
          r ← filestat f;
          match r with
          | (r, Some st) => copy_to_user a (stat_bytes st);; mret r
          | (r, None) => mret r
          end
      end
  end.

Definition iref_get (i : nat) : K sys inode := fs (iptr i).
Definition inode_upd (i : nat) (f : inode → inode) : K sys unit := fs (iupd i f).

(** The label [bad] of [sys_link]. *)
Definition link_undo (ip : nat) : K sys Z :=
  fs (ilock (Some ip));;
  inode_upd ip (λ x, set_inlink (s16 (inlink x - 1)) x);;
  fs (iupdate ip);;
  fs (iunlockput (Some ip));;
  op_end;;
  mret (-1).

Definition sys_link : K sys Z :=
  old ← argstr 0;
  match old with None => mret (-1) | Some old =>
  new ← argstr 1;
  match new with None => mret (-1) | Some new =>
  op_begin;;
  o ← fs (namei devsw old);
  match o with None => op_end;; mret (-1) | Some ip =>
  fs (ilock (Some ip));;
  x ← iref_get ip;
  if itype x =? T_DIR then fs (iunlockput (Some ip));; op_end;; mret (-1) else
  inode_upd ip (λ x, set_inlink (s16 (inlink x + 1)) x);;
  fs (iupdate ip);;
  fs (iunlock (Some ip));;
  r ← fs (nameiparent devsw new (replicate DIRSIZ 0));
  match r with
  | (None, _) => link_undo ip
  | (Some dp, name) =>
      fs (ilock (Some dp));;
      d ← iref_get dp;
      x ← iref_get ip;
      r ← (if negb (idev d =? idev x) then mret (-1) else fs (dirlink devsw dp name (inum x)));
      if r <? 0 then fs (iunlockput (Some dp));; link_undo ip else
      fs (iunlockput (Some dp));;
      fs (iput ip);;
      op_end;;
      mret 0
  end end end end.

Definition isdirempty (dp : nat) : K sys Z :=
  d ← iref_get dp;
  r ← for_find ((λ k : nat, (2 + k) * DIRENT_SIZE) <$>
                seq 0 (Z.to_nat ((isize d - 2 * DIRENT_SIZE + DIRENT_SIZE - 1) / DIRENT_SIZE))) (λ off,
    de ← fs (read_dirent devsw dp off "isdirempty: readi");
    mret (if de_inum de =? 0 then None else Some 0));
  mret (default 1 r).

(** The label [bad] of [sys_unlink]. *)
Definition unlink_bad (dp : nat) : K sys Z := fs (iunlockput (Some dp));; op_end;; mret (-1).

Definition sys_unlink : K sys Z :=
  path ← argstr 0;
  match path with None => mret (-1) | Some path =>
  op_begin;;
  r ← fs (nameiparent devsw path (replicate DIRSIZ 0));
  match r with
  | (None, _) => op_end;; mret (-1)
  | (Some dp, name) =>
      fs (ilock (Some dp));;
      d1 ← fs (namecmp name [46; 0]);
      d2 ← (if d1 =? 0 then mret 0 else fs (namecmp name [46; 46; 0]));
      if d2 =? 0 then unlink_bad dp else
      o ← fs (dirlookup devsw dp name);
      match o with
      | None => unlink_bad dp
      | Some (ip, off) =>
          fs (ilock (Some ip));;
          x ← iref_get ip;
          if inlink x <? 1 then panic "unlink: nlink < 1" else
          empty ← (if itype x =? T_DIR then isdirempty ip else mret 1);
          if empty =? 0 then fs (iunlockput (Some ip));; unlink_bad dp else
          n ← fs (writei devsw dp (replicate (Z.to_nat DIRENT_SIZE) 0) off DIRENT_SIZE);
          if negb (n =? DIRENT_SIZE) then panic "unlink: writei" else
          x ← iref_get ip;
          (if itype x =? T_DIR then
             inode_upd dp (λ d, set_inlink (s16 (inlink d - 1)) d);;
             fs (iupdate dp)
           else mret ());;
          fs (iunlockput (Some dp));;
          inode_upd ip (λ x, set_inlink (s16 (inlink x - 1)) x);;
          fs (iupdate ip);;
          fs (iunlockput (Some ip));;
          op_end;;
          mret 0
      end
  end end.

Definition set_dev (major minor nlink : Z) (x : inode) : inode :=
  Inode (idev x) (inum x) (iref x) (ilk x) (ivalid x) (itype x) major minor nlink (isize x) (iaddrs x).

(** The new inode is returned locked. *)
Definition create (path : list Z) (type major minor : Z) : K sys (option nat) :=
  r ← fs (nameiparent devsw path (replicate DIRSIZ 0));
  match r with
  | (None, _) => mret None
  | (Some dp, name) =>
      fs (ilock (Some dp));;
      o ← fs (dirlookup devsw dp name);
      match o with
      | Some (ip, _) =>
          fs (iunlockput (Some dp));;
          fs (ilock (Some ip));;
          x ← iref_get ip;
          if (type =? T_FILE) && (itype x =? T_FILE) then mret (Some ip) else
          fs (iunlockput (Some ip));;
          mret None
      | None =>
          d ← iref_get dp;
          ip ← fs (ialloc (idev d) type);
          fs (ilock (Some ip));;
          inode_upd ip (set_dev (s16 major) (s16 minor) 1);;
          fs (iupdate ip);;
          x ← iref_get ip;
          (if type =? T_DIR then
             inode_upd dp (λ d, set_inlink (s16 (inlink d + 1)) d);;
             fs (iupdate dp);;
             r1 ← fs (dirlink devsw ip [46; 0] (inum x));
             r2 ← (if r1 <? 0 then mret (-1) else fs (dirlink devsw ip [46; 46; 0] (inum d)));
             if r2 <? 0 then panic "create dots" else mret ()
           else mret ());;
          r ← fs (dirlink devsw dp name (inum x));
          if r <? 0 then panic "create: dirlink" else
          fs (iunlockput (Some dp));;
          mret (Some ip)
      end
  end.

(** The inode [sys_open] opens, locked; [None] after its error exits. *)
Definition open_inode (path : list Z) (omode : Z) : K sys (option nat) :=
  if set_bits omode O_CREATE then
    o ← create path T_FILE 0 0;
    match o with
    | None => op_end;; mret None
    | Some ip => mret (Some ip)
    end
  else
    o ← fs (namei devsw path);
    match o with
    | None => op_end;; mret None
    | Some ip =>
        fs (ilock (Some ip));;
        x ← iref_get ip;
        if (itype x =? T_DIR) && negb (omode =? O_RDONLY) then
          fs (iunlockput (Some ip));; op_end;; mret None
        else mret (Some ip)
    end.

Definition sys_open : K sys Z :=
  path ← argstr 0;
  match path with None => mret (-1) | Some path =>
  o ← argint 1;
  match o with None => mret (-1) | Some omode =>
  op_begin;;
  o ← open_inode path omode;
  match o with None => mret (-1) | Some ip =>
  f ← filealloc;
  fd ← (match f with None => mret (-1) | Some f => fdalloc f end);
  match f with
  | Some f =>
      if fd <? 0 then
        fileclose kend f;;
        fs (iunlockput (Some ip));;
        op_end;;
        mret (-1)
      else
        fs (iunlock (Some ip));;
        op_end;;
        fupd f (λ x, File FD_INODE (f_ref x) (if set_bits omode O_WRONLY then 0 else 1)
                          (if set_bits omode O_WRONLY || set_bits omode O_RDWR then 1 else 0)
                          (f_pipe x) (Some ip) 0);;
        mret fd
  | None =>
      fs (iunlockput (Some ip));;
      op_end;;
      mret (-1)
  end end end end.

Definition sys_mkdir : K sys Z :=
  op_begin;;
  path ← argstr 0;
  o ← (match path with None => mret None | Some path => create path T_DIR 0 0 end);
  match o with
  | None => op_end;; mret (-1)
  | Some ip => fs (iunlockput (Some ip));; op_end;; mret 0
  end.

Definition sys_mknod : K sys Z :=
  op_begin;;
  path ← argstr 0;
  major ← (match path with None => mret None | Some _ => argint 1 end);
  minor ← (match major with None => mret None | Some _ => argint 2 end);
  o ← (match path, major, minor with
       | Some path, Some major, Some minor => create path T_DEV (s16 major) (s16 minor)
       | _, _, _ => mret None
       end);
  match o with
  | None => op_end;; mret (-1)
  | Some ip => fs (iunlockput (Some ip));; op_end;; mret 0
  end.

Definition sys_chdir : K sys Z :=
  i ← curproc;
  op_begin;;
  path ← argstr 0;
  o ← (match path with None => mret None | Some path => fs (namei devsw path) end);
  match o with
  | None => op_end;; mret (-1)
  | Some ip =>
      fs (ilock (Some ip));;
      x ← iref_get ip;
      if negb (itype x =? T_DIR) then fs (iunlockput (Some ip));; op_end;; mret (-1) else
      fs (iunlock (Some ip));;
      p ← pget i;
      c ← cwd_of (p_pid p);
      c ← deref c;
      fs (iput c);;
      op_end;;
      put_cwd (p_pid p) (Some ip);;
      mret 0
  end.

(** The loop of [sys_exec] from index [i] on: the arguments, or [None] for
    -1. *)
Fixpoint exec_args (n : nat) (uargv : Z) (i : Z) : K sys (option (list (list Z))) :=
  match n with
  | O => mret None
  | S n =>
      o ← fetchint (u32 (uargv + 4 * i));
      match o with
      | None => mret None
      | Some uarg =>
          if uarg =? 0 then mret (Some []) else
          o ← fetchstr (u32 uarg);
          match o with
          | None => mret None
          | Some a => l ← exec_args n uargv (i + 1); mret (cons a <$> l)
          end
      end
  end.

Definition sys_exec (exec : list Z → list (list Z) → K sys Z) : K sys Z :=
  path ← argstr 0;
  match path with None => mret (-1) | Some path =>
  o ← argint 1;
  match o with None => mret (-1) | Some uargv =>
  l ← exec_args MAXARG (u32 uargv) 0;
  match l with None => mret (-1) | Some argv => exec path argv end end end.

Definition sys_pipe : K sys Z :=
  o ← argptr 0 8;
  match o with None => mret (-1) | Some fd =>
  o ← pipealloc kend;
  match o with None => mret (-1) | Some (rf, wf) =>
  fd0 ← fdalloc rf;
  fd1 ← (if fd0 <? 0 then mret (-1) else fdalloc wf);
  if fd1 <? 0 then
    (if 0 <=? fd0 then
       i ← curproc; pset i (λ p, set_ofile (<[Z.to_nat fd0 := None]> (p_ofile p)) p)
     else mret ());;
    fileclose kend rf;;
    fileclose kend wf;;
    mret (-1)
  else
    copy_to_user fd (le_bytes 4 (u32 fd0) ++ le_bytes 4 (u32 fd1));;
    mret 0
  end end.
End Sysfile.
