(* ===== verification/Trap.v ===== *)
(** * [exec], system call dispatch and traps

    Models [src/Xv6-Syscall/src/exec.c], [syscall] of [syscall.c] and [trap] of
    [trap.c].  The handlers of device interrupts are parameters, since they
    drive hardware; console output is not part of the state. *)

From S2P Require Import Prelude CInt CString Kernel Params Sleeplock Bio Log BlockIO Fs Kalloc Vm Sys Pipe PipeSpec File Proc Syscall Sysfile.

(** ** exec.c and elf.h *)

Definition ELF_MAGIC : Z := 1179403647.
Definition ELF_PROG_LOAD : Z := 1.

(** The fields of [struct elfhdr] and [struct proghdr] the kernel reads. *)
Record elfhdr := Elfhdr { e_magic : Z; e_entry : Z; e_phoff : Z; e_phnum : Z }.
Record proghdr := Proghdr {
  ph_type : Z; ph_off : Z; ph_vaddr : Z; ph_filesz : Z; ph_memsz : Z
}.
Definition ELFHDR_SIZE : Z := 52.
Definition PROGHDR_SIZE : Z := 32.

Definition word_of (l : list Z) (off : nat) : Z := le_val (slice off 4 l).
Definition elf_dec (l : list Z) : elfhdr :=
  Elfhdr (word_of l 0) (word_of l 24) (word_of l 28) (le_val (slice 44 2 l)).
Definition ph_dec (l : list Z) : proghdr :=
  Proghdr (word_of l 0) (word_of l 4) (word_of l 8) (word_of l 16) (word_of l 20).

Section Exec.
Context (kend kdata_addr : Z) (devsw : Z → devops (fstate lstate)).

(** The label [bad]. *)
Definition exec_bad (pgdir : Z) (ip : option nat) : K sys Z :=
  (if pgdir =? 0 then mret () else vm (freevm kend pgdir));;
  (match ip with
   | Some _ => fs (iunlockput ip);; op_end
   | None => mret ()
   end);;
  mret (-1).

(** The loop over the program headers: the size of the image, or [None] for
    [goto bad]. *)
Fixpoint exec_load (n : nat) (ip : nat) (pgdir off sz : Z) : K sys (option Z) :=
  match n with
  | O => mret (Some sz)
  | S n =>
      r ← fs (readi devsw ip (u32 off) PROGHDR_SIZE);
      if negb (r.1 =? PROGHDR_SIZE) then mret None else
      let ph := ph_dec r.2 in
      let next := s32 (off + PROGHDR_SIZE) in
      if negb (ph_type ph =? ELF_PROG_LOAD) then exec_load n ip pgdir next sz else
      if ph_memsz ph <? ph_filesz ph then mret None else
      if u32 (ph_vaddr ph + ph_memsz ph) <? ph_vaddr ph then mret None else
      sz ← vm (allocuvm kend pgdir sz (u32 (ph_vaddr ph + ph_memsz ph)));
      let sz := u32 sz in
      if sz =? 0 then mret None else
      if negb (ph_vaddr ph mod PGSIZE =? 0) then mret None else
      r ← loaduvm k_vm set_kvm (λ off n, fs (readi devsw ip off n)) pgdir (ph_vaddr ph) (ph_off ph) (ph_filesz ph);
      if r <? 0 then mret None else
      exec_load n ip pgdir next sz
  end.

(** Pushes the argument strings: the stack pointer and the addresses of the
    strings, or [None] for [goto bad]. *)
Fixpoint exec_push (pgdir sp : Z) (argc : nat) (argv : list (list Z)) : K sys (option (Z * list Z)) :=
  match argv with
  | [] => mret (Some (sp, []))
  | a :: argv =>
      if (MAXARG <=? argc)%nat then mret None else
      n ← deref (strlen a);
      let sp := u32 (Z.land (u32 (sp - (n + 1))) (Z.lnot 3)) in
      r ← vm (copyout pgdir sp (take (Z.to_nat (n + 1)) a));
      if r <? 0 then mret None else
      o ← exec_push pgdir sp (S argc) argv;
      mret (match o with Some (sp', l) => Some (sp', sp :: l) | None => None end)
  end.

(** The part of [path] after its last slash. *)
Fixpoint last_elem (path last : list Z) : list Z :=
  match path with
  | [] => last
  | c :: path => if c =? 0 then last else last_elem path (if c =? 47 then path else last)
  end.

Definition exec (path : list Z) (argv : list (list Z)) : K sys Z :=
  i ← curproc;
  op_begin;;
  o ← fs (namei devsw path);
  match o with
  | None => op_end;; mret (-1)
  | Some ip =>
      fs (ilock (Some ip));;
      r ← fs (readi devsw ip 0 ELFHDR_SIZE);
      if negb (r.1 =? ELFHDR_SIZE) then exec_bad 0 (Some ip) else
      let elf := elf_dec r.2 in
      if negb (e_magic elf =? ELF_MAGIC) then exec_bad 0 (Some ip) else
      pgdir ← vm (setupkvm kend kdata_addr);
      if pgdir =? 0 then exec_bad 0 (Some ip) else
      o ← exec_load (Z.to_nat (e_phnum elf)) ip pgdir (s32 (e_phoff elf)) 0;
      match o with
      | None => exec_bad pgdir (Some ip)
      | Some sz =>
          fs (iunlockput (Some ip));;
          op_end;;
          let sz := PGROUNDUP sz in
          sz ← vm (allocuvm kend pgdir sz (u32 (sz + 2 * PGSIZE)));
          let sz := u32 sz in
          if sz =? 0 then exec_bad pgdir None else
          vm (clearpteu pgdir (u32 (sz - 2 * PGSIZE)));;
          o ← exec_push pgdir sz 0 argv;
          match o with
          | None => exec_bad pgdir None
          | Some (sp, l) =>
              let argc := Z.of_nat (length l) in
              let ustack := [4294967295; argc; u32 (sp - (argc + 1) * 4)] ++ l ++ [0] in
              let sp := u32 (sp - (3 + argc + 1) * 4) in
              r ← vm (copyout pgdir sp (mjoin (le_bytes 4 <$> ustack)));
              if r <? 0 then exec_bad pgdir None else
              p ← pget i;
              nm ← copy_name (p_name p) (last_elem path path);
              pset i (set_pname nm);;
              pset i (set_pgdir pgdir);;
              pset i (set_sz sz);;
              vm (wr32 (p_tf p + TF_eip) (e_entry elf));;
              vm (wr32 (p_tf p + TF_esp) sp);;
              vm (switchuvm (Some (p_kstack p, pgdir)));;
              vm (freevm kend (p_pgdir p));;
              mret 0
          end
      end
  end.
End Exec.

(** ** Dispatch *)

Section Trap.
Context (kend kdata_addr trapret_addr forkret_addr : Z) (devsw : Z → devops (fstate lstate)).
(** [mycpu() - cpus] by APIC id, and the interrupt handlers of the devices. *)
Context (cpu_index : Z → Z) (ideintr kbdintr uartintr : K sys unit).

Inductive sysnum :=
| SYS_fork | SYS_exit | SYS_wait | SYS_pipe | SYS_read | SYS_kill | SYS_exec | SYS_fstat | SYS_chdir
| SYS_dup | SYS_getpid | SYS_sbrk | SYS_sleep | SYS_uptime | SYS_open | SYS_write | SYS_mknod
| SYS_unlink | SYS_link | SYS_mkdir | SYS_close | SYS_getreadcount.

(** System call numbers, from 1. *)
Definition sysnums : list sysnum :=
  [SYS_fork; SYS_exit; SYS_wait; SYS_pipe; SYS_read; SYS_kill; SYS_exec; SYS_fstat; SYS_chdir;
   SYS_dup; SYS_getpid; SYS_sbrk; SYS_sleep; SYS_uptime; SYS_open; SYS_write; SYS_mknod;
   SYS_unlink; SYS_link; SYS_mkdir; SYS_close; SYS_getreadcount].

Definition syscalls (n : sysnum) : K sys Z :=
  match n with
  | SYS_fork => sys_fork kend kdata_addr trapret_addr forkret_addr
  | SYS_exit => sys_exit kend
  | SYS_wait => sys_wait kend
  | SYS_pipe => sys_pipe kend
  | SYS_read => sys_read devsw
  | SYS_kill => sys_kill
  | SYS_exec => sys_exec (exec kend kdata_addr devsw)
  | SYS_fstat => sys_fstat
  | SYS_chdir => sys_chdir devsw
  | SYS_dup => sys_dup
  | SYS_getpid => sys_getpid
  | SYS_sbrk => sys_sbrk kend
  | SYS_sleep => sys_sleep
  | SYS_uptime => sys_uptime
  | SYS_open => sys_open kend devsw
  | SYS_write => sys_write devsw
  | SYS_mknod => sys_mknod devsw
  | SYS_unlink => sys_unlink devsw
  | SYS_link => sys_link devsw
  | SYS_mkdir => sys_mkdir devsw
  | SYS_close => sys_close kend
  | SYS_getreadcount => sys_getreadcount
  end.

Definition sys_lookup (num : Z) : option sysnum :=
  if num <=? 0 then None else sysnums !! Z.to_nat (num - 1).

Definition syscall : K sys unit :=
  i ← curproc;
  p ← pget i;
  num ← vm (rd32 (p_tf p + TF_eax));
  match sys_lookup (s32 num) with
  | Some n =>
      r ← syscalls n;
      p ← pget i;
      vm (wr32 (p_tf p + TF_eax) r)
  | None => vm (wr32 (p_tf p + TF_eax) (-1))
  end.

(** [cpuid()]. *)
Definition cpuid : K sys Z := c ← mycpu; mret (cpu_index (apicid c)).

(** [(tf->cs & 3)]. *)
Definition tf_cpl (tf : Z) : K sys Z := cs ← vm (rd16 (tf + TF_cs)); mret (Z.land cs 3).

(** [myproc() && myproc()->killed && (tf->cs&3) == DPL_USER]. *)
Definition killed_in_user (tf : Z) : K sys bool :=
  o ← myproc;
  match o with
  | None => mret false
  | Some i =>
      p ← pget i;
      if p_killed p =? 0 then mret false else
      l ← tf_cpl tf; mret (l =? DPL_USER)
  end.

Definition exit_if (b : bool) : K sys unit := if b then exit kend else mret ().

(** The [switch] on the trap number. *)
Definition trap_switch (tf trapno : Z) : K sys unit :=
  if trapno =? T_IRQ0 + IRQ_TIMER then
    n ← cpuid;
    if n =? 0 then
      acquire Ltickslock;;
      modify (λ s, set_kticks (u32 (k_ticks s + 1)) s);;
      wakeup CTicks;;
      release Ltickslock
    else mret ()
  else if trapno =? T_IRQ0 + IRQ_IDE then ideintr
  else if trapno =? T_IRQ0 + IRQ_IDE + 1 then mret ()
  else if trapno =? T_IRQ0 + IRQ_KBD then kbdintr
  else if trapno =? T_IRQ0 + IRQ_COM1 then uartintr
  else if (trapno =? T_IRQ0 + 7) || (trapno =? T_IRQ0 + IRQ_SPURIOUS) then mret ()
  else
    o ← myproc;
    match o with
    | None => panic "trap"
    | Some i =>
        l ← tf_cpl tf;
        if l =? 0 then panic "trap" else pset i (set_killed 1)
    end.

Definition trap (tf : Z) : K sys unit :=
  trapno ← vm (rd32 (tf + TF_trapno));
  if trapno =? T_SYSCALL then
    k ← killed;
    exit_if k;;
    i ← curproc;
    pset i (set_tf tf);;
    syscall;;
    k ← killed;
    exit_if k
  else
  trap_switch tf trapno;;
  k ← killed_in_user tf;
  exit_if k;;
  o ← myproc;
  y ← (match o with
       | None => mret false
       | Some i => p ← pget i; mret (bool_decide (p_state p = RUNNING) && (trapno =? T_IRQ0 + IRQ_TIMER))
       end);
  if (y : bool) then yield else
  k ← killed_in_user tf;
  exit_if k.

(** [trap] after its [yield] returned. *)
Definition trap_resume (tf : Z) : K sys unit :=
  yield_resume;;
  k ← killed_in_user tf;
  exit_if k.
End Trap.
