(* ===== verification/ReadCount.v ===== *)
(** * [getreadcount] counts the calls of [read]

    The counter of [sysfile.c] is changed by [sys_read] only: [keeps] is the
    frame property of a kernel routine that leaves it alone, whatever its
    outcome, and it holds of every other system call.  Along any history of
    system calls, the counter is the number of calls of [read]. *)

From S2P Require Import Prelude CInt CString Kernel Params Sleeplock Bio Log BlockIO Fs Kalloc Vm Sys Pipe PipeSpec File Proc Syscall Sysfile Trap.

(** The state an outcome leaves, if any, satisfies [P]. *)
Definition leaves {S A} (P : S → Prop) (o : outcome (kst S) A) : Prop :=
  match o with
  | Ret _ σ | Panic _ σ | Sleep _ _ σ | Spin _ σ | Switch σ => P (kdata σ)
  | Undef | NoFuel => True
  end.

(** The routine leaves the read counter alone. *)
Definition keeps {A} (m : K sys A) : Prop :=
  ∀ σ, leaves (λ s, k_read_count s = k_read_count (kdata σ)) (m σ).

Create HintDb rc.

Lemma keeps_bind {A B} (m : K sys A) (f : A → K sys B) : keeps m → (∀ a, keeps (f a)) → keeps (m ≫= f).
Proof.
  intros Hm Hf σ. specialize (Hm σ). rewrite /mbind /K_bind. destruct (m σ) as [a σ'|?|?|?|?| |]; try done.
  simpl in Hm. specialize (Hf a σ'). rewrite Hm in Hf. exact Hf.
Qed.

Section Keeps.
Context {A B : Type}.

Lemma keeps_ret (a : A) : keeps (mret a).
Proof. done. Qed.

Lemma keeps_modify f : (∀ s, k_read_count (f s) = k_read_count s) → keeps (modify f).
Proof. intros Hf σ. apply Hf. Qed.

Lemma keeps_gets (f : sys → A) : keeps (gets f).
Proof. done. Qed.

Lemma keeps_deref (o : option A) : keeps (deref o).
Proof. by destruct o. Qed.

Lemma keeps_panic msg : keeps (panic (A:=A) msg).
Proof. done. Qed.

Lemma keeps_undef : keeps (undef (A:=A)).
Proof. done. Qed.

Lemma keeps_nofuel : keeps (nofuel (A:=A)).
Proof. done. Qed.

Lemma keeps_for_each (l : list B) f : (∀ b, keeps (f b)) → keeps (for_each l f).
Proof. intros Hf. induction l as [|b l IH]; [done|]. cbn [for_each]. by apply keeps_bind. Qed.

Lemma keeps_for_find (l : list B) (f : B → K sys (option A)) : (∀ b, keeps (f b)) → keeps (for_find l f).
Proof. intros Hf. induction l as [|b l IH]; [done|]. cbn [for_find]. apply keeps_bind; [done|]. by intros [a|]. Qed.
End Keeps.

#[export] Hint Resolve keeps_ret keeps_gets keeps_deref keeps_panic keeps_undef keeps_nofuel : rc.

(** Walk through a routine: sequencing, tests and case distinctions. *)
Ltac keeps_step :=
  lazymatch goal with
  | |- ∀ _, keeps _ => intro
  | |- keeps (mbind _ _) => apply keeps_bind
  | |- keeps (for_each _ _) => apply keeps_for_each
  | |- keeps (for_find _ _) => apply keeps_for_find
  | |- keeps (modify _) => apply keeps_modify; first [done|by intros []]
  | |- keeps (if ?b then _ else _) => destruct b
  | |- keeps (match ?x with _ => _ end) => destruct x
  | |- keeps _ => solve [eauto 3 with rc]
  end.
Ltac keeps_tac := repeat keeps_step.

(** Routines of the lock and CPU layer only touch that layer. *)
Ltac keeps_cpu := intros σ; repeat (rewrite /mbind /K_bind); by repeat (case_match; simplify_eq/=).

Lemma keeps_pushcli : keeps pushcli.
Proof. by intros []. Qed.
Lemma keeps_mycpu : keeps mycpu.
Proof. intros σ. rewrite /mycpu. by destruct (eif _). Qed.
Lemma keeps_readeflags : keeps readeflags_if.
Proof. done. Qed.
Lemma keeps_put_cpu c : keeps (put_cpu c).
Proof. done. Qed.
Lemma keeps_lock_at lk : keeps (lock_at lk).
Proof. done. Qed.
Lemma keeps_mod_locks f : keeps (mod_locks f).
Proof. done. Qed.
Lemma keeps_xchg lk : keeps (xchg_loop lk).
Proof. intros σ. rewrite /xchg_loop. by destruct (klocks σ !! lk). Qed.
#[export] Hint Resolve keeps_pushcli keeps_mycpu keeps_readeflags keeps_put_cpu keeps_lock_at keeps_mod_locks keeps_xchg : rc.

Lemma keeps_popcli : keeps popcli.
Proof. rewrite /popcli. keeps_tac. Qed.
#[export] Hint Resolve keeps_popcli : rc.
Lemma keeps_holding lk : keeps (holding lk).
Proof. rewrite /holding. keeps_tac. Qed.
#[export] Hint Resolve keeps_holding : rc.
Lemma keeps_acquire lk : keeps (acquire lk).
Proof. rewrite /acquire. keeps_tac. Qed.
Lemma keeps_release lk : keeps (release lk).
Proof. rewrite /release. keeps_tac. Qed.
Lemma keeps_initlock lk : keeps (initlock lk).
Proof. done. Qed.
#[export] Hint Resolve keeps_acquire keeps_release keeps_initlock : rc.

Lemma keeps_pget i : keeps (pget i).
Proof. rewrite /pget. keeps_tac. Qed.
#[export] Hint Resolve keeps_pget : rc.
Lemma keeps_pset i f : keeps (pset i f).
Proof. rewrite /pset. keeps_tac. Qed.
Lemma keeps_myproc : keeps myproc.
Proof. rewrite /myproc. keeps_tac. Qed.
#[export] Hint Resolve keeps_pset keeps_myproc : rc.
Lemma keeps_curproc : keeps curproc.
Proof. rewrite /curproc. keeps_tac. Qed.
#[export] Hint Resolve keeps_curproc : rc.
Lemma keeps_switch {A} : keeps (A:=A) (λ σ, Switch σ).
Proof. done. Qed.
#[export] Hint Resolve keeps_switch : rc.
Lemma keeps_sched {A} : keeps (sched (A:=A)).
Proof. rewrite /sched. keeps_tac. Qed.
#[export] Hint Resolve keeps_sched : rc.
Lemma keeps_sleep_stmts i ch lk : keeps (in_order (sleep_stmts i ch lk)).
Proof. rewrite /in_order /sleep_stmts. case_bool_decide; cbn [app for_each]; keeps_tac. Qed.
#[export] Hint Resolve keeps_sleep_stmts : rc.
Lemma keeps_sleep {A} ch lk : keeps (sleep (A:=A) ch lk).
Proof. rewrite /sleep. keeps_tac. Qed.
Lemma keeps_wakeup1 ch : keeps (wakeup1 ch).
Proof. rewrite /wakeup1. keeps_tac. Qed.
#[export] Hint Resolve keeps_sleep keeps_wakeup1 : rc.
Lemma keeps_wakeup ch : keeps (wakeup ch).
Proof. rewrite /wakeup /in_order /wakeup_stmts. cbn [for_each]. keeps_tac. Qed.
#[export] Hint Resolve keeps_wakeup : rc.

(** Anything the memory and the file system do. *)
Lemma keeps_low {T A} get put (m : K T A) :
  (∀ v s, k_read_count (put v s) = k_read_count s) → keeps (low get put m).
Proof.
  intros Hp σ. rewrite /low. destruct (m _) as [a τ|msg τ|ch lk τ|lk τ|τ| |]; simpl; try apply Hp; try done.
  match goal with |- leaves _ (sleep ?ch ?lk ?st) => pose proof (keeps_sleep (A:=A) ch lk st) as H end.
  simpl in H. rewrite Hp in H. exact H.
Qed.
Lemma keeps_vm {A} (m : K vmem A) : keeps (vm m).
Proof. by apply keeps_low. Qed.
Lemma keeps_fs {A} (m : K (fstate lstate) A) : keeps (fs m).
Proof. by apply keeps_low. Qed.
#[export] Hint Resolve keeps_vm keeps_fs : rc.
Lemma keeps_op_begin : keeps op_begin.
Proof. apply keeps_fs. Qed.
Lemma keeps_op_end : keeps op_end.
Proof. apply keeps_fs. Qed.
#[export] Hint Resolve keeps_op_begin keeps_op_end : rc.

(** ** Pipes and files *)

Lemma keeps_pipe_get a : keeps (pipe_get a).
Proof. rewrite /pipe_get. keeps_tac. Qed.
#[export] Hint Resolve keeps_pipe_get : rc.
Lemma keeps_pipe_upd a f : keeps (pipe_upd a f).
Proof. rewrite /pipe_upd. keeps_tac. Qed.
Lemma keeps_killed : keeps killed.
Proof. rewrite /killed. keeps_tac. Qed.
#[export] Hint Resolve keeps_pipe_upd keeps_killed : rc.
Lemma keeps_pipewrite_loop a src : keeps (pipewrite_loop a src).
Proof. induction src; cbn [pipewrite_loop]; keeps_tac. Qed.
Lemma keeps_piperead_loop a n : keeps (piperead_loop a n).
Proof. induction n; cbn [piperead_loop]; keeps_tac. Qed.
#[export] Hint Resolve keeps_pipewrite_loop keeps_piperead_loop : rc.
Lemma keeps_pipewrite a addr n : keeps (pipewrite a addr n).
Proof. rewrite /pipewrite. keeps_tac. Qed.
Lemma keeps_piperead a n : keeps (piperead a n).
Proof. rewrite /piperead. keeps_tac. Qed.
Lemma keeps_pipeclose kend a b : keeps (pipeclose kend a b).
Proof. rewrite /pipeclose. keeps_tac. Qed.
#[export] Hint Resolve keeps_pipewrite keeps_piperead keeps_pipeclose : rc.

Lemma keeps_fget i : keeps (fget i).
Proof. rewrite /fget. keeps_tac. Qed.
#[export] Hint Resolve keeps_fget : rc.
Lemma keeps_fupd i f : keeps (fupd i f).
Proof. rewrite /fupd. keeps_tac. Qed.
#[export] Hint Resolve keeps_fupd : rc.
Lemma keeps_filealloc : keeps filealloc.
Proof. rewrite /filealloc. keeps_tac. Qed.
Lemma keeps_filedup i : keeps (filedup i).
Proof. rewrite /filedup. keeps_tac. Qed.
Lemma keeps_fileclose kend i : keeps (fileclose kend i).
Proof. rewrite /fileclose. keeps_tac. Qed.
Lemma keeps_filestat i : keeps (filestat i).
Proof. rewrite /filestat. keeps_tac. Qed.
Lemma keeps_fileread devsw i n : keeps (fileread devsw i n).
Proof. rewrite /fileread. keeps_tac. Qed.
Lemma keeps_filewrite_loop devsw fuel fd addr i n : keeps (filewrite_loop devsw fuel fd addr i n).
Proof. revert i. induction fuel; intros i; cbn [filewrite_loop]; keeps_tac. Qed.
#[export] Hint Resolve keeps_filealloc keeps_filedup keeps_fileclose keeps_filestat keeps_fileread keeps_filewrite_loop : rc.
Lemma keeps_filewrite devsw fd addr n : keeps (filewrite devsw fd addr n).
Proof. rewrite /filewrite. keeps_tac. Qed.
Lemma keeps_pipealloc kend : keeps (pipealloc kend).
Proof. rewrite /pipealloc /close_if. keeps_tac. Qed.
#[export] Hint Resolve keeps_filewrite keeps_pipealloc : rc.

(** ** Processes *)

Lemma keeps_allocproc a b : keeps (allocproc a b).
Proof. rewrite /allocproc. keeps_tac. Qed.
Lemma keeps_copy_name dst src : keeps (copy_name dst src).
Proof. rewrite /copy_name. keeps_tac. Qed.
Lemma keeps_cwd_of pid : keeps (cwd_of pid).
Proof. rewrite /cwd_of. keeps_tac. Qed.
Lemma keeps_put_cwd pid o : keeps (put_cwd pid o).
Proof. rewrite /put_cwd. keeps_tac. Qed.
Lemma keeps_growproc kend n : keeps (growproc kend n).
Proof. rewrite /growproc. keeps_tac. Qed.
Lemma keeps_fork_files i np : keeps (fork_files i np).
Proof. rewrite /fork_files. keeps_tac. Qed.
#[export] Hint Resolve keeps_allocproc keeps_copy_name keeps_cwd_of keeps_put_cwd keeps_growproc keeps_fork_files : rc.
Lemma keeps_fork kend kd a b : keeps (fork kend kd a b).
Proof. rewrite /fork. keeps_tac. Qed.
Lemma keeps_wakeup1_proc o : keeps (wakeup1_proc o).
Proof. rewrite /wakeup1_proc. keeps_tac. Qed.
#[export] Hint Resolve keeps_fork keeps_wakeup1_proc : rc.
Lemma keeps_exit_children i : keeps (exit_children i).
Proof. rewrite /exit_children. keeps_tac. Qed.
Lemma keeps_exit_files kend i : keeps (exit_files kend i).
Proof. rewrite /exit_files. keeps_tac. Qed.
#[export] Hint Resolve keeps_exit_children keeps_exit_files : rc.
Lemma keeps_exit {A} kend : keeps (exit (A:=A) kend).
Proof. rewrite /exit. keeps_tac. Qed.
Lemma keeps_wait_scan kend i l hk : keeps (wait_scan kend i l hk).
Proof. revert hk. induction l; intros hk; cbn [wait_scan]; keeps_tac. Qed.
#[export] Hint Resolve keeps_exit keeps_wait_scan : rc.
Lemma keeps_wait kend : keeps (wait kend).
Proof. rewrite /wait. keeps_tac. Qed.
Lemma keeps_kill pid : keeps (kill pid).
Proof. rewrite /kill. keeps_tac. Qed.
#[export] Hint Resolve keeps_wait keeps_kill : rc.

(** ** System calls *)

Lemma keeps_fetchint a : keeps (fetchint a).
Proof. rewrite /fetchint. keeps_tac. Qed.
Lemma keeps_fetchstr a : keeps (fetchstr a).
Proof. rewrite /fetchstr. keeps_tac. Qed.
#[export] Hint Resolve keeps_fetchint keeps_fetchstr : rc.
Lemma keeps_argint n : keeps (argint n).
Proof. rewrite /argint. keeps_tac. Qed.
#[export] Hint Resolve keeps_argint : rc.
Lemma keeps_argptr n size : keeps (argptr n size).
Proof. rewrite /argptr. keeps_tac. Qed.
Lemma keeps_argstr n : keeps (argstr n).
Proof. rewrite /argstr. keeps_tac. Qed.
Lemma keeps_argfd n : keeps (argfd n).
Proof. rewrite /argfd. keeps_tac. Qed.
Lemma keeps_fdalloc f : keeps (fdalloc f).
Proof. rewrite /fdalloc. keeps_tac. Qed.
Lemma keeps_copy_to_user a l : keeps (copy_to_user a l).
Proof. rewrite /copy_to_user. keeps_tac. Qed.
Lemma keeps_copy_from_user a n : keeps (copy_from_user a n).
Proof. rewrite /copy_from_user. keeps_tac. Qed.
#[export] Hint Resolve keeps_argptr keeps_argstr keeps_argfd keeps_fdalloc keeps_copy_to_user keeps_copy_from_user : rc.
Lemma keeps_arg_io : keeps arg_io.
Proof. rewrite /arg_io. keeps_tac. Qed.
Lemma keeps_iref_get i : keeps (iref_get i).
Proof. apply keeps_fs. Qed.
Lemma keeps_inode_upd i f : keeps (inode_upd i f).
Proof. apply keeps_fs. Qed.
#[export] Hint Resolve keeps_arg_io keeps_iref_get keeps_inode_upd : rc.
Lemma keeps_create devsw path t ma mi : keeps (create devsw path t ma mi).
Proof. rewrite /create. keeps_tac. Qed.
Lemma keeps_isdirempty devsw dp : keeps (isdirempty devsw dp).
Proof. rewrite /isdirempty. keeps_tac. Qed.
Lemma keeps_exec_args n u i : keeps (exec_args n u i).
Proof. revert i. induction n; intros i; cbn [exec_args]; keeps_tac. Qed.
Lemma keeps_zoom {T A} get put (m : K T A) :
  (∀ v s, k_read_count (put v s) = k_read_count s) → keeps (zoom get put m).
Proof. intros Hp σ. rewrite /zoom. destruct (m _); simpl; try apply Hp; done. Qed.
Lemma keeps_zoom_vm {A} (m : K vmem A) : keeps (zoom k_vm set_kvm m).
Proof. by apply keeps_zoom. Qed.
#[export] Hint Resolve keeps_create keeps_isdirempty keeps_exec_args keeps_zoom_vm : rc.
Lemma keeps_loaduvm rd pgdir addr off sz :
  (∀ o n, keeps (rd o n)) → keeps (loaduvm k_vm set_kvm rd pgdir addr off sz).
Proof. intros Hrd. rewrite /loaduvm. keeps_tac. Qed.
Lemma keeps_exec_load kend devsw n ip pg off sz : keeps (exec_load kend devsw n ip pg off sz).
Proof.
  revert off sz. induction n as [|n IH]; intros off sz; cbn [exec_load]; keeps_tac.
  apply keeps_loaduvm. intros. apply keeps_fs.
Qed.
Lemma keeps_exec_push pg sp k l : keeps (exec_push pg sp k l).
Proof. revert sp k. induction l; intros sp k; cbn [exec_push]; keeps_tac. Qed.
Lemma keeps_exec_bad kend pg ip : keeps (exec_bad kend pg ip).
Proof. rewrite /exec_bad. keeps_tac. Qed.
#[export] Hint Resolve keeps_exec_load keeps_exec_push keeps_exec_bad : rc.
Lemma keeps_exec kend kd devsw path argv : keeps (exec kend kd devsw path argv).
Proof. rewrite /exec. keeps_tac. Qed.
#[export] Hint Resolve keeps_exec : rc.

(** ** The counter *)

#[global] Instance sysnum_eq_dec : EqDecision sysnum.
Proof. solve_decision. Defined.

Section Count.
Context (kend kdata_addr trapret_addr forkret_addr : Z) (devsw : Z → devops (fstate lstate)).
Notation call := (syscalls kend kdata_addr trapret_addr forkret_addr devsw).

(** Every system call but [read] leaves the counter alone. *)
Lemma keeps_syscalls n : n ≠ SYS_read → keeps (call n).
Proof.
  intros Hn. destruct n; try done; rewrite /syscalls /sys_fork /sys_exit /sys_wait /sys_pipe /sys_kill /sys_exec
    /sys_fstat /sys_chdir /sys_dup /sys_getpid /sys_sbrk /sys_sleep /sleep_until /sys_uptime /sys_open
    /open_inode /sys_write /sys_mknod /sys_unlink /unlink_bad /sys_link /link_undo /sys_mkdir /sys_close
    /sys_getreadcount; keeps_tac.
Qed.

Lemma keeps_read_rest : keeps (
  o ← arg_io;
  match o with
  | None => mret (-1)
  | Some (f, a, n) => r ← fileread devsw f n; copy_to_user a r.2;; mret r.1
  end).
Proof. keeps_tac. Qed.

(** [acquire] and [release] do not give up the CPU. *)
Definition stays {A} (m : K sys A) : Prop := ∀ σ σ', m σ ≠ Switch σ'.

Lemma stays_bind {A B} (m : K sys A) (f : A → K sys B) : stays m → (∀ a, stays (f a)) → stays (m ≫= f).
Proof. intros Hm Hf σ σ'. rewrite /mbind /K_bind. destruct (m σ) eqn:E; try done; [apply Hf|]. by destruct (Hm σ σ0). Qed.

Lemma stays_acquire lk : stays (acquire lk).
Proof.
  assert (stays mycpu) as Hm by (intros σ σ'; rewrite /mycpu; by destruct (eif _)).
  assert (stays pushcli) as Hpu by by intros [].
  assert (stays popcli) as Hpo.
  { apply stays_bind; [done|]. intros e. destruct e; [done|]. apply stays_bind; [done|]. intros c. cbv zeta.
    by destruct (ncli _ <? 0). }
  apply stays_bind; [done|]. intros _. apply stays_bind.
  - apply stays_bind; [done|]. intros _. apply stays_bind; [done|]. intros c. apply stays_bind; [done|].
    intros o. by apply stays_bind.
  - intros h. destruct h; [done|]. apply stays_bind.
    + intros σ σ'. rewrite /xchg_loop. by destruct (klocks σ !! lk).
    + intros _. by apply stays_bind.
Qed.

(** The counter after a call that returned or went to sleep. *)
Definition counted (k : Z) {A} (o : outcome (kst sys) A) : Prop :=
  match o with Ret _ σ | Switch σ => k_read_count (kdata σ) = k | _ => True end.

Lemma leaves_counted {A} k (o : outcome (kst sys) A) : leaves (λ s, k_read_count s = k) o → counted k o.
Proof. by destruct o. Qed.

Lemma sys_read_counted σ : counted (s32 (k_read_count (kdata σ) + 1)) (sys_read devsw σ).
Proof.
  rewrite /sys_read. set (rest := λ _ : unit, _ ≫= _).
  pose proof (keeps_acquire Lread_count σ) as Ha. pose proof (stays_acquire Lread_count σ) as Hs.
  rewrite {1}/mbind /K_bind. destruct (acquire Lread_count σ) as [[] σ1|?|?|?|σ1| |]; try done.
  2:{ by destruct (Hs σ1). }
  simpl in Ha. rewrite -Ha. set (σ2 := set_data (set_kread_count (s32 (k_read_count (kdata σ1) + 1)) (kdata σ1)) σ1).
  rewrite /rest (bind_ret _ _ σ1 tt σ2) //. apply leaves_counted.
  change (s32 _) with (k_read_count (kdata σ2)). apply keeps_bind; [apply keeps_release|]. intros _.
  apply keeps_read_rest.
Qed.

(** The state a routine leaves when it returns or gives up the CPU. *)
Definition after {A} (o : outcome (kst sys) A) : option sys :=
  match o with Ret _ σ | Switch σ => Some (kdata σ) | _ => None end.

Lemma counted_after {A} k (o : outcome (kst sys) A) s : counted k o → after o = Some s → k_read_count s = k.
Proof. destruct o; simpl; congruence. Qed.

(** What happens to the kernel state over time: system calls that return or
    go to sleep, in any order and on any CPU state, and in between other
    kernel routines, among them the rest of a system call that had gone to
    sleep; [keeps] holds of all of them (the lemmas above). *)
Inductive history : list sysnum → sys → sys → Prop :=
| hist_start s : history [] s s
| hist_call l n s0 s1 s2 c L w :
    history l s0 s1 → after (call n (Kst c L w s1)) = Some s2 → history (l ++ [n]) s0 s2
| hist_other l s0 s1 s2 A c L w (m : K sys A) :
    history l s0 s1 → keeps m → after (m (Kst c L w s1)) = Some s2 → history l s0 s2.

Definition reads (l : list sysnum) : Z :=
  Z.of_nat (length (List.filter (λ n, match n with SYS_read => true | _ => false end) l)).

Lemma reads_snoc l n : reads (l ++ [n]) = reads l + (match n with SYS_read => 1 | _ => 0 end).
Proof. rewrite /reads List.filter_app length_app /=. by destruct n; simpl; lia. Qed.

Lemma history_count l s0 s : history l s0 s → k_read_count s0 = 0 → k_read_count s = s32 (reads l).
Proof.
  intros Hh H0. induction Hh as [s|l n s0 s1 s2 c L w Hh IH Hs|l s0 s1 s2 A c L w m Hh IH Hm Hs].
  - by rewrite H0.
  - specialize (IH H0). rewrite reads_snoc.
    destruct (decide (n = SYS_read)) as [->|Hne].
    + rewrite (counted_after _ _ _ (sys_read_counted (Kst c L w s1)) Hs) /= IH. by rewrite s32_add_l.
    + rewrite (counted_after _ _ _ (leaves_counted _ _ (keeps_syscalls n Hne (Kst c L w s1))) Hs) /= IH.
      by destruct n; rewrite ?Z.add_0_r.
  - rewrite -(IH H0). exact (counted_after _ _ _ (leaves_counted _ _ (Hm (Kst c L w s1))) Hs).
Qed.

(** C3: [getreadcount] returns the number of calls of [read] made since the
    counter was 0, whatever the outcome of these calls, whatever other system
    calls and kernel routines ran in between, and changes nothing, as long as
    that number fits an [int]. *)
Theorem getreadcount_counts l s0 s c L w :
  history l s0 s → k_read_count s0 = 0 → reads l < 2 ^ 31 →
  sys_getreadcount (Kst c L w s) = Ret (reads l) (Kst c L w s).
Proof.
  intros Hh H0 Hl. rewrite /sys_getreadcount /gets /= (history_count _ _ _ Hh H0) s32_small //.
  rewrite /reads in Hl |- *. lia.
Qed.
End Count.

(** ** Example: two calls of [read] that fail, and a [getpid] between them *)

Definition demo_caller : proc :=
  Proc 0 0 demo_end RUNNING 1 None demo_end 0 None 0 (replicate NOFILE None) (replicate 16 0).

Definition demo_reader (n : Z) : sys :=
  Sys [demo_caller] 5 (Some 0%nat) (Some 0%nat) (Vmem {[ pn demo_end := zero_page ]} false 0 0 0 0) demo_fs [] ∅ 0 n 0.

Definition no_devices : Z → devops (fstate lstate) := λ _, Devops _ None None.

Lemma demo_history :
  history 0 0 0 0 no_devices [SYS_read; SYS_getpid; SYS_read] (demo_reader 0) (demo_reader 2).
Proof.
  apply (hist_call _ _ _ _ _ [SYS_read; SYS_getpid] SYS_read _ (demo_reader 1) _ demo_cpu ∅ ∅); [|by vm_compute].
  apply (hist_call _ _ _ _ _ [SYS_read] SYS_getpid _ (demo_reader 1) _ demo_cpu ∅ ∅); [|by vm_compute].
  apply (hist_call _ _ _ _ _ [] SYS_read _ (demo_reader 0) _ demo_cpu ∅ ∅); [|by vm_compute].
  constructor.
Qed.

Lemma getreadcount_counts_witness :
  sys_getreadcount (Kst demo_cpu ∅ ∅ (demo_reader 2)) = Ret 2 (Kst demo_cpu ∅ ∅ (demo_reader 2)).
Proof.
  apply (getreadcount_counts 0 0 0 0 no_devices _ (demo_reader 0) (demo_reader 2) demo_cpu ∅ ∅ demo_history);
    [reflexivity|by vm_compute].
Defined.
