(* ===== verification/Stdio.v ===== *)
(** * The C standard library as the Unix programs use it

    The programs of Unix_Utilities, Unix_Shell and Map_Reduce run on the host
    system.  A program is a function of a [world], which holds the files by
    path name, the standard input and what was written to the standard output.
    It returns, calls [exit], runs into undefined behaviour, or (for a loop
    with fuel) does not come to an end.  A file that cannot be opened is absent
    from [files]. *)

From S2P Require Import Prelude CInt CString.

(** The bytes of a string literal. *)
Fixpoint str (s : string) : list Z :=
  match s with
  | EmptyString => []
  | String a s => Z.of_N (Ascii.N_of_ascii a) :: str s
  end.

Definition nl : Z := 10.

Record world := World {
  files : gmap (list Z) (list Z);
  stdin : list Z;
  stdout : list Z
}.

Inductive result (A : Type) :=
| Done (a : A) (w : world)
| Exit (code : Z) (w : world)
| UB
| Fuel.
#[global] Arguments Done {_} _ _.
#[global] Arguments Exit {_} _ _.
#[global] Arguments UB {_}.
#[global] Arguments Fuel {_}.

Definition U (A : Type) := world → result A.

#[global] Instance U_ret : MRet U := λ A a w, Done a w.
#[global] Instance U_bind : MBind U := λ A B f m w,
  match m w with
  | Done a w => f a w
  | Exit c w => Exit c w
  | UB => UB
  | Fuel => Fuel
  end.

Definition exit_with {A} (c : Z) : U A := λ w, Exit c w.
Definition undefined {A} : U A := λ _, UB.
Definition out_of_fuel {A} : U A := λ _, Fuel.

Definition set_out (o : list Z) (w : world) : world := World (files w) (stdin w) o.
Definition putbytes (b : list Z) : U unit := λ w, Done tt (set_out (stdout w ++ b) w).

(** The C string at the start of a buffer: the bytes before the first NUL, or
    the whole buffer where the code has put the NUL behind it. *)
Definition cstring (b : list Z) : list Z := cprefix (length b) b.

(** [printf] of a C string. *)
Definition print_s (b : list Z) : U unit := putbytes (cstring b).

(** ** Streams opened for reading *)

Record stream := Stream { rest : list Z; feof : bool }.

Definition fopen (path : list Z) : U (option stream) := λ w,
  Done ((λ c, Stream c false) <$> files w !! path) w.

(** Up to [n] bytes, ending with the first newline. *)
Fixpoint take_line (n : nat) (l : list Z) : list Z * list Z :=
  match n, l with
  | O, _ => ([], l)
  | _, [] => ([], [])
  | S n, a :: l => if a =? nl then ([a], l) else let '(x, r) := take_line n l in (a :: x, r)
  end.

(** Did a line reader of [n] bytes that got [x] run into the end of the file? *)
Definition hit_end (n : nat) (x : list Z) : bool :=
  bool_decide (length x < n)%nat && negb (bool_decide (last x = Some nl)).

Definition fgets (n : nat) (s : stream) : option (list Z) * stream :=
  let '(x, r) := take_line (n - 1) (rest s) in
  (match x with [] => None | _ => Some x end, Stream r (feof s || hit_end (n - 1) x)).

Definition getline (s : stream) : option (list Z) * stream :=
  let '(x, r) := take_line (S (length (rest s))) (rest s) in
  (match x with [] => None | _ => Some x end, Stream r (feof s || hit_end (S (length (rest s))) x)).

Definition EOF : Z := -1.

Definition fgetc (s : stream) : Z * stream :=
  match rest s with
  | [] => (EOF, Stream [] true)
  | a :: r => (a, Stream r (feof s))
  end.

(** [fread] of one item of [n] bytes: the bytes that were there. *)
Definition fread (n : nat) (s : stream) : list Z * stream :=
  (take n (rest s), Stream (drop n (rest s)) (feof s || bool_decide (length (rest s) < n)%nat)).

(** ** Strings *)

Definition is_prefix (x l : list Z) : bool := bool_decide (take (length x) l = x).

(** [strstr]: is there an occurrence of [x]? *)
Fixpoint strstr (l x : list Z) : bool :=
  is_prefix x l ||
  match l with
  | [] => false
  | _ :: l => strstr l x
  end.

(** ** Facts *)

Lemma take_line_app n l : (take_line n l).1 ++ (take_line n l).2 = l.
Proof.
  revert l. induction n as [|n IH]; intros [|a l]; simpl; try done.
  destruct (a =? nl); [done|]. specialize (IH l). destruct (take_line n l); simpl in *. by rewrite IH.
Qed.

Lemma take_line_nil n l : (take_line (S n) l).1 = [] → l = [].
Proof.
  destruct l as [|a l]; [done|]. simpl. destruct (a =? nl); [done|]. by destruct (take_line n l).
Qed.

Lemma take_line_rest n l : l ≠ [] → (length (take_line (S n) l).2 < length l)%nat.
Proof.
  intros Hl. pose proof (take_line_app (S n) l) as E. rewrite -{2}E length_app.
  destruct (take_line (S n) l).1 eqn:E1; simpl; [|lia]. by apply take_line_nil in E1.
Qed.

Lemma cstring_text l : 0 ∉ l → cstring l = l.
Proof. intros H. rewrite /cstring -{2}(app_nil_r l). apply cprefix_app; [done|lia|by left]. Qed.

Lemma done_bind {A B} (m : U A) (f : A → U B) a w w' : m w = Done a w' → (m ≫= f) w = f a w'.
Proof. rewrite /mbind /U_bind. by intros ->. Qed.

Lemma exit_bind {A B} (m : U A) (f : A → U B) c w w' : m w = Exit c w' → (m ≫= f) w = Exit c w'.
Proof. rewrite /mbind /U_bind. by intros ->. Qed.

Lemma U_bind_assoc {A B C} (m : U A) (f : A → U B) (g : B → U C) w :
  (m ≫= λ a, f a ≫= g) w = ((m ≫= f) ≫= g) w.
Proof. rewrite /mbind /U_bind. by destruct (m w). Qed.

Lemma print_s_text b w : 0 ∉ b → print_s b w = Done tt (set_out (stdout w ++ b) w).
Proof. intros H. by rewrite /print_s cstring_text. Qed.

Lemma strstr_spec l x : strstr l x = true ↔ ∃ a b, l = a ++ x ++ b.
Proof.
  assert (∀ k, is_prefix x k = true ↔ ∃ b, k = x ++ b) as Hp.
  { intros k. rewrite /is_prefix bool_decide_eq_true. split.
    - intros <-. exists (drop (length x) k). by rewrite take_drop.
    - intros [b ->]. by rewrite take_app_length. }
  induction l as [|c l IH]; cbn [strstr]; rewrite orb_true_iff Hp.
  - split; [intros [[b ->]|]; [by exists [], b|done]|]. intros (a&b&E). left.
    symmetry in E. apply app_nil in E as [_ E]. by exists b.
  - rewrite IH. split.
    + intros [[b ->]|(a&b&->)]; [by exists [], b|by exists (c :: a), b].
    + intros ([|? a]&b&E); [left; by exists b|right]. simpl in E. injection E as -> ->. by exists a, b.
Qed.

(** ** [strsep] *)

(** One call on a string: the token up to the first delimiter, and the string
    behind the delimiter ([None] is the null pointer). *)
Fixpoint strsep (delims s : list Z) : list Z * option (list Z) :=
  match s with
  | [] => ([], None)
  | c :: s =>
      if bool_decide (c ∈ delims) then ([], Some s)
      else let '(t, r) := strsep delims s in (c :: t, r)
  end.

(** [while ((token = strsep(&s, delims)) != NULL)]: the tokens. *)
Fixpoint strsep_loop (fuel : nat) (delims : list Z) (s : option (list Z)) : option (list (list Z)) :=
  match fuel, s with
  | _, None => Some []
  | O, _ => None
  | S fuel, Some s =>
      let '(token, s) := strsep delims s in
      ts ← strsep_loop fuel delims s; Some (token :: ts)
  end.

(** The pieces of [s] between delimiters, empty ones included. *)
Fixpoint pieces (delims s : list Z) : list (list Z) :=
  match s with
  | [] => [[]]
  | c :: s =>
      if bool_decide (c ∈ delims) then [] :: pieces delims s
      else match pieces delims s with [] => [[c]] | t :: ts => (c :: t) :: ts end
  end.

Lemma strsep_pieces delims s :
  pieces delims s = (strsep delims s).1 :: match (strsep delims s).2 with None => [] | Some r => pieces delims r end.
Proof.
  induction s as [|c s IH]; [done|]. simpl. case_bool_decide; [done|].
  rewrite IH. by destruct (strsep delims s).
Qed.

Lemma strsep_shorter delims s r : (strsep delims s).2 = Some r → (length r < length s)%nat.
Proof.
  induction s as [|c s IH]; [done|]. simpl. case_bool_decide; [intros [= ->]; lia|].
  destruct (strsep delims s) as [t r']. simpl in *. intros E. specialize (IH E). lia.
Qed.

Lemma strsep_loop_pieces fuel delims s : (length s < fuel)%nat →
  strsep_loop fuel delims (Some s) = Some (pieces delims s).
Proof.
  revert s. induction fuel as [|fuel IH]; intros s Hf; [lia|]. cbn [strsep_loop]. rewrite strsep_pieces.
  pose proof (strsep_shorter delims s) as Hsh. destruct (strsep delims s) as [t [r|]]; simpl in *; [|by destruct fuel].
  rewrite IH; [specialize (Hsh r eq_refl); lia|]. done.
Qed.

Lemma pieces_cover (P : Z → Prop) delims s : Forall P s → Forall (Forall P) (pieces delims s).
Proof.
  induction 1 as [|c s Hc Hs IH]; simpl; [by repeat constructor|]. case_bool_decide; [by constructor|].
  destruct IH; repeat constructor; auto.
Qed.
