(* ===== verification/Utilities.v ===== *)
(** * seucat and seugrep (Unix_Utilities)

    [argv] is the list of arguments behind the program's name, so [argc] is
    [S (length argv)].  A text is a file without NUL bytes: the two programs
    read lines and print them as C strings. *)

From S2P Require Import Prelude CInt CString Stdio.

Definition cannot_open : list Z := str "cannot open file" ++ [nl].

(** A [for] loop over arguments. *)
Fixpoint for_args (f : list Z → U unit) (argv : list (list Z)) : U unit :=
  match argv with
  | [] => mret tt
  | a :: argv => f a;; for_args f argv
  end.

(** ** seucat.c *)

Fixpoint print_loop (fuel : nat) (s : stream) : U unit :=
  match fuel with
  | O => out_of_fuel
  | S fuel =>
      match fgets 255 s with
      | (Some buffer, s) => print_s buffer;; print_loop fuel s
      | (None, _) => mret tt
      end
  end.

Definition printFile (path : list Z) : U unit :=
  pFile ← fopen path;
  match pFile with
  | None => print_s cannot_open;; exit_with 1
  | Some s => print_loop (S (length (rest s))) s
  end.

Definition seucat (argv : list (list Z)) : U Z := for_args printFile argv;; mret 0.

(** ** seugrep.c *)

Fixpoint search_loop (fuel : nat) (term : list Z) (s : stream) : U unit :=
  match fuel with
  | O => out_of_fuel
  | S fuel =>
      match getline s with
      | (Some buffer, s) =>
          (if strstr (cstring buffer) term then print_s buffer else mret tt);;
          search_loop fuel term s
      | (None, _) => mret tt
      end
  end.

Definition searchStrFromFile (term : list Z) (s : stream) : U unit := search_loop (S (length (rest s))) term s.

Definition seugrep (argv : list (list Z)) : U Z :=
  match argv with
  | [] => print_s (str "searchterm [file ...]" ++ [nl]);; mret 1
  | [term] => (λ w, searchStrFromFile term (Stream (stdin w) false) w);; mret 0
  | term :: paths =>
      for_args (λ path, pFile ← fopen path;
                        match pFile with
                        | None => print_s cannot_open;; exit_with 1
                        | Some s => searchStrFromFile term s
                        end) paths;;
      mret 0
  end.

(** ** What the programs print *)

(** The contents of the files up to the first that cannot be opened, and
    whether all could. *)
Fixpoint opened (fs : gmap (list Z) (list Z)) (argv : list (list Z)) : list (list Z) * bool :=
  match argv with
  | [] => ([], true)
  | p :: argv =>
      match fs !! p with
      | None => ([], false)
      | Some c => let '(cs, ok) := opened fs argv in (c :: cs, ok)
      end
  end.

(** Print [f] of each file; stop with a message at one that cannot be opened. *)
Definition each_file (f : list Z → list Z) (argv : list (list Z)) (w : world) : result Z :=
  let '(cs, ok) := opened (files w) argv in
  let o := stdout w ++ concat (f <$> cs) in
  if ok then Done 0 (set_out o w) else Exit 1 (set_out (o ++ cannot_open) w).

(** The lines of a text, each with its newline; the last may lack it. *)
Fixpoint lines (l : list Z) : list (list Z) :=
  match l with
  | [] => []
  | a :: l =>
      if a =? nl then [a] :: lines l
      else match lines l with [] => [[a]] | x :: ls => (a :: x) :: ls end
  end.

Definition contains (x l : list Z) : Prop := ∃ a b, l = a ++ x ++ b.

#[global] Instance contains_dec x l : Decision (contains x l).
Proof.
  destruct (strstr l x) eqn:E; [left|right].
  - by apply strstr_spec.
  - intros H%strstr_spec. congruence.
Defined.

Definition grep_lines (term l : list Z) : list Z := concat (filter (contains term) (lines l)).

Definition is_text (l : list Z) : Prop := 0 ∉ l.

Definition all_text (fs : gmap (list Z) (list Z)) (argv : list (list Z)) : Prop :=
  ∀ p c, p ∈ argv → fs !! p = Some c → is_text c.

Lemma set_out_id w : set_out (stdout w) w = w.
Proof. by destruct w. Qed.

Lemma lines_step n l : (length l ≤ n)%nat → l ≠ [] →
  lines l = (take_line (S n) l).1 :: lines (take_line (S n) l).2.
Proof.
  revert n. induction l as [|a l IH]; intros n Hn Hl; [done|]. destruct n as [|n]; [simpl in Hn; lia|].
  cbn [lines take_line]. destruct (a =? nl); [done|].
  destruct (decide (l = [])) as [->|Hl']; [done|]. rewrite (IH n) //; [simpl in Hn; lia|].
  cbn [take_line]. by destruct l; [|destruct (_ =? nl); [|destruct (take_line n _)]].
Qed.

Lemma print_loop_text fuel s w : (length (rest s) < fuel)%nat → is_text (rest s) →
  print_loop fuel s w = Done tt (set_out (stdout w ++ rest s) w).
Proof.
  revert s w. induction fuel as [|fuel IH]; intros [l e] w Hf Ht; [simpl in Hf; lia|]. simpl in Hf, Ht.
  cbn [print_loop]. rewrite /fgets. change (255 - 1)%nat with (S 253). generalize 253%nat as n. intros n.
  pose proof (take_line_app (S n) l) as Happ. pose proof (take_line_rest n l) as Hr.
  pose proof (take_line_nil n l) as Hnil. cbn [rest].
  destruct (take_line (S n) l) as [x r]. cbn [fst snd] in *. destruct x as [|a x].
  - rewrite Hnil // app_nil_r set_out_id //.
  - rewrite -Happ in Ht |- *. rewrite /is_text elem_of_app in Ht.
    erewrite done_bind by (apply print_s_text; set_solver). rewrite IH.
    + enough (length r < length l)%nat by (simpl; lia). apply Hr. intros ->. done.
    + rewrite /is_text /=. set_solver.
    + by rewrite /= -app_assoc.
Qed.

Lemma for_args_files f g argv w :
  (∀ p c w', p ∈ argv → files w' = files w → files w !! p = Some c → f p w' = Done tt (set_out (stdout w' ++ g c) w')) →
  (∀ p w', p ∈ argv → files w' = files w → files w !! p = None → f p w' = Exit 1 (set_out (stdout w' ++ cannot_open) w')) →
  (for_args f argv;; mret 0) w = each_file g argv w.
Proof.
  revert w. induction argv as [|p argv IH]; intros w Hs Hn.
  { by rewrite /each_file /= app_nil_r set_out_id. }
  rewrite /each_file /=. destruct (files w !! p) as [c|] eqn:E; simpl.
  - rewrite -(U_bind_assoc (f p)). erewrite done_bind by (apply (Hs p c w); [set_solver|done|done]).
    rewrite (IH (set_out (stdout w ++ g c) w)).
    + intros q c' w' Hq Hw Hc. apply Hs; [set_solver|done|done].
    + intros q w' Hq Hw Hc. apply Hn; [set_solver|done|done].
    + rewrite /each_file /=. destruct (opened (files w) argv) as [cs []]; simpl; by rewrite !app_assoc.
  - rewrite -(U_bind_assoc (f p)). erewrite exit_bind by (apply (Hn p w); [set_solver|done|done]). by rewrite app_nil_r.
Qed.

Lemma print_missing {A} w :
  (print_s cannot_open;; exit_with (A:=A) 1) w = Exit 1 (set_out (stdout w ++ cannot_open) w).
Proof. done. Qed.

(** [seucat] prints the given texts one after the other and returns 0; it
    stops with a message and exit status 1 at the first file that cannot be
    opened.  The size of the buffer and the length of the lines play no role. *)
Theorem seucat_prints argv w : all_text (files w) argv → seucat argv w = each_file id argv w.
Proof.
  intros Ht. apply for_args_files.
  - intros p c w' Hp Hw Hc. rewrite /printFile. erewrite done_bind by by rewrite /fopen Hw Hc. cbn [fmap option_fmap option_map].
    apply (print_loop_text _ (Stream c false)); [simpl; lia|]. by apply (Ht p).
  - intros p w' _ Hw Hc. rewrite /printFile. erewrite done_bind by by rewrite /fopen Hw Hc. cbn [fmap option_fmap option_map]. by apply print_missing.
Qed.

Lemma search_loop_text fuel term s w : (length (rest s) < fuel)%nat → is_text (rest s) →
  search_loop fuel term s w = Done tt (set_out (stdout w ++ grep_lines term (rest s)) w).
Proof.
  revert s w. induction fuel as [|fuel IH]; intros [l e] w Hf Ht; [simpl in Hf; lia|]. simpl in Hf, Ht.
  cbn [search_loop]. rewrite /getline /grep_lines. cbn [rest].
  pose proof (take_line_app (S (length l)) l) as Happ. pose proof (take_line_rest (length l) l) as Hr.
  pose proof (take_line_nil (length l) l) as Hnil. pose proof (lines_step (length l) l ltac:(done)) as Hl.
  destruct (take_line (S (length l)) l) as [x r]. cbn [fst snd] in *. destruct x as [|a x].
  { rewrite Hnil //= app_nil_r set_out_id //. }
  rewrite Hl; [by intros ->|].
  assert (length r < length l)%nat by (apply Hr; intros ->; done).
  assert (is_text (a :: x) ∧ is_text r) as [Hx Hrt] by (rewrite /is_text in Ht |- *; rewrite -Happ in Ht; set_solver).
  rewrite filter_cons. rewrite (cstring_text (a :: x)) //.
  assert (∀ w', search_loop fuel term (Stream r (e || hit_end (S (length l)) (a :: x))) w' =
    Done tt (set_out (stdout w' ++ grep_lines term r) w')) as IH' by (intros; apply IH; [simpl; lia|done]).
  case_decide as Hc.
  - rewrite (proj2 (strstr_spec _ _) Hc). erewrite done_bind by by apply print_s_text.
    rewrite IH' /=. by rewrite -!app_assoc.
  - destruct (strstr (a :: x) term) eqn:E; [by apply strstr_spec in E|].
    erewrite done_bind by done. by rewrite IH'.
Qed.

(** [seugrep] prints the lines that contain the search term, whole and in
    their order, of its standard input when no file is named and of the named
    files otherwise, where it stops with a message and exit status 1 at the
    first file that cannot be opened; without arguments it prints its usage
    and returns 1. *)
Theorem seugrep_prints argv w :
  is_text (stdin w) → all_text (files w) (tail argv) →
  seugrep argv w =
    match argv with
    | [] => Done 1 (set_out (stdout w ++ str "searchterm [file ...]" ++ [nl]) w)
    | [term] => Done 0 (set_out (stdout w ++ grep_lines term (stdin w)) w)
    | term :: paths => each_file (grep_lines term) paths w
    end.
Proof.
  intros Hi Ht. destruct argv as [|term [|p argv]]; [done| |].
  - rewrite /seugrep. by erewrite done_bind by (apply search_loop_text; [simpl; lia|done]).
  - apply for_args_files.
    + intros q c w' Hq Hw Hc. erewrite done_bind by by rewrite /fopen Hw Hc. cbn [fmap option_fmap option_map].
      apply (search_loop_text _ _ (Stream c false)); [simpl; lia|]. by apply (Ht q).
    + intros q w' _ Hw Hc. erewrite done_bind by by rewrite /fopen Hw Hc. cbn [fmap option_fmap option_map]. by apply print_missing.
Qed.

(** ** Examples *)

Definition demo_world : world :=
  World {[ str "a" := str "one fish" ++ [nl] ++ str "two" ++ [nl] ++ str "fishes"; str "b" := str "fish" ]} [] [].

Lemma demo_all_text argv : all_text (files demo_world) argv.
Proof.
  intros p c _. rewrite /demo_world /= lookup_insert_Some lookup_singleton_Some /is_text.
  intros [[_ <-]|(_&_&<-)]; by vm_compute; rewrite ?elem_of_cons; set_solver.
Qed.

Lemma seucat_prints_witness :
  seucat [str "b"; str "a"; str "c"; str "b"] demo_world =
    Exit 1 (set_out (str "fishone fish" ++ [nl] ++ str "two" ++ [nl] ++ str "fishes" ++ cannot_open) demo_world).
Proof. rewrite (seucat_prints _ demo_world (demo_all_text _)). reflexivity. Defined.

Lemma seugrep_prints_witness :
  seugrep [str "fish"; str "a"; str "b"] demo_world =
    Done 0 (set_out (str "one fish" ++ [nl] ++ str "fishesfish") demo_world).
Proof.
  rewrite (seugrep_prints [str "fish"; str "a"; str "b"] demo_world); [by vm_compute; apply not_elem_of_nil|apply demo_all_text|].
  by vm_compute.
Defined.
