(* ===== verification/Zip.v ===== *)
(** * seuzip and seuunzip (Unix_Utilities)

    Run-length coding: a run is written as its length, a 4-byte little-endian
    number, and the character. *)

From S2P Require Import Prelude CInt CString Stdio Utilities.

Definition UINT_MAX : Z := 2 ^ 32 - 1.
Definition INT_MAX : Z := 2 ^ 31 - 1.

(** ** seuzip.c *)

(** The static variables of [printCompressed]. *)
Record zip_state := Zs { previous : Z; count : Z }.

(** A run as it is written. *)
Definition run_bytes (n c : Z) : list Z := le_bytes 4 n ++ [u8 c].

Definition printCompressed (current : Z) (st : zip_state) : U zip_state :=
  if ((previous st =? current) || (count st =? 0)) && negb (count st =? UINT_MAX) then
    mret (Zs current (u32 (count st + 1)))
  else
    putbytes (le_bytes 4 (count st));;
    putbytes [u8 (previous st)];;
    mret (Zs current 1).

(** The loop over the characters of one file; [fgetc] is converted to [char]
    before it is compared with [EOF]. *)
Fixpoint zip_chars (s : list Z) (st : zip_state) : U zip_state :=
  match s with
  | [] => mret st
  | b :: s =>
      let current := s8 b in
      if current =? EOF then mret st
      else st ← printCompressed current st; zip_chars s st
  end.

Fixpoint zip_files (argv : list (list Z)) (st : zip_state) : U zip_state :=
  match argv with
  | [] => mret st
  | path :: argv =>
      pFile ← fopen path;
      match pFile with
      | None => print_s cannot_open;; exit_with 1
      | Some s => st ← zip_chars (rest s) st; zip_files argv st
      end
  end.

Definition seuzip (argv : list (list Z)) : U Z :=
  match argv with
  | [] => print_s (str "seuzip: file1 [file2 ...]" ++ [nl]);; mret 1
  | _ => st ← zip_files argv (Zs 0 0); printCompressed (s8 EOF) st;; mret 0
  end.

(** ** seuunzip.c *)

(** [for (int i = 0; i < count; i++)]: [i] must not pass [INT_MAX]. *)
Definition print_run (n c : Z) : U unit :=
  if n <=? INT_MAX then putbytes (replicate (Z.to_nat n) (u8 c)) else undefined.

Fixpoint unzip_loop (fuel : nat) (s : stream) : U unit :=
  match fuel with
  | O => out_of_fuel
  | S fuel =>
      let '(n, s) := fread 4 s in
      let '(c, s) := fread 1 s in
      if feof s then mret tt
      else print_run (le_val n) (le_val c);; unzip_loop fuel s
  end.

Definition printDecompressed (path : list Z) : U unit :=
  pFile ← fopen path;
  match pFile with
  | None => print_s (str "cannot open file");; exit_with 1
  | Some s => unzip_loop (S (length (rest s))) s
  end.

Definition seuunzip (argv : list (list Z)) : U Z :=
  match argv with
  | [] => print_s (str "seuunzip: file1 [file2 ...]" ++ [nl]);; mret 1
  | _ => for_args printDecompressed argv;; mret 0
  end.

(** ** Runs *)

Definition encode (runs : list (Z * Z)) : list Z := concat ((λ r, run_bytes r.1 r.2) <$> runs).
Definition expand (runs : list (Z * Z)) : list Z := concat ((λ r, replicate (Z.to_nat r.1) (u8 r.2)) <$> runs).

Definition run_ok (r : Z * Z) : Prop := 0 ≤ r.1 ≤ UINT_MAX.

Lemma encode_app r1 r2 : encode (r1 ++ r2) = encode r1 ++ encode r2.
Proof. by rewrite /encode fmap_app concat_app. Qed.

Lemma encode_one n c : encode [(n, c)] = le_bytes 4 n ++ [u8 c].
Proof. rewrite /encode. cbn [fmap list_fmap concat]. by rewrite app_nil_r. Qed.

Lemma expand_app r1 r2 : expand (r1 ++ r2) = expand r1 ++ expand r2.
Proof. by rewrite /expand fmap_app concat_app. Qed.

Lemma expand_one n c : expand [(n, c)] = replicate (Z.to_nat n) (u8 c).
Proof. by rewrite /expand /= app_nil_r. Qed.

Lemma u8_s8 b : is_byte b → u8 (s8 b) = b.
Proof.
  intros Hb. rewrite /u8 /s8 /sext. rewrite (Z.mod_small b) //.
  destruct (_ <? _); [by apply Z.mod_small|].
  rewrite -(Z.mod_add (b - 2 ^ 8) 1) //. rewrite Z.mul_1_l Z.sub_add. by apply Z.mod_small.
Qed.

Lemma s8_EOF b : is_byte b → s8 b = EOF ↔ b = 255.
Proof.
  intros Hb. split; [|by intros ->]. intros E. rewrite -(u8_s8 b Hb) E. done.
Qed.

(** The bytes of a file [seuzip] looks at: it takes the byte 255 for the end. *)
Fixpoint upto_255 (l : list Z) : list Z :=
  match l with
  | [] => []
  | b :: l => if b =? 255 then [] else b :: upto_255 l
  end.

(** What the state still has to print. *)
Definition pending (st : zip_state) : list Z := replicate (Z.to_nat (count st)) (u8 (previous st)).

Definition zip_ok (st : zip_state) : Prop :=
  0 ≤ count st ≤ UINT_MAX ∧ (count st = 0 ∨ previous st ≠ EOF).

Lemma printCompressed_spec c st w :
  zip_ok st → ∃ st' runs,
    printCompressed c st w = Done st' (set_out (stdout w ++ encode runs) w) ∧
    previous st' = c ∧ 0 < count st' ≤ UINT_MAX ∧ Forall run_ok runs ∧
    expand runs ++ pending st' = pending st ++ [u8 c].
Proof.
  intros [Hk _]. rewrite /printCompressed. destruct (_ && _) eqn:E; breflect.
  - rewrite u32_small; [rewrite /is_u32 /UINT_MAX in Hk |- *; unfold UINT_MAX in *; lia|].
    exists (Zs c (count st + 1)), []. rewrite app_nil_r set_out_id. split_and!; try done; simpl; [lia|unfold UINT_MAX in *; lia|].
    rewrite /pending /= Z2Nat.inj_add; [lia|lia|]. rewrite replicate_add.
    match goal with H : _ || _ = true |- _ => apply orb_true_iff in H as [Hpc|Hpc] end; breflect; by rewrite Hpc.
  - exists (Zs c 1), [(count st, previous st)]. split_and!; try done.
    + by rewrite encode_one app_assoc.
    + by apply Forall_singleton.
    + by rewrite expand_one.
Qed.

Lemma zip_chars_spec l st w :
  Forall is_byte l → zip_ok st → ∃ st' runs,
    zip_chars l st w = Done st' (set_out (stdout w ++ encode runs) w) ∧ zip_ok st' ∧
    Forall run_ok runs ∧ expand runs ++ pending st' = pending st ++ upto_255 l.
Proof.
  intros Hl. revert st w. induction Hl as [|b l Hb Hl IH]; intros st w Hst.
  { exists st, []. by rewrite !app_nil_r set_out_id. }
  cbn [zip_chars upto_255]. destruct (s8 b =? EOF) eqn:E; breflect.
  { apply s8_EOF in E as ->; [|done]. exists st, []. by rewrite !app_nil_r set_out_id. }
  assert (b ≠ 255) as Hne by by intros ->. apply Z.eqb_neq in Hne as ->.
  destruct (printCompressed_spec (s8 b) st w Hst) as (st1&r1&E1&Hp&Hc&Hr1&Hx1).
  erewrite done_bind by exact E1. destruct (IH st1 (set_out (stdout w ++ encode r1) w)) as (st2&r2&E2&Hst2&Hr2&Hx2).
  { split; [lia|]. right. by rewrite Hp. }
  exists st2, (r1 ++ r2). rewrite E2 encode_app expand_app Forall_app. split_and!; try done.
  - by rewrite /= -app_assoc.
  - rewrite -app_assoc Hx2 app_assoc Hx1 u8_s8 // -app_assoc. done.
Qed.

Lemma zip_files_spec argv st w :
  (∀ p c, p ∈ argv → files w !! p = Some c → Forall is_byte c) → zip_ok st → ∃ st' runs,
    (let '(cs, ok) := opened (files w) argv in
     Forall run_ok runs ∧ zip_ok st' ∧ expand runs ++ pending st' = pending st ++ concat (upto_255 <$> cs) ∧
     zip_files argv st w =
       if ok then Done st' (set_out (stdout w ++ encode runs) w)
       else Exit 1 (set_out (stdout w ++ encode runs ++ cannot_open) w)).
Proof.
  revert st w. induction argv as [|p argv IH]; intros st w Hb Hst; cbn [opened zip_files].
  { exists st, []. by rewrite !app_nil_r set_out_id. }
  destruct (files w !! p) as [c|] eqn:E; erewrite done_bind by by rewrite /fopen E.
  - destruct (zip_chars_spec c st w) as (st1&r1&E1&Hst1&Hr1&Hx1); [apply (Hb p); [set_solver|done]|done|].
    destruct (IH st1 (set_out (stdout w ++ encode r1) w)) as (st2&r2&H2); [|done|].
    { intros q d Hq. apply Hb. set_solver. }
    cbn [files set_out] in H2. exists st2, (r1 ++ r2). destruct (opened (files w) argv) as [cs ok].
    destruct H2 as (Hr2&Hst2&Hx2&E2). rewrite encode_app expand_app Forall_app. split_and!; try done.
    + rewrite -app_assoc Hx2 app_assoc Hx1 -app_assoc. done.
    + cbn [fmap option_fmap option_map rest]. erewrite done_bind by exact E1. rewrite E2 /= -!app_assoc. done.
  - exists st, []. rewrite !app_nil_r. split_and!; done.
Qed.

(** The last call writes what is pending, unless nothing was read. *)
Lemma flush_spec st w : zip_ok st → ∃ runs st',
  printCompressed (s8 EOF) st w = Done st' (set_out (stdout w ++ encode runs) w) ∧
  Forall run_ok runs ∧ expand runs = pending st.
Proof.
  intros [Hk Hp]. rewrite /printCompressed. change (s8 EOF) with EOF.
  destruct (count st =? 0) eqn:E; breflect.
  - exists [], (Zs EOF (u32 (count st + 1))). rewrite /pending E orb_true_r app_nil_r set_out_id. done.
  - exists [(count st, previous st)], (Zs EOF 1). destruct Hp as [|Hp]; [done|].
    apply Z.eqb_neq in Hp as ->. cbn [orb andb]. split_and!.
    + by rewrite encode_one app_assoc.
    + by apply Forall_singleton.
    + by rewrite expand_one.
Qed.

Lemma upto_255_length l : (length (upto_255 l) ≤ length l)%nat.
Proof. induction l as [|b l IH]; simpl; [done|]. destruct (b =? 255); simpl; lia. Qed.

(** ** Reading the runs back *)

Lemma unzip_loop_spec fuel runs e w : (length (encode runs) < fuel)%nat →
  Forall (λ r, 0 ≤ r.1 ≤ INT_MAX) runs →
  e = false → unzip_loop fuel (Stream (encode runs) e) w = Done tt (set_out (stdout w ++ expand runs) w).
Proof.
  intros Hf Hr ->. revert fuel w Hf. induction Hr as [|[n c] runs Hn Hr IH]; intros fuel w Hf;
    (destruct fuel as [|fuel]; [simpl in Hf; lia|]); cbn [unzip_loop].
  { by rewrite app_nil_r set_out_id. }
  assert (length (le_bytes 4 n) = 4%nat) as H4 by apply length_le_bytes.
  assert (encode ((n, c) :: runs) = le_bytes 4 n ++ [u8 c] ++ encode runs) as He.
  { rewrite /encode. cbn [fmap list_fmap concat]. by rewrite -app_assoc. }
  rewrite He /fread. cbn [rest feof]. rewrite take_app_length' // drop_app_length' //.
  rewrite !length_app H4. rewrite !bool_decide_false; [simpl; lia|simpl; lia|].
  simpl in Hn. cbn [orb]. rewrite le_val_bytes Z.mod_small; [rewrite /INT_MAX in Hn; simpl; lia|].
  change (take 1 ([u8 c] ++ encode runs)) with [u8 c]. change (drop 1 ([u8 c] ++ encode runs)) with (encode runs).
  replace (le_val [u8 c]) with (u8 c) by (simpl; lia).
  erewrite done_bind; last first.
  { rewrite /print_run. rewrite (proj2 (Z.leb_le _ _)); [lia|done]. }
  rewrite IH; [rewrite He !length_app H4 in Hf; simpl in Hf; lia|].
  rewrite /= -app_assoc u8_idemp. done.
Qed.

Lemma expand_length runs r : r ∈ runs → 0 ≤ r.1 → r.1 ≤ length (expand runs).
Proof.
  intros Hin H0. apply list_elem_of_split in Hin as (r1&r2&->).
  rewrite expand_app length_app. change (r :: r2) with ([r] ++ r2). rewrite expand_app length_app.
  destruct r as [n c]. rewrite expand_one length_replicate. simpl in *. lia.
Qed.

Lemma runs_short cs runs : length (concat cs) ≤ INT_MAX → Forall run_ok runs →
  expand runs = concat (upto_255 <$> cs) → Forall (λ r, 0 ≤ r.1 ≤ INT_MAX) runs.
Proof.
  intros Hlen Hr He. apply Forall_forall. intros r Hin.
  assert (run_ok r) as [Hr0 _] by by eapply Forall_forall.
  split; [done|]. etrans; [by apply expand_length|]. rewrite He. etrans; [|exact Hlen].
  apply inj_le. clear. induction cs as [|c cs IH]; [done|]. rewrite fmap_cons /= !length_app.
  pose proof (upto_255_length c). lia.
Qed.

(** C13: Compression loses nothing but what comes after a byte 255: unpacking the
    output of [seuzip] prints the files one after the other, each cut at its
    first byte 255, which [seuzip] takes for the end of the file.  (Together
    the files are shorter than 2^31 bytes, so that no run is too long for the
    counter of [seuunzip].) *)
Theorem seuzip_seuunzip argv w cs p w2 :
  argv ≠ [] → opened (files w) argv = (cs, true) → Forall (Forall is_byte) cs →
  length (concat cs) ≤ INT_MAX → stdout w = [] →
  ∃ z, seuzip argv w = Done 0 (set_out z w) ∧
    (files w2 !! p = Some z →
     seuunzip [p] w2 = Done 0 (set_out (stdout w2 ++ concat (upto_255 <$> cs)) w2)).
Proof.
  intros Hargv Ho Hb Hlen Hw.
  assert (∀ runs, Forall run_ok runs → expand runs = concat (upto_255 <$> cs) → Forall (λ r, 0 ≤ r.1 ≤ INT_MAX) runs)
    as Hshort by (intros; by eapply runs_short).
  assert (∀ q c, q ∈ argv → files w !! q = Some c → Forall is_byte c) as Hfb.
  { clear -Ho Hb. revert cs Ho Hb. induction argv as [|q argv IH]; intros cs Ho Hb; [set_solver|]. simpl in Ho.
    destruct (files w !! q) as [d|] eqn:E; [|done]. destruct (opened (files w) argv) as [cs' ok]. simplify_eq.
    apply Forall_cons in Hb as [Hd Hb]. intros q' c [->|Hq]%elem_of_cons Hc; [congruence|]. by eapply IH. }
  destruct (zip_files_spec argv (Zs 0 0) w Hfb) as (st&runs&H); [rewrite /zip_ok /UINT_MAX /=; lia|].
  rewrite Ho in H. destruct H as (Hr&Hst&Hx&E).
  destruct (flush_spec st (set_out (stdout w ++ encode runs) w) Hst) as (runs'&st'&E'&Hr'&Hx').
  exists (encode (runs ++ runs')). split.
  - destruct argv as [|a argv]; [done|]. rewrite /seuzip. erewrite done_bind by exact E. erewrite done_bind by exact E'.
    by rewrite Hw encode_app.
  - intros Hf. assert (expand (runs ++ runs') = concat (upto_255 <$> cs)) as He.
    { rewrite expand_app Hx' Hx. done. }
    assert (printDecompressed p w2 = Done tt (set_out (stdout w2 ++ expand (runs ++ runs')) w2)) as Ep.
    { rewrite /printDecompressed. rewrite (done_bind _ _ (Some (Stream (encode (runs ++ runs')) false)) w2 w2).
      - by rewrite /fopen Hf.
      - apply unzip_loop_spec; [simpl; lia| |done]. apply Hshort; [by apply Forall_app|done]. }
    rewrite /seuunzip. cbn [for_args]. rewrite -(U_bind_assoc (printDecompressed p)) (done_bind _ _ _ _ _ Ep) He. done.
Qed.

(** ** Example: the byte 255 ends a file; a run goes on in the next file *)

Definition demo_zip : world := World {[ str "a" := str "aab" ++ [255; 99]; str "b" := str "bb" ]} [] [].

Lemma seuzip_seuunzip_witness :
  ∃ z, seuzip [str "a"; str "b"] demo_zip = Done 0 (set_out z demo_zip) ∧
    (files (World {[ str "z" := z ]} [] []) !! str "z" = Some z →
     seuunzip [str "z"] (World {[ str "z" := z ]} [] []) = Done 0 (World {[ str "z" := z ]} [] (str "aabbb"))).
Proof.
  set (z0 := [2; 0; 0; 0; 97; 3; 0; 0; 0; 98]).
  destruct (seuzip_seuunzip [str "a"; str "b"] demo_zip [str "aab" ++ [255; 99]; str "bb"] (str "z")
    (World {[ str "z" := z0 ]} [] [])) as (z&E&H); [done|by vm_compute| |by vm_compute|done|].
  { repeat constructor; by vm_compute. }
  exists z. split; [exact E|]. intros _.
  assert (z = z0) as ->. { vm_compute in E. injection E as <-. reflexivity. }
  apply H. by vm_compute.
Defined.
