(* ===== verification/ArrayList.v ===== *)
(** * Growing arrays and the hash table of lists (Map_Reduce)

    arraylist.c and multimap.c.  A slot of an array that was not written yet is
    [None]; an access outside the array, or through the pointer of a destroyed
    list, is undefined and gives [None].  [malloc] succeeds. *)

From S2P Require Import Prelude CInt CString.

Definition u64 (z : Z) : Z := z mod 2 ^ 64.

Lemma u64_small z : 0 ≤ z < 2 ^ 64 → u64 z = z.
Proof. apply Z.mod_small. Qed.

(** ** arraylist.c *)

Section ArrayList.
Context {V : Type}.

Record array_list := AL {
  array : option (list (option V));
  len : Z;
  volume : Z;
  iter_pos : Z
}.

Definition default_volume : Z := 8.

Definition init_list : array_list :=
  AL (Some (replicate (Z.to_nat default_volume) None)) 0 default_volume 0.

(** [while (target < required_volume) target *= 2]; a [size_t] that has not
    become large enough after 64 doublings has become 0. *)
Fixpoint grow (fuel : nat) (target required : Z) : option Z :=
  match fuel with
  | O => None
  | S fuel => if target <? required then grow fuel (u64 (target * 2)) required else Some target
  end.

Definition ensure_volume (l : array_list) (required : Z) : option array_list :=
  if required <=? volume l then Some l
  else
    target ← grow 65 (volume l) required;
    a ← array l;
    if bool_decide (volume l ≤ length a) then
      Some (AL (Some (take (Z.to_nat (volume l)) a ++ replicate (Z.to_nat (target - volume l)) None))
               (len l) target (iter_pos l))
    else None.

(** [list->array[list->length] = item] *)
Definition set_item (l : array_list) (i : Z) (item : V) : option array_list :=
  a ← array l;
  if bool_decide (0 ≤ i < length a) then
    Some (AL (Some (<[Z.to_nat i := Some item]> a)) (len l) (volume l) (iter_pos l))
  else None.

Definition incr_length (l : array_list) : array_list := AL (array l) (u64 (len l + 1)) (volume l) (iter_pos l).

Definition push_store (l : array_list) (item : V) : option array_list :=
  l ← ensure_volume l (u64 (len l + 1)); set_item l (len l) item.

Definition push_item (l : array_list) (item : V) : option array_list :=
  l ← push_store l item; Some (incr_length l).

Definition destroy_list (l : array_list) : array_list := AL None 0 (volume l) 0.

(** [list->array[i]] *)
Definition get_item (l : array_list) (i : Z) : option V :=
  a ← array l; if bool_decide (0 ≤ i) then a !! Z.to_nat i ≫= id else None.

(** ** The list an array holds *)

(** [xs] are the first items; more of them may be stored already than counted. *)
Record al_holds (l : array_list) (xs : list V) : Prop := {
  al_array : ∃ a, array l = Some a ∧ length a = Z.to_nat (volume l) ∧ take (length xs) a = Some <$> xs;
  al_volume : 0 < volume l;
  al_fits : length xs ≤ volume l
}.

Definition al_ok (l : array_list) (xs : list V) : Prop := al_holds l xs ∧ len l = length xs.

Lemma grow_spec fuel t r : 0 < t → r ≤ 2 ^ 62 → t < 2 ^ 63 → r ≤ t * 2 ^ Z.of_nat fuel →
  ∃ t', grow (S fuel) t r = Some t' ∧ r ≤ t' ∧ t ≤ t'.
Proof.
  revert t. induction fuel as [|fuel IH]; intros t Ht Hr Ht' Hp.
  - exists t. cbn [grow]. rewrite Z.pow_0_r Z.mul_1_r in Hp. rewrite (proj2 (Z.ltb_ge _ _)) //.
  - cbn [grow]. destruct (t <? r) eqn:E; breflect; [|by exists t].
    rewrite u64_small; [lia|]. destruct (IH (t * 2)) as (t'&E'&?&?); [lia|lia|lia| |].
    + rewrite Nat2Z.inj_succ Z.pow_succ_r in Hp; [lia|]. lia.
    + exists t'. split; [done|lia].
Qed.

Lemma al_take l xs a : al_holds l xs → array l = Some a → (length xs ≤ length a)%nat.
Proof. intros [(a'&Ha&Hl&_) Hv Hf] E. simplify_eq. lia. Qed.

Lemma init_list_ok : al_ok init_list [].
Proof. split; [|done]. split; [|done|done]. by eexists. Qed.

Lemma push_store_ok l xs x : al_ok l xs → length xs < 2 ^ 62 →
  ∃ l', push_store l x = Some l' ∧ al_holds l' (xs ++ [x]) ∧ len l' = length xs ∧ iter_pos l' = iter_pos l.
Proof.
  intros [[(a&Ha&Hla&Hxs) Hv Hf] Hlen] Hb. rewrite /push_store Hlen u64_small; [lia|].
  assert (∃ l1 a1, ensure_volume l (length xs + 1) = Some l1 ∧ array l1 = Some a1 ∧ length a1 = Z.to_nat (volume l1) ∧
    take (length xs) a1 = Some <$> xs ∧ 0 < volume l1 ∧ length xs + 1 ≤ volume l1 ∧ len l1 = len l ∧
    iter_pos l1 = iter_pos l) as (l1&a1&E1&Ha1&Hla1&Hxs1&Hv1&Hf1&Hl1&Hi1).
  { rewrite /ensure_volume. destruct (_ <=? _) eqn:E; breflect; [by exists l, a|].
    destruct (decide (volume l < 2 ^ 63)) as [Hsm|]; [|lia].
    destruct (grow_spec 64 (volume l) (length xs + 1)) as (t&Et&?&?); [done|lia|lia|lia|].
    cbn [mbind option_bind]. rewrite Et Ha. cbn [mbind option_bind]. rewrite bool_decide_true; [lia|].
    do 2 eexists. split_and!; [done|done|..]; simpl; try done; try lia.
    - rewrite length_app length_take length_replicate. lia.
    - rewrite -Hla firstn_all take_app_le //. lia. }
  rewrite E1. cbn [mbind option_bind]. rewrite Hl1 Hlen /set_item Ha1. cbn [mbind option_bind].
  rewrite bool_decide_true; [lia|]. eexists. split_and!; [done| |simpl; lia|done].
  split; [|done|rewrite length_app /=; lia]. eexists. split_and!; [done|by rewrite length_insert|].
  rewrite length_app /= Nat.add_1_r Nat2Z.id fmap_app /= -Hxs1.
  rewrite (take_S_r _ _ (Some x)); [apply list_lookup_insert_eq; lia|]. by rewrite take_insert_ge.
Qed.

(** [push_item] appends to the list and keeps the array well-formed. *)
Lemma push_item_ok l xs x : al_ok l xs → length xs < 2 ^ 62 →
  ∃ l', push_item l x = Some l' ∧ al_ok l' (xs ++ [x]) ∧ iter_pos l' = iter_pos l.
Proof.
  intros Hl Hb. destruct (push_store_ok l xs x Hl Hb) as (l1&E&[(a&Ha&?&?) ? ?]&Hlen&Hi).
  exists (incr_length l1). rewrite /push_item E. split_and!; [done| |done].
  split; [split; [by exists a|done|done]|]. rewrite /= Hlen u64_small; [lia|]. rewrite length_app /=. lia.
Qed.

Lemma get_item_ok l xs (i : nat) : al_ok l xs → (i < length xs)%nat → get_item l i = xs !! i.
Proof.
  intros [[(a&Ha&_&Hxs) _ _] _] Hi. rewrite /get_item Ha. cbn [mbind option_bind].
  rewrite bool_decide_true; [lia|]. rewrite Nat2Z.id.
  assert (a !! i = Some <$> xs !! i) as ->.
  { rewrite -list_lookup_fmap -Hxs lookup_take_lt //. }
  by destruct (xs !! i).
Qed.
End ArrayList.
#[global] Arguments array_list : clear implicits.

(** ** multimap.c *)

Record kv_pair := Kv { key : list Z; value : list Z }.

Record multi_map := MM {
  lists : list (array_list kv_pair);
  table_size : Z;
  hash_func : list Z → Z → Z
}.

Definition init_map (hash : list Z → Z → Z) (size : Z) : multi_map :=
  MM (replicate (Z.to_nat size) init_list) size hash.

(** Apply [f] to the list [map->lists[i]]. *)
Definition on_list (m : multi_map) (i : Z) (f : array_list kv_pair → option (array_list kv_pair)) : option multi_map :=
  if bool_decide (0 ≤ i) then
    l ← lists m !! Z.to_nat i; l ← f l;
    Some (MM (<[Z.to_nat i := l]> (lists m)) (table_size m) (hash_func m))
  else None.

Definition put_item (m : multi_map) (k v : list Z) : option multi_map :=
  on_list m (hash_func m k (table_size m)) (λ l, push_item l (Kv k v)).

Definition destroy_map (m : multi_map) : multi_map := MM [] 0 (hash_func m).

Definition get_list (m : multi_map) (k : list Z) : option (array_list kv_pair) :=
  lists m !! Z.to_nat (hash_func m k (table_size m)).

(** The pairs of [xs] that belong to list [i]. *)
Definition part (m : multi_map) (i : Z) (xs : list kv_pair) : list kv_pair :=
  filter (λ p, hash_func m (key p) (table_size m) = i) xs.

(** The map holds the pairs [xs], put in this order. *)
Record mm_ok (m : multi_map) (xs : list kv_pair) : Prop := {
  mm_size : length (lists m) = Z.to_nat (table_size m);
  mm_hash : ∀ k, 0 ≤ hash_func m k (table_size m) < table_size m;
  mm_lists : ∀ (i : nat) l, lists m !! i = Some l → al_ok l (part m i xs) ∧ iter_pos l = 0
}.

Lemma init_map_ok hash size : (∀ k, 0 ≤ hash k size < size) → mm_ok (init_map hash size) [].
Proof.
  intros Hh. split; [by rewrite length_replicate|done|].
  intros i l [-> _]%lookup_replicate. split; [apply init_list_ok|done].
Qed.

Lemma part_length m i xs : (length (part m i xs) ≤ length xs)%nat.
Proof. apply length_filter. Qed.

Lemma part_snoc m i xs p : part m i (xs ++ [p]) =
  part m i xs ++ if decide (hash_func m (key p) (table_size m) = i) then [p] else [].
Proof. rewrite /part filter_app filter_cons filter_nil. by case_decide. Qed.
