(* ===== verification/MapReduce.v ===== *)
(** * The mapping threads of mapreduce.c (Map_Reduce)

    [MR_Run] starts one thread per mapper; the threads call the user's [Map]
    on their files, and [Map] calls [MR_Emit], which puts a pair into the
    global map while it holds the semaphore [emit_sem].  The threads are a
    step relation over the shared map: a step is the wait for the semaphore,
    the store of the pair into its list, the increment of the list's length,
    or the post of the semaphore, and the steps of different threads
    interleave in any order. *)

From S2P Require Import Prelude CInt CString Stdio ArrayList.

(** ** MR_DefaultHashPartition and MR_Emit *)

Definition MR_DefaultHashPartition (k : list Z) (num_partitions : Z) : Z :=
  foldl (λ hash c, u64 (hash * 33 + s8 c)) 5381 k mod u64 num_partitions.

(** The two halves of [put_item] at which another thread could run. *)
Definition emit_store (m : multi_map) (p : kv_pair) : option multi_map :=
  on_list m (hash_func m (key p) (table_size m)) (λ l, push_store l p).
Definition emit_count (m : multi_map) (p : kv_pair) : option multi_map :=
  on_list m (hash_func m (key p) (table_size m)) (λ l, Some (incr_length l)).

(** Where a thread is in [MR_Emit]. *)
Inductive phase :=
| Idle
| Hold (p : kv_pair)
| Stored (p : kv_pair)
| Counted (p : kv_pair).

(** A thread, with the pairs its mapper has still to emit. *)
Record thread := Thread { at_phase : phase; todo : list kv_pair }.

Record mapping := Mapping { emit_sem : Z; pair_map : multi_map; threads : list thread }.

Inductive MR_Emit : mapping → mapping → Prop :=
| emit_wait s m ts i p t :
    ts !! i = Some (Thread Idle (p :: t)) → 0 < s →
    MR_Emit (Mapping s m ts) (Mapping (s - 1) m (<[i := Thread (Hold p) t]> ts))
| emit_put s m m' ts i p t :
    ts !! i = Some (Thread (Hold p) t) → emit_store m p = Some m' →
    MR_Emit (Mapping s m ts) (Mapping s m' (<[i := Thread (Stored p) t]> ts))
| emit_len s m m' ts i p t :
    ts !! i = Some (Thread (Stored p) t) → emit_count m p = Some m' →
    MR_Emit (Mapping s m ts) (Mapping s m' (<[i := Thread (Counted p) t]> ts))
| emit_post s m ts i p t :
    ts !! i = Some (Thread (Counted p) t) →
    MR_Emit (Mapping s m ts) (Mapping (s + 1) m (<[i := Thread Idle t]> ts)).

Definition finished (st : mapping) : Prop := Forall (λ th, th = Thread Idle []) (threads st).

(** ** Facts about the hash function and the two halves of [put_item] *)

Lemma default_hash_range k n : 0 < n < 2 ^ 31 → 0 ≤ MR_DefaultHashPartition k n < n.
Proof.
  intros Hn. rewrite /MR_DefaultHashPartition (u64_small n); [lia|]. apply Z.mod_pos_bound. lia.
Qed.

Lemma put_item_halves m k v : put_item m k v = emit_store m (Kv k v) ≫= λ m, emit_count m (Kv k v).
Proof.
  rewrite /put_item /emit_store /emit_count /on_list /=. case_bool_decide; [|done].
  destruct (lists m !! _) as [l|] eqn:E; simpl; [|done]. rewrite /push_item.
  destruct (push_store l _) as [l'|]; simpl; [|done].
  rewrite bool_decide_true //= list_lookup_insert_eq; [by apply lookup_lt_Some in E|]. simpl.
  by rewrite list_insert_insert_eq.
Qed.

(** Between the halves: the pair is stored, but not counted. *)
Record mm_stored (m : multi_map) (xs : list kv_pair) (p : kv_pair) : Prop := {
  ms_size : length (lists m) = Z.to_nat (table_size m);
  ms_hash : ∀ k, 0 ≤ hash_func m k (table_size m) < table_size m;
  ms_lists : ∀ (i : nat) l, lists m !! i = Some l → iter_pos l = 0 ∧ len l = length (part m i xs) ∧
    al_holds l (part m i (xs ++ [p]))
}.

Lemma emit_store_ok m xs p : mm_ok m xs → length xs < 2 ^ 62 →
  ∃ m', emit_store m p = Some m' ∧ mm_stored m' xs p.
Proof.
  intros [Hs Hh Hl] Hx. rewrite /emit_store /on_list. set (h := hash_func m (key p) (table_size m)).
  pose proof (Hh (key p)) as Hhp. fold h in Hhp. rewrite bool_decide_true; [lia|].
  destruct (lookup_lt_is_Some_2 (lists m) (Z.to_nat h)) as [l El]; [lia|].
  rewrite El. cbn [mbind option_bind]. destruct (Hl _ _ El) as [Hok Hi].
  rewrite Z2Nat.id in Hok; [lia|]. pose proof (part_length m h xs).
  destruct (push_store_ok l _ p Hok) as (l'&E'&Hh'&Hlen&Hi'); [lia|].
  rewrite E'. cbn [mbind option_bind]. eexists. split; [done|]. split; [by rewrite length_insert|done|].
  intros i k Hk. simpl in Hk. change (part _ i xs) with (part m i xs).
  change (part _ i (xs ++ [p])) with (part m i (xs ++ [p])). rewrite part_snoc. fold h.
  destruct (decide (Z.to_nat h = i)) as [<-|Hne].
  - rewrite list_lookup_insert_eq in Hk; [by apply lookup_lt_Some in El|]. simplify_eq.
    rewrite Z2Nat.id; [lia|]. rewrite decide_True //. split_and!; [congruence|done|done].
  - rewrite list_lookup_insert_ne // in Hk. destruct (Hl _ _ Hk) as [[Hk1 Hk2] Hk3].
    rewrite decide_False; [lia|]. rewrite app_nil_r. done.
Qed.

Lemma emit_count_ok m xs p : mm_stored m xs p → length xs < 2 ^ 62 →
  ∃ m', emit_count m p = Some m' ∧ mm_ok m' (xs ++ [p]).
Proof.
  intros [Hs Hh Hl] Hx. rewrite /emit_count /on_list. set (h := hash_func m (key p) (table_size m)).
  pose proof (Hh (key p)) as Hhp. fold h in Hhp. rewrite bool_decide_true; [lia|].
  destruct (lookup_lt_is_Some_2 (lists m) (Z.to_nat h)) as [l El]; [lia|].
  rewrite El. cbn [mbind option_bind]. eexists. split; [done|]. split; [by rewrite length_insert|done|].
  intros i k Hk. simpl in Hk. change (part _ i (xs ++ [p])) with (part m i (xs ++ [p])).
  pose proof (part_length m i xs).
  destruct (decide (Z.to_nat h = i)) as [<-|Hne].
  - rewrite list_lookup_insert_eq in Hk; [by apply lookup_lt_Some in El|]. simplify_eq.
    destruct (Hl _ _ El) as (Hi&Hlen&[Ha Hv Hf]). split; [|done]. split; [by split|].
    rewrite /= Hlen u64_small; [lia|]. rewrite part_snoc Z2Nat.id; [lia|]. rewrite decide_True // length_app /=. lia.
  - rewrite list_lookup_insert_ne // in Hk. destruct (Hl _ _ Hk) as (Hi&Hlen&Hk1). split; [|done]. split; [done|].
    rewrite Hlen part_snoc decide_False; [fold h; lia|]. by rewrite app_nil_r.
Qed.

(** ** The threads *)

(** All pairs the threads have still to emit. *)
Definition todos (ts : list thread) : list kv_pair := concat (todo <$> ts).

Definition phase_ok (m : multi_map) (xs : list kv_pair) (ph : phase) (p : kv_pair) : Prop :=
  match ph with
  | Idle => False
  | Hold q => q = p ∧ mm_ok m xs
  | Stored q => q = p ∧ mm_stored m xs p
  | Counted q => q = p ∧ mm_ok m (xs ++ [p])
  end.

(** At most one thread is inside [MR_Emit], and the semaphore is 0 exactly
    then; no pair is lost or put twice. *)
Definition map_inv (all : list kv_pair) (st : mapping) : Prop :=
  ∃ xs,
    (Forall (λ th, at_phase th = Idle) (threads st) ∧ emit_sem st = 1 ∧ mm_ok (pair_map st) xs ∧
     xs ++ todos (threads st) ≡ₚ all) ∨
    (∃ i ph t p, threads st !! i = Some (Thread ph t) ∧
       (∀ j th, j ≠ i → threads st !! j = Some th → at_phase th = Idle) ∧
       emit_sem st = 0 ∧ phase_ok (pair_map st) xs ph p ∧ xs ++ p :: todos (threads st) ≡ₚ all).

Lemma todos_insert ts i th th' : ts !! i = Some th →
  ∃ r, todos ts ≡ₚ todo th ++ r ∧ todos (<[i := th']> ts) ≡ₚ todo th' ++ r.
Proof.
  intros Hi. exists (todos (take i ts) ++ todos (drop (S i) ts)).
  rewrite -{1}(take_drop_middle ts i th) // insert_take_drop; [by eapply lookup_lt_Some|].
  rewrite /todos !fmap_app !fmap_cons !concat_app /=. by split; rewrite Permutation_app_swap_app.
Qed.

Lemma todos_same ts i ph ph' t : ts !! i = Some (Thread ph t) → todos (<[i := Thread ph' t]> ts) ≡ₚ todos ts.
Proof. intros Hi. destruct (todos_insert ts i _ (Thread ph' t) Hi) as (r&E1&E2). by rewrite E1 E2. Qed.

(** A thread outside the other one is idle also after its step. *)
Lemma others_idle (ts : list thread) (i : nat) th' :
  (∀ j th, j ≠ i → ts !! j = Some th → at_phase th = Idle) →
  ∀ j th, j ≠ i → <[i := th']> ts !! j = Some th → at_phase th = Idle.
Proof. intros H j th Hj. rewrite list_lookup_insert_ne //. by apply H. Qed.

Lemma all_idle (ts : list thread) (i : nat) t :
  (∀ j th, j ≠ i → ts !! j = Some th → at_phase th = Idle) →
  Forall (λ th, at_phase th = Idle) (<[i := Thread Idle t]> ts).
Proof.
  intros H. apply Forall_lookup. intros j th Hj. destruct (decide (i = j)) as [<-|Hne].
  - destruct (decide (i < length ts)%nat).
    + rewrite list_lookup_insert_eq // in Hj. by simplify_eq.
    + rewrite lookup_ge_None_2 // in Hj. rewrite length_insert. lia.
  - rewrite list_lookup_insert_ne // in Hj. by eapply H.
Qed.

Lemma map_inv_step all st st' : length all < 2 ^ 62 → map_inv all st → MR_Emit st st' → map_inv all st'.
Proof.
  intros Hb (xs&Hinv) Hstep.
  assert (length xs < 2 ^ 62) as Hx.
  { destruct Hinv as [(_&_&_&E)|(?&?&?&?&_&_&_&_&E)]; apply Permutation_length in E; rewrite length_app in E; lia. }
  destruct Hstep as [s m ts i p t Hi Hs|s m m' ts i p t Hi Hm|s m m' ts i p t Hi Hm|s m ts i p t Hi];
    destruct Hinv as [(Hidle&Hsem&Hok&Hp)|(i'&ph&t'&q&Hi'&Hoth&Hsem&Hok&Hp)]; simpl in *;
    try (apply (Forall_lookup_1 _ _ _ _ Hidle) in Hi; discriminate Hi);
    try (destruct (decide (i' = i)) as [->|Hne]; [|by specialize (Hoth i _ (not_eq_sym Hne) Hi)]).
  - exists xs. right. exists i, (Hold p), t, p. simpl. split_and!; try done; [..|lia|].
    + apply list_lookup_insert_eq. by eapply lookup_lt_Some.
    + apply others_idle. intros j th _ Hj. exact (Forall_lookup_1 _ _ _ _ Hidle Hj).
    + destruct (todos_insert ts i _ (Thread (Hold p) t) Hi) as (r&E1&E2).
      rewrite -Hp E1 E2 /=. done.
  - lia.
  - rewrite Hi in Hi'. injection Hi' as <- <-. destruct Hok as [-> Hok]. exists xs. right. exists i, (Stored q), t, q. simpl. split_and!; try done.
    + apply list_lookup_insert_eq. by eapply lookup_lt_Some.
    + by apply others_idle.
    + destruct (emit_store_ok m xs q Hok Hx) as (m1&E1&H1). by simplify_eq.
    + by rewrite todos_same.
  - rewrite Hi in Hi'. injection Hi' as <- <-. destruct Hok as [-> Hok]. exists xs. right. exists i, (Counted q), t, q. simpl. split_and!; try done.
    + apply list_lookup_insert_eq. by eapply lookup_lt_Some.
    + by apply others_idle.
    + destruct (emit_count_ok m xs q Hok Hx) as (m1&E1&H1). by simplify_eq.
    + by rewrite todos_same.
  - rewrite Hi in Hi'. injection Hi' as <- <-. destruct Hok as [-> Hok]. exists (xs ++ [q]). left. simpl. split_and!; try done; [|lia|].
    + by apply all_idle.
    + rewrite todos_same // -app_assoc. done.
Qed.

(** The steps the threads can still take. *)
Definition weight (ph : phase) : nat :=
  match ph with Idle => 0 | Hold _ => 3 | Stored _ => 2 | Counted _ => 1 end.

Definition work (st : mapping) : nat := sum_list ((λ th, 4 * length (todo th) + weight (at_phase th))%nat <$> threads st).

Lemma sum_list_insert {A} (f : A → nat) l i x y : l !! i = Some x →
  (sum_list (f <$> <[i := y]> l) + f x = sum_list (f <$> l) + f y)%nat.
Proof.
  intros Hi. rewrite -{2}(take_drop_middle l i x) // insert_take_drop; [by eapply lookup_lt_Some|].
  rewrite !fmap_app !fmap_cons !sum_list_with_app /=. lia.
Qed.

Lemma emit_work st st' : MR_Emit st st' → (work st' < work st)%nat.
Proof.
  intros [s m ts i p t Hi Hs|s m m' ts i p t Hi Hm|s m m' ts i p t Hi Hm|s m ts i p t Hi]; rewrite /work /=;
    match goal with |- context [sum_list (?f <$> <[_ := ?y]> _)] => pose proof (sum_list_insert f ts i _ y Hi) as E end;
    simpl in E; lia.
Qed.

Lemma map_inv_progress all st : length all < 2 ^ 62 → map_inv all st →
  (∃ st', MR_Emit st st') ∨ (finished st ∧ ∃ xs, xs ≡ₚ all ∧ mm_ok (pair_map st) xs).
Proof.
  destruct st as [s m ts]. intros Hb (xs&Hinv).
  assert (length xs < 2 ^ 62) as Hx.
  { destruct Hinv as [(_&_&_&E)|(?&?&?&?&_&_&_&_&E)]; apply Permutation_length in E; rewrite length_app in E; lia. }
  destruct Hinv as [(Hidle&Hsem&Hok&Hp)|(i&ph&t&q&Hi&Hoth&Hsem&Hok&Hp)]; simpl in *.
  - destruct (decide (Forall (λ th, todo th = []) ts)) as [Hd|Hd].
    + right. split.
      * rewrite /finished /=. apply Forall_forall. intros [ph t] Hin.
        pose proof (proj1 (Forall_forall _ _) Hidle _ Hin) as E1.
        pose proof (proj1 (Forall_forall _ _) Hd _ Hin) as E2. simpl in *. congruence.
      * exists xs. split; [|done]. rewrite -Hp. replace (todos ts) with (@nil kv_pair); [by rewrite app_nil_r|].
        symmetry. clear -Hd. rewrite /todos. induction Hd as [|th ts E Hd IH]; [done|]. by rewrite fmap_cons /= E IH.
    + left. apply not_Forall_Exists in Hd; [|apply _]. apply Exists_exists in Hd as ([ph t]&Hin&Ht). simpl in Ht.
      apply list_elem_of_lookup in Hin as [i Hi]. pose proof (Forall_lookup_1 _ _ _ _ Hidle Hi) as E. simpl in E.
      destruct t as [|p t]; [done|]. subst ph. eexists. apply emit_wait with (i := i); [done|lia].
  - left. destruct ph as [|p|p|p]; [done|..]; destruct Hok as [-> Hok].
    + destruct (emit_store_ok m xs q Hok Hx) as (m1&E1&_). eexists. by eapply emit_put.
    + destruct (emit_count_ok m xs q Hok Hx) as (m1&E1&_). eexists. by eapply emit_len.
    + eexists. by eapply emit_post.
Qed.

(** The threads at the start: each has the pairs of its mapper to emit. *)
Definition map_start (m : multi_map) (jobs : list (list kv_pair)) : mapping := Mapping 1 m (Thread Idle <$> jobs).

Lemma map_start_inv m jobs : mm_ok m [] → map_inv (concat jobs) (map_start m jobs).
Proof.
  intros Hm. exists []. left. simpl. split_and!; try done.
  - apply Forall_fmap, Forall_true. done.
  - rewrite /todos -list_fmap_compose. rewrite (list_fmap_ext _ id); [done|]. by rewrite list_fmap_id.
Qed.

Lemma map_reaches all st : length all < 2 ^ 62 → map_inv all st → ∃ st', star MR_Emit st st' ∧ finished st'.
Proof.
  intros Hb. remember (work st) as n eqn:En. revert st En. induction (lt_wf n) as [n _ IH]. intros st -> Hinv.
  destruct (map_inv_progress all st Hb Hinv) as [[st1 Hs]|[Hf _]].
  - destruct (IH _ (emit_work _ _ Hs) st1 eq_refl) as (st2&Hst&Hf); [by eapply map_inv_step|].
    exists st2. split; [by eapply star_step|done].
  - exists st. split; [constructor|done].
Qed.

(** C15: The mapping phase under every schedule of its threads: a state that
    can be reached has a next step or all threads are finished, so no thread
    waits forever for the semaphore and no access is out of bounds; each step
    reduces the work left, so the threads come to an end; and then the map
    holds each emitted pair exactly once, in the list its key hashes to. *)
Theorem map_phase_complete hash n jobs st :
  (∀ k, 0 ≤ hash k n < n) → length (concat jobs) < 2 ^ 62 →
  star MR_Emit (map_start (init_map hash n) jobs) st →
  ((∃ st', MR_Emit st st') ∨ (finished st ∧ ∃ xs, xs ≡ₚ concat jobs ∧ mm_ok (pair_map st) xs)) ∧
  (∀ st', MR_Emit st st' → (work st' < work st)%nat).
Proof.
  intros Hh Hb Hst. split; [|apply emit_work]. apply map_inv_progress; [done|].
  eapply star_inv; [|exact Hst|apply map_start_inv; by apply init_map_ok].
  intros a b Ha Hab. by eapply map_inv_step.
Qed.
