(* ===== verification/Qsort.v ===== *)
(** * [qsort] and [strcmp] of the C library

    The C standard leaves the algorithm of [qsort] and the order of equal
    elements open: the programs are verified for every function that, given a
    consistent comparison, returns a sorted permutation. *)

From S2P Require Import Prelude CInt CString.
From Stdlib Require Import Sorting.Sorted.

(** The comparison is consistent on the elements of [l]. *)
Definition consistent {A} (cmp : A → A → Z) (l : list A) : Prop :=
  (∀ x y, x ∈ l → y ∈ l → cmp x y ≤ 0 ∨ cmp y x ≤ 0) ∧
  (∀ x y z, x ∈ l → y ∈ l → z ∈ l → cmp x y ≤ 0 → cmp y z ≤ 0 → cmp x z ≤ 0).

Class QsortSpec (qsort : ∀ A, (A → A → Z) → list A → list A) : Prop := {
  qsort_perm A cmp (l : list A) : consistent cmp l → qsort A cmp l ≡ₚ l;
  qsort_sorted A cmp (l : list A) : consistent cmp l → StronglySorted (λ x y, cmp x y ≤ 0) (qsort A cmp l)
}.

(** ** An implementation: insertion sort *)

Fixpoint insert_sorted {A} (cmp : A → A → Z) (x : A) (l : list A) : list A :=
  match l with
  | [] => [x]
  | y :: l => if cmp x y <=? 0 then x :: y :: l else y :: insert_sorted cmp x l
  end.

Definition insertion_sort A (cmp : A → A → Z) (l : list A) : list A := foldr (insert_sorted cmp) [] l.

Lemma insert_sorted_perm {A} (cmp : A → A → Z) x l : insert_sorted cmp x l ≡ₚ x :: l.
Proof.
  induction l as [|y l IH]; [done|]. simpl. destruct (_ <=? _); [done|]. rewrite IH. constructor.
Qed.

Lemma consistent_sub {A} (cmp : A → A → Z) l l' : (∀ x, x ∈ l' → x ∈ l) → consistent cmp l → consistent cmp l'.
Proof. intros H [H1 H2]. split; [intros x y Hx Hy; apply H1; by apply H|]. intros x y z Hx Hy Hz. apply H2; by apply H. Qed.

Lemma insert_sorted_ok {A} (cmp : A → A → Z) x l : consistent cmp (x :: l) →
  StronglySorted (λ x y, cmp x y ≤ 0) l → StronglySorted (λ x y, cmp x y ≤ 0) (insert_sorted cmp x l).
Proof.
  intros Hc. induction 1 as [|y l Hs IH Hy]; [repeat constructor|]. simpl. destruct (_ <=? _) eqn:E; breflect.
  - constructor; [by constructor|]. constructor; [done|]. apply Forall_forall. intros z Hz.
    destruct Hc as [_ Ht]. eapply (Ht x y z); [set_solver..|done|]. by eapply Forall_forall in Hy.
  - constructor.
    + apply IH. eapply consistent_sub; [|done]. set_solver.
    + rewrite insert_sorted_perm. constructor; [|done]. destruct Hc as [H1 _].
      destruct (H1 x y) as [?|?]; [set_solver|set_solver|lia|done].
Qed.

#[global] Instance insertion_sort_spec : QsortSpec insertion_sort.
Proof.
  assert (∀ A (cmp : A → A → Z) l, insertion_sort A cmp l ≡ₚ l) as Hp.
  { intros A cmp l. induction l as [|x l IH]; [done|]. simpl. by rewrite insert_sorted_perm IH. }
  split; intros A cmp l Hc; [apply Hp|].
  induction l as [|x l IH]; [constructor|]. simpl. apply insert_sorted_ok.
  - eapply consistent_sub; [|exact Hc]. intros z. rewrite !elem_of_cons. intros [->|Hz]; [by left|right].
    by rewrite -(Hp A cmp l).
  - apply IH. eapply consistent_sub; [|exact Hc]. set_solver.
Qed.

(** ** [strcmp] *)

(** The strings are without their NUL, which compares as 0. *)
Fixpoint strcmp (p q : list Z) : Z :=
  match p, q with
  | [], [] => 0
  | [], b :: _ => - b
  | a :: _, [] => a
  | a :: p, b :: q => if a =? b then strcmp p q else a - b
  end.

Definition is_cstr (k : list Z) : Prop := Forall (λ c, 0 < c) k.

Lemma strcmp_refl p : strcmp p p = 0.
Proof. induction p as [|a p IH]; [done|]. simpl. by rewrite Z.eqb_refl. Qed.

Lemma strcmp_eq p q : is_cstr p → is_cstr q → strcmp p q = 0 ↔ p = q.
Proof.
  intros Hp Hq. split; [|intros ->; apply strcmp_refl].
  revert q Hq. induction Hp as [|a p Ha Hp IH]; intros q Hq; destruct Hq as [|b q Hb Hq]; simpl; [done|lia|lia|].
  destruct (a =? b) eqn:E; breflect; [|lia]. intros H. by rewrite E (IH q).
Qed.

Lemma strcmp_opp p q : strcmp q p = - strcmp p q.
Proof.
  revert q. induction p as [|a p IH]; intros [|b q]; simpl; try lia. rewrite (Z.eqb_sym b a).
  destruct (a =? b); [apply IH|lia].
Qed.

Lemma strcmp_trans p q r : is_cstr p → is_cstr q → is_cstr r → strcmp p q ≤ 0 → strcmp q r ≤ 0 → strcmp p r ≤ 0.
Proof.
  intros Hp Hq. revert p r Hp. induction Hq as [|b q Hb Hq IH]; intros p r Hp Hr.
  - destruct Hp as [|a p Ha Hp]; [|simpl; lia]. by intros _.
  - destruct Hp as [|a p Ha Hp]; destruct Hr as [|c r Hc Hr]; simpl; try lia.
    destruct (a =? b) eqn:E1, (b =? c) eqn:E2; breflect; subst; rewrite ?Z.eqb_refl.
    + by apply IH.
    + destruct (_ =? c) eqn:E; breflect; [congruence|]. lia.
    + destruct (a =? _) eqn:E; breflect; [congruence|]. lia.
    + destruct (a =? c) eqn:E; breflect; lia.
Qed.
