(* ===== verification/MapRun.v ===== *)
(** * How mapreduce.c distributes the files and reduces the pairs (Map_Reduce)

    [__exec_map] sorts the files by size and deals them out to the mappers;
    [__exec_reduce] runs one thread per list of the map, which sorts the list
    and calls the user's [Reduce] for each key. *)

From S2P Require Import Prelude CInt CString Stdio ArrayList MapReduce Qsort.
From Stdlib Require Import Sorting.Sorted.

(** ** The files of the mappers *)

Record file_stat := Fstat { path : list Z; st_size : Z }.

Definition compare_file_size (f1 f2 : file_stat) : Z := s32 (st_size f1 - st_size f2).

(** [stat] of all files; [None]: the program exits at a file it cannot find. *)
Fixpoint stat_files (fs : gmap (list Z) (list Z)) (files : list (list Z)) : option (list file_stat) :=
  match files with
  | [] => Some []
  | p :: files => c ← fs !! p; stats ← stat_files fs files; Some (Fstat p (length c) :: stats)
  end.

Definition total_size (stats : list file_stat) : Z := foldl (λ t f, u64 (t + st_size f)) 0 stats.

(** The inner loop: the next files go to this mapper until it has its share. *)
Fixpoint take_share (quota accum : Z) (stats : list file_stat) (l : array_list (list Z)) :
    option (array_list (list Z) * list file_stat) :=
  match stats with
  | [] => Some (l, [])
  | f :: more =>
      if accum <? quota then
        l ← push_item l (path f); take_share quota (u64 (accum + st_size f)) more l
      else Some (l, stats)
  end.

(** The outer loop; the files left over go to nobody. *)
Fixpoint assign (num_mappers : nat) (quota : Z) (stats : list file_stat) :
    option (list (array_list (list Z)) * list file_stat) :=
  match num_mappers with
  | O => Some ([], stats)
  | S n =>
      r ← take_share quota 0 stats init_list;
      s ← assign n quota r.2;
      Some (r.1 :: s.1, s.2)
  end.

Section Run.
Context (qsort : ∀ A, (A → A → Z) → list A → list A).

Definition file_lists (num_mappers : Z) (stats : list file_stat) :
    option (list (array_list (list Z)) * list file_stat) :=
  assign (Z.to_nat num_mappers) (total_size stats / u64 num_mappers) (qsort _ compare_file_size stats).

(** What the thread of a mapper emits. *)
Definition map_thread_runner (mapper : list Z → option (list kv_pair)) (l : array_list (list Z)) : option (list kv_pair) :=
  ls ← mapM (λ i : nat, p ← get_item l i; mapper p) (seq 0 (Z.to_nat (len l)));
  Some (concat ls).

Definition exec_map (fs : gmap (list Z) (list Z)) (mapper : list Z → option (list kv_pair)) (num_mappers : Z)
    (files : list (list Z)) (m : multi_map) : option mapping :=
  stats ← stat_files fs files;
  r ← file_lists num_mappers stats;
  jobs ← mapM (map_thread_runner mapper) r.1;
  Some (map_start m jobs).

(** ** Reducing *)

Definition compare_pair (p1 p2 : kv_pair) : Z := strcmp (key p1) (key p2).

Definition set_iter (l : array_list kv_pair) (i : Z) : array_list kv_pair := AL (array l) (len l) (volume l) i.

Definition get_next_value (l : array_list kv_pair) (k : list Z) : option (option (list Z) * array_list kv_pair) :=
  if len l <=? iter_pos l then Some (None, l)
  else
    current ← get_item l (iter_pos l);
    if strcmp (key current) k =? 0 then Some (Some (value current), set_iter l (u64 (iter_pos l + 1)))
    else Some (None, l).

(** [qsort(list->array, list->length, ...)] *)
Definition sort_list (l : array_list kv_pair) : option (array_list kv_pair) :=
  a ← array l;
  xs ← mapM id (take (Z.to_nat (len l)) a);
  Some (AL (Some ((Some <$> qsort _ compare_pair xs) ++ drop (Z.to_nat (len l)) a)) (len l) (volume l) (iter_pos l)).

(** The loop over the sorted list; [reducer] may advance the iterator. *)
Fixpoint reduce_loop {Out : Type} (reducer : list Z → array_list kv_pair → option (Out * array_list kv_pair))
    (n : nat) (i : nat) (l : array_list kv_pair) : option (list Out) :=
  match n with
  | O => Some []
  | S n =>
      p ← get_item l i;
      first ← (if decide (i = 0%nat) then Some true
               else q ← get_item l (i - 1); Some (negb (strcmp (key q) (key p) =? 0)));
      if first : bool then
        r ← reducer (key p) l; os ← reduce_loop reducer n (S i) r.2; Some (r.1 :: os)
      else reduce_loop reducer n (S i) l
  end.

Definition reduce_thread_runner {Out : Type} (reducer : list Z → array_list kv_pair → option (Out * array_list kv_pair))
    (l : array_list kv_pair) : option (list Out) :=
  l ← sort_list l; reduce_loop reducer (Z.to_nat (len l)) 0 l.

(** [MR_Run]: the threads of the mappers run to their ends under some schedule,
    then each list is reduced.  The result is what each reducer printed. *)
Inductive MR_Run {Out : Type} (fs : gmap (list Z) (list Z)) (files : list (list Z))
    (map : list Z → option (list kv_pair)) (num_mappers : Z)
    (reduce : list Z → array_list kv_pair → option (Out * array_list kv_pair)) (num_reducers : Z)
    (partition : list Z → Z → Z) : list (list Out) → Prop :=
| mr_run st0 st outs :
    exec_map fs map num_mappers files (init_map partition num_reducers) = Some st0 →
    star MR_Emit st0 st → finished st →
    mapM (reduce_thread_runner reduce) (lists (pair_map st)) = Some outs →
    MR_Run fs files map num_mappers reduce num_reducers partition outs.

(** ** The distribution *)

Context `{!QsortSpec qsort}.

Definition sizes (stats : list file_stat) : Z := foldr (λ f t, st_size f + t) 0 stats.

Definition stats_ok (stats : list file_stat) : Prop := Forall (λ f, 0 ≤ st_size f < 2 ^ 31) stats.

Lemma sizes_perm s1 s2 : s1 ≡ₚ s2 → sizes s1 = sizes s2.
Proof. induction 1; simpl; lia. Qed.

Lemma sizes_app s1 s2 : sizes (s1 ++ s2) = sizes s1 + sizes s2.
Proof. induction s1; simpl; lia. Qed.

Lemma sizes_nonneg s : stats_ok s → 0 ≤ sizes s.
Proof. induction 1; simpl; lia. Qed.

Lemma sizes_bound s : stats_ok s → sizes s ≤ length s * 2 ^ 31.
Proof. induction 1; simpl; lia. Qed.

Lemma total_size_eq s : stats_ok s → length s < 2 ^ 32 → total_size s = sizes s.
Proof.
  intros Hs Hl. rewrite /total_size. assert (∀ t, 0 ≤ t → t + sizes s < 2 ^ 64 →
    foldl (λ t f, u64 (t + st_size f)) t s = t + sizes s) as H.
  { clear Hl. induction Hs as [|f s Hf Hs IH]; intros t Ht Hb; simpl in *; [lia|].
    pose proof (sizes_nonneg s Hs). rewrite u64_small; [lia|]. rewrite IH; lia. }
  rewrite H //. pose proof (sizes_bound s Hs). lia.
Qed.

Lemma compare_consistent s : stats_ok s → consistent compare_file_size s.
Proof.
  intros Hs. assert (∀ x y, x ∈ s → y ∈ s → compare_file_size x y = st_size x - st_size y) as H.
  { intros x y Hx Hy. rewrite /compare_file_size. eapply Forall_forall in Hx, Hy; [|exact Hs..]. simpl in *.
    apply s32_small. lia. }
  split.
  - intros x y Hx Hy. rewrite !H //. lia.
  - intros x y z Hx Hy Hz. rewrite !H //. lia.
Qed.

(** A mapper takes a prefix of the files, until it has its share. *)
Lemma take_share_ok quota accum s l xs :
  stats_ok s → 0 ≤ accum → accum + sizes s < 2 ^ 64 → al_ok l xs → length xs + length s < 2 ^ 62 →
  ∃ l' s1 s2, take_share quota accum s l = Some (l', s2) ∧ s = s1 ++ s2 ∧ al_ok l' (xs ++ (path <$> s1)) ∧
    (s2 = [] ∨ quota ≤ accum + sizes s1) ∧ (quota ≤ accum → s1 = []).
Proof.
  intros Hs. revert accum l xs. induction Hs as [|f s Hf Hs IH]; intros accum l xs Ha Hb Hl Hn; cbn [take_share].
  - exists l, [], []. split_and!; [done|done|by rewrite app_nil_r|by left|done].
  - destruct (_ <? _) eqn:E; breflect.
    + destruct (push_item_ok l xs (path f) Hl) as (l1&E1&Hl1&_); [simpl in Hn; lia|].
      rewrite E1. cbn [mbind option_bind]. pose proof (sizes_nonneg s Hs). simpl in Hb.
      rewrite u64_small; [lia|].
      destruct (IH (accum + st_size f) l1 (xs ++ [path f])) as (l2&s1&s2&E2&->&Hl2&Hd&_); [lia|lia|done| |].
      { rewrite length_app /=. simpl in Hn. lia. }
      exists l2, (f :: s1), s2. rewrite E2 fmap_cons. split_and!; [done|done| |destruct Hd as [->|?]; [by left|right; simpl; lia]|lia].
      by rewrite -app_assoc in Hl2.
    + exists l, [], (f :: s). split_and!; [done|done|by rewrite app_nil_r|right; simpl; lia|done].
Qed.

Lemma assign_ok n quota s :
  stats_ok s → sizes s < 2 ^ 64 → length s < 2 ^ 62 → 0 ≤ quota →
  ∃ ls shares rest, assign n quota s = Some (ls, rest) ∧ Forall2 al_ok ls shares ∧ length ls = n ∧
    concat shares ++ (path <$> rest) = path <$> s ∧ rest `suffix_of` s ∧
    (rest = [] ∨ sizes rest + n * quota ≤ sizes s) ∧ (quota = 0 → rest = s).
Proof.
  intros Hs Hb Hl Hq. revert s Hs Hb Hl. induction n as [|n IH]; intros s Hs Hb Hl; cbn [assign].
  - exists [], [], s. split_and!; try done. right. lia.
  - destruct (take_share_ok quota 0 s init_list [] Hs) as (l&s1&s2&E&->&Hl1&Hd&Hz);
      [lia|lia|apply init_list_ok|simpl; lia|].
    rewrite E. cbn [mbind option_bind snd fst]. apply Forall_app in Hs as [Hs1 Hs2].
    pose proof (sizes_nonneg s1 Hs1). rewrite sizes_app in Hb |- *. rewrite length_app in Hl.
    destruct (IH s2) as (ls&shares&rest&E2&Hall&Hlen&Hc&Hsuf&Hd2&Hz2); [done|lia|lia|].
    rewrite E2. exists (l :: ls), ((path <$> s1) :: shares), rest. split_and!; [done|by constructor|simpl; lia|..].
    + by rewrite fmap_app -Hc /= -app_assoc.
    + by apply suffix_app_r.
    + destruct Hd2 as [?|Hd2]; [by left|]. destruct Hd as [->|Hd].
      * left. by apply suffix_nil_inv in Hsuf.
      * right. lia.
    + intros ->. rewrite Hz2 //. rewrite Hz //.
Qed.

Lemma stat_files_path fs files stats : stat_files fs files = Some stats → path <$> stats = files.
Proof.
  revert stats. induction files as [|p files IH]; intros stats; simpl; [by intros [= <-]|].
  destruct (fs !! p); simpl; [|done]. destruct (stat_files fs files); simpl; [|done].
  intros [= <-]. by rewrite fmap_cons IH.
Qed.

(** The bytes in the files at [ps]. *)
Definition file_bytes (fs : gmap (list Z) (list Z)) (ps : list (list Z)) : Z :=
  foldr (λ p t, length (default [] (fs !! p)) + t) 0 ps.

Lemma stat_files_size fs files stats : stat_files fs files = Some stats →
  Forall (λ f, st_size f = length (default [] (fs !! path f))) stats.
Proof.
  revert stats. induction files as [|p files IH]; intros stats; simpl; [by intros [= <-]|].
  destruct (fs !! p) eqn:E; simpl; [|done]. destruct (stat_files fs files); simpl; [|done].
  intros [= <-]. constructor; [by rewrite /= E|by apply IH].
Qed.

Lemma sizes_bytes fs s : Forall (λ f, st_size f = length (default [] (fs !! path f))) s → sizes s = file_bytes fs (path <$> s).
Proof. induction 1 as [|f s Hf _ IH]; [done|]. rewrite fmap_cons /= Hf IH //. Qed.

Lemma file_lists_ok fs files stats n :
  stat_files fs files = Some stats → stats_ok stats → length stats < 2 ^ 32 → 0 < n < 2 ^ 31 →
  ∃ ls shares rest, file_lists n stats = Some (ls, rest) ∧ Forall2 al_ok ls shares ∧ length ls = Z.to_nat n ∧
    concat shares ++ (path <$> rest) ≡ₚ files ∧ sizes rest ≤ sizes stats mod n ∧
    (sizes stats < n → concat shares = []) ∧ sizes rest = file_bytes fs (path <$> rest).
Proof.
  intros Hf Hs Hl Hn. pose proof (qsort_perm _ _ _ (compare_consistent stats Hs)) as Hp.
  rewrite /file_lists total_size_eq // (u64_small n); [lia|]. set (sorted := qsort _ _ _) in *.
  pose proof (sizes_nonneg _ Hs). pose proof (sizes_bound _ Hs). pose proof (Permutation_length Hp) as Hlp.
  destruct (assign_ok (Z.to_nat n) (sizes stats / n) sorted) as (ls&shares&rest&E&Hall&Hlen&Hc&Hsuf&Hd&Hz).
  - by rewrite /stats_ok Hp.
  - rewrite (sizes_perm _ _ Hp). lia.
  - lia.
  - apply Z.div_pos; lia.
  - exists ls, shares, rest. rewrite (sizes_perm _ _ Hp) in Hd. split_and!; [done|done|done| | | |].
    + by rewrite Hc Hp (stat_files_path _ _ _ Hf).
    + rewrite Z.mod_eq; [lia|]. destruct Hd as [->|Hd]; [|lia]. simpl. pose proof (Z.mul_div_le (sizes stats) n). lia.
    + intros Hsm. rewrite Z.div_small in Hz; [lia|]. rewrite Hz // in Hc.
      apply (f_equal length) in Hc. rewrite length_app in Hc. destruct (concat shares); [done|simpl in Hc; lia].
    + apply sizes_bytes. pose proof (stat_files_size _ _ _ Hf) as Hz'. rewrite -Hp in Hz'. destruct Hsuf as [s1 ->].
      by apply Forall_app in Hz' as [_ ?].
Qed.

(** C35: How [__exec_map] deals out the files: together the mappers get the files
    once each, except for some that no mapper gets, whose sizes add up to at
    most the remainder of the total size divided by the number of mappers.
    When all files together are smaller than the number of mappers, no file
    is mapped at all. *)
Theorem files_assigned fs files stats n :
  stat_files fs files = Some stats → stats_ok stats → length stats < 2 ^ 32 → 0 < n < 2 ^ 31 →
  ∃ ls shares rest, file_lists n stats = Some (ls, rest) ∧ Forall2 al_ok ls shares ∧ length ls = Z.to_nat n ∧
    concat shares ++ (path <$> rest) ≡ₚ files ∧ sizes rest ≤ sizes stats mod n ∧
    (sizes stats < n → concat shares = []).
Proof.
  intros Hf Hs Hl Hn. destruct (file_lists_ok fs files stats n Hf Hs Hl Hn) as (ls&shares&rest&?&?&?&?&?&?&_). by exists ls, shares, rest.
Qed.

(** ** Reducing a list *)

(** The keys of a list where they change, with the number of items up to the
    next change; [prev] is the key before the list. *)
Fixpoint run_length (k : list Z) (xs : list kv_pair) : nat :=
  match xs with
  | [] => 0%nat
  | p :: xs => if decide (key p = k) then S (run_length k xs) else 0%nat
  end.

Fixpoint tally (prev : option (list Z)) (xs : list kv_pair) : list (list Z * nat) :=
  match xs with
  | [] => []
  | p :: xs =>
      if decide (prev = Some (key p)) then tally prev xs
      else (key p, S (run_length (key p) xs)) :: tally (Some (key p)) xs
  end.

Lemma get_next_ok l xs k (j : nat) :
  al_ok l xs → Forall (λ p, is_cstr (key p)) xs → is_cstr k → length xs < 2 ^ 62 → iter_pos l = j → (j ≤ length xs)%nat →
  get_next_value l k = Some (match xs !! j with
    | Some p => if decide (key p = k) then (Some (value p), set_iter l (j + 1)) else (None, l)
    | None => (None, l)
    end).
Proof.
  intros Hl Hc Hk Hb Hj Hle. rewrite /get_next_value Hj. destruct Hl as [Hh Hlen] eqn:E. rewrite Hlen.
  destruct (xs !! j) as [p|] eqn:Ej.
  - pose proof (lookup_lt_Some _ _ _ Ej). rewrite (proj2 (Z.leb_gt _ _)); [lia|].
    rewrite (get_item_ok l xs j) // Ej. cbn [mbind option_bind]. rewrite u64_small; [lia|].
    pose proof (strcmp_eq (key p) k (Forall_lookup_1 _ _ _ _ Hc Ej) Hk) as Heq.
    case_decide as Hd.
    + by rewrite (proj2 Heq) // Z.eqb_refl.
    + destruct (_ =? 0) eqn:Ez; breflect; [|done]. by apply Heq in Ez.
  - apply lookup_ge_None in Ej. rewrite (proj2 (Z.leb_le _ _)) //. lia.
Qed.

Lemma mapM_id_Some {A} (xs : list A) : mapM id (Some <$> xs) = Some xs.
Proof. induction xs as [|x xs IH]; [done|]. simpl. by rewrite IH. Qed.

Lemma compare_pair_consistent xs : Forall (λ p, is_cstr (key p)) xs → consistent compare_pair xs.
Proof.
  intros Hc. split.
  - intros x y _ _. rewrite /compare_pair (strcmp_opp (key x) (key y)). lia.
  - intros x y z Hx Hy Hz. eapply Forall_forall in Hx, Hy, Hz; [|exact Hc..]. by apply strcmp_trans.
Qed.

Lemma sort_list_ok l xs : al_ok l xs → Forall (λ p, is_cstr (key p)) xs →
  ∃ l' ys, sort_list l = Some l' ∧ al_ok l' ys ∧ ys ≡ₚ xs ∧ iter_pos l' = iter_pos l ∧
    StronglySorted (λ p q, compare_pair p q ≤ 0) ys.
Proof.
  intros [[(a&Ha&Hla&Hxs) Hv Hf] Hlen] Hc. pose proof (compare_pair_consistent xs Hc) as Hcon.
  rewrite /sort_list Ha Hlen Nat2Z.id. cbn [mbind option_bind]. rewrite Hxs mapM_id_Some. cbn [mbind option_bind].
  pose proof (qsort_perm _ _ _ Hcon) as Hp. pose proof (qsort_sorted _ _ _ Hcon) as Hs.
  pose proof (Permutation_length Hp) as Hlp. eexists _, (qsort _ compare_pair xs).
  split_and!; [done| |done|done|done]. split; [|simpl; lia]. split; [|done|simpl; lia].
  eexists. split; [done|]. rewrite length_app length_fmap length_drop Hlp /=. split.
  - apply (f_equal length) in Hxs. rewrite length_take length_fmap in Hxs. simpl. lia.
  - rewrite take_app_length' //. by rewrite length_fmap.
Qed.
End Run.
