(* ===== verification/WordCount.v ===== *)
(** * wordcount.c (Map_Reduce): the word counter and the whole framework *)

From stdpp Require Import pretty.
From Stdlib Require Import Sorting.Sorted.
From S2P Require Import Prelude CInt CString Stdio Utilities ArrayList MapReduce Qsort MapRun.

Definition delims : list Z := [32; 9; 10; 13].

Definition one : list Z := str "1".

(** The pairs that [Map] emits, line by line and token by token. *)
Fixpoint map_loop (fuel : nat) (s : stream) : option (list kv_pair) :=
  match fuel with
  | O => None
  | S fuel =>
      match getline s with
      | (Some line, s) =>
          tokens ← strsep_loop (S (length line)) delims (Some (cstring line));
          rest ← map_loop fuel s;
          Some (((λ token, Kv token one) <$> tokens) ++ rest)
      | (None, _) => Some []
      end
  end.

Definition Map (fs : gmap (list Z) (list Z)) (file_name : list Z) : option (list kv_pair) :=
  c ← fs !! file_name; map_loop (S (length c)) (Stream c false).

Fixpoint count_loop (fuel : nat) (k : list Z) (l : array_list kv_pair) (count : Z) :
    option (Z * array_list kv_pair) :=
  match fuel with
  | O => None
  | S fuel =>
      r ← get_next_value l k;
      match r.1 with
      | Some _ => count_loop fuel k r.2 (s32 (count + 1))
      | None => Some (count, r.2)
      end
  end.

(** The line [Reduce] prints. *)
Definition count_line (k : list Z) (count : Z) : list Z := k ++ [32] ++ str (pretty count) ++ [nl].

Definition Reduce (k : list Z) (l : array_list kv_pair) : option (list Z * array_list kv_pair) :=
  r ← count_loop (S (Z.to_nat (len l))) k l 0; Some (count_line k r.1, r.2).

(** ** Mapping *)

(** The words of a file: the pieces of its lines, empty ones included. *)
Definition words (c : list Z) : list (list Z) := concat ((λ line, pieces delims (cstring line)) <$> lines c).

Lemma map_loop_words fuel s : (length (rest s) < fuel)%nat →
  map_loop fuel s = Some ((λ token, Kv token one) <$> words (rest s)).
Proof.
  revert s. induction fuel as [|fuel IH]; intros [l e] Hf; [simpl in Hf; lia|]. simpl in Hf.
  cbn [map_loop]. rewrite /getline /words. cbn [rest].
  pose proof (take_line_app (S (length l)) l) as Happ. pose proof (take_line_rest (length l) l) as Hr.
  pose proof (take_line_nil (length l) l) as Hnil. pose proof (lines_step (length l) l ltac:(done)) as Hl.
  destruct (take_line (S (length l)) l) as [x r]. cbn [fst snd] in *. destruct x as [|a x].
  { by rewrite Hnil. }
  assert (l ≠ []) as Hne by by intros ->. rewrite (Hl Hne).
  rewrite strsep_loop_pieces; [rewrite /cstring; pose proof (cprefix_length (length (a :: x)) (a :: x)); lia|].
  cbn [mbind option_bind]. rewrite IH; [specialize (Hr Hne); simpl; lia|]. cbn [mbind option_bind rest].
  by rewrite fmap_cons /= fmap_app.
Qed.

Lemma cprefix_cstr n l : Forall is_byte l → is_cstr (cprefix n l).
Proof.
  intros Hl. revert n. induction Hl as [|a l Ha Hl IH]; intros [|n]; simpl; try constructor.
  destruct (a =? 0) eqn:E; breflect; constructor; [rewrite /is_byte in Ha; lia|apply IH].
Qed.

Lemma lines_bytes (P : Z → Prop) l : Forall P l → Forall (Forall P) (lines l).
Proof.
  induction 1 as [|a l Ha Hl IH]; simpl; [constructor|]. destruct (a =? nl); [by repeat constructor|].
  destruct IH; repeat constructor; auto.
Qed.

Lemma words_cstr c : Forall is_byte c → Forall is_cstr (words c).
Proof.
  intros Hc. apply Forall_concat, Forall_fmap. eapply Forall_impl; [by apply lines_bytes|].
  intros line Hline. apply pieces_cover. by apply cprefix_cstr.
Qed.

(** ** Reducing a sorted list *)

Lemma set_iter_ok l xs i : al_ok l xs → al_ok (set_iter l i) xs.
Proof. intros [[Ha Hv Hf] Hl]. by split; [split|]. Qed.

Lemma run_length_le k xs : (run_length k xs ≤ length xs)%nat.
Proof. induction xs as [|p xs IH]; simpl; [lia|]. case_decide; lia. Qed.

Section Reduce.
Context (xs : list kv_pair) (Hxs : Forall (λ p, is_cstr (key p)) xs) (Hlen : length xs < 2 ^ 31).

Lemma count_loop_ok fuel k l (j : nat) (count : Z) :
  al_ok l xs → is_cstr k → iter_pos l = j → (j ≤ length xs)%nat → 0 ≤ count ≤ j →
  (run_length k (drop j xs) < fuel)%nat →
  count_loop fuel k l count =
    Some (count + run_length k (drop j xs), set_iter l (j + run_length k (drop j xs))%nat).
Proof.
  revert l j count. induction fuel as [|fuel IH]; intros l j count Hl Hk Hj Hle Hc Hf; [lia|].
  cbn [count_loop]. rewrite (get_next_ok l xs k j) //; [lia|]. cbn [mbind option_bind].
  destruct (xs !! j) as [p|] eqn:Ej.
  - rewrite (drop_S _ _ _ Ej) in Hf |- *. cbn [run_length] in Hf |- *. pose proof (lookup_lt_Some _ _ _ Ej).
    case_decide as Hd; cbn [fst snd].
    + rewrite s32_small; [lia|]. rewrite (IH _ (S j)); try done; try lia.
      * by apply set_iter_ok.
      * simpl. lia.
      * f_equal. f_equal; [lia|]. rewrite /set_iter /=. f_equal. lia.
    + rewrite Nat.add_0_r Z.add_0_r. f_equal. f_equal. destruct l. simpl in *. by subst.
  - apply lookup_ge_None in Ej. rewrite drop_ge //. cbn [fst snd run_length]. rewrite Nat.add_0_r Z.add_0_r.
    f_equal. f_equal. destruct l. simpl in *. by subst.
Qed.

Lemma Reduce_ok k l (j : nat) : al_ok l xs → is_cstr k → iter_pos l = j → (j ≤ length xs)%nat →
  Reduce k l = Some (count_line k (run_length k (drop j xs)), set_iter l (j + run_length k (drop j xs))%nat).
Proof.
  intros Hl Hk Hj Hle. rewrite /Reduce (count_loop_ok _ _ _ j) //; [lia|].
  destruct Hl as [_ ->]. pose proof (run_length_le k (drop j xs)). rewrite length_drop in H. lia.
Qed.

Definition prev_key (i : nat) : option (list Z) := match i with O => None | S i => key <$> xs !! i end.

Lemma reduce_loop_ok n i l :
  al_ok l xs → (i + n = length xs)%nat →
  iter_pos l = (i + match prev_key i with Some k => run_length k (drop i xs) | None => 0 end)%nat →
  reduce_loop Reduce n i l = Some ((λ kn, count_line kn.1 (Z.of_nat kn.2)) <$> tally (prev_key i) (drop i xs)).
Proof.
  revert i l. induction n as [|n IH]; intros i l Hl Hi Hit; cbn [reduce_loop].
  { by rewrite drop_ge; [lia|]. }
  destruct (lookup_lt_is_Some_2 xs i) as [p Hp]; [lia|].
  rewrite (get_item_ok l xs i) // ?Hp; [lia|]. cbn [mbind option_bind]. rewrite (drop_S _ _ _ Hp) in Hit |- *.
  cbn [tally]. pose proof (Forall_lookup_1 _ _ _ _ Hxs Hp) as Hkp. simpl in Hkp.
  assert ((if decide (i = 0%nat) then Some true
           else get_item l (i - 1) ≫= λ q, Some (negb (strcmp (key q) (key p) =? 0))) =
          Some (negb (bool_decide (prev_key i = Some (key p))))) as ->.
  { destruct i as [|i]; [done|]. destruct (decide (S i = 0%nat)); [done|]. replace (S i - 1)%Z with (i : Z) by lia.
    destruct (lookup_lt_is_Some_2 xs i) as [q Hq]; [lia|]. rewrite (get_item_ok l xs i) // ?Hq; [lia|].
    cbn [mbind option_bind prev_key]. rewrite Hq. cbn [fmap option_fmap option_map]. do 2 f_equal.
    pose proof (strcmp_eq (key q) (key p) (Forall_lookup_1 _ _ _ _ Hxs Hq) Hkp) as Heq.
    case_bool_decide as Hd.
    - apply Z.eqb_eq, Heq. congruence.
    - apply Z.eqb_neq. intros E%Heq. congruence. }
  cbn [mbind option_bind]. assert (prev_key (S i) = Some (key p)) as Hprev by (by rewrite /= Hp).
  case_decide as Hd.
  - rewrite bool_decide_true //. cbn [negb]. rewrite (IH (S i)) //; [lia| |].
    + rewrite Hit Hd Hprev. cbn [run_length]. rewrite decide_True //. lia.
    + by rewrite Hprev Hd.
  - rewrite bool_decide_false //. cbn [negb].
    assert (iter_pos l = i) as Hit'.
    { rewrite Hit. destruct (prev_key i) as [k|]; [|lia]. cbn [run_length]. rewrite decide_False; [congruence|lia]. }
    rewrite (Reduce_ok (key p) l i) //; [lia|]. cbn [mbind option_bind fst snd].
    rewrite (drop_S _ _ _ Hp). cbn [run_length]. rewrite decide_True //.
    rewrite (IH (S i)) //; [by apply set_iter_ok|lia| |].
    + rewrite Hprev. simpl. lia.
    + by rewrite Hprev.
Qed.
End Reduce.

(** ** The counts of a sorted list *)

Definition slt (a b : list Z) : Prop := strcmp a b < 0.

Definition count_key (k : list Z) (xs : list kv_pair) : nat := length (filter (λ p, key p = k) xs).

Lemma count_key_perm k xs ys : xs ≡ₚ ys → count_key k xs = count_key k ys.
Proof. intros H. rewrite /count_key. by rewrite H. Qed.

Lemma count_key_none k xs : k ∉ key <$> xs → count_key k xs = 0%nat.
Proof.
  intros Hk. rewrite /count_key. induction xs as [|p xs IH]; [done|]. rewrite fmap_cons not_elem_of_cons in Hk.
  rewrite filter_cons decide_False; [naive_solver|]. apply IH. naive_solver.
Qed.

Lemma strcmp_antisym a b : is_cstr a → is_cstr b → strcmp a b ≤ 0 → strcmp b a ≤ 0 → a = b.
Proof. intros Ha Hb H1 H2. apply strcmp_eq; [done..|]. rewrite (strcmp_opp a b) in H2. lia. Qed.

Section Tally.
Notation sorted := (StronglySorted (λ p q, compare_pair p q ≤ 0)).
Notation cstrs := (Forall (λ p, is_cstr (key p))).

(** In a sorted list whose keys are not below [k], the items of [k] come first. *)
Lemma run_length_count k xs : is_cstr k → cstrs xs → sorted xs → Forall (λ p, strcmp k (key p) ≤ 0) xs →
  run_length k xs = count_key k xs.
Proof.
  intros Hk Hc Hs Hge. induction Hs as [|p xs Hs IH Hp]; [done|].
  apply Forall_cons in Hc as [Hcp Hc]. apply Forall_cons in Hge as [Hgp Hge]. cbn [run_length].
  rewrite /count_key filter_cons. case_decide as Hd; [simpl; f_equal; by apply IH|].
  symmetry. apply count_key_none. rewrite list_elem_of_fmap. intros (q&->&Hq). apply Hd.
  eapply Forall_forall in Hp; [|exact Hq]. by apply strcmp_antisym.
Qed.

Definition above (prev : option (list Z)) (k : list Z) : Prop :=
  match prev with None => True | Some k0 => slt k0 k end.

Definition not_below (prev : option (list Z)) (k : list Z) : Prop :=
  match prev with None => True | Some k0 => is_cstr k0 ∧ strcmp k0 k ≤ 0 end.

Lemma count_key_other k p xs : key p ≠ k → count_key k (p :: xs) = count_key k xs.
Proof. intros H. by rewrite /count_key filter_cons decide_False. Qed.

Lemma run_length_first p xs : cstrs (p :: xs) → sorted (p :: xs) →
  S (run_length (key p) xs) = count_key (key p) (p :: xs).
Proof.
  intros [Hcp Hc]%Forall_cons [Hs Hp]%StronglySorted_inv. rewrite run_length_count //.
  by rewrite /count_key filter_cons decide_True.
Qed.

Lemma slt_trans a b c : is_cstr a → is_cstr b → is_cstr c → slt a b → slt b c → slt a c.
Proof.
  rewrite /slt. intros Ha Hb Hc H1 H2. pose proof (strcmp_trans a b c Ha Hb Hc ltac:(lia) ltac:(lia)).
  enough (strcmp a c ≠ 0) by lia. intros E%strcmp_eq; [|done..]. subst c. rewrite (strcmp_opp a b) in H2. lia.
Qed.

Lemma not_below_above prev k : is_cstr k → not_below prev k → prev ≠ Some k → above prev k.
Proof.
  intros Hk Hb Hne. destruct prev as [k0|]; [|done]. destruct Hb as [Hk0 Hle]. rewrite /= /slt.
  enough (strcmp k0 k ≠ 0) by lia. intros E%strcmp_eq; [congruence|done..].
Qed.

Lemma above_ne prev k : above prev k → prev ≠ Some k.
Proof. intros H ->. rewrite /= /slt strcmp_refl in H. lia. Qed.

Lemma above_trans prev a b : not_below prev a → is_cstr a → is_cstr b → above prev a → slt a b → above prev b.
Proof. destruct prev as [k0|]; [|done]. intros [Hk0 _] Ha Hb. by apply slt_trans. Qed.

(** The keys that are counted: all but the one before the list. *)
Lemma tally_spec prev xs : cstrs xs → sorted xs → Forall (λ p, not_below prev (key p)) xs →
  StronglySorted slt (tally prev xs).*1 ∧
  (∀ k n, (k, n) ∈ tally prev xs ↔ k ∈ key <$> xs ∧ prev ≠ Some k ∧ n = count_key k xs) ∧
  Forall (above prev) (tally prev xs).*1.
Proof.
  intros Hc Hs. revert prev. induction Hs as [|p xs Hs IH Hp]; intros prev Hb.
  { split_and!; [constructor| |constructor]. intros k n. simpl. rewrite !elem_of_nil. tauto. }
  pose proof (run_length_first p xs Hc (SSorted_cons _ Hs Hp)) as Hrun.
  apply Forall_cons in Hc as [Hcp Hc]. apply Forall_cons in Hb as [Hbp Hb]. cbn [tally]. case_decide as Hd.
  - destruct (IH Hc prev Hb) as (H1&H2&H3). split_and!; [done| |done]. intros k n. rewrite H2 fmap_cons elem_of_cons Hd.
    split; [intros (Hk&Hne&->)|intros ([->|Hk]&Hne&->); [done|]]; split_and!; auto; rewrite count_key_other //; congruence.
  - assert (Forall (λ q, not_below (Some (key p)) (key q)) xs) as Hb' by (eapply Forall_impl; [exact Hp|]; by intros q Hq).
    destruct (IH Hc (Some (key p)) Hb') as (H1&H2&H3). pose proof (not_below_above prev _ Hcp Hbp Hd) as Hab.
    assert (∀ k, k ∈ (tally (Some (key p)) xs).*1 → is_cstr k ∧ above prev k) as Hkeys.
    { intros k Hk. pose proof (proj1 (Forall_forall _ _) H3 _ Hk) as Hpk. apply list_elem_of_fmap in Hk as ([k' n]&->&Hk).
      apply H2 in Hk as ((q&->&Hq)%list_elem_of_fmap&_). assert (is_cstr (key q)) as Hcq by by eapply Forall_forall in Hc.
      split; [done|]. by eapply above_trans. }
    rewrite fmap_cons. split_and!; [by constructor| |constructor; [done|]; apply Forall_forall; intros k Hk; by apply Hkeys].
    intros k n. rewrite elem_of_cons H2 fmap_cons elem_of_cons. split.
    + intros [[= -> ->]|(Hk&Hne&->)]; [split_and!; [by left|done|done]|].
      split_and!; [by right| |rewrite count_key_other //; congruence]. apply above_ne. apply Hkeys.
      apply list_elem_of_fmap. exists (k, count_key k xs). split; [done|]. by apply H2.
    + intros (Hk&Hne&->). destruct (decide (k = key p)) as [->|Hkp]; [left; by rewrite Hrun|right].
      destruct Hk as [?|Hk]; [done|]. split_and!; [done|congruence|]. by rewrite count_key_other.
Qed.
End Tally.

(** ** The whole program *)

Definition file_words (fs : gmap (list Z) (list Z)) (p : list Z) : list (list Z) :=
  match fs !! p with Some c => words c | None => [] end.

Definition all_words (fs : gmap (list Z) (list Z)) (ps : list (list Z)) : list (list Z) := concat (file_words fs <$> ps).

Definition occurrences (k : list Z) (ws : list (list Z)) : nat := length (filter (λ w, w = k) ws).

(** What the reducer of list [i] prints for the words [ws]: one line for each
    word that belongs to the list, in the order of [strcmp], with its number. *)
Definition counts (i : nat) (num_reducers : Z) (ws : list (list Z)) (out : list (list Z)) : Prop :=
  ∃ res : list (list Z * nat), out = (λ kn, count_line kn.1 (Z.of_nat kn.2)) <$> res ∧ StronglySorted slt res.*1 ∧
    ∀ k n, (k, n) ∈ res ↔ k ∈ ws ∧ MR_DefaultHashPartition k num_reducers = i ∧ n = occurrences k ws.

Definition kvs (ws : list (list Z)) : list kv_pair := (λ w, Kv w one) <$> ws.

Lemma map_thread_ok fs l ps : al_ok l ps → Forall (λ p, is_Some (fs !! p)) ps →
  map_thread_runner (Map fs) l = Some (kvs (all_words fs ps)).
Proof.
  intros Hl Hps. rewrite /map_thread_runner (proj2 Hl) Nat2Z.id.
  rewrite (mapM_Some_2 _ _ ((λ p, kvs (file_words fs p)) <$> ps)).
  - apply Forall2_same_length_lookup_2; [by rewrite length_fmap length_seq|].
    intros i j r [-> Hi]%lookup_seq Hr. rewrite list_lookup_fmap in Hr. rewrite (get_item_ok l ps) //.
    destruct (ps !! (0 + i)%nat) as [p|] eqn:Ep; [|by rewrite Ep in Hr]. rewrite Ep in Hr. injection Hr as <-.
    cbn [mbind option_bind]. destruct (Forall_lookup_1 _ _ _ _ Hps Ep) as [c Hc].
    rewrite /Map Hc /file_words Hc. cbn [mbind option_bind]. rewrite map_loop_words //. simpl. lia.
  - cbn [mbind option_bind]. f_equal. rewrite /all_words /kvs. clear. induction ps as [|p ps IH]; [done|].
    by rewrite !fmap_cons /= fmap_app IH.
Qed.

Lemma stat_files_exist fs files stats : stat_files fs files = Some stats → Forall (λ p, is_Some (fs !! p)) files.
Proof.
  revert stats. induction files as [|p files IH]; intros stats; simpl; [constructor|].
  destruct (fs !! p) eqn:E; simpl; [|done]. destruct (stat_files fs files); simpl; [|done]. intros _.
  constructor; [by rewrite E|by eapply IH].
Qed.

Lemma all_words_app fs p1 p2 : all_words fs (p1 ++ p2) = all_words fs p1 ++ all_words fs p2.
Proof. by rewrite /all_words fmap_app concat_app. Qed.

Lemma all_words_concat fs pss : concat (all_words fs <$> pss) = all_words fs (concat pss).
Proof. induction pss as [|ps pss IH]; [done|]. by rewrite fmap_cons /= IH all_words_app. Qed.

Lemma all_words_perm fs p1 p2 : p1 ≡ₚ p2 → all_words fs p1 ≡ₚ all_words fs p2.
Proof.
  rewrite /all_words. induction 1 as [| |p q l|]; rewrite ?fmap_cons /=; [done|by f_equiv| |by etrans].
  by rewrite Permutation_app_swap_app.
Qed.

Lemma emit_hash st st' : MR_Emit st st' →
  hash_func (pair_map st') = hash_func (pair_map st) ∧ table_size (pair_map st') = table_size (pair_map st).
Proof.
  assert (∀ m i f m', on_list m i f = Some m' → hash_func m' = hash_func m ∧ table_size m' = table_size m) as H.
  { intros m i f m'. rewrite /on_list. case_bool_decide; [|done]. destruct (lists m !! _); simpl; [|done].
    destruct (f _); simpl; [|done]. by intros [= <-]. }
  by intros [| | |]; simpl; eauto.
Qed.

Lemma occurrences_kvs k ws xs : xs ≡ₚ kvs ws → count_key k xs = occurrences k ws.
Proof.
  intros H. rewrite (count_key_perm _ _ _ H). clear H. rewrite /count_key /occurrences /kvs.
  induction ws as [|w ws IH]; [done|]. rewrite fmap_cons !filter_cons. simpl. repeat case_decide; simpl; congruence.
Qed.

Lemma mapM_indexed {A B} (f : A → option B) (P : nat → B → Prop) l :
  (∀ i x, l !! i = Some x → ∃ y, f x = Some y ∧ P i y) →
  ∃ ys, mapM f l = Some ys ∧ length ys = length l ∧ ∀ i y, ys !! i = Some y → P i y.
Proof.
  revert P. induction l as [|x l IH]; intros P Hl; [by exists []|].
  destruct (Hl 0%nat x eq_refl) as (y&Ey&Hy). destruct (IH (λ i, P (S i))) as (ys&E&Hlen&Hys); [intros i; apply (Hl (S i))|].
  exists (y :: ys). rewrite /= Ey /= E /= Hlen. split_and!; [done|done|]. intros [|i] z; [by intros [= <-]|]. apply Hys.
Qed.

Section Program.
Context (qsort : ∀ A, (A → A → Z) → list A → list A) `{!QsortSpec qsort}.

(** One reducer, on the list of a finished map. *)
Lemma reduce_thread_ok m xs ws nr (i : nat) l :
  mm_ok m xs → xs ≡ₚ kvs ws → Forall is_cstr ws → length ws < 2 ^ 31 →
  hash_func m = MR_DefaultHashPartition → table_size m = nr → lists m !! i = Some l →
  ∃ out, reduce_thread_runner qsort Reduce l = Some out ∧ counts i nr ws out.
Proof.
  intros Hm Hp Hcs Hb Hh Ht Hl. destruct (mm_lists _ _ Hm i l Hl) as [Hok Hit]. set (ys := part m i xs) in Hok.
  assert (length xs = length ws) as Hlx by (rewrite (Permutation_length Hp) length_fmap; done).
  pose proof (part_length m i xs) as Hly. fold ys in Hly.
  assert (Forall (λ p, is_cstr (key p)) ys) as Hcy.
  { assert (Forall (λ p, is_cstr (key p)) xs) as Hcx by (rewrite Hp; by apply Forall_fmap). apply Forall_forall. intros q [_ Hq]%list_elem_of_filter. by eapply Forall_forall in Hcx. }
  destruct (sort_list_ok qsort l ys Hok Hcy) as (l'&zs&E&Hl'&Hz&Hit'&Hs).
  rewrite /reduce_thread_runner E. cbn [mbind option_bind]. rewrite (proj2 Hl') Nat2Z.id.
  assert (Forall (λ p, is_cstr (key p)) zs) as Hcz by by rewrite Hz.
  pose proof (Permutation_length Hz) as Hlz.
  rewrite (reduce_loop_ok zs Hcz ltac:(lia) (length zs) 0 l' Hl'); [lia|by rewrite /= Hit' Hit|].
  eexists. split; [done|]. exists (tally None zs). rewrite drop_0. split; [done|].
  destruct (tally_spec None zs Hcz Hs) as (H1&H2&_); [by apply Forall_true|]. split; [done|].
  intros k n. rewrite H2. assert (∀ q, q ∈ ys ↔ q ∈ kvs ws ∧ hash_func m (key q) (table_size m) = i) as Hin.
  { intros q. rewrite /ys /part list_elem_of_filter Hp. tauto. }
  assert (k ∈ key <$> zs ↔ k ∈ ws ∧ MR_DefaultHashPartition k nr = i) as ->.
  { rewrite Hz list_elem_of_fmap. split.
    - intros (q&->&[(w&->&Hw)%list_elem_of_fmap Hq]%Hin). by rewrite Hh Ht in Hq.
    - intros [Hw Hi]. exists (Kv k one). split; [done|]. apply Hin. rewrite Hh Ht. split; [|done].
      apply list_elem_of_fmap. by exists k. }
  assert (MR_DefaultHashPartition k nr = i → count_key k zs = occurrences k ws) as Hcount.
  { intros Hi. rewrite (count_key_perm _ _ _ Hz) -(occurrences_kvs k ws xs Hp) /ys /part /count_key list_filter_filter.
    f_equal. apply list_filter_iff. intros q. rewrite Hh Ht. naive_solver. }
  naive_solver.
Qed.

(** The threads [__exec_map] starts. *)
Lemma exec_map_ok fs files stats nm m :
  stat_files fs files = Some stats → stats_ok stats → length stats < 2 ^ 32 → 0 < nm < 2 ^ 31 →
  ∃ shares rest, exec_map qsort fs (Map fs) nm files m = Some (map_start m (kvs ∘ all_words fs <$> shares)) ∧
    concat shares ++ rest ≡ₚ files ∧ file_bytes fs rest ≤ sizes stats mod nm.
Proof.
  intros Hf Hs Hl Hn. destruct (file_lists_ok qsort fs files stats nm Hf Hs Hl Hn) as (ls&shares&rest&E&Hall&_&Hp&Hr&_&Eb).
  exists shares, (path <$> rest). split; [|by rewrite -Eb]. rewrite /exec_map Hf. cbn [mbind option_bind]. rewrite E. cbn [mbind option_bind fst].
  rewrite (mapM_Some_2 _ _ (kvs ∘ all_words fs <$> shares)); [|done].
  assert (Forall (Forall (λ p, is_Some (fs !! p))) shares) as Hex.
  { pose proof (stat_files_exist _ _ _ Hf) as H. rewrite -Hp in H. apply Forall_app in H as [H _]. clear -H.
    induction shares as [|ps shares IH]; [constructor|]. apply Forall_app in H as [H1 H2]. by constructor; [|apply IH]. }
  apply Forall2_fmap_r. clear -Hall Hex. induction Hall as [|l ps ls shares Hl1 _ IH]; constructor.
  - apply Forall_cons in Hex as [Hps _]. by apply map_thread_ok.
  - apply Forall_cons in Hex as [_ Hex]. by apply IH.
Qed.

Lemma mapM_reduce m xs ws nr :
  mm_ok m xs → xs ≡ₚ kvs ws → Forall is_cstr ws → length ws < 2 ^ 31 →
  hash_func m = MR_DefaultHashPartition → table_size m = nr →
  ∃ outs, mapM (reduce_thread_runner qsort Reduce) (lists m) = Some outs ∧ length outs = Z.to_nat nr ∧
    ∀ i out, outs !! i = Some out → counts i nr ws out.
Proof.
  intros Hm Hp Hcs Hb Hh Ht. pose proof (λ i l, reduce_thread_ok m xs ws nr i l Hm Hp Hcs Hb Hh Ht) as Hall.
  rewrite -Ht -(mm_size _ _ Hm). by apply (mapM_indexed _ (λ i out, counts i (table_size m) ws out)); subst nr.
Qed.

(** The result of any complete run of the threads. *)
Lemma run_counts nr jobs ws st :
  0 < nr < 2 ^ 31 → concat jobs = kvs ws → Forall is_cstr ws → length ws < 2 ^ 31 →
  star MR_Emit (map_start (init_map MR_DefaultHashPartition nr) jobs) st → finished st →
  ∃ outs, mapM (reduce_thread_runner qsort Reduce) (lists (pair_map st)) = Some outs ∧ length outs = Z.to_nat nr ∧
    ∀ i out, outs !! i = Some out → counts i nr ws out.
Proof.
  intros Hnr Hj Hcs Hb Hst Hfin. assert (length (concat jobs) < 2 ^ 62) as Hlj by (rewrite Hj length_fmap; lia).
  assert (mm_ok (init_map MR_DefaultHashPartition nr) []) as Hm0.
  { apply init_map_ok. intros k. by apply default_hash_range. }
  assert (map_inv (concat jobs) st) as Hinv.
  { eapply star_inv; [|exact Hst|by apply map_start_inv]. intros a b Ha Hab. by eapply map_inv_step. }
  assert (hash_func (pair_map st) = MR_DefaultHashPartition ∧ table_size (pair_map st) = nr) as [Hh Ht].
  { eapply (star_inv MR_Emit (λ st, hash_func (pair_map st) = MR_DefaultHashPartition ∧ table_size (pair_map st) = nr));
      [|exact Hst|done]. intros a b [Ha1 Ha2] [-> ->]%emit_hash. done. }
  destruct (map_inv_progress _ _ Hlj Hinv) as [[st' Hs]|(_&xs&Hp&Hm)].
  - exfalso. clear -Hfin Hs. destruct Hs as [? ? ? ? ? ? Hi _|? ? ? ? ? ? ? Hi _|? ? ? ? ? ? ? Hi _|? ? ? ? ? ? Hi];
      apply (Forall_lookup_1 _ _ _ _ Hfin) in Hi; discriminate Hi.
  - rewrite Hj in Hp. by apply (mapM_reduce _ xs).
Qed.

(** C4: The word counter, whatever the order in which its threads run and
    whatever sorting algorithm the library uses: the program comes to an end
    without an error, and in each complete run the reducer of each list
    prints one line for every word of the mapped files that hashes to its
    list, in [strcmp] order, with the number of times the word occurs.  The
    files that are not mapped add up to fewer bytes than there are mappers. *)
Theorem wordcount_counts fs files stats nm nr :
  stat_files fs files = Some stats → (∀ p c, fs !! p = Some c → Forall is_byte c) →
  stats_ok stats → length stats < 2 ^ 32 → 0 < nm < 2 ^ 31 → 0 < nr < 2 ^ 31 →
  length (all_words fs files) < 2 ^ 31 →
  ∃ mapped rest, mapped ++ rest ≡ₚ files ∧ file_bytes fs rest < nm ∧
    (∃ outs, MR_Run qsort fs files (Map fs) nm Reduce nr MR_DefaultHashPartition outs) ∧
    ∀ outs, MR_Run qsort fs files (Map fs) nm Reduce nr MR_DefaultHashPartition outs →
      length outs = Z.to_nat nr ∧ ∀ i out, outs !! i = Some out → counts i nr (all_words fs mapped) out.
Proof.
  intros Hf Hbytes Hs Hl Hn Hr Hb.
  destruct (exec_map_ok fs files stats nm (init_map MR_DefaultHashPartition nr) Hf Hs Hl Hn) as (shares&rest&E&Hp&Hsz).
  set (jobs := kvs ∘ all_words fs <$> shares) in E.
  assert (concat jobs = kvs (all_words fs (concat shares))) as Hj.
  { rewrite -all_words_concat /jobs. clear. induction shares as [|ps shares IH]; [done|].
    by rewrite !fmap_cons /= IH /kvs fmap_app. }
  assert (length (all_words fs (concat shares)) < 2 ^ 31) as Hlen.
  { apply all_words_perm with (fs := fs) in Hp. apply Permutation_length in Hp.
    rewrite all_words_app length_app in Hp. lia. }
  assert (Forall is_cstr (all_words fs (concat shares))) as Hcs.
  { apply Forall_concat, Forall_fmap, Forall_true. intros p. rewrite /= /file_words.
    destruct (fs !! p) eqn:Ep; [apply words_cstr; by eapply Hbytes|constructor]. }
  exists (concat shares), rest. split; [done|]. split; [pose proof (Z.mod_pos_bound (sizes stats) nm); lia|]. split.
  - destruct (map_reaches (concat jobs) (map_start (init_map MR_DefaultHashPartition nr) jobs)) as (st&Hst&Hfin).
    + rewrite Hj length_fmap. lia.
    + apply map_start_inv, init_map_ok. intros k. by apply default_hash_range.
    + destruct (run_counts nr jobs _ st Hr Hj Hcs Hlen Hst Hfin) as (outs&Eo&_). exists outs. by econstructor.
  - intros outs Hrun. destruct Hrun as [st0 st outs1 E0 Hst Hfin Eo]. rewrite E in E0. injection E0 as <-.
    destruct (run_counts nr jobs _ st Hr Hj Hcs Hlen Hst Hfin) as (outs'&Eo'&Ho). rewrite Eo in Eo'. injection Eo' as <-. exact Ho.
Qed.
End Program.

(** ** Example: two files, one mapper, three reducers *)

Definition demo_files : gmap (list Z) (list Z) :=
  {[ str "x" := str "a b a" ++ [nl]; str "y" := str "b" ++ [nl] ]}.
Definition demo_paths : list (list Z) := [str "x"; str "y"].

Lemma demo_bytes p c : demo_files !! p = Some c → Forall is_byte c.
Proof.
  rewrite lookup_insert_Some lookup_singleton_Some. intros [[_ <-]|(_&_&<-)]; repeat constructor; by vm_compute.
Qed.

Lemma wordcount_counts_witness :
  ∃ mapped rest, mapped ++ rest ≡ₚ demo_paths ∧ file_bytes demo_files rest < 1 ∧
    (∃ outs, MR_Run insertion_sort demo_files demo_paths (Map demo_files) 1 Reduce 3 MR_DefaultHashPartition outs) ∧
    ∀ outs, MR_Run insertion_sort demo_files demo_paths (Map demo_files) 1 Reduce 3 MR_DefaultHashPartition outs →
      length outs = Z.to_nat 3 ∧ ∀ i out, outs !! i = Some out → counts i 3 (all_words demo_files mapped) out.
Proof.
  apply (wordcount_counts insertion_sort demo_files demo_paths [Fstat (str "x") 6; Fstat (str "y") 2] 1 3);
    [by vm_compute|apply demo_bytes| |by vm_compute|by vm_compute|by vm_compute|by vm_compute].
  repeat constructor; by vm_compute.
Defined.

(** Six bytes for ten mappers: nothing is mapped. *)
Lemma files_assigned_witness :
  ∃ ls shares rest, file_lists insertion_sort 10 [Fstat (str "x") 6] = Some (ls, rest) ∧ Forall2 al_ok ls shares ∧
    length ls = Z.to_nat 10 ∧ concat shares ++ (path <$> rest) ≡ₚ [str "x"] ∧ sizes rest ≤ 6 mod 10 ∧
    (sizes [Fstat (str "x") 6] < 10 → concat shares = []).
Proof.
  apply (files_assigned insertion_sort demo_files [str "x"] [Fstat (str "x") 6] 10);
    [by vm_compute| |by vm_compute|by vm_compute].
  repeat constructor; by vm_compute.
Defined.

Lemma map_phase_complete_witness :
  let st := map_start (init_map MR_DefaultHashPartition 3) [kvs [str "a"]; kvs [str "b"; str "a"]] in
  ((∃ st', MR_Emit st st') ∨ (finished st ∧ ∃ xs, xs ≡ₚ concat [kvs [str "a"]; kvs [str "b"; str "a"]] ∧
     mm_ok (pair_map st) xs)) ∧ (∀ st', MR_Emit st st' → (work st' < work st)%nat).
Proof.
  apply (map_phase_complete MR_DefaultHashPartition 3 [kvs [str "a"]; kvs [str "b"; str "a"]]);
    [intros k; by apply default_hash_range|by vm_compute|constructor].
Defined.
