(* ===== verification/Seush.v ===== *)
(** * seush.c (Unix_Shell): the shell

    The command line is a block of memory that [strsep], [trim] and
    [parse_redirect_dest] cut into strings by overwriting characters with NUL;
    pointers into it are offsets.  An access outside the block, a string
    without its NUL, and a write past the end of an allocated buffer are
    undefined behaviour.  What [malloc] leaves in the [next] field of a new
    list node is the parameter [junk], by the number of the node; the answers of
    the operating system to [access], [chdir], [fork], [freopen] and [execv] are
    parameters, too. *)

From S2P Require Import Prelude CInt CString Stdio.

(** ** The singly linked list *)

Section Link.
Context {V : Type}.

Record link_node := Node { nvalue : V; next : option nat }.

Record link_t := Link { head : option nat; tail : option nat; length_ : Z }.

Definition link_init : link_t := Link None None 0.

(** The nodes of a list live at their indices in the heap [h]. *)
Definition link_add (junk : nat → option nat) (h : list link_node) (l : link_t) (v : V) :
    option (list link_node * link_t) :=
  let n := length h in
  let h := h ++ [Node v (junk n)] in
  match head l with
  | None => Some (h, Link (Some n) (Some n) (u32 (length_ l + 1)))
  | Some _ =>
      t ← tail l;
      x ← h !! t;
      let h := <[n := Node v (next x)]> h in
      let h := <[t := Node (nvalue x) (Some n)]> h in
      Some (h, Link (head l) (Some n) (u32 (length_ l + 1)))
  end.

(** The values from a node on, as the loops over a list visit them.  [room] is
    the number of nodes a loop can visit: the elements of the array it writes,
    or the nodes it has not freed yet. *)
Fixpoint walk (room : nat) (h : list link_node) (p : option nat) : option (list V) :=
  match room, p with
  | _, None => Some []
  | O, _ => None
  | S room, Some i => x ← h !! i; vs ← walk room h (next x); Some (nvalue x :: vs)
  end.

Definition values (h : list link_node) (l : link_t) : option (list V) := walk (length h) h (head l).

(** [link_clear] visits and frees the nodes. *)
Definition link_clear (h : list link_node) (l : link_t) : option link_t :=
  values h l;; Some (Link None None 0).
End Link.
#[global] Arguments link_node : clear implicits.

(** ** Characters of the command line *)

Definition rd (m : mem) (p : Z) : option Z := if 0 <=? p then m !! Z.to_nat p else None.
Definition wr (m : mem) (p v : Z) : option mem := if 0 <=? p then store m (Z.to_nat p) v else None.

Definition isspace (c : Z) : bool := (c =? 32) || (9 <=? c) && (c <=? 13).

(** The C string at [p]. *)
Fixpoint cstr_from (fuel : nat) (m : mem) (p : Z) : option (list Z) :=
  match fuel with
  | O => None
  | S fuel => c ← rd m p; if c =? 0 then Some [] else s ← cstr_from fuel m (p + 1); Some (c :: s)
  end.

Definition cstr_at (m : mem) (p : Z) : option (list Z) := cstr_from (S (length m)) m p.

Fixpoint skip_space (fuel : nat) (m : mem) (p : Z) : option Z :=
  match fuel with
  | O => None
  | S fuel => c ← rd m p; if isspace c then skip_space fuel m (p + 1) else Some p
  end.

(** [while (isspace(str[len - 1])) len--;] *)
Fixpoint cut_space (fuel : nat) (m : mem) (p len : Z) : option Z :=
  match fuel with
  | O => None
  | S fuel => c ← rd m (p + len - 1); if isspace c then cut_space fuel m p (len - 1) else Some len
  end.

Definition trim (m : mem) (p : Z) : option (mem * Z) :=
  p ← skip_space (S (length m)) m p;
  s ← cstr_at m p;
  len ← cut_space (S (length m)) m p (length s);
  m ← wr m (p + len) 0;
  Some (m, p).

(** [strchr]: the address of the first [c] before the NUL. *)
Fixpoint strchr (fuel : nat) (m : mem) (p c : Z) : option (option Z) :=
  match fuel with
  | O => None
  | S fuel => b ← rd m p; if b =? c then Some (Some p) else if b =? 0 then Some None else strchr fuel m (p + 1) c
  end.

Definition GT : Z := 62.

(** The redirection and the format error. *)
Definition parse_redirect_dest (m : mem) (cmd_line : Z) : option (mem * (option Z * bool)) :=
  r ← trim m cmd_line;
  let '(m, cmd_line) := r in
  c ← rd m cmd_line;
  if c =? GT then Some (m, (None, true))
  else
    divider ← strchr (S (length m)) m cmd_line GT;
    match divider with
    | None => Some (m, (None, false))
    | Some divider =>
        m ← wr m divider 0;
        again ← strchr (S (length m)) m (divider + 1) GT;
        match again with
        | Some _ => Some (m, (None, true))
        | None =>
            r ← trim m (divider + 1);
            let '(m, dest) := r in
            s ← cstr_at m dest;
            if bool_decide (s = []) || existsb isspace s then Some (m, (None, true))
            else Some (m, (Some dest, false))
        end
    end.

(** [strsep] on the block: the end of the token and the rest. *)
Fixpoint strsep_at (fuel : nat) (delims : list Z) (m : mem) (p : Z) : option (mem * option Z) :=
  match fuel with
  | O => None
  | S fuel =>
      c ← rd m p;
      if c =? 0 then Some (m, None)
      else if bool_decide (c ∈ delims) then m ← wr m p 0; Some (m, Some (p + 1))
      else strsep_at fuel delims m (p + 1)
  end.

Definition blanks : list Z := [32; 9; 10; 13].

Section Shell.
Context (junk : nat → option nat).

(** The loop of [parse_cmd] that collects the tokens. *)
Fixpoint collect (fuel : nat) (m : mem) (cmd_line : option Z) (h : list (link_node Z)) (l : link_t) :
    option (mem * (list (link_node Z) * link_t)) :=
  match fuel, cmd_line with
  | _, None => Some (m, (h, l))
  | O, _ => None
  | S fuel, Some token =>
      r ← strsep_at (S (length m)) blanks m token;
      let '(m, cmd_line) := r in
      c ← rd m token;
      if c =? 0 then collect fuel m cmd_line h l
      else a ← link_add junk h l token; collect fuel m cmd_line a.1 a.2
  end.

(** The array [argv], without its last element NULL; the loop that fills it
    must not run past the [length + 1] elements allocated. *)
Definition parse_cmd (m : mem) (cmd_line : Z) : option (mem * list Z) :=
  r ← collect (S (length m)) m (Some cmd_line) [] link_init;
  let '(m, (h, l)) := r in
  argv ← (if 0 <? length_ l then walk (Z.to_nat (length_ l + 1)) h (head l) else Some []);
  link_clear h l;;
  Some (m, take (Z.to_nat (length_ l)) argv).

(** [path_add]: the block that holds the new directory name. *)
Definition path_block (str : list Z) : option (list Z) :=
  c ← rd (str ++ [0]) (length str - 1);
  let str_len := if c =? 47 then length str - 1 else length str in
  Some (take (Z.to_nat (str_len + 1)) (str ++ [0])).

(** ** Commands *)

Context {OS : Type} (access : OS → list Z → bool) (chdir : OS → option (list Z) → option OS).
(** Does the [fork] after so many events succeed, the [freopen] of a file for
    writing, the [execv] of a program with its arguments? *)
Context (forks : nat → bool) (reopens : OS → list Z → bool) (execs : OS → list Z → list (list Z) → bool).

(** Where the standard output and error of a child go; a stream whose
    [freopen] fails is closed. *)
Inductive stream := Inherited | ToFile (name : list Z) | Closed.

(** [Forked io run]: a child that runs a program with its arguments, or prints
    the error message. *)
Inductive event :=
| Prompt
| ErrorMsg
| Forked (io : stream) (run : option (list Z * list (list Z)))
| NotForked
| Waited.

Record shell := Sh {
  os : OS;
  path_heap : list (link_node (list Z));
  path_link : link_t;
  events : list event
}.

Inductive shres (A : Type) :=
| SRet (a : A) (s : shell)
| SExit (code : Z) (s : shell)
| SUndef.
#[global] Arguments SRet {_} _ _.
#[global] Arguments SExit {_} _ _.
#[global] Arguments SUndef {_}.

Definition SH (A : Type) := shell → shres A.
#[global] Instance SH_ret : MRet SH := λ A a s, SRet a s.
#[global] Instance SH_bind : MBind SH := λ A B f m s,
  match m s with SRet a s => f a s | SExit c s => SExit c s | SUndef => SUndef end.

Definition lift {A} (o : option A) : SH A := λ s, match o with Some a => SRet a s | None => SUndef end.
Definition emit (e : event) : SH unit := λ s, SRet tt (Sh (os s) (path_heap s) (path_link s) (events s ++ [e])).
Definition sh_exit {A} (code : Z) : SH A := λ s, SExit code s.
Definition print_error : SH unit := emit ErrorMsg.
Definition get_sh : SH shell := λ s, SRet s s.
Definition set_os (o : OS) : SH unit := λ s, SRet tt (Sh o (path_heap s) (path_link s) (events s)).
Definition set_path (h : list (link_node (list Z))) (l : link_t) : SH unit := λ s, SRet tt (Sh (os s) h l (events s)).

Definition path_add (str : list Z) : SH unit :=
  b ← lift (path_block str);
  s ← get_sh;
  a ← lift (link_add junk (path_heap s) (path_link s) b);
  set_path a.1 a.2.

(** [path_clear] frees the strings and the nodes. *)
Definition path_clear : SH unit :=
  s ← get_sh;
  l ← lift (link_clear (path_heap s) (path_link s));
  set_path (path_heap s) l.

Fixpoint path_adds (strs : list (list Z)) : SH unit :=
  match strs with
  | [] => mret tt
  | str :: strs => path_add str;; path_adds strs
  end.

Inductive exec_result := SUCCESS | ERROR | NOT_EXEC.

(** [argv] are the strings of the command, the name first. *)
Definition exec_built_in_cmd (name : list Z) (argv : list (list Z)) : SH exec_result :=
  if bool_decide (name = str "exit") then
    if bool_decide (1 < length argv)%nat then mret ERROR else sh_exit 0
  else if bool_decide (name = str "cd") then
    s ← get_sh;
    match chdir (os s) (argv !! 1%nat) with
    | None => mret ERROR
    | Some o => set_os o;; mret SUCCESS
    end
  else if bool_decide (name = str "path") then
    path_clear;; path_adds (drop 1 argv);; mret SUCCESS
  else mret NOT_EXEC.

(** The child's search for the program: the name itself, then the directories.
    [line] is what is left of the command line as a string: the buffer for a
    path has room for it, not for the name.  The fuel is used up only if the
    list of directories runs in a circle. *)
Fixpoint search (fuel : nat) (o : OS) (h : list (link_node (list Z))) (name line cmd_path : list Z) (current_node : option nat) :
    option (option (list Z)) :=
  if access o cmd_path then Some (Some cmd_path)
  else match fuel, current_node with
       | _, None => Some None
       | O, _ => None
       | S fuel, Some i =>
           d ← h !! i;
           dir ← cstr_at (nvalue d) 0;
           let real_path := dir ++ [47] ++ name in
           if bool_decide (length real_path + 1 ≤ length dir + 1 + length line + 1)%nat
           then search fuel o h name line real_path (next d) else None
       end.

(** The child. *)
Definition run_child (m : mem) (cmd_line : Z) (argv : list (list Z)) (name : list Z) (redirect_dest : option Z) : SH unit :=
  s ← get_sh;
  line ← lift (cstr_at m cmd_line);
  found ← lift (search (length (path_heap s)) (os s) (path_heap s) name line name (head (path_link s)));
  dest ← lift (match redirect_dest with None => Some None | Some d => Some <$> cstr_at m d end);
  let io := match dest with None => Inherited | Some d => if reopens (os s) d then ToFile d else Closed end in
  emit (Forked io (match found with Some p => if execs (os s) p argv then Some (p, argv) else None | None => None end)).

Definition exec_single_cmd (m : mem) (cmd_line : Z) : SH (mem * Z) :=
  r ← lift (parse_redirect_dest m cmd_line);
  let '(m, (dest, format_error)) := r in
  if format_error : bool then print_error;; mret (m, 0)
  else
    r ← lift (parse_cmd m cmd_line);
    let '(m, argv) := r in
    argv ← lift (mapM (cstr_at m) argv);
    match argv with
    | [] => mret (m, 0)
    | name :: _ =>
        b ← exec_built_in_cmd name argv;
        match b with
        | ERROR => print_error;; mret (m, 0)
        | SUCCESS => mret (m, 0)
        | NOT_EXEC =>
            s ← get_sh;
            (if forks (length (events s)) then run_child m cmd_line argv name dest else emit NotForked);;
            mret (m, 1)
        end
    end.

Fixpoint parallel (fuel : nat) (m : mem) (cmd_line : option Z) (count : Z) : SH Z :=
  match fuel, cmd_line with
  | _, None => mret count
  | O, _ => lift None
  | S fuel, Some token =>
      r ← lift (strsep_at (S (length m)) [38] m token);
      let '(m, cmd_line) := r in
      c ← lift (rd m token);
      if c =? 0 then parallel fuel m cmd_line count
      else r ← exec_single_cmd m token; parallel fuel r.1 cmd_line (u32 (count + r.2))
  end.

Fixpoint waits (n : nat) : SH unit := match n with O => mret tt | S n => emit Waited;; waits n end.

Definition exec_parallel_cmd (m : mem) (cmd_line : Z) : SH unit :=
  count ← parallel (S (length m)) m (Some cmd_line) 0;
  waits (Z.to_nat count).

(** The block of a line read by [getline], without the last white space. *)
Definition line_block (line : list Z) : option mem :=
  let m := line ++ [0] in
  s ← cstr_at m 0;
  c ← rd m (length s - 1);
  if isspace c then wr m (length s - 1) 0 else Some m.

Fixpoint main_loop (interactive : bool) (input : list (list Z)) : SH Z :=
  (if interactive then emit Prompt else mret tt);;
  match input with
  | [] => sh_exit 0
  | line :: input =>
      m ← lift (line_block line);
      exec_parallel_cmd m 0;;
      main_loop interactive input
  end.

(** [argc > 2] or a batch file that cannot be opened is an error; [input] are
    the lines of the standard input or of the batch file. *)
Definition main (argc : Z) (batch : option (list (list Z))) (input : list (list Z)) : SH Z :=
  if 2 <? argc then print_error;; sh_exit 1
  else
    input ← (if argc =? 2 then match batch with None => print_error;; sh_exit 1 | Some ls => mret ls end
             else mret input);
    path_add (str "/bin");;
    main_loop (argc =? 1) input.
End Shell.
