(* ===== verification/SeushText.v ===== *)
(** * The command line of the shell as text

    What [trim], [parse_redirect_dest] and [parse_cmd] of seush.c compute on a
    block of memory, stated on the text of the command. *)

From S2P Require Import Prelude CInt CString Stdio Seush.

(** ** Reading and writing a block *)

Lemma rd_app pre x r (p : Z) : p = length pre → rd (pre ++ x :: r) p = Some x.
Proof.
  intros ->. rewrite /rd (proj2 (Z.leb_le _ _)); [lia|]. rewrite Nat2Z.id. by apply list_lookup_middle.
Qed.

Lemma wr_app pre x r (p : Z) : p = length pre → wr (pre ++ x :: r) p 0 = Some (pre ++ 0 :: r).
Proof.
  intros ->. rewrite /wr (proj2 (Z.leb_le _ _)); [lia|]. rewrite Nat2Z.id /store decide_True.
  - rewrite length_app /=. lia.
  - by rewrite insert_app_r_alt // Nat.sub_diag.
Qed.

Lemma cstr_from_text fuel pre t post (p : Z) : p = length pre → 0 ∉ t → (length t < fuel)%nat →
  cstr_from fuel (pre ++ t ++ 0 :: post) p = Some t.
Proof.
  revert pre p fuel. induction t as [|a t IH]; intros pre p fuel -> H0 Hf; (destruct fuel as [|fuel]; [simpl in Hf; lia|]);
    cbn [cstr_from app]; rewrite rd_app //; cbn [mbind option_bind].
  apply not_elem_of_cons in H0 as [Ha H0]. destruct (a =? 0) eqn:E; breflect; [congruence|].
  specialize (IH (pre ++ [a]) (length pre + 1) fuel). rewrite -app_assoc /= in IH.
  rewrite IH //; [rewrite length_app /=; lia|simpl in Hf; lia].
Qed.

Lemma cstr_at_text pre t post (p : Z) : p = length pre → 0 ∉ t → cstr_at (pre ++ t ++ 0 :: post) p = Some t.
Proof. intros Hp H0. apply cstr_from_text; [done|done|]. rewrite !length_app /=. lia. Qed.

Lemma strchr_none fuel pre t post (p : Z) c : p = length pre → 0 ∉ t → c ≠ 0 → c ∉ t → (length t < fuel)%nat →
  strchr fuel (pre ++ t ++ 0 :: post) p c = Some None.
Proof.
  revert pre p fuel. induction t as [|a t IH]; intros pre p fuel -> H0 Hc Ht Hf; (destruct fuel as [|fuel]; [simpl in Hf; lia|]);
    cbn [strchr app]; rewrite rd_app //; cbn [mbind option_bind].
  - destruct (0 =? c) eqn:E; breflect; [congruence|done].
  - apply not_elem_of_cons in H0 as [Ha H0]. apply not_elem_of_cons in Ht as [Hac Ht].
    destruct (a =? c) eqn:E1, (a =? 0) eqn:E2; breflect; try congruence.
    specialize (IH (pre ++ [a]) (length pre + 1) fuel). rewrite -app_assoc /= in IH.
    rewrite IH //; [rewrite length_app /=; lia|simpl in Hf; lia].
Qed.

Lemma strchr_some fuel pre t r (p : Z) c : p = length pre → 0 ∉ t → c ∉ t → (length t < fuel)%nat →
  strchr fuel (pre ++ t ++ c :: r) p c = Some (Some (p + length t)).
Proof.
  revert pre p fuel. induction t as [|a t IH]; intros pre p fuel -> H0 Ht Hf; (destruct fuel as [|fuel]; [simpl in Hf; lia|]);
    cbn [strchr app]; rewrite rd_app //; cbn [mbind option_bind].
  - rewrite Z.eqb_refl. do 2 f_equal. simpl. lia.
  - apply not_elem_of_cons in H0 as [Ha H0]. apply not_elem_of_cons in Ht as [Hac Ht].
    destruct (a =? c) eqn:E1, (a =? 0) eqn:E2; breflect; try congruence.
    specialize (IH (pre ++ [a]) (length pre + 1) fuel). rewrite -app_assoc /= in IH.
    rewrite IH //; [rewrite length_app /=; lia|simpl in Hf; lia|]. do 2 f_equal. simpl. lia.
Qed.

(** ** [trim] *)

Definition spaces (l : list Z) : Prop := Forall (λ c, isspace c = true) l.

Fixpoint lstrip (t : list Z) : list Z :=
  match t with [] => [] | c :: r => if isspace c then lstrip r else t end.

Fixpoint rstrip (t : list Z) : list Z :=
  match t with
  | [] => []
  | c :: r => match rstrip r with [] => if isspace c then [] else [c] | s => c :: s end
  end.

Lemma lstrip_split t : ∃ sp, t = sp ++ lstrip t ∧ spaces sp.
Proof.
  induction t as [|c t (sp&E&Hs)]; [exists []; split; [done|constructor]|]. simpl. destruct (isspace c) eqn:Ec; [|exists []; split; [done|constructor]].
  exists (c :: sp). split; [by rewrite /= -E|by constructor].
Qed.

Lemma lstrip_head t c r : lstrip t = c :: r → isspace c = false.
Proof. induction t as [|a t IH]; [done|]. simpl. destruct (isspace a) eqn:E; [done|]. by intros [= -> ->]. Qed.

Lemma rstrip_split t : ∃ sp, t = rstrip t ++ sp ∧ spaces sp.
Proof.
  induction t as [|c t (sp&E&Hs)]; [exists []; split; [done|constructor]|]. simpl. destruct (rstrip t) as [|d s] eqn:Er.
  - simpl in E. subst t. destruct (isspace c) eqn:Ec; [|by exists sp]. exists (c :: sp). split; [done|by constructor].
  - exists sp. split; [by rewrite E|done].
Qed.

Lemma rstrip_last t c : last (rstrip t) = Some c → isspace c = false.
Proof.
  induction t as [|a t IH]; [done|]. simpl. destruct (rstrip t) as [|d s] eqn:Er.
  - destruct (isspace a) eqn:E; [done|]. by intros [= ->].
  - intros H. apply IH. exact H.
Qed.

Lemma rstrip_head c t : isspace c = false → ∃ r, rstrip (c :: t) = c :: r.
Proof. intros Hc. simpl. destruct (rstrip t); [rewrite Hc; by eexists|by eexists]. Qed.

Lemma skip_space_text fuel pre sp a r (p : Z) : p = length pre → spaces sp → isspace a = false → (length sp < fuel)%nat →
  skip_space fuel (pre ++ sp ++ a :: r) p = Some (p + length sp).
Proof.
  revert pre p fuel. induction sp as [|c sp IH]; intros pre p fuel -> Hs Ha Hf; (destruct fuel as [|fuel]; [simpl in Hf; lia|]);
    cbn [skip_space app]; rewrite rd_app //; cbn [mbind option_bind].
  - rewrite Ha. f_equal. simpl. lia.
  - apply Forall_cons in Hs as [Hc Hs]. rewrite Hc. specialize (IH (pre ++ [c]) (length pre + 1) fuel).
    rewrite -app_assoc /= in IH. rewrite IH //; [rewrite length_app /=; lia|simpl in Hf; lia|]. f_equal. simpl. lia.
Qed.

(** Cutting stops at the character before the spaces, wherever the string starts. *)
Lemma cut_space_text fuel pre x sp r (p len : Z) : spaces sp → isspace x = false → (length sp < fuel)%nat →
  p + len = length (pre ++ [x] ++ sp) →
  cut_space fuel (pre ++ [x] ++ sp ++ r) p len = Some (len - length sp).
Proof.
  revert len fuel r. induction sp as [|c sp IH] using rev_ind; intros len fuel r Hs Hx Hf Hp;
    (destruct fuel as [|fuel]; [rewrite ?length_app in Hf; simpl in Hf; lia|]); cbn [cut_space].
  - cbn [app]. rewrite rd_app; [rewrite length_app /= in Hp; lia|]. cbn [mbind option_bind]. rewrite Hx. f_equal. simpl. lia.
  - apply Forall_app in Hs as [Hs [Hc _]%Forall_cons]. rewrite !length_app /= in Hp, Hf.
    assert (pre ++ [x] ++ (sp ++ [c]) ++ r = (pre ++ [x] ++ sp) ++ c :: r) as E by by rewrite -!app_assoc.
    rewrite E (rd_app (pre ++ [x] ++ sp) c r); [rewrite !length_app /=; lia|]. cbn [mbind option_bind]. rewrite Hc.
    specialize (IH (len - 1) fuel (c :: r) Hs Hx). rewrite -!app_assoc. rewrite IH; [lia|rewrite !length_app /=; lia|].
    f_equal. rewrite length_app /=. lia.
Qed.

(** [x] is what the cut text [y] becomes when a NUL is put behind it. *)
Lemma cut_block (u sp post : list Z) : ∃ post', u ++ sp ++ 0 :: post = u ++ post' ∧ ∃ c r, post' = c :: r ∧
  ∃ x, length x = length (u ++ sp) ∧ u ++ 0 :: r = x ++ 0 :: post ∧ take (length u) x = u.
Proof.
  destruct sp as [|c sp].
  - exists (0 :: post). split; [done|]. exists 0, post. split; [done|]. exists u. by rewrite app_nil_r firstn_all.
  - exists (c :: sp ++ 0 :: post). split; [done|]. exists c, (sp ++ 0 :: post). split; [done|].
    exists (u ++ 0 :: sp). split_and!; [rewrite !length_app /=; lia|by rewrite -app_assoc|by rewrite take_app_length].
Qed.

(** A text with a visible character: the pointer moves to it and the spaces at
    the end are cut off; nothing changes from the NUL on. *)
Lemma trim_text pre sp a t post (p : Z) : p = length pre → spaces sp → isspace a = false → 0 ∉ a :: t →
  ∃ r, trim (pre ++ sp ++ (a :: t) ++ 0 :: post) p =
      Some (pre ++ sp ++ rstrip (a :: t) ++ 0 :: r, p + length sp) ∧
    ∃ x, rstrip (a :: t) ++ 0 :: r = x ++ 0 :: post ∧ length x = length (a :: t).
Proof.
  intros -> Hsp Ha H0. destruct (rstrip_split (a :: t)) as (sp'&E&Hsp'). destruct (rstrip_head a t Ha) as [u Eu].
  assert (∃ v x, rstrip (a :: t) = v ++ [x] ∧ isspace x = false) as (v&x&Ev&Hx).
  { destruct (exists_last (l := rstrip (a :: t))) as (v&x&Ev); [by rewrite Eu|]. exists v, x. split; [done|].
    apply (rstrip_last (a :: t)). by rewrite Ev last_snoc. }
  destruct (cut_block (rstrip (a :: t)) sp' post) as (post'&Ep&c&r&->&y&Hy1&Hy2&_).
  exists r. split; [|exists y; split; [done|by rewrite Hy1 -E]].
  set (m := pre ++ sp ++ (a :: t) ++ 0 :: post). rewrite /trim.
  assert (m = (pre ++ sp) ++ a :: t ++ 0 :: post) as Em1 by by rewrite /m -app_assoc.
  rewrite (skip_space_text _ pre sp a (t ++ 0 :: post)) //; [rewrite /m !length_app /=; lia|]. cbn [mbind option_bind].
  assert (cstr_at m (length pre + length sp) = Some (a :: t)) as ->.
  { rewrite Em1. apply (cstr_at_text (pre ++ sp) (a :: t)); [rewrite length_app; lia|done]. }
  cbn [mbind option_bind].
  assert (m = (pre ++ sp ++ v) ++ [x] ++ sp' ++ 0 :: post) as Em2.
  { rewrite /m E Ev. by rewrite -!app_assoc. }
  assert (length (a :: t) = length v + 1 + length sp')%nat as Hlen.
  { rewrite {1}E Ev !length_app /=. lia. }
  pose proof (cut_space_text (S (length m)) (pre ++ sp ++ v) x sp' (0 :: post) (length pre + length sp) (length (a :: t))
    Hsp' Hx) as Hcut. rewrite -Em2 in Hcut.
  rewrite Hcut; [rewrite Em2 !length_app /=; lia|rewrite Hlen !length_app /=; lia|].
  cbn [mbind option_bind].
  assert (m = (pre ++ sp ++ rstrip (a :: t)) ++ c :: r) as Em3.
  { rewrite /m {1}E -!app_assoc. do 2 f_equal. exact Ep. }
  rewrite Em3 wr_app; [rewrite !length_app Ev length_app Hlen; simpl; lia|]. cbn [mbind option_bind].
  by rewrite -!app_assoc.
Qed.

(** A blank string behind a NUL: the result is the empty string. *)
Lemma trim_blank pre sp post (p : Z) : p = length pre + 1 → spaces sp →
  ∃ x, trim (pre ++ 0 :: sp ++ 0 :: post) p = Some (pre ++ 0 :: x ++ 0 :: post, p + length sp) ∧ length x = length sp.
Proof.
  intros -> Hsp. set (m := pre ++ 0 :: sp ++ 0 :: post).
  assert (m = (pre ++ [0]) ++ sp ++ 0 :: post) as Em1 by by rewrite /m -app_assoc.
  assert (m = pre ++ [0] ++ sp ++ 0 :: post) as Em2 by done.
  assert (length m = length pre + 1 + length sp + 1 + length post)%nat as Hlm by (rewrite Em2 !length_app /=; lia).
  rewrite /trim. pose proof (skip_space_text (S (length m)) (pre ++ [0]) sp 0 post (length pre + 1)) as Hskip.
  rewrite -Em1 in Hskip. rewrite Hskip //; [rewrite length_app /=; lia|lia|]. cbn [mbind option_bind].
  assert (cstr_at m (length pre + 1 + length sp) = Some []) as ->.
  { rewrite Em1 app_assoc. apply (cstr_at_text ((pre ++ [0]) ++ sp) []); [rewrite !length_app /=; lia|set_solver]. }
  cbn [mbind option_bind]. pose proof (cut_space_text (S (length m)) pre 0 sp (0 :: post) (length pre + 1 + length sp) 0) as Hcut.
  rewrite -Em2 in Hcut. cbn [length]. rewrite Hcut //; [lia|rewrite !length_app /=; lia|]. cbn [mbind option_bind].
  destruct sp as [|c sp].
  - exists []. split; [|done]. rewrite Em1. cbn [app]. rewrite (wr_app (pre ++ [0])); [rewrite length_app /=; lia|].
    cbn [mbind option_bind]. by rewrite -app_assoc.
  - exists (0 :: sp). split; [|done]. rewrite Em1. cbn [app]. rewrite (wr_app (pre ++ [0])); [rewrite length_app /=; lia|].
    cbn [mbind option_bind]. by rewrite -app_assoc.
Qed.

(** ** [parse_redirect_dest] *)

(** The command in front of the redirection and its destination; [None] is a
    format error. *)
Definition redirect_of (t : list Z) : option (list Z * option (list Z)) :=
  let t := rstrip t in
  if bool_decide (t !! 0%nat = Some GT) then None
  else match strsep [GT] t with
       | (c, None) => Some (c, None)
       | (c, Some d) =>
           if bool_decide (GT ∈ d) then None
           else let d := lstrip d in
                if bool_decide (d = []) || existsb isspace d then None else Some (c, Some d)
       end.

Lemma strsep_None delims s t : strsep delims s = (t, None) → s = t ∧ Forall (.∉ delims) t.
Proof.
  revert t. induction s as [|c s IH]; intros t; simpl; [by intros [= <-]|].
  case_bool_decide; [done|]. destruct (strsep delims s) as [t' [r|]]; [done|]. intros [= <-].
  destruct (IH t' eq_refl) as [-> Hf]. split; [done|by constructor].
Qed.

Lemma strsep_Some delims s t r : strsep delims s = (t, Some r) →
  ∃ c, c ∈ delims ∧ s = t ++ c :: r ∧ Forall (.∉ delims) t.
Proof.
  revert t. induction s as [|c s IH]; intros t; simpl; [done|].
  case_bool_decide; [intros [= <- <-]; by exists c|]. destruct (strsep delims s) as [t' [r'|]]; [|done].
  intros [= <- ->]. destruct (IH t' eq_refl) as (d&Hd&->&Hf). exists d. split_and!; [done|done|by constructor].
Qed.

Lemma not_in_singleton (c : Z) l : Forall (.∉ [c]) l → c ∉ l.
Proof. intros H Hin. eapply Forall_forall in Hin; [|exact H]. set_solver. Qed.

(** Where the pieces of the command line are afterwards: the command [c] at its
    place, the destination at [dest] behind the command's NUL. *)
Definition redirected (pre c r : list Z) (d : option (list Z)) (dest : option Z) : Prop :=
  match d with
  | None => dest = None
  | Some s => ∃ pre2 post2, r = pre2 ++ s ++ 0 :: post2 ∧ 0 ∉ s ∧ dest = Some (length (pre ++ c ++ 0 :: pre2) : Z)
  end.

Lemma rstrip_id t c : last t = Some c → isspace c = false → rstrip t = t.
Proof.
  intros Hl Hc. induction t as [|a t IH]; [done|]. simpl. destruct t as [|b t].
  - simpl in *. simplify_eq. by rewrite Hc.
  - rewrite IH //.
Qed.

(** Replacing the front of a block keeps what comes from the NUL on. *)
Lemma refront (y y' r x post : list Z) : y ++ 0 :: r = x ++ 0 :: post → (length y ≤ length x)%nat → length y' = length y →
  ∃ x', y' ++ 0 :: r = x' ++ 0 :: post ∧ length x' = length x.
Proof.
  intros E Hle Hl. exists (y' ++ drop (length y) x).
  assert (0 :: r = drop (length y) x ++ 0 :: post) as Hr.
  { rewrite -drop_app_le // -E drop_app_length. done. }
  rewrite Hr -app_assoc. split; [done|]. rewrite length_app length_drop. lia.
Qed.

Lemma strchr_found fuel pre d post (p : Z) c : p = length pre → 0 ∉ d → c ∈ d → (length d < fuel)%nat →
  ∃ q, strchr fuel (pre ++ d ++ 0 :: post) p c = Some (Some q).
Proof.
  intros Hp H0 Hc Hf. apply list_elem_of_split_l in Hc as (d1&d2&->&Hd1). rewrite -app_assoc. cbn [app].
  eexists. apply strchr_some; [done|set_solver|done|]. rewrite length_app in Hf. lia.
Qed.

(** The destination: what [trim] makes of the text behind the divider. *)
Lemma trim_dest pre d r (p : Z) : p = length pre + 1 → 0 ∉ d → (∀ c, last d = Some c → isspace c = false) →
  ∃ x sp, trim (pre ++ 0 :: d ++ 0 :: r) p = Some (pre ++ 0 :: x ++ 0 :: r, p + length sp) ∧ length x = length d ∧
    (lstrip d ≠ [] → x = sp ++ lstrip d) ∧ cstr_at (pre ++ 0 :: x ++ 0 :: r) (p + length sp) = Some (lstrip d).
Proof.
  intros -> H0 Hd. destruct (lstrip_split d) as (sp&E&Hsp). destruct (lstrip d) as [|b d'] eqn:El.
  - rewrite app_nil_r in E. subst sp. destruct (trim_blank pre d r (length pre + 1) eq_refl Hsp) as (x&Ex&Hx).
    exists x, d. rewrite Ex. split_and!; [done|done|done|].
    assert (pre ++ 0 :: x ++ 0 :: r = (pre ++ 0 :: x) ++ [] ++ 0 :: r) as -> by by rewrite -app_assoc.
    apply cstr_at_text; [rewrite length_app /=; lia|set_solver].
  - assert (last d = last (b :: d')) as Hl by by rewrite E last_app_cons.
    destruct (last_is_Some (b :: d')) as [_ [c Hc]]; [done|].
    pose proof (rstrip_id (b :: d') c Hc (Hd c ltac:(by rewrite Hl))) as Hr.
    destruct (trim_text (pre ++ [0]) sp b d' r (length pre + 1)) as (r2&Et&x2&Ex2&Hx2).
    + rewrite length_app /=. lia.
    + done.
    + by apply (lstrip_head d b d').
    + intros Hin. apply H0. rewrite E. set_solver.
    + rewrite Hr in Et, Ex2. apply app_inj_1 in Ex2 as [_ [= ->]]; [|done].
      rewrite -!app_assoc in Et. exists d, sp. rewrite {1 2 4}E -!app_assoc. cbn [app] in *. rewrite Et.
      split_and!; [done|by rewrite E|done|]. rewrite E -app_assoc. cbn [app].
      assert (pre ++ 0 :: sp ++ b :: d' ++ 0 :: r = (pre ++ 0 :: sp) ++ (b :: d') ++ 0 :: r) as -> by by rewrite -app_assoc.
      apply cstr_at_text; [rewrite length_app /=; lia|]. intros Hin. apply H0. rewrite E. set_solver.
Qed.

Lemma parse_redirect_text pre a t post : isspace a = false → 0 ∉ a :: t →
  ∃ m' dest err, parse_redirect_dest (pre ++ (a :: t) ++ 0 :: post) (length pre) = Some (m', (dest, err)) ∧
    (∃ x, m' = pre ++ x ++ 0 :: post ∧ length x = length (a :: t)) ∧
    match redirect_of (a :: t) with
    | None => err = true
    | Some (c, d) => err = false ∧ ∃ r, m' = pre ++ c ++ 0 :: r ∧ redirected pre c r d dest
    end.
Proof.
  intros Ha H0. destruct (trim_text pre [] a t post (length pre) eq_refl ltac:(constructor) Ha H0) as (r&Et&x&Ex&Hx).
  destruct (rstrip_head a t Ha) as [u Eu]. destruct (rstrip_split (a :: t)) as (spx&Espx&_).
  assert (0 ∉ rstrip (a :: t)) as H1 by (intros Hin; apply H0; rewrite Espx; set_solver).
  rewrite /parse_redirect_dest. cbn [app] in Et. rewrite Et. cbn [mbind option_bind]. rewrite Z.add_0_r.
  rewrite /redirect_of. set (t1 := rstrip (a :: t)) in *. rewrite Eu. cbn [app]. rewrite rd_app //. cbn [mbind option_bind].
  change ((a :: u) !! 0%nat) with (Some a). assert (pre ++ a :: u ++ 0 :: r = pre ++ x ++ 0 :: post) as Efr.
  { rewrite -Ex Eu. done. }
  destruct (a =? GT) eqn:Egt; breflect.
  { rewrite bool_decide_true; [by rewrite Egt|]. do 3 eexists. split; [done|]. split; [|done]. by exists x. }
  rewrite bool_decide_false; [congruence|]. rewrite Eu in H1, Ex.
  change (pre ++ a :: u ++ 0 :: r) with (pre ++ (a :: u) ++ 0 :: r) in *. clear Et.
  destruct (strsep [GT] (a :: u)) as [c [d|]] eqn:Es.
  - apply strsep_Some in Es as (g&->%list_elem_of_singleton&Es&Hc%not_in_singleton). rewrite Es in H1, Ex |- *.
    apply not_elem_of_app in H1 as [H0c [_ H0d]%not_elem_of_cons].
    assert (∀ e, last d = Some e → isspace e = false) as Hd.
    { intros e He. apply (rstrip_last (a :: t)). fold t1. rewrite Eu Es last_app_cons. destruct d; [done|exact He]. }
    rewrite -app_assoc. cbn [app]. rewrite (strchr_some _ pre c) //; [rewrite !length_app /=; lia|]. cbn [mbind option_bind].
    rewrite app_assoc wr_app; [rewrite length_app; lia|]. cbn [mbind option_bind].
    assert (∀ x2, length x2 = length d → ∃ x', (pre ++ c) ++ 0 :: x2 ++ 0 :: r = pre ++ x' ++ 0 :: post ∧ length x' = length (a :: t))
      as Hframe.
    { intros x2 Hx2. destruct (refront (c ++ GT :: d) (c ++ 0 :: x2) r x post) as (x'&Ex'&Hx').
      - by rewrite Ex.
      - rewrite Hx. rewrite Espx Eu Es !length_app. lia.
      - rewrite !length_app /=. lia.
      - exists x'. rewrite -Hx -Hx' -app_assoc. split; [|done]. rewrite -Ex' -app_assoc. done. }
    assert ((pre ++ c) ++ 0 :: d ++ 0 :: r = ((pre ++ c) ++ [0]) ++ d ++ 0 :: r) as Em by by rewrite -!app_assoc.
    case_bool_decide as Hin.
    + destruct (strchr_found (S (length ((pre ++ c) ++ 0 :: d ++ 0 :: r))) ((pre ++ c) ++ [0]) d r (length pre + length c + 1) GT)
        as [q Eq]; [rewrite !length_app /=; lia|done|done|rewrite !length_app /= length_app; lia|].
      rewrite -Em in Eq. rewrite Eq. cbn [mbind option_bind]. do 3 eexists. split; [done|]. split; [by apply Hframe|done].
    + pose proof (strchr_none (S (length ((pre ++ c) ++ 0 :: d ++ 0 :: r))) ((pre ++ c) ++ [0]) d r (length pre + length c + 1) GT)
        as Eq. rewrite -Em in Eq. rewrite Eq //; [rewrite !length_app /=; lia|rewrite !length_app /= length_app; lia|].
      cbn [mbind option_bind]. destruct (trim_dest (pre ++ c) d r (length pre + length c + 1)) as (x2&sp&Et&Hx2&Hsp&Hcs);
        [rewrite length_app; lia|done|done|].
      rewrite Et. cbn [mbind option_bind]. rewrite Hcs. cbn [mbind option_bind].
      destruct (bool_decide (lstrip d = []) || existsb isspace (lstrip d)) eqn:Eb.
      * do 3 eexists. split; [done|]. split; [by apply Hframe|done].
      * apply orb_false_iff in Eb as [Eb _]. apply bool_decide_eq_false in Eb.
        do 3 eexists. split; [done|]. split; [by apply Hframe|]. split; [done|]. eexists. split; [by rewrite -app_assoc|].
        exists sp, r. rewrite (Hsp Eb) -app_assoc. split_and!; [done| |f_equal; rewrite !length_app /=; lia].
        destruct (lstrip_split d) as (sp0&E0&_). intros Hin0. apply H0d. rewrite E0. set_solver.
  - apply strsep_None in Es as [<- Hc%not_in_singleton]. rewrite (strchr_none _ pre (a :: u)) //; [rewrite !length_app /=; lia|].
    cbn [mbind option_bind]. do 3 eexists. split; [done|]. split; [exists x; split; [|done]; by rewrite Ex|].
    split; [done|]. by exists r.
Qed.

(** ** The linked list, when [malloc] returns zeroed nodes *)

Section Lists.
Context {V : Type} (junk : nat → option nat) (Hjunk : ∀ n, junk n = None).

(** The list at [l] holds the values [vs], in nodes at different addresses. *)
Definition link_ok (h : list (link_node V)) (l : link_t) (vs : list V) : Prop :=
  ∃ ps : list nat, head l = ps !! 0%nat ∧ tail l = last ps ∧ length ps = length vs ∧ length_ l = length vs ∧ NoDup ps ∧
    ∀ k i, ps !! k = Some i → ∃ v, vs !! k = Some v ∧ h !! i = Some (Node v (ps !! S k)).

Lemma link_init_ok h : link_ok h link_init [].
Proof. exists []. split_and!; try done. constructor. Qed.

(** Linking a new last node. *)
Lemma link_chain (h : list (link_node V)) (ps : list nat) (i0 : nat) (vs : list V) w v :
  NoDup (ps ++ [i0]) → length (ps ++ [i0]) = length vs → vs !! length ps = Some w → (i0 < length h)%nat →
  (∀ k i, (ps ++ [i0]) !! k = Some i → ∃ v, vs !! k = Some v ∧ h !! i = Some (Node v ((ps ++ [i0]) !! S k))) →
  ∀ k i, ((ps ++ [i0]) ++ [length h]) !! k = Some i → ∃ u, (vs ++ [v]) !! k = Some u ∧
    <[i0 := Node w (Some (length h))]> (h ++ [Node v None]) !! i = Some (Node u (((ps ++ [i0]) ++ [length h]) !! S k)).
Proof.
  intros Hnd Hl Hw Hi0 Hk k i Hki. apply lookup_app_Some in Hki as [Hki|[Hge [Hki <-]%list_lookup_singleton_Some]].
  - pose proof (lookup_lt_Some _ _ _ Hki) as Hlt. destruct (Hk k i Hki) as (u&Hu&Hi). exists u.
    split; [by apply lookup_app_l_Some|]. pose proof (lookup_lt_Some _ _ _ Hi).
    destruct (decide (k = length ps)) as [->|Hne].
    + rewrite list_lookup_middle // in Hki. injection Hki as <-. rewrite list_lookup_insert_eq; [rewrite length_app /=; lia|].
      assert (S (length ps) = length (ps ++ [i0])) as -> by (rewrite length_app /=; lia).
      rewrite list_lookup_middle //. congruence.
    + rewrite list_lookup_insert_ne.
      { intros ->. apply Hne. eapply (NoDup_lookup _ _ _ _ Hnd Hki). by apply list_lookup_middle. }
      rewrite lookup_app_l // Hi. f_equal. f_equal. rewrite length_app /= in Hlt.
      rewrite (lookup_app_l (ps ++ [i0]) [length h]) //. rewrite length_app /=. lia.
  - exists v. assert (k = length (ps ++ [i0])) as -> by lia. split; [rewrite Hl; by apply list_lookup_middle|].
    rewrite list_lookup_insert_ne; [lia|]. rewrite list_lookup_middle //. f_equal. f_equal.
    symmetry. apply lookup_ge_None. rewrite !length_app /=. lia.
Qed.

Lemma link_add_ok h l vs v : link_ok h l vs → length vs + 1 < 2 ^ 32 →
  ∃ h' l', link_add junk h l v = Some (h', l') ∧ link_ok h' l' (vs ++ [v]).
Proof.
  intros (ps&Hh&Ht&Hl&Hn&Hnd&Hk) Hb. rewrite /link_add Hjunk Hn u32_small; [rewrite /is_u32; lia|].
  assert (∀ i, i ∈ ps → (i < length h)%nat) as Hlt.
  { intros i [k Hi]%list_elem_of_lookup. destruct (Hk k i Hi) as (w&_&Hw). by eapply lookup_lt_Some. }
  assert (NoDup (ps ++ [length h])) as Hnd'.
  { apply NoDup_app. split_and!; [done| |apply NoDup_singleton]. intros i Hi%Hlt ->%list_elem_of_singleton. lia. }
  destruct ps as [|i0 ps0 _] using rev_ind.
  { rewrite Hh /=. do 2 eexists. split; [done|]. exists [length h]. destruct vs; [|done]. split_and!; try done.
    intros [|k] i; [|done]. intros [= <-]. exists v. split; [done|]. by apply list_lookup_middle. }
  rewrite last_snoc in Ht. destruct (Hk (length ps0) i0) as (w&Hw&Hi0); [by apply list_lookup_middle|].
  assert (i0 < length h)%nat as Hi0h by (apply Hlt; set_solver).
  assert (is_Some (head l)) as [i1 Hi1]. { rewrite Hh. apply lookup_lt_is_Some. rewrite length_app /=. lia. }
  rewrite Hi1 Ht. cbn [mbind option_bind]. rewrite lookup_app_l // Hi0. cbn [mbind option_bind next nvalue].
  rewrite (lookup_ge_None_2 (ps0 ++ [i0])); [rewrite length_app /=; lia|].
  rewrite (list_insert_id (h ++ [Node v None])); [by apply list_lookup_middle|].
  do 2 eexists. split; [done|]. exists ((ps0 ++ [i0]) ++ [length h]). split_and!.
  - rewrite lookup_app_l; [rewrite length_app /=; lia|]. by rewrite -Hh Hi1.
  - by rewrite last_snoc.
  - rewrite length_app Hl length_app. done.
  - rewrite /= length_app /=. lia.
  - done.
  - by apply link_chain.
Qed.

Lemma walk_ok (h : list (link_node V)) (ps : list nat) (vs : list V) k fuel : (∀ k i, ps !! k = Some i → ∃ v, vs !! k = Some v ∧ h !! i = Some (Node v (ps !! S k))) →
  length ps = length vs → (k ≤ length ps)%nat → (length ps - k ≤ fuel)%nat → walk fuel h (ps !! k) = Some (drop k vs).
Proof.
  intros Hk Hl. revert k. induction fuel as [|fuel IH]; intros k Hle Hf.
  - rewrite (lookup_ge_None_2 ps); [lia|]. rewrite drop_ge //. lia.
  - destruct (ps !! k) as [i|] eqn:Ei.
    + destruct (Hk k i Ei) as (v&Hv&Hi). cbn [walk]. rewrite Hi. cbn [mbind option_bind next nvalue].
      pose proof (lookup_lt_Some _ _ _ Ei). rewrite IH; [lia|lia|]. by rewrite (drop_S _ _ _ Hv).
    + apply lookup_ge_None in Ei. rewrite drop_ge //. lia.
Qed.

Lemma link_ok_room h l vs : link_ok h l vs → (length vs ≤ length h)%nat.
Proof.
  intros (ps&_&_&<-&_&Hnd&Hk).
  transitivity (length (seq 0 (length h))); [|by rewrite length_seq]. apply submseteq_length, NoDup_submseteq; [done|].
  intros i [k Hi]%list_elem_of_lookup. destruct (Hk k i Hi) as (v&_&Hv). apply elem_of_seq.
  pose proof (lookup_lt_Some _ _ _ Hv). lia.
Qed.

Lemma values_ok h l vs : link_ok h l vs → values h l = Some vs.
Proof.
  intros Hok. pose proof (link_ok_room _ _ _ Hok). destruct Hok as (ps&Hh&_&Hl&_&Hnd&Hk).
  rewrite /values Hh (walk_ok h ps vs 0) //; lia.
Qed.
End Lists.

(** ** [parse_cmd] *)

(** The words of a command. *)
Definition cmd_words (t : list Z) : list (list Z) := filter (λ w, w ≠ []) (pieces blanks t).

(** The block after all blanks were overwritten. *)
Definition cut_blanks (t : list Z) : list Z := (λ c, if bool_decide (c ∈ blanks) then 0 else c) <$> t.

Lemma cut_blanks_none t : Forall (.∉ blanks) t → cut_blanks t = t.
Proof.
  induction 1 as [|c t Hc Ht IH]; [done|]. rewrite /cut_blanks fmap_cons bool_decide_false //. f_equal. exact IH.
Qed.

Lemma cut_blanks_token tok c t : Forall (.∉ blanks) tok → c ∈ blanks → cut_blanks (tok ++ c :: t) = tok ++ 0 :: cut_blanks t.
Proof.
  intros Htok Hc. rewrite /cut_blanks fmap_app fmap_cons (bool_decide_true _ Hc).
  change (_ <$> tok) with (cut_blanks tok). by rewrite cut_blanks_none.
Qed.

Lemma strsep_at_end fuel delims pre t r (p : Z) : p = length pre → 0 ∉ t → Forall (.∉ delims) t → (length t < fuel)%nat →
  strsep_at fuel delims (pre ++ t ++ 0 :: r) p = Some (pre ++ t ++ 0 :: r, None).
Proof.
  revert pre p fuel. induction t as [|a t IH]; intros pre p fuel -> H0 Ht Hf; (destruct fuel as [|fuel]; [simpl in Hf; lia|]);
    cbn [strsep_at app]; rewrite rd_app //; cbn [mbind option_bind].
  apply not_elem_of_cons in H0 as [Ha H0]. apply Forall_cons in Ht as [Had Ht].
  destruct (a =? 0) eqn:E; breflect; [congruence|]. rewrite bool_decide_false //.
  specialize (IH (pre ++ [a]) (length pre + 1) fuel). rewrite -!app_assoc /= in IH.
  rewrite IH //; [rewrite length_app /=; lia|simpl in Hf; lia].
Qed.

Lemma strsep_at_token fuel delims pre t c r (p : Z) :
  p = length pre → 0 ∉ t → Forall (.∉ delims) t → c ∈ delims → c ≠ 0 → (length t < fuel)%nat →
  strsep_at fuel delims (pre ++ t ++ c :: r) p = Some (pre ++ t ++ 0 :: r, Some (p + length t + 1)).
Proof.
  revert pre p fuel. induction t as [|a t IH]; intros pre p fuel -> H0 Ht Hc Hc0 Hf; (destruct fuel as [|fuel]; [simpl in Hf; lia|]);
    cbn [strsep_at app]; rewrite rd_app //; cbn [mbind option_bind].
  - destruct (c =? 0) eqn:E; breflect; [done|]. rewrite bool_decide_true // wr_app //. cbn [mbind option_bind].
    do 3 f_equal. simpl. lia.
  - apply not_elem_of_cons in H0 as [Ha H0]. apply Forall_cons in Ht as [Had Ht].
    destruct (a =? 0) eqn:E; breflect; [congruence|]. rewrite bool_decide_false //.
    specialize (IH (pre ++ [a]) (length pre + 1) fuel). rewrite -!app_assoc /= in IH.
    rewrite IH //; [rewrite length_app /=; lia|simpl in Hf; lia|]. do 3 f_equal. simpl. lia.
Qed.

Lemma cmd_words_step t tok r : strsep blanks t = (tok, r) →
  cmd_words t = (if decide (tok = []) then [] else [tok]) ++ match r with None => [] | Some r => cmd_words r end.
Proof.
  intros E. rewrite /cmd_words strsep_pieces E /= filter_cons.
  destruct (decide (tok ≠ [])) as [Hn|Hn], (decide (tok = [])) as [He|He]; try done; by destruct r.
Qed.

(** The first character of a token in a block. *)
Lemma rd_token pre tok r (p : Z) : p = length pre → 0 ∉ tok →
  ∃ c, rd (pre ++ tok ++ 0 :: r) p = Some c ∧ (c =? 0) = bool_decide (tok = []).
Proof.
  intros -> H0. destruct tok as [|a tok]; cbn [app]; rewrite rd_app //; [by exists 0|]. exists a. split; [done|].
  rewrite bool_decide_false //. apply Z.eqb_neq. set_solver.
Qed.

(** ** Lists whose last node does not end with NULL *)

Definition endless {V} (h : list (link_node V)) (l : link_t) : Prop :=
  (∀ i x, h !! i = Some x → is_Some (next x)) ∧ (head l = None → h = []) ∧ ∀ t, tail l = Some t → (t < length h)%nat.

Lemma walk_endless {V} (h : list (link_node V)) room p :
  (∀ i x, h !! i = Some x → is_Some (next x)) → is_Some p → walk room h p = None.
Proof.
  intros Hh. revert p. induction room as [|room IH]; intros p [i ->]; [done|]. cbn [walk].
  destruct (h !! i) as [x|] eqn:E; [|done]. cbn [mbind option_bind]. by rewrite (IH (next x) (Hh _ _ E)).
Qed.

Lemma link_add_endless {V} junk (h h' : list (link_node V)) l l' v :
  is_Some (junk 0%nat) → endless h l → link_add junk h l v = Some (h', l') → endless h' l' ∧ is_Some (head l').
Proof.
  intros Hj (Hh&Hn&Ht). rewrite /link_add. destruct (head l) as [i0|] eqn:Eh.
  - destruct (tail l) as [t|]; [|done]. specialize (Ht t eq_refl). cbn [mbind option_bind].
    rewrite lookup_app_l //. destruct (h !! t) as [x|] eqn:Et; [|done]. cbn [mbind option_bind]. intros [= <- <-].
    split; [|by eexists]. split_and!; [|done|intros ? [= <-]; rewrite !length_insert length_app /=; lia]. intros i y Hi.
    apply list_lookup_insert_Some in Hi as [(_&<-&_)|(_&Hi)]; [by eexists|].
    apply list_lookup_insert_Some in Hi as [(_&<-&_)|(Hne&Hi)]; [exact (Hh t x Et)|].
    apply lookup_app_Some in Hi as [Hi|[? Hi]]; [by eapply Hh|]. apply list_lookup_singleton_Some in Hi as [? _]. lia.
  - intros [= <- <-]. rewrite (Hn eq_refl) /=. split; [|by eexists].
    split_and!; [|done|intros ? [= <-]; simpl; lia]. intros [|i] y Hi; simplify_eq/=. done.
Qed.

Lemma collect_endless junk fuel m p h l m' h' l' :
  is_Some (junk 0%nat) → endless h l → collect junk fuel m p h l = Some (m', (h', l')) →
  endless h' l' ∧ (is_Some (head l) → is_Some (head l')).
Proof.
  intros Hj. revert m p h l. induction fuel as [|fuel IH]; intros m [p|] h l He; cbn [collect]; try done; try (by intros [= <- <- <-]).
  destruct (strsep_at _ _ _ _) as [[m1 q]|]; [|done]. cbn [mbind option_bind]. destruct (rd m1 p) as [c|]; [|done]. cbn [mbind option_bind].
  destruct (c =? 0); [apply IH; done|]. destruct (link_add junk h l p) as [[h1 l1]|] eqn:Ea; [|done]. cbn [mbind option_bind fst snd].
  destruct (link_add_endless _ _ _ _ _ _ Hj He Ea) as [He1 Hh1]. intros E. destruct (IH _ _ _ _ He1 E) as [? Hs]. auto.
Qed.

(** A command with a word: the loop over the list does not end inside it. *)
Lemma collect_word junk fuel pre t r h l : is_Some (junk 0%nat) → endless h l → (length t < fuel)%nat → 0 ∉ t → cmd_words t ≠ [] →
  ∀ m' h' l', collect junk fuel (pre ++ t ++ 0 :: r) (Some (length pre : Z)) h l = Some (m', (h', l')) →
  endless h' l' ∧ is_Some (head l').
Proof.
  intros Hj. revert pre t h l. induction fuel as [|fuel IH]; intros pre t h l He Hf H0 Hw m' h' l'; [lia|].
  cbn [collect]. destruct (strsep blanks t) as [tok rest] eqn:Es. rewrite (cmd_words_step t _ _ Es) in Hw.
  assert (∃ m1 q, strsep_at (S (length (pre ++ t ++ 0 :: r))) blanks (pre ++ t ++ 0 :: r) (length pre) = Some (m1, q) ∧
    (∃ r1, m1 = pre ++ tok ++ 0 :: r1) ∧ 0 ∉ tok ∧
    (tok = [] → ∃ t', rest = Some t' ∧ m1 = (pre ++ [0]) ++ t' ++ 0 :: r ∧ q = Some (length (pre ++ [0]) : Z) ∧ 0 ∉ t' ∧ (length t' < length t)%nat))
    as (m1&q&->&(r1&Em1)&H0t&Hnext).
  { destruct rest as [rest|].
    - apply strsep_Some in Es as (c&Hc&->&Htok). apply not_elem_of_app in H0 as [H0 [Hc0 H0r]%not_elem_of_cons].
      rewrite -app_assoc. cbn [app]. rewrite strsep_at_token //; [rewrite !length_app /= length_app /=; lia|].
      do 2 eexists. split; [done|]. split; [by eexists|]. split; [done|]. intros ->. exists rest. rewrite -app_assoc /=.
      split_and!; try done; [f_equal; rewrite length_app /=; lia|simpl; lia].
    - apply strsep_None in Es as [-> Htok]. rewrite strsep_at_end //; [rewrite !length_app /=; lia|].
      do 2 eexists. split; [done|]. split; [by eexists|]. split; [done|]. intros ->. done. }
  cbn [mbind option_bind]. destruct (rd_token pre tok r1 (length pre) eq_refl H0t) as (d&Ed&Hd). rewrite Em1 Ed. cbn [mbind option_bind]. rewrite Hd.
  case_bool_decide as Htok.
  - destruct (Hnext Htok) as (t'&->&Em&->&H0'&Hl'). rewrite -Em1 Em. apply IH; [done|lia|done|]. by case_decide.
  - destruct (link_add junk h l (length pre)) as [[h1 l1]|] eqn:Ea; [|done]. cbn [mbind option_bind fst snd].
    destruct (link_add_endless _ _ _ _ _ _ Hj He Ea) as [He1 Hh1]. intros E.
    destruct (collect_endless _ _ _ _ _ _ _ _ _ Hj He1 E) as [? Hs]. auto.
Qed.

Lemma parse_cmd_endless junk pre c r : is_Some (junk 0%nat) → 0 ∉ c → cmd_words c ≠ [] →
  parse_cmd junk (pre ++ c ++ 0 :: r) (length pre) = None.
Proof.
  intros Hj H0 Hw. rewrite /parse_cmd.
  destruct (collect _ _ _ _ _ _) as [[m' [h' l']]|] eqn:E; [|done]. cbn [mbind option_bind].
  assert (endless (V:=Z) [] link_init) as He by (split_and!; done).
  assert (length c < S (length (pre ++ c ++ 0%Z :: r)))%nat as Hf by (rewrite !length_app /=; lia).
  destruct (collect_word junk _ pre c r [] link_init Hj He Hf H0 Hw _ _ _ E) as [(Hh&_) Hs].
  rewrite /link_clear /values !(walk_endless h') //. by destruct (0 <? length_ l').
Qed.

Section Words.
Context (junk : nat → option nat) (Hjunk : ∀ n, junk n = None).

Lemma collect_ok fuel pre t r h l vs :
  (length t < fuel)%nat → 0 ∉ t → link_ok h l vs → length vs + length t + 1 < 2 ^ 32 →
  ∃ h' l' ptrs, collect junk fuel (pre ++ t ++ 0 :: r) (Some (length pre : Z)) h l =
      Some (pre ++ cut_blanks t ++ 0 :: r, (h', l')) ∧
    link_ok h' l' (vs ++ ptrs) ∧ (length ptrs ≤ length t)%nat ∧
    Forall2 (λ p w, cstr_at (pre ++ cut_blanks t ++ 0 :: r) p = Some w) ptrs (cmd_words t).
Proof.
  revert pre t h l vs. induction fuel as [|fuel IH]; intros pre t h l vs Hf H0 Hl Hb; [lia|].
  cbn [collect]. set (m := pre ++ t ++ 0 :: r).
  assert (length t < S (length m))%nat as Hfm by (rewrite /m !length_app /=; lia).
  destruct (strsep blanks t) as [tok [rest|]] eqn:Es; rewrite (cmd_words_step t _ _ Es).
  - apply strsep_Some in Es as (c&Hc&->&Htok). apply not_elem_of_app in H0 as [H0 [Hc0 H0r]%not_elem_of_cons].
    rewrite length_app /= in Hf, Hb, Hfm. rewrite /m -app_assoc. cbn [app].
    rewrite strsep_at_token //; [rewrite !length_app /= length_app /=; lia|]. cbn [mbind option_bind].
    destruct (rd_token pre tok (rest ++ 0 :: r) (length pre) eq_refl H0) as (d&Ed&Hd). rewrite Ed. cbn [mbind option_bind]. rewrite Hd.
    assert (pre ++ tok ++ 0 :: rest ++ 0 :: r = (pre ++ tok ++ [0]) ++ rest ++ 0 :: r) as Em by by rewrite -!app_assoc.
    assert (length pre + length tok + 1 = length (pre ++ tok ++ [0])) as El by (rewrite !length_app /=; lia).
    assert (pre ++ cut_blanks (tok ++ c :: rest) ++ 0 :: r = (pre ++ tok ++ [0]) ++ cut_blanks rest ++ 0 :: r) as Ecut.
    { by rewrite cut_blanks_token // -!app_assoc. }
    rewrite El Em Ecut. case_bool_decide as Ht.
    + subst tok. destruct (IH (pre ++ [] ++ [0]) rest h l vs) as (h'&l'&ptrs&E&Hl'&Hp&Hw); [simpl in *; lia|done|done|simpl in *; lia|].
      exists h', l', ptrs. case_decide; [|done]. split_and!; [done|done|simpl; lia|done].
    + destruct (link_add_ok junk Hjunk h l vs (length pre : Z)) as (h1&l1&Ea&Hl1); [done|lia|].
      rewrite Ea. cbn [mbind option_bind fst snd].
      destruct (IH (pre ++ tok ++ [0]) rest h1 l1 (vs ++ [length pre : Z])) as (h'&l'&ptrs&E&Hl'&Hp&Hw);
        [lia|done|done|rewrite length_app /=; lia|].
      exists h', l', ((length pre : Z) :: ptrs). case_decide; [done|]. rewrite -app_assoc in Hl'.
      split_and!; [done|done|rewrite length_app /=; lia|]. constructor; [|done].
      rewrite -!app_assoc. by apply (cstr_at_text pre tok).
  - apply strsep_None in Es as [-> Htok]. rewrite /m strsep_at_end //. cbn [mbind option_bind].
    destruct (rd_token pre tok r (length pre) eq_refl H0) as (d&Ed&Hd). rewrite Ed. cbn [mbind option_bind]. rewrite Hd.
    rewrite (cut_blanks_none tok) // app_nil_r. case_bool_decide as Ht.
    + exists h, l, []. case_decide; [|done]. rewrite app_nil_r. destruct fuel; split_and!; try done; simpl; lia.
    + destruct (link_add_ok junk Hjunk h l vs (length pre : Z)) as (h1&l1&Ea&Hl1); [done|lia|].
      rewrite Ea. cbn [mbind option_bind fst snd]. exists h1, l1, [length pre : Z]. case_decide; [done|].
      destruct tok as [|a tok]; [done|]. split_and!; [by destruct fuel|done|simpl; lia|]. repeat constructor.
      by apply (cstr_at_text pre (a :: tok)).
Qed.

Lemma parse_cmd_text pre c r : 0 ∉ c → length c + 1 < 2 ^ 32 →
  ∃ ptrs, parse_cmd junk (pre ++ c ++ 0 :: r) (length pre) = Some (pre ++ cut_blanks c ++ 0 :: r, ptrs) ∧
    mapM (cstr_at (pre ++ cut_blanks c ++ 0 :: r)) ptrs = Some (cmd_words c).
Proof.
  intros H0 Hb. rewrite /parse_cmd.
  destruct (collect_ok (S (length (pre ++ c ++ 0 :: r))) pre c r [] link_init []) as (h&l&ptrs&E&Hl&Hp&Hw).
  - rewrite !length_app /=. lia.
  - done.
  - apply link_init_ok.
  - simpl. lia.
  - rewrite E. cbn [mbind option_bind]. rewrite /link_clear (values_ok _ _ _ Hl).
    destruct Hl as (ps&Hh&_&Hl&Hn&_&Hk). rewrite app_nil_l in Hl, Hn, Hk. rewrite Hn.
    assert ((if 0 <? Z.of_nat (length ptrs) then walk (Z.to_nat (length ptrs + 1)) h (head l) else Some []) = Some ptrs) as ->.
    { destruct (Z.ltb_spec 0 (length ptrs)); [|destruct ptrs; simpl in *; [done|lia]].
      rewrite Hh (walk_ok h ps ptrs 0) //; lia. }
    cbn [mbind option_bind]. rewrite Nat2Z.id firstn_all. exists ptrs. split; [done|]. by apply mapM_Some_2.
Qed.
End Words.
