(* ===== verification/SeushSpec.v ===== *)
(** * What the shell does (Unix_Shell)

    An abstract shell that does what the README of the project says, on the
    text of the lines and with the search path as a list of directories, and
    the proof that seush.c implements it on the inputs on which it keeps to the
    README and clear of its memory errors. *)

From S2P Require Import Prelude CInt CString Stdio Seush SeushText.

Section Spec.
Context {OS : Type} (access : OS → list Z → bool) (chdir : OS → option (list Z) → option OS).
Context (forks : nat → bool) (reopens : OS → list Z → bool) (execs : OS → list Z → list (list Z) → bool).

(** ** The abstract shell *)

Record ash := Ash { a_os : OS; a_dirs : list (list Z); a_events : list event }.

Definition a_emit (e : list event) (a : ash) : ash := Ash (a_os a) (a_dirs a) (a_events a ++ e).

(** The number of new processes, or the exit status. *)
Definition ares : Type := (Z + Z) * ash.

(** The first program of that name in the directories of the path. *)
Definition find_prog (o : OS) (name : list Z) (dirs : list (list Z)) : option (list Z) :=
  List.find (access o) ((λ d, d ++ [47] ++ name) <$> dirs).

(** A new process: its output and its error output go to the file of the
    redirection; it runs the program, or prints the error message if there is
    none or it cannot be run. *)
Definition a_child (o : OS) (dest : option (list Z)) (argv : list (list Z)) (found : option (list Z)) : event :=
  Forked (match dest with None => Inherited | Some d => if reopens o d then ToFile d else Closed end)
         (match found with Some p => if execs o p argv then Some (p, argv) else None | None => None end).

Definition a_run (dest : option (list Z)) (argv : list (list Z)) (a : ash) : ares :=
  match argv with
  | [] => (inl 0, a)
  | name :: args =>
      if bool_decide (name = str "exit") then
        if bool_decide (args = []) then (inr 0, a) else (inl 0, a_emit [ErrorMsg] a)
      else if bool_decide (name = str "cd") then
        match args with
        | [d] =>
            match chdir (a_os a) (Some d) with
            | Some o => (inl 0, Ash o (a_dirs a) (a_events a))
            | None => (inl 0, a_emit [ErrorMsg] a)
            end
        | _ => (inl 0, a_emit [ErrorMsg] a)
        end
      else if bool_decide (name = str "path") then (inl 0, Ash (a_os a) args (a_events a))
      else (inl 1, a_emit [if forks (length (a_events a))
                           then a_child (a_os a) dest argv (find_prog (a_os a) name (a_dirs a)) else NotForked] a)
  end.

Definition a_single (t : list Z) (a : ash) : ares :=
  match redirect_of t with
  | None => (inl 0, a_emit [ErrorMsg] a)
  | Some (c, dest) => a_run dest (cmd_words c) a
  end.

Fixpoint a_parallel (ts : list (list Z)) (count : Z) (a : ash) : ares :=
  match ts with
  | [] => (inl count, a)
  | [] :: ts => a_parallel ts count a
  | t :: ts =>
      match a_single t a with
      | (inl n, a) => a_parallel ts (count + n) a
      | (inr c, a) => (inr c, a)
      end
  end.

(** A line: the commands between the ampersands, then one wait per process. *)
Definition a_line (t : list Z) (a : ash) : ares :=
  match a_parallel (pieces [38] t) 0 a with
  | (inl n, a) => (inl 0, a_emit (replicate (Z.to_nat n) Waited) a)
  | (inr c, a) => (inr c, a)
  end.

(** A line without its last character, if that is white space. *)
Definition chomp (line : list Z) : list Z :=
  match last line with
  | Some c => if isspace c then take (length line - 1) line else line
  | None => line
  end.

Fixpoint a_main (interactive : bool) (input : list (list Z)) (a : ash) : Z * ash :=
  let a := if interactive then a_emit [Prompt] a else a in
  match input with
  | [] => (0, a)
  | line :: input =>
      match a_line (chomp line) a with
      | (inl _, a) => a_main interactive input a
      | (inr c, a) => (c, a)
      end
  end.

(** ** The inputs the shell handles *)

(** [cd] with at most one argument, no directory of a [path] command ends with
    a slash, and no other command is itself the path of a program. *)
Definition argv_ok (argv : list (list Z)) : Prop :=
  match argv with
  | name :: args =>
      if bool_decide (name = str "exit") then True
      else if bool_decide (name = str "cd") then (length args ≤ 1)%nat
      else if bool_decide (name = str "path") then Forall (λ d, last d ≠ Some 47) args
      else ∀ o, access o name = false
  | [] => True
  end.

(** A command is empty or starts with a visible character. *)
Definition cmd_ok (t : list Z) : Prop :=
  match t with
  | [] => True
  | a :: _ => isspace a = false ∧ ∀ c d, redirect_of t = Some (c, d) → argv_ok (cmd_words c)
  end.

Definition line_ok (line : list Z) : Prop :=
  line ≠ [] ∧ 0 ∉ line ∧ length line + 2 < 2 ^ 32 ∧ Forall cmd_ok (pieces [38] (chomp line)).

(** ** Text *)

(** The first word of a command that starts with a visible character is what
    is left of the line. *)
Lemma cmd_words_first a c : isspace a = false → ∃ w ws, cmd_words (a :: c) = w :: ws ∧
  ∀ pre r, 0 ∉ a :: c → cstr_at (pre ++ cut_blanks (a :: c) ++ 0 :: r) (length pre) = Some w.
Proof.
  intros Ha. assert (a ∉ blanks) as Hb.
  { rewrite /blanks !elem_of_cons elem_of_nil. by intros [->|[->|[->|[->|[]]]]]. }
  destruct (strsep blanks (a :: c)) as [tok r] eqn:Es. rewrite (cmd_words_step _ _ _ Es).
  assert (∃ tok', tok = a :: tok') as [tok' ->].
  { simpl in Es. rewrite bool_decide_false // in Es. destruct (strsep blanks c). simplify_eq. by eexists. }
  eexists (a :: tok'), _. split; [done|]. intros pre post H0. destruct r as [r|].
  - apply strsep_Some in Es as (d&Hd&E&Hf). rewrite E cut_blanks_token // -app_assoc.
    apply (cstr_at_text pre (a :: tok')); [done|]. rewrite E in H0. set_solver.
  - apply strsep_None in Es as [E Hf]. rewrite E cut_blanks_none //. apply (cstr_at_text pre (a :: tok')); [done|]. by rewrite -E.
Qed.

Lemma redirect_of_prefix b t c d : isspace b = false → redirect_of (b :: t) = Some (c, d) →
  ∃ c' rest, c = b :: c' ∧ b :: t = c ++ rest.
Proof.
  intros Hb. rewrite /redirect_of. destruct (rstrip_head b t Hb) as [u Eu]. destruct (rstrip_split (b :: t)) as (sp&E&_).
  rewrite Eu in E |- *. rewrite E. case_bool_decide as Hgt; [done|].
  assert (b ≠ GT) as Hne by (intros ->; by apply Hgt).
  destruct (strsep [GT] (b :: u)) as [c0 r0] eqn:Es. intros H.
  assert (∃ c', c0 = b :: c') as [c' ->].
  { simpl in Es. rewrite bool_decide_false in Es; [set_solver|]. destruct (strsep [GT] u). simplify_eq. by eexists. }
  destruct r0 as [r0|].
  - destruct (bool_decide (GT ∈ r0)); [done|]. destruct (_ || _); [done|]. simplify_eq.
    apply strsep_Some in Es as (g&_&Es&_). exists c', (g :: r0 ++ sp). by rewrite Es -app_assoc.
  - simplify_eq. apply strsep_None in Es as [Es _]. exists c', sp. by rewrite Es.
Qed.

Lemma cmd_words_ok c : 0 ∉ c → Forall (λ d, d ≠ [] ∧ 0 ∉ d) (cmd_words c).
Proof.
  intros H0. apply Forall_forall. intros w [Hw Hin]%list_elem_of_filter. split; [done|].
  assert (Forall (Forall (λ x, x ≠ 0)) (pieces blanks c)) as Hp.
  { apply pieces_cover, Forall_forall. intros x Hx ->. done. }
  eapply Forall_forall in Hin; [|exact Hp]. intros Hz. eapply Forall_forall in Hz; [|exact Hin]. done.
Qed.

Lemma pieces_length delims t : (length (pieces delims t) ≤ S (length t))%nat.
Proof.
  induction t as [|c t IH]; simpl; [lia|]. case_bool_decide; simpl; [lia|].
  destruct (pieces delims t); simpl in *; lia.
Qed.

Lemma cmd_words_length c : (length (cmd_words c) ≤ S (length c))%nat.
Proof. etrans; [apply length_filter|apply pieces_length]. Qed.

(** The first command of a line, in the block. *)
Lemma first_command pre t post : 0 ∉ t →
  ∃ tok r post1, strsep [38] t = (tok, r) ∧ 0 ∉ tok ∧ (length tok ≤ length t)%nat ∧
    strsep_at (S (length (pre ++ t ++ 0 :: post))) [38] (pre ++ t ++ 0 :: post) (length pre) =
      Some (pre ++ tok ++ 0 :: post1, match r with None => None | Some _ => Some (length pre + length tok + 1) end) ∧
    match r with None => True | Some rest => post1 = rest ++ 0 :: post ∧ 0 ∉ rest ∧ (length rest + length tok < length t)%nat end.
Proof.
  intros H0. destruct (strsep [38] t) as [tok [rest|]] eqn:Es.
  - apply strsep_Some in Es as (c&Hc38&->&Hf38). exists tok, (Some rest), (rest ++ 0 :: post).
    apply not_elem_of_app in H0 as [H0t [Hc0 H0r]%not_elem_of_cons].
    split_and!; try done; [rewrite length_app; lia| |rewrite length_app; simpl; lia].
    rewrite -app_assoc. cbn [app]. rewrite strsep_at_token //. rewrite !length_app /=. lia.
  - apply strsep_None in Es as [-> Hf38]. exists tok, None, post. split_and!; try done.
    rewrite strsep_at_end //. rewrite !length_app /=. lia.
Qed.

Lemma chomp_block line : line ≠ [] → 0 ∉ line → ∃ post, line_block line = Some (chomp line ++ 0 :: post).
Proof.
  intros Hne H0. destruct (exists_last Hne) as (u&x&->). rewrite /line_block (cstr_at_text [] (u ++ [x]) [] 0) //.
  cbn [mbind option_bind]. rewrite -app_assoc. cbn [app]. rewrite rd_app; [rewrite length_app /=; lia|]. cbn [mbind option_bind].
  rewrite /chomp last_snoc. destruct (isspace x).
  - rewrite wr_app; [rewrite length_app /=; lia|]. exists [0]. rewrite length_app /= Nat.add_sub take_app_length. done.
  - exists []. by rewrite -app_assoc.
Qed.

Lemma chomp_prefix line : chomp line `prefix_of` line.
Proof. rewrite /chomp. destruct (last line); [|done]. destruct (isspace _); [apply prefix_take|done]. Qed.

(** ** The proof *)

Context (junk : nat → option nat).

(** [chdir(NULL)] fails with EFAULT. *)
Definition chdir_null : Prop := ∀ o, chdir o None = None.

Section Zeroed.
Context (Hjunk : ∀ n, junk n = None) (Hchdir : chdir_null).

Definition rel (s : shell) (a : ash) : Prop :=
  os s = a_os a ∧ events s = a_events a ∧ Forall (λ d, 0 ∉ d) (a_dirs a) ∧ length (a_dirs a) < 2 ^ 32 ∧
  link_ok (path_heap s) (path_link s) ((λ d, d ++ [0]) <$> a_dirs a).

Lemma rel_emit s a e : rel s a → emit e s = SRet tt (Sh (os s) (path_heap s) (path_link s) (events s ++ [e])) ∧
  rel (Sh (os s) (path_heap s) (path_link s) (events s ++ [e])) (a_emit [e] a).
Proof. intros (Ho&He&Hd&Hl&Hp). split; [done|]. split_and!; try done. by rewrite /= He. Qed.

Lemma search_loop_ok o h name dirs ps : Forall (λ d, 0 ∉ d) dirs → length ps = length dirs →
  (∀ k i, ps !! k = Some i → ∃ v, ((λ d, d ++ [0]) <$> dirs) !! k = Some v ∧ h !! i = Some (Node v (ps !! S k))) →
  ∀ k fuel cand, (k ≤ length ps)%nat → (length ps - k ≤ fuel)%nat →
    search access fuel o h name name cand (ps !! k) =
      Some (List.find (access o) (cand :: ((λ d, d ++ [47] ++ name) <$> drop k dirs))).
Proof.
  intros Hd Hl Hk k fuel. revert k. induction fuel as [|fuel IH]; intros k cand Hle Hf; cbn [search List.find].
  - rewrite (lookup_ge_None_2 ps); [lia|]. rewrite drop_ge; [lia|]. by destruct (access o cand).
  - destruct (access o cand); [done|]. destruct (ps !! k) as [i|] eqn:Ei.
    + destruct (Hk k i Ei) as (v&Hv&Hi). rewrite list_lookup_fmap in Hv. destruct (dirs !! k) as [d|] eqn:Ed; simplify_eq/=.
      rewrite Hi. cbn [mbind option_bind nvalue next].
      assert (0 ∉ d) as H0 by exact (Forall_lookup_1 _ _ _ _ Hd Ed).
      rewrite (cstr_at_text [] d [] 0) //. cbn [mbind option_bind]. rewrite bool_decide_true; [rewrite !length_app /=; lia|].
      pose proof (lookup_lt_Some _ _ _ Ei). rewrite IH; [lia|lia|]. by rewrite (drop_S _ _ _ Ed).
    + apply lookup_ge_None in Ei. rewrite drop_ge; [lia|]. done.
Qed.

Lemma search_ok o h l name dirs : Forall (λ d, 0 ∉ d) dirs → link_ok h l ((λ d, d ++ [0]) <$> dirs) → access o name = false →
  search access (length h) o h name name name (head l) = Some (find_prog o name dirs).
Proof.
  intros Hd Hok Hacc. pose proof (link_ok_room _ _ _ Hok) as Hroom. rewrite length_fmap in Hroom.
  destruct Hok as (ps&->&_&Hl&_&_&Hk). rewrite length_fmap in Hl.
  rewrite (search_loop_ok o h name dirs ps Hd Hl Hk 0); [lia|lia|]. cbn [List.find drop]. by rewrite Hacc.
Qed.

Lemma path_block_ok d : d ≠ [] → last d ≠ Some 47 → path_block d = Some (d ++ [0]).
Proof.
  intros Hne Hl. destruct (exists_last Hne) as (u&x&->). rewrite last_snoc in Hl. rewrite /path_block -app_assoc. cbn [app].
  rewrite rd_app; [rewrite length_app /=; lia|]. cbn [mbind option_bind].
  destruct (x =? 47) eqn:E; breflect; [congruence|]. f_equal. rewrite take_ge //. rewrite !length_app /=. lia.
Qed.

Lemma path_add_ok s o ev dirs d : rel s (Ash o dirs ev) → d ≠ [] → 0 ∉ d → last d ≠ Some 47 → length dirs + 1 < 2 ^ 32 →
  ∃ s', path_add junk d s = SRet tt s' ∧ rel s' (Ash o (dirs ++ [d]) ev).
Proof.
  intros (Ho&He&Hd&Hl&Hp) Hne H0 Hlast Hb. simpl in *. rewrite /path_add. unfold mbind, SH_bind, lift, get_sh.
  rewrite path_block_ok //. destruct (link_add_ok junk Hjunk _ _ _ (d ++ [0]) Hp) as (h&l&Ea&Hok); [rewrite length_fmap; lia|].
  rewrite Ea. eexists. split; [done|]. split_and!; simpl; try done.
  - apply Forall_app. split; [done|]. by apply Forall_singleton.
  - rewrite length_app /=. lia.
  - by rewrite fmap_app.
Qed.

(** A result of the shell and of the abstract shell that agree; the block
    changes only inside the command. *)
Definition agree (pre t post : list Z) (r : shres (mem * Z)) (ar : ares) : Prop :=
  match r, ar with
  | SRet (m, n) s, (inl n', a) => n = n' ∧ rel s a ∧ ∃ x, m = pre ++ x ++ 0 :: post ∧ length x = length t
  | SExit c s, (inr c', a) => c = c' ∧ rel s a
  | _, _ => False
  end.

Lemma path_adds_ok s o ev dirs args : rel s (Ash o dirs ev) →
  Forall (λ d, d ≠ [] ∧ 0 ∉ d) args → Forall (λ d, last d ≠ Some 47) args → length dirs + length args + 1 < 2 ^ 32 →
  ∃ s', path_adds junk args s = SRet tt s' ∧ rel s' (Ash o (dirs ++ args) ev).
Proof.
  intros Hr Ha. revert s dirs Hr. induction Ha as [|d args [Hne H0] Ha IH]; intros s dirs Hr Hl Hb.
  - exists s. by rewrite app_nil_r.
  - apply Forall_cons in Hl as [Hd Hl]. destruct (path_add_ok s o ev dirs d) as (s1&E1&Hr1); [done..|simpl in Hb; lia|].
    destruct (IH s1 (dirs ++ [d]) Hr1 Hl) as (s2&E2&Hr2); [rewrite length_app /=; simpl in Hb; lia|].
    exists s2. cbn [path_adds]. rewrite /mbind /SH_bind E1. split; [exact E2|]. by rewrite -app_assoc in Hr2.
Qed.

Lemma path_clear_ok s a : rel s a → ∃ s', path_clear s = SRet tt s' ∧ rel s' (Ash (a_os a) [] (a_events a)).
Proof.
  intros (Ho&He&Hd&Hl&Hp). rewrite /path_clear /mbind /SH_bind /get_sh /lift /link_clear.
  rewrite (values_ok _ _ _ Hp). cbn [mbind option_bind]. eexists. split; [done|]. split_and!; simpl; try done.
  apply link_init_ok.
Qed.

Lemma built_in_ok dest name args s a : rel s a →
  Forall (λ d, d ≠ [] ∧ 0 ∉ d) args → length args + 1 < 2 ^ 32 → argv_ok (name :: args) →
  match exec_built_in_cmd junk chdir name (name :: args) s with
  | SRet SUCCESS s' => ∃ a', a_run dest (name :: args) a = (inl 0, a') ∧ rel s' a'
  | SRet ERROR s' => s' = s ∧ a_run dest (name :: args) a = (inl 0, a_emit [ErrorMsg] a)
  | SRet NOT_EXEC s' => s' = s ∧ (∀ o, access o name = false) ∧ a_run dest (name :: args) a =
      (inl 1, a_emit [if forks (length (a_events a))
                      then a_child (a_os a) dest (name :: args) (find_prog (a_os a) name (a_dirs a)) else NotForked] a)
  | SExit c s' => c = 0 ∧ s' = s ∧ a_run dest (name :: args) a = (inr 0, a)
  | SUndef => False
  end.
Proof.
  intros Hr Hargs Hb. rewrite /exec_built_in_cmd /a_run /argv_ok. case_bool_decide as Hexit.
  { intros _. destruct args as [|x args]; [done|]. rewrite (bool_decide_true (1 < _)%nat); [simpl; lia|]. done. }
  case_bool_decide as Hcd.
  { intros Hone. rewrite {1}/mbind /SH_bind /get_sh. pose proof Hr as (Ho&_). rewrite Ho.
    destruct args as [|d [|]]; [|cbn [lookup list_lookup]|simpl in Hone; lia].
    { cbn [lookup list_lookup]. by rewrite Hchdir. }
    destruct (chdir (a_os a) (Some d)) as [o|]; [|done].
    rewrite /mbind /set_os /mret /SH_ret. eexists. split; [done|]. destruct Hr as (_&He&Hd&Hl&Hp). by split_and!. }
  case_bool_decide as Hp; [|done]. intros Hpath.
  destruct (path_clear_ok s a Hr) as (s1&E1&Hr1).
  destruct (path_adds_ok s1 (a_os a) (a_events a) [] args Hr1 Hargs Hpath) as (s2&E2&Hr2); [simpl; lia|].
  rewrite {1}/mbind /SH_bind E1. change (drop 1 (name :: args)) with args. rewrite /mbind E2 /mret /SH_ret.
  eexists. by split.
Qed.

Lemma run_child_ok m p argv name dest d s a :
  rel s a → cstr_at m p = Some name → (∀ o, access o name = false) →
  match dest with None => Some None | Some q => Some <$> cstr_at m q end = Some d →
  ∃ s', run_child access reopens execs m p argv name dest s = SRet tt s' ∧
    rel s' (a_emit [a_child (a_os a) d argv (find_prog (a_os a) name (a_dirs a))] a).
Proof.
  intros Hr Hline Hacc Hdest. pose proof Hr as (Ho&_&Hd&_&Hlk).
  rewrite /run_child {1}/mbind /SH_bind {1}/get_sh {1}/mbind {1}/lift Hline {1}/mbind {1}/lift.
  rewrite (search_ok (os s) _ _ name (a_dirs a) Hd Hlk (Hacc _)) {1}/mbind {1}/lift Hdest Ho.
  eexists. by apply rel_emit.
Qed.

Lemma exec_single_ok pre b t post s a :
  rel s a → isspace b = false → 0 ∉ b :: t → length (b :: t) + 2 < 2 ^ 32 →
  (∀ c d, redirect_of (b :: t) = Some (c, d) → argv_ok (cmd_words c)) →
  agree pre (b :: t) post (exec_single_cmd junk access chdir forks reopens execs (pre ++ (b :: t) ++ 0 :: post) (length pre) s) (a_single (b :: t) a).
Proof.
  intros Hr Hb H0 Hlen Hpath. destruct (parse_redirect_text pre b t post Hb H0) as (m1&dest&err&E1&(x1&Em1&Hx1)&Hred).
  rewrite /exec_single_cmd {1}/mbind /SH_bind {1}/lift E1 /a_single.
  destruct (redirect_of (b :: t)) as [[c d]|] eqn:Ered; last first.
  { subst err. rewrite /mbind /print_error /emit /mret /SH_ret. split; [done|]. split; [by apply rel_emit|]. by exists x1. }
  destruct Hred as (->&r&Em&Hdest). destruct (redirect_of_prefix b t c d Hb Ered) as (c'&rest&Ec&Erest).
  assert (0 ∉ c) as H0c by (intros Hin; apply H0; rewrite Erest; set_solver).
  assert (length c ≤ length (b :: t))%nat as Hlc by (rewrite Erest length_app; lia).
  destruct (parse_cmd_text junk Hjunk pre c r H0c) as (ptrs&E2&E3); [lia|]. rewrite -Em in E2.
  destruct (cmd_words_first b c' Hb) as (name&args&Ew&Hline). rewrite -Ec in Ew, Hline.
  set (m2 := pre ++ cut_blanks c ++ 0 :: r) in *.
  assert (∃ x, m2 = pre ++ x ++ 0 :: post ∧ length x = length (b :: t)) as Hfr.
  { destruct (refront c (cut_blanks c) r x1 post) as (x&Ex&Hx).
    - apply (app_inv_head pre). by rewrite -Em -Em1.
    - lia.
    - by rewrite /cut_blanks length_fmap.
    - exists x. rewrite /m2 Ex. split; [done|]. lia. }
  rewrite {1}/mbind /SH_bind {1}/lift E2 {1}/mbind {1}/lift E3 Ew.
  pose proof (cmd_words_ok c H0c) as Hws. rewrite Ew in Hws. pose proof (Hpath c d eq_refl) as Hpa. rewrite Ew in Hpa.
  pose proof (cmd_words_length c) as Hwl. rewrite Ew /= in Hwl.
  pose proof (built_in_ok d name args s a Hr (Forall_inv_tail Hws) ltac:(lia) Hpa) as Hbi.
  rewrite {1}/mbind. destruct (exec_built_in_cmd junk chdir name (name :: args) s) as [[] s'|code s'|]; [..|done].
  - destruct Hbi as (a'&->&Hr'). by split_and!.
  - destruct Hbi as [-> ->]. rewrite /mbind /print_error /emit /mret /SH_ret. split; [done|]. split; [by apply rel_emit|done].
  - destruct Hbi as (->&Hacc&->). rewrite {1}/mbind {1}/get_sh. pose proof Hr as (Ho&He&_). rewrite He.
    assert (∃ s', (if forks (length (a_events a)) then run_child access reopens execs m2 (length pre) (name :: args) name dest else emit NotForked) s =
      SRet tt s' ∧ rel s' (a_emit [if forks (length (a_events a)) then a_child (a_os a) d (name :: args) (find_prog (a_os a) name (a_dirs a))
        else NotForked] a)) as (s'&Es'&Hr').
    { destruct (forks _); [|eexists; by apply rel_emit]. apply run_child_ok; [done|by apply Hline|by apply Hacc|].
      destruct d as [sd|]; [|by rewrite Hdest]. destruct Hdest as (pre2&post2&->&H0s&->). rewrite /m2.
      assert (pre ++ cut_blanks c ++ 0 :: pre2 ++ sd ++ 0 :: post2 = (pre ++ cut_blanks c ++ 0 :: pre2) ++ sd ++ 0 :: post2) as ->
        by by rewrite -!app_assoc.
      rewrite cstr_at_text //. rewrite !length_app /cut_blanks length_fmap. done. }
    rewrite /mbind Es' /mret /SH_ret. split_and!; done.
  - destruct Hbi as (->&->&->). done.
Qed.

Lemma a_single_count t a n a' : a_single t a = (inl n, a') → 0 ≤ n ≤ 1.
Proof.
  rewrite /a_single /a_run. repeat case_match; intros; simplify_eq; lia.
Qed.

(** Results without a block. *)
Definition agree' (r : shres Z) (ar : ares) : Prop :=
  match r, ar with
  | SRet n s, (inl n', a) => n = n' ∧ rel s a
  | SExit c s, (inr c', a) => c = c' ∧ rel s a
  | _, _ => False
  end.

Lemma a_parallel_cons t ts count a : a_parallel (t :: ts) count a =
  match t with
  | [] => a_parallel ts count a
  | _ => match a_single t a with (inl n, a) => a_parallel ts (count + n) a | (inr c, a) => (inr c, a) end
  end.
Proof. by destruct t. Qed.

Lemma parallel_ok fuel pre t post count s a :
  (length t < fuel)%nat → 0 ∉ t → Forall cmd_ok (pieces [38] t) → rel s a →
  0 ≤ count → count + length t + 2 < 2 ^ 32 →
  agree' (parallel junk access chdir forks reopens execs fuel (pre ++ t ++ 0 :: post) (Some (length pre : Z)) count s)
         (a_parallel (pieces [38] t) count a).
Proof.
  revert pre t count s a. induction fuel as [|fuel IH]; intros pre t count s a Hf H0 Hok Hr Hc Hb; [lia|].
  cbn [parallel]. rewrite strsep_pieces in Hok |- *. rewrite a_parallel_cons.
  destruct (first_command pre t post H0) as (tok&r&post1&Es&H0t&Hlt&Esep&Hrest).
  rewrite Es. cbn [fst snd]. rewrite Es in Hok. cbn [fst snd] in Hok. apply Forall_cons in Hok as [Htok Hok].
  rewrite {1}/mbind /SH_bind {1}/lift Esep.
  destruct (rd_token pre tok post1 (length pre) eq_refl H0t) as (d&Ed&Hd). rewrite {1}/mbind {1}/lift Ed Hd.
  assert (∀ x n s' a', length x = length tok → rel s' a' → 0 ≤ n ≤ 1 →
    agree' (parallel junk access chdir forks reopens execs fuel (pre ++ x ++ 0 :: post1)
              (match r with None => None | Some _ => Some (length pre + length tok + 1) end) (count + n) s')
           (a_parallel (match r with Some r => pieces [38] r | None => [] end) (count + n) a')) as Hnext.
  { intros x n s' a' Hx Hr' Hn. destruct r as [rest|]; [|by destruct fuel; split].
    destruct Hrest as (->&H0r&Hlr).
    assert (pre ++ x ++ 0 :: rest ++ 0 :: post = (pre ++ x ++ [0]) ++ rest ++ 0 :: post) as -> by by rewrite -!app_assoc.
    replace (length pre + length tok + 1) with (length (pre ++ x ++ [0]) : Z) by (rewrite !length_app /=; lia).
    apply IH; try done; lia. }
  destruct tok as [|b tok].
  - cbn [bool_decide]. rewrite bool_decide_true //. rewrite -(Z.add_0_r count). by apply Hnext.
  - rewrite bool_decide_false //. destruct Htok as [Hb0 Hpath].
    pose proof (exec_single_ok pre b tok post1 s a Hr Hb0 H0t ltac:(lia) Hpath) as Hs. rewrite {1}/mbind.
    destruct (exec_single_cmd _ _ _ _ _ _ _ _ s) as [[m' n] s'|code s'|]; destruct (a_single (b :: tok) a) as [[n'|code'] a'] eqn:Ea;
      try done.
    destruct Hs as (->&Hr'&x&->&Hx). cbn [fst snd]. pose proof (a_single_count _ _ _ _ Ea).
    rewrite u32_small; [rewrite /is_u32; lia|]. by apply Hnext.
Qed.

Lemma waits_ok n s a : rel s a → ∃ s', waits n s = SRet tt s' ∧ rel s' (a_emit (replicate n Waited) a).
Proof.
  revert s a. induction n as [|n IH]; intros s a Hr; cbn [waits].
  - exists s. split; [done|]. destruct a. by rewrite /a_emit /= app_nil_r.
  - destruct (rel_emit s a Waited Hr) as [E Hr1]. destruct (IH _ _ Hr1) as (s2&E2&Hr2).
    exists s2. rewrite /mbind /SH_bind E. split; [exact E2|]. rewrite /a_emit /= -app_assoc in Hr2. exact Hr2.
Qed.

Lemma a_parallel_count ts count a n a' : 0 ≤ count → a_parallel ts count a = (inl n, a') → 0 ≤ n.
Proof.
  revert count a. induction ts as [|t ts IH]; intros count a Hc; [by intros [= <- _]|]. rewrite a_parallel_cons.
  destruct t as [|b t]; [by apply IH|]. destruct (a_single (b :: t) a) as [[k|k] a1] eqn:E; [|done].
  pose proof (a_single_count _ _ _ _ E). apply IH. lia.
Qed.

Lemma main_loop_ok interactive input s a : Forall line_ok input → rel s a →
  match main_loop junk access chdir forks reopens execs interactive input s with
  | SExit c s' => ∃ a', a_main interactive input a = (c, a') ∧ rel s' a'
  | _ => False
  end.
Proof.
  intros Hin. revert s a. induction Hin as [|line input (Hne&H0&Hlen&Hcmds) Hin IH]; intros s a Hr; cbn [main_loop a_main].
  all: assert (∃ s1, (if interactive then emit Prompt else mret ()) s = SRet tt s1 ∧
    rel s1 (if interactive then a_emit [Prompt] a else a)) as (s1&E1&Hr1)
    by (destruct interactive; [eexists; by apply rel_emit|by exists s]).
  all: rewrite {1}/mbind /SH_bind E1; set (a1 := if interactive then a_emit [Prompt] a else a) in *; clearbody a1.
  { by exists a1. }
  destruct (chomp_block line Hne H0) as [post Ep]. rewrite {1}/mbind {1}/lift Ep /exec_parallel_cmd {1}/mbind {1}/mbind.
  assert (0 ∉ chomp line ∧ (length (chomp line) ≤ length line)%nat) as [H0c Hlc].
  { destruct (chomp_prefix line) as [k Hk]. apply (f_equal length) in Hk as Hk'. rewrite length_app in Hk'.
    split; [|lia]. intros Hz. apply H0. rewrite Hk. set_solver. }
  pose proof (parallel_ok (S (length (chomp line ++ 0 :: post))) [] (chomp line) post 0 s1 a1) as Hp.
  change (Z.of_nat (length [])) with 0 in Hp. rewrite /a_line /SH_bind.
  specialize (Hp ltac:(rewrite length_app /=; lia) H0c Hcmds Hr1 ltac:(lia) ltac:(lia)).
  cbn [app] in Hp. destruct (parallel _ _ _ _ _ _ _ _ _ 0 s1) as [n s2|code s2|]; destruct (a_parallel _ 0 a1) as [[n'|code'] a2] eqn:Ea;
    try done.
  - destruct Hp as [-> Hr2]. destruct (waits_ok (Z.to_nat n') s2 a2 Hr2) as (s3&E3&Hr3). cbv beta. rewrite E3. by apply IH.
  - destruct Hp as [-> Hr2]. by exists a2.
Qed.

Definition a_start (argc : Z) (batch : option (list (list Z))) (input : list (list Z)) (o : OS) : Z * ash :=
  if 2 <? argc then (1, Ash o [] [ErrorMsg])
  else if argc =? 2 then
    match batch with
    | None => (1, Ash o [] [ErrorMsg])
    | Some ls => a_main false ls (Ash o [str "/bin"] [])
    end
  else a_main (argc =? 1) input (Ash o [str "/bin"] []).

Lemma seush_start o ls interactive : Forall line_ok ls →
  match (path_add junk (str "/bin");; main_loop junk access chdir forks reopens execs interactive ls) (Sh o [] link_init []) with
  | SExit c s => ∃ a, a_main interactive ls (Ash o [str "/bin"] []) = (c, a) ∧ rel s a
  | _ => False
  end.
Proof.
  intros Hls. assert (rel (Sh o [] link_init []) (Ash o [] [])) as Hr by (split_and!; simpl; try done; apply link_init_ok).
  destruct (path_add_ok _ _ _ _ (str "/bin") Hr) as (s1&E1&Hr1); [done|by vm_compute; set_solver|done|done|].
  rewrite /mbind /SH_bind E1. by apply main_loop_ok.
Qed.

Lemma seush_main argc batch input o :
  Forall line_ok input → (∀ ls, batch = Some ls → Forall line_ok ls) →
  ∃ s, main junk access chdir forks reopens execs argc batch input (Sh o [] link_init []) = SExit (a_start argc batch input o).1 s ∧
    os s = a_os (a_start argc batch input o).2 ∧ events s = a_events (a_start argc batch input o).2.
Proof.
  intros Hin Hb. rewrite /main /a_start. destruct (2 <? argc); [by eexists|].
  assert (∀ ls i, Forall line_ok ls → ∃ s, (path_add junk (str "/bin");; main_loop junk access chdir forks reopens execs i ls) (Sh o [] link_init []) =
    SExit (a_main i ls (Ash o [str "/bin"] [])).1 s ∧ os s = a_os (a_main i ls (Ash o [str "/bin"] [])).2 ∧
    events s = a_events (a_main i ls (Ash o [str "/bin"] [])).2) as H.
  { intros ls i Hls. pose proof (seush_start o ls i Hls) as Hm.
    destruct ((path_add junk (str "/bin");; main_loop junk access chdir forks reopens execs i ls) (Sh o [] link_init [])) as [|c s|]; try done.
    destruct Hm as (a&->&Ho&He&_). by exists s. }
  destruct (argc =? 2) eqn:E2; breflect.
  - subst argc. destruct batch as [ls|]; [|by eexists]. apply (H ls false). by apply Hb.
  - by apply (H input (argc =? 1)).
Qed.
End Zeroed.

(** ** Memory that is not zeroed *)

Lemma sh_bind_ret {A B} (m : SH (OS:=OS) A) (f : A → SH B) s a s' : m s = SRet a s' → (m ≫= f) s = f a s'.
Proof. rewrite /mbind /SH_bind. by intros ->. Qed.

Lemma sh_bind_undef {A B} (m : SH (OS:=OS) A) (f : A → SH B) s : m s = SUndef → (m ≫= f) s = SUndef.
Proof. rewrite /mbind /SH_bind. by intros ->. Qed.

Lemma lift_Some {A} (o : option A) a (s : shell (OS:=OS)) : o = Some a → lift o s = SRet a s.
Proof. by intros ->. Qed.

(** A command with a word, when the first node of a list does not end with
    NULL. *)
Lemma exec_single_endless pre b t post s c d :
  is_Some (junk 0%nat) → isspace b = false → 0 ∉ b :: t → redirect_of (b :: t) = Some (c, d) →
  exec_single_cmd junk access chdir forks reopens execs (pre ++ (b :: t) ++ 0 :: post) (length pre) s = SUndef.
Proof.
  intros Hj Hb H0 Ered. destruct (parse_redirect_text pre b t post Hb H0) as (m1&dest&err&E1&_&Hred). rewrite Ered in Hred.
  destruct Hred as (->&r&->&_). destruct (redirect_of_prefix b t c d Hb Ered) as (c'&rest&Ec&Erest).
  assert (0 ∉ c) as H0c by (intros Hin; apply H0; rewrite Erest; set_solver).
  destruct (cmd_words_first b c' Hb) as (name&args&Ew&_). rewrite -Ec in Ew.
  rewrite /exec_single_cmd {1}/mbind /SH_bind {1}/lift E1 {1}/mbind {1}/lift.
  rewrite (parse_cmd_endless junk pre c r Hj H0c) //. by rewrite Ew.
Qed.

(** The first command of a line is well formed. *)
Definition first_runs (line : list Z) : Prop :=
  ∃ b t ts c d, pieces [38] (chomp line) = (b :: t) :: ts ∧ redirect_of (b :: t) = Some (c, d).

Lemma main_endless o batch line input : is_Some (junk 0%nat) → line_ok line → first_runs line →
  main junk access chdir forks reopens execs 1 batch (line :: input) (Sh o [] link_init []) = SUndef.
Proof.
  intros Hj (Hne&H0&Hlen&Hcmds) (b&t&ts&c&d&Ep&Ered). destruct (chomp_block line Hne H0) as [post Eb].
  assert (0 ∉ chomp line) as H0c.
  { destruct (chomp_prefix line) as [k Hk]. intros Hz. apply H0. rewrite Hk. set_solver. }
  destruct (first_command [] (chomp line) post H0c) as (tok&r&post1&Es&H0t&_&Esep&_).
  rewrite Ep in Hcmds. apply Forall_cons in Hcmds as [[Hb _] _].
  assert (tok = b :: t) as ->. { rewrite strsep_pieces Es in Ep. by simplify_eq. }
  change (Z.of_nat (length [])) with 0 in Esep. cbn [app] in Esep.
  assert (∀ s, exec_parallel_cmd junk access chdir forks reopens execs (chomp line ++ 0 :: post) 0 s = SUndef) as Hu.
  { intros s. apply sh_bind_undef. cbn [parallel]. rewrite (sh_bind_ret _ _ s _ s (lift_Some _ _ s Esep)).
    rewrite (sh_bind_ret _ _ s b s); [by rewrite (rd_app [] b (t ++ 0 :: post1) 0)|].
    rewrite (proj2 (Z.eqb_neq b 0)); [set_solver|]. apply sh_bind_undef. by apply (exec_single_endless [] b t post1 s c d). }
  rewrite /main. change (2 <? 1) with false. change (1 =? 2) with false. change (1 =? 1) with true. cbv iota.
  rewrite (sh_bind_ret _ _ _ (line :: input) (Sh o [] link_init [])) //.
  assert (∃ s1, path_add junk (str "/bin") (Sh o [] link_init []) = SRet tt s1) as [s1 Es1] by by eexists.
  rewrite (sh_bind_ret _ _ _ _ _ Es1). cbn [main_loop]. rewrite (sh_bind_ret (emit Prompt) _ s1 tt _ eq_refl).
  rewrite (sh_bind_ret _ _ _ _ _ (lift_Some _ _ _ Eb)). by apply sh_bind_undef.
Qed.


(** ** The memory errors *)

Lemma cmd_words_blank sp name : Forall (.∈ blanks) sp → name ≠ [] → Forall (.∉ blanks) name → cmd_words (sp ++ name) = [name].
Proof.
  intros Hsp Hne Hn. induction Hsp as [|c sp Hc _ IH]; cbn [app].
  - rewrite /cmd_words. assert (pieces blanks name = [name]) as ->.
    { clear Hne. induction Hn as [|c name Hc _ IH]; [done|]. cbn [pieces]. by rewrite bool_decide_false // IH. }
    rewrite filter_cons_True //.
  - rewrite (cmd_words_step _ [] (Some (sp ++ name))); [by rewrite /= bool_decide_true|]. exact IH.
Qed.

(** The bytes of a name of a program. *)
Definition visible (c : Z) : Prop := isspace c = false ∧ c ∉ blanks ∧ c ≠ GT ∧ c ≠ 0.

Lemma parse_redirect_blank pre sp a t post : spaces sp → Forall visible (a :: t) →
  parse_redirect_dest (pre ++ sp ++ (a :: t) ++ 0 :: post) (length pre) = Some (pre ++ sp ++ (a :: t) ++ 0 :: post, (None, false)).
Proof.
  intros Hsp Hv. assert (0 ∉ a :: t ∧ GT ∉ a :: t) as [H0 Hg].
  { split; intros Hin; by destruct (proj1 (Forall_forall _ _) Hv _ Hin) as (?&?&?&?). }
  destruct (trim_text pre sp a t post (length pre) eq_refl Hsp) as (r&Et&x&Ex&Hx); [by apply Forall_cons in Hv as [[? _] _]|done|].
  assert (rstrip (a :: t) = a :: t) as Er.
  { destruct (exists_last (l := a :: t)) as (u&y&Ey); [done|]. apply (rstrip_id _ y); [by rewrite Ey last_snoc|].
    assert (y ∈ a :: t) as Hy by (rewrite Ey; set_solver). by destruct (proj1 (Forall_forall _ _) Hv _ Hy). }
  rewrite Er in Et, Ex. apply app_inj_1 in Ex as [_ [= ->]]; [|done].
  rewrite /parse_redirect_dest Et. cbn [mbind option_bind].
  rewrite app_assoc. cbn [app]. rewrite (rd_app (pre ++ sp)); [rewrite length_app; lia|]. cbn [mbind option_bind].
  rewrite (proj2 (Z.eqb_neq a GT)); [set_solver|]. rewrite (strchr_none _ (pre ++ sp) (a :: t)) //;
    [rewrite length_app; lia|rewrite !length_app /= !length_app /=; lia].
Qed.

(** (1) A command behind a blank. *)
Lemma blank_overflows pre sp name post s i d ds :
  (∀ n, junk n = None) → sp ≠ [] → Forall (.∈ blanks) sp → name ≠ [] → Forall visible name →
  length (sp ++ name) + 1 < 2 ^ 32 → name ∉ [str "exit"; str "cd"; str "path"] →
  forks (length (events s)) = true → access (os s) name = false →
  head (path_link s) = Some i → path_heap s !! i = Some (Node (d ++ 0 :: ds) None) → 0 ∉ d →
  exec_single_cmd junk access chdir forks reopens execs (pre ++ (sp ++ name) ++ 0 :: post) (length pre) s = SUndef.
Proof.
  intros Hj Hsp Hbl Hne Hv Hlen Hnb Hfork Hacc Hh Hi H0d.
  assert (spaces sp) as Hspc.
  { eapply Forall_impl; [exact Hbl|]. intros c Hc. rewrite /blanks !elem_of_cons elem_of_nil in Hc.
    by destruct Hc as [->|[->|[->|[->|[]]]]]. }
  assert (0 ∉ sp ++ name) as H0.
  { rewrite not_elem_of_app. split; intros Hin; [by apply (proj1 (Forall_forall _ _) Hspc) in Hin|].
    by destruct (proj1 (Forall_forall _ _) Hv _ Hin) as (?&?&?&?). }
  rewrite /exec_single_cmd. destruct name as [|a t]; [done|].
  rewrite (sh_bind_ret _ _ s (pre ++ (sp ++ a :: t) ++ 0 :: post, (None, false)) s).
  { apply lift_Some. rewrite -(app_assoc sp (a :: t)). by apply parse_redirect_blank. }
  destruct (parse_cmd_text junk Hj pre (sp ++ a :: t) post H0 Hlen) as (ptrs&E2&E3).
  rewrite (cmd_words_blank sp (a :: t) Hbl Hne) in E3;
    [eapply Forall_impl; [exact Hv|]; by intros ? (_&?&_)|].
  rewrite (sh_bind_ret _ _ s _ s (lift_Some _ _ s E2)) (sh_bind_ret _ _ s _ s (lift_Some _ _ s E3)).
  rewrite (sh_bind_ret _ _ s NOT_EXEC s).
  { rewrite /exec_built_in_cmd !bool_decide_false //; set_solver. }
  rewrite (sh_bind_ret get_sh _ s s s eq_refl) Hfork. apply sh_bind_undef. rewrite /run_child.
  rewrite (sh_bind_ret get_sh _ s s s eq_refl).
  rewrite (sh_bind_ret _ _ s [] s).
  { apply lift_Some. destruct sp as [|c sp]; [done|]. apply Forall_cons in Hbl as [Hc _].
    cbn [app cut_blanks fmap list_fmap]. rewrite bool_decide_true //. apply (cstr_at_text pre []); [done|set_solver]. }
  apply sh_bind_undef. assert (path_heap s ≠ []) as Hnil by (by intros E; rewrite E in Hi).
  destruct (path_heap s) as [|x h] eqn:Eh; [done|]. rewrite -Eh in Hi |- *.
  rewrite Hh (_ : length (path_heap s) = S (length h)); [by rewrite Eh|]. cbn [search]. rewrite Hacc Hi.
  cbn [mbind option_bind nvalue]. rewrite (cstr_at_text [] d ds 0) //. cbn [mbind option_bind].
  rewrite bool_decide_false //. rewrite !length_app /=. lia.
Qed.

(** (2) A directory with a slash at its end is stored without a NUL. *)
Lemma slash_unterminated d : path_block (d ++ [47]) = Some (d ++ [47]).
Proof.
  rewrite /path_block -app_assoc. cbn [app]. rewrite rd_app; [rewrite length_app /=; lia|]. cbn [mbind option_bind].
  change (47 =? 47) with true. cbv iota. f_equal. rewrite length_app /=.
  rewrite (_ : Z.to_nat _ = length (d ++ [47])); [rewrite length_app /=; lia|].
  rewrite (_ : d ++ [47; 0] = (d ++ [47]) ++ [0]); [by rewrite -app_assoc|]. by rewrite take_app_length.
Qed.

Lemma cstr_from_none fuel m p : 0 ∉ m → cstr_from fuel m p = None.
Proof.
  intros H0. revert p. induction fuel as [|fuel IH]; intros p; [done|]. cbn [cstr_from]. destruct (rd m p) as [c|] eqn:E; [|done].
  cbn [mbind option_bind]. rewrite (proj2 (Z.eqb_neq c 0)); [|by rewrite IH]. intros ->. apply H0.
  rewrite /rd in E. destruct (0 <=? p); [|done]. by eapply list_elem_of_lookup_2.
Qed.

Lemma slash_search fuel o h name line path i d nx :
  0 ∉ d → access o path = false → h !! i = Some (Node (d ++ [47]) nx) → search access fuel o h name line path (Some i) = None.
Proof.
  intros H0 Hacc Hi. destruct fuel; cbn [search]; rewrite Hacc //. rewrite Hi. cbn [mbind option_bind nvalue].
  rewrite /cstr_at cstr_from_none //. set_solver.
Qed.

(** (3) [trim] of a blank string at the start of a block. *)
Lemma cut_space_front fuel sp r (len : Z) : spaces sp → len ≤ 0 → cut_space fuel (sp ++ r) (length sp) len = None.
Proof.
  intros Hsp. revert len. induction fuel as [|fuel IH]; intros len Hl; [done|]. cbn [cut_space].
  destruct (rd (sp ++ r) (length sp + len - 1)) as [c|] eqn:E; [|done]. cbn [mbind option_bind].
  rewrite /rd in E. destruct (Z.leb_spec 0 (length sp + len - 1)); [|done].
  rewrite lookup_app_l in E; [lia|]. rewrite (Forall_lookup_1 _ _ _ _ Hsp E). apply IH. lia.
Qed.

Lemma trim_front sp post : spaces sp → trim (sp ++ 0 :: post) 0 = None.
Proof.
  intros Hsp. rewrite /trim (skip_space_text _ [] sp 0 post 0) //; [rewrite length_app; lia|]. cbn [mbind option_bind].
  rewrite Z.add_0_l (cstr_at_text sp [] post) //; [set_solver|]. cbn [mbind option_bind length]. by rewrite cut_space_front.
Qed.

End Spec.

(** ** Example *)

Definition zeroed : nat → option nat := λ _, None.
Definition all_fork : nat → bool := λ _, true.
Definition demo_access (o : list Z) (p : list Z) : bool := bool_decide (p = str "/bin/ls").
Definition demo_chdir (o : list Z) (d : option (list Z)) : option (list Z) := d.
Definition demo_reopens (o : list Z) (d : list Z) : bool := true.
Definition demo_execs (o : list Z) (p : list Z) (argv : list (list Z)) : bool := true.
Definition demo_script : list (list Z) :=
  [str "ls -l  > out&cat&exit now" ++ [nl]; str "cd tmp" ++ [nl]; str "path /usr/bin /bin" ++ [nl]; str "ls > a b" ++ [nl];
   str "exit" ++ [nl]; str "ls" ++ [nl]].

Ltac line_ok_tac :=
  split_and!; [done|by vm_compute; set_solver|by vm_compute|];
  vm_compute; repeat constructor; try (intros ? ? [=]; subst; vm_compute; done).

Lemma demo_script_ok : Forall (line_ok demo_access) demo_script.
Proof.
  repeat (apply Forall_cons; split); [line_ok_tac..|constructor].
  intros ? ? [= <- <-]. vm_compute. repeat constructor; by vm_compute.
Qed.


Definition bin_shell : shell := Sh (str "/") [Node (str "/bin" ++ [0]) None] (Link (Some 0%nat) (Some 0%nat) 1) [].

