(* ===== verification/Ulib.v ===== *)
(** * The C library of xv6 user programs: [src/Xv6-Syscall/src/ulib.c]

    Memory is a list of bytes and an address an index in it, as in [CString];
    an access outside of memory is undefined and gives [None].  [input] is what
    a file descriptor delivers: the bytes still to be read, and how many of
    them each [read] finds at most (a file delivers as many as it is asked
    for, a pipe or the console what is there). *)

From S2P Require Import Prelude CInt CString Stdio.

(** ** [read] *)

Record input := Input { unread : list Z; avail : list nat }.

Definition read (n : nat) (fd : input) : list Z * input :=
  let k := match avail fd with [] => n | a :: _ => Nat.min n (S a) end in
  (take k (unread fd), Input (drop k (unread fd)) (tail (avail fd))).

(** ** The routines *)

Fixpoint strcpy_loop (fuel : nat) (m : mem) (s t : nat) : option mem :=
  match fuel with
  | O => None
  | S fuel =>
      c ← m !! t;
      m ← store m s c;
      if c =? 0 then Some m else strcpy_loop fuel m (S s) (S t)
  end.
Definition strcpy (m : mem) (s t : nat) : option mem := strcpy_loop (S (length m)) m s t.

(** The strings from the pointers on. *)
Fixpoint strcmp (p q : list Z) : option Z :=
  match p, q with
  | a :: p, b :: q => if negb (a =? 0) && (a =? b) then strcmp p q else Some (u8 a - u8 b)
  | _, _ => None
  end.

Fixpoint strlen_loop (s : list Z) (n : Z) : option Z :=
  match s with
  | [] => None
  | a :: s => if a =? 0 then Some n else strlen_loop s (n + 1)
  end.
Definition strlen (s : list Z) : option Z := strlen_loop s 0.

Definition memset (m : mem) (dst : nat) (c : Z) (n : nat) : option mem := stosb m dst c n.

(** The first [c] in the string [l] at address [s]. *)
Fixpoint strchr_loop (l : list Z) (s : nat) (c : Z) : option (option nat) :=
  match l with
  | [] => None
  | a :: l => if a =? 0 then Some None else if a =? c then Some (Some s) else strchr_loop l (S s) c
  end.
Definition strchr (m : mem) (s : nat) (c : Z) : option (option nat) := strchr_loop (drop s m) s c.

(** [k] is [max - 1 - i]. *)
Fixpoint gets_loop (k : nat) (fd : input) (m : mem) (buf i : nat) : option (mem * nat * input) :=
  match k with
  | O => Some (m, i, fd)
  | S k =>
      match read 1 fd with
      | ([], fd) => Some (m, i, fd)
      | (c :: _, fd) =>
          m ← store m (buf + i) c;
          if (c =? 10) || (c =? 13) then Some (m, S i, fd) else gets_loop k fd m buf (S i)
      end
  end.
Definition gets (fd : input) (m : mem) (buf : nat) (max : Z) : option (mem * input) :=
  r ← gets_loop (Z.to_nat (max - 1)) fd m buf 0;
  let '(m, i, fd) := r in
  m ← store m (buf + i) 0;
  Some (m, fd).

Fixpoint atoi_loop (s : list Z) (n : Z) : option Z :=
  match s with
  | [] => None
  | c :: s => if (48 <=? s8 c) && (s8 c <=? 57) then atoi_loop s (s32 (n * 10 + s8 c - 48)) else Some n
  end.
Definition atoi (s : list Z) : option Z := atoi_loop s 0.

Fixpoint memmove (m : mem) (dst src : nat) (n : nat) : option mem :=
  match n with
  | O => Some m
  | S n => c ← m !! src; m ← store m dst c; memmove m (S dst) (S src) n
  end.

(** ** Facts *)

Lemma read_file n l : read n (Input l []) = (take n l, Input (drop n l) []).
Proof. done. Qed.

Lemma strlen_loop_text t k n : 0 ∉ t → strlen_loop (t ++ 0 :: k) n = Some (n + length t).
Proof.
  revert n. induction t as [|a t IH]; intros n Ht; simpl; [f_equal; lia|].
  apply not_elem_of_cons in Ht as [? ?]. destruct (Z.eqb_spec a 0); [congruence|]. rewrite IH //. f_equal. lia.
Qed.

Lemma strlen_text t k : 0 ∉ t → strlen (t ++ 0 :: k) = Some (Z.of_nat (length t)).
Proof. apply strlen_loop_text. Qed.

(** [strcmp] is 0 exactly on equal strings. *)
Lemma strcmp_same x y k l : Forall is_byte x → Forall is_byte y → 0 ∉ x → 0 ∉ y →
  ∃ r, strcmp (x ++ 0 :: k) (y ++ 0 :: l) = Some r ∧ (r = 0 ↔ x = y).
Proof.
  intros Hx. revert y. induction Hx as [|a x Ha Hx IH]; intros y Hy H0 H0'.
  - destruct y as [|b y]; simpl; [by eexists|]. apply not_elem_of_cons in H0' as [Hb _]. inversion Hy; subst.
    eexists. split; [done|]. rewrite u8_small // u8_small //. split; [lia|done].
  - apply not_elem_of_cons in H0 as [Ha0 H0]. simpl. destruct y as [|b y]; simpl.
    + eexists. rewrite andb_comm. destruct (Z.eqb_spec a 0); [done|]. simpl. split; [done|]. rewrite u8_small //. split; [|done].
      rewrite u8_small //. lia.
    + apply not_elem_of_cons in H0' as [Hb0 H0']. inversion Hy; subst. destruct (Z.eqb_spec a 0); [done|]. simpl.
      destruct (Z.eqb_spec a b) as [->|Hab].
      * destruct (IH y) as (r&->&Hr); [done..|]. eexists. split; [done|]. rewrite Hr. split; [by intros ->|by intros [= ->]].
      * eexists. split; [done|]. rewrite !u8_small //. split; [lia|]. by intros [= ->].
Qed.

Lemma strchr_loop_found t k s c : 0 ∉ t → c ∉ t → c ≠ 0 → strchr_loop (t ++ c :: k) s c = Some (Some (s + length t)%nat).
Proof.
  intros H0 Hc Hn. revert s. induction t as [|a t IH]; intros s; simpl.
  - destruct (Z.eqb_spec c 0); [done|]. rewrite Z.eqb_refl. do 2 f_equal. lia.
  - apply not_elem_of_cons in H0 as [? ?], Hc as [? ?].
    destruct (Z.eqb_spec a 0); [congruence|]. destruct (Z.eqb_spec a c); [congruence|]. rewrite IH //. do 2 f_equal. lia.
Qed.

Lemma strchr_loop_none t k s c : 0 ∉ t → c ∉ t → strchr_loop (t ++ 0 :: k) s c = Some None.
Proof.
  intros H0 Hc. revert s. induction t as [|a t IH]; intros s; simpl; [done|].
  apply not_elem_of_cons in H0 as [? ?], Hc as [? ?].
  destruct (Z.eqb_spec a 0); [congruence|]. destruct (Z.eqb_spec a c); [congruence|]. by apply IH.
Qed.

(** A copy to lower addresses is right also when the ranges overlap. *)
Lemma memmove_down pre mid post k n : Forall is_byte mid → n = length mid → (length k ≤ length pre)%nat →
  ∃ m, memmove (k ++ drop (length k) pre ++ mid ++ post) (length k) (length pre) n = Some m ∧
    take (length k + n) m = k ++ mid ∧ length m = (length pre + length mid + length post)%nat.
Proof.
  intros Hb ->. revert pre k. induction Hb as [|c mid Hc Hb IH]; intros pre k Hk; simpl.
  - eexists. split; [done|]. rewrite Nat.add_0_r !app_nil_r take_app_length. split; [done|]. rewrite !length_app length_drop. lia.
  - rewrite lookup_app_r; [lia|]. rewrite lookup_app_r length_drop; [lia|].
    replace (_ - _ - _)%nat with 0%nat by lia. simpl. rewrite store_Some; [rewrite !length_app length_drop /=; lia|]. simpl.
    rewrite u8_small // insert_app_r_alt // Nat.sub_diag.
    specialize (IH (pre ++ [c]) (k ++ [c])). rewrite !length_app /= in IH.
    destruct IH as (m&Em&Ht&Hl); [lia|].
    assert (<[0%nat := c]> (drop (length k) pre ++ c :: mid ++ post) =
      c :: drop (length k + 1) (pre ++ [c]) ++ mid ++ post) as ->.
    { destruct (decide (length k = length pre)) as [E|E].
      - rewrite E !drop_ge ?length_app /=; [lia|lia|]. done.
      - destruct (drop (length k) pre) as [|b r] eqn:Ed.
        + apply (f_equal length) in Ed. rewrite length_drop /= in Ed. lia.
        + simpl. f_equal. rewrite drop_app_le; [lia|].
          rewrite -drop_drop Ed /= drop_0 -app_assoc //. }
    replace (S (length k)) with (length k + 1)%nat by lia. replace (S (length pre)) with (length pre + 1)%nat by lia.
    rewrite -app_assoc /= in Em. rewrite Em. eexists. split; [done|]. rewrite -app_assoc /= in Ht.
    replace (length k + S (length mid))%nat with (length k + 1 + length mid)%nat by lia. split; [done|]. lia.
Qed.
