(* ===== verification/Grep.v ===== *)
(** * grep of xv6: [src/Xv6-Syscall/src/grep.c]

    The matcher reads the pattern and the text as NUL-terminated strings; a
    read behind the NUL would be undefined and is [None].  [lang] is the
    language of a pattern; the matcher is equivalent to it, and [grep] prints
    exactly the matching lines of a file whose lines fit its buffer. *)

From S2P Require Import Prelude CInt CString Stdio Ulib.

(** ** The matcher *)

(** The loop of [matchstar]; [here] is [matchhere] on the rest of the pattern. *)
Fixpoint matchstar (here : list Z → option bool) (c : Z) (text : list Z) : option bool :=
  match here text with
  | Some false =>
      match text with
      | [] => None
      | t :: text => if negb (t =? 0) && ((t =? c) || (c =? 46)) then matchstar here c text else Some false
      end
  | o => o
  end.

Fixpoint matchhere (re text : list Z) : option bool :=
  match re with
  | [] => None
  | r0 :: re1 =>
      if r0 =? 0 then Some true else
      match re1 with
      | [] => None
      | r1 :: re2 =>
          if r1 =? 42 then matchstar (matchhere re2) r0 text else
          match text with
          | [] => None
          | t :: text =>
              if (r0 =? 36) && (r1 =? 0) then Some (t =? 0) else
              if negb (t =? 0) && ((r0 =? 46) || (r0 =? t)) then matchhere re1 text else Some false
          end
      end
  end.

(** The loop of [match]. *)
Fixpoint match_from (re text : list Z) : option bool :=
  match matchhere re text with
  | Some false =>
      match text with
      | [] => None
      | t :: text => if t =? 0 then Some false else match_from re text
      end
  | o => o
  end.

Definition match_ (re text : list Z) : option bool :=
  r0 ← re !! 0%nat;
  if r0 =? 94 then matchhere (drop 1 re) text else match_from re text.

(** ** The language of a pattern *)

Inductive item := One (c : Z) | Star (c : Z).

(** The items of a pattern, and whether it ends with the anchor [$].  A star
    belongs to the character in front of it, whatever that is; a star without
    one is an ordinary character. *)
Fixpoint items (re : list Z) : list item * bool :=
  match re with
  | [] => ([], false)
  | r0 :: re1 =>
      match re1 with
      | [] => if r0 =? 36 then ([], true) else ([One r0], false)
      | r1 :: re2 =>
          if r1 =? 42 then let '(l, e) := items re2 in (Star r0 :: l, e)
          else let '(l, e) := items re1 in (One r0 :: l, e)
      end
  end.

Definition accepts_char (c a : Z) : Prop := c = 46 ∨ a = c.

Fixpoint lang (l : list item) (s : list Z) : Prop :=
  match l with
  | [] => s = []
  | One c :: l => ∃ a s', s = a :: s' ∧ accepts_char c a ∧ lang l s'
  | Star c :: l => ∃ x y, s = x ++ y ∧ Forall (accepts_char c) x ∧ lang l y
  end.

(** A match at the beginning of the text. *)
Definition prefix_match (re text : list Z) : Prop :=
  ∃ mid post, text = mid ++ post ∧ lang (items re).1 mid ∧ ((items re).2 = true → post = []).

(** The text has a match of the pattern. *)
Definition matches (re text : list Z) : Prop :=
  match re with
  | 94 :: re => prefix_match re text
  | _ => ∃ pre rest, text = pre ++ rest ∧ prefix_match re rest
  end.

(** ** The matcher decides the language *)

Definition decides (o : option bool) (P : Prop) : Prop := ∃ b, o = Some b ∧ (b = true ↔ P).

Lemma decides_iff o (P Q : Prop) : decides o P → (P ↔ Q) → decides o Q.
Proof. intros (b&?&?) HPQ. exists b. by rewrite -HPQ. Qed.

Lemma accepts_charb c t : (t =? c) || (c =? 46) = true ↔ accepts_char c t.
Proof. rewrite orb_true_iff !Z.eqb_eq /accepts_char. tauto. Qed.

Lemma matchstar_ok here c text (P : list Z → Prop) : 0 ∉ text →
  (∀ t, t `suffix_of` text → decides (here (t ++ [0])) (P t)) →
  decides (matchstar here c (text ++ [0])) (∃ x y, text = x ++ y ∧ Forall (accepts_char c) x ∧ P y).
Proof.
  intros H0 Hh. induction text as [|a text IH].
  - destruct (Hh [] ltac:(done)) as (b&E&Hb). simpl in *. rewrite E /=. destruct b.
    + exists true. split; [done|]. split; [|done]. intros _. exists [], []. split; [done|]. split; [constructor|]. by apply Hb.
    + exists false. split; [done|]. split; [done|]. intros (x&y&Exy&_&Hy).
      symmetry in Exy. apply app_eq_nil in Exy as [-> ->]. by apply Hb.
  - apply not_elem_of_cons in H0 as [Ha H0]. destruct (Hh (a :: text) ltac:(done)) as (b&E&Hb).
    assert (decides (matchstar here c (text ++ [0])) (∃ x y, text = x ++ y ∧ Forall (accepts_char c) x ∧ P y)) as IH'.
    { apply IH; [done|]. intros t Ht. apply Hh. by apply suffix_cons_r. }
    cbn [matchstar app] in *. rewrite E /=. destruct b.
    { exists true. split; [done|]. split; [|done]. intros _. exists [], (a :: text). split; [done|]. split; [constructor|]. by apply Hb. }
    destruct (Z.eqb_spec a 0); [congruence|]. cbn [negb andb].
    destruct ((a =? c) || (c =? 46)) eqn:Ea.
    + apply accepts_charb in Ea. apply (decides_iff _ _ _ IH'). split.
      * intros (x&y&->&Hx&Hy). exists (a :: x), y. split; [done|]. split; [by constructor|done].
      * intros ([|a' x]&y&Exy&Hx&Hy); simplify_eq/=; [by apply Hb in Hy|]. inversion Hx; subst. eauto.
    + exists false. split; [done|]. split; [done|]. intros ([|a' x]&y&Exy&Hx&Hy); simplify_eq/=; [by apply Hb|].
      inversion Hx as [|?? Hc]; subst. apply accepts_charb in Hc. congruence.
Qed.

Lemma prefix_match_nil text : prefix_match [] text.
Proof. exists [], text. done. Qed.

Lemma prefix_match_star c re text :
  prefix_match (c :: 42 :: re) text ↔ ∃ x y, text = x ++ y ∧ Forall (accepts_char c) x ∧ prefix_match re y.
Proof.
  rewrite /prefix_match. cbn [items]. rewrite Z.eqb_refl. destruct (items re) as [l e]; simpl. split.
  - intros (?&post&->&(x&y&->&Hx&Hy)&He). exists x, (y ++ post). rewrite app_assoc. split; [done|]. split; [done|]. by exists y, post.
  - intros (x&?&->&Hx&y&post&->&Hy&He). exists (x ++ y), post. rewrite app_assoc. split; [done|]. split; [|done]. by exists x, y.
Qed.

Lemma prefix_match_end text : prefix_match [36] text ↔ text = [].
Proof.
  rewrite /prefix_match /=. split; [|intros ->; by exists [], []]. intros (mid&post&->&->&He). by rewrite He.
Qed.

Lemma prefix_match_one c re text : re !! 0%nat ≠ Some 42 → (c = 36 → re ≠ []) →
  prefix_match (c :: re) text ↔ ∃ a t, text = a :: t ∧ accepts_char c a ∧ prefix_match re t.
Proof.
  intros H42 H36. rewrite /prefix_match.
  assert (items (c :: re) = (One c :: (items re).1, (items re).2)) as ->.
  { cbn [items]. destruct re as [|r1 re]; [destruct (Z.eqb_spec c 36); [by destruct H36|done]|].
    destruct (Z.eqb_spec r1 42); [by subst|]. by destruct (items (r1 :: re)). }
  cbn [lang fst snd]. split.
  - intros (?&post&->&(a&s&->&Ha&Hs)&He). exists a, (s ++ post). split; [done|]. split; [done|]. by exists s, post.
  - intros (a&?&->&Ha&s&post&->&Hs&He). exists (a :: s), post. split; [done|]. split; [|done]. by exists a, s.
Qed.

Lemma decides_false (P : Prop) : ¬ P → decides (Some false) P.
Proof. exists false. by split. Qed.

Lemma matchhere_step r0 r1 re t text : r0 ≠ 0 → r1 ≠ 42 →
  matchhere (r0 :: r1 :: re) (t :: text) =
    if (r0 =? 36) && (r1 =? 0) then Some (t =? 0) else
    if negb (t =? 0) && ((r0 =? 46) || (r0 =? t)) then matchhere (r1 :: re) text else Some false.
Proof. intros H0 H1. cbn [matchhere]. rewrite (proj2 (Z.eqb_neq _ _) H0) (proj2 (Z.eqb_neq _ _) H1) //. Qed.

Lemma matchhere_char c re text : 0 ∉ text → 0 ∉ re →
  (∀ t, 0 ∉ t → decides (matchhere (re ++ [0]) (t ++ [0])) (prefix_match re t)) →
  re !! 0%nat ≠ Some 42 → (c = 36 → re ≠ []) → c ≠ 0 →
  decides (matchhere (c :: re ++ [0]) (text ++ [0])) (prefix_match (c :: re) text).
Proof.
  intros H0 Hre IH H42 H36 Hc. destruct (re ++ [0]) as [|r1 re2] eqn:Ere; [by destruct re|].
  assert (r1 ≠ 42) as E1 by (destruct re; naive_solver).
  assert ((c =? 36) && (r1 =? 0) = true → False) as E2.
  { intros E. breflect. subst. destruct re as [|r re]; [by apply H36|]. simpl in Ere. simplify_eq. set_solver. }
  apply (decides_iff _ (∃ a t, text = a :: t ∧ accepts_char c a ∧ prefix_match re t)); [|symmetry; by apply prefix_match_one].
  destruct text as [|t text]; cbn [app]; rewrite matchhere_step //; destruct ((c =? 36) && (r1 =? 0)); [by destruct E2| |by destruct E2|].
  { apply decides_false; by intros (?&?&?&?). }
  apply not_elem_of_cons in H0 as [Ht H0]. destruct (Z.eqb_spec t 0); [congruence|]. cbn [negb andb].
  destruct ((c =? 46) || (c =? t)) eqn:Ec.
  - apply (decides_iff _ _ _ (IH text H0)). split.
    + intros Hp. exists t, text. split; [done|]. split; [|done]. rewrite orb_true_iff !Z.eqb_eq in Ec. rewrite /accepts_char. naive_solver.
    + by intros (?&?&[= <- <-]&_&?).
  - apply decides_false. intros (?&?&[= <- <-]&[->| ->]&_); [done|]. by rewrite Z.eqb_refl orb_true_r in Ec.
Qed.

Lemma matchhere_ok n re text : (length re < n)%nat → 0 ∉ re → 0 ∉ text →
  decides (matchhere (re ++ [0]) (text ++ [0])) (prefix_match re text).
Proof.
  revert re text. induction n as [|n IH]; intros re text Hn Hre H0; [lia|].
  destruct re as [|c re]; [exists true; split; [done|]; split; [intros _; apply prefix_match_nil|done]|].
  apply not_elem_of_cons in Hre as [Hc Hre]. simpl in Hn.
  destruct (decide (re !! 0%nat = Some 42)) as [E|E].
  - destruct re as [|r re]; simplify_eq/=. apply not_elem_of_cons in Hre as [_ Hre]. destruct (Z.eqb_spec c 0); [congruence|].
    apply (decides_iff _ (∃ x y, text = x ++ y ∧ Forall (accepts_char c) x ∧ prefix_match re y)); [|by rewrite prefix_match_star].
    apply matchstar_ok; [done|]. intros t [k ->]. apply IH; [lia|done|]. set_solver.
  - destruct (decide (c = 36 ∧ re = [])) as [[-> ->]|Hne].
    + apply (decides_iff _ (text = [])); [|by rewrite prefix_match_end]. simpl. destruct text as [|t text]; simpl.
      * by exists true.
      * apply not_elem_of_cons in H0 as [Ht _]. exists false. destruct (Z.eqb_spec t 0); [congruence|done].
    + apply matchhere_char; [done|done| |done|naive_solver|congruence]. intros t Ht. apply IH; [lia|done..].
Qed.

Lemma match_from_ok re text : 0 ∉ re → 0 ∉ text →
  decides (match_from (re ++ [0]) (text ++ [0])) (∃ pre rest, text = pre ++ rest ∧ prefix_match re rest).
Proof.
  intros Hre. induction text as [|a text IH]; intros H0.
  - destruct (matchhere_ok (S (length re)) re [] ltac:(lia) Hre H0) as (b&E&Hb). simpl in *. rewrite E. exists b. split; [by destruct b|].
    rewrite Hb. split; [by exists [], []|]. intros (?&?&Ex&?). symmetry in Ex. by apply app_eq_nil in Ex as [-> ->].
  - destruct (matchhere_ok (S (length re)) re (a :: text) ltac:(lia) Hre H0) as (b&E&Hb).
    apply not_elem_of_cons in H0 as [Ha H0]. cbn [match_from app] in *. rewrite E. simpl. destruct b.
    { exists true. split; [done|]. split; [|done]. intros _. exists [], (a :: text). split; [done|]. by apply Hb. }
    destruct (Z.eqb_spec a 0); [congruence|]. apply (decides_iff _ _ _ (IH H0)). split.
    + intros (pre&rest&->&?). by exists (a :: pre), rest.
    + intros ([|a' pre]&rest&Ex&Hp); simplify_eq/=; [by apply Hb in Hp|eauto].
Qed.

Lemma match_ok re text : 0 ∉ re → 0 ∉ text → decides (match_ (re ++ [0]) (text ++ [0])) (matches re text).
Proof.
  intros Hre Ht. rewrite /match_ /matches. destruct re as [|r re]; [by apply (match_from_ok [] text)|]. simpl.
  destruct (Z.eqb_spec r 94) as [->|Hr].
  - rewrite drop_0. apply (matchhere_ok (S (length re))); [lia|set_solver|done].
  - apply (decides_iff _ (∃ pre rest, text = pre ++ rest ∧ prefix_match (r :: re) rest)); [by apply (match_from_ok (r :: re))|].
    destruct r as [|p|p]; try done. do 7 (destruct p as [p|p|]; try done).
Qed.

(** ** The matcher does not look behind the NUL *)

Lemma matchstar_ext here c t k b : (∀ t b, here t = Some b → here (t ++ k) = Some b) →
  matchstar here c t = Some b → matchstar here c (t ++ k) = Some b.
Proof.
  intros Hh. induction t as [|a t IH]; cbn [matchstar app]; intros E.
  - destruct (here []) as [[]|] eqn:Eh; try done. simplify_eq. apply Hh in Eh. destruct k; simpl in *; by rewrite Eh.
  - destruct (here (a :: t)) as [[]|] eqn:Eh; try done; apply Hh in Eh; cbn [app] in Eh; rewrite Eh //.
    destruct (negb (a =? 0) && _); [by apply IH|done].
Qed.

Lemma matchhere_ext n re t k b : (length re < n)%nat → matchhere re t = Some b → matchhere re (t ++ k) = Some b.
Proof.
  revert re t b. induction n as [|n IH]; intros re t b Hn; [lia|]. destruct re as [|r0 [|r1 re]]; simpl in Hn; try done.
  destruct (Z.eqb_spec r0 0) as [->|H0]; [done|]. destruct (Z.eqb_spec r1 42) as [->|H1].
  - cbn [matchhere]. rewrite (proj2 (Z.eqb_neq _ _) H0) Z.eqb_refl. apply matchstar_ext. intros. by apply IH; [lia|].
  - destruct t as [|a t]; [cbn [matchhere]; rewrite (proj2 (Z.eqb_neq _ _) H0) (proj2 (Z.eqb_neq _ _) H1) //|].
    cbn [app]. rewrite !matchhere_step //. destruct ((r0 =? 36) && _); [done|]. destruct (negb (a =? 0) && _); [|done].
    apply IH. simpl. lia.
Qed.

Lemma match_from_ext re t k b : match_from re t = Some b → match_from re (t ++ k) = Some b.
Proof.
  induction t as [|a t IH]; cbn [match_from app]; intros E.
  - destruct (matchhere re []) as [[]|] eqn:Eh; try done. simplify_eq. apply (matchhere_ext _ _ _ k _ (Nat.lt_succ_diag_r _)) in Eh.
    destruct k; simpl in *; by rewrite Eh.
  - destruct (matchhere re (a :: t)) as [[]|] eqn:Eh; try done;
      apply (matchhere_ext _ _ _ k _ (Nat.lt_succ_diag_r _)) in Eh; cbn [app] in Eh; rewrite Eh //.
    destruct (a =? 0); [done|by apply IH].
Qed.

Lemma match_text re text k : 0 ∉ re → 0 ∉ text → decides (match_ (re ++ [0]) (text ++ 0 :: k)) (matches re text).
Proof.
  intros Hre Ht. destruct (match_ok re text Hre Ht) as (b&E&Hb). exists b. split; [|done].
  replace (text ++ 0 :: k) with ((text ++ [0]) ++ k) by rewrite -app_assoc //.
  revert E. rewrite /match_. destruct (_ !! 0%nat) as [r|]; [|done]. simpl.
  destruct (r =? 94); [by apply (matchhere_ext _ _ _ k _ (Nat.lt_succ_diag_r _))|apply match_from_ext].
Qed.

(** C14: The matcher of grep terminates and decides the language of the pattern:
    [match] answers 1 exactly if a piece of the text, from its beginning if the
    pattern starts with [^] and up to its end if the pattern ends with [$], is a
    word of the pattern's characters, dots and starred characters; it never
    reads behind the NUL of the pattern or of the text. *)
Theorem match_regexp re text : 0 ∉ re → 0 ∉ text → decides (match_ (re ++ [0]) (text ++ [0])) (matches re text).
Proof. apply match_ok. Qed.

Lemma match_regexp_witness :
  decides (match_ (str "b.*d$" ++ [0]) (str "abcdd" ++ [0])) (matches (str "b.*d$") (str "abcdd")) ∧
  match_ (str "b.*d$" ++ [0]) (str "abcdd" ++ [0]) = Some true ∧ match_ (str "^b" ++ [0]) (str "abcdd" ++ [0]) = Some false.
Proof. split; [|done]. apply match_regexp; by vm_compute; set_solver. Defined.
