(* ===== verification/GrepFile.v ===== *)
(** * grep of xv6: the loop over a file and [main]

    [grep] reads into a buffer of 1024 bytes, prints the matching ones of the
    complete lines there, and moves the incomplete last line to the front.
    Memory is a list of bytes; the global buffer [buf] keeps its contents from
    one file to the next. *)

From S2P Require Import Prelude CInt CString Stdio Ulib Grep.

Definition BUFSZ : nat := 1024.

(** The loop over the complete lines in the buffer; [out] is what was printed. *)
Fixpoint grep_lines (fuel : nat) (pattern : list Z) (buf : mem) (p : nat) (out : list Z) : option (mem * nat * list Z) :=
  match fuel with
  | O => None
  | S fuel =>
      q ← strchr buf p nl;
      match q with
      | None => Some (buf, p, out)
      | Some q =>
          buf ← store buf q 0;
          b ← match_ pattern (drop p buf);
          if (b : bool) then
            buf ← store buf q nl;
            grep_lines fuel pattern buf (q + 1) (out ++ slice p (q + 1 - p) buf)
          else grep_lines fuel pattern buf (q + 1) out
      end
  end.

(** [read] into the buffer: the bytes must fit. *)
Definition fill (buf : mem) (m : nat) (x : list Z) : option mem :=
  if bool_decide (m + length x ≤ length buf)%nat then Some (blit m x buf) else None.

Fixpoint grep_loop (fuel : nat) (pattern : list Z) (fd : input) (buf : mem) (m : nat) (out : list Z) : option (mem * list Z) :=
  match fuel with
  | O => None
  | S fuel =>
      let '(x, fd) := read (BUFSZ - m - 1) fd in
      if bool_decide (x = []) then Some (buf, out) else
      buf ← fill buf m x;
      let m := (m + length x)%nat in
      buf ← store buf m 0;
      r ← grep_lines (S m) pattern buf 0 out;
      let '(buf, p, out) := (r : mem * nat * list Z) in
      let m := if bool_decide (p = 0%nat) then 0%nat else m in
      if bool_decide (0 < m)%nat then
        buf ← memmove buf 0 p (m - p);
        grep_loop fuel pattern fd buf (m - p) out
      else grep_loop fuel pattern fd buf m out
  end.

Definition grep (pattern : list Z) (fd : input) (buf : mem) (out : list Z) : option (mem * list Z) :=
  grep_loop (S (length (unread fd))) pattern fd buf 0 out.

(** ** [main]

    [open] gives what the descriptor of an opened file delivers.  The result is
    what was written to the standard output and to the standard error. *)

Section Main.
Context (open : list Z → option input).

Fixpoint grep_files (pattern : list Z) (files : list (list Z)) (buf : mem) (out : list Z) : option (list Z) :=
  match files with
  | [] => Some out
  | f :: files =>
      match open f with
      | None => Some (out ++ str "grep: cannot open " ++ f ++ [nl])
      | Some fd =>
          r ← grep pattern fd buf out;
          let '(buf, out) := (r : mem * list Z) in
          grep_files pattern files buf out
      end
  end.

Definition main (argv : list (list Z)) (stdin : input) : option (list Z * list Z) :=
  let buf := replicate BUFSZ 0 in
  match argv with
  | [] | [_] => Some ([], str "usage: grep pattern [file ...]" ++ [nl])
  | [_; pattern] => r ← grep (pattern ++ [0]) stdin buf []; Some (snd (r : mem * list Z), [])
  | _ :: pattern :: files => out ← grep_files (pattern ++ [0]) files buf []; Some (out, [])
  end.
End Main.

(** ** Lines *)

Definition text_of (ls : list (list Z)) (tail : list Z) : list Z := concat ((λ l, l ++ [nl]) <$> ls) ++ tail.

(** A piece of text without NUL and newline. *)
Definition plain (l : list Z) : Prop := 0 ∉ l ∧ nl ∉ l.

(** The characters of a text: bytes other than NUL. *)
Definition chars (l : list Z) : Prop := Forall (λ c, is_byte c ∧ c ≠ 0) l.

(** The lines of a text and what follows the last newline. *)
Fixpoint split_lines (l : list Z) : list (list Z) * list Z :=
  match l with
  | [] => ([], [])
  | c :: l =>
      let '(ls, t) := split_lines l in
      if c =? nl then ([] :: ls, t)
      else match ls with [] => ([], c :: t) | l :: ls => ((c :: l) :: ls, t) end
  end.

(** The lines grep sees: those that a read completes.  The rest of the text
    read so far is kept for the next read only if there was a newline in it;
    otherwise, as for a line that does not fit or of which a short read
    returned a part, it is dropped. *)
Fixpoint seen (fuel : nat) (carry : list Z) (fd : input) : list (list Z) :=
  match fuel with
  | O => []
  | S fuel =>
      let '(x, fd) := read (BUFSZ - length carry - 1) fd in
      if bool_decide (x = []) then [] else
      let '(ls, part) := split_lines (carry ++ x) in
      ls ++ seen fuel (if bool_decide (ls = []) then [] else part) fd
  end.

Definition lines_seen (fd : input) : list (list Z) := seen (S (length (unread fd))) [] fd.

(** [out] is the matching lines of [ls], in order. *)
Fixpoint selects (re : list Z) (ls : list (list Z)) (out : list Z) : Prop :=
  match ls with
  | [] => out = []
  | l :: ls => ∃ o, selects re ls o ∧ (matches re l ∧ out = l ++ nl :: o ∨ ¬ matches re l ∧ out = o)
  end.

Lemma selects_app re l1 l2 o1 o2 : selects re l1 o1 → selects re l2 o2 → selects re (l1 ++ l2) (o1 ++ o2).
Proof.
  revert o1. induction l1 as [|l l1 IH]; simpl; intros o1; [by intros ->|].
  intros (o&Ho&Hs) H2. exists (o ++ o2). split; [by apply IH|]. destruct Hs as [[? ->]|[? ->]]; [left|by right].
  split; [done|]. by rewrite -app_assoc.
Qed.

Lemma text_of_cons l ls tail : text_of (l :: ls) tail = l ++ nl :: text_of ls tail.
Proof. rewrite /text_of /= -!app_assoc //. Qed.

Lemma text_of_app l1 l2 tail : text_of (l1 ++ l2) tail = text_of l1 (text_of l2 tail).
Proof. rewrite /text_of fmap_app concat_app -app_assoc //. Qed.

Lemma text_of_length l1 tail : length (text_of l1 tail) = (length (text_of l1 []) + length tail)%nat.
Proof. by rewrite /text_of app_nil_r length_app. Qed.

Lemma split_text l ls t : split_lines l = (ls, t) → l = text_of ls t ∧ nl ∉ t ∧ Forall (λ l, nl ∉ l) ls.
Proof.
  revert ls t. induction l as [|c l IH]; cbn [split_lines]; intros ls t.
  - intros [= <- <-]. split; [done|]. split; [set_solver|constructor].
  - destruct (split_lines l) as [ls' t']. destruct (IH ls' t' eq_refl) as (->&Ht&Hls).
    destruct (Z.eqb_spec c nl) as [->|Hc].
    + intros [= <- <-]. split; [done|]. split; [done|]. constructor; [set_solver|done].
    + destruct ls' as [|l' ls']; intros [= <- <-].
      * rewrite /text_of /=. split; [done|]. split; [set_solver|constructor].
      * rewrite !text_of_cons. split; [done|]. split; [done|]. inversion Hls; subst. constructor; [set_solver|done].
Qed.

Lemma split_plain ls t : Forall (λ l, nl ∉ l) ls → nl ∉ t → split_lines (text_of ls t) = (ls, t).
Proof.
  assert (∀ l r ls t, nl ∉ l → split_lines r = (ls, t) → split_lines (l ++ nl :: r) = (l :: ls, t)) as Happ.
  { intros l r ls' t' Hl Hr. induction l as [|c l IH]; cbn [app split_lines]; [by rewrite Hr|].
    apply not_elem_of_cons in Hl as [Hc Hl]. rewrite IH // (proj2 (Z.eqb_neq c nl)) //. }
  intros Hls Ht. induction Hls as [|l ls Hl _ IH]; [|rewrite text_of_cons; by apply Happ].
  rewrite /text_of /=. clear Happ. induction t as [|c t IHt]; [done|]. apply not_elem_of_cons in Ht as [Hc Ht].
  cbn [split_lines]. rewrite IHt // (proj2 (Z.eqb_neq c nl)) //.
Qed.

Lemma chars_no0 l : chars l → 0 ∉ l.
Proof. intros Hl Hin. by destruct (proj1 (Forall_forall _ _) Hl 0 Hin). Qed.

Lemma chars_bytes l : chars l → Forall is_byte l.
Proof. intros Hl. eapply Forall_impl; [exact Hl|]. by intros ? [? _]. Qed.

Lemma text_of_chars ls t : chars (text_of ls t) → Forall chars ls ∧ chars t.
Proof.
  induction ls as [|l ls IH]; [by split|]. rewrite text_of_cons /chars Forall_app Forall_cons. intros (?&_&?).
  destruct IH as [??]; [done|]. split; [by constructor|done].
Qed.

Lemma text_of_lines ls : (length ls ≤ length (text_of ls []))%nat.
Proof. induction ls as [|l ls IH]; [done|]. rewrite text_of_cons length_app /=. lia. Qed.

Lemma not_elem_take (a : Z) k l : a ∉ l → a ∉ take k l.
Proof. intros H Hin. apply H. rewrite -(take_drop k l). set_solver. Qed.

(** The complete lines among the first [k] bytes of a text. *)
Lemma text_take ls tail k : Forall plain ls → nl ∉ tail →
  ∃ l1 l2 part, ls = l1 ++ l2 ∧ take k (text_of ls tail) = text_of l1 part ∧ part ++ drop k (text_of ls tail) = text_of l2 tail ∧
    nl ∉ part ∧ (l1 = [] → ∀ l l', ls = l :: l' → (k ≤ length l)%nat).
Proof.
  intros Hls Ht. revert k. induction Hls as [|l ls Hl Hls IH]; intros k.
  - exists [], [], (take k tail). rewrite /text_of /= take_drop. split_and!; try done.
    by apply not_elem_take.
  - destruct (decide (k ≤ length l)%nat) as [Hk|Hk].
    + exists [], (l :: ls), (take k l). rewrite text_of_cons take_app_le // drop_app_le // app_assoc take_drop.
      split_and!; try done; [|by intros _ ?? [= <- _]]. destruct Hl as (_&Hl). by apply not_elem_take.
    + destruct (IH (k - length l - 1)%nat) as (l1&l2&part&->&E1&E2&Hp&_).
      exists (l :: l1), l2, part. rewrite !text_of_cons. split_and!; try done.
      * rewrite take_app_ge; [lia|]. replace (k - length l)%nat with (S (k - length l - 1)) by lia. by rewrite /= E1.
      * rewrite drop_app_ge; [lia|]. replace (k - length l)%nat with (S (k - length l - 1)) by lia. by rewrite /= E2.
Qed.

(** ** The loops *)

Lemma store_app pre c rest v : is_byte v → store (pre ++ c :: rest) (length pre) v = Some (pre ++ v :: rest).
Proof.
  intros Hv. rewrite store_Some; [rewrite length_app /=; lia|]. rewrite u8_small // insert_app_r_alt // Nat.sub_diag //.
Qed.

Lemma grep_lines_ok re ls part junk pre out fuel :
  0 ∉ re → Forall plain ls → 0 ∉ part → nl ∉ part → (length ls < fuel)%nat →
  ∃ pre' o, grep_lines fuel (re ++ [0]) (pre ++ text_of ls part ++ 0 :: junk) (length pre) out =
      Some (pre' ++ part ++ 0 :: junk, length pre', out ++ o) ∧
    length pre' = (length pre + length (text_of ls []))%nat ∧ selects re ls o.
Proof.
  intros Hre Hls H0 Hn. revert pre out fuel. induction Hls as [|l ls (Hl0&Hln) _ IH]; intros pre out [|fuel] Hf; simpl in Hf; try lia.
  - exists pre, []. cbn [grep_lines]. rewrite /strchr drop_app_length /text_of /= strchr_loop_none //= app_nil_r. split; [done|].
    split; [lia|done].
  - assert (length (text_of (l :: ls) []) = S (length l + length (text_of ls []))) as Hlc by (rewrite text_of_cons length_app /=; lia).
    rewrite Hlc. clear Hlc. cbn [grep_lines]. rewrite text_of_cons -app_assoc /= /strchr drop_app_length strchr_loop_found //=.
    rewrite app_assoc -length_app store_app //= -app_assoc drop_app_length.
    destruct (match_text re l (text_of ls part ++ 0 :: junk) Hre Hl0) as (b&Eb&Hb). rewrite Eb. simpl.
    destruct b.
    + rewrite app_assoc store_app //=. rewrite (_ : slice _ _ _ = l ++ [nl]).
      { rewrite /slice -app_assoc drop_app_length length_app.
        replace (length pre + length l + 1 - length pre)%nat with (length (l ++ [nl])) by (rewrite length_app /=; lia).
        rewrite (_ : l ++ nl :: text_of ls part ++ 0 :: junk = (l ++ [nl]) ++ text_of ls part ++ 0 :: junk) ?take_app_length // -app_assoc //. }
      destruct (IH ((pre ++ l) ++ [nl]) (out ++ l ++ [nl]) fuel) as (pre'&o&E&Hlen&Ho); [lia|].
      exists pre', (l ++ nl :: o). rewrite -!app_assoc !length_app /= -?app_assoc in E Hlen |- *. rewrite -Nat.add_assoc E.
      split; [done|]. split; [|exists o; split; [done|]; left; split; [by apply Hb|done]].
      lia.
    + destruct (IH ((pre ++ l) ++ [0]) out fuel) as (pre'&o&E&Hlen&Ho); [lia|].
      exists pre', o. rewrite -!app_assoc !length_app /= in E Hlen |- *. rewrite -Nat.add_assoc E.
      split; [done|]. split; [|exists o; split; [done|]; right; split; [|done]; by rewrite -Hb].
      lia.
Qed.

Lemma filled buf carry x : length buf = BUFSZ → take (length carry) buf = carry → (length carry + length x < BUFSZ)%nat →
  ∃ junk, (fill buf (length carry) x ≫= λ buf, store buf (length carry + length x) 0) = Some (carry ++ x ++ 0 :: junk) ∧
    length (carry ++ x ++ 0 :: junk) = BUFSZ.
Proof.
  intros Hl Hc Hx. rewrite /fill bool_decide_eq_true_2; [lia|]. simpl.
  assert (blit (length carry) x buf = carry ++ x ++ drop (length carry + length x) buf) as Hb by rewrite /blit Hc //.
  rewrite Hb. destruct (drop (length carry + length x) buf) as [|c junk] eqn:E.
  { apply (f_equal length) in E. rewrite length_drop /= in E. lia. }
  exists junk. rewrite app_assoc -length_app store_app // -app_assoc. split; [done|].
  apply (f_equal length) in E. rewrite length_drop /= in E. rewrite !length_app /=. lia.
Qed.

Lemma read_take n fd : (1 ≤ n)%nat → ∃ k fd', read n fd = (take k (unread fd), fd') ∧ unread fd' = drop k (unread fd) ∧ (1 ≤ k ≤ n)%nat.
Proof. intros Hn. rewrite /read. destruct (avail fd) as [|a ?]; do 2 eexists; (split; [done|]); (split; [done|]); lia. Qed.

(** One round of the inner loop, on what was kept and what was read. *)
Lemma grep_round re data ls part junk out :
  0 ∉ re → chars data → split_lines data = (ls, part) →
  ∃ pre o, grep_lines (S (length data)) (re ++ [0]) (data ++ 0 :: junk) 0 out = Some (pre ++ part ++ 0 :: junk, length pre, out ++ o) ∧
    length data = (length pre + length part)%nat ∧ (length pre = 0%nat ↔ ls = []) ∧ selects re ls o ∧ chars part ∧ nl ∉ part.
Proof.
  intros Hre Hd Es. destruct (split_text _ _ _ Es) as (->&Hpn&Hln). destruct (text_of_chars _ _ Hd) as [Hlc Hpc].
  destruct (grep_lines_ok re ls part junk [] out (S (length (text_of ls part)))) as (pre&o&E&Hpre&Ho); [done| |by apply chars_no0|done| |].
  { apply Forall_forall. intros l Hl. split; [apply chars_no0; by eapply (Forall_forall chars)|by eapply (Forall_forall (λ l, nl ∉ l))]. }
  { pose proof (text_of_lines ls). rewrite text_of_length. lia. }
  exists pre, o. cbn [app length Nat.add] in E, Hpre. split; [exact E|]. rewrite text_of_length Hpre. split_and!; [done| |done..].
  destruct ls as [|l ls]; [done|]. rewrite text_of_cons length_app /=. split; [lia|done].
Qed.

(** [grep_loop] with the incomplete line [carry] at the front of the buffer. *)
Lemma grep_loop_ok re carry fd buf out fuel :
  0 ∉ re → chars carry → chars (unread fd) → (length carry ≤ 1022)%nat → length buf = BUFSZ → take (length carry) buf = carry →
  (length (unread fd) < fuel)%nat →
  ∃ buf' o, grep_loop fuel (re ++ [0]) fd buf (length carry) out = Some (buf', out ++ o) ∧
    length buf' = BUFSZ ∧ selects re (seen fuel carry fd) o.
Proof.
  intros Hre. revert carry fd buf out.
  induction fuel as [|fuel IH]; intros carry fd buf out Hcc Huc Hcl Hbuf Htake Hf; [lia|].
  cbn [grep_loop seen]. destruct (read_take (BUFSZ - length carry - 1) fd) as (k&fd'&->&Hfd&Hk); [unfold BUFSZ; lia|].
  set (x := take k (unread fd)) in *.
  destruct (bool_decide_reflect (x = [])) as [Hx|Hx]; [exists buf, []; by rewrite app_nil_r|].
  assert (length x ≤ k)%nat as Hxk by (rewrite /x length_take; lia).
  destruct (filled buf carry x) as (junk&Ef&Hjl); [done|done|unfold BUFSZ in *; lia|].
  rewrite -(take_drop k (unread fd)) in Huc. apply Forall_app in Huc as [Hxc Huc]. rewrite -Hfd in Huc.
  destruct (split_lines (carry ++ x)) as [ls part] eqn:Es.
  destruct (grep_round re (carry ++ x) ls part junk out Hre) as (pre&o1&Eg&Hm&Hz&Ho1&Hpc&Hpn); [by apply Forall_app|done|].
  rewrite length_app in Hm, Eg. rewrite -app_assoc in Eg.
  assert (length (unread fd') < fuel)%nat as Hf'.
  { rewrite Hfd length_drop. destruct (unread fd); [by destruct Hx; apply take_nil|]. simpl in *. lia. }
  apply (bind_Some _ (fill _ _ _)) in Ef as (buf1&Efill&Estore). rewrite Efill. cbn [mbind option_bind]. rewrite Estore.
  cbn [mbind option_bind]. rewrite Eg. cbn [mbind option_bind].
  assert (length (pre ++ part ++ 0 :: junk) = BUFSZ) as Hjl' by (rewrite -Hjl !length_app; lia).
  destruct (bool_decide_reflect (ls = [])) as [->|Hne].
  - (* no newline in the buffer *)
    destruct pre; [|discriminate (proj2 Hz eq_refl)]. simpl in Ho1. subst o1.
    cbn [length]. rewrite (bool_decide_eq_true_2 (0 = 0)%nat) // (bool_decide_eq_false_2 (0 < 0)%nat); [lia|].
    destruct (IH [] fd' (part ++ 0 :: junk) (out ++ [])) as (buf'&o&E&?&?); try done; [constructor|simpl; lia|].
    exists buf', o. rewrite app_nil_r in E. by rewrite /= app_nil_r E.
  - assert (length pre ≠ 0)%nat as Hpos by (by intros ?%Hz).
    rewrite (bool_decide_eq_false_2 (length pre = 0)%nat) // (bool_decide_eq_true_2 (0 < length carry + length x)%nat); [lia|].
    destruct (memmove_down pre part (0 :: junk) [] (length part)) as (buf2&E2'&Ht2&Hl2'); [by apply chars_bytes|done|simpl; lia|].
    rewrite drop_0 /= in E2'. rewrite (_ : _ - _ = length part)%nat; [lia|]. rewrite E2'. cbn [mbind option_bind].
    destruct (IH part fd' buf2 (out ++ o1)) as (buf'&o&E&?&?); try done; [unfold BUFSZ in *; lia|rewrite Hl2' -Hjl' !length_app; simpl; lia|].
    exists buf', (o1 ++ o). rewrite E app_assoc. split; [done|]. split; [done|]. by apply selects_app.
Qed.

(** Of a file, which every read delivers as much of as fits, grep sees all
    lines that fit. *)
Lemma seen_file ls tail carry u fuel :
  Forall plain ls → Forall (λ l, length l ≤ 1022)%nat ls → plain tail →
  carry ++ u = text_of ls tail → nl ∉ carry → (length carry ≤ 1022)%nat → (length u < fuel)%nat →
  seen fuel carry (Input u []) = ls.
Proof.
  revert ls tail carry u. induction fuel as [|fuel IH]; intros ls tail carry u Hls Hlen Ht Htext Hc Hcl Hf; [lia|].
  cbn [seen]. rewrite read_file. set (k := (BUFSZ - length carry - 1)%nat).
  assert (1 ≤ k)%nat as Hk by (rewrite /k /BUFSZ; lia).
  destruct (bool_decide_reflect (take k u = [])) as [Hx|Hx].
  { assert (u = []) as -> by (destruct u, k; simpl in *; done || lia). destruct ls as [|l ls]; [done|].
    destruct Hc. rewrite app_nil_r in Htext. rewrite Htext text_of_cons. set_solver. }
  destruct (text_take ls tail 1023 Hls) as (l1&l2&part&->&E1&E2&Hpn&Hfirst); [apply Ht|].
  assert (carry ++ take k u = text_of l1 part) as ->.
  { rewrite -E1 -Htext take_app_ge; [lia|]. do 2 f_equal. rewrite /k /BUFSZ. lia. }
  assert (part ++ drop k u = text_of l2 tail) as Erest.
  { rewrite -E2 -Htext drop_app_ge; [lia|]. do 2 f_equal. rewrite /k /BUFSZ. lia. }
  apply Forall_app in Hls as [Hl1 Hl2], Hlen as [Hn1 Hn2].
  rewrite split_plain; [eapply Forall_impl; [exact Hl1|by intros ? [??]]|done|]. f_equal.
  assert (length (drop k u) < fuel)%nat as Hf'.
  { rewrite length_drop. destruct u; [by destruct Hx; apply take_nil|]. simpl in *. lia. }
  assert (length part ≤ 1023)%nat as Hpl.
  { pose proof (f_equal length E1) as El. rewrite length_take (text_of_length l1 part) in El. lia. }
  destruct (bool_decide_reflect (l1 = [])) as [->|Hne].
  - assert (l2 = []) as ->.
    { destruct l2 as [|l l2]; [done|]. specialize (Hfirst eq_refl l l2 eq_refl). inversion Hn2; subst. lia. }
    apply (IH [] (drop k u) [] (drop k u)); try done; [|set_solver|simpl; lia].
    rewrite /text_of /= in Erest. rewrite /plain -Erest in Ht |- *. set_solver.
  - apply (IH l2 tail part (drop k u)); try done.
    assert (0 < length (text_of l1 []))%nat by (destruct l1; [done|]; rewrite text_of_cons length_app /=; lia).
    pose proof (f_equal length E1) as El. rewrite length_take (text_of_length l1 part) in El. lia.
Qed.

(** ** The program *)

Lemma grep_ok re fd buf out : 0 ∉ re → chars (unread fd) → length buf = BUFSZ →
  ∃ buf' o, grep (re ++ [0]) fd buf out = Some (buf', out ++ o) ∧ length buf' = BUFSZ ∧ selects re (lines_seen fd) o.
Proof.
  intros Hre Hu Hbuf. apply (grep_loop_ok re [] fd buf out); try done; [constructor|simpl; lia|simpl; lia].
Qed.

(** What the loop over the files prints: the matching lines of each, up to the
    first file that cannot be opened. *)
Fixpoint prints (open : list Z → option input) (re : list Z) (files : list (list Z)) (out : list Z) : Prop :=
  match files with
  | [] => out = []
  | f :: files =>
      match open f with
      | None => out = str "grep: cannot open " ++ f ++ [nl]
      | Some fd => ∃ o1 o2, selects re (lines_seen fd) o1 ∧ prints open re files o2 ∧ out = o1 ++ o2
      end
  end.

Lemma grep_files_ok open re files buf out :
  0 ∉ re → (∀ f fd, open f = Some fd → chars (unread fd)) → length buf = BUFSZ →
  ∃ o, grep_files open (re ++ [0]) files buf out = Some (out ++ o) ∧ prints open re files o.
Proof.
  intros Hre Ho. revert buf out. induction files as [|f files IH]; intros buf out Hbuf.
  - exists []. by rewrite app_nil_r.
  - cbn [grep_files prints]. destruct (open f) as [fd|] eqn:Ef; [|by eexists].
    destruct (grep_ok re fd buf out Hre (Ho f fd Ef) Hbuf) as (buf'&o1&->&Hb'&H1).
    cbn [mbind option_bind]. destruct (IH buf' (out ++ o1) Hb') as (o2&->&H2). exists (o1 ++ o2). rewrite -app_assoc. split; [done|].
    by exists o1, o2.
Qed.

(** C33: grep on text without NUL.  Without a pattern it prints how it is used;
    with a pattern alone it prints exactly the matching ones of the lines it
    sees of the standard input, in order; with files it prints the matching
    lines it sees of each file, up to the first one that cannot be opened, which
    it reports.  The lines it sees are those of [lines_seen], whatever the reads
    return: a line without newline at the end of the input, a line longer than
    the buffer and one that a short read cuts are not seen as a whole.  Of an
    input that every read delivers as much of as fits, as a file, whose lines
    have at most 1022 characters, it sees exactly the lines that a newline
    ends. *)
Theorem grep_prints open prog re files stdin :
  0 ∉ re → (∀ f fd, open f = Some fd → chars (unread fd)) → chars (unread stdin) →
  main open [prog] stdin = Some ([], str "usage: grep pattern [file ...]" ++ [nl]) ∧
  (∃ out, main open [prog; re] stdin = Some (out, []) ∧ selects re (lines_seen stdin) out) ∧
  (files ≠ [] → ∃ out, main open (prog :: re :: files) stdin = Some (out, []) ∧ prints open re files out) ∧
  ∀ ls tail, Forall plain ls → Forall (λ l, length l ≤ 1022)%nat ls → plain tail →
    lines_seen (Input (text_of ls tail) []) = ls.
Proof.
  intros Hre Ho Hin. split; [done|]. split; [|split].
  - destruct (grep_ok re stdin (replicate BUFSZ 0) [] Hre Hin (length_replicate _ _)) as (buf'&o&E&_&H).
    rewrite /main E. by exists o.
  - destruct files as [|f files]; [done|]. intros _.
    destruct (grep_files_ok open re (f :: files) (replicate BUFSZ 0) [] Hre Ho (length_replicate _ _)) as (o&E&H).
    rewrite /main E. by exists o.
  - intros ls tail Hls Hn Ht. apply (seen_file ls tail []); try done; [set_solver|simpl; lia|simpl; lia].
Qed.

Definition demo_open (f : list Z) : option input :=
  if decide (f = str "a") then Some (Input (str "one" ++ [nl] ++ str "two" ++ [nl]) []) else None.

Lemma grep_prints_witness :
  main demo_open [str "grep"; str "o$"; str "a"; str "b"] (Input [] []) =
    Some (str "two" ++ [nl] ++ str "grep: cannot open b" ++ [nl], []) ∧
  ∃ out, main demo_open [str "grep"; str "o$"; str "a"; str "b"] (Input [] []) = Some (out, []) ∧
    prints demo_open (str "o$") [str "a"; str "b"] out.
Proof.
  split; [by vm_compute|].
  apply (grep_prints demo_open (str "grep") (str "o$") [str "a"; str "b"] (Input [] [])); [by vm_compute; set_solver| | |done].
  - intros f fd. rewrite /demo_open. destruct (decide _); [|done]. intros [= <-].
    apply (bool_decide_unpack _). by vm_compute.
  - constructor.
Defined.

(** A line that comes in two reads, as from a pipe, is not seen as a whole:
    the first part is thrown away. *)
Example grep_short_read :
  main (λ _, None) [str "grep"; str "hello"] (Input (str "hello" ++ [nl]) []) = Some (str "hello" ++ [nl], []) ∧
  main (λ _, None) [str "grep"; str "hello"] (Input (str "hello" ++ [nl]) [1%nat]) = Some ([], []).
Proof. by vm_compute. Qed.
