(* ===== verification/Printf.v ===== *)
(** * printf of xv6 user programs: [src/Xv6-Syscall/src/printf.c]

    The arguments behind the format are a list of 32-bit words; a string
    argument is an address in memory.  The result is the bytes written.  A
    format without NUL, a missing argument, a string without NUL, a write
    behind the end of [buf] and the negation of the smallest int are undefined
    and give [None]. *)

From S2P Require Import Prelude CInt CString Stdio Ulib.

(** ** Numbers *)

Definition hexits : list Z := str "0123456789ABCDEF".

(** The loop that fills [buf[16]] with digits, the last one first; a number of
    32 bits has at most 32 digits, which bounds the fuel. *)
Fixpoint digit_loop (digits : list Z) (fuel : nat) (x base : Z) (buf : list Z) : option (list Z) :=
  match fuel with
  | O => None
  | S fuel =>
      d ← digits !! Z.to_nat (x mod base);
      if bool_decide (length buf < 16)%nat then
        if x / base =? 0 then Some (buf ++ [d]) else digit_loop digits fuel (x / base) base (buf ++ [d])
      else None
  end.

(** [xx] is the int argument; [-xx] overflows for the smallest int. *)
Definition printint (xx base : Z) (sgn : bool) : option (list Z) :=
  let neg := sgn && (xx <? 0) in
  if neg && (xx =? - 2 ^ 31) then None else
  let x := if neg then u32 (- xx) else u32 xx in
  buf ← digit_loop hexits 32 x base [];
  if neg then if bool_decide (length buf < 16)%nat then Some (rev (buf ++ [45])) else None
  else Some (rev buf).

(** ** Formats *)

(** The string at the front of [l]. *)
Fixpoint put_str (l : list Z) : option (list Z) :=
  match l with
  | [] => None
  | c :: l => if c =? 0 then Some [] else r ← put_str l; Some (u8 c :: r)
  end.

Fixpoint printf_loop (m : mem) (fmt : list Z) (state : Z) (ap : list Z) (out : list Z) : option (list Z) :=
  match fmt with
  | [] => None
  | f :: fmt =>
      if f =? 0 then Some out else
      let c := Z.land f 255 in
      if state =? 0 then
        if c =? 37 then printf_loop m fmt 37 ap out else printf_loop m fmt 0 ap (out ++ [u8 c])
      else if state =? 37 then
        if c =? 100 then
          match ap with
          | [] => None
          | a :: ap => s ← printint (s32 a) 10 true; printf_loop m fmt 0 ap (out ++ s)
          end
        else if (c =? 120) || (c =? 112) then
          match ap with
          | [] => None
          | a :: ap => s ← printint (s32 a) 16 false; printf_loop m fmt 0 ap (out ++ s)
          end
        else if c =? 115 then
          match ap with
          | [] => None
          | a :: ap =>
              s ← if a =? 0 then Some (str "(null)") else put_str (drop (Z.to_nat a) m);
              printf_loop m fmt 0 ap (out ++ s)
          end
        else if c =? 99 then
          match ap with
          | [] => None
          | a :: ap => printf_loop m fmt 0 ap (out ++ [u8 a])
          end
        else if c =? 37 then printf_loop m fmt 0 ap (out ++ [u8 c])
        else printf_loop m fmt 0 ap (out ++ [37; u8 c])
      else printf_loop m fmt state ap out
  end.

Definition printf (m : mem) (fmt ap : list Z) : option (list Z) := printf_loop m fmt 0 ap [].

(** ** Numerals *)

Definition value (base : Z) (ds : list Z) : Z := foldl (λ v d, v * base + d) 0 ds.

(** [s] is the numeral of [x]: digits with the value [x], without leading zeros. *)
Definition numeral (digits : list Z) (base x : Z) (s : list Z) : Prop :=
  ∃ ds, Forall2 (λ d c, 0 ≤ d < base ∧ digits !! Z.to_nat d = Some c) ds s ∧ value base ds = x ∧
    (ds = [0] ∨ ∃ d ds', ds = d :: ds' ∧ d ≠ 0).

Lemma value_app base l d : value base (l ++ [d]) = value base l * base + d.
Proof. rewrite /value foldl_app //. Qed.

(** The numerals of positive numbers, digit by digit. *)
Lemma numeral_snoc digits base x s d c :
  0 < x → numeral digits base x s → 0 ≤ d < base → digits !! Z.to_nat d = Some c →
  numeral digits base (x * base + d) (s ++ [c]).
Proof.
  intros Hx (ds&Hds&<-&Hz) Hd Hc. exists (ds ++ [d]). split; [apply Forall2_app; [done|constructor; [done|by apply Forall2_nil]]|].
  split; [apply value_app|]. right. destruct Hz as [->|(a&ds'&->&?)]; [done|]. by exists a, (ds' ++ [d]).
Qed.

Lemma numeral_digit digits base d c : 0 ≤ d < base → digits !! Z.to_nat d = Some c → numeral digits base d [c].
Proof.
  intros Hd Hc. exists [d]. split; [constructor; [done|by apply Forall2_nil]|]. split; [by rewrite /value /=|].
  destruct (decide (d = 0)) as [->|]; [by left|right; eauto].
Qed.

Lemma digit_loop_ok digits base (n : nat) fuel x buf :
  1 < base ≤ length digits → 0 ≤ x < base ^ S n → (n < fuel)%nat → (length buf + S n ≤ 16)%nat →
  ∃ s, digit_loop digits fuel x base buf = Some (buf ++ rev s) ∧ numeral digits base x s ∧ (1 ≤ length s ≤ S n)%nat.
Proof.
  intros Hb. revert fuel x buf. induction n as [|n IH]; intros [|fuel] x buf Hx Hf Hl; try lia.
  all: cbn [digit_loop]; pose proof (Z.mod_pos_bound x base ltac:(lia)) as Hm;
    destruct (lookup_lt_is_Some_2 digits (Z.to_nat (x mod base))) as [c Hc]; [lia|]; rewrite Hc; cbn [mbind option_bind];
    rewrite bool_decide_eq_true_2; [lia|].
  - rewrite Z.pow_1_r in Hx. rewrite Z.div_small // Z.eqb_refl. exists [c]. split; [done|]. split; [|simpl; lia].
    rewrite Z.mod_small // in Hc. by apply numeral_digit.
  - destruct (Z.eqb_spec (x / base) 0) as [E|E].
    + exists [c]. split; [done|]. split; [|simpl; lia]. apply Z.div_small_iff in E; [|lia].
      rewrite Z.mod_small in Hc; [lia|]. apply numeral_digit; [lia|done].
    + assert (0 ≤ x / base < base ^ S n) as Hq.
      { split; [apply Z.div_pos; lia|]. apply Z.div_lt_upper_bound; [lia|].
        replace (base * base ^ S n) with (base ^ S (S n)); [lia|]. rewrite (Nat2Z.inj_succ (S n)) Z.pow_succ_r //. }
      destruct (IH fuel (x / base) (buf ++ [c]) Hq) as (s&->&Hs&Hsl); [lia|rewrite length_app /=; lia|].
      exists (s ++ [c]). rewrite rev_app_distr /= -app_assoc. split; [done|]. rewrite length_app /=. split; [|lia].
      replace x with (x / base * base + x mod base) at 1; [|rewrite {3}(Z.div_mod x base); lia].
      apply numeral_snoc; [lia|done..].
Qed.

Lemma convert_ok digits base x : length digits = 16%nat → 10 ≤ base ≤ 16 → is_u32 x →
  ∃ s, digit_loop digits 32 x base [] = Some (rev s) ∧ numeral digits base x s ∧ (length s ≤ 10)%nat.
Proof.
  intros Hd Hb Hu. destruct (digit_loop_ok digits base 9 32 x []) as (s&E&Hs&Hl); [lia| |lia|simpl; lia|].
  - assert (10 ^ 10 ≤ base ^ 10) by (apply Z.pow_le_mono_l; lia). unfold is_u32 in Hu. change (Z.of_nat (S 9)) with 10. lia.
  - exists s. split; [done|]. split; [done|]. lia.
Qed.

(** The digits of the int [xx], with a minus sign if it is printed as a signed number. *)
Definition shows (digits : list Z) (base : Z) (sgn : bool) (xx : Z) (s : list Z) : Prop :=
  if sgn && (xx <? 0) then ∃ t, s = 45 :: t ∧ numeral digits base (- xx) t
  else numeral digits base (u32 xx) s.

Lemma printint_ok xx base sgn : 10 ≤ base ≤ 16 → - 2 ^ 31 ≤ xx < 2 ^ 31 → (sgn = true → xx ≠ - 2 ^ 31) →
  ∃ s, printint xx base sgn = Some s ∧ shows hexits base sgn xx s.
Proof.
  intros Hb Hx Hmin. rewrite /printint /shows. destruct (sgn && (xx <? 0)) eqn:E.
  - breflect. rewrite (proj2 (Z.eqb_neq _ _)); [by apply Hmin|]. cbn [andb]. destruct (convert_ok hexits base (u32 (- xx))) as (s&->&Hs&Hl); [done|done|apply u32_range|]. cbn [mbind option_bind].
    rewrite u32_small in Hs; [unfold is_u32; lia|]. rewrite bool_decide_eq_true_2; [rewrite length_rev; lia|].
    rewrite rev_app_distr rev_involutive. eexists. split; [done|]. by exists s.
  - destruct (convert_ok hexits base (u32 xx)) as (s&->&Hs&Hl); [done|done|apply u32_range|].
    simpl. rewrite rev_involutive. by exists s.
Qed.

(** ** What a format prints *)

(** The directives of a format, with their arguments. *)
Inductive piece :=
| Lit (c : Z)
| Dec (a : Z)
| Hex (p : bool) (a : Z)
| Text (a : Z)
| Char (a : Z)
| Percent
| Unknown (c : Z).

Definition piece_fmt (p : piece) : list Z :=
  match p with
  | Lit c => [c]
  | Dec _ => str "%d"
  | Hex b _ => if b then str "%p" else str "%x"
  | Text _ => str "%s"
  | Char _ => str "%c"
  | Percent => str "%%"
  | Unknown c => [37; c]
  end.

Definition piece_args (p : piece) : list Z :=
  match p with
  | Dec a | Hex _ a | Text a | Char a => [a]
  | _ => []
  end.

Definition piece_ok (m : mem) (p : piece) : Prop :=
  match p with
  | Lit c => is_byte c ∧ c ≠ 0 ∧ c ≠ 37
  | Dec a => s32 a ≠ - 2 ^ 31
  | Text a => a = 0 ∨ ∃ s k, drop (Z.to_nat a) m = s ++ 0 :: k ∧ 0 ∉ s ∧ Forall is_byte s
  | Unknown c => is_byte c ∧ c ≠ 0 ∧ c ∉ str "dxpsc%"
  | _ => True
  end.

Definition piece_out (m : mem) (p : piece) (s : list Z) : Prop :=
  match p with
  | Lit c => s = [c]
  | Dec a => shows hexits 10 true (s32 a) s
  | Hex _ a => shows hexits 16 false (s32 a) s
  | Text a => if a =? 0 then s = str "(null)" else 0 ∉ s ∧ ∃ k, drop (Z.to_nat a) m = s ++ 0 :: k
  | Char a => s = [u8 a]
  | Percent => s = [37]
  | Unknown c => s = [37; c]
  end.

Lemma put_str_ok s k : 0 ∉ s → Forall is_byte s → put_str (s ++ 0 :: k) = Some s.
Proof.
  intros H0 Hb. induction Hb as [|a s Ha Hb IH]; [done|]. apply not_elem_of_cons in H0 as [? ?]. simpl.
  destruct (Z.eqb_spec a 0); [congruence|]. rewrite IH //= u8_small //.
Qed.

Lemma land_byte c : is_byte c → Z.land c 255 = c.
Proof. intros Hc. change 255 with (Z.ones 8). rewrite Z.land_ones; [lia|]. by apply Z.mod_small. Qed.

Lemma piece_step m p fmt ap out : piece_ok m p →
  ∃ s, piece_out m p s ∧
    printf_loop m (piece_fmt p ++ fmt) 0 (piece_args p ++ ap) out = printf_loop m fmt 0 ap (out ++ s).
Proof.
  destruct p as [c|a|b a|a|a| |c]; cbn [piece_ok piece_out piece_args app].
  - intros (Hb&Hc0&Hc). exists [c]. split; [done|]. cbn [piece_fmt app printf_loop]. rewrite (land_byte c) // (u8_small c) //.
    rewrite (proj2 (Z.eqb_neq _ _) Hc0) (proj2 (Z.eqb_neq _ _) Hc) //.
  - intros Hmin. destruct (printint_ok (s32 a) 10 true) as (s&E&Hs); [lia|apply s32_range|done|].
    exists s. split; [done|]. simpl. rewrite E //.
  - intros _. destruct (printint_ok (s32 a) 16 false) as (s&E&Hs); [lia|apply s32_range|done|].
    exists s. split; [done|]. destruct b; simpl; rewrite E //.
  - intros Ha. destruct (Z.eqb_spec a 0) as [->|Hz]; [by eexists|]. destruct Ha as [?|(s&k&Es&H0&Hb)]; [done|].
    exists s. split; [split; [done|by exists k]|]. simpl. rewrite (proj2 (Z.eqb_neq _ _) Hz) Es put_str_ok //.
  - intros _. by eexists.
  - intros _. by eexists.
  - intros (Hb&Hc0&Hc). exists [37; c]. split; [done|]. cbn [piece_fmt app printf_loop]. rewrite (land_byte c) // (u8_small c) //.
    assert (c ≠ 100 ∧ c ≠ 120 ∧ c ≠ 112 ∧ c ≠ 115 ∧ c ≠ 99 ∧ c ≠ 37) as (?&?&?&?&?&?)
      by (vm_compute in Hc; split_and!; intros ->; apply Hc; set_solver).
    rewrite (proj2 (Z.eqb_neq c 0)) // !(proj2 (Z.eqb_neq c _)) //.
Qed.

Lemma printf_pieces m ps extra : Forall (piece_ok m) ps →
  ∃ outs, printf m (concat (piece_fmt <$> ps) ++ [0]) (concat (piece_args <$> ps) ++ extra) = Some (concat outs) ∧
    Forall2 (piece_out m) ps outs.
Proof.
  intros Hps. rewrite /printf.
  assert (∀ out, ∃ outs, printf_loop m (concat (piece_fmt <$> ps) ++ [0]) 0 (concat (piece_args <$> ps) ++ extra) out =
    Some (out ++ concat outs) ∧ Forall2 (piece_out m) ps outs) as H; [|apply (H [])].
  induction Hps as [|p ps Hp Hps IH]; intros out; cbn [fmap list_fmap concat app].
  - exists []. rewrite app_nil_r. split; [done|constructor].
  - destruct (piece_step m p (concat (piece_fmt <$> ps) ++ [0]) (concat (piece_args <$> ps) ++ extra) out Hp) as (s&Hs&E).
    destruct (IH (out ++ s)) as (outs&E'&Ho). exists (s :: outs).
    rewrite -!app_assoc E E' -app_assoc /=. split; [done|by constructor].
Qed.

(** C34: printf prints its format directive by directive: ordinary characters
    as they are, %d as the signed decimal numeral of the argument (other than
    the smallest int, whose negation overflows), %x and %p as its unsigned
    hexadecimal numeral, %s as the string or (null) and, beyond the four
    directives the comment above printf lists, %c as the character and %% as a
    percent sign; any other directive is printed unchanged.  It terminates, takes the arguments in order, needs no
    more than the 16 bytes of its buffer, and ignores superfluous arguments. *)
Theorem printf_prints m ps extra : Forall (piece_ok m) ps →
  ∃ outs, printf m (concat (piece_fmt <$> ps) ++ [0]) (concat (piece_args <$> ps) ++ extra) = Some (concat outs) ∧
    Forall2 (piece_out m) ps outs.
Proof. apply printf_pieces. Qed.

Lemma printf_prints_witness :
  let ps := [Lit 61; Dec (2 ^ 32 - 42); Lit 32; Hex false 48879; Text 0; Text 2; Percent; Unknown 113] in
  let m := [0; 0; 104; 105; 0] in
  printf m (str "=%d %x%s%s%%%q" ++ [0]) [2 ^ 32 - 42; 48879; 0; 2] = Some (str "=-42 BEEF(null)hi%%q") ∧
  ∃ outs, printf m (str "=%d %x%s%s%%%q" ++ [0]) [2 ^ 32 - 42; 48879; 0; 2] = Some (concat outs) ∧ Forall2 (piece_out m) ps outs.
Proof.
  intros ps m. split; [by vm_compute|]. apply (printf_prints m ps []).
  repeat (apply Forall_cons; split); try done; try (by split_and!; vm_compute; set_solver).
  - by left.
  - right. exists [104; 105], []. split_and!; [done|by vm_compute; set_solver|repeat constructor; by vm_compute].
Defined.

(** ** Reading numbers back *)

Lemma hexit_digit d c : 0 ≤ d < 10 → hexits !! Z.to_nat d = Some c → c = 48 + d.
Proof.
  intros Hd Hc. assert (d ∈ [0; 1; 2; 3; 4; 5; 6; 7; 8; 9]) as Hin by set_solver by lia.
  repeat (apply elem_of_cons in Hin as [->|Hin]; [vm_compute in Hc; injection Hc as <-; lia|]). by apply elem_of_nil in Hin.
Qed.

Lemma value_ge ds v : 0 ≤ v → Forall (λ d, 0 ≤ d < 10) ds → v ≤ foldl (λ v d, v * 10 + d) v ds.
Proof.
  intros Hv Hds. revert v Hv. induction Hds as [|d ds Hd Hds IH]; intros v Hv; simpl; [lia|].
  specialize (IH (v * 10 + d)). lia.
Qed.

Lemma atoi_loop_ok ds s v k :
  Forall2 (λ d c, 0 ≤ d < 10 ∧ hexits !! Z.to_nat d = Some c) ds s → 0 ≤ v → foldl (λ v d, v * 10 + d) v ds < 2 ^ 31 →
  atoi_loop (s ++ 0 :: k) v = Some (foldl (λ v d, v * 10 + d) v ds).
Proof.
  intros Hds. revert v. induction Hds as [|d c ds s [Hd Hc] Hds IH]; intros v Hv Hb; [done|]. simpl in *.
  apply hexit_digit in Hc as ->; [|done]. rewrite /s8 sext_small; [lia|simpl; lia|].
  rewrite (proj2 (Z.leb_le _ _)); [lia|]. rewrite (proj2 (Z.leb_le _ _)); [lia|]. simpl.
  assert (Forall (λ d, 0 ≤ d < 10) ds) as Hf by (clear -Hds; induction Hds; constructor; naive_solver).
  pose proof (value_ge ds (v * 10 + d) ltac:(lia) Hf).
  rewrite s32_small; [lia|]. replace (v * 10 + (48 + d) - 48) with (v * 10 + d) by lia. apply IH; [lia|done].
Qed.

(** What printint writes in decimal for a nonnegative int, atoi reads back as the same number. *)
Theorem atoi_printint x k : 0 ≤ x < 2 ^ 31 → ∃ s, printint x 10 true = Some s ∧ atoi (s ++ 0 :: k) = Some x.
Proof.
  intros Hx. destruct (printint_ok x 10 true) as (s&E&Hs); [lia|lia|lia|]. exists s. split; [done|]. revert Hs. rewrite /shows.
  rewrite (proj2 (Z.ltb_ge _ _)); [lia|]. rewrite u32_small; [unfold is_u32; lia|]. intros (ds&Hds&<-&_).
  apply (atoi_loop_ok ds s 0 k); [done|lia|]. fold (value 10 ds). lia.
Qed.

Lemma atoi_printint_witness :
  ∃ s, printint 2147483647 10 true = Some s ∧ atoi (s ++ 0 :: []) = Some 2147483647.
Proof. apply (atoi_printint 2147483647 []). lia. Defined.
