(* ===== verification/Wc.v ===== *)
(** * wc of xv6: [src/Xv6-Syscall/src/wc.c]

    wc counts the lines, words and characters of its input, which arrives in
    buffers of up to 512 bytes: a word may go on from one buffer to the next.
    [open] gives what the descriptor of an opened file delivers, and whether
    reading on behind these bytes is an error.  Memory for [printf] holds the
    name of the file, at address 1. *)

From S2P Require Import Prelude CInt CString Stdio Ulib Printf.

Record counts := Counts { l_ : Z; w_ : Z; c_ : Z; inword : bool }.

Definition wc_blanks : list Z := str " " ++ [13; 9; 10; 11; 0].

(** One character. *)
Definition wc_char (s : counts) (x : Z) : option counts :=
  let c := s32 (c_ s + 1) in
  let l := if x =? nl then s32 (l_ s + 1) else l_ s in
  q ← strchr wc_blanks 0 x;
  match q with
  | Some _ => Some (Counts l (w_ s) c false)
  | None => Some (if inword s then Counts l (w_ s) c true else Counts l (s32 (w_ s + 1)) c true)
  end.

Fixpoint wc_buf (buf : list Z) (s : counts) : option counts :=
  match buf with
  | [] => Some s
  | x :: buf => s ← wc_char s x; wc_buf buf s
  end.

Fixpoint wc_loop (fuel : nat) (fd : input) (s : counts) : option counts :=
  match fuel with
  | O => None
  | S fuel =>
      let '(buf, fd) := read 512 fd in
      match buf with
      | [] => Some s
      | _ => s ← wc_buf buf s; wc_loop fuel fd s
      end
  end.

(** The output, and whether wc goes on. *)
Definition wc (fd : input) (bad : bool) (name : list Z) : option (list Z * bool) :=
  s ← wc_loop (S (length (unread fd))) fd (Counts 0 0 0 false);
  if bad then
    out ← printf [] (str "wc: read error" ++ [nl; 0]) [];
    Some (out, false)
  else
    out ← printf (0 :: name ++ [0]) (str "%d %d %d %s" ++ [nl; 0]) [l_ s; w_ s; c_ s; 1];
    Some (out, true).

Section Main.
Context (open : list Z → option (input * bool)).

Fixpoint wc_files (files : list (list Z)) (out : list Z) : option (list Z) :=
  match files with
  | [] => Some out
  | f :: files =>
      match open f with
      | None =>
          o ← printf (0 :: f ++ [0]) (str "wc: cannot open %s" ++ [nl; 0]) [1];
          Some (out ++ o)
      | Some (fd, bad) =>
          r ← wc fd bad f;
          let '(o, go) := (r : list Z * bool) in
          if go then wc_files files (out ++ o) else Some (out ++ o)
      end
  end.

Definition main (argv : list (list Z)) (stdin : input) (bad : bool) : option (list Z) :=
  match argv with
  | [] | [_] => r ← wc stdin bad []; Some (fst (r : list Z * bool))
  | _ :: files => wc_files files []
  end.
End Main.

(** ** Lines and words *)

Definition is_blank (x : Z) : bool := bool_decide (x ∈ [32; 13; 9; 10; 11]).

(** The pieces of a text between blanks; its words are the ones that are not empty. *)
Fixpoint fields (text : list Z) : list (list Z) :=
  match text with
  | [] => [[]]
  | x :: text =>
      if is_blank x then [] :: fields text else
      match fields text with
      | f :: fs => (x :: f) :: fs
      | [] => [[x]]
      end
  end.
Definition words (text : list Z) : list (list Z) := filter (λ f, f ≠ []) (fields text).

Definition lines (text : list Z) : list Z := filter (λ x, x = nl) text.

Lemma fields_cons text : ∃ f fs, fields text = f :: fs.
Proof. destruct text as [|x text]; simpl; [by eexists _, _|]. destruct (is_blank x), (fields text); by eexists _, _. Qed.

Lemma blank_strchr x : ∃ q, strchr wc_blanks 0 x = Some q ∧ (if q then is_blank x = true else is_blank x = false).
Proof.
  change (strchr wc_blanks 0 x) with
    (if 32 =? x then Some (Some 0%nat) else if 13 =? x then Some (Some 1%nat) else if 9 =? x then Some (Some 2%nat)
     else if 10 =? x then Some (Some 3%nat) else if 11 =? x then Some (Some 4%nat) else Some None).
  repeat match goal with |- context [?a =? x] => destruct (Z.eqb_spec a x) as [<-|]; [by eexists|] end.
  eexists. split; [done|]. apply bool_decide_eq_false_2. rewrite !not_elem_of_cons. split_and!; try done. apply not_elem_of_nil.
Qed.

(** The words that begin in [text] when it follows a character of a word or not. *)
Definition begins (inword : bool) (text : list Z) : Z :=
  length (words text) - (if inword && negb (bool_decide (head (fields text) = Some [])) then 1 else 0).

Lemma begins_cons b x text :
  begins b (x :: text) = (if is_blank x || b then 0 else 1) + begins (negb (is_blank x)) text.
Proof.
  rewrite /begins /words. cbn [fields]. destruct (fields_cons text) as (f&fs&E). rewrite E. destruct (is_blank x).
  - rewrite filter_cons_False; [by intros []|]. rewrite (bool_decide_true (head ([] :: f :: fs) = _)) //. destruct b; simpl; lia.
  - rewrite (filter_cons_True _ (x :: f)) //. rewrite (bool_decide_false (head ((x :: f) :: fs) = _)) //.
    destruct f as [|y f].
    + rewrite (filter_cons_False _ []); [by intros []|]. rewrite (bool_decide_true (head ([] :: fs) = _)) //. destruct b; simpl; lia.
    + rewrite (filter_cons_True _ (y :: f)) //. rewrite (bool_decide_false (head ((y :: f) :: fs) = _)) //. destruct b; simpl; lia.
Qed.

Lemma begins_nil b : begins b [] = 0.
Proof. by destruct b. Qed.

Lemma begins_false text : begins false text = length (words text).
Proof. rewrite /begins /=. lia. Qed.

Lemma wc_char_run s x : 0 ≤ l_ s ≤ c_ s → 0 ≤ w_ s ≤ c_ s → c_ s + 1 < 2 ^ 31 →
  wc_char s x = Some (Counts ((if x =? nl then 1 else 0) + l_ s) ((if is_blank x || inword s then 0 else 1) + w_ s) (1 + c_ s) (negb (is_blank x))).
Proof.
  intros Hl Hw Hc. destruct (blank_strchr x) as (q&Eq&Hq). rewrite /wc_char Eq (Z.add_comm (c_ s)) (Z.add_comm (l_ s)) (Z.add_comm (w_ s)).
  rewrite !s32_small; [lia|lia|lia|]. destruct q, (x =? nl), (inword s); rewrite Hq //.
Qed.

(** The counters are numbers below 2 ^ 31 as long as the text is. *)
Lemma wc_buf_run text s : 0 ≤ l_ s ≤ c_ s → 0 ≤ w_ s ≤ c_ s → c_ s + length text < 2 ^ 31 →
  ∃ b, wc_buf text s = Some (Counts (l_ s + length (lines text)) (w_ s + begins (inword s) text) (c_ s + length text) b) ∧
    (∀ more, begins (inword s) (text ++ more) = begins (inword s) text + begins b more) ∧
    0 ≤ begins (inword s) text ≤ length text ∧ (length (lines text) ≤ length text)%nat.
Proof.
  revert s. induction text as [|x text IH]; intros s Hl Hw Hc; cbn [wc_buf length] in *.
  { exists (inword s). rewrite begins_nil !Z.add_0_r. by destruct s. }
  rewrite wc_char_run //; [lia|]. destruct (IH (Counts ((if x =? nl then 1 else 0) + l_ s) ((if is_blank x || inword s then 0 else 1) + w_ s)
    (1 + c_ s) (negb (is_blank x)))) as (b&E&Hb&Hw'&Hl'); cbn [l_ w_ c_ inword] in *; [destruct (x =? nl); lia|destruct (_ || _); lia|lia|].
  exists b. cbn [mbind option_bind]. rewrite E begins_cons /lines filter_cons. split_and!.
  - do 2 f_equal; [|lia|lia]. case_decide as Hx; [rewrite (proj2 (Z.eqb_eq _ _) Hx)|rewrite (proj2 (Z.eqb_neq _ _) Hx)]; simpl; lia.
  - intros more. rewrite -app_comm_cons begins_cons Hb. lia.
  - destruct (_ || _); lia.
  - destruct (_ || _); lia.
  - unfold lines in *. case_decide; simpl; lia.
Qed.

Lemma wc_loop_run fuel : ∀ fd s, (length (unread fd) < fuel)%nat → 0 ≤ l_ s ≤ c_ s → 0 ≤ w_ s ≤ c_ s → c_ s + length (unread fd) < 2 ^ 31 →
  ∃ b, wc_loop fuel fd s = Some (Counts (l_ s + length (lines (unread fd))) (w_ s + begins (inword s) (unread fd)) (c_ s + length (unread fd)) b).
Proof.
  induction fuel as [|fuel IH]; intros fd s Hf Hl Hw Hc; [lia|]. cbn [wc_loop]. destruct (read 512 fd) as [buf fd'] eqn:Er.
  assert (unread fd = buf ++ unread fd' ∧ (buf = [] → unread fd = [])) as [E Hn].
  { rewrite /read in Er. destruct (match avail fd with [] => _ | _ => _ end) as [|k'] eqn:Ek; [by destruct (avail fd)|].
    injection Er as <- <-. split; [symmetry; apply take_drop|]. by destruct (unread fd). }
  destruct buf as [|x buf].
  { exists (inword s). rewrite (Hn eq_refl) begins_nil !Z.add_0_r. by destruct s. }
  rewrite E in Hf, Hc |- *. rewrite length_app in Hf, Hc |- *.
  destruct (wc_buf_run (x :: buf) s) as (b&Eb&Hb&Hw'&Hl'); [done|done|lia|]. rewrite Eb. cbn [mbind option_bind].
  destruct (IH fd' (Counts (l_ s + length (lines (x :: buf))) (w_ s + begins (inword s) (x :: buf)) (c_ s + length (x :: buf)) b)) as (b'&->);
    cbn [l_ w_ c_ inword] in *; [simpl in *; lia|lia|lia|lia|].
  exists b'. rewrite Hb /lines filter_app length_app. do 2 f_equal; lia.
Qed.

(** ** The output *)

(** The line that wc prints about a text. *)
Definition reports (name text out : list Z) : Prop :=
  ∃ l w c, shows hexits 10 true (length (lines text)) l ∧ shows hexits 10 true (length (words text)) w ∧
    shows hexits 10 true (length text) c ∧ out = l ++ [32] ++ w ++ [32] ++ c ++ [32] ++ name ++ [nl].

Definition is_name (name : list Z) : Prop := 0 ∉ name ∧ Forall is_byte name.

Lemma printf_literal l : Forall (λ c, is_byte c ∧ c ≠ 0 ∧ c ≠ 37) l → printf [] (l ++ [0]) [] = Some l.
Proof.
  intros Hl. destruct (printf_pieces [] (Lit <$> l) []) as (outs&E&Ho); [by apply Forall_fmap|].
  assert (concat (piece_fmt <$> (Lit <$> l)) = l ∧ concat (piece_args <$> (Lit <$> l)) = [] ∧ concat outs = l) as (E1&E2&E3).
  { clear E Hl. revert outs Ho. induction l as [|c l IH]; intros outs Ho; [by apply Forall2_nil_inv_l in Ho as ->|].
    apply Forall2_cons_inv_l in Ho as (o&outs'&->&Ho&->). cbn [fmap list_fmap concat piece_fmt piece_args app].
    by destruct (IH _ Ho) as (->&->&->). }
  by rewrite E1 E2 E3 in E.
Qed.

Lemma text_arg name : is_name name → piece_ok (0 :: name ++ [0]) (Text 1) ∧ (∀ s, piece_out (0 :: name ++ [0]) (Text 1) s → s = name).
Proof.
  intros [H0 Hb]. split; [right; by exists name, []|]. intros s (Hs&k&E). change (name ++ [0] = s ++ 0 :: k) in E.
  pose proof (strlen_text name [] H0) as El. rewrite E strlen_text // in El. injection El as El.
  apply app_inj_1 in E as [E _]; [done|lia].
Qed.

Lemma report_ok name text : is_name name → length text < 2 ^ 31 →
  ∃ out, printf (0 :: name ++ [0]) (str "%d %d %d %s" ++ [nl; 0]) [Z.of_nat (length (lines text)); Z.of_nat (length (words text)); Z.of_nat (length text); 1] = Some out ∧
    reports name text out.
Proof.
  intros Hn Ht. destruct (text_arg name Hn) as [Ha Hu].
  destruct (wc_buf_run text (Counts 0 0 0 false)) as (_&_&_&Hw'&Hl'); [simpl; lia|simpl; lia|simpl; lia|].
  rewrite begins_false in Hw'.
  assert (∀ n : nat, (n ≤ length text)%nat → piece_ok (0 :: name ++ [0]) (Dec n)) as Hdec.
  { intros n Hn'. cbn [piece_ok]. rewrite s32_small; lia. }
  destruct (printf_pieces (0 :: name ++ [0]) [Dec (length (lines text)); Lit 32; Dec (length (words text)); Lit 32; Dec (length text); Lit 32; Text 1; Lit nl] [])
    as (outs&E&Ho).
  { repeat (apply Forall_cons; split; [first [exact Ha|apply Hdec; lia|done]|]). by apply Forall_nil. }
  apply Forall2_cons_inv_l in Ho as (l&o1&Hl&Ho&->). apply Forall2_cons_inv_l in Ho as (?&o2&->&Ho&->).
  apply Forall2_cons_inv_l in Ho as (w&o3&Hw&Ho&->). apply Forall2_cons_inv_l in Ho as (?&o4&->&Ho&->).
  apply Forall2_cons_inv_l in Ho as (c&o5&Hc&Ho&->). apply Forall2_cons_inv_l in Ho as (?&o6&->&Ho&->).
  apply Forall2_cons_inv_l in Ho as (n&o7&Hs&Ho&->). apply Forall2_cons_inv_l in Ho as (?&o8&->&Ho&->).
  apply Forall2_nil_inv_l in Ho as ->. rewrite (Hu n Hs) in E. eexists. split; [exact E|].
  cbn [piece_out] in Hl, Hw, Hc. rewrite s32_small in Hl; [lia|].
  rewrite s32_small in Hw; [lia|]. rewrite s32_small in Hc; [lia|]. exists l, w, c. by split_and!.
Qed.

Lemma wc_ok fd name : is_name name → length (unread fd) < 2 ^ 31 →
  ∃ out, wc fd false name = Some (out, true) ∧ reports name (unread fd) out.
Proof.
  intros Hn Ht. destruct (report_ok name _ Hn Ht) as (out&E&Hr). exists out. split; [|exact Hr]. clear Hr. rewrite /wc. revert E.
  generalize (str "%d %d %d %s" ++ [nl; 0]). intros fmt E.
  destruct (wc_loop_run (S (length (unread fd))) fd (Counts 0 0 0 false)) as (b&->); [lia|simpl; lia|simpl; lia|simpl; lia|].
  cbn [mbind option_bind l_ w_ c_ inword]. rewrite !Z.add_0_l begins_false E //.
Qed.

Lemma wc_bad fd name : length (unread fd) < 2 ^ 31 → wc fd true name = Some (str "wc: read error" ++ [nl], false).
Proof.
  intros Ht. rewrite /wc. destruct (wc_loop_run (S (length (unread fd))) fd (Counts 0 0 0 false)) as (b&->); [lia|simpl; lia|simpl; lia|simpl; lia|done].
Qed.

Lemma cannot_open f : is_name f →
  printf (0 :: f ++ [0]) (str "wc: cannot open %s" ++ [nl; 0]) [1] = Some (str "wc: cannot open " ++ f ++ [nl]).
Proof.
  intros Hf. destruct (text_arg f Hf) as [Ha Hu].
  destruct (piece_step (0 :: f ++ [0]) (Text 1) [nl; 0] [] (str "wc: cannot open ") Ha) as (s&Hs&E). rewrite (Hu s Hs) in E.
  transitivity (printf_loop (0 :: f ++ [0]) (piece_fmt (Text 1) ++ [nl; 0]) 0 (piece_args (Text 1) ++ []) (str "wc: cannot open ")); [done|].
  rewrite E. clear E. rewrite app_assoc. reflexivity.
Qed.

(** What wc writes behind the reports: nothing, or why it stopped. *)
Definition stops (open : list Z → option (input * bool)) (rest : list (list Z)) (msg : list Z) : Prop :=
  match rest with
  | [] => msg = []
  | f :: _ =>
      match open f with
      | None => is_name f ∧ msg = str "wc: cannot open " ++ f ++ [nl]
      | Some (fd, true) => length (unread fd) < 2 ^ 31 ∧ msg = str "wc: read error" ++ [nl]
      | Some (_, false) => False
      end
  end.

Definition readable (open : list Z → option (input * bool)) (f text : list Z) : Prop :=
  is_name f ∧ length text < 2 ^ 31 ∧ ∃ fd, open f = Some (fd, false) ∧ unread fd = text.

Lemma wc_files_run open files texts rest msg out : Forall2 (readable open) files texts → stops open rest msg →
  ∃ outs, wc_files open (files ++ rest) out = Some (out ++ concat outs ++ msg) ∧ length outs = length texts ∧
    ∀ (i : nat) f t, files !! i = Some f → texts !! i = Some t → ∃ o, outs !! i = Some o ∧ reports f t o.
Proof.
  intros Hf Hr. revert out. induction Hf as [|f t files texts (Hn&Ht&fd&Eo&<-) Hf IH]; intros out.
  - exists []. split; [|by split]. destruct rest as [|f rest]; simpl in *; [by rewrite Hr app_nil_r|].
    destruct (open f) as [[fd []]|]; [|done|]; destruct Hr as [Hf ->]; [by rewrite wc_bad|by rewrite cannot_open].
  - destruct (wc_ok fd f Hn Ht) as (o&E&Ho). destruct (IH (out ++ o)) as (outs&E'&El&Hi). exists (o :: outs). split_and!.
    + cbn [app wc_files]. rewrite Eo E. cbn [mbind option_bind]. rewrite E' /= -!app_assoc //.
    + simpl. by rewrite El.
    + intros [|i] f' t' Hi1 Hi2; [injection Hi1 as <-; injection Hi2 as <-; by exists o|by apply Hi].
Qed.

(** wc prints, for its standard input or for each file in turn, the numbers of
    lines, words and characters and the name, whatever pieces the text arrives
    in; it stops with a message at the first file that cannot be opened or read. *)
Theorem wc_counts open prog files texts rest msg stdin :
  Forall2 (readable open) files texts → stops open rest msg → files ++ rest ≠ [] → length (unread stdin) < 2 ^ 31 →
  (∃ out, main open [prog] stdin false = Some out ∧ reports [] (unread stdin) out) ∧
  ∃ outs, main open (prog :: files ++ rest) stdin false = Some (concat outs ++ msg) ∧ length outs = length texts ∧
    ∀ (i : nat) f t, files !! i = Some f → texts !! i = Some t → ∃ o, outs !! i = Some o ∧ reports f t o.
Proof.
  intros Hf Hr Hne Hs. split.
  - destruct (wc_ok stdin [] (conj (not_elem_of_nil _) (Forall_nil_2 _)) Hs) as (out&E&Ho). exists out. by rewrite /= E.
  - destruct (wc_files_run open files texts rest msg [] Hf Hr) as (outs&E&Ho). exists outs. split; [|done]. 
    rewrite -E. by destruct (files ++ rest).
Qed.

Definition demo_texts (f : list Z) : option (input * bool) :=
  if bool_decide (f = str "a") then Some (Input (str "to be" ++ [10] ++ str " or not" ++ [10]) [2%nat; 5%nat], false) else None.

Lemma wc_counts_witness :
  main demo_texts [str "wc"; str "a"; str "b"] (Input [] []) false = Some (str "2 4 14 a" ++ [10] ++ str "wc: cannot open b" ++ [10]) ∧
  ∃ outs, main demo_texts (str "wc" :: [str "a"] ++ [str "b"]) (Input [] []) false = Some (concat outs ++ str "wc: cannot open b" ++ [10]) ∧
    ∃ o, outs !! 0%nat = Some o ∧ reports (str "a") (str "to be" ++ [10] ++ str " or not" ++ [10]) o.
Proof.
  split; [by vm_compute|].
  assert (∀ x, is_name [x] ↔ x ≠ 0 ∧ is_byte x) as Hname.
  { intros x. rewrite /is_name Forall_singleton not_elem_of_cons. pose proof (not_elem_of_nil (A:=Z) 0). naive_solver. }
  destruct (wc_counts demo_texts (str "wc") [str "a"] [str "to be" ++ [10] ++ str " or not" ++ [10]] [str "b"]
    (str "wc: cannot open b" ++ [10]) (Input [] [])) as [_ (outs&E&_&Hi)].
  - constructor; [|constructor]. split; [by apply (Hname 97)|]. split; [by vm_compute|]. by eexists.
  - split; [by apply (Hname 98)|done].
  - done.
  - by vm_compute.
  - exists outs. split; [exact E|]. by apply Hi.
Defined.
