(* ===== verification/Console.v ===== *)
(** * The console: [src/Xv6-Syscall/src/console.c], [uart.c], [kbd.c]

    [con] holds the variables of console.c with the devices they drive: the
    CGA text memory [crt] and its cursor register, and the bytes sent to the
    serial port.  [killed] is the flag of the calling process.  Interrupts
    deliver characters to [consoleintr], which edits the input line in the ring
    [input]; [consoleread] takes completed lines from it.

    [panicked] freezes the other processors; the endless loop is the outcome of
    [panic] here. *)

From S2P Require Import Prelude CInt CString Stdio Kernel Params BlockIO Fs Printf.

Definition INPUT_BUF : Z := 128.
Definition BACKSPACE : Z := 256.
Definition ctl (x : Z) : Z := x - 64.

Record con := Con {
  in_buf : list Z;
  in_r : Z;
  in_w : Z;
  in_e : Z;
  locking : bool;
  panicked : bool;
  crt : list Z;
  cursor : Z;
  uart : bool;
  sent : list Z;
  killed : bool
}.

Definition set_input (b : list Z) (r w e : Z) (s : con) : con :=
  Con b r w e (locking s) (panicked s) (crt s) (cursor s) (uart s) (sent s) (killed s).
Definition set_locking (b : bool) (s : con) : con :=
  Con (in_buf s) (in_r s) (in_w s) (in_e s) b (panicked s) (crt s) (cursor s) (uart s) (sent s) (killed s).
Definition set_screen (m : list Z) (pos : Z) (s : con) : con :=
  Con (in_buf s) (in_r s) (in_w s) (in_e s) (locking s) (panicked s) m pos (uart s) (sent s) (killed s).
Definition set_sent (l : list Z) (s : con) : con :=
  Con (in_buf s) (in_r s) (in_w s) (in_e s) (locking s) (panicked s) (crt s) (cursor s) (uart s) l (killed s).

(** ** Output *)

Definition uartputc (c : Z) : K con unit :=
  u ← gets uart;
  if (u : bool) then modify (λ s, set_sent (sent s ++ [u8 c]) s) else mret ().

(** [crt[pos] = v] *)
Definition crt_store (pos v : Z) : K con unit :=
  m ← gets crt;
  if (0 <=? pos) && (pos <? length m) then modify (λ s, set_screen (<[Z.to_nat pos := u16 v]> m) (cursor s) s) else undef.

(** Move rows 1 to 23 up and clear from [pos] to the end of row 23. *)
Definition scroll (pos : Z) (m : list Z) : list Z :=
  blit (Z.to_nat pos) (replicate (Z.to_nat (24 * 80 - pos)) 0) (blit 0 (slice 80 (23 * 80) m) m).

Definition cgaputc (c : Z) : K con unit :=
  pos ← gets cursor;
  pos ← (if c =? 10 then mret (pos + (80 - pos mod 80))
         else if c =? BACKSPACE then mret (if 0 <? pos then pos - 1 else pos)
         else crt_store pos (Z.lor (Z.land c 255) 1792);; mret (pos + 1));
  if (pos <? 0) || (25 * 80 <? pos) then panic "pos under/overflow" else
  pos ← (if 24 <=? pos / 80 then
           modify (λ s, set_screen (scroll (pos - 80) (crt s)) (cursor s) s);; mret (pos - 80)
         else mret pos);
  modify (λ s, set_screen (crt s) (u16 pos) s);;
  crt_store pos (Z.lor 32 1792).

Definition consputc (c : Z) : K con unit :=
  p ← gets panicked;
  if (p : bool) then do_cli;; panic "frozen" else
  (if c =? BACKSPACE then uartputc 8;; uartputc 32;; uartputc 8 else uartputc c);;
  cgaputc c.

Definition conputs (l : list Z) : K con unit := for_each l consputc.

(** [printint] and [cprintf]; the arguments are as in [Printf], and [-xx] of the
    smallest int is undefined here too. *)
Definition chexits : list Z := str "0123456789abcdef".

Definition printint (xx base : Z) (sign : bool) : K con unit :=
  let sign := sign && (xx <? 0) in
  if sign && (xx =? - 2 ^ 31) then undef else
  let x := if sign then u32 (- xx) else u32 xx in
  match digit_loop chexits 32 x base [] with
  | None => undef
  | Some buf =>
      if sign then if bool_decide (length buf < 16)%nat then conputs (rev (buf ++ [45])) else undef
      else conputs (rev buf)
  end.

Fixpoint cprintf_loop (m : mem) (fmt : list Z) (argp : list Z) : K con unit :=
  match fmt with
  | [] => undef
  | c :: fmt =>
      let c := Z.land c 255 in
      if c =? 0 then mret () else
      if negb (c =? 37) then consputc c;; cprintf_loop m fmt argp else
      match fmt with
      | [] => undef
      | c :: fmt =>
          let c := Z.land c 255 in
          if c =? 0 then mret () else
          if c =? 100 then
            match argp with [] => undef | a :: argp => printint (s32 a) 10 true;; cprintf_loop m fmt argp end
          else if (c =? 120) || (c =? 112) then
            match argp with [] => undef | a :: argp => printint (s32 a) 16 false;; cprintf_loop m fmt argp end
          else if c =? 115 then
            match argp with
            | [] => undef
            | a :: argp =>
                s ← deref (if a =? 0 then Some (str "(null)") else put_str (drop (Z.to_nat a) m));
                conputs s;;
                cprintf_loop m fmt argp
            end
          else if c =? 37 then consputc 37;; cprintf_loop m fmt argp
          else consputc 37;; consputc c;; cprintf_loop m fmt argp
      end
  end.

(** A null format is [None]. *)
Definition cprintf (m : mem) (fmt : option (list Z)) (argp : list Z) : K con unit :=
  locking ← gets locking;
  (if (locking : bool) then acquire Lcons else mret ());;
  match fmt with
  | None => panic "null fmt"
  | Some fmt => cprintf_loop m fmt argp
  end;;
  if (locking : bool) then release Lcons else mret ().

(** ** Input *)

(** [input.buf[i % INPUT_BUF]] *)
Definition ring_get (i : Z) : K con Z := b ← gets in_buf; deref (b !! Z.to_nat (i mod INPUT_BUF)).

(** Kill line; the fuel is the length of the ring. *)
Fixpoint kill_line (fuel : nat) : K con unit :=
  s ← gets id;
  if in_e s =? in_w s then mret () else
  c ← ring_get (u32 (in_e s - 1));
  if c =? 10 then mret () else
  match fuel with
  | O => nofuel
  | S fuel =>
      modify (λ s, set_input (in_buf s) (in_r s) (in_w s) (u32 (in_e s - 1)) s);;
      consputc BACKSPACE;;
      kill_line fuel
  end.

(** One character of [consoleintr]; the result is the new [doprocdump]. *)
Definition intr_char (c : Z) (doprocdump : bool) : K con bool :=
  if c =? ctl 80 then mret true else
  if c =? ctl 85 then kill_line (Z.to_nat INPUT_BUF);; mret doprocdump else
  if (c =? ctl 72) || (c =? 127) then
    s ← gets id;
    (if in_e s =? in_w s then mret () else
       modify (λ s, set_input (in_buf s) (in_r s) (in_w s) (u32 (in_e s - 1)) s);;
       consputc BACKSPACE);;
    mret doprocdump
  else
    s ← gets id;
    (if negb (c =? 0) && (u32 (in_e s - in_r s) <? INPUT_BUF) then
       let c := if c =? 13 then 10 else c in
       modify (λ s, set_input (<[Z.to_nat (in_e s mod INPUT_BUF) := u8 c]> (in_buf s)) (in_r s) (in_w s) (u32 (in_e s + 1)) s);;
       consputc c;;
       s ← gets id;
       if (c =? 10) || (c =? ctl 68) || (in_e s =? u32 (in_r s + INPUT_BUF)) then
         modify (λ s, set_input (in_buf s) (in_r s) (in_e s) (in_e s) s);;
         wakeup CInput
       else mret ()
     else mret ());;
    mret doprocdump.

(** The characters [getc] delivers before it returns -1. *)
Fixpoint intr_loop (cs : list Z) (doprocdump : bool) : K con bool :=
  match cs with
  | [] => mret doprocdump
  | c :: cs => d ← intr_char c doprocdump; intr_loop cs d
  end.

Definition consoleintr (procdump : K con unit) (getc : list Z) : K con unit :=
  acquire Lcons;;
  d ← intr_loop getc false;
  release Lcons;;
  if (d : bool) then procdump else mret ().

(** What [consoleread] does between [iunlock] and [ilock]: [dst] is the bytes
    stored so far, [n] how many are still wanted.  A reader that finds no
    completed line sleeps, and goes on with the loop when it is woken.
    [false]: the process was killed. *)
Fixpoint read_loop (n : nat) (target : nat) (dst : list Z) : K con (bool * list Z) :=
  match n with
  | O => mret (true, dst)
  | S n' =>
      s ← gets id;
      if in_r s =? in_w s then
        if killed s then mret (false, dst) else sleep CInput Lcons
      else
        c ← ring_get (in_r s);
        modify (λ s, set_input (in_buf s) (u32 (in_r s + 1)) (in_w s) (in_e s) s);;
        if c =? ctl 68 then
          (if bool_decide (n < target)%nat
           then modify (λ s, set_input (in_buf s) (u32 (in_r s - 1)) (in_w s) (in_e s) s) else mret ());;
          mret (true, dst)
        else if c =? 10 then mret (true, dst ++ [c])
        else read_loop n' target (dst ++ [c])
  end.

Definition read_lines (n : nat) : K con (bool * list Z) :=
  acquire Lcons;;
  r ← read_loop n n [];
  release Lcons;;
  mret r.

(** [consoleread] and [consolewrite] with the inode of the console, whose lock
    they give up while they wait. *)
Section Device.
Context {B : Type} `{!BlockIO B}.

Definition on_con {A} (m : K con A) : K (con * fstate B) A := zoom fst (λ c s, (c, snd s)) m.
Definition on_fs {A} (m : K (fstate B) A) : K (con * fstate B) A := zoom snd (λ f s, (fst s, f)) m.

Definition consoleread (ip : nat) (n : Z) : K (con * fstate B) (Z * list Z) :=
  on_fs (iunlock (Some ip));;
  r ← on_con (read_lines (Z.to_nat n));
  on_fs (ilock (Some ip));;
  mret (if (r.1 : bool) then Z.of_nat (length r.2) else -1, r.2).

Definition consolewrite (ip : nat) (buf : list Z) (n : Z) : K (con * fstate B) Z :=
  on_fs (iunlock (Some ip));;
  on_con (acquire Lcons;; conputs ((λ c, Z.land c 255) <$> take (Z.to_nat n) buf);; release Lcons);;
  on_fs (ilock (Some ip));;
  mret n.
End Device.

Definition consoleinit : K con unit := initlock Lcons;; modify (set_locking true).
