(* ===== verification/ConsoleSpec.v ===== *)
(** * What the console promises

    The screen never leaves its memory and never panics; [cprintf] prints its
    format; the input is a queue of completed lines behind which the user edits
    the current one. *)

From S2P Require Import Prelude CInt CString Stdio Kernel Params BlockIO Fs Printf Console.

(** ** The screen *)

(** The cursor is on the screen of 25 rows; the text memory is larger. *)
Definition screen_ok (s : con) : Prop :=
  panicked s = false ∧ 0 ≤ cursor s < 25 * 80 ∧ (25 * 80 < length (crt s))%nat.

Definition blank : Z := 1824.
Definition cell (c : Z) : Z := Z.lor (Z.land c 255) 1792.

Lemma cell_u16 c : u16 (cell c) = cell c.
Proof.
  apply u16_small. rewrite /cell. assert (0 ≤ Z.land c 255 < 256) as H.
  { change 255 with (Z.ones 8). rewrite Z.land_ones; [lia|]. by apply Z.mod_pos_bound. }
  split; [apply Z.lor_nonneg; lia|].
  destruct (decide (Z.lor (Z.land c 255) 1792 = 0)) as [->|]; [lia|]. apply Z.log2_lt_pow2; [|].
  - pose proof (proj2 (Z.lor_nonneg (Z.land c 255) 1792) ltac:(lia)). lia.
  - rewrite Z.log2_lor; [lia|lia|]. apply Z.max_lub_lt; [|by vm_compute].
    destruct (decide (Z.land c 255 = 0)) as [->|]; [by vm_compute|]. apply Z.log2_lt_pow2; lia.
Qed.

Lemma crt_store_run pos v k L w s : 0 ≤ pos < length (crt s) →
  crt_store pos v (Kst k L w s) = Ret tt (Kst k L w (set_screen (<[Z.to_nat pos := u16 v]> (crt s)) (cursor s) s)).
Proof.
  intros Hp. rewrite /crt_store /mbind /K_bind /=. by rewrite (proj2 (Z.leb_le _ _)) ?(proj2 (Z.ltb_lt _ _)); [lia..|].
Qed.

Lemma length_scroll pos m : 0 ≤ pos ≤ 1920 → (1920 ≤ length m)%nat → length (scroll pos m) = length m.
Proof.
  intros Hp Hm. rewrite /scroll.
  assert (length (blit 0 (slice 80 (23 * 80) m) m) = length m) as E.
  { rewrite length_blit //. rewrite length_slice; lia. }
  rewrite length_blit E // length_replicate. lia.
Qed.

(** Where the cursor is after the character, before scrolling. *)
Definition advance (c pos : Z) : Z :=
  if c =? 10 then pos + (80 - pos mod 80) else if c =? BACKSPACE then (if 0 <? pos then pos - 1 else pos) else pos + 1.

Definition put_cell (c pos : Z) (m : list Z) : list Z :=
  if (c =? 10) || (c =? BACKSPACE) then m else <[Z.to_nat pos := cell c]> m.

Definition cga_next (c : Z) (m : list Z) (pos : Z) : list Z * Z :=
  let m := put_cell c pos m in
  let pos := advance c pos in
  if 24 <=? pos / 80 then (<[Z.to_nat (pos - 80) := blank]> (scroll (pos - 80) m), pos - 80)
  else (<[Z.to_nat pos := blank]> m, pos).

Lemma advance_range c pos : 0 ≤ pos < 2000 → 0 ≤ advance c pos ≤ 2000.
Proof.
  intros Hp. rewrite /advance. pose proof (Z.mod_pos_bound pos 80 ltac:(lia)). pose proof (Z.div_mod pos 80 ltac:(lia)).
  repeat case_match; breflect; lia.
Qed.

Lemma cgaputc_run c k L w s : screen_ok s →
  cgaputc c (Kst k L w s) = Ret tt (Kst k L w (set_screen (cga_next c (crt s) (cursor s)).1 (cga_next c (crt s) (cursor s)).2 s)).
Proof.
  intros (_&Hp&Hl). pose proof (advance_range c (cursor s) Hp) as Ha.
  assert (∃ m, m = put_cell c (cursor s) (crt s) ∧ length m = length (crt s)) as (m&Em&Hm).
  { eexists. split; [done|]. rewrite /put_cell. case_match; [done|]. by rewrite length_insert. }
  rewrite /cgaputc (bind_ret _ _ _ (cursor s) (Kst k L w s)) //.
  rewrite (bind_ret _ _ _ (advance c (cursor s)) (Kst k L w (set_screen m (cursor s) s))).
  { subst m. rewrite /advance /put_cell. destruct (c =? 10) eqn:E1; [by destruct s|].
    destruct (c =? BACKSPACE) eqn:E2; [by destruct s|]. cbn [orb].
    rewrite (bind_ret _ _ _ _ _ (crt_store_run _ _ _ _ _ _ _)); [lia|]. rewrite cell_u16 //. }
  rewrite /cga_next -Em. set (pos := advance c (cursor s)) in *.
  rewrite (proj2 (Z.ltb_ge pos 0)); [lia|]. rewrite (proj2 (Z.ltb_ge (25 * 80) pos)); [lia|]. cbn [orb].
  destruct (24 <=? pos / 80) eqn:E; breflect.
  - assert (1920 ≤ pos) by (pose proof (Z.div_mod pos 80 ltac:(lia)); pose proof (Z.mod_pos_bound pos 80 ltac:(lia)); lia).
    rewrite (bind_ret _ _ _ (pos - 80) (Kst k L w (set_screen (scroll (pos - 80) m) (cursor s) s))) //.
    rewrite (bind_ret _ _ _ tt (Kst k L w (set_screen (scroll (pos - 80) m) (pos - 80) s))).
    { rewrite /modify /= u16_small; [lia|done]. }
    rewrite crt_store_run //=. rewrite length_scroll; lia.
  - rewrite (bind_ret _ _ _ pos (Kst k L w (set_screen m (cursor s) s))) //.
    rewrite (bind_ret _ _ _ tt (Kst k L w (set_screen m pos s))).
    { rewrite /modify /= u16_small; [lia|done]. }
    rewrite crt_store_run //=. lia.
Qed.

Lemma cga_next_ok c m pos : 0 ≤ pos < 2000 → (2000 < length m)%nat →
  0 ≤ (cga_next c m pos).2 ≤ 1920 ∧ length (cga_next c m pos).1 = length m.
Proof.
  intros Hp Hm. pose proof (advance_range c pos Hp). rewrite /cga_next.
  assert (length (put_cell c pos m) = length m) as E by (rewrite /put_cell; case_match; [done|]; by rewrite length_insert).
  pose proof (Z.div_mod (advance c pos) 80 ltac:(lia)). pose proof (Z.mod_pos_bound (advance c pos) 80 ltac:(lia)).
  destruct (24 <=? _) eqn:E'; breflect; simpl; rewrite length_insert ?length_scroll; lia.
Qed.

Lemma cga_char c m pos : c ≠ 10 → c ≠ BACKSPACE → 0 ≤ pos → pos + 1 < 24 * 80 →
  cga_next c m pos = (<[Z.to_nat (pos + 1) := blank]> (<[Z.to_nat pos := cell c]> m), pos + 1).
Proof.
  intros H1 H2 H0 Hp. rewrite /cga_next /advance /put_cell (proj2 (Z.eqb_neq _ _) H1) (proj2 (Z.eqb_neq _ _) H2) /=.
  rewrite (proj2 (Z.leb_gt _ _)) //. apply Z.div_lt_upper_bound; lia.
Qed.

Lemma cga_newline m pos : 0 ≤ pos → cga_next 10 m pos =
  let p := (pos / 80 + 1) * 80 in
  if 24 <=? pos / 80 + 1 then (<[Z.to_nat (p - 80) := blank]> (scroll (p - 80) m), p - 80) else (<[Z.to_nat p := blank]> m, p).
Proof.
  intros H0. rewrite /cga_next /advance /put_cell /=.
  replace (pos + (80 - pos mod 80)) with ((pos / 80 + 1) * 80); [|pose proof (Z.div_mod pos 80 ltac:(lia)); lia].
  by rewrite Z.div_mul.
Qed.

(** Row 23 scrolled out: the rows have moved up and the last one is empty. *)
Lemma scroll_row m : (2000 < length m)%nat →
  let m' := <[Z.to_nat (23 * 80) := blank]> (scroll (23 * 80) m) in
  (∀ i, 0 ≤ i < 23 * 80 → m' !! Z.to_nat i = m !! Z.to_nat (i + 80)) ∧
  m' !! Z.to_nat (23 * 80) = Some blank ∧ ∀ i, 23 * 80 < i < 24 * 80 → m' !! Z.to_nat i = Some 0.
Proof.
  intros Hm m'. assert (length (slice 80 (23 * 80) m) = (23 * 80)%nat) as Hs by (rewrite length_slice; lia).
  assert (length (blit 0 (slice 80 (23 * 80) m) m) = length m) as Hb by (rewrite length_blit //; lia).
  split_and!.
  - intros i Hi. rewrite /m' list_lookup_insert_ne; [lia|]. rewrite /scroll lookup_blit_out; [rewrite ?length_replicate Hb; lia|lia|].
    rewrite lookup_blit_in; [lia|lia|]. rewrite lookup_slice; [lia|]. f_equal. lia.
  - rewrite /m' list_lookup_insert_eq //. rewrite length_scroll; lia.
  - intros i Hi. rewrite /m' list_lookup_insert_ne; [lia|]. rewrite /scroll lookup_blit_in; [rewrite ?length_replicate ?Hb; lia..|].
    rewrite lookup_replicate_2 //. lia.
Qed.

(** Only the devices changed. *)
Definition shown (s s' : con) : Prop :=
  in_buf s' = in_buf s ∧ in_r s' = in_r s ∧ in_w s' = in_w s ∧ in_e s' = in_e s ∧ locking s' = locking s ∧
  uart s' = uart s ∧ killed s' = killed s.

#[export] Instance shown_preorder : PreOrder shown.
Proof. split; [done|]. intros s1 s2 s3 (?&?&?&?&?&?&?) (?&?&?&?&?&?&?). split_and!; congruence. Qed.

(** [s'] is [s] after the bytes [b] were sent to the serial port, if there is one. *)
Definition sends (b : list Z) (s s' : con) : Prop :=
  shown s s' ∧ screen_ok s' ∧ sent s' = (if uart s then sent s ++ b else sent s).

Lemma sends_nil s : screen_ok s → sends [] s s.
Proof. intros Hs. split_and!; try done. rewrite app_nil_r. by case_match. Qed.

Lemma sends_app b1 b2 s1 s2 s3 : sends b1 s1 s2 → sends b2 s2 s3 → sends (b1 ++ b2) s1 s3.
Proof.
  intros (H1&_&E1) (H2&Hs&E2). split; [by etrans|]. split; [done|]. rewrite E2 E1.
  destruct H1 as (_&_&_&_&_&->&_). destruct (uart s1); [by rewrite app_assoc|done].
Qed.

(** What [consputc] sends to the serial port. *)
Definition echo (c : Z) : list Z := if c =? BACKSPACE then [8; 32; 8] else [u8 c].

Lemma uartputc_run c k L w s :
  uartputc c (Kst k L w s) = Ret tt (Kst k L w (if uart s then set_sent (sent s ++ [u8 c]) s else s)).
Proof. rewrite /uartputc /mbind /K_bind /=. by destruct (uart s). Qed.

Lemma consputc_run c k L w s : screen_ok s →
  ∃ s', consputc c (Kst k L w s) = Ret tt (Kst k L w s') ∧ sends (echo c) s s'.
Proof.
  intros Hs. destruct Hs as (Hpn&Hp&Hl) eqn:E. rewrite /consputc (bind_ret _ _ _ false (Kst k L w s)); [by rewrite /gets /= Hpn|].
  set (s1 := if uart s then set_sent (sent s ++ echo c) s else s).
  rewrite (bind_ret _ _ _ tt (Kst k L w s1)).
  { rewrite /s1 /echo. destruct (c =? BACKSPACE); [|apply uartputc_run].
    rewrite (bind_ret _ _ _ _ _ (uartputc_run _ _ _ _ _)) (bind_ret _ _ _ _ _ (uartputc_run _ _ _ _ _)) uartputc_run.
    destruct (uart s) eqn:Eu; rewrite /= ?Eu //=. by rewrite -!app_assoc. }
  assert (screen_ok s1 ∧ shown s s1 ∧ sent s1 = if uart s then sent s ++ echo c else sent s) as (Hs1&Hsh&Hse).
  { rewrite /s1. by destruct (uart s) eqn:Eu; split_and!. }
  rewrite (cgaputc_run c k L w s1 Hs1). eexists. split; [done|]. split; [|split].
  - etrans; [done|]. by destruct s1.
  - destruct Hs1 as (?&?&?). destruct (cga_next_ok c (crt s1) (cursor s1)) as [? Hlen]; [lia|lia|].
    split_and!; simpl; [done|lia..|]. by rewrite Hlen.
  - done.
Qed.

Lemma conputs_run l k L w s : screen_ok s → Forall is_byte l →
  ∃ s', conputs l (Kst k L w s) = Ret tt (Kst k L w s') ∧ sends l s s'.
Proof.
  intros Hs Hl. revert s Hs. induction Hl as [|c l Hc Hl IH]; intros s Hs.
  - exists s. split; [done|]. by apply sends_nil.
  - destruct (consputc_run c k L w s Hs) as (s1&E1&H1). destruct (IH s1) as (s2&E2&H2); [apply H1|].
    exists s2. rewrite /conputs /= (bind_ret _ _ _ _ _ E1). split; [done|].
    apply (sends_app [c] l s s1); [|done]. revert H1. rewrite /echo. unfold is_byte in Hc.
    rewrite (proj2 (Z.eqb_neq c BACKSPACE)); [rewrite /BACKSPACE; lia|]. by rewrite u8_small.
Qed.

(** The console screen is safe: whatever is written, the cursor stays on the
    screen, the text memory is written inside its bounds, and cgaputc does not
    panic.  An ordinary character appears at the cursor, which advances by
    one; a newline at the start of row [r] moves to the start of row [r + 1];
    at the end of row 23 the rows move up by one. *)
Theorem cgaputc_safe c k L w s : screen_ok s →
  ∃ s', cgaputc c (Kst k L w s) = Ret tt (Kst k L w s') ∧ screen_ok s' ∧ cursor s' ≤ 24 * 80 ∧
    length (crt s') = length (crt s) ∧
    (c ≠ 10 → c ≠ BACKSPACE → cursor s + 1 < 24 * 80 →
       cursor s' = cursor s + 1 ∧ crt s' = <[Z.to_nat (cursor s') := blank]> (<[Z.to_nat (cursor s) := cell c]> (crt s))) ∧
    (c = 10 → cursor s / 80 < 23 → cursor s' = (cursor s / 80 + 1) * 80) ∧
    (c = 10 → cursor s / 80 = 23 → cursor s' = 23 * 80 ∧
       (∀ i, 0 ≤ i < 23 * 80 → crt s' !! Z.to_nat i = crt s !! Z.to_nat (i + 80)) ∧
       crt s' !! Z.to_nat (23 * 80) = Some blank ∧ ∀ i, 23 * 80 < i < 24 * 80 → crt s' !! Z.to_nat i = Some 0).
Proof.
  intros Hs. rewrite cgaputc_run //. destruct Hs as (Hpn&Hp&Hl). destruct (cga_next_ok c (crt s) (cursor s)) as [Hc Hlen]; [lia|lia|].
  eexists. split; [done|]. split; [split_and!; simpl; [done|lia..|by rewrite Hlen]|]. simpl. split; [lia|]. split; [done|].
  split; [intros; by rewrite cga_char //; lia|]. split.
  - intros -> Hr. rewrite cga_newline; [lia|]. by rewrite (proj2 (Z.leb_gt _ _)); [lia|].
  - intros -> Hr. rewrite cga_newline; [lia|]. rewrite Hr /=. split; [done|]. by apply scroll_row.
Qed.

Definition demo_con : con := Con (replicate 128 0) 0 0 0 true false (replicate 4000 0) 1919 true [] false.

Lemma demo_con_ok : screen_ok demo_con.
Proof. rewrite /screen_ok /demo_con. cbn [panicked cursor crt]. rewrite length_replicate. split; [done|lia]. Qed.

Lemma cgaputc_safe_witness : let k := Cpu 0 true 0 false None in
  ∃ s', cgaputc 10 (Kst k ∅ ∅ demo_con) = Ret tt (Kst k ∅ ∅ s') ∧ cursor s' = 23 * 80 ∧ crt s' !! 1840%nat = Some blank.
Proof.
  intros k. destruct (cgaputc_safe 10 k ∅ ∅ demo_con demo_con_ok) as (s'&E&_&_&_&_&_&Hs).
  destruct (Hs eq_refl eq_refl) as (?&_&?&_). by exists s'.
Defined.

(** ** [cprintf] *)

Lemma numeral_bytes digits base x s : Forall is_byte digits → numeral digits base x s → Forall is_byte s.
Proof.
  intros Hd (ds&Hds&_). induction Hds as [|d c ds s [_ Hc] _ IH]; constructor; [|done].
  by apply (Forall_lookup_1 _ _ _ _ Hd Hc).
Qed.

Lemma printint_run xx base sign k L w s : 10 ≤ base ≤ 16 → - 2 ^ 31 ≤ xx < 2 ^ 31 → (sign = true → xx ≠ - 2 ^ 31) → screen_ok s →
  ∃ s' t, printint xx base sign (Kst k L w s) = Ret tt (Kst k L w s') ∧ shows chexits base sign xx t ∧ sends t s s'.
Proof.
  intros Hb Hx Hmin Hs. assert (Forall is_byte chexits) as Hch by (repeat constructor; by vm_compute).
  rewrite /printint /shows. destruct (sign && (xx <? 0)) eqn:E.
  - breflect. rewrite (proj2 (Z.eqb_neq _ _)); [by apply Hmin|]. cbn [andb]. destruct (convert_ok chexits base (u32 (- xx))) as (t&->&Ht&Hl); [done|done|apply u32_range|].
    rewrite u32_small in Ht; [unfold is_u32; lia|]. rewrite bool_decide_eq_true_2; [rewrite length_rev; lia|].
    rewrite rev_app_distr rev_involutive. destruct (conputs_run ([45] ++ t) k L w s) as (s'&E&Hsd); [done| |].
    + apply Forall_app. split; [by repeat constructor|]. by apply numeral_bytes in Ht.
    + exists s', (45 :: t). split; [exact E|]. split; [by exists t|done].
  - cbn [andb]. destruct (convert_ok chexits base (u32 xx)) as (t&->&Ht&Hl); [done|done|apply u32_range|]. rewrite rev_involutive.
    destruct (conputs_run t k L w s) as (s'&->&H); [done|by apply numeral_bytes in Ht|]. by exists s', t.
Qed.

(** The directives of [cprintf] are those of [Printf] without %c. *)
Definition cpiece_ok (m : mem) (p : piece) : Prop :=
  match p with
  | Char _ => False
  | Unknown c => is_byte c ∧ c ≠ 0 ∧ c ∉ str "dxps%"
  | p => piece_ok m p
  end.

Definition cpiece_out (m : mem) (p : piece) (s : list Z) : Prop :=
  match p with
  | Dec a => shows chexits 10 true (s32 a) s
  | Hex _ a => shows chexits 16 false (s32 a) s
  | p => piece_out m p s
  end.

Lemma conputs_step l k L w s : screen_ok s → Forall is_byte l →
  ∀ f : K con unit, ∃ s', (conputs l;; f) (Kst k L w s) = f (Kst k L w s') ∧ sends l s s'.
Proof.
  intros Hs Hl f. destruct (conputs_run l k L w s Hs Hl) as (s'&E&H). exists s'. by rewrite (bind_ret _ _ _ _ _ E).
Qed.

Lemma consputc_step c k L w s : screen_ok s → is_byte c →
  ∀ f : K con unit, ∃ s', (consputc c;; f) (Kst k L w s) = f (Kst k L w s') ∧ sends [c] s s'.
Proof.
  intros Hs Hc f. destruct (consputc_run c k L w s Hs) as (s'&E&H). exists s'. rewrite (bind_ret _ _ _ _ _ E). split; [done|].
  revert H. rewrite /echo. unfold is_byte in Hc. rewrite (proj2 (Z.eqb_neq c BACKSPACE)); [rewrite /BACKSPACE; lia|].
  by rewrite u8_small.
Qed.

Lemma cpiece_step m p fmt ap k L w s : cpiece_ok m p → screen_ok s →
  ∃ s' t, cprintf_loop m (piece_fmt p ++ fmt) (piece_args p ++ ap) (Kst k L w s) = cprintf_loop m fmt ap (Kst k L w s') ∧
    cpiece_out m p t ∧ sends t s s'.
Proof.
  destruct p as [c|a|b a|a|a| |c]; cbn [cpiece_ok piece_ok cpiece_out piece_out piece_args app]; try done.
  - intros (Hb&Hc0&Hc) Hs. cbn [piece_fmt app cprintf_loop]. rewrite (land_byte c) //.
    rewrite (proj2 (Z.eqb_neq _ _) Hc0) (proj2 (Z.eqb_neq _ _) Hc) /=.
    destruct (consputc_step c k L w s Hs Hb (cprintf_loop m fmt ap)) as (s'&->&H). by exists s', [c].
  - intros Hmin Hs. destruct (printint_run (s32 a) 10 true k L w s) as (s'&t&E&Ht&H); [lia|apply s32_range|done|done|].
    exists s', t. split; [|done].
    change (cprintf_loop m (piece_fmt (Dec a) ++ fmt) (a :: ap)) with (printint (s32 a) 10 true;; cprintf_loop m fmt ap).
    by rewrite (bind_ret _ _ _ _ _ E).
  - intros _ Hs. destruct (printint_run (s32 a) 16 false k L w s) as (s'&t&E&Ht&H); [lia|apply s32_range|done|done|].
    exists s', t. split; [|done].
    rewrite (_ : cprintf_loop m (piece_fmt (Hex b a) ++ fmt) (a :: ap) = (printint (s32 a) 16 false;; cprintf_loop m fmt ap)); [by destruct b|].
    by rewrite (bind_ret _ _ _ _ _ E).
  - intros Ha Hs. change (cprintf_loop m (piece_fmt (Text a) ++ fmt) (a :: ap)) with
      (t ← deref (if a =? 0 then Some (str "(null)") else put_str (drop (Z.to_nat a) m)); conputs t;; cprintf_loop m fmt ap).
    destruct (Z.eqb_spec a 0) as [->|Hz].
    + destruct (conputs_step (str "(null)") k L w s Hs ltac:(by repeat constructor) (cprintf_loop m fmt ap)) as (s'&E&H).
      exists s', (str "(null)"). done.
    + destruct Ha as [?|(t&r&Et&H0&Hb)]; [done|]. rewrite Et put_str_ok //.
      destruct (conputs_step t k L w s Hs Hb (cprintf_loop m fmt ap)) as (s'&E&H).
      exists s', t. split; [done|]. split; [split; [done|by exists r]|done].
  - intros _ Hs. destruct (consputc_step 37 k L w s Hs ltac:(done) (cprintf_loop m fmt ap)) as (s'&E&H). by exists s', [37].
  - intros (Hb&Hc0&Hc) Hs. cbn [piece_fmt app cprintf_loop].
    assert (c ≠ 100 ∧ c ≠ 120 ∧ c ≠ 112 ∧ c ≠ 115 ∧ c ≠ 37) as (?&?&?&?&?)
      by (vm_compute in Hc; split_and!; intros ->; apply Hc; set_solver).
    rewrite (land_byte c) // (proj2 (Z.eqb_neq c 0)) // !(proj2 (Z.eqb_neq c _)) //.
    destruct (conputs_step [37; c] k L w s Hs ltac:(by constructor; [|constructor; [|by apply Forall_nil]]) (cprintf_loop m fmt ap))
      as (s'&E&Hsd).
    exists s', [37; c]. split; [|done]. rewrite -E. clear E Hsd. rewrite /conputs /= /mbind /K_bind.
    destruct (consputc 37 _) as [? σ'| | | | | |]; try done. rewrite /mret /K_ret. by destruct (consputc c σ').
Qed.

Lemma cprintf_loop_run m ps extra k L w s : Forall (cpiece_ok m) ps → screen_ok s →
  ∃ s' outs, cprintf_loop m (concat (piece_fmt <$> ps) ++ [0]) (concat (piece_args <$> ps) ++ extra) (Kst k L w s) =
      Ret tt (Kst k L w s') ∧ Forall2 (cpiece_out m) ps outs ∧ sends (concat outs) s s'.
Proof.
  intros Hps. revert s. induction Hps as [|p ps Hp Hps IH]; intros s Hs; cbn [fmap list_fmap concat app].
  - exists s, []. split; [done|]. split; [constructor|by apply sends_nil].
  - rewrite -!app_assoc. edestruct (cpiece_step m p) as (s1&t&->&Ht&H1); [done|done|].
    destruct (IH s1) as (s2&outs&->&Ho&H2); [apply H1|]. exists s2, (t :: outs). split; [done|].
    split; [by constructor|]. by apply (sends_app t (concat outs) s s1).
Qed.

(** cprintf sends the text of its format to the serial port and the screen,
    directive by directive as printf does (but with small hexadecimal digits
    and without %c), takes and releases the console lock exactly if locking is
    on, and leaves the input alone. *)
Theorem cprintf_prints m ps extra k L w s : Forall (cpiece_ok m) ps → screen_ok s → cpu_ok k → L !! Lcons = None →
  ∃ s' outs, cprintf m (Some (concat (piece_fmt <$> ps) ++ [0])) (concat (piece_args <$> ps) ++ extra) (Kst k L w s) =
      Ret tt (Kst k L w s') ∧ Forall2 (cpiece_out m) ps outs ∧ sends (concat outs) s s'.
Proof.
  intros Hps Hs Hk HL. rewrite /cprintf (bind_ret _ _ _ (locking s) (Kst k L w s)) //. destruct (locking s).
  - rewrite (bind_ret _ _ _ _ _ (acquire_run _ _ _ _ _ Hk HL)).
    destruct (cprintf_loop_run m ps extra (pushed k) (<[Lcons := apicid k]> L) w s Hps Hs) as (s'&outs&E&Ho&H).
    exists s', outs. rewrite (bind_ret _ _ _ _ _ E) release_run ?lookup_insert_eq // delete_insert_id //.
  - destruct (cprintf_loop_run m ps extra k L w s Hps Hs) as (s'&outs&E&Ho&H).
    exists s', outs. by rewrite (bind_ret _ _ _ tt (Kst k L w s)) // (bind_ret _ _ _ _ _ E).
Qed.

Definition demo_cpu : cpu := Cpu 0 true 0 true None.

Lemma cprintf_prints_witness :
  ∃ s' outs, cprintf [] (Some (str "cpu%d: %x" ++ [10; 0])) [1; 48879] (Kst demo_cpu ∅ ∅ demo_con) = Ret tt (Kst demo_cpu ∅ ∅ s') ∧
    Forall2 (cpiece_out []) [Lit 99; Lit 112; Lit 117; Dec 1; Lit 58; Lit 32; Hex false 48879; Lit 10] outs ∧
    sends (concat outs) demo_con s'.
Proof.
  apply (cprintf_prints [] [Lit 99; Lit 112; Lit 117; Dec 1; Lit 58; Lit 32; Hex false 48879; Lit 10] [] demo_cpu ∅ ∅ demo_con).
  - by repeat (apply Forall_cons; split).
  - apply demo_con_ok.
  - split_and!; simpl; [lia|lia|done].
  - done.
Defined.
