(* ===== verification/ConsoleInput.v ===== *)
(** * Console input: the line discipline

    [ready] is the completed input that waits for readers, [edit] the line the
    user is typing.  [consoleintr] and [consoleread] on the ring buffer of
    console.c implement the operations on this pair of lists. *)

From S2P Require Import Prelude CInt CString Stdio Kernel Params BlockIO Fs Printf Console ConsoleSpec.

(** ** The abstract console *)

Record ldisc := Ld { ready : list Z; edit : list Z }.

(** The effect of a key. *)
Definition a_key (a : ldisc) (c : Z) : ldisc :=
  if c =? ctl 80 then a else
  if c =? ctl 85 then Ld (ready a) [] else
  if (c =? ctl 72) || (c =? 127) then Ld (ready a) (removelast (edit a)) else
  if (c =? 0) || (INPUT_BUF <=? length (ready a ++ edit a)) then a else
  let c := if c =? 13 then 10 else c in
  let e := edit a ++ [c] in
  if (c =? 10) || (c =? ctl 68) || (length (ready a ++ e) =? INPUT_BUF) then Ld (ready a ++ e) [] else Ld (ready a) e.

(** What is echoed. *)
Definition rubout : list Z := [8; 32; 8].
Definition a_echo (a : ldisc) (c : Z) : list Z :=
  if c =? ctl 80 then [] else
  if c =? ctl 85 then concat (replicate (length (edit a)) rubout) else
  if (c =? ctl 72) || (c =? 127) then (if bool_decide (edit a = []) then [] else rubout) else
  if (c =? 0) || (INPUT_BUF <=? length (ready a ++ edit a)) then [] else [if c =? 13 then 10 else c].

Fixpoint a_keys (a : ldisc) (cs : list Z) : ldisc * list Z :=
  match cs with
  | [] => (a, [])
  | c :: cs => let '(a', b) := a_keys (a_key a c) cs in (a', a_echo a c ++ b)
  end.

(** A read of [n] bytes that has stored [dst] already: it ends with a line, a
    control-D or [n] bytes, or it waits for more. *)
Inductive taken := Line (dst rest : list Z) | Wait (n : nat) (dst : list Z).

Fixpoint a_take (n target : nat) (dst ready : list Z) : taken :=
  match n with
  | O => Line dst ready
  | S n' =>
      match ready with
      | [] => Wait n dst
      | c :: r =>
          if c =? ctl 68 then Line dst (if bool_decide (n < target)%nat then ready else r)
          else if c =? 10 then Line (dst ++ [c]) r
          else a_take n' target (dst ++ [c]) r
      end
  end.

(** ** The ring holds the two lists *)

Definition held (s : con) (a : ldisc) : Prop :=
  length (in_buf s) = 128%nat ∧ is_u32 (in_r s) ∧ in_w s = u32 (in_r s + length (ready a)) ∧
  in_e s = u32 (in_r s + length (ready a ++ edit a)) ∧ length (ready a ++ edit a) ≤ INPUT_BUF ∧
  (∀ (i : nat) c, (ready a ++ edit a) !! i = Some c → in_buf s !! Z.to_nat ((in_r s + i) mod INPUT_BUF) = Some c).

(** A newline completes a line. *)
Definition crel (s : con) (a : ldisc) : Prop := held s a ∧ 10 ∉ edit a.

(** The devices changed by the echo [b]; the input may have changed. *)
Definition types (b : list Z) (s s' : con) : Prop :=
  screen_ok s' ∧ locking s' = locking s ∧ uart s' = uart s ∧ killed s' = killed s ∧
  sent s' = (if uart s then sent s ++ b else sent s).

Lemma types_nil s b r w e : screen_ok s → types [] s (set_input b r w e s).
Proof. intros Hs. split_and!; try done; [apply Hs..|]. simpl. rewrite app_nil_r. by case_match. Qed.

Lemma types_app b1 b2 s1 s2 s3 : types b1 s1 s2 → types b2 s2 s3 → types (b1 ++ b2) s1 s3.
Proof.
  intros (_&?&Eu&?&E1) (?&?&?&?&E2). split_and!; try congruence; try done. rewrite E2 E1 Eu.
  destruct (uart s1); [by rewrite app_assoc|done].
Qed.

Lemma sends_types b b' r w e s s' : sends b (set_input b' r w e s) s' → types b s s'.
Proof. intros ((?&?&?&?&?&?&?)&?&?). by split_and!. Qed.

Lemma crel_shown s s' a : shown s s' → crel s a → crel s' a.
Proof. intros (E1&E2&E3&E4&_) H. by rewrite /crel /held E1 E2 E3 E4. Qed.

Lemma u32_ring x : u32 x mod INPUT_BUF = x mod INPUT_BUF.
Proof.
  apply Z.mod_mod_divide. by exists (2 ^ 25).
Qed.

Lemma u32_inj r i j : is_u32 r → 0 ≤ i ≤ INPUT_BUF → 0 ≤ j ≤ INPUT_BUF → u32 (r + i) = u32 (r + j) → i = j.
Proof.
  rewrite /is_u32 /u32 /INPUT_BUF. intros Hr Hi Hj E.
  pose proof (Z.div_mod (r + i) (2 ^ 32) ltac:(lia)). pose proof (Z.div_mod (r + j) (2 ^ 32) ltac:(lia)). nia.
Qed.

Lemma ring_inj r i j : 0 ≤ i < INPUT_BUF → 0 ≤ j < INPUT_BUF → (r + i) mod INPUT_BUF = (r + j) mod INPUT_BUF → i = j.
Proof.
  rewrite /INPUT_BUF. intros Hi Hj E.
  pose proof (Z.div_mod (r + i) 128 ltac:(lia)). pose proof (Z.div_mod (r + j) 128 ltac:(lia)). nia.
Qed.

Lemma u32_sub x y z : u32 (u32 x - y) = u32 (x - y) ∧ u32 (u32 x + z) = u32 (x + z).
Proof. rewrite /u32. by rewrite Zminus_mod_idemp_l Zplus_mod_idemp_l. Qed.

Lemma ring_get_run x (i : nat) c k L w s a : crel s a → (ready a ++ edit a) !! i = Some c → x mod INPUT_BUF = (in_r s + i) mod INPUT_BUF →
  ring_get x (Kst k L w s) = Ret c (Kst k L w s).
Proof.
  intros ((_&_&_&_&_&Hg)&_) Hi Hx. rewrite /ring_get (bind_ret _ _ _ (in_buf s) (Kst k L w s)) // Hx (Hg i c Hi) //.
Qed.

Lemma empty_edit s a : crel s a → (in_e s =? in_w s) = bool_decide (edit a = []).
Proof.
  intros ((_&Hr&Hw&He&Hl&_)&_). rewrite Hw He. rewrite length_app in Hl |- *. case_bool_decide as E.
  - rewrite E /= Nat.add_0_r Z.eqb_refl //.
  - apply Z.eqb_neq. intros Eq. apply u32_inj in Eq; [|done|lia..]. destruct (edit a); [done|]. simpl in *. lia.
Qed.

Lemma empty_ready s a : crel s a → (in_r s =? in_w s) = bool_decide (ready a = []).
Proof.
  intros ((_&Hr&Hw&_&Hl&_)&_). rewrite Hw. rewrite length_app in Hl. case_bool_decide as E.
  - rewrite E /= Z.add_0_r u32_small // Z.eqb_refl //.
  - apply Z.eqb_neq. rewrite -{1}(u32_small _ Hr) -{1}(Z.add_0_r (in_r s)). intros Eq. apply u32_inj in Eq; [|done|lia..].
    destruct (ready a); [done|]. simpl in *. lia.
Qed.

(** ** Editing *)

Lemma crel_rubout s r e c : crel s (Ld r (e ++ [c])) →
  crel (set_input (in_buf s) (in_r s) (in_w s) (u32 (in_e s - 1)) s) (Ld r e).
Proof.
  intros ((Hb&Hr&Hw&He&Hl&Hg)&Hn). cbn [ready edit] in *. rewrite !length_app /= in Hl He. rewrite /crel /held. split_and!; try done; simpl.
  - rewrite He (proj1 (u32_sub _ _ 0)) length_app. f_equal. lia.
  - rewrite length_app. lia.
  - intros i d Hi. apply Hg. rewrite app_assoc. by apply lookup_app_l_Some.
  - set_solver.
Qed.

Lemma kill_line_run fuel k L w s r e : (length e ≤ fuel)%nat → crel s (Ld r e) → screen_ok s →
  ∃ s', kill_line fuel (Kst k L w s) = Ret tt (Kst k L w s') ∧ crel s' (Ld r []) ∧
    types (concat (replicate (length e) rubout)) s s'.
Proof.
  revert s e. induction fuel as [|fuel IH]; intros s e Hf Hc Hs.
  - destruct e; [|simpl in Hf; lia]. exists s. cbn [kill_line]. rewrite (bind_ret _ _ _ s (Kst k L w s)) // (empty_edit s _ Hc) /=.
    split; [done|]. split; [done|]. destruct s. by apply types_nil.
  - cbn [kill_line]. rewrite (bind_ret _ _ _ s (Kst k L w s)) // (empty_edit s _ Hc) /=.
    destruct (decide (e = [])) as [->|Hne]; [exists s; split; [done|]; split; [done|]; destruct s; by apply types_nil|].
    rewrite bool_decide_eq_false_2 //. destruct (exists_last Hne) as (e'&c&->).
    assert ((r ++ e' ++ [c]) !! length (r ++ e') = Some c) as Hlast.
    { rewrite app_assoc lookup_app_r // Nat.sub_diag //. }
    pose proof Hc as ((_&Hr&_&He&Hl&_)&Hn). cbn [ready edit] in *.
    rewrite (bind_ret _ _ _ _ _ (ring_get_run _ _ _ k L w s _ Hc Hlast _)).
    { rewrite He (proj1 (u32_sub _ _ 0)) u32_ring. f_equal. rewrite !length_app /=. lia. }
    destruct (Z.eqb_spec c 10); [set_solver|].
    rewrite (bind_ret _ _ _ tt (Kst k L w (set_input (in_buf s) (in_r s) (in_w s) (u32 (in_e s - 1)) s))) //.
    destruct (consputc_run BACKSPACE k L w (set_input (in_buf s) (in_r s) (in_w s) (u32 (in_e s - 1)) s)) as (s1&E1&H1); [done|].
    rewrite (bind_ret _ _ _ _ _ E1). rewrite length_app /= in Hf.
    destruct (IH s1 e') as (s2&E2&Hc2&H2); [lia|eapply crel_shown; [apply H1|by eapply crel_rubout]|apply H1|].
    exists s2. rewrite E2. split; [done|]. split; [done|].
    rewrite length_app Nat.add_comm /=. apply (types_app rubout _ s s1); [|done]. by eapply sends_types.
Qed.

Lemma held_push s a c : held s a → length (ready a ++ edit a) < INPUT_BUF → is_byte c →
  held (set_input (<[Z.to_nat (in_e s mod INPUT_BUF) := u8 c]> (in_buf s)) (in_r s) (in_w s) (u32 (in_e s + 1)) s)
    (Ld (ready a) (edit a ++ [c])).
Proof.
  intros (Hb&Hr&Hw&He&Hl&Hg) Hlt Hc. split_and!; simpl; try done.
  - by rewrite length_insert.
  - rewrite He (proj2 (u32_sub _ 0 _)) app_assoc (length_app (ready a ++ edit a)). f_equal. simpl. lia.
  - rewrite app_assoc (length_app (ready a ++ edit a)) /=. lia.
  - intros i d Hi. rewrite He u32_ring u8_small //. rewrite app_assoc in Hi.
    assert (0 ≤ (in_r s + length (ready a ++ edit a)) mod INPUT_BUF < 128) as Hm by by apply Z.mod_pos_bound.
    assert (0 ≤ (in_r s + i) mod INPUT_BUF < 128) as Hm' by by apply Z.mod_pos_bound.
    apply lookup_snoc_Some in Hi as [[Hi Hd]|[<- ->]].
    + rewrite list_lookup_insert_ne; [|by apply Hg]. intros E. apply Z2Nat.inj in E; [|lia..].
      apply ring_inj in E; lia.
    + rewrite list_lookup_insert_eq //. lia.
Qed.

Lemma held_commit s a : held s a → held (set_input (in_buf s) (in_r s) (in_e s) (in_e s) s) (Ld (ready a ++ edit a) []).
Proof. intros (Hb&Hr&Hw&He&Hl&Hg). by split_and!; simpl; rewrite ?app_nil_r. Qed.

Lemma free_space s a : held s a → u32 (in_e s - in_r s) = length (ready a ++ edit a).
Proof.
  intros (_&_&_&He&Hl&_). rewrite He (proj1 (u32_sub _ _ 0)). replace (_ - _) with (Z.of_nat (length (ready a ++ edit a))) by lia.
  apply u32_small. unfold is_u32, INPUT_BUF in *. lia.
Qed.

Lemma full_ring s a : held s a → (in_e s =? u32 (in_r s + INPUT_BUF)) = (length (ready a ++ edit a) =? INPUT_BUF).
Proof.
  intros (_&Hr&_&He&Hl&_). rewrite He. destruct (Z.eqb_spec (length (ready a ++ edit a)) INPUT_BUF) as [->|Hne]; [by rewrite Z.eqb_refl|].
  apply Z.eqb_neq. intros E. by apply u32_inj in E; [|done|unfold INPUT_BUF in *; lia..].
Qed.

(** The sleeping processes after input was completed. *)
Definition woken (a a' : ldisc) (w : gmap Z chan) : gmap Z chan :=
  if bool_decide (length (ready a') = length (ready a)) then w else filter (λ kv, kv.2 ≠ CInput) w.

Lemma insert_char_run c k L w s a : crel s a → screen_ok s → is_byte c → cpu_ok k → L !! Lptable = None →
  c ≠ 0 → length (ready a ++ edit a) < INPUT_BUF →
  let c := if c =? 13 then 10 else c in
  let a' := if (c =? 10) || (c =? ctl 68) || (length (ready a ++ edit a ++ [c]) =? INPUT_BUF)
            then Ld (ready a ++ edit a ++ [c]) [] else Ld (ready a) (edit a ++ [c]) in
  ∃ s', (modify (λ s, set_input (<[Z.to_nat (in_e s mod INPUT_BUF) := u8 c]> (in_buf s)) (in_r s) (in_w s) (u32 (in_e s + 1)) s);;
         consputc c;;
         s ← gets id;
         if (c =? 10) || (c =? ctl 68) || (in_e s =? u32 (in_r s + INPUT_BUF)) then
           modify (λ s, set_input (in_buf s) (in_r s) (in_e s) (in_e s) s);; wakeup CInput
         else mret ()) (Kst k L w s) = Ret tt (Kst k L (woken a a' w) s') ∧ crel s' a' ∧ types [c] s s'.
Proof.
  intros [Hh Hn] Hs Hb Hk HL H0 Hlt c'. assert (is_byte c') as Hb' by (rewrite /c'; case_match; [done|done]).
  pose proof (held_push s a c' Hh Hlt Hb') as H1. set (s1 := set_input _ _ _ _ s) in H1. intros a'.
  rewrite (bind_ret _ _ _ tt (Kst k L w s1)) //.
  destruct (consputc_run c' k L w s1) as (s2&E2&H2); [done|]. rewrite (bind_ret _ _ _ _ _ E2).
  assert (held s2 (Ld (ready a) (edit a ++ [c']))) as Hh2.
  { destruct H2 as [(E1&E3&E4&E5&_) _]. by rewrite /held E1 E3 E4 E5. }
  assert (types [c'] s s2) as Ht.
  { apply sends_types in H2. revert H2. rewrite /echo (proj2 (Z.eqb_neq _ _)); [unfold is_byte, BACKSPACE in *; lia|]. by rewrite u8_small. }
  rewrite (bind_ret _ _ _ s2 (Kst k L w s2)) // (full_ring s2 _ Hh2) /a' /=.
  destruct ((c' =? 10) || _ || _) eqn:E.
  - rewrite (bind_ret _ _ _ tt (Kst k L w (set_input (in_buf s2) (in_r s2) (in_e s2) (in_e s2) s2))) // wakeup_run //.
    eexists. rewrite /woken /= bool_decide_eq_false_2; [rewrite !length_app /=; lia|]. split; [done|]. split; [split; [|set_solver]|].
    + by apply (held_commit s2 (Ld (ready a) (edit a ++ [c']))).
    + rewrite -(app_nil_r [c']). apply (types_app _ _ s s2); [done|]. apply types_nil. apply Ht.
  - exists s2. rewrite /woken bool_decide_eq_true_2 //. split; [done|]. split; [|done]. split; [done|]. simpl.
    rewrite not_elem_of_app not_elem_of_cons. split; [done|]. split; [|set_solver]. breflect. congruence.
Qed.

Lemma intr_char_run c d k L w s a : crel s a → screen_ok s → is_byte c → cpu_ok k → L !! Lptable = None →
  ∃ s', intr_char c d (Kst k L w s) = Ret (d || (c =? ctl 80)) (Kst k L (woken a (a_key a c) w) s') ∧
    crel s' (a_key a c) ∧ types (a_echo a c) s s'.
Proof.
  intros Hc Hs Hb Hk HL. rewrite /intr_char /a_key /a_echo.
  assert (∀ a', ready a' = ready a → woken a a' w = w) as Hw by (intros a' E; rewrite /woken E bool_decide_eq_true_2 //).
  assert (types [] s s) as Hnil by (destruct s; by apply types_nil).
  destruct (c =? ctl 80) eqn:E1; [exists s; rewrite orb_true_r Hw //|]. rewrite orb_false_r.
  destruct (c =? ctl 85) eqn:E2.
  { destruct a as [r e]. destruct (kill_line_run (Z.to_nat INPUT_BUF) k L w s r e) as (s'&E&Hc'&Ht); [|done|done|].
    - destruct Hc as [(_&_&_&_&Hl&_) _]. cbn [ready edit] in Hl. rewrite length_app in Hl. lia.
    - exists s'. by rewrite (bind_ret _ _ _ _ _ E) Hw. }
  destruct ((c =? ctl 72) || (c =? 127)) eqn:E3.
  { rewrite (bind_ret _ _ _ s (Kst k L w s)) // (empty_edit s a Hc) Hw //. case_bool_decide as Ee.
    - exists s. split; [done|]. split; [|done]. rewrite Ee /=. destruct a as [r e]; simpl in *. by subst.
    - destruct a as [r e]. cbn [ready edit] in *. destruct (exists_last Ee) as (e'&x&->). rewrite removelast_last.
      destruct (consputc_run BACKSPACE k L w (set_input (in_buf s) (in_r s) (in_w s) (u32 (in_e s - 1)) s)) as (s1&E1'&H1); [done|].
      exists s1. rewrite /mbind /K_bind /modify /set_data /=. rewrite E1'. split; [done|].
      split; [eapply crel_shown; [apply H1|by eapply crel_rubout]|by eapply sends_types]. }
  rewrite (bind_ret _ _ _ s (Kst k L w s)) //. rewrite (free_space s a); [apply Hc|].
  destruct (Z.eqb_spec c 0) as [->|H0]; [exists s; rewrite Hw //|]. cbn [negb andb orb].
  destruct (Z.leb_spec INPUT_BUF (length (ready a ++ edit a))) as [Hlt|Hlt].
  { rewrite (proj2 (Z.ltb_ge _ _)); [lia|]. exists s. by rewrite Hw. }
  rewrite (proj2 (Z.ltb_lt _ _)); [lia|].
  destruct (insert_char_run c k L w s a Hc Hs Hb Hk HL H0 Hlt) as (s'&E&Hc'&Ht).
  exists s'. by rewrite (bind_ret _ _ _ _ _ E).
Qed.

Lemma a_key_ready a c : ∃ l, ready (a_key a c) = ready a ++ l.
Proof.
  assert (∃ l, ready a = ready a ++ l) as H by (exists []; by rewrite app_nil_r).
  rewrite /a_key. repeat case_match; simpl; eauto.
Qed.

Lemma a_keys_ready a cs : ∃ l, ready (a_keys a cs).1 = ready a ++ l.
Proof.
  revert a. induction cs as [|c cs IH]; intros a; simpl; [exists []; by rewrite app_nil_r|].
  destruct (a_key_ready a c) as [l1 E1]. destruct (IH (a_key a c)) as [l2 E2]. destruct (a_keys _ _); simpl in *.
  exists (l1 ++ l2). by rewrite E2 E1 app_assoc.
Qed.

Lemma woken_trans a1 a2 a3 w : (∃ l, ready a2 = ready a1 ++ l) → (∃ l, ready a3 = ready a2 ++ l) →
  woken a2 a3 (woken a1 a2 w) = woken a1 a3 w.
Proof.
  intros [l1 E1] [l2 E2]. rewrite /woken E2 E1 !length_app.
  repeat case_bool_decide; try lia; try done. apply map_filter_filter_r. naive_solver.
Qed.

Lemma intr_loop_run cs d k L w s a : crel s a → screen_ok s → Forall is_byte cs → cpu_ok k → L !! Lptable = None →
  ∃ s', intr_loop cs d (Kst k L w s) = Ret (d || bool_decide (ctl 80 ∈ cs)) (Kst k L (woken a (a_keys a cs).1 w) s') ∧
    crel s' (a_keys a cs).1 ∧ types (a_keys a cs).2 s s'.
Proof.
  intros Hc Hs Hcs Hk HL. revert a d w s Hc Hs. induction Hcs as [|c cs Hb Hcs IH]; intros a d w s Hc Hs; cbn [intr_loop a_keys].
  - exists s. rewrite bool_decide_eq_false_2; [set_solver|]. rewrite orb_false_r /woken bool_decide_eq_true_2 //. split; [done|].
    split; [done|]. destruct s. by apply types_nil.
  - destruct (intr_char_run c d k L w s a Hc Hs Hb Hk HL) as (s1&E1&Hc1&H1). rewrite (bind_ret _ _ _ _ _ E1).
    destruct (IH (a_key a c) (d || (c =? ctl 80)) (woken a (a_key a c) w) s1 Hc1) as (s2&E2&Hc2&H2); [apply H1|].
    rewrite woken_trans in E2; [apply a_key_ready|apply a_keys_ready|]. destruct (a_keys (a_key a c) cs) as [a' b] eqn:Ea. cbn [fst snd] in *.
    exists s2. rewrite E2. split; [|split; [done|by apply (types_app _ _ s s1)]]. f_equal. rewrite -orb_assoc. f_equal.
    destruct (Z.eqb_spec c (ctl 80)) as [->|Hne]; cbn [orb]; [rewrite bool_decide_eq_true_2 //; set_solver|].
    apply bool_decide_ext. set_solver.
Qed.

(** ** Reading *)

Lemma crel_advance s c r e : crel s (Ld (c :: r) e) →
  crel (set_input (in_buf s) (u32 (in_r s + 1)) (in_w s) (in_e s) s) (Ld r e).
Proof.
  intros ((Hb&Hr&Hw&He&Hl&Hg)&Hn). rewrite /crel /held. cbn [ready edit app] in *. simpl in Hw, He, Hl. split_and!; try done; simpl.
  - apply u32_range.
  - rewrite Hw (proj2 (u32_sub _ 0 _)). f_equal. lia.
  - rewrite He (proj2 (u32_sub _ 0 _)). f_equal. lia.
  - lia.
  - intros i d Hi. rewrite -(Hg (S i) d Hi). f_equal. f_equal.
    rewrite -(Zplus_mod_idemp_l (u32 _)) u32_ring Zplus_mod_idemp_l. f_equal. lia.
Qed.

Lemma crel_back s a : crel s a →
  crel (set_input (in_buf s) (u32 (u32 (in_r s + 1) - 1)) (in_w s) (in_e s) s) a.
Proof.
  intros H. rewrite (proj1 (u32_sub _ _ 0)) Z.add_simpl_r u32_small; [apply H|]. by destruct s.
Qed.

(** The state after a read has only the input changed. *)
Definition took (s s' : con) : Prop := ∃ r, s' = set_input (in_buf s) r (in_w s) (in_e s) s.

Lemma read_loop_run n target dst r e k L w s : crel s (Ld r e) →
  match a_take n target dst r with
  | Line d r' => ∃ s', read_loop n target dst (Kst k L w s) = Ret (true, d) (Kst k L w s') ∧ crel s' (Ld r' e) ∧ took s s'
  | Wait n' d => ∃ s', read_loop n target dst (Kst k L w s) =
      (if killed s then Ret (false, d) (Kst k L w s') else Sleep CInput Lcons (Kst k L w s')) ∧ crel s' (Ld [] e) ∧ took s s'
  end.
Proof.
  revert dst r s. induction n as [|n IH]; intros dst r s Hc; cbn [a_take read_loop].
  { exists s. split; [done|]. split; [done|]. exists (in_r s). by destruct s. }
  rewrite (bind_ret _ _ _ s (Kst k L w s)) // (empty_ready s _ Hc). cbn [ready]. destruct r as [|c r].
  { exists s. rewrite bool_decide_eq_true_2 //. split; [by destruct (killed s)|]. split; [done|]. exists (in_r s). by destruct s. }
  rewrite (bool_decide_eq_false_2 (c :: r = [])) //. rewrite (bind_ret _ _ _ _ _ (ring_get_run _ 0 c k L w s _ Hc _ _)); [done|by rewrite Z.add_0_r|].
  pose proof (crel_advance s c r e Hc) as Hc1. set (s1 := set_input _ _ _ _ s) in Hc1.
  rewrite (bind_ret _ _ _ tt (Kst k L w s1)) //.
  assert (∀ s', took s1 s' → took s s') as Ht by (intros s' [x ->]; by exists x).
  destruct (c =? ctl 68).
  { case_bool_decide.
    - exists (set_input (in_buf s) (u32 (u32 (in_r s + 1) - 1)) (in_w s) (in_e s) s). split; [done|]. split; [by apply crel_back|].
      by eexists.
    - exists s1. split; [done|]. split; [done|]. by eexists. }
  destruct (c =? 10); [exists s1; split; [done|]; split; [done|]; by eexists|].
  specialize (IH (dst ++ [c]) r s1 Hc1). destruct (a_take n target (dst ++ [c]) r); destruct IH as (s'&E&Hc'&?); exists s'; auto.
Qed.

Lemma read_lines_run n r e k L w s : crel s (Ld r e) → cpu_ok k → L !! Lcons = None →
  match a_take n n [] r with
  | Line d r' => ∃ s', read_lines n (Kst k L w s) = Ret (true, d) (Kst k L w s') ∧ crel s' (Ld r' e) ∧ took s s'
  | Wait n' d => ∃ s', read_lines n (Kst k L w s) =
      (if killed s then Ret (false, d) (Kst k L w s')
       else Sleep CInput Lcons (Kst (pushed k) (<[Lcons := apicid k]> L) w s')) ∧ crel s' (Ld [] e) ∧ took s s'
  end.
Proof.
  intros Hc Hk HL. rewrite /read_lines. pose proof (read_loop_run n n [] r e (pushed k) (<[Lcons := apicid k]> L) w s Hc) as H.
  destruct (a_take n n [] r); destruct H as (s'&E&Hc'&Ht); exists s'; (split; [|done]);
    rewrite (bind_ret _ _ _ _ _ (acquire_run _ _ _ _ _ Hk HL)).
  - rewrite (bind_ret _ _ _ _ _ E) (bind_ret _ _ _ _ _ (release_run _ _ _ _ _ Hk _)) ?lookup_insert_eq // delete_insert_id //.
  - destruct (killed s).
    + rewrite (bind_ret _ _ _ _ _ E) (bind_ret _ _ _ _ _ (release_run _ _ _ _ _ Hk _)) ?lookup_insert_eq // delete_insert_id //.
    + by rewrite {1}/mbind /K_bind E.
Qed.

(** A reader that waited and goes on with what was typed meanwhile takes what
    it would have taken had everything been there at once. *)
Lemma a_take_resume n target dst r1 r2 n' d :
  a_take n target dst r1 = Wait n' d → a_take n target dst (r1 ++ r2) = a_take n' target d r2.
Proof.
  revert dst r1. induction n as [|n IH]; intros dst r1; [done|]. destruct r1 as [|c r1]; [by intros [= <- <-]|].
  cbn [a_take app]. destruct (c =? ctl 68); [done|]. destruct (c =? 10); [done|]. apply IH.
Qed.

Lemma consoleintr_run pd cs k L w s a : crel s a → screen_ok s → Forall is_byte cs → cpu_ok k →
  L !! Lcons = None → L !! Lptable = None →
  ∃ s', consoleintr pd cs (Kst k L w s) =
      (if bool_decide (ctl 80 ∈ cs) then pd else mret ()) (Kst k L (woken a (a_keys a cs).1 w) s') ∧
    crel s' (a_keys a cs).1 ∧ types (a_keys a cs).2 s s'.
Proof.
  intros Hc Hs Hcs Hk HL HL'. rewrite /consoleintr (bind_ret _ _ _ _ _ (acquire_run _ _ _ _ _ Hk HL)).
  destruct (intr_loop_run cs false (pushed k) (<[Lcons := apicid k]> L) w s a Hc Hs Hcs) as (s'&E&Hc'&Ht);
    [by apply pushed_ok|by rewrite lookup_insert_ne|].
  exists s'. rewrite (bind_ret _ _ _ _ _ E) (bind_ret _ _ _ _ _ (release_run _ _ _ _ _ Hk _)) ?lookup_insert_eq //.
  rewrite delete_insert_id //.
Qed.

(** C11: The console input implements the line discipline.  consoleintr applies
    every key to the pair of completed input and current line, echoes it, and
    wakes the readers exactly when input was completed; it never overruns the
    ring, also across the wrap-around of the 32-bit indices.  A read takes the
    bytes in order, up to a newline, a control-D or the count; without completed
    input it returns -1 if the process was killed and otherwise sleeps on the
    input with the bytes taken so far consumed, and when it goes on it takes
    what it would have taken had all input been there at once. *)
Theorem console_refines pd cs n k L w s a : crel s a → screen_ok s → Forall is_byte cs → cpu_ok k →
  L !! Lcons = None → L !! Lptable = None →
  (∃ s', consoleintr pd cs (Kst k L w s) =
      (if bool_decide (ctl 80 ∈ cs) then pd else mret ()) (Kst k L (woken a (a_keys a cs).1 w) s') ∧
    crel s' (a_keys a cs).1 ∧ types (a_keys a cs).2 s s') ∧
  match a_take n n [] (ready a) with
  | Line d r => ∃ s', read_lines n (Kst k L w s) = Ret (true, d) (Kst k L w s') ∧ crel s' (Ld r (edit a)) ∧ took s s'
  | Wait n' d =>
      (∃ s', read_lines n (Kst k L w s) =
        (if killed s then Ret (false, d) (Kst k L w s')
         else Sleep CInput Lcons (Kst (pushed k) (<[Lcons := apicid k]> L) w s')) ∧ crel s' (Ld [] (edit a)) ∧ took s s') ∧
      ∀ more, a_take n n [] (ready a ++ more) = a_take n' n d more
  end.
Proof.
  intros Hc Hs Hcs Hk HL HL'. split; [by apply consoleintr_run|].
  destruct a as [r e]. pose proof (read_lines_run n r e k L w s Hc Hk HL) as H. cbn [ready edit] in *.
  destruct (a_take n n [] r) eqn:E; [done|]. split; [done|]. intros more. by apply a_take_resume.
Qed.

Lemma demo_con_crel : crel demo_con (Ld [] []).
Proof. split; [|set_solver]. by split_and!; vm_compute. Qed.

Lemma console_refines_witness :
  (∃ s', consoleintr (mret ()) (str "lz" ++ [8] ++ str "s" ++ [13]) (Kst demo_cpu ∅ {[ 7 := CInput ]} demo_con) =
      Ret tt (Kst demo_cpu ∅ ∅ s') ∧ crel s' (Ld (str "ls" ++ [10]) [])) ∧
  ∃ s', read_lines 100 (Kst demo_cpu ∅ ∅ demo_con) =
    Sleep CInput Lcons (Kst (pushed demo_cpu) (<[Lcons := 0]> ∅) ∅ s') ∧ crel s' (Ld [] []).
Proof.
  assert (cpu_ok demo_cpu) as Hk by (split_and!; simpl; [lia|lia|done]). split.
  - destruct (console_refines (mret ()) (str "lz" ++ [8] ++ str "s" ++ [13]) 100 demo_cpu ∅ {[ 7 := CInput ]} demo_con (Ld [] []))
      as [(s'&E&Hc&_) _]; [apply demo_con_crel|apply demo_con_ok|repeat constructor; by vm_compute|done..|].
    exists s'. split; [|exact Hc]. rewrite E. by vm_compute.
  - destruct (console_refines (mret ()) [] 100 demo_cpu ∅ ∅ demo_con (Ld [] []))
      as [_ [(s'&E&Hc&_) _]]; [apply demo_con_crel|apply demo_con_ok|constructor|done..|]. by exists s'.
Defined.

(** ** A line from the keyboard to the reader *)

(** A key of a line: a printable character, backspace, delete or kill-line. *)
Definition line_key (c : Z) : Prop := 32 ≤ c ≤ 127 ∨ c = ctl 72 ∨ c = ctl 85.

Definition edit_key (l : list Z) (c : Z) : list Z :=
  if c =? ctl 85 then [] else if (c =? ctl 72) || (c =? 127) then removelast l else l ++ [c].

Lemma length_removelast (l : list Z) : (length (removelast l) ≤ length l)%nat.
Proof. induction l as [|a [|b l] IH]; simpl in *; lia. Qed.

Lemma edit_key_length l c : (length (edit_key l c) ≤ S (length l))%nat.
Proof.
  rewrite /edit_key. destruct (c =? ctl 85); [simpl; lia|]. pose proof (length_removelast l).
  destruct (_ || _); [lia|]. rewrite length_app /=. lia.
Qed.

Lemma a_key_line e c : line_key c → (length e < 127)%nat → a_key (Ld [] e) c = Ld [] (edit_key e c).
Proof.
  intros Hc Hl. rewrite /a_key /edit_key. assert (c ≠ ctl 80 ∧ c ≠ 0 ∧ c ≠ 13 ∧ c ≠ 10 ∧ c ≠ ctl 68) as (H1&H2&H3&H4&H5)
    by (unfold line_key, ctl in *; lia).
  rewrite (proj2 (Z.eqb_neq _ _) H1). destruct (c =? ctl 85); [done|]. destruct (_ || _); [done|]. cbn [ready edit app].
  rewrite (proj2 (Z.eqb_neq _ _) H2) (proj2 (Z.eqb_neq _ _) H3) (proj2 (Z.eqb_neq _ _) H4) (proj2 (Z.eqb_neq _ _) H5).
  rewrite (proj2 (Z.leb_gt _ _)); [unfold INPUT_BUF; lia|]. cbn [orb].
  rewrite (proj2 (Z.eqb_neq _ _)) //. rewrite length_app /= /INPUT_BUF. lia.
Qed.

Lemma a_keys_line cs e : Forall line_key cs → (length e + length cs ≤ 127)%nat →
  (a_keys (Ld [] e) (cs ++ [13])).1 = Ld (foldl edit_key e cs ++ [10]) [] ∧ (length (foldl edit_key e cs) ≤ 127)%nat.
Proof.
  intros Hcs. revert e. induction Hcs as [|c cs Hc Hcs IH]; intros e Hl.
  - cbn [a_keys app foldl length] in *. split; [|lia]. rewrite /a_key. cbn [ready edit app]. change (ctl 80) with 16. cbn [Z.eqb].
    change (ctl 85) with 21. change (ctl 72) with 8. cbn [Z.eqb Pos.eqb orb]. rewrite (proj2 (Z.leb_gt _ _)); [unfold INPUT_BUF; lia|]. done.
  - cbn [a_keys app foldl length] in *. rewrite a_key_line //; [lia|]. pose proof (edit_key_length e c).
    specialize (IH (edit_key e c) ltac:(lia)). by destruct (a_keys _ _).
Qed.

Lemma edited_bytes cs e : Forall line_key cs → Forall (λ c, 32 ≤ c < 127) e → Forall (λ c, 32 ≤ c < 127) (foldl edit_key e cs).
Proof.
  intros Hcs. revert e. induction Hcs as [|c cs Hc Hcs IH]; intros e He; [done|]. apply IH. rewrite /edit_key.
  destruct (Z.eqb_spec c (ctl 85)); [constructor|]. destruct ((c =? ctl 72) || (c =? 127)) eqn:E.
  - clear -He. induction He as [|a [|b l] Ha He IHe]; [constructor..|]. change (removelast (a :: b :: l)) with (a :: removelast (b :: l)).
    by constructor.
  - apply Forall_app. split; [done|]. breflect. repeat constructor; unfold line_key in Hc; lia.
Qed.

Lemma a_take_line n target dst l : Forall (λ c, 32 ≤ c < 127) l → (length l < n)%nat →
  a_take n target dst (l ++ [10]) = Line (dst ++ l ++ [10]) [].
Proof.
  intros Hl. revert n dst. induction Hl as [|c l Hc Hl IH]; intros [|n] dst Hn; simpl in Hn; try lia; [done|].
  cbn [a_take app]. rewrite (proj2 (Z.eqb_neq _ _)); [unfold ctl; lia|]. rewrite (proj2 (Z.eqb_neq _ _)); [lia|].
  rewrite IH; [lia|]. by rewrite -app_assoc.
Qed.

(** From the keyboard to the reader: when the user types a line, with any
    corrections by backspace, delete and kill-line, and ends it with Enter, then
    every waiting reader is woken and a read with room for it returns exactly
    the corrected line and a newline. *)
Theorem console_line pd cs n k L w s : crel s (Ld [] []) → screen_ok s → cpu_ok k → L !! Lcons = None → L !! Lptable = None →
  Forall line_key cs → (length cs ≤ 127)%nat → (length (foldl edit_key [] cs) < n)%nat →
  ∃ s1 s2, consoleintr pd (cs ++ [13]) (Kst k L w s) = Ret tt (Kst k L (filter (λ kv, kv.2 ≠ CInput) w) s1) ∧
    read_lines n (Kst k L (filter (λ kv, kv.2 ≠ CInput) w) s1) =
      Ret (true, foldl edit_key [] cs ++ [10]) (Kst k L (filter (λ kv, kv.2 ≠ CInput) w) s2) ∧
    crel s2 (Ld [] []).
Proof.
  intros Hc Hs Hk HL HL' Hcs Hl Hn. destruct (a_keys_line cs [] Hcs ltac:(simpl; lia)) as [Ek Hlen].
  assert (Forall is_byte (cs ++ [13])) as Hb.
  { apply Forall_app. split; [|by repeat constructor]. eapply Forall_impl; [done|]. rewrite /line_key /is_byte /ctl. intros. lia. }
  destruct (consoleintr_run pd (cs ++ [13]) k L w s _ Hc Hs Hb Hk HL HL') as (s1&E1&Hc1&_). rewrite Ek in E1, Hc1.
  rewrite bool_decide_eq_false_2 in E1.
  { rewrite elem_of_app. intros [Hin|Hin]; [|set_solver]. rewrite Forall_forall in Hcs. specialize (Hcs _ Hin).
    unfold line_key, ctl in Hcs. lia. }
  rewrite /woken bool_decide_eq_false_2 in E1; [rewrite /= length_app /=; lia|].
  pose proof (read_lines_run n (foldl edit_key [] cs ++ [10]) [] k L (filter (λ kv, kv.2 ≠ CInput) w) s1 Hc1 Hk HL) as Hr.
  rewrite a_take_line in Hr; [by apply edited_bytes|done|]. destruct Hr as (s2&E2&Hc2&_). by exists s1, s2.
Qed.

Lemma console_line_witness : let keys := str "lz" ++ [8] ++ str "s" in
  foldl edit_key [] keys = str "ls" ∧
  ∃ s1 s2, consoleintr (mret ()) (keys ++ [13]) (Kst demo_cpu ∅ {[ 7 := CInput ]} demo_con) = Ret tt (Kst demo_cpu ∅ ∅ s1) ∧
    read_lines 100 (Kst demo_cpu ∅ ∅ s1) = Ret (true, str "ls" ++ [10]) (Kst demo_cpu ∅ ∅ s2) ∧ crel s2 (Ld [] []).
Proof.
  intros keys. split; [done|]. assert (filter (λ kv : Z * chan, kv.2 ≠ CInput) ({[ 7 := CInput ]} : gmap Z chan) = ∅) as E by by vm_compute.
  pose proof (console_line (mret ()) keys 100 demo_cpu ∅ {[ 7 := CInput ]} demo_con) as H. rewrite E in H.
  apply H; [apply demo_con_crel|apply demo_con_ok|split_and!; simpl; [lia|lia|done]|done|done| |by vm_compute; lia|by vm_compute; lia].
  change keys with [108; 122; 8; 115]. repeat (apply Forall_cons; split; [rewrite /line_key /ctl; lia|]). constructor.
Defined.
