(* ===== verification/Umalloc.v ===== *)
(** * The allocator of xv6 user programs: [src/Xv6-Syscall/src/umalloc.c]

    Memory is seen as headers at byte addresses: [hdrs] maps an address to the
    header (ptr, size) stored there; a header that was never written reads as
    zeros.  The program may use the static header [base] and the bytes from
    [lo], the break it was started with, up to the current break; any other
    access is undefined and gives [None].  A header has 8 bytes, and so has the
    unit of [size].  [grow] is the kernel's part of [sbrk]: the new break for a
    break and a number of bytes, or [None] if it refuses. *)

From S2P Require Import Prelude CInt.

Record heap := Heap { hdrs : gmap Z (Z * Z); freep : Z; brk : Z }.

Section Umalloc.
Context (base lo : Z) (grow : Z → Z → option Z).

Definition accessible (h : heap) (a : Z) : bool := (a =? base) || (lo <=? a) && (a + 8 <=? brk h).

Definition header (h : heap) (a : Z) : option (Z * Z) :=
  if accessible h a then Some (default (0, 0) (hdrs h !! a)) else None.

Definition set_header (h : heap) (a : Z) (x : Z * Z) : option heap :=
  if accessible h a then Some (Heap (<[a := x]> (hdrs h)) (freep h) (brk h)) else None.

Definition ptr_of (h : heap) (a : Z) : option Z := fst <$> header h a.
Definition size_of (h : heap) (a : Z) : option Z := snd <$> header h a.
Definition set_ptr (h : heap) (a v : Z) : option heap := x ← header h a; set_header h a (v, snd x).
Definition set_size (h : heap) (a v : Z) : option heap := x ← header h a; set_header h a (fst x, v).
Definition set_freep (h : heap) (p : Z) : heap := Heap (hdrs h) p (brk h).

(** [p + n] for a pointer to headers. *)
Definition padd (p n : Z) : Z := u32 (p + 8 * n).

(** [sbrk]: the old break, or -1. *)
Definition sbrk (h : heap) (n : Z) : Z * heap :=
  match grow (brk h) n with
  | Some b => (brk h, Heap (hdrs h) (freep h) b)
  | None => (u32 (-1), h)
  end.

(** The loop of [free] that finds the block in front of [bp]. *)
Fixpoint find_prev (fuel : nat) (h : heap) (bp p : Z) : option Z :=
  match fuel with
  | O => None
  | S fuel =>
      q ← ptr_of h p;
      if (p <? bp) && (bp <? q) then Some p else
      if (q <=? p) && ((p <? bp) || (bp <? q)) then Some p else find_prev fuel h bp q
  end.

Definition free (fuel : nat) (h : heap) (ap : Z) : option heap :=
  let bp := padd ap (-1) in
  p ← find_prev fuel h bp (freep h);
  bsize ← size_of h bp;
  q ← ptr_of h p;
  h ← (if padd bp bsize =? q then
         qsize ← size_of h q;
         h ← set_size h bp (u32 (bsize + qsize));
         qptr ← ptr_of h q;
         set_ptr h bp qptr
       else set_ptr h bp q);
  psize ← size_of h p;
  h ← (if padd p psize =? bp then
         bsize ← size_of h bp;
         h ← set_size h p (u32 (psize + bsize));
         bptr ← ptr_of h bp;
         set_ptr h p bptr
       else set_ptr h p bp);
  Some (set_freep h p).

(** [morecore]: the new [freep], or 0. *)
Definition morecore (fuel : nat) (h : heap) (nu : Z) : option (Z * heap) :=
  let nu := if nu <? 4096 then 4096 else nu in
  let '(p, h) := sbrk h (s32 (u32 (nu * 8))) in
  if p =? u32 (-1) then Some (0, h) else
  h ← set_size h p nu;
  h ← free fuel h (padd p 1);
  Some (freep h, h).

(** The loop of [malloc].  [fuel] bounds the steps of this loop and of the one
    of [free]. *)
Fixpoint search (fuel fuel' : nat) (h : heap) (nunits prevp p : Z) : option (Z * heap) :=
  match fuel with
  | O => None
  | S fuel =>
      size ← size_of h p;
      if nunits <=? size then
        if size =? nunits then
          q ← ptr_of h p;
          h ← set_ptr h prevp q;
          Some (padd p 1, set_freep h prevp)
        else
          h ← set_size h p (u32 (size - nunits));
          let p := padd p (size - nunits) in
          h ← set_size h p nunits;
          Some (padd p 1, set_freep h prevp)
      else if p =? freep h then
        r ← morecore fuel' h nunits;
        let '(p, h) := (r : Z * heap) in
        if p =? 0 then Some (0, h) else
        q ← ptr_of h p;
        search fuel fuel' h nunits p q
      else
        q ← ptr_of h p;
        search fuel fuel' h nunits p q
  end.

Definition malloc (fuel : nat) (h : heap) (nbytes : Z) : option (Z * heap) :=
  let nunits := u32 (nbytes + 8 - 1) / 8 + 1 in
  h ← (if freep h =? 0 then
         h ← set_ptr h base base;
         h ← set_size h base 0;
         Some (set_freep h base)
       else Some h);
  p ← ptr_of h (freep h);
  search fuel fuel h nunits (freep h) p.
End Umalloc.

(** ** Correctness of malloc and free

    The free blocks form a circular list through [base], sorted by address and
    with gaps between them (neighbouring free blocks are always merged).
    [heap_ok h L A]: [L] is the free blocks and [A] the allocated ones, given
    by address and size; all of them are disjoint.  [malloc] moves a block from
    [L] to [A], or asks the kernel for more; [free] moves it back. *)

(** ** Lists of blocks *)

Notation blocks := (list (Z * Z)).

(** The address of the first block, or [z]. *)
Definition first (L : blocks) (z : Z) : Z := match L with [] => z | (a, _) :: _ => a end.

(** The headers at the blocks of [L] link each one to the next and the last one to [z]. *)
Fixpoint linked (m : gmap Z (Z * Z)) (L : blocks) (z : Z) : Prop :=
  match L with
  | [] => True
  | (a, s) :: L => m !! a = Some (first L z, s) ∧ linked m L z
  end.

(** Nonempty blocks behind [e], in order and with gaps. *)
Fixpoint spaced (e : Z) (L : blocks) : Prop :=
  match L with
  | [] => True
  | (a, s) :: L => e < a ∧ 0 < s ∧ spaced (a + 8 * s) L
  end.

(** The byte behind the last block. *)
Fixpoint top (e : Z) (L : blocks) : Z :=
  match L with [] => e | (a, s) :: L => top (a + 8 * s) L end.

Lemma linked_app m L1 L2 z : linked m (L1 ++ L2) z ↔ linked m L1 (first L2 z) ∧ linked m L2 z.
Proof.
  induction L1 as [|[a s] L1 IH]; simpl; [tauto|]. rewrite IH.
  assert (first (L1 ++ L2) z = first L1 (first L2 z)) as -> by by destruct L1 as [|[??]]. tauto.
Qed.

Lemma linked_frame m m' L z : (∀ a s, (a, s) ∈ L → m' !! a = m !! a) → linked m L z → linked m' L z.
Proof.
  induction L as [|[a s] L IH]; [done|]. simpl. intros Hm [Ha HL]. split; [rewrite (Hm a s) //; set_solver|].
  apply IH; [|done]. intros b t Hb. apply (Hm b t). set_solver.
Qed.

Lemma spaced_app e L1 L2 : spaced e (L1 ++ L2) ↔ spaced e L1 ∧ spaced (top e L1) L2.
Proof. revert e. induction L1 as [|[a s] L1 IH]; intros e; simpl; [tauto|]. rewrite IH. tauto. Qed.

Lemma spaced_weaken e e' L : e' ≤ e → spaced e L → spaced e' L.
Proof. destruct L as [|[a s] L]; [done|]. simpl. intros ? (?&?&?). split_and!; try done. lia. Qed.

Lemma top_app e L1 L2 : top e (L1 ++ L2) = top (top e L1) L2.
Proof. revert e. induction L1 as [|[a s] L1 IH]; intros e; simpl; [done|]. apply IH. Qed.

Lemma spaced_bound e L a s : spaced e L → (a, s) ∈ L → e < a ∧ 0 < s ∧ a + 8 * s ≤ top e L.
Proof.
  revert e. induction L as [|[b t] L IH]; intros e; simpl; [set_solver|]. intros (He&Ht&HL) Hin.
  assert (∀ e L, spaced e L → e ≤ top e L) as Hge.
  { clear. intros e L. revert e. induction L as [|[c u] L IH]; intros e; simpl; [lia|]. intros (?&?&H). apply IH in H. lia. }
  apply elem_of_cons in Hin as [[= -> ->]|Hin].
  - split; [done|]. split; [done|]. by apply Hge.
  - destruct (IH _ HL Hin) as (?&?&?). split_and!; lia.
Qed.

Lemma spaced_before e L1 L2 a s : spaced e (L1 ++ L2) → (a, s) ∈ L1 → ∀ b t, (b, t) ∈ L2 → a + 8 * s < b.
Proof.
  rewrite spaced_app. intros [H1 H2] Ha b t Hb. destruct (spaced_bound _ _ _ _ H1 Ha) as (_&_&?).
  destruct (spaced_bound _ _ _ _ H2 Hb) as (?&_&_). lia.
Qed.

(** As [spaced], with blocks that may be empty. *)
Fixpoint wspaced (e : Z) (L : blocks) : Prop :=
  match L with
  | [] => True
  | (a, s) :: L => e < a ∧ 0 ≤ s ∧ wspaced (a + 8 * s) L
  end.

Lemma wspaced_app e L1 L2 : wspaced e (L1 ++ L2) ↔ wspaced e L1 ∧ wspaced (top e L1) L2.
Proof. revert e. induction L1 as [|[a s] L1 IH]; intros e; simpl; [tauto|]. rewrite IH. tauto. Qed.

Lemma spaced_wspaced e e' L : e' ≤ e → spaced e L → wspaced e' L.
Proof.
  revert e e'. induction L as [|[a s] L IH]; [done|]. simpl. intros e e' ? (?&?&?). split_and!; [lia|lia|]. by eapply IH.
Qed.

Lemma wspaced_spaced e e' L : wspaced e' L → (∀ a s, (a, s) ∈ L → e < a ∧ 0 < s) → spaced e L.
Proof.
  revert e e'. induction L as [|[a s] L IH]; [done|]. simpl. intros e e' (?&?&HL) Hb. destruct (Hb a s) as [? ?]; [set_solver|].
  split_and!; try done. apply (IH _ _ HL). intros b t Hin. destruct (Hb b t) as [_ ?]; [set_solver|]. split; [|done].
  clear -HL Hin. revert HL. generalize (a + 8 * s). induction L as [|[c u] L IH]; intros e; [set_solver|]. simpl.
  intros (?&?&?). apply elem_of_cons in Hin as [[= -> ->]|Hin]; [done|]. specialize (IH Hin (c + 8 * u)). lia || (pose proof (IH ltac:(done)); lia).
Qed.

Lemma wspaced_raise e e' L z : wspaced e L → (L ≠ [] → e' < first L z) → wspaced e' L.
Proof. destruct L as [|[a s] L]; [done|]. simpl. intros (?&?&?) Hf. split_and!; try done. by apply Hf. Qed.

(** ** The invariant *)

Definition apart_blocks (a s b t : Z) : Prop := a + 8 * s ≤ b ∨ b + 8 * t ≤ a.

Section Spec.
Context (base lo : Z).

Record heap_ok (h : heap) (L : blocks) (A : gmap Z Z) : Prop := {
  ok_base : 0 < base ∧ base + 8 ≤ lo ∧ lo ≤ brk h ≤ 2 ^ 31;
  ok_freep : freep h ∈ base :: L.*1;
  ok_linked : linked (hdrs h) ((base, 0) :: L) base;
  ok_spaced : spaced (lo - 1) L;
  ok_top : ∀ a s, (a, s) ∈ L → a + 8 * s ≤ brk h;
  ok_alloc : ∀ a t, A !! a = Some t → 0 < t ∧ lo ≤ a ∧ a + 8 * t ≤ brk h ∧ ∃ q, hdrs h !! a = Some (q, t);
  ok_apart : ∀ a s b t, (a, s) ∈ L → A !! b = Some t → apart_blocks a s b t;
  ok_allocs : ∀ a s b t, A !! a = Some s → A !! b = Some t → a ≠ b → apart_blocks a s b t
}.

(** A header that is in use can be accessed. *)
Definition usable (h : heap) (a : Z) : Prop := a = base ∨ lo ≤ a ∧ a + 8 ≤ brk h.

Lemma accessible_usable h a : usable h a → accessible base lo h a = true.
Proof.
  intros [->|[H1 H2]]; rewrite /accessible; [by rewrite Z.eqb_refl|].
  by rewrite (proj2 (Z.leb_le _ _) H1) (proj2 (Z.leb_le _ _) H2) orb_true_r.
Qed.

Lemma header_Some h a x : usable h a → hdrs h !! a = Some x → header base lo h a = Some x.
Proof. intros Hu Hx. by rewrite /header accessible_usable // Hx. Qed.

Lemma set_header_Some h a x : usable h a → set_header base lo h a x = Some (Heap (<[a := x]> (hdrs h)) (freep h) (brk h)).
Proof. intros Hu. by rewrite /set_header accessible_usable. Qed.

Lemma ptr_of_Some h a p s : usable h a → hdrs h !! a = Some (p, s) → ptr_of base lo h a = Some p.
Proof. intros. by rewrite /ptr_of (header_Some _ _ (p, s)). Qed.

Lemma size_of_Some h a p s : usable h a → hdrs h !! a = Some (p, s) → size_of base lo h a = Some s.
Proof. intros. by rewrite /size_of (header_Some _ _ (p, s)). Qed.

Lemma set_ptr_Some h a p s v : usable h a → hdrs h !! a = Some (p, s) →
  set_ptr base lo h a v = Some (Heap (<[a := (v, s)]> (hdrs h)) (freep h) (brk h)).
Proof. intros. by rewrite /set_ptr (header_Some _ _ (p, s)) //= set_header_Some. Qed.

Lemma set_size_Some h a p s v : usable h a → hdrs h !! a = Some (p, s) →
  set_size base lo h a v = Some (Heap (<[a := (p, v)]> (hdrs h)) (freep h) (brk h)).
Proof. intros. by rewrite /set_size (header_Some _ _ (p, s)) //= set_header_Some. Qed.

Lemma ok_block h L A a s : heap_ok h L A → (a, s) ∈ L → base + 8 ≤ a ∧ lo ≤ a ∧ 0 < s ∧ a + 8 * s ≤ brk h ∧ usable h a.
Proof.
  intros H Hin. destruct (ok_base _ _ _ H). destruct (spaced_bound _ _ _ _ (ok_spaced _ _ _ H) Hin) as (?&?&_).
  pose proof (ok_top _ _ _ H _ _ Hin). split_and!; try lia. right. lia.
Qed.

Lemma ok_node h L A a s : heap_ok h L A → (a, s) ∈ (base, 0) :: L → usable h a.
Proof.
  intros H Hin. apply elem_of_cons in Hin as [[= -> ->]|Hin]; [by left|]. by eapply ok_block.
Qed.

(** The whole list, with [base], is in ascending order. *)
Lemma ok_asc h L A L1 L2 a s b t : heap_ok h L A → (base, 0) :: L = L1 ++ L2 → (a, s) ∈ L1 → (b, t) ∈ L2 → a + 8 * s < b.
Proof.
  intros H E Ha Hb. destruct L1 as [|x L1]; [by apply elem_of_nil in Ha|]. simpl in E. simplify_eq.
  apply elem_of_cons in Ha as [[= -> ->]|Ha].
  - destruct (ok_block h (L1 ++ L2) A b t H) as [? _]; [set_solver|]. lia.
  - by eapply spaced_before; [apply (ok_spaced _ _ _ H)|..].
Qed.

Lemma ok_linked_at h L A K x sx M : heap_ok h L A → (base, 0) :: L = K ++ (x, sx) :: M →
  hdrs h !! x = Some (first M base, sx) ∧ usable h x.
Proof.
  intros H E. pose proof (ok_linked _ _ _ H) as Hl. rewrite E linked_app in Hl. destruct Hl as (_&Hx&_). split; [done|].
  eapply (ok_node h L A x sx H). rewrite E. set_solver.
Qed.

Lemma ok_lt h L A L1 L2 a s b t : heap_ok h L A → (base, 0) :: L = L1 ++ L2 → (a, s) ∈ L1 → (b, t) ∈ L2 → a < b.
Proof.
  intros H E Ha Hb. pose proof (ok_asc _ _ _ _ _ _ _ _ _ H E Ha Hb). assert ((a, s) ∈ (base, 0) :: L) as Hin by (rewrite E; set_solver).
  apply elem_of_cons in Hin as [[= -> ->]|Hin]; [lia|]. pose proof (ok_block _ _ _ _ _ H Hin). lia.
Qed.

Lemma ok_base_le h L A a s : heap_ok h L A → (a, s) ∈ (base, 0) :: L → base ≤ a.
Proof. intros H Hin. apply elem_of_cons in Hin as [[= -> ->]|Hin]; [lia|]. pose proof (ok_block _ _ _ _ _ H Hin). lia. Qed.

(** ** [free] finds the neighbours of the block *)

Lemma find_low h L A bp p ps L2 : heap_ok h L A → p < bp → (∀ b t, (b, t) ∈ L2 → bp < b) →
  ∀ M K fuel, (base, 0) :: L = K ++ M ++ (p, ps) :: L2 → (length M < fuel)%nat →
  find_prev base lo fuel h bp (first (M ++ (p, ps) :: L2) base) = Some p.
Proof.
  intros H Hp H2. induction M as [|[x sx] M IH]; intros K [|fuel] E Hf; simpl in Hf; try lia.
  - simpl in *. destruct (ok_linked_at h L A K p ps L2 H E) as [Hh Hu]. rewrite (ptr_of_Some _ _ _ _ Hu Hh) /=.
    rewrite (proj2 (Z.ltb_lt p bp)); [lia|]. cbn [andb]. destruct L2 as [|[b t] L2]; simpl.
    + assert (base ≤ p). { destruct K as [|[??] K]; simplify_eq/=; [lia|]. destruct (ok_block h _ A p ps H); [set_solver|lia]. }
      rewrite (proj2 (Z.ltb_ge bp base)); [lia|]. by rewrite (proj2 (Z.leb_le base p)); [lia|].
    + rewrite (proj2 (Z.ltb_lt bp b)) //. apply (H2 b t). set_solver.
  - destruct (ok_linked_at h L A K x sx (M ++ (p, ps) :: L2) H E) as [Hh Hu].
    change (first (((x, sx) :: M) ++ (p, ps) :: L2) base) with x. cbn [find_prev]. rewrite (ptr_of_Some _ _ _ _ Hu Hh). cbn [mbind option_bind].
    assert (x < first (M ++ (p, ps) :: L2) base ≤ p) as [Hx Hq].
    { assert ((base, 0) :: L = (K ++ [(x, sx)]) ++ M ++ (p, ps) :: L2) as E1 by rewrite -app_assoc //.
      destruct M as [|[y sy] M]; simpl; split; try lia.
      - eapply (ok_lt h L A _ _ x sx p ps H E1); set_solver.
      - eapply (ok_lt h L A _ _ x sx y sy H E1); set_solver.
      - assert (y < p); [|lia].
        eapply (ok_lt h L A (K ++ (x, sx) :: (y, sy) :: M) ((p, ps) :: L2) y sy p ps H); [by rewrite E -app_assoc|set_solver..]. }
    rewrite (proj2 (Z.ltb_ge bp _)); [lia|]. rewrite andb_false_r (proj2 (Z.leb_gt _ x)); [lia|]. cbn [andb].
    apply (IH (K ++ [(x, sx)])); [|lia]. by rewrite -app_assoc.
Qed.

Lemma find_high h L A bp : heap_ok h L A → base < bp →
  ∀ M K fuel, (base, 0) :: L = K ++ M → (∀ b t, (b, t) ∈ M → bp < b) →
  find_prev base lo (length M + fuel) h bp (first M base) = find_prev base lo fuel h bp base.
Proof.
  intros H Hb. induction M as [|[x sx] M IH]; intros K fuel E HM; [done|].
  destruct (ok_linked_at h L A K x sx M H E) as [Hh Hu]. cbn [length Nat.add first find_prev].
  rewrite (ptr_of_Some _ _ _ _ Hu Hh). cbn [mbind option_bind]. pose proof (HM x sx ltac:(set_solver)) as Hx.
  rewrite (proj2 (Z.ltb_ge x bp)); [lia|]. cbn [andb orb].
  rewrite -(IH (K ++ [(x, sx)]) fuel); [by rewrite -app_assoc|set_solver|].
  destruct M as [|[y sy] M]; simpl first.
  - rewrite (proj2 (Z.ltb_ge bp base)); [lia|]. by rewrite andb_false_r.
  - rewrite (proj2 (Z.leb_gt y x)) //. apply (ok_lt h L A (K ++ [(x, sx)]) ((y, sy) :: M) x sx y sy H); [by rewrite -app_assoc|set_solver..].
Qed.

Lemma find_prev_ok h L A bp W p ps L2 fuel : heap_ok h L A → (base, 0) :: L = W ++ (p, ps) :: L2 →
  p < bp → (∀ b t, (b, t) ∈ L2 → bp < b) → (2 * S (length L) ≤ fuel)%nat →
  find_prev base lo fuel h bp (freep h) = Some p.
Proof.
  intros H E Hp H2 Hf. pose proof (f_equal length E) as El. rewrite length_app /= in El.
  assert (freep h ∈ ((base, 0) :: L).*1) as Hin by apply (ok_freep _ _ _ H).
  apply list_elem_of_fmap in Hin as ([f fs]&Ef&Hin). simpl in Ef. rewrite E in Hin.
  apply elem_of_app in Hin as [Hin|[[= -> ->]|Hin]%elem_of_cons].
  - apply list_elem_of_split in Hin as (K&M&->). rewrite Ef.
    apply (find_low h L A bp p ps L2 H Hp H2 ((f, fs) :: M) K fuel); [by rewrite E -app_assoc|].
    rewrite length_app /= in El. simpl. lia.
  - rewrite Ef. apply (find_low h L A bp p ps L2 H Hp H2 [] W fuel); [done|simpl; lia].
  - apply list_elem_of_split in Hin as (K&M&->).
    rewrite length_app /= in El. replace fuel with (length ((f, fs) :: M) + (fuel - S (length M)))%nat by (simpl; lia).
    rewrite Ef. change f with (first ((f, fs) :: M) base).
    rewrite (find_high h L A bp H _ ((f, fs) :: M) (W ++ (p, ps) :: K)).
    + eapply Z.le_lt_trans; [|exact Hp]. eapply (ok_base_le h L A p ps H). rewrite E. set_solver.
    + rewrite E -app_assoc //.
    + intros b t Hb. apply (H2 b t). set_solver.
    + assert (first (W ++ (p, ps) :: K ++ (f, fs) :: M) base = base) as Eb by (rewrite -E //).
      rewrite -{2}Eb. apply (find_low h L A bp p ps (K ++ (f, fs) :: M) H Hp H2 W []); [done|]. lia.
Qed.

(** ** Rebuilding the invariant *)

Lemma ok_wspaced h L A : heap_ok h L A → wspaced 0 ((base, 0) :: L).
Proof.
  intros H. destruct (ok_base _ _ _ H). simpl. split_and!; [lia|lia|]. eapply spaced_wspaced; [|apply (ok_spaced _ _ _ H)]. lia.
Qed.

Lemma heap_ok_intro h L A :
  0 < base ∧ base + 8 ≤ lo ∧ lo ≤ brk h ≤ 2 ^ 31 → freep h ∈ base :: L.*1 → linked (hdrs h) ((base, 0) :: L) base →
  wspaced 0 ((base, 0) :: L) → (∀ a s, (a, s) ∈ L → lo ≤ a ∧ 0 < s ∧ a + 8 * s ≤ brk h) →
  (∀ a t, A !! a = Some t → 0 < t ∧ lo ≤ a ∧ a + 8 * t ≤ brk h ∧ ∃ q, hdrs h !! a = Some (q, t)) →
  (∀ a s b t, (a, s) ∈ L → A !! b = Some t → apart_blocks a s b t) →
  (∀ a s b t, A !! a = Some s → A !! b = Some t → a ≠ b → apart_blocks a s b t) →
  heap_ok h L A.
Proof.
  intros Hb Hf Hl (_&_&Hw) HL HA Ha Haa. split; try done.
  - eapply wspaced_spaced; [done|]. intros a s Hin. destruct (HL a s Hin) as (?&?&?). lia.
  - intros a s Hin. by destruct (HL a s Hin) as (?&?&?).
Qed.

(** The block to be freed lies between two blocks of the list. *)
Lemma split_at h L A bp bs : heap_ok h L A → A !! bp = Some bs →
  ∃ W p ps L2, (base, 0) :: L = W ++ (p, ps) :: L2 ∧ p < bp ∧ p + 8 * ps ≤ bp ∧
    ∀ b t, (b, t) ∈ L2 → bp + 8 * bs ≤ b.
Proof.
  intros H HA. destruct (ok_alloc _ _ _ H _ _ HA) as (Hbs&Hlo&Hbrk&_). destruct (ok_base _ _ _ H) as (Hb0&Hb1&Hb2).
  assert (∀ M, (∀ a s, (a, s) ∈ M → (a, s) ∈ L) → spaced (lo - 1) M →
    ∃ M1 M2, M = M1 ++ M2 ∧ (∀ a s, (a, s) ∈ M1 → a + 8 * s ≤ bp) ∧ ∀ a s, (a, s) ∈ M2 → bp + 8 * bs ≤ a) as Hsplit.
  { generalize (lo - 1). intros e M. revert e. induction M as [|[a s] M IH]; intros e Hin HM; [exists [], []; set_solver|].
    simpl in HM. destruct HM as (He&Hs&HM). destruct (ok_apart _ _ _ H a s bp bs) as [Hd|Hd]; [set_solver|done|..].
    - destruct (IH (a + 8 * s)) as (M1&M2&->&H1&H2); [set_solver|done|]. exists ((a, s) :: M1), M2. split; [done|].
      split; [|done]. intros b t Hb. apply elem_of_cons in Hb as [[= -> ->]|Hb]; [done|]. by apply H1.
    - exists [], ((a, s) :: M). split; [done|]. split; [set_solver|]. intros b t Hb.
      apply elem_of_cons in Hb as [[= -> ->]|Hb]; [done|]. destruct (spaced_bound _ _ _ _ HM Hb). lia. }
  destruct (Hsplit L) as (M1&M2&->&H1&H2); [done|apply (ok_spaced _ _ _ H)|].
  destruct (decide (M1 = [])) as [->|Hne].
  - exists [], base, 0, M2. split_and!; [done|lia|lia|done].
  - destruct (exists_last Hne) as (K&[p ps]&->). exists ((base, 0) :: K), p, ps, M2.
    pose proof (ok_block _ _ _ p ps H ltac:(set_solver)) as (?&?&?&_). pose proof (H1 p ps ltac:(set_solver)).
    split_and!; [by rewrite /= -app_assoc|lia|lia|done].
Qed.

(** ** [free] *)

Lemma padd_small p n : 0 ≤ p + 8 * n ≤ 2 ^ 31 → padd p n = p + 8 * n.
Proof. intros. rewrite /padd u32_small // /is_u32. lia. Qed.

Definition merge_up_step (h : heap) (bp bsize q : Z) : option heap :=
  if padd bp bsize =? q then
    qsize ← size_of base lo h q;
    h ← set_size base lo h bp (u32 (bsize + qsize));
    qptr ← ptr_of base lo h q;
    set_ptr base lo h bp qptr
  else set_ptr base lo h bp q.

Lemma merge_up h L A bp bs W p ps L2 : heap_ok h L A → A !! bp = Some bs → (base, 0) :: L = W ++ (p, ps) :: L2 →
  (∀ b t, (b, t) ∈ L2 → bp + 8 * bs ≤ b) →
  ∃ bs' L2', merge_up_step h bp bs (first L2 base) =
      Some (Heap (<[bp := (first L2' base, bs')]> (hdrs h)) (freep h) (brk h)) ∧
    bs ≤ bs' ∧ bp + 8 * bs' ≤ brk h ∧ wspaced (bp + 8 * bs') L2' ∧ (∀ b t, (b, t) ∈ L2' → (b, t) ∈ L2 ∧ (b, t) ∈ L) ∧
    linked (hdrs h) L2' base ∧ (∀ b t, A !! b = Some t → b ≠ bp → apart_blocks bp bs' b t) ∧ (length L2' ≤ length L2)%nat.
Proof.
  intros H HA E H2. destruct (ok_alloc _ _ _ H _ _ HA) as (Hbs&Hlo&Hbrk&r&Hr). destruct (ok_base _ _ _ H) as (Hb0&Hb1&Hb2).
  assert (usable h bp) as Hub by (right; lia). rewrite /merge_up_step padd_small; [lia|].
  pose proof (ok_wspaced _ _ _ H) as Hw. pose proof (ok_linked _ _ _ H) as Hl. rewrite E in Hw, Hl.
  rewrite wspaced_app in Hw. rewrite linked_app in Hl. destruct Hw as (_&_&_&Hw), Hl as (_&_&Hl).
  assert (∀ b t, (b, t) ∈ L2 → (b, t) ∈ L) as Hin.
  { destruct W as [|? W]; simplify_eq/=; [done|]. set_solver. }
  destruct (Z.eqb_spec (bp + 8 * bs) (first L2 base)) as [Eq|Ne].
  - destruct L2 as [|[q qs] L3]; simpl in Eq; [lia|]. subst q. simpl in Hl, Hw. destruct Hl as [Hq Hl], Hw as (_&_&Hw).
    destruct (ok_block _ _ _ (bp + 8 * bs) qs H) as (?&?&?&?&Huq); [apply Hin; set_solver|]. cbn [first].
    rewrite (size_of_Some h _ _ _ Huq Hq). cbn [mbind option_bind]. rewrite (set_size_Some h bp r bs _ Hub Hr). cbn [mbind option_bind].
    rewrite u32_small; [unfold is_u32; lia|].
    rewrite (ptr_of_Some _ _ (first L3 base) qs) //=; [by rewrite lookup_insert_ne; [lia|]|].
    rewrite (set_ptr_Some _ _ r (bs + qs)) //=; [by rewrite lookup_insert_eq|]. rewrite insert_insert_eq.
    exists (bs + qs), L3. split; [done|]. split_and!; try lia; [by replace (bp + 8 * (bs + qs)) with (bp + 8 * bs + 8 * qs) by lia|set_solver|done|].
    intros b t Hb Hne. pose proof (ok_allocs _ _ _ H bp bs b t HA Hb ltac:(done)) as Ha3.
    pose proof (ok_apart _ _ _ H (bp + 8 * bs) qs b t (Hin (bp + 8 * bs) qs (list_elem_of_here _ _)) Hb) as Ha4.
    destruct (ok_alloc _ _ _ H _ _ Hb) as (?&_). unfold apart_blocks in *. lia.
  - rewrite (set_ptr_Some h bp r bs _ Hub Hr). exists bs, L2. split; [done|]. split_and!; try lia; [|by eauto|done|].
    + apply (wspaced_raise _ _ _ base Hw). intros Hne. destruct L2 as [|[q qs] L2]; [done|]. simpl in *.
      specialize (H2 q qs ltac:(set_solver)). lia.
    + intros b t Hb Hne. by apply (ok_allocs _ _ _ H bp bs b t).
Qed.

Definition merge_down_step (h : heap) (bp p : Z) : option heap :=
  psize ← size_of base lo h p;
  h ← (if padd p psize =? bp then
         bsize ← size_of base lo h bp;
         h ← set_size base lo h p (u32 (psize + bsize));
         bptr ← ptr_of base lo h bp;
         set_ptr base lo h p bptr
       else set_ptr base lo h p bp);
  Some (set_freep h p).

Lemma free_steps fuel h bp p bsize : 0 ≤ bp < 2 ^ 31 → find_prev base lo fuel h bp (freep h) = Some p →
  size_of base lo h bp = Some bsize →
  free base lo fuel h (bp + 8) =
    q ← ptr_of base lo h p; h ← merge_up_step h bp bsize q; merge_down_step h bp p.
Proof.
  intros Hbp Hp Hb. rewrite /free. rewrite (_ : padd (bp + 8) (-1) = bp); [rewrite padd_small; lia|].
  rewrite Hp /= Hb /=. done.
Qed.

(** The list after the block was put in, merged with its upper neighbour already. *)
Definition put_in (W : blocks) (p ps bp bs' : Z) (L2' : blocks) : blocks :=
  if p + 8 * ps =? bp then W ++ (p, ps + bs') :: L2' else W ++ (p, ps) :: (bp, bs') :: L2'.

Lemma merge_down h L A bp bs W p ps L2 bs' L2' :
  heap_ok h L A → A !! bp = Some bs → (base, 0) :: L = W ++ (p, ps) :: L2 → p < bp → p + 8 * ps ≤ bp →
  bs ≤ bs' → bp + 8 * bs' ≤ brk h →
  let m := <[bp := (first L2' base, bs')]> (hdrs h) in
  ∃ x, merge_down_step (Heap m (freep h) (brk h)) bp p = Some (Heap (<[p := x]> m) p (brk h)) ∧
    x = if p + 8 * ps =? bp then (first L2' base, ps + bs') else (bp, ps).
Proof.
  intros H HA E Hp Hps Hbs Hbrk m. destruct (ok_alloc _ _ _ H _ _ HA) as (Hbs0&Hlo&Hbrk0&_). destruct (ok_base _ _ _ H) as (Hb0&Hb1&Hb2).
  destruct (ok_linked_at h L A W p ps L2 H E) as [Hh Hu]. assert (0 ≤ ps ∧ base ≤ p) as [Hps0 Hbp].
  { assert ((p, ps) ∈ (base, 0) :: L) as Hin by (rewrite E; set_solver). split; [|by eapply ok_base_le].
    apply elem_of_cons in Hin as [[= -> ->]|Hin]; [lia|]. destruct (ok_block _ _ _ _ _ H Hin) as (_&_&?&_). lia. }
  set (h1 := Heap m (freep h) (brk h)). assert (usable h1 p ∧ usable h1 bp) as [Hup Hub] by (split; [done|right; simpl; lia]).
  assert (hdrs h1 !! p = Some (first L2 base, ps)) as Hp1 by (rewrite /= /m lookup_insert_ne //; lia).
  assert (hdrs h1 !! bp = Some (first L2' base, bs')) as Hbp1 by rewrite /= /m lookup_insert_eq //.
  rewrite /merge_down_step (size_of_Some h1 _ _ _ Hup Hp1). cbn [mbind option_bind]. rewrite padd_small; [lia|].
  destruct (Z.eqb_spec (p + 8 * ps) bp) as [Eq|Ne].
  - rewrite (size_of_Some h1 _ _ _ Hub Hbp1). cbn [mbind option_bind]. rewrite (set_size_Some h1 _ _ _ _ Hup Hp1). cbn [mbind option_bind].
    rewrite (ptr_of_Some _ bp (first L2' base) bs'); [done|by rewrite /= lookup_insert_ne; [lia|]|]. cbn [mbind option_bind].
    rewrite (set_ptr_Some _ p (first L2 base) (u32 (ps + bs'))); [done|by rewrite /= lookup_insert_eq|].
    cbn. rewrite insert_insert_eq. eexists. split; [done|]. rewrite u32_small // /is_u32. lia.
  - rewrite (set_ptr_Some h1 _ _ _ _ Hup Hp1). by eexists.
Qed.

Section Put.
Context (h : heap) (L : blocks) (A : gmap Z Z) (H : heap_ok h L A).
Context (bp bs : Z) (HA : A !! bp = Some bs).
Context (W : blocks) (p ps : Z) (L2 : blocks) (E : (base, 0) :: L = W ++ (p, ps) :: L2).
Context (Hp : p < bp) (Hps : p + 8 * ps ≤ bp) (H2 : ∀ b t, (b, t) ∈ L2 → bp + 8 * bs ≤ b).
Context (bs' : Z) (L2' : blocks) (Hbs : bs ≤ bs') (Htop : bp + 8 * bs' ≤ brk h).
Context (Hw2 : wspaced (bp + 8 * bs') L2') (Hin2 : ∀ b t, (b, t) ∈ L2' → (b, t) ∈ L2 ∧ (b, t) ∈ L).
Context (Hl2 : linked (hdrs h) L2' base) (Hap : ∀ b t, A !! b = Some t → b ≠ bp → apart_blocks bp bs' b t).
Context (Hlen2 : (length L2' ≤ length L2)%nat).

Let m' := <[p := if p + 8 * ps =? bp then (first L2' base, ps + bs') else (bp, ps)]> (<[bp := (first L2' base, bs')]> (hdrs h)).

Lemma put_in_linked : linked m' (put_in W p ps bp bs' L2') base.
Proof.
  destruct (ok_alloc _ _ _ H _ _ HA) as (Hbs0&Hlo&_). pose proof (ok_linked _ _ _ H) as Hl. rewrite E linked_app in Hl. destruct Hl as [HlW _].
  assert (∀ z, linked (hdrs h) W z → linked m' W z) as HW.
  { intros z. apply linked_frame. intros a s Ha.
    assert (a < p) by (eapply (ok_lt h L A W ((p, ps) :: L2) a s p ps H E); [done|set_solver]).
    rewrite /m' !lookup_insert_ne //; lia. }
  assert (linked m' L2' base) as HL2.
  { eapply linked_frame; [|done]. intros a s Ha. destruct (Hin2 a s Ha) as [Ha2 _]. specialize (H2 a s Ha2).
    rewrite /m' !lookup_insert_ne //; lia. }
  assert (m' !! p = Some (if p + 8 * ps =? bp then (first L2' base, ps + bs') else (bp, ps))) as Hmp by rewrite /m' lookup_insert_eq //.
  assert (m' !! bp = Some (first L2' base, bs')) as Hmb by (rewrite /m' lookup_insert_ne; [lia|]; by rewrite lookup_insert_eq).
  rewrite /put_in. destruct (p + 8 * ps =? bp); rewrite linked_app; (split; [by apply HW|]); simpl; by rewrite ?Hmp ?Hmb.
Qed.

Lemma put_in_wspaced : wspaced 0 (put_in W p ps bp bs' L2').
Proof.
  destruct (ok_alloc _ _ _ H _ _ HA) as (Hbs0&Hlo&_). pose proof (ok_wspaced _ _ _ H) as Hw. rewrite E wspaced_app in Hw. destruct Hw as (HW&?&?&_).
  rewrite /put_in. destruct (Z.eqb_spec (p + 8 * ps) bp) as [Eq|Ne]; rewrite wspaced_app; simpl; split_and!; try done; try lia.
  by replace (p + 8 * (ps + bs')) with (bp + 8 * bs') by lia.
Qed.

(** The blocks of the new list. *)
Lemma put_in_blocks : ∃ L', put_in W p ps bp bs' L2' = (base, 0) :: L' ∧ p ∈ base :: L'.*1 ∧
  (∃ a s, (a, s) ∈ L' ∧ bs ≤ s) ∧
  ∀ a s, (a, s) ∈ L' → (a, s) ∈ L ∨ (a = bp ∧ s = bs') ∨ ((p, ps) ∈ L ∧ p + 8 * ps = bp ∧ a = p ∧ s = ps + bs').
Proof.
  destruct (ok_alloc _ _ _ H _ _ HA) as (Hbs0&Hlo&_). destruct (ok_base _ _ _ H) as (?&?&_). rewrite /put_in. destruct W as [|x K]; simpl in E.
  - assert (p = base ∧ ps = 0 ∧ L = L2) as (->&->&->) by (by simplify_eq). rewrite (proj2 (Z.eqb_neq _ _)); [lia|].
    exists ((bp, bs') :: L2'). split; [done|]. split; [set_solver|]. split; [exists bp, bs'; split; [set_solver|lia]|].
    intros a s [[= -> ->]|Ha]%elem_of_cons; [by auto|]. left. by apply Hin2.
  - simplify_eq. assert (0 < ps) by (destruct (ok_block _ _ _ p ps H) as (?&?&?&_); [set_solver|lia]).
    destruct (Z.eqb_spec (p + 8 * ps) bp) as [Eq|Ne].
    + exists (K ++ (p, ps + bs') :: L2'). split; [done|]. split; [rewrite fmap_app; set_solver|].
      split; [exists p, (ps + bs'); split; [set_solver|lia]|].
      intros a s [Ha|[[= -> ->]|Ha]%elem_of_cons]%elem_of_app; [left; set_solver|right; right; split_and!; [set_solver|done..]|left; by apply Hin2].
    + exists (K ++ (p, ps) :: (bp, bs') :: L2'). split; [done|]. split; [rewrite fmap_app; set_solver|].
      split; [exists bp, bs'; split; [set_solver|lia]|].
      intros a s [Ha|[[= -> ->]|[[= -> ->]|Ha]%elem_of_cons]%elem_of_cons]%elem_of_app; [left; set_solver|left; set_solver|by auto|left; by apply Hin2].
Qed.

Lemma put_in_ok : ∃ L', heap_ok (Heap m' p (brk h)) L' (delete bp A) ∧ (length L' ≤ S (length L))%nat ∧ ∃ a s, (a, s) ∈ L' ∧ bs ≤ s.
Proof.
  destruct (ok_alloc _ _ _ H _ _ HA) as (Hbs0&Hlo&_). destruct put_in_blocks as (L'&EL&Hf&Hbig&Hb).
  pose proof put_in_linked as Hl. pose proof put_in_wspaced as Hw. rewrite EL in Hl, Hw. exists L'.
  split; [|split; [|done]; pose proof (f_equal length E) as E'; apply (f_equal length) in EL; rewrite /put_in in EL;
    destruct (_ =? _); rewrite !length_app /= in E' EL; lia].
  apply heap_ok_intro; try done.
  - apply (ok_base _ _ _ H).
  - intros a s Ha. destruct (Hb a s Ha) as [Ho|[[-> ->]|(Ho&Eq&->&->)]]; [|simpl; lia|].
    + destruct (ok_block _ _ _ _ _ H Ho) as (?&?&?&?&_). done.
    + destruct (ok_block _ _ _ _ _ H Ho) as (?&?&?&?&_). simpl. lia.
  - intros a t [Hne Ha]%lookup_delete_Some. destruct (ok_alloc _ _ _ H _ _ Ha) as (?&?&?&q&Hq). split_and!; try done. exists q.
    rewrite /m' /= !lookup_insert_ne //. intros ->. assert ((a, ps) ∈ (base, 0) :: L) as Hin by (rewrite E; set_solver).
    apply elem_of_cons in Hin as [[= -> ->]|Hin]; [destruct (ok_base _ _ _ H); lia|].
    destruct (ok_block _ _ _ _ _ H Hin) as (_&_&?&_). destruct (ok_apart _ _ _ H _ _ _ _ Hin Ha); lia.
  - intros a s b t Ha [Hne HAb]%lookup_delete_Some. destruct (ok_alloc _ _ _ H _ _ HAb) as (?&_).
    destruct (Hb a s Ha) as [Ho|[[-> ->]|(Ho&Eq&->&->)]]; [by apply (ok_apart _ _ _ H)|by apply Hap|].
    pose proof (ok_apart _ _ _ H _ _ _ _ Ho HAb). pose proof (Hap b t HAb ltac:(done)). unfold apart_blocks in *. lia.
  - intros a s b t [_ Ha]%lookup_delete_Some [_ Hb']%lookup_delete_Some. by apply (ok_allocs _ _ _ H).
Qed.
End Put.

(** Freeing an allocated block: it is added to the free blocks, merged with its neighbours. *)
Lemma free_ok h L A bp bs fuel : heap_ok h L A → A !! bp = Some bs → (2 * S (length L) ≤ fuel)%nat →
  ∃ h' L', free base lo fuel h (bp + 8) = Some h' ∧ heap_ok h' L' (delete bp A) ∧ brk h' = brk h ∧
    (length L' ≤ S (length L))%nat ∧ (∃ a s, (a, s) ∈ L' ∧ bs ≤ s).
Proof.
  intros H HA Hf. destruct (ok_alloc _ _ _ H _ _ HA) as (Hbs0&Hlo&Hbrk&r&Hr). destruct (ok_base _ _ _ H) as (Hb0&Hb1&Hb2).
  destruct (split_at h L A bp bs H HA) as (W&p&ps&L2&E&Hp&Hps&H2).
  rewrite (free_steps fuel h bp p bs); [lia| |eapply size_of_Some; [right; lia|done]|].
  { apply (find_prev_ok h L A bp W p ps L2); try done. intros b t Hb. specialize (H2 b t Hb). lia. }
  destruct (ok_linked_at h L A W p ps L2 H E) as [Hh Hu]. rewrite (ptr_of_Some _ _ _ _ Hu Hh). cbn [mbind option_bind].
  destruct (merge_up h L A bp bs W p ps L2 H HA E H2) as (bs'&L2'&->&?&?&?&?&?&?&?). cbn [mbind option_bind].
  destruct (merge_down h L A bp bs W p ps L2 bs' L2') as (x&->&->); try done.
  destruct (put_in_ok h L A H bp bs HA W p ps L2 E Hp Hps H2 bs' L2') as (L'&Hok&Hlen&Hbig); try done.
  eexists _, L'. split; [done|]. done.
Qed.

(** ** [malloc] takes a block from the list *)

Lemma set_size_any h a v : usable h a →
  ∃ q, set_size base lo h a v = Some (Heap (<[a := (q, v)]> (hdrs h)) (freep h) (brk h)).
Proof. intros Hu. rewrite /set_size /header accessible_usable //=. rewrite set_header_Some //. by eexists. Qed.

Lemma wspaced_weaken e e' L : e' ≤ e → wspaced e L → wspaced e' L.
Proof. destruct L as [|[a s] L]; [done|]. simpl. intros ? (?&?&?). split_and!; try done. lia. Qed.

Section Take.
Context (h : heap) (L : blocks) (A : gmap Z Z) (H : heap_ok h L A) (nunits : Z) (Hn : 0 < nunits).
Context (W : blocks) (x xs p s : Z) (L2 : blocks) (E : (base, 0) :: L = W ++ (x, xs) :: (p, s) :: L2) (Hs : nunits ≤ s).

Lemma take_in : (p, s) ∈ L ∧ x < p ∧ x + 8 * xs < p ∧ (x, xs) ∈ (base, 0) :: L.
Proof.
  assert ((base, 0) :: L = (W ++ [(x, xs)]) ++ (p, s) :: L2) as E1 by rewrite -app_assoc //. split_and!.
  - destruct W as [|? W']; simplify_eq/=; set_solver.
  - eapply (ok_lt h L A _ _ x xs p s H E1); set_solver.
  - eapply (ok_asc h L A _ _ x xs p s H E1); set_solver.
  - rewrite E. set_solver.
Qed.

(** An allocated block has its header elsewhere. *)
Lemma take_apart b t c : A !! b = Some t → c = x ∨ p ≤ c < p + 8 * s → b ≠ c.
Proof.
  intros Hb Hc ->. destruct take_in as (Hp&_&_&Hx). destruct (ok_alloc _ _ _ H _ _ Hb) as (?&?&_). destruct Hc as [->|Hc].
  - apply elem_of_cons in Hx as [[= -> ->]|Hx]; [destruct (ok_base _ _ _ H); lia|].
    destruct (ok_block _ _ _ _ _ H Hx) as (_&_&?&_). destruct (ok_apart _ _ _ H _ _ _ _ Hx Hb); lia.
  - destruct (ok_apart _ _ _ H _ _ _ _ Hp Hb); lia.
Qed.

(** The other blocks do not meet it. *)
Lemma take_other a t : (a, t) ∈ W ++ (x, xs) :: L2 → apart_blocks a t p s.
Proof.
  assert ((base, 0) :: L = (W ++ [(x, xs)]) ++ (p, s) :: L2) as E1 by rewrite -app_assoc //.
  assert ((base, 0) :: L = (W ++ [(x, xs); (p, s)]) ++ L2) as E2 by rewrite -app_assoc //.
  intros [Ha|[Ha|Ha]%elem_of_cons]%elem_of_app; rewrite /apart_blocks.
  - assert (a + 8 * t < p) by (eapply (ok_asc h L A _ _ a t p s H E1); set_solver). lia.
  - assert (a + 8 * t < p) by (eapply (ok_asc h L A _ _ a t p s H E1); set_solver). lia.
  - assert (p + 8 * s < a) by (eapply (ok_asc h L A _ _ p s a t H E2); set_solver). lia.
Qed.

Lemma take_whole : s = nunits →
  ∃ L', heap_ok (Heap (<[x := (first L2 base, xs)]> (hdrs h)) x (brk h)) L' (<[p := nunits]> A) ∧ (length L' ≤ length L)%nat.
Proof.
  intros Es. destruct take_in as (Hp&Hlt&Hgap&Hx). destruct (ok_block _ _ _ _ _ H Hp) as (?&?&?&?&_).
  assert (∃ L', W ++ (x, xs) :: L2 = (base, 0) :: L' ∧ (∀ a t, (a, t) ∈ L' → (a, t) ∈ L) ∧ (length L' ≤ length L)%nat ∧ x ∈ base :: L'.*1)
    as (L'&EL&Hsub&Hlen&Hxin).
  { destruct W as [|? K]; simplify_eq/=.
    - exists L2. split; [done|]. split; [set_solver|]. split; [lia|set_solver].
    - exists (K ++ (x, xs) :: L2). split; [done|]. split; [set_solver|]. rewrite !length_app /= fmap_app. split; [lia|set_solver]. }
  exists L'. split; [|done]. pose proof (ok_linked _ _ _ H) as Hl. pose proof (ok_wspaced _ _ _ H) as Hw.
  rewrite E linked_app in Hl. rewrite E wspaced_app in Hw. destruct Hl as (HlW&_&_&Hl2). destruct Hw as (HwW&?&?&?&?&Hw2).
  assert (∀ L0 z, (∀ a t, (a, t) ∈ L0 → a ≠ x) → linked (hdrs h) L0 z → linked (<[x := (first L2 base, xs)]> (hdrs h)) L0 z) as Hfr.
  { intros L0 z Hne. apply linked_frame. intros a t Ha. rewrite lookup_insert_ne //. intros ->. by apply (Hne a t). }
  apply heap_ok_intro; simpl; rewrite -?EL; try done.
  - apply (ok_base _ _ _ H).
  - change (linked (<[x := (first L2 base, xs)]> (hdrs h)) ((base, 0) :: L') base). rewrite -EL linked_app. split; [|split].
    + apply Hfr; [|done]. intros a t Ha. assert (a < x) by (eapply (ok_lt h L A _ _ a t x xs H E); set_solver). lia.
    + by rewrite lookup_insert_eq.
    + apply Hfr; [|done]. intros a t Ha.
      assert (x < a) by (eapply (ok_lt h L A (W ++ [(x, xs)]) ((p, s) :: L2) x xs a t H); [by rewrite -app_assoc|set_solver..]). lia.
  - change (wspaced 0 ((base, 0) :: L')). rewrite -EL wspaced_app. simpl. split_and!; try done. eapply wspaced_weaken; [|done]. lia.
  - intros a t Ha. destruct (ok_block _ _ _ _ _ H (Hsub _ _ Ha)) as (?&?&?&?&_). done.
  - intros a t [[<- <-]|[Hne Ha]]%lookup_insert_Some.
    + split_and!; try lia. exists (first L2 base). rewrite lookup_insert_ne; [lia|]. subst s.
      by destruct (ok_linked_at h L A (W ++ [(x, xs)]) p nunits L2 H) as [-> _]; [by rewrite -app_assoc|].
    + destruct (ok_alloc _ _ _ H _ _ Ha) as (?&?&?&q&Hq). split_and!; try done. exists q. rewrite lookup_insert_ne //.
      intros Heq. by apply (take_apart a t x Ha); [left|].
  - intros a t b u Ha [[<- <-]|[Hne Hb]]%lookup_insert_Some; [|by apply (ok_apart _ _ _ H); [apply Hsub|]].
    rewrite -Es. apply take_other. rewrite EL. set_solver.
  - intros a t b u [[<- <-]|[Hne Ha]]%lookup_insert_Some [[<- <-]|[Hne' Hb]]%lookup_insert_Some Hab; try done.
    + rewrite -Es. by apply (ok_apart _ _ _ H).
    + rewrite -Es. destruct (ok_apart _ _ _ H _ _ _ _ Hp Ha); [by right|by left].
    + by apply (ok_allocs _ _ _ H).
Qed.

Lemma take_part q : nunits < s →
  let a := p + 8 * (s - nunits) in
  ∃ L', heap_ok (Heap (<[a := (q, nunits)]> (<[p := (first L2 base, s - nunits)]> (hdrs h))) x (brk h)) L' (<[a := nunits]> A) ∧
    length L' = length L.
Proof.
  intros Hlt a. destruct take_in as (Hp&Hxp&Hgap&Hx). destruct (ok_block _ _ _ _ _ H Hp) as (?&?&?&?&_).
  assert (∃ L', W ++ (x, xs) :: (p, s - nunits) :: L2 = (base, 0) :: L' ∧ length L' = length L ∧ x ∈ base :: L'.*1 ∧
    ∀ b t, (b, t) ∈ L' → (b, t) ∈ L ∧ apart_blocks b t p s ∨ b = p ∧ t = s - nunits) as (L'&EL&Hlen&Hxin&Hsub).
  { assert (∀ b t, (b, t) ∈ W ++ (x, xs) :: L2 → apart_blocks b t p s) as Hoth by apply take_other.
    destruct W as [|y K]; simplify_eq/=.
    - exists ((p, s - nunits) :: L2). split; [done|]. split; [done|]. split; [set_solver|].
      intros b t [[= -> ->]|Hb]%elem_of_cons; [by right|]. left. split; [set_solver|]. apply Hoth. set_solver.
    - exists (K ++ (x, xs) :: (p, s - nunits) :: L2). split; [done|]. rewrite !length_app /= fmap_app. split; [lia|]. split; [set_solver|].
      intros b t [Hb|[[= -> ->]|[[= -> ->]|Hb]%elem_of_cons]%elem_of_cons]%elem_of_app; [left| |by right|left].
      + split; [set_solver|]. apply Hoth. set_solver.
      + left. split; [set_solver|]. apply Hoth. set_solver.
      + split; [set_solver|]. apply Hoth. set_solver. }
  exists L'. split; [|done]. pose proof (ok_linked _ _ _ H) as Hl. pose proof (ok_wspaced _ _ _ H) as Hw.
  rewrite E linked_app in Hl. rewrite E wspaced_app in Hw. destruct Hl as (HlW&Hlx&Hlp&Hl2). destruct Hw as (HwW&?&?&?&?&Hw2).
  assert (p < a ∧ a + 8 * nunits = p + 8 * s) as [Hpa Hae] by lia.
  set (m' := <[a := (q, nunits)]> (<[p := (first L2 base, s - nunits)]> (hdrs h))).
  assert (∀ c, c ≠ p → c ≠ a → m' !! c = hdrs h !! c) as Hm by (intros c ??; rewrite /m' !lookup_insert_ne //).
  assert (∀ b t, (b, t) ∈ W ++ (x, xs) :: L2 → b ≠ p ∧ b ≠ a) as Hne.
  { intros b t Hb. assert (0 ≤ t) by (assert ((b, t) ∈ (base, 0) :: L) as Hin by (rewrite E; set_solver);
      apply elem_of_cons in Hin as [[= -> ->]|Hin]; [lia|]; destruct (ok_block _ _ _ _ _ H Hin) as (_&_&?&_); lia).
    assert (b ≠ p). { intros ->. apply elem_of_app in Hb as [Hb|[[= <- <-]|Hb]%elem_of_cons]; [|lia|].
      - assert (p < x) by (eapply (ok_lt h L A _ _ p t x xs H E); set_solver). lia.
      - assert (p < p); [|lia]. eapply (ok_lt h L A (W ++ [(x, xs); (p, s)]) L2 p s p t H); [by rewrite -app_assoc|set_solver..]. }
    destruct (take_other b t Hb); lia. }
  apply heap_ok_intro; simpl; try done.
  - apply (ok_base _ _ _ H).
  - change (linked m' ((base, 0) :: L') base). rewrite -EL linked_app. split; [|split; [|split]].
    + eapply linked_frame; [|done]. intros b t Hb. destruct (Hne b t) as [? ?]; [set_solver|]. by apply Hm.
    + destruct (Hne x xs) as [? ?]; [set_solver|]. by rewrite Hm.
    + rewrite /m' lookup_insert_ne; [lia|]. by rewrite lookup_insert_eq.
    + eapply linked_frame; [|done]. intros b t Hb. destruct (Hne b t) as [? ?]; [set_solver|]. by apply Hm.
  - change (wspaced 0 ((base, 0) :: L')). rewrite -EL wspaced_app. simpl. split_and!; try done; [lia|]. eapply wspaced_weaken; [|done]. lia.
  - intros b t Hb. destruct (Hsub b t Hb) as [[Ho _]|[-> ->]]; [|lia]. destruct (ok_block _ _ _ _ _ H Ho) as (?&?&?&?&_). done.
  - intros b t [[<- <-]|[Hba Hb]]%lookup_insert_Some; [split_and!; try lia; exists q; by rewrite lookup_insert_eq|].
    destruct (ok_alloc _ _ _ H _ _ Hb) as (?&?&?&r&Hr). split_and!; try done. exists r. rewrite Hm //.
    apply (take_apart b t p Hb). right. lia.
  - intros b t c u Hb [[<- <-]|[Hca Hc]]%lookup_insert_Some; destruct (Hsub b t Hb) as [[Ho Hap]|[-> ->]].
    + unfold apart_blocks in *. lia.
    + left. lia.
    + by apply (ok_apart _ _ _ H).
    + pose proof (ok_apart _ _ _ H _ _ _ _ Hp Hc). destruct (ok_alloc _ _ _ H _ _ Hc) as (?&_). unfold apart_blocks in *. lia.
  - assert (∀ c u, A !! c = Some u → apart_blocks a nunits c u ∧ apart_blocks c u a nunits) as Hac.
    { intros c u Hc. pose proof (ok_apart _ _ _ H _ _ _ _ Hp Hc). unfold apart_blocks in *. lia. }
    intros b t c u [[<- <-]|[Hba Hb]]%lookup_insert_Some [[<- <-]|[Hca Hc]]%lookup_insert_Some Hbc; try done; [by apply Hac..|].
    by apply (ok_allocs _ _ _ H).
Qed.
End Take.
End Spec.
