(* ===== verification/UmallocThms.v ===== *)
(** * malloc and free: theorems

    The search of [malloc] goes once around the free list; if nothing fits,
    [morecore] adds a block and the second round finds it.  Any program that
    frees only what it was given, and each block once, never breaks the heap
    and never gets two blocks that overlap. *)

From S2P Require Import Prelude CInt Umalloc.

Section Thms.
Context (base lo : Z) (grow : Z → Z → option Z).
(** What [growproc] does to the size of the process: it adds the bytes, and
    keeps user memory below 2 GB. *)
Context (Hgrow : ∀ b n b', grow b n = Some b' → 0 ≤ n → b' = b + n ∧ b' ≤ 2 ^ 31).

Notation heap_ok := (heap_ok base lo).
Notation search := (search base lo grow).

(** ** The search *)

(** The block [p] behind [x] fits: it is taken. *)
Lemma search_take fuel fuel' h L A nunits W x xs p s L2 :
  heap_ok h L A → 0 < nunits → (base, 0) :: L = W ++ (x, xs) :: (p, s) :: L2 → nunits ≤ s →
  ∃ a h' L', search (S fuel) fuel' h nunits x p = Some (a + 8, h') ∧ heap_ok h' L' (<[a := nunits]> A) ∧ A !! a = None ∧
    brk h' = brk h ∧ (length L' ≤ length L)%nat.
Proof.
  intros H Hn E Hs. destruct (take_in base lo h L A H nunits Hn W x xs p s L2 E Hs) as (Hp&Hxp&_&Hx).
  destruct (ok_block _ _ _ _ _ _ _ H Hp) as (?&?&?&?&Hup). destruct (ok_base _ _ _ _ _ H) as (?&?&?).
  destruct (ok_linked_at _ _ h L A (W ++ [(x, xs)]) p s L2 H) as [Hhp _]; [by rewrite -app_assoc|].
  destruct (ok_linked_at _ _ h L A W x xs ((p, s) :: L2) H E) as [Hhx Hux].
  cbn [Umalloc.search]. rewrite (size_of_Some _ _ h _ _ _ Hup Hhp). cbn [mbind option_bind]. rewrite (proj2 (Z.leb_le _ _) Hs).
  assert (∀ c, p ≤ c < p + 8 * s → A !! c = None) as Hnone.
  { intros c Hc. destruct (A !! c) as [t|] eqn:Ec; [|done]. by destruct (take_apart base lo h L A H nunits Hn W x xs p s L2 E Hs c t c Ec); [right|]. }
  destruct (Z.eqb_spec s nunits) as [Es|Ne].
  - rewrite (ptr_of_Some _ _ h _ _ _ Hup Hhp). cbn [mbind option_bind]. rewrite (set_ptr_Some _ _ h _ _ _ _ Hux Hhx). cbn [mbind option_bind].
    destruct (take_whole base lo h L A H nunits Hn W x xs p s L2 E Hs Es) as (L'&Hok&Hlen).
    exists p. eexists _, L'. rewrite padd_small; [lia|]. split; [by rewrite Z.mul_1_r|]. split; [done|]. split; [apply Hnone; lia|]. done.
  - rewrite (set_size_Some _ _ h _ _ _ _ Hup Hhp). cbn [mbind option_bind]. rewrite (padd_small p (s - nunits)); [lia|]. rewrite u32_small; [unfold is_u32; lia|].
    set (h1 := Heap _ _ _). destruct (set_size_any base lo h1 (p + 8 * (s - nunits)) nunits) as (q&Eq); [right; simpl; lia|].
    rewrite Eq. cbn [mbind option_bind]. destruct (take_part base lo h L A H nunits Hn W x xs p s L2 E Hs q) as (L'&Hok&Hlen); [lia|].
    exists (p + 8 * (s - nunits)). eexists _, L'. rewrite padd_small; [lia|]. split; [by rewrite Z.mul_1_r|]. split; [done|].
    split; [apply Hnone; lia|]. split; [done|]. lia.
Qed.

(** Blocks that are too small are passed by. *)
Lemma search_skip fuel' h L A nunits : heap_ok h L A →
  ∀ M K x xs N k, (base, 0) :: L = K ++ (x, xs) :: M ++ N → (∀ a s, (a, s) ∈ M → s < nunits ∧ a ≠ freep h) →
  ∃ K' y ys, (base, 0) :: L = K' ++ (y, ys) :: N ∧
    search (length M + k) fuel' h nunits x (first (M ++ N) base) = search k fuel' h nunits y (first N base).
Proof.
  intros H. induction M as [|[p s] M IH]; intros K x xs N k E HM; [by exists K, x, xs|].
  destruct (HM p s) as [Hs Hf]; [set_solver|].
  destruct (ok_linked_at _ _ h L A (K ++ [(x, xs)]) p s (M ++ N) H) as [Hh Hu]; [by rewrite -app_assoc|].
  destruct (IH (K ++ [(x, xs)]) p s N k) as (K'&y&ys&E'&Es); [by rewrite -app_assoc|set_solver|].
  exists K', y, ys. split; [done|]. rewrite -Es. cbn [length Nat.add app first Umalloc.search].
  rewrite (size_of_Some _ _ h _ _ _ Hu Hh) /=. rewrite (proj2 (Z.leb_gt _ _)); [lia|]. rewrite (proj2 (Z.eqb_neq _ _) Hf).
  by rewrite (ptr_of_Some _ _ h _ _ _ Hu Hh).
Qed.

Lemma first_fit (nunits : Z) (M : blocks) :
  (∀ a s, (a, s) ∈ M → s < nunits) ∨
  ∃ M1 p s M2, M = M1 ++ (p, s) :: M2 ∧ nunits ≤ s ∧ ∀ a s, (a, s) ∈ M1 → s < nunits.
Proof.
  induction M as [|[a s] M IH]; [left; set_solver|]. destruct (decide (nunits ≤ s)) as [Hs|Hs].
  - right. exists [], a, s, M. split; [done|]. split; [done|]. set_solver.
  - destruct IH as [IH|(M1&p&u&M2&->&Hu&IH)].
    + left. intros b t [[= -> ->]|Hb]%elem_of_cons; [lia|]. by eapply IH.
    + right. exists ((a, s) :: M1), p, u, M2. split; [done|]. split; [done|].
      intros b t [[= -> ->]|Hb]%elem_of_cons; [lia|]. by eapply IH.
Qed.

(** A segment of the list is passed by, or one of its blocks is taken. *)
Lemma search_segment fuel' h L A nunits K x xs M N k : heap_ok h L A → 0 < nunits →
  (base, 0) :: L = K ++ (x, xs) :: M ++ N → (∀ a s, (a, s) ∈ M → a ≠ freep h) → (0 < k)%nat →
  (∃ a h' L', search (length M + k) fuel' h nunits x (first (M ++ N) base) = Some (a + 8, h') ∧
     heap_ok h' L' (<[a := nunits]> A) ∧ A !! a = None ∧ brk h' = brk h ∧ (length L' ≤ length L)%nat) ∨
  (∀ a s, (a, s) ∈ M → s < nunits) ∧
  ∃ K' y ys, (base, 0) :: L = K' ++ (y, ys) :: N ∧
    search (length M + k) fuel' h nunits x (first (M ++ N) base) = search k fuel' h nunits y (first N base).
Proof.
  intros H Hn E Hf Hk. destruct (first_fit nunits M) as [Hno|(M1&p&s&M2&->&Hs&Hno)].
  - right. split; [done|]. eapply search_skip; [done|done|]. intros a s Ha. split; [by eapply Hno|by eapply Hf].
  - left. rewrite -app_assoc /= in E |- *.
    destruct (search_skip fuel' h L A nunits H M1 K x xs ((p, s) :: M2 ++ N) (S (length M2) + k) E) as (K'&y&ys&E'&Es).
    { intros a t Ha. split; [by eapply Hno|]. apply (Hf a t). set_solver. }
    replace (length (M1 ++ (p, s) :: M2) + k)%nat with (length M1 + (S (length M2) + k))%nat by (rewrite length_app /=; lia).
    rewrite Es. apply (search_take (length M2 + k) fuel' h L A nunits K' y ys p s (M2 ++ N)); done.
Qed.

(** What a successful search gives. *)
Definition found (A : gmap Z Z) (nunits : Z) (h : heap) (n : nat) (r : option (Z * heap)) : Prop :=
  ∃ a h' L', r = Some (a + 8, h') ∧ heap_ok h' L' (<[a := nunits]> A) ∧ A !! a = None ∧ brk h' = brk h ∧ (length L' ≤ n)%nat.

(** One round from [freep]: a fitting block is found, or the search is back at
    [freep] and every block is too small. *)
Lemma search_round fuel fuel' h L A nunits q : heap_ok h L A → 0 < nunits → (length L + 2 ≤ fuel)%nat →
  ptr_of base lo h (freep h) = Some q →
  found A nunits h (length L) (search fuel fuel' h nunits (freep h) q) ∨
  (∀ a s, (a, s) ∈ L → s < nunits) ∧
  ∃ k y, (fuel ≤ k + length L + 1)%nat ∧
    search fuel fuel' h nunits (freep h) q = search (S k) fuel' h nunits y (freep h) ∧
    (∃ f, size_of base lo h (freep h) = Some f ∧ f < nunits).
Proof.
  intros H Hn Hf Hq. assert (freep h ∈ ((base, 0) :: L).*1) as Hin by apply (ok_freep _ _ _ _ _ H).
  apply list_elem_of_fmap in Hin as ([f fs]&Ef&Hin). simpl in Ef. apply list_elem_of_split in Hin as (K&M&E).
  destruct (ok_linked_at _ _ h L A K f fs M H E) as [Hh Hu]. rewrite Ef (ptr_of_Some _ _ h _ _ _ Hu Hh) in Hq. injection Hq as <-.
  pose proof (f_equal length E) as El. rewrite length_app /= in El.
  assert (∀ a s, (a, s) ∈ M → a ≠ freep h) as HfM.
  { intros a s Ha. rewrite Ef. assert (f < a); [|lia].
    eapply (ok_lt _ _ h L A (K ++ [(f, fs)]) M f fs a s H); [by rewrite -app_assoc|set_solver..]. }
  assert (size_of base lo h (freep h) = Some fs) as Hsz by (rewrite Ef; by eapply size_of_Some).
  destruct (search_segment fuel' h L A nunits K f fs M [] (fuel - length M) H Hn) as [Hfound|(HM&K'&y&ys&E'&Es)]; try done.
  { by rewrite app_nil_r. } { lia. }
  { left. rewrite app_nil_r in Hfound. replace (length M + (fuel - length M))%nat with fuel in Hfound by lia. by rewrite Ef. }
  rewrite app_nil_r /= in Es. replace (length M + (fuel - length M))%nat with fuel in Es by lia. rewrite Ef Es.
  destruct K as [|y0 K]; simpl in E.
  { (* [freep] is [base] *)
    injection E as Eb <- ->. right. split; [done|]. exists (fuel - length M - 1)%nat, y. split; [lia|].
    rewrite Ef -Eb in Hsz. rewrite -Eb. split; [f_equal; lia|]. by exists 0. }
  injection E as <- ->.
  destruct (ok_linked_at _ _ h _ A [] base 0 (K ++ (f, fs) :: M) H) as [Hhb Hub]; [done|].
  assert (base ≠ freep h) as Hbf. { rewrite Ef. destruct (ok_block _ _ _ _ _ f fs H) as [? _]; [set_solver|lia]. }
  rewrite length_app /= in El Hf.
  replace (fuel - length M)%nat with (S (length K + (fuel - length M - 1 - length K))) by lia.
  assert (search (S (length K + (fuel - length M - 1 - length K))) fuel' h nunits y base =
    search (length K + (fuel - length M - 1 - length K)) fuel' h nunits base (first (K ++ (f, fs) :: M) base)) as ->.
  { cbn [Umalloc.search]. rewrite (size_of_Some _ _ h _ _ _ Hub Hhb). cbn [mbind option_bind]. rewrite (proj2 (Z.leb_gt _ _)); [lia|].
    rewrite (proj2 (Z.eqb_neq _ _) Hbf). by rewrite (ptr_of_Some _ _ h _ _ _ Hub Hhb). }
  destruct (search_segment fuel' h _ A nunits [] base 0 K ((f, fs) :: M) (fuel - length M - 1 - length K) H Hn) as [Hfound|(HK&K2&y2&ys2&E2&Es2)]; try done.
  { intros a s Ha. rewrite Ef. assert (a < f); [|lia].
    eapply (ok_lt _ _ h _ A ((base, 0) :: K) ((f, fs) :: M) a s f fs H); [done|set_solver..]. } { lia. }
  { by left. }
  rewrite Es2 /=. destruct (decide (nunits ≤ fs)) as [Hfit|Hsmall].
  - left. replace (fuel - length M - 1 - length K)%nat with (S (fuel - length M - 2 - length K)) by lia.
    by apply (search_take _ _ h _ A nunits K2 y2 ys2 f fs M).
  - right. split; [intros a s [Ha|[[= -> ->]|Ha]%elem_of_cons]%elem_of_app; [by eapply HK|lia|by eapply HM]|].
    exists (fuel - length M - 2 - length K)%nat, y2. rewrite length_app /=. split; [lia|].
    replace (fuel - length M - 1 - length K)%nat with (S (fuel - length M - 2 - length K)) by lia. split; [done|].
    exists fs. rewrite -Ef Hsz. split; [done|lia].
Qed.

(** ** More memory *)

(** The heap after [sbrk], with the new memory as an allocated block. *)
Lemma sbrk_block h L A nu q : heap_ok h L A → 0 < nu → brk h + 8 * nu ≤ 2 ^ 31 →
  heap_ok (Heap (<[brk h := (q, nu)]> (hdrs h)) (freep h) (brk h + 8 * nu)) L (<[brk h := nu]> A).
Proof.
  intros H Hnu Hb. destruct (ok_base _ _ _ _ _ H) as (?&?&?).
  assert (∀ a s, (a, s) ∈ (base, 0) :: L → a < brk h) as Hlt.
  { intros a s [[= -> ->]|Ha]%elem_of_cons; [lia|]. destruct (ok_block _ _ _ _ _ _ _ H Ha) as (?&?&?&?&_). lia. }
  split; simpl.
  - lia.
  - apply (ok_freep _ _ _ _ _ H).
  - apply (linked_frame (hdrs h) _ ((base, 0) :: L)); [|apply (ok_linked _ _ _ _ _ H)].
    intros a s Ha. specialize (Hlt a s Ha). rewrite lookup_insert_ne //. lia.
  - apply (ok_spaced _ _ _ _ _ H).
  - intros a s Ha. pose proof (ok_top _ _ _ _ _ H a s Ha). lia.
  - intros a t [[<- <-]|[Hne Ha]]%lookup_insert_Some; [split_and!; try lia; exists q; by rewrite lookup_insert_eq|].
    destruct (ok_alloc _ _ _ _ _ H a t Ha) as (?&?&?&r&Hr). split_and!; try lia. exists r. by rewrite lookup_insert_ne.
  - intros a s b t Ha [[<- <-]|[Hne Hb']]%lookup_insert_Some; [left; by apply (ok_top _ _ _ _ _ H)|]. by apply (ok_apart _ _ _ _ _ H).
  - intros a s b t [[<- <-]|[Hne Ha]]%lookup_insert_Some [[<- <-]|[Hne' Hb']]%lookup_insert_Some Hab; try done.
    + right. by destruct (ok_alloc _ _ _ _ _ H b t Hb') as (?&?&?&_).
    + left. by destruct (ok_alloc _ _ _ _ _ H a s Ha) as (?&?&?&_).
    + by apply (ok_allocs _ _ _ _ _ H).
Qed.

Definition core (nunits : Z) : Z := 8 * Z.max nunits 4096.

Lemma morecore_ok h L A nunits fuel : heap_ok h L A → 0 < nunits → core nunits < 2 ^ 31 → (2 * S (length L) ≤ fuel)%nat →
  if grow (brk h) (core nunits) is Some _ then
    ∃ h' L', morecore base lo grow fuel h nunits = Some (freep h', h') ∧ heap_ok h' L' A ∧ freep h' ≠ 0 ∧
      brk h' = brk h + core nunits ∧ (length L' ≤ S (length L))%nat ∧ ∃ a s, (a, s) ∈ L' ∧ nunits ≤ s
  else morecore base lo grow fuel h nunits = Some (0, h).
Proof.
  intros H Hn Hc Hf. destruct (ok_base _ _ _ _ _ H) as (?&?&?). rewrite /morecore.
  assert ((if nunits <? 4096 then 4096 else nunits) = Z.max nunits 4096) as -> by (destruct (Z.ltb_spec nunits 4096); lia).
  rewrite /sbrk. rewrite u32_small; [unfold is_u32, core in *; lia|]. rewrite s32_small; [unfold core in *; lia|].
  rewrite (Z.mul_comm _ 8). fold (core nunits). destruct (grow (brk h) (core nunits)) as [b'|] eqn:Eg; [|by rewrite Z.eqb_refl].
  destruct (Hgrow _ _ _ Eg) as [-> Hb]; [unfold core; lia|].
  rewrite (proj2 (Z.eqb_neq _ _)); [change (u32 (-1)) with 4294967295; lia|].
  set (h1 := Heap (hdrs h) (freep h) (brk h + core nunits)).
  destruct (set_size_any base lo h1 (brk h) (Z.max nunits 4096)) as (q&Eq); [right; unfold h1, core; simpl; lia|]. rewrite Eq. cbn [mbind option_bind].
  pose proof (sbrk_block h L A (Z.max nunits 4096) q H ltac:(lia) Hb) as Hnew.
  destruct (free_ok base lo _ L _ (brk h) (Z.max nunits 4096) fuel Hnew) as (h'&L'&Ef&Hok&Hbrk&Hlen&a&s&Ha&Hs); [by rewrite lookup_insert_eq|done|].
  rewrite padd_small; [unfold core in *; lia|]. rewrite Z.mul_1_r /h1 /= Ef /=. exists h', L'. rewrite delete_insert_id in Hok.
  { destruct (A !! brk h) as [t|] eqn:Et; [|done]. destruct (ok_alloc _ _ _ _ _ H _ _ Et). lia. }
  split_and!; try done; [|exists a, s; split; [done|lia]].
  pose proof (ok_freep _ _ _ _ _ Hok) as Hfp. apply elem_of_cons in Hfp as [->|Hfp]; [lia|].
  apply list_elem_of_fmap in Hfp as ([f fs]&->&Hfp). destruct (ok_block _ _ _ _ _ _ _ Hok Hfp) as (?&_). simpl. lia.
Qed.

(** ** [malloc] *)

(** Before the first [malloc], [freep] is null. *)
Definition fresh (h : heap) : Prop := freep h = 0 ∧ 0 < base ∧ base + 8 ≤ lo ∧ lo ≤ brk h ≤ 2 ^ 31.

Definition heap_inv (h : heap) (L : blocks) (A : gmap Z Z) : Prop := heap_ok h L A ∨ fresh h ∧ L = [] ∧ A = ∅.

Definition units (nbytes : Z) : Z := (nbytes + 7) / 8 + 1.

(** The outcome of an allocation: a new block, or 0 if nothing fits and the
    kernel refuses. *)
Definition outcome (h : heap) (L : blocks) (A : gmap Z Z) (nunits r : Z) (h' : heap) (L' : blocks) : Prop :=
  (r = 0 ∧ heap_ok h' L' A ∧ grow (brk h) (core nunits) = None ∧ ∀ a s, (a, s) ∈ L → s < nunits) ∨
  ∃ a, r = a + 8 ∧ A !! a = None ∧ heap_ok h' L' (<[a := nunits]> A).

Lemma malloc_search_ok h L A nunits fuel q : heap_ok h L A → 0 < nunits → core nunits < 2 ^ 31 → (2 * length L + 5 ≤ fuel)%nat →
  ptr_of base lo h (freep h) = Some q →
  ∃ r h' L', search fuel fuel h nunits (freep h) q = Some (r, h') ∧ (length L' ≤ S (length L))%nat ∧ outcome h L A nunits r h' L'.
Proof.
  intros H Hn Hc Hf Hq.
  destruct (search_round fuel fuel h L A nunits q H Hn ltac:(lia) Hq) as [(a&h'&L'&E&?&?&_&?)|(Hno&k&y&Hk&->&f&Hsz&Hsmall)].
  { exists (a + 8), h', L'. split; [done|]. split; [lia|]. right. by exists a. }
  cbn [Umalloc.search]. rewrite Hsz. cbn [mbind option_bind]. rewrite (proj2 (Z.leb_gt _ _) Hsmall) Z.eqb_refl.
  pose proof (morecore_ok h L A nunits fuel H Hn Hc ltac:(lia)) as Hm.
  destruct (grow (brk h) (core nunits)) as [b'|] eqn:Eg.
  - destruct Hm as (h1&L1&->&H1&Hf1&_&Hlen&a&s&Ha&Hs). cbn [mbind option_bind]. rewrite (proj2 (Z.eqb_neq _ _) Hf1).
    assert (∃ q1, ptr_of base lo h1 (freep h1) = Some q1) as [q1 Hq1].
    { assert (freep h1 ∈ ((base, 0) :: L1).*1) as Hin by apply (ok_freep _ _ _ _ _ H1).
      apply list_elem_of_fmap in Hin as ([g gs]&Eg1&Hin). apply list_elem_of_split in Hin as (K&M&E). rewrite Eg1 /=.
      destruct (ok_linked_at _ _ h1 L1 A K g gs M H1 E) as [Hh Hu]. eexists. by eapply ptr_of_Some. }
    rewrite Hq1. cbn [mbind option_bind].
    destruct (search_round k fuel h1 L1 A nunits q1 H1 Hn ltac:(lia) Hq1) as [(b&h'&L'&E&?&?&_&?)|(Hno1&_)].
    + exists (b + 8), h', L'. split; [done|]. split; [lia|]. right. by exists b.
    + specialize (Hno1 a s Ha). lia.
  - rewrite Hm. cbn [mbind option_bind]. rewrite Z.eqb_refl. exists 0, h, L. split; [done|]. split; [lia|]. by left.
Qed.

(** [malloc] initialises the list at the first call, and then searches it. *)
Lemma malloc_start h L A nbytes fuel : heap_inv h L A →
  ∃ h1 q, heap_ok h1 L A ∧ brk h1 = brk h ∧ ptr_of base lo h1 (freep h1) = Some q ∧
    malloc base lo grow fuel h nbytes = search fuel fuel h1 (u32 (nbytes + 8 - 1) / 8 + 1) (freep h1) q.
Proof.
  intros Hinv. rewrite /malloc. destruct Hinv as [H|(Hfr&->&->)].
  - assert (freep h ∈ ((base, 0) :: L).*1) as Hin by apply (ok_freep _ _ _ _ _ H).
    apply list_elem_of_fmap in Hin as ([g gs]&Eg&Hin). simpl in Eg. pose proof (ok_base_le _ _ _ _ _ _ _ H Hin). destruct (ok_base _ _ _ _ _ H).
    rewrite (proj2 (Z.eqb_neq _ _)); [lia|]. cbn [mbind option_bind]. apply list_elem_of_split in Hin as (K&M&E).
    destruct (ok_linked_at _ _ h L A K g gs M H E) as [Hh Hu].
    assert (ptr_of base lo h (freep h) = Some (first M base)) as Hq by (rewrite Eg; by eapply ptr_of_Some).
    exists h, (first M base). rewrite Hq. done.
  - destruct Hfr as (Hf0&Hb1&Hb2&Hb3). rewrite Hf0 Z.eqb_refl /set_ptr /header accessible_usable; [by left|]. cbn [mbind option_bind].
    rewrite set_header_Some; [by left|]. cbn [mbind option_bind]. rewrite (set_size_Some _ _ _ base base (default (0, 0) (hdrs h !! base)).2); [by left|by rewrite lookup_insert_eq|].
    cbn [mbind option_bind]. set (h1 := set_freep _ _). exists h1, base.
    assert (heap_ok h1 [] ∅) as H1.
    { apply heap_ok_intro; try done; [set_solver|by rewrite /= insert_insert_eq lookup_insert_eq|set_solver]. }
    rewrite (ptr_of_Some _ _ h1 base base 0); [by left|by rewrite /h1 /= lookup_insert_eq|]. cbn [mbind option_bind].
    done.
Qed.

Lemma units_pos nbytes : 0 ≤ nbytes → 0 < units nbytes.
Proof. intros. assert (0 ≤ (nbytes + 7) / 8) by (apply Z.div_pos; lia). unfold units. lia. Qed.

Lemma units_bytes nbytes : nbytes + 8 ≤ 8 * units nbytes ≤ nbytes + 15.
Proof.
  rewrite /units. pose proof (Z.div_mod (nbytes + 7) 8 ltac:(lia)). pose proof (Z.mod_pos_bound (nbytes + 7) 8 ltac:(lia)). lia.
Qed.

Lemma units_eq nbytes : 0 ≤ nbytes < 2 ^ 32 - 7 → u32 (nbytes + 8 - 1) / 8 + 1 = units nbytes.
Proof. intros. rewrite /units u32_small; [unfold is_u32; lia|]. do 2 f_equal. lia. Qed.

Lemma malloc_run h L A nbytes fuel : heap_inv h L A → 0 ≤ nbytes → core (units nbytes) < 2 ^ 31 → (2 * length L + 5 ≤ fuel)%nat →
  ∃ r h' L', malloc base lo grow fuel h nbytes = Some (r, h') ∧ (length L' ≤ S (length L))%nat ∧ outcome h L A (units nbytes) r h' L'.
Proof.
  intros Hinv Hb Hc Hf. destruct (malloc_start h L A nbytes fuel Hinv) as (h1&q&H1&Ebrk&Hq&->).
  pose proof (units_bytes nbytes). rewrite units_eq; [unfold core in Hc; lia|].
  destruct (malloc_search_ok h1 L A (units nbytes) fuel q H1 (units_pos _ Hb) Hc Hf Hq) as (r&h'&L'&E&Hl&Ho).
  exists r, h', L'. split; [done|]. split; [done|]. by rewrite /outcome Ebrk in Ho.
Qed.

(** malloc terminates.  On a well-formed heap it returns a new block of the
    size needed, taken from the free blocks or from memory the kernel gave; it
    returns 0 only if no free block is large enough and the kernel refuses to
    extend the heap.  Either way the heap stays well-formed: the free blocks are
    in order, never adjacent, and disjoint from every allocated block, the new
    one included. *)
Theorem malloc_result h L A nbytes fuel : heap_inv h L A → 0 ≤ nbytes → core (units nbytes) < 2 ^ 31 → (2 * length L + 5 ≤ fuel)%nat →
  ∃ r h' L', malloc base lo grow fuel h nbytes = Some (r, h') ∧ outcome h L A (units nbytes) r h' L'.
Proof. intros. destruct (malloc_run h L A nbytes fuel) as (r&h'&L'&?&_&?); try done. by exists r, h', L'. Qed.

(** malloc of one of the seven largest sizes is malloc of 0: the size wraps
    around and the block has no room for the data. *)
Theorem malloc_wraps h nbytes fuel : 2 ^ 32 - 7 ≤ nbytes < 2 ^ 32 →
  malloc base lo grow fuel h nbytes = malloc base lo grow fuel h 0.
Proof.
  intros Hn. rewrite /malloc. assert (u32 (nbytes + 8 - 1) / 8 = u32 (0 + 8 - 1) / 8) as ->; [|done].
  replace (u32 (nbytes + 8 - 1)) with (nbytes + 7 - 2 ^ 32).
  - change (u32 (0 + 8 - 1) / 8) with 0. apply Z.div_small. lia.
  - rewrite /u32. apply (Z.mod_unique_pos _ _ 1); lia.
Qed.

(** The sizes in between.  The block needs 2 GB or more, which no free block
    has, and the number of bytes for [sbrk] is not positive as an int; a kernel
    that does not enlarge the process for such a number, as [growproc], makes
    [morecore] write a header at the old break, outside the memory of the
    process. *)
Definition not_larger : Prop := ∀ b n b', grow b n = Some b' → n ≤ 0 → b' ≤ b.

Lemma s32_large z : 2 ^ 31 ≤ z < 2 ^ 32 → s32 z = z - 2 ^ 32.
Proof. intros Hz. rewrite /s32 /sext Z.mod_small; [lia|]. by rewrite (proj2 (Z.ltb_ge _ _)); [lia|]. Qed.

Lemma morecore_outside h L A nunits fuel : heap_ok h L A → not_larger → 2 ^ 31 ≤ 8 * nunits ≤ 2 ^ 32 →
  morecore base lo grow fuel h nunits =
    if grow (brk h) (s32 (8 * nunits)) is Some _ then None else Some (0, h).
Proof.
  intros H Hno Hn. destruct (ok_base _ _ _ _ _ H) as (?&?&?). rewrite /morecore (proj2 (Z.ltb_ge nunits 4096)); [lia|].
  rewrite /sbrk. rewrite (Z.mul_comm _ 8).
  assert (s32 (u32 (8 * nunits)) = s32 (8 * nunits) ∧ s32 (8 * nunits) ≤ 0) as [-> Hneg].
  { destruct (decide (8 * nunits = 2 ^ 32)) as [->|]; [by vm_compute|]. rewrite u32_small; [unfold is_u32; lia|].
    split; [done|]. rewrite s32_large; lia. }
  destruct (grow _ _) as [b|] eqn:E; [|by rewrite Z.eqb_refl].
  pose proof (Hno _ _ _ E Hneg). rewrite (proj2 (Z.eqb_neq _ _)); [change (u32 (-1)) with 4294967295; lia|].
  rewrite /set_size /header /accessible (proj2 (Z.eqb_neq (brk h) base)); [lia|]. cbn [brk orb].
  rewrite (proj2 (Z.leb_gt (brk h + 8) b)); [lia|]. by rewrite andb_false_r.
Qed.

(** malloc of a size that needs 2 GB or more with its header, the wrapping ones
    apart, never gives a block: it returns 0 if the kernel refuses the negative
    [sbrk], and otherwise writes outside the memory of the process. *)
Theorem malloc_too_large h L A nbytes fuel :
  heap_inv h L A → not_larger → 2 ^ 31 ≤ 8 * units nbytes → nbytes < 2 ^ 32 - 7 → (2 * length L + 5 ≤ fuel)%nat →
  match grow (brk h) (s32 (8 * units nbytes)) with
  | Some _ => malloc base lo grow fuel h nbytes = None
  | None => ∃ h', malloc base lo grow fuel h nbytes = Some (0, h') ∧ heap_ok h' L A
  end.
Proof.
  intros Hinv Hno Hlarge Hb Hf. destruct (malloc_start h L A nbytes fuel Hinv) as (h1&q&H1&<-&Hq&->).
  pose proof (units_bytes nbytes). rewrite units_eq; [lia|].
  assert (0 < units nbytes) as Hn by lia.
  destruct (search_round fuel fuel h1 L A (units nbytes) q H1 Hn ltac:(lia) Hq) as [(a&h'&L'&_&Hok&_&_&_)|(_&k&y&_&->&f&Hsz&Hsmall)].
  { destruct (ok_alloc _ _ _ _ _ Hok a (units nbytes)) as (?&?&?&_); [by rewrite lookup_insert_eq|].
    destruct (ok_base _ _ _ _ _ Hok). lia. }
  cbn [Umalloc.search]. rewrite Hsz. cbn [mbind option_bind]. rewrite (proj2 (Z.leb_gt _ _) Hsmall) Z.eqb_refl.
  rewrite (morecore_outside h1 L A) //; [lia|]. destruct (grow _ _); [done|]. cbn [mbind option_bind]. by exists h1.
Qed.

(** ** Programs *)

(** [Free p] gives back a pointer; a program frees only what it holds. *)
Inductive op := Malloc (n : Z) | Free (p : Z).

(** [live] is the pointers the program holds, with the number of bytes it asked for. *)
Definition exec_op (fuel : nat) (o : op) (st : heap * gmap Z Z) : option (heap * gmap Z Z) :=
  let '(h, live) := st in
  match o with
  | Malloc n => r ← malloc base lo grow fuel h n; if fst r =? 0 then Some (snd r, live) else Some (snd r, <[fst r := n]> live)
  | Free p => match live !! p with Some _ => h ← free base lo fuel h p; Some (h, delete p live) | None => Some st end
  end.

Fixpoint exec (fuel : nat) (ops : list op) (st : heap * gmap Z Z) : option (heap * gmap Z Z) :=
  match ops with
  | [] => Some st
  | o :: ops => st ← exec_op fuel o st; exec fuel ops st
  end.

(** The sizes whose block is smaller than 2 GB. *)
Definition op_ok (o : op) : Prop := match o with Malloc n => 0 ≤ n ≤ 2 ^ 31 - 16 | Free _ => True end.

Lemma op_ok_core n : 0 ≤ n ≤ 2 ^ 31 - 16 → core (units n) < 2 ^ 31.
Proof.
  intros Hn. rewrite /core /units. assert ((n + 7) / 8 ≤ (2 ^ 31 - 9) / 8) by (apply Z.div_le_mono; lia).
  change ((2 ^ 31 - 9) / 8) with 268435454 in *. lia.
Qed.

(** The pointers the program holds are those of allocated blocks. *)
Definition live_ok (live A : gmap Z Z) : Prop := ∀ p n, live !! p = Some n → 0 ≤ n ∧ A !! (p - 8) = Some (units n).

Lemma exec_op_ok fuel o h L A live : heap_inv h L A → live_ok live A → op_ok o → (2 * length L + 5 ≤ fuel)%nat →
  ∃ h' live' L' A', exec_op fuel o (h, live) = Some (h', live') ∧ heap_inv h' L' A' ∧ live_ok live' A' ∧ (length L' ≤ S (length L))%nat.
Proof.
  intros Hinv Hlive Ho Hf. destruct o as [n|p]; simpl in *.
  - pose proof (op_ok_core n Ho) as Hc. destruct Ho as [Hn _]. destruct (malloc_run h L A n fuel Hinv Hn Hc Hf) as (r&h'&L'&->&Hlen&[(->&Hok&_)|(a&->&Ha&Hok)]); simpl.
    + exists h', live, L', A. split; [done|]. split; [by left|done].
    + assert (0 < a). { destruct (ok_alloc _ _ _ _ _ Hok a (units n)) as (?&?&_); [by rewrite lookup_insert_eq|]. destruct (ok_base _ _ _ _ _ Hok). lia. }
      rewrite (proj2 (Z.eqb_neq _ _)); [lia|]. exists h', (<[a + 8 := n]> live), L', (<[a := units n]> A). split; [done|]. split; [by left|].
      split; [|done]. intros p k [[<- <-]|[Hne Hp]]%lookup_insert_Some.
      * rewrite (_ : a + 8 - 8 = a); [lia|]. by rewrite lookup_insert_eq.
      * destruct (Hlive p k Hp) as [? HA]. split; [done|]. rewrite lookup_insert_ne //. intros ->. congruence.
  - destruct (live !! p) as [n|] eqn:Ep; [|by exists h, live, L, A; auto].
    destruct (Hlive p n Ep) as [Hn HA]. destruct Hinv as [H|(_&_&->)]; [|done].
    destruct (free_ok base lo h L A (p - 8) (units n) fuel H HA) as (h'&L'&Ef&Hok&_&Hlen&_); [lia|].
    rewrite (_ : p - 8 + 8 = p) in Ef; [lia|]. rewrite Ef /=. exists h', (delete p live), L', (delete (p - 8) A). split; [done|].
    split; [by left|]. split; [|done]. intros q k [Hne Hq]%lookup_delete_Some. destruct (Hlive q k Hq) as [? ?]. split; [done|].
    rewrite lookup_delete_ne //. lia.
Qed.

Lemma exec_ok fuel ops : ∀ h L A live, heap_inv h L A → live_ok live A → Forall op_ok ops → (2 * (length L + length ops) + 5 ≤ fuel)%nat →
  ∃ h' live' L' A', exec fuel ops (h, live) = Some (h', live') ∧ heap_inv h' L' A' ∧ live_ok live' A'.
Proof.
  induction ops as [|o ops IH]; intros h L A live Hinv Hlive Hops Hf; [by exists h, live, L, A|].
  inversion Hops; subst. simpl in Hf. destruct (exec_op_ok fuel o h L A live) as (h1&live1&L1&A1&E&?&?&?); try done; [lia|].
  cbn [exec]. rewrite E. cbn [mbind option_bind]. apply (IH h1 L1 A1); try done. lia.
Qed.

(** C12: The allocator is safe for blocks that need less than 2 GB: whatever
    sequence of malloc and free a program executes, as long as the sizes are
    at most 2^31 - 16 bytes (with the header below 2 GB) and it frees only
    pointers it holds, every call ends, no access leaves the heap, and the
    memory areas the program holds lie inside the heap and are pairwise
    disjoint, each with all the bytes asked for.  Larger sizes are
    [malloc_too_large] and [malloc_wraps]. *)
Theorem malloc_free_safe h ops fuel : fresh h → Forall op_ok ops → (2 * length ops + 5 ≤ fuel)%nat →
  ∃ h' live, exec fuel ops (h, ∅) = Some (h', live) ∧
    (∀ p n, live !! p = Some n → lo + 8 ≤ p ∧ p + n ≤ brk h') ∧
    (∀ p n q k, live !! p = Some n → live !! q = Some k → p ≠ q → p + n ≤ q ∨ q + k ≤ p).
Proof.
  intros Hfr Hops Hf. destruct (exec_ok fuel ops h [] ∅ ∅) as (h'&live&L'&A'&E&Hinv&Hlive); [by right|done|done|simpl; lia|].
  exists h', live. split; [done|]. split.
  - intros p n Hp. destruct (Hlive p n Hp) as [Hn HA]. destruct Hinv as [H|(_&_&->)]; [|done].
    destruct (ok_alloc _ _ _ _ _ H _ _ HA) as (?&?&?&_). pose proof (units_bytes n). lia.
  - intros p n q k Hp Hq Hpq. destruct (Hlive p n Hp) as [Hn HA], (Hlive q k Hq) as [Hk HB]. destruct Hinv as [H|(_&_&->)]; [|done].
    pose proof (units_bytes n). pose proof (units_bytes k). destruct (ok_allocs _ _ _ _ _ H _ _ _ _ HA HB); lia.
Qed.
End Thms.

(** ** Example: a process with its break at 16384 and a limit of one megabyte *)

Definition demo_grow (b n : Z) : option Z :=
  if 0 <=? n then if b + n <=? 1048576 then Some (b + n) else None
  else if b + n <? 0 then Some b else if b + n =? 0 then None else Some (b + n).
Definition demo_heap : heap := Heap ∅ 0 16384.
Definition demo_ops : list op := [Malloc 100; Malloc 20; Free 49048; Malloc 1; Malloc 2000000].

Lemma demo_grow_ok b n b' : demo_grow b n = Some b' → 0 ≤ n → b' = b + n ∧ b' ≤ 2 ^ 31.
Proof. rewrite /demo_grow. intros H Hn. rewrite (proj2 (Z.leb_le _ _) Hn) in H. case_match; [|done]. simplify_eq. breflect. lia. Qed.

Lemma demo_not_larger : not_larger demo_grow.
Proof. intros b n b'. rewrite /demo_grow. intros H Hn. repeat case_match; simplify_eq; breflect; lia. Qed.

Lemma demo_fresh : fresh 4096 16384 demo_heap.
Proof. by split_and!; vm_compute. Qed.

Lemma malloc_result_witness :
  malloc 4096 16384 demo_grow 10 demo_heap 100 = Some (49048, Heap {[4096 := (16384, 0); 16384 := (4096, 4082); 49040 := (0, 14)]} 4096 49152) ∧
  ∃ r h' L', malloc 4096 16384 demo_grow 10 demo_heap 100 = Some (r, h') ∧ outcome 4096 16384 demo_grow demo_heap [] ∅ (units 100) r h' L'.
Proof.
  split; [by vm_compute|]. apply (malloc_result 4096 16384 demo_grow demo_grow_ok demo_heap [] ∅ 100 10); [right; split_and!; try done; apply demo_fresh|lia|by vm_compute|simpl; lia].
Defined.

Lemma malloc_too_large_witness :
  malloc 4096 16384 demo_grow 10 demo_heap (2 ^ 31) = None.
Proof.
  apply (malloc_too_large 4096 16384 demo_grow demo_grow_ok demo_heap [] ∅ (2 ^ 31) 10).
  - right. split_and!; try done; apply demo_fresh.
  - exact demo_not_larger.
  - by vm_compute.
  - lia.
  - simpl. lia.
Defined.

Lemma malloc_wraps_witness :
  malloc 4096 16384 demo_grow 10 demo_heap (2 ^ 32 - 1) = malloc 4096 16384 demo_grow 10 demo_heap 0.
Proof. apply (malloc_wraps 4096 16384 demo_grow demo_heap (2 ^ 32 - 1) 10). lia. Defined.

Lemma malloc_free_safe_witness :
  ∃ h' live, exec 4096 16384 demo_grow 20 demo_ops (demo_heap, ∅) = Some (h', live) ∧
    (∀ p n q k, live !! p = Some n → live !! q = Some k → p ≠ q → p + n ≤ q ∨ q + k ≤ p).
Proof.
  destruct (malloc_free_safe 4096 16384 demo_grow demo_grow_ok demo_heap demo_ops 20 demo_fresh) as (h'&live&E&_&H).
  - by repeat (apply Forall_cons; split).
  - simpl. lia.
  - exists h', live. split; [exact E|exact H].
Defined.
