(* ===== verification/Sh.v ===== *)
(** * The shell of xv6, its parser: [src/Xv6-Syscall/src/sh.c]

    The command line is a buffer [b] with a NUL at [es]; pointers into it are
    offsets.  A parsing routine takes the offset [*ps] and returns the new one
    with its result, ends in [panic] (with what was printed), or reads outside
    of the buffer, which is undefined.  The routines call each other on shorter
    and shorter rests of the line; [fuel] bounds the depth of the calls.

    [malloc] succeeds, and a command is the tree the code builds with pointers.
    [parseexec] fills in the arguments of an [execcmd] while redirections are
    wrapped around it: the wrappers are collected in a list and put around the
    finished command. *)

From S2P Require Import Prelude CInt CString Params Stdio Ulib.

(** ** Commands *)

(** Arguments and file names are pairs of offsets, the first character and the
    one behind the last. *)
Inductive cmd :=
| Exec (argv : list (nat * nat))
| Redir (c : cmd) (file : nat * nat) (mode : Z) (fd : nat)
| Pipe (left right : cmd)
| List_ (left right : cmd)
| Back (c : cmd).

Definition MAXARGS : nat := 10.

(** ** Results *)

Inductive pres (A : Type) :=
| PRet (a : A) (s : nat)
| PPanic (out : list Z)
| PUndef
| PFuel.
#[global] Arguments PRet {_} _ _.
#[global] Arguments PPanic {_} _.
#[global] Arguments PUndef {_}.
#[global] Arguments PFuel {_}.

Definition P (A : Type) := nat → pres A.

#[global] Instance P_ret : MRet P := λ A a s, PRet a s.
#[global] Instance P_bind : MBind P := λ A B f m s,
  match m s with
  | PRet a s => f a s
  | PPanic out => PPanic out
  | PUndef => PUndef
  | PFuel => PFuel
  end.

Definition ppanic {A} (msg : list Z) : P A := λ _, PPanic (msg ++ [nl]).
Definition pfuel {A} : P A := λ _, PFuel.

(** A routine that computes a result and the new offset, or is undefined. *)
Definition preads {A} (f : nat → option (A * nat)) : P A := λ s,
  match f s with Some (a, s) => PRet a s | None => PUndef end.

(** ** Tokens *)

Definition whitespace : list Z := [32; 9; 13; 10; 11].
Definition symbols : list Z := str "<|>&;()".

(** [strchr(set, c)] of ulib.c, as a truth value. *)
Definition in_set (set : list Z) (c : Z) : bool := bool_decide (c ∈ set).
Definition word_char (c : Z) : bool := negb (in_set whitespace c) && negb (in_set symbols c).

Section Parse.
Context (b : list Z) (es : nat).

(** [while(s < es && p( *s)) s++]; [n] is [es - s]. *)
Fixpoint skip (p : Z → bool) (n : nat) (s : nat) : option nat :=
  match n with
  | O => Some s
  | S n => c ← b !! s; if p c then skip p n (S s) else Some s
  end.
Definition skip_while (p : Z → bool) (s : nat) : option nat := skip p (es - s) s.

(** [switch( *s)]: the token that starts with [c] at [s], and where it ends. *)
Definition scan (c : Z) (s : nat) : option (Z * nat) :=
  if c =? 0 then Some (c, s)
  else if in_set (str "|();&<") c then Some (c, S s)
  else if c =? 62 then d ← b !! S s; Some (if d =? 62 then (43, S (S s)) else (c, S s))
  else e ← skip_while word_char s; Some (97, e).

(** The token, where it starts and ends, and the new offset. *)
Definition gettoken (s : nat) : option ((Z * (nat * nat)) * nat) :=
  s ← skip_while (in_set whitespace) s;
  let q := s in
  c ← b !! s;
  r ← scan c s;
  let '(ret, s) := (r : Z * nat) in
  let eq := s in
  s ← skip_while (in_set whitespace) s;
  Some ((ret, (q, eq)), s).

Definition peek (toks : list Z) (s : nat) : option (bool * nat) :=
  s ← skip_while (in_set whitespace) s;
  c ← b !! s;
  Some (negb (c =? 0) && in_set toks c, s).

(** ** The parser *)

(** The redirections around a command, the innermost first. *)
Definition redir := ((nat * nat) * Z * nat)%type.
Definition wrap (c : cmd) (rs : list redir) : cmd := foldl (λ c r, Redir c r.1.1 r.1.2 r.2) c rs.

Fixpoint parseredirs (fuel : nat) : P (list redir) :=
  match fuel with
  | O => pfuel
  | S fuel =>
      p ← preads (peek (str "<>"));
      if (p : bool) then
        t ← preads gettoken;
        f ← preads gettoken;
        if negb (fst f =? 97) then ppanic (str "missing file for redirection") else
        rs ← parseredirs fuel;
        mret ((if fst t =? 60 then (snd f, O_RDONLY, 0%nat) else (snd f, Z.lor O_WRONLY O_CREATE, 1%nat)) :: rs)
      else mret []
  end.

(** The loop of [parseexec] with the arguments and redirections so far. *)
Fixpoint exec_args (fuel : nat) (argv : list (nat * nat)) (rs : list redir) : P cmd :=
  match fuel with
  | O => pfuel
  | S fuel =>
      p ← preads (peek (str "|)&;"));
      if (p : bool) then mret (wrap (Exec argv) rs) else
      t ← preads gettoken;
      if fst t =? 0 then mret (wrap (Exec argv) rs) else
      if negb (fst t =? 97) then ppanic (str "syntax") else
      let argv := argv ++ [snd t] in
      if bool_decide (MAXARGS ≤ length argv)%nat then ppanic (str "too many args") else
      more ← parseredirs fuel;
      exec_args fuel argv (rs ++ more)
  end.

(** [while(peek(ps, es, "&"))] *)
Fixpoint backs (fuel : nat) (c : cmd) : P cmd :=
  match fuel with
  | O => pfuel
  | S fuel =>
      p ← preads (peek (str "&"));
      if (p : bool) then preads gettoken;; backs fuel (Back c) else mret c
  end.

Fixpoint parseline (fuel : nat) : P cmd :=
  match fuel with
  | O => pfuel
  | S fuel =>
      c ← parsepipe fuel;
      c ← backs fuel c;
      p ← preads (peek (str ";"));
      if (p : bool) then preads gettoken;; r ← parseline fuel; mret (List_ c r) else mret c
  end
with parsepipe (fuel : nat) : P cmd :=
  match fuel with
  | O => pfuel
  | S fuel =>
      c ← parseexec fuel;
      p ← preads (peek (str "|"));
      if (p : bool) then preads gettoken;; r ← parsepipe fuel; mret (Pipe c r) else mret c
  end
with parseexec (fuel : nat) : P cmd :=
  match fuel with
  | O => pfuel
  | S fuel =>
      p ← preads (peek (str "("));
      if (p : bool) then parseblock fuel else
      rs ← parseredirs fuel;
      exec_args fuel [] rs
  end
with parseblock (fuel : nat) : P cmd :=
  match fuel with
  | O => pfuel
  | S fuel =>
      p ← preads (peek (str "("));
      if negb p then ppanic (str "parseblock") else
      preads gettoken;;
      c ← parseline fuel;
      p ← preads (peek (str ")"));
      if negb p then ppanic (str "syntax - missing )") else
      preads gettoken;;
      rs ← parseredirs fuel;
      mret (wrap c rs)
  end.
End Parse.

(** ** [nulterminate] and [parsecmd] *)

Fixpoint term_args (m : mem) (argv : list (nat * nat)) : option mem :=
  match argv with
  | [] => Some m
  | (_, e) :: argv => m ← store m e 0; term_args m argv
  end.

Fixpoint nulterminate (m : mem) (c : cmd) : option mem :=
  match c with
  | Exec argv => term_args m argv
  | Redir c (_, e) _ _ => m ← nulterminate m c; store m e 0
  | Pipe l r | List_ l r => m ← nulterminate m l; nulterminate m r
  | Back c => nulterminate m c
  end.

Definition parsecmd (fuel : nat) (b : mem) : pres (mem * cmd) :=
  match strlen b with
  | None => PUndef
  | Some n =>
      let es := Z.to_nat n in
      match parseline b es fuel 0%nat with
      | PRet c s =>
          match peek b es [] s with
          | None => PUndef
          | Some (_, s) =>
              if bool_decide (s = es) then
                match nulterminate b c with None => PUndef | Some m => PRet (m, c) s end
              else PPanic (str "leftovers: " ++ cstring (drop s b) ++ [nl] ++ str "syntax" ++ [nl])
          end
      | PPanic out => PPanic out
      | PUndef => PUndef
      | PFuel => PFuel
      end
  end.

(** ** The parser of sh.c: termination and memory safety

    On every line the parser returns a command or reports an error; it never
    reads outside of the line and the recursion ends. *)

Section Parse.
Context (b : list Z) (es : nat).
(** The line ends with the first NUL, at [es]. *)
Context (Hb : ∀ i, (i ≤ es)%nat → ∃ c, b !! i = Some c ∧ (c = 0 ↔ i = es)).

(** ** Scanning *)

Definition all_in (p : Z → bool) (i j : nat) : Prop := ∀ k, (i ≤ k < j)%nat → ∃ c, b !! k = Some c ∧ p c = true.

Lemma skip_ok p n s : (s + n = es)%nat →
  ∃ s', skip b p n s = Some s' ∧ (s ≤ s' ≤ es)%nat ∧ all_in p s s' ∧ (∀ c, (s' < es)%nat → b !! s' = Some c → p c = false).
Proof.
  revert s. induction n as [|n IH]; intros s Hs; simpl.
  - exists s. split; [done|]. split; [lia|]. split; [intros k; lia|lia].
  - destruct (Hb s ltac:(lia)) as (c&Hc&_). rewrite Hc /=. destruct (p c) eqn:Ep.
    + destruct (IH (S s) ltac:(lia)) as (s'&->&Hr&Ha&He). exists s'. split; [done|]. split; [lia|]. split; [|done].
      intros k Hk. destruct (decide (k = s)) as [->|]; [by exists c|]. apply Ha. lia.
    + exists s. split; [done|]. split; [lia|]. split; [intros k; lia|]. intros c' _ Hc'. congruence.
Qed.

Lemma skip_while_ok p s : (s ≤ es)%nat →
  ∃ s', skip_while b es p s = Some s' ∧ (s ≤ s' ≤ es)%nat ∧ all_in p s s' ∧ (∀ c, (s' < es)%nat → b !! s' = Some c → p c = false).
Proof. intros Hs. apply skip_ok. lia. Qed.

Lemma skip_unique p s s' : (s ≤ s' ≤ es)%nat → all_in p s s' → (∀ c, (s' < es)%nat → b !! s' = Some c → p c = false) →
  skip_while b es p s = Some s'.
Proof.
  intros Hr Ha He. rewrite /skip_while. remember (es - s)%nat as n eqn:En. revert s Hr Ha En. induction n as [|n IH]; intros s Hr Ha En; simpl.
  - f_equal. lia.
  - destruct (decide (s = s')) as [->|Hne].
    + destruct (Hb s' ltac:(lia)) as (c&Hc&_). rewrite Hc /= He //. lia.
    + destruct (Ha s ltac:(lia)) as (c&Hc&Hp). rewrite Hc /= Hp. apply IH; [lia| |lia]. intros k Hk. apply Ha. lia.
Qed.

(** A token is nonempty unless the line is at its end. *)
Lemma scan_ok c q : (q ≤ es)%nat → b !! q = Some c → ((q < es)%nat → in_set whitespace c = false) →
  ∃ t e, scan b es c q = Some (t, e) ∧ (q ≤ e ≤ es)%nat ∧ (t ≠ 0 → q < e)%nat ∧ (t = 0 → c = 0).
Proof.
  intros Hq Hc Hstop. destruct (Hb q Hq) as (c'&Hc'&Hc0). rewrite Hc in Hc'. injection Hc' as <-. rewrite /scan.
  destruct (Z.eqb_spec c 0) as [->|Hne]; [exists 0, q; split; [done|]; split; [lia|done]|].
  assert (q < es)%nat as Hlt by (destruct (decide (q = es)); [tauto|lia]).
  destruct (in_set (str "|();&<") c) eqn:E1; [exists c, (S q); split; [done|]; split; [lia|]; split; [lia|done]|].
  destruct (Z.eqb_spec c 62) as [->|Hgt].
  - destruct (Hb (S q) ltac:(lia)) as (d&Hd&Hd0). rewrite Hd. cbn [mbind option_bind]. destruct (Z.eqb_spec d 62) as [->|].
    + exists 43, (S (S q)). split; [done|]. assert (S q ≠ es) by (intros E; apply Hd0 in E; done). split; [lia|]. split; [lia|done].
    + exists 62, (S q). split; [done|]. split; [lia|]. split; [lia|done].
  - destruct (skip_while_ok word_char q Hq) as (e&->&He&_&Hend). exists 97, e. split; [done|]. split; [lia|]. split; [|done]. intros _.
    destruct (decide (e = q)) as [->|]; [|lia]. specialize (Hend c Hlt Hc). exfalso. revert Hend. rewrite /word_char (Hstop Hlt).
    rewrite /in_set in E1 |- *. apply bool_decide_eq_false in E1. rewrite bool_decide_eq_false_2 //. vm_compute in E1 |- *. set_solver.
Qed.

Lemma gettoken_ok s : (s ≤ es)%nat →
  ∃ t q e s', gettoken b es s = Some ((t, (q, e)), s') ∧ (s ≤ q ≤ e)%nat ∧ (e ≤ s' ≤ es)%nat ∧ (t ≠ 0 → q < e)%nat ∧
    (t = 0 → b !! q = Some 0) ∧ skip_while b es (in_set whitespace) s = Some q.
Proof.
  intros Hs. rewrite /gettoken. destruct (skip_while_ok (in_set whitespace) s Hs) as (q&E&Hq&_&Hstop). rewrite E. cbn [mbind option_bind].
  destruct (Hb q ltac:(lia)) as (c&Hc&_). rewrite Hc. cbn [mbind option_bind].
  destruct (scan_ok c q ltac:(lia) Hc) as (t&e&->&He&Ht&Ht0); [intros Hlt; by apply Hstop|]. cbn [mbind option_bind].
  destruct (skip_while_ok (in_set whitespace) e ltac:(lia)) as (s'&->&Hs'&_). cbn [mbind option_bind].
  exists t, q, e, s'. split; [done|]. split; [lia|]. split; [lia|]. split; [done|]. split; [intros ->; by rewrite Hc Ht0|done].
Qed.

Lemma peek_ok toks s : (s ≤ es)%nat → 0 ∉ toks →
  ∃ s' c, peek b es toks s = Some (in_set toks c, s') ∧ (s ≤ s' ≤ es)%nat ∧ b !! s' = Some c ∧
    skip_while b es (in_set whitespace) s = Some s' ∧ skip_while b es (in_set whitespace) s' = Some s'.
Proof.
  intros Hs H0. rewrite /peek. destruct (skip_while_ok (in_set whitespace) s Hs) as (s'&E&Hs'&_&Hstop). rewrite E. simpl.
  destruct (Hb s' ltac:(lia)) as (c&Hc&_). rewrite Hc /=. exists s', c. split.
  - destruct (Z.eqb_spec c 0) as [->|]; [|done]. simpl. do 2 f_equal. symmetry. by apply bool_decide_eq_false_2.
  - split; [done|]. split; [done|]. split; [done|]. apply skip_unique; [lia|intros k; lia|done].
Qed.

(** ** Every line is parsed or rejected *)

(** The routine returns at a later offset with a result in [Q], or reports an error. *)
Definition total {A} (Q : A → Prop) (r : pres A) (s : nat) : Prop :=
  match r with PRet a s' => (s ≤ s' ≤ es)%nat ∧ Q a | PPanic _ => True | _ => False end.

Lemma total_bind {A B} (Q : A → Prop) (R : B → Prop) (m : P A) (f : A → P B) s :
  total Q (m s) s → (∀ a s', (s ≤ s' ≤ es)%nat → Q a → total R (f a s') s') → total R ((m ≫= f) s) s.
Proof.
  rewrite /total /mbind /P_bind. destruct (m s) as [a s'| | |]; try done. intros [Hs Ha] Hf. specialize (Hf a s' Hs Ha).
  destruct (f a s'); try done. destruct Hf. split; [lia|done].
Qed.

(** A token was read. *)
Definition consumed (s s' : nat) (t : Z * (nat * nat)) : Prop := (t.2.2 ≤ es)%nat ∧ (t.1 ≠ 0 → s < s')%nat.

Lemma total_gettoken {B} (R : B → Prop) (f : _ → P B) s : (s ≤ es)%nat →
  (∀ t s', (s ≤ s' ≤ es)%nat → consumed s s' t → total R (f t s') s') → total R ((preads (gettoken b es) ≫= f) s) s.
Proof.
  intros Hs Hf. destruct (gettoken_ok s Hs) as (t&q&e&s'&E&Hq&He&Ht&_). rewrite /mbind /P_bind /preads E.
  assert (total R (f (t, (q, e)) s') s') as H by (apply Hf; [lia|split; simpl; lia]).
  destruct (f _ s'); try done. destruct H. split; [lia|done].
Qed.

(** After a positive answer of [peek] the next token is not the end. *)
Lemma peek_gettoken toks s s' t q e s1 : (s ≤ es)%nat → 0 ∉ toks → peek b es toks s = Some (true, s') →
  gettoken b es s' = Some ((t, (q, e)), s1) → t ≠ 0.
Proof.
  intros Hs H0 Hp Ht ->. destruct (peek_ok toks s Hs H0) as (s2&c&E&Hr&Hc&_&E2). rewrite E in Hp. injection Hp as Hin <-.
  apply bool_decide_eq_true in Hin. destruct (gettoken_ok s2 ltac:(lia)) as (t'&q'&e'&s3&E3&_&_&_&Hz&E4).
  rewrite E3 in Ht. injection Ht as -> -> -> ->. rewrite E2 in E4. injection E4 as <-. rewrite Hc in Hz. naive_solver.
Qed.

Definition more (s : nat) : Prop := ∀ t q e s1, gettoken b es s = Some ((t, (q, e)), s1) → t ≠ 0.

Lemma total_peek {B} (R : B → Prop) toks (f : bool → P B) s : (s ≤ es)%nat → 0 ∉ toks →
  (∀ p s', (s ≤ s' ≤ es)%nat → (p = true → more s') → total R (f p s') s') → total R ((preads (peek b es toks) ≫= f) s) s.
Proof.
  intros Hs H0 Hf. destruct (peek_ok toks s Hs H0) as (s'&c&E&Hs'&_). rewrite /mbind /P_bind /preads E.
  assert (total R (f (in_set toks c) s') s') as H.
  { apply Hf; [lia|]. intros Hp t q e s1 Ht. rewrite Hp in E. by eapply peek_gettoken. }
  destruct (f _ s'); try done. destruct H. split; [lia|done].
Qed.

Lemma total_token {B} (R : B → Prop) (f : _ → P B) s : (s ≤ es)%nat → more s →
  (∀ t s', (s < s' ≤ es)%nat → (t.2.2 ≤ es)%nat → total R (f t s') s') → total R ((preads (gettoken b es) ≫= f) s) s.
Proof.
  intros Hs Hm Hf. destruct (gettoken_ok s Hs) as (t&q&e&s'&E&Hq&He&Ht&_). specialize (Hm _ _ _ _ E).
  rewrite /mbind /P_bind /preads E. assert (total R (f (t, (q, e)) s') s') as H by (apply Hf; simpl; lia).
  destruct (f _ s'); try done. destruct H. split; [lia|done].
Qed.

Lemma total_ret {A} (Q : A → Prop) a s : (s ≤ es)%nat → Q a → total Q ((mret a : P A) s) s.
Proof. intros. split; [lia|done]. Qed.

(** The offsets behind the words of a command. *)
Fixpoint ends (c : cmd) : list nat :=
  match c with
  | Exec argv => argv.*2
  | Redir c f _ _ => ends c ++ [f.2]
  | Pipe l r | List_ l r => ends l ++ ends r
  | Back c => ends c
  end.
Definition in_line (c : cmd) : Prop := Forall (λ e, (e ≤ es)%nat) (ends c).
Definition redirs_in (rs : list redir) : Prop := Forall (λ r, (r.1.1.2 ≤ es)%nat) rs.

Lemma wrap_in c rs : in_line c → redirs_in rs → in_line (wrap c rs).
Proof.
  intros Hc Hrs. revert c Hc. induction Hrs as [|r rs Hr Hrs IH]; intros c Hc; [done|]. simpl. apply IH. rewrite /in_line /=.
  apply Forall_app. split; [done|]. constructor; [done|constructor].
Qed.

Lemma parseredirs_total fuel s : (s ≤ es)%nat → (es - s < fuel)%nat → total redirs_in (parseredirs b es fuel s) s.
Proof.
  revert s. induction fuel as [|fuel IH]; intros s Hs Hf; [lia|]. cbn [parseredirs].
  apply total_peek; [done|by vm_compute; set_solver|]. intros [] s1 Hs1 Hm; [|apply total_ret; [lia|constructor]].
  apply total_token; [lia|by apply Hm|]. intros t s2 Hs2 _. apply total_gettoken; [lia|]. intros f s3 Hs3 [Hf2 _].
  destruct (negb _); [done|]. eapply total_bind; [apply IH; lia|]. intros rs s4 Hs4 Hrs. apply total_ret; [lia|].
  constructor; [by destruct (_ =? 60)|done].
Qed.

Lemma exec_args_total fuel argv rs s : (s ≤ es)%nat → (es - s < fuel)%nat → Forall (λ e, (e ≤ es)%nat) argv.*2 → redirs_in rs →
  total in_line (exec_args b es fuel argv rs s) s.
Proof.
  revert argv rs s. induction fuel as [|fuel IH]; intros argv rs s Hs Hf Ha Hrs; [lia|]. cbn [exec_args].
  apply total_peek; [done|by vm_compute; set_solver|]. intros [] s1 Hs1 _; [apply total_ret; [lia|by apply wrap_in]|].
  apply total_gettoken; [lia|]. intros t s2 Hs2 [Ht2 Hlt]. destruct (Z.eqb_spec t.1 0); [apply total_ret; [lia|by apply wrap_in]|].
  specialize (Hlt ltac:(done)). destruct (negb _); [done|]. case_bool_decide; [done|].
  eapply total_bind; [apply parseredirs_total; lia|]. intros rs' s3 Hs3 Hrs'. apply IH; [lia|lia| |].
  - rewrite fmap_app. apply Forall_app. split; [done|]. constructor; [done|constructor].
  - by apply Forall_app.
Qed.

Lemma backs_total fuel c s : (s ≤ es)%nat → (es - s < fuel)%nat → in_line c → total in_line (backs b es fuel c s) s.
Proof.
  revert c s. induction fuel as [|fuel IH]; intros c s Hs Hf Hc; [lia|]. cbn [backs].
  apply total_peek; [done|by vm_compute; set_solver|]. intros [] s1 Hs1 Hm; [|apply total_ret; [lia|done]].
  apply total_token; [lia|by apply Hm|]. intros t s2 Hs2 _. apply IH; [lia|lia|done].
Qed.

Lemma parse_total fuel : ∀ s, (s ≤ es)%nat →
  ((4 * (es - s) + 5 ≤ fuel)%nat → total in_line (parseline b es fuel s) s) ∧
  ((4 * (es - s) + 4 ≤ fuel)%nat → total in_line (parsepipe b es fuel s) s) ∧
  ((4 * (es - s) + 3 ≤ fuel)%nat → total in_line (parseexec b es fuel s) s) ∧
  ((4 * (es - s) + 2 ≤ fuel)%nat → total in_line (parseblock b es fuel s) s).
Proof.
  induction fuel as [|fuel IH]; intros s Hs; [lia|]. split_and!; intros Hf.
  - cbn [parseline]. eapply total_bind; [apply (IH s); lia|]. intros c s1 Hs1 Hc. eapply total_bind; [apply backs_total; [lia|lia|done]|].
    intros c' s2 Hs2 Hc'. apply total_peek; [lia|by vm_compute; set_solver|]. intros [] s3 Hs3 Hm; [|apply total_ret; [lia|done]].
    apply total_token; [lia|by apply Hm|]. intros t s4 Hs4 _. eapply total_bind; [apply (IH s4); lia|]. intros r s5 Hs5 Hr.
    apply total_ret; [lia|]. by apply Forall_app.
  - cbn [parsepipe]. eapply total_bind; [apply (IH s); lia|]. intros c s1 Hs1 Hc. apply total_peek; [lia|by vm_compute; set_solver|].
    intros [] s2 Hs2 Hm; [|apply total_ret; [lia|done]]. apply total_token; [lia|by apply Hm|]. intros t s3 Hs3 _.
    eapply total_bind; [apply (IH s3); lia|]. intros r s4 Hs4 Hr. apply total_ret; [lia|]. by apply Forall_app.
  - cbn [parseexec]. apply total_peek; [lia|by vm_compute; set_solver|]. intros [] s1 Hs1 Hm; [apply (IH s1); lia|].
    eapply total_bind; [apply parseredirs_total; lia|]. intros rs s2 Hs2 Hrs. apply exec_args_total; [lia|lia|constructor|done].
  - cbn [parseblock]. apply total_peek; [lia|by vm_compute; set_solver|]. intros [] s1 Hs1 Hm; [|done]. simpl negb. cbv iota.
    apply total_token; [lia|by apply Hm|]. intros t s2 Hs2 _. eapply total_bind; [apply (IH s2); lia|]. intros c s3 Hs3 Hc.
    apply total_peek; [lia|by vm_compute; set_solver|]. intros [] s4 Hs4 Hm4; [|done]. simpl negb. cbv iota.
    apply total_token; [lia|by apply Hm4|]. intros t' s5 Hs5 _. eapply total_bind; [apply parseredirs_total; lia|].
    intros rs s6 Hs6 Hrs. apply total_ret; [lia|]. by apply wrap_in.
Qed.
End Parse.

(** ** [nulterminate] and [parsecmd] *)

(** NULs at some places of a buffer. *)
Definition zeroes (m : mem) (es : list nat) : mem := foldl (λ m e, <[e := 0]> m) m es.

Lemma zeroes_length m es : length (zeroes m es) = length m.
Proof. revert m. induction es as [|e es IH]; intros m; [done|]. by rewrite /= IH length_insert. Qed.

Lemma zeroes_app m es es' : zeroes m (es ++ es') = zeroes (zeroes m es) es'.
Proof. apply foldl_app. Qed.

Lemma zeroes_other m es i : i ∉ es → zeroes m es !! i = m !! i.
Proof.
  revert m. induction es as [|e es IH]; intros m Hi; [done|]. apply not_elem_of_cons in Hi as [??]. rewrite /= IH //.
  by rewrite list_lookup_insert_ne.
Qed.

Lemma zeroes_at m es i : i ∈ es → (i < length m)%nat → zeroes m es !! i = Some 0.
Proof.
  revert m. induction es as [|e es IH]; intros m Hi Hl; [set_solver|]. simpl. destruct (decide (i ∈ es)) as [Hin|Hout].
  - apply IH; [done|]. by rewrite length_insert.
  - apply elem_of_cons in Hi as [->|?]; [|done]. rewrite zeroes_other // list_lookup_insert_eq //.
Qed.

Lemma term_args_ok m argv : Forall (λ e, (e < length m)%nat) argv.*2 → term_args m argv = Some (zeroes m argv.*2).
Proof.
  revert m. induction argv as [|[q e] argv IH]; intros m H; [done|]. inversion H; subst. simpl in *. rewrite store_Some //=.
  apply IH. by rewrite length_insert.
Qed.

Lemma nulterminate_ok c : ∀ m, Forall (λ e, (e < length m)%nat) (ends c) → nulterminate m c = Some (zeroes m (ends c)).
Proof.
  induction c as [argv|c IH [q e] mode fd|l IHl r IHr|l IHl r IHr|c IH]; intros m Hc; cbn [ends nulterminate] in *.
  - by apply term_args_ok.
  - apply Forall_app in Hc as [Hc He]. inversion He; subst. simpl in *. rewrite (IH m Hc) /= zeroes_app store_Some ?zeroes_length //.
  - apply Forall_app in Hc as [Hl Hr]. rewrite (IHl m Hl) /= zeroes_app. apply IHr. by rewrite zeroes_length.
  - apply Forall_app in Hc as [Hl Hr]. rewrite (IHl m Hl) /= zeroes_app. apply IHr. by rewrite zeroes_length.
  - by apply IH.
Qed.

(** A line in its buffer. *)
Lemma line_at t rest i : 0 ∉ t → (i ≤ length t)%nat → ∃ c, (t ++ 0 :: rest) !! i = Some c ∧ (c = 0 ↔ i = length t).
Proof.
  intros H0 Hi. destruct (decide (i = length t)) as [->|Hne].
  - exists 0. by rewrite lookup_app_r // Nat.sub_diag.
  - destruct (lookup_lt_is_Some_2 t i) as [c Hc]; [lia|]. exists c. rewrite lookup_app_l //; [lia|]. split; [done|]. split; [|done].
    intros ->. destruct H0. by eapply list_elem_of_lookup_2.
Qed.

(** C32: The parser of sh terminates on every line: it returns a command or
    reports an error, never reads or writes outside of the line, and the depth
    of its recursion is linear in the length of the line. *)
Theorem parsecmd_total t rest fuel : 0 ∉ t → (4 * length t + 5 ≤ fuel)%nat →
  (∃ m c s, parsecmd fuel (t ++ 0 :: rest) = PRet (m, c) s ∧ length m = length (t ++ 0 :: rest)) ∨
  (∃ out, parsecmd fuel (t ++ 0 :: rest) = PPanic out).
Proof.
  intros H0 Hf. rewrite /parsecmd strlen_text // Nat2Z.id. pose proof (line_at t rest) as Hb.
  destruct (parse_total (t ++ 0 :: rest) (length t) (λ i, Hb i H0) fuel 0%nat ltac:(lia)) as [Ht _].
  specialize (Ht ltac:(lia)). destruct (parseline _ _ fuel 0%nat) as [c s|out| |] eqn:E; try done; [|by right; eexists].
  destruct Ht as [Hs Hc]. destruct (peek_ok (t ++ 0 :: rest) (length t) (λ i, Hb i H0) [] s ltac:(lia)) as (s'&x&->&_); [set_solver|].
  case_bool_decide; [|by right; eexists]. left. rewrite nulterminate_ok; [|eexists _, _, _; split; [done|by rewrite zeroes_length]].
  eapply Forall_impl; [exact Hc|]. simpl. intros e He. rewrite length_app /=. lia.
Qed.

Lemma parsecmd_total_witness :
  parsecmd 100 (str "ls | (wc > f)" ++ 0 :: []) =
    PRet (str "ls" ++ [0] ++ str "| (wc" ++ [0] ++ str "> f" ++ [0] ++ [0],
      Pipe (Exec [(0%nat, 2%nat)]) (Redir (Exec [(6%nat, 8%nat)]) (11%nat, 12%nat) 513 1)) 13 ∧
  ((∃ m c s, parsecmd 100 (str "ls | (wc > f)" ++ 0 :: []) = PRet (m, c) s ∧ length m = length (str "ls | (wc > f)" ++ 0 :: [])) ∨
   (∃ out, parsecmd 100 (str "ls | (wc > f)" ++ 0 :: []) = PPanic out)).
Proof.
  split; [by vm_compute|]. apply (parsecmd_total (str "ls | (wc > f)") [] 100); [by vm_compute; set_solver|by vm_compute; lia].
Defined.
