(* ===== verification/ShGrammar.v ===== *)
(** * The parser of sh.c accepts its grammar

    [gline], [gpipe] and [gexec] are the phrases of the shell's grammar; [tokens]
    says that a stretch of the line consists of a list of tokens, with any
    blanks between them.  The parser turns every line made of the tokens of a
    phrase into the command the phrase stands for, and [nulterminate] makes the
    words C strings. *)

From S2P Require Import Prelude CInt CString Stdio Ulib Params Sh.

(** ** Phrases *)

Notation word := (nat * nat)%type.

(** [<], [>] or [>>] with a file. *)
Definition gredir : Type := Z * word.

Inductive gline :=
| GLine (p : gpipe) (amps : nat)
| GSeq (p : gpipe) (amps : nat) (l : gline)
with gpipe :=
| GOne (e : gexec)
| GPipe (e : gexec) (p : gpipe)
with gexec :=
| GSimple (rs : list gredir) (args : list (word * list gredir))
| GBlock (l : gline) (rs : list gredir).

Scheme gline_ind' := Induction for gline Sort Prop
with gpipe_ind' := Induction for gpipe Sort Prop
with gexec_ind' := Induction for gexec Sort Prop.
Combined Scheme grammar_ind from gline_ind', gpipe_ind', gexec_ind'.

(** ** The tokens of a phrase *)

Inductive tok := TSym (c : Z) | TWord (w : word).

Definition redir_toks (rs : list gredir) : list tok := concat ((λ r, [TSym r.1; TWord r.2]) <$> rs).
Definition arg_toks (args : list (word * list gredir)) : list tok := concat ((λ a, TWord a.1 :: redir_toks a.2) <$> args).

Fixpoint line_toks (l : gline) : list tok :=
  match l with
  | GLine p n => pipe_toks p ++ replicate n (TSym 38)
  | GSeq p n l => pipe_toks p ++ replicate n (TSym 38) ++ TSym 59 :: line_toks l
  end
with pipe_toks (p : gpipe) : list tok :=
  match p with
  | GOne e => exec_toks e
  | GPipe e p => exec_toks e ++ TSym 124 :: pipe_toks p
  end
with exec_toks (e : gexec) : list tok :=
  match e with
  | GSimple rs args => redir_toks rs ++ arg_toks args
  | GBlock l rs => TSym 40 :: line_toks l ++ TSym 41 :: redir_toks rs
  end.

(** ** The command a phrase stands for *)

Definition redir_of (r : gredir) : redir :=
  if r.1 =? 60 then (r.2, O_RDONLY, 0%nat) else (r.2, Z.lor O_WRONLY O_CREATE, 1%nat).

Fixpoint line_cmd (l : gline) : cmd :=
  match l with
  | GLine p n => Nat.iter n Back (pipe_cmd p)
  | GSeq p n l => List_ (Nat.iter n Back (pipe_cmd p)) (line_cmd l)
  end
with pipe_cmd (p : gpipe) : cmd :=
  match p with
  | GOne e => exec_cmd e
  | GPipe e p => Pipe (exec_cmd e) (pipe_cmd p)
  end
with exec_cmd (e : gexec) : cmd :=
  match e with
  | GSimple rs args => wrap (Exec args.*1) (redir_of <$> rs ++ concat args.*2)
  | GBlock l rs => wrap (line_cmd l) (redir_of <$> rs)
  end.

(** Redirections use the three symbols, and a command has fewer than ten arguments. *)
Definition redirs_ok (rs : list gredir) : Prop := Forall (λ r, r.1 = 60 ∨ r.1 = 62 ∨ r.1 = 43) rs.

Fixpoint line_fits (l : gline) : Prop :=
  match l with
  | GLine p n => pipe_fits p
  | GSeq p n l => pipe_fits p ∧ line_fits l
  end
with pipe_fits (p : gpipe) : Prop :=
  match p with
  | GOne e => exec_fits e
  | GPipe e p => exec_fits e ∧ pipe_fits p
  end
with exec_fits (e : gexec) : Prop :=
  match e with
  | GSimple rs args => redirs_ok rs ∧ Forall (λ a, redirs_ok a.2) args ∧ (length args < MAXARGS)%nat
  | GBlock l rs => line_fits l ∧ redirs_ok rs
  end.

Section Grammar.
Context (b : list Z) (es : nat).
Context (Hb : ∀ i, (i ≤ es)%nat → ∃ c, b !! i = Some c ∧ (c = 0 ↔ i = es)).

Notation blank := (in_set whitespace).

(** No blank at [s]. *)
Definition stop (s : nat) : Prop := (s ≤ es)%nat ∧ ∀ c, (s < es)%nat → b !! s = Some c → blank c = false.

(** The token [t] from [q] to [e]. *)
Definition spells (t : tok) (q e : nat) : Prop :=
  match t with
  | TWord w => w = (q, e) ∧ (q < e ≤ es)%nat ∧ all_in b word_char q e ∧ ∀ c, (e < es)%nat → b !! e = Some c → word_char c = false
  | TSym c =>
      (c ∈ str "|();&<" ∧ b !! q = Some c ∧ e = S q) ∨
      (c = 62 ∧ b !! q = Some 62 ∧ b !! S q ≠ Some 62 ∧ e = S q) ∨
      (c = 43 ∧ b !! q = Some 62 ∧ b !! S q = Some 62 ∧ e = S (S q))
  end.

(** The token [t] at [s], followed by blanks up to [s']. *)
Definition token_at (s : nat) (t : tok) (s' : nat) : Prop :=
  ∃ e, spells t s e ∧ (e ≤ s')%nat ∧ all_in b blank e s' ∧ stop s'.

Fixpoint tokens (s : nat) (ts : list tok) (s' : nat) : Prop :=
  match ts with
  | [] => s' = s
  | t :: ts => ∃ s1, token_at s t s1 ∧ tokens s1 ts s'
  end.

Lemma tokens_app s ts1 ts2 s' : tokens s (ts1 ++ ts2) s' ↔ ∃ s1, tokens s ts1 s1 ∧ tokens s1 ts2 s'.
Proof.
  revert s. induction ts1 as [|t ts1 IH]; intros s; simpl.
  - split; [by exists s|]. by intros (?&->&?).
  - setoid_rewrite IH. naive_solver.
Qed.

Lemma tokens_stop s ts s' : stop s → tokens s ts s' → stop s' ∧ (s ≤ s')%nat.
Proof.
  revert s. induction ts as [|t ts IH]; intros s Hs; simpl; [by intros ->|]. intros (s1&(e&Hsp&He&_&Hs1)&Ht).
  destruct (IH s1 Hs1 Ht) as [? ?]. split; [done|]. assert (s ≤ e)%nat; [|lia]. destruct t as [c|w]; simpl in Hsp; [naive_solver lia|].
  destruct Hsp as (_&?&_). lia.
Qed.

(** ** [gettoken] and [peek] on tokens *)

Definition code (t : tok) : Z := match t with TSym c => c | TWord _ => 97 end.
(** The first character, if it is a symbol. *)
Definition first_sym (t : tok) : option Z := match t with TSym c => Some (if c =? 43 then 62 else c) | TWord _ => None end.

Lemma skip_stop s : stop s → skip_while b es blank s = Some s.
Proof. intros [Hs Hc]. apply skip_unique; [done|lia|intros k; lia|done]. Qed.

Lemma word_char_at c : word_char c = true → in_set (str "|();&<") c = false ∧ c ≠ 62 ∧ blank c = false.
Proof.
  rewrite /word_char. intros [Hw Hs]%andb_true_iff. rewrite !negb_true_iff in Hw Hs. split_and!; [| |done].
  - apply bool_decide_eq_false. apply bool_decide_eq_false in Hs. vm_compute in Hs |- *. set_solver.
  - intros ->. by vm_compute in Hs.
Qed.

Lemma gettoken_at s t s' : stop s → token_at s t s' → ∃ e, gettoken b es s = Some ((code t, (s, e)), s') ∧
  (∀ w, t = TWord w → w = (s, e)).
Proof.
  intros Hs (e&Hsp&He&Hbl&Hs'). exists e. split; [|intros w ->; by destruct Hsp].
  rewrite /gettoken skip_stop //. cbn [mbind option_bind].
  assert (∃ c, b !! s = Some c ∧ scan b es c s = Some (code t, e)) as (c&->&Hscan).
  { destruct t as [c|w]; simpl in Hsp.
    - destruct Hsp as [(Hc&Hq&->)|[(->&Hq&Hn&->)|(->&Hq&Hn&->)]]; eexists; (split; [exact Hq|]); rewrite /scan.
      + destruct (Z.eqb_spec c 0) as [->|]; [by vm_compute in Hc; set_solver|]. by rewrite /in_set bool_decide_eq_true_2.
      + simpl. destruct (Hb (S s)) as (d&Hd&_); [destruct Hs; destruct (Hb s) as (x&Hx&Hx0); [lia|]; assert (s ≠ es) by naive_solver; lia|].
        rewrite Hd /= in Hn |- *. destruct (Z.eqb_spec d 62); [congruence|done].
      + simpl. by rewrite Hn.
    - destruct Hsp as (_&Hlt&Hw&Hend). destruct (Hw s) as (c&Hc&Hcw); [lia|]. exists c. split; [done|].
      destruct (word_char_at c Hcw) as (E1&E2&_). rewrite /scan E1 (proj2 (Z.eqb_neq _ _) E2).
      destruct (Hb s) as (c'&Hc'&Hc0); [lia|]. rewrite Hc in Hc'. injection Hc' as <-.
      destruct (Z.eqb_spec c 0) as [->|]; [assert (s = es) by tauto; lia|].
      rewrite (skip_unique b es Hb word_char s e) //. lia. }
  cbn [mbind option_bind]. rewrite Hscan. cbn [mbind option_bind]. rewrite (skip_unique b es Hb blank e s') //; [destruct Hs'; lia|apply Hs'].
Qed.

(** [peek] at a token. *)
Lemma peek_at toks s t s' : stop s → token_at s t s' → (∀ c, c ∈ toks → c ∈ symbols) → 
  peek b es toks s = Some (match first_sym t with Some c => in_set toks c | None => false end, s).
Proof.
  intros Hs (e&Hsp&_) Hsym. rewrite /peek skip_stop //. cbn [mbind option_bind]. destruct t as [c|w]; simpl in Hsp.
  - assert (∃ d, b !! s = Some d ∧ d ≠ 0 ∧ d = if c =? 43 then 62 else c) as (d&->&Hd&->).
    { destruct Hsp as [(Hc&Hq&_)|[(->&Hq&_)|(->&Hq&_)]]; [|by exists 62..]. exists c. split; [done|].
      vm_compute in Hc. split; [set_solver|]. destruct (Z.eqb_spec c 43); [set_solver|done]. }
    cbn [mbind option_bind]. by rewrite (proj2 (Z.eqb_neq _ _) Hd).
  - destruct Hsp as (_&Hlt&Hw&_). destruct (Hw s) as (c&->&Hcw); [lia|]. cbn [mbind option_bind first_sym]. do 2 f_equal.
    apply andb_false_iff. right. apply bool_decide_eq_false. intros Hc. apply Hsym in Hc. rewrite /word_char in Hcw.
    apply andb_true_iff in Hcw as [_ Hcw]. apply negb_true_iff, bool_decide_eq_false in Hcw. done.
Qed.

(** [peek] and [gettoken] at the end of the line. *)
Lemma peek_end toks : peek b es toks es = Some (false, es).
Proof.
  rewrite /peek skip_stop; [split; [done|lia]|]. cbn [mbind option_bind]. destruct (Hb es) as (c&->&Hc); [done|]. simpl.
  destruct (Z.eqb_spec c 0); [done|tauto].
Qed.

Lemma gettoken_end : ∃ w, gettoken b es es = Some ((0, w), es).
Proof.
  rewrite /gettoken skip_stop; [split; [done|lia]|]. cbn [mbind option_bind]. destruct (Hb es) as (c&->&Hc); [done|]. simpl.
  assert (c = 0) as -> by tauto. rewrite /scan /= skip_stop; [split; [done|lia]|]. by eexists.
Qed.

(** ** Parsing *)

(** The line goes on with none of the symbols in [S]. *)
Definition not_sym (s : nat) (S : list Z) : Prop :=
  s = es ∨ ∃ t s1, token_at s t s1 ∧ match first_sym t with Some c => c ∉ S | None => True end.

(** The line ends here or goes on with a symbol of [F]. *)
Definition next (s : nat) (F : list Z) : Prop := s = es ∨ ∃ c s1, token_at s (TSym c) s1 ∧ c ∈ F.

Lemma next_not_sym s F S : next s F → (∀ c, c ∈ F → c ≠ 43 ∧ c ∉ S) → not_sym s S.
Proof.
  intros [->|(c&s1&Ht&Hc)] HF; [by left|]. right. exists (TSym c), s1. split; [done|]. simpl. destruct (HF c Hc) as [H43 ?].
  by rewrite (proj2 (Z.eqb_neq _ _) H43).
Qed.

Lemma next_weaken s F F' : next s F → (∀ c, c ∈ F → c ∈ F') → next s F'.
Proof. intros [->|(c&s1&Ht&Hc)] HF; [by left|]. right. exists c, s1. split; [done|by apply HF]. Qed.

Lemma peek_not toks s : stop s → not_sym s toks → (∀ c, c ∈ toks → c ∈ symbols) → peek b es toks s = Some (false, s).
Proof.
  intros Hs [->|(t&s1&Ht&Hc)] Hsym; [apply peek_end|]. rewrite (peek_at toks s t s1 Hs Ht Hsym).
  destruct (first_sym t); [|done]. by rewrite /in_set bool_decide_eq_false_2.
Qed.

Lemma peek_sym toks s c s1 : stop s → token_at s (TSym c) s1 → (∀ c, c ∈ toks → c ∈ symbols) → (if c =? 43 then 62 else c) ∈ toks →
  peek b es toks s = Some (true, s).
Proof. intros Hs Ht Hsym Hc. rewrite (peek_at toks s _ s1 Hs Ht Hsym) /= /in_set bool_decide_eq_true_2 //. Qed.

(** Runs of the two readers inside a parser. *)
Lemma run_peek {A} toks p (f : bool → P A) s : peek b es toks s = Some (p, s) → (preads (peek b es toks) ≫= f) s = f p s.
Proof. rewrite /mbind /P_bind /preads. by intros ->. Qed.

Lemma run_bind {A B} (m : P A) (f : A → P B) s x s1 : m s = PRet x s1 → (m ≫= f) s = f x s1.
Proof. rewrite /mbind /P_bind. by intros ->. Qed.

Lemma run_assoc {A B C} (m : P A) (f : A → P B) (g : B → P C) s : ((m ≫= f) ≫= g) s = (m ≫= λ x, f x ≫= g) s.
Proof. rewrite /mbind /P_bind. by destruct (m s). Qed.

Lemma run_token s t s' : stop s → token_at s t s' →
  ∃ e, preads (gettoken b es) s = PRet (code t, (s, e)) s' ∧ ∀ w, t = TWord w → w = (s, e).
Proof. intros Hs Ht. destruct (gettoken_at s t s' Hs Ht) as (e&E&Hw). exists e. split; [|done]. by rewrite /preads E. Qed.

Lemma token_stop s t s' : token_at s t s' → stop s'.
Proof. by intros (e&_&_&_&?). Qed.

Ltac symset := vm_compute; set_solver.

Lemma parseredirs_ok rs : ∀ s s' fuel, stop s → tokens s (redir_toks rs) s' → redirs_ok rs → not_sym s' [60; 62] →
  (length (redir_toks rs) < fuel)%nat → parseredirs b es fuel s = PRet (redir_of <$> rs) s'.
Proof.
  induction rs as [|[c w] rs IH]; intros s s' [|fuel] Hs Ht Hok Hn Hf; simpl in Hf; try lia; cbn [parseredirs].
  - simpl in Ht. subst s'. rewrite (run_peek (str "<>") false) //. by apply (peek_not (str "<>")); [|done|symset].
  - destruct Ht as (s1&Hc&s2&Hw&Ht). inversion Hok as [|?? Hsym Hok']; subst. simpl in Hsym.
    rewrite (run_peek (str "<>") true); [apply (peek_sym _ _ c s1); [done|done|symset|]; destruct Hsym as [->|[->| ->]]; symset|].
    destruct (run_token s _ _ Hs Hc) as (e&Ee&_). rewrite (run_bind _ _ _ _ _ Ee).
    destruct (run_token s1 _ _ (token_stop _ _ _ Hc) Hw) as (e'&Ee'&Ew). rewrite (run_bind _ _ _ _ _ Ee').
    assert (Er : parseredirs b es fuel s2 = PRet (redir_of <$> rs) s') by (apply IH; [by eapply token_stop|done|done|done|unfold redir_toks, fmap in *; lia]).
    cbn [fst snd]. change (code (TWord w)) with 97. change (negb (97 =? 97)) with false. cbv iota. rewrite (run_bind _ _ _ _ _ Er) -(Ew w eq_refl).
    rewrite fmap_cons {2}/redir_of /=. by destruct (c =? 60).
Qed.

Lemma exec_args_ok args : ∀ s s' fuel argv rs, stop s → tokens s (arg_toks args) s' → Forall (λ a, redirs_ok a.2) args →
  (length argv + length args < MAXARGS)%nat → next s' [41; 38; 59; 124] → (length (arg_toks args) < fuel)%nat →
  exec_args b es fuel argv rs s = PRet (wrap (Exec (argv ++ args.*1)) (rs ++ (redir_of <$> concat args.*2))) s'.
Proof.
  induction args as [|[w rs1] args IH]; intros s s' [|fuel] argv rs Hs Ht Hok Hn Hnext Hf; simpl in Hf; try lia; cbn [exec_args].
  - simpl in Ht. subst s'. rewrite !app_nil_r. destruct Hnext as [->|(c&s1&Hc&Hin)].
    + rewrite (run_peek (str "|)&;") false); [apply peek_end|]. destruct gettoken_end as [w E].
      rewrite /mbind /P_bind /preads E //.
    + rewrite (run_peek (str "|)&;") true) //. apply (peek_sym _ _ c s1); [done|done|symset|].
      destruct (Z.eqb_spec c 43); [symset|]. vm_compute in Hin |- *. set_solver.
  - rewrite /arg_toks fmap_cons concat_cons in Ht. destruct Ht as (s1&Hw&Ht). apply tokens_app in Ht as (s2&Hr&Ht). cbn [fst snd] in *.
    inversion Hok as [|?? Hok1 Hok2]; subst. cbn [snd] in Hok1. rewrite length_app in Hf. simpl in Hn.
    pose proof (token_stop _ _ _ Hw) as Hs1. pose proof (tokens_stop _ _ _ Hs1 Hr) as [Hs2 _].
    rewrite (run_peek (str "|)&;") false).
    { apply peek_not; [done|right; by exists (TWord w), s1|symset]. }
    destruct (run_token s _ _ Hs Hw) as (e&Ee&Ew). rewrite (run_bind _ _ _ _ _ Ee).
    rewrite -(Ew w eq_refl) /=. rewrite bool_decide_eq_false_2; [rewrite length_app /=; lia|].
    rewrite (run_bind _ _ _ (redir_of <$> rs1) s2); [apply parseredirs_ok; [done|done|done| |]|].
    + destruct args as [|[w2 rs2] args]; simpl in Ht.
      * subst s2. eapply next_not_sym; [done|]. symset.
      * destruct Ht as (s3&Hw2&_). right. by exists (TWord w2), s3.
    + unfold redir_toks, fmap in *; lia.
    + rewrite (IH s2 s' fuel) //; [rewrite length_app /=; lia|unfold arg_toks, fmap in *; lia|].
      rewrite -!app_assoc /= fmap_app //.
Qed.

Lemma backs_ok n : ∀ s s' fuel c, stop s → tokens s (replicate n (TSym 38)) s' → not_sym s' [38] → (n < fuel)%nat →
  backs b es fuel c s = PRet (Nat.iter n Back c) s'.
Proof.
  induction n as [|n IH]; intros s s' [|fuel] c Hs Ht Hn Hf; try lia; cbn [backs].
  - simpl in Ht. subst s'. rewrite (run_peek (str "&") false) //. by apply (peek_not (str "&")); [|done|symset].
  - destruct Ht as (s1&Hc&Ht). rewrite (run_peek (str "&") true); [apply (peek_sym _ _ 38 s1); [done|done|symset|symset]|].
    destruct (run_token s _ _ Hs Hc) as (e&Ee&_). rewrite (run_bind _ _ _ _ _ Ee).
    rewrite (IH s1 s' fuel) //; [by eapply token_stop|lia|]. by rewrite Nat.iter_succ_r.
Qed.

Lemma sym_next s c s1 F : token_at s (TSym c) s1 → c ∈ F → next s F.
Proof. intros. right. by exists c, s1. Qed.

Lemma word_not_sym s w s1 S : token_at s (TWord w) s1 → not_sym s S.
Proof. intros. right. by exists (TWord w), s1. Qed.

Definition line_ok (l : gline) : Prop := ∀ s s' fuel, stop s → tokens s (line_toks l) s' → line_fits l → next s' [41] →
  (4 * length (line_toks l) + 5 ≤ fuel)%nat → parseline b es fuel s = PRet (line_cmd l) s'.
Definition pipe_ok (p : gpipe) : Prop := ∀ s s' fuel, stop s → tokens s (pipe_toks p) s' → pipe_fits p → next s' [41; 38; 59] →
  (4 * length (pipe_toks p) + 4 ≤ fuel)%nat → parsepipe b es fuel s = PRet (pipe_cmd p) s'.
Definition exec_ok (e : gexec) : Prop := ∀ s s' fuel, stop s → tokens s (exec_toks e) s' → exec_fits e → next s' [41; 38; 59; 124] →
  (4 * length (exec_toks e) + 3 ≤ fuel)%nat → parseexec b es fuel s = PRet (exec_cmd e) s'.

(** The part of a line up to its first [;]. *)
Lemma line_head p n s s1 s2 fuel : pipe_ok p → stop s → tokens s (pipe_toks p) s1 → tokens s1 (replicate n (TSym 38)) s2 →
  pipe_fits p → next s2 [41; 59] → (4 * (length (pipe_toks p) + n) + 4 ≤ fuel)%nat →
  (c ← parsepipe b es fuel; backs b es fuel c) s = PRet (Nat.iter n Back (pipe_cmd p)) s2.
Proof.
  intros Hp Hs H1 H2 Hfit Hn Hf. rewrite (run_bind _ _ _ (pipe_cmd p) s1).
  - apply Hp; [done|done|done| |lia]. destruct n as [|n]; simpl in H2.
    + subst s2. eapply next_weaken; [done|set_solver].
    + destruct H2 as (s3&H3&_). eapply sym_next; [done|set_solver].
  - apply backs_ok; [by eapply tokens_stop|done| |lia]. eapply next_not_sym; [done|]. set_solver by lia.
Qed.

Lemma line_case_ok p n : pipe_ok p → line_ok (GLine p n).
Proof.
  intros Hp s s' [|fuel] Hs Ht Hfit Hnext Hf; [lia|]. cbn [line_toks] in *. apply tokens_app in Ht as (s1&H1&H2).
  rewrite length_app length_replicate in Hf.
  pose proof (line_head p n s s1 s' fuel Hp Hs H1 H2 Hfit (next_weaken _ _ [41; 59] Hnext ltac:(set_solver)) ltac:(lia)) as E.
  assert (stop s') by (eapply tokens_stop; [|done]; by eapply tokens_stop).
  cbn [parseline]. rewrite -(run_assoc (parsepipe b es fuel)) (run_bind _ _ _ _ _ E) (run_peek (str ";") false) //.
  apply peek_not; [done| |symset]. eapply next_not_sym; [done|]. symset.
Qed.

Lemma seq_case_ok p n l : pipe_ok p → line_ok l → line_ok (GSeq p n l).
Proof.
  intros Hp Hl s s' [|fuel] Hs Ht [Hfit1 Hfit2] Hnext Hf; [lia|]. cbn [line_toks] in *.
  apply tokens_app in Ht as (s1&H1&(s2&H2&(s3&H3&H4))%tokens_app). rewrite !length_app length_replicate /= in Hf.
  pose proof (line_head p n s s1 s2 fuel Hp Hs H1 H2 Hfit1 (sym_next _ _ _ [41; 59] H3 ltac:(set_solver)) ltac:(lia)) as E.
  assert (stop s2) by (eapply tokens_stop; [|done]; by eapply tokens_stop).
  cbn [parseline]. rewrite -(run_assoc (parsepipe b es fuel)) (run_bind _ _ _ _ _ E) (run_peek (str ";") true); [apply (peek_sym _ _ 59 s3); [done|done|symset|symset]|].
  destruct (run_token s2 _ _ ltac:(done) H3) as (e&Ee&_). rewrite (run_bind _ _ _ _ _ Ee) (run_bind _ _ _ (line_cmd l) s') //.
  apply Hl; [by eapply token_stop|done|done|done|lia].
Qed.

Lemma one_case_ok e : exec_ok e → pipe_ok (GOne e).
Proof.
  intros He s s' [|fuel] Hs Ht Hfit Hnext Hf; [lia|]. cbn [pipe_toks parsepipe] in *.
  rewrite (run_bind _ _ _ (exec_cmd e) s'); [apply He; [done|done|done|eapply next_weaken; [done|set_solver]|lia]|].
  rewrite (run_peek (str "|") false) //. apply peek_not; [by eapply tokens_stop| |symset]. eapply next_not_sym; [done|]. symset.
Qed.

Lemma pipe_case_ok e p : exec_ok e → pipe_ok p → pipe_ok (GPipe e p).
Proof.
  intros He Hp s s' [|fuel] Hs Ht [Hfit1 Hfit2] Hnext Hf; [lia|]. cbn [pipe_toks parsepipe] in *.
  apply tokens_app in Ht as (s1&H1&(s2&H2&H3)). rewrite length_app /= in Hf. assert (stop s1) by by eapply tokens_stop.
  rewrite (run_bind _ _ _ (exec_cmd e) s1); [apply He; [done|done|done|eapply sym_next; [done|set_solver]|lia]|].
  rewrite (run_peek (str "|") true); [apply (peek_sym _ _ 124 s2); [done|done|symset|symset]|].
  destruct (run_token s1 _ _ ltac:(done) H2) as (x&Ex&_). rewrite (run_bind _ _ _ _ _ Ex) (run_bind _ _ _ (pipe_cmd p) s') //.
  apply Hp; [by eapply token_stop|done|done|done|lia].
Qed.

(** What follows the leading redirections of a simple command. *)
Lemma args_not_sym args s s' S F : tokens s (arg_toks args) s' → next s' F → (∀ c, c ∈ F → c ≠ 43 ∧ c ∉ S) → not_sym s S.
Proof.
  destruct args as [|[w rs] args]; simpl; [intros -> ??; by eapply next_not_sym|].
  intros (s1&H1&_) _ _. by eapply word_not_sym.
Qed.

Lemma simple_case_ok rs args : exec_ok (GSimple rs args).
Proof.
  intros s s' [|fuel] Hs Ht (Hr&Ha&Hn) Hnext Hf; [lia|]. cbn [exec_toks parseexec exec_cmd] in *.
  apply tokens_app in Ht as (s1&H1&H2). rewrite length_app in Hf.
  rewrite (run_peek (str "(") false).
  { apply peek_not; [done| |symset]. destruct rs as [|[c w] rs]; simpl in H1.
    - subst s1. eapply args_not_sym; [done|done|]. symset.
    - destruct H1 as (s2&H1&_). inversion Hr as [|?? Hc]; subst. simpl in Hc. right. exists (TSym c), s2. split; [done|].
      destruct Hc as [->|[->| ->]]; symset. }
  rewrite (run_bind _ _ _ (redir_of <$> rs) s1).
  - apply parseredirs_ok; [done|done|done| |lia]. eapply args_not_sym; [done|done|]. set_solver by lia.
  - rewrite (exec_args_ok args s1 s') //; [by eapply tokens_stop|lia|]. by rewrite fmap_app.
Qed.

Lemma block_case_ok l rs : line_ok l → exec_ok (GBlock l rs).
Proof.
  intros Hl s s' [|[|fuel]] Hs Ht (Hfit&Hr) Hnext Hf; [lia|lia|]. cbn [exec_toks exec_cmd] in *.
  destruct Ht as (s1&H1&(s2&H2&(s3&H3&H4))%tokens_app). rewrite /= length_app /= in Hf.
  assert (stop s2) by (eapply tokens_stop; [|done]; by eapply token_stop).
  cbn [parseexec parseblock]. rewrite !(run_peek (str "(") true) /=; try (apply (peek_sym _ _ 40 s1); [done|done|symset|symset]).
  destruct (run_token s _ _ Hs H1) as (x&Ex&_). rewrite (run_bind _ _ _ _ _ Ex) (run_bind _ _ _ (line_cmd l) s2).
  { apply Hl; [by eapply token_stop|done|done|eapply sym_next; [done|set_solver]|lia]. }
  rewrite (run_peek (str ")") true) /=; [apply (peek_sym _ _ 41 s3); [done|done|symset|symset]|].
  destruct (run_token s2 _ _ ltac:(done) H3) as (y&Ey&_). rewrite (run_bind _ _ _ _ _ Ey) (run_bind _ _ _ (redir_of <$> rs) s') //.
  apply parseredirs_ok; [by eapply token_stop|done|done| |lia]. eapply next_not_sym; [done|]. set_solver by lia.
Qed.

Lemma grammar_ok : (∀ l, line_ok l) ∧ (∀ p, pipe_ok p) ∧ (∀ e, exec_ok e).
Proof.
  apply grammar_ind; eauto using line_case_ok, seq_case_ok, one_case_ok, pipe_case_ok, simple_case_ok, block_case_ok.
Qed.

(** Leading blanks. *)
Lemma peek_blanks toks s s0 : skip_while b es blank s = Some s0 → stop s0 → peek b es toks s = peek b es toks s0.
Proof. intros E Hs. by rewrite /peek E skip_stop. Qed.

Lemma run_cong {A B} (m : P A) (f : A → P B) s s0 : m s = m s0 → (m ≫= f) s = (m ≫= f) s0.
Proof. rewrite /mbind /P_bind. by intros ->. Qed.

Lemma parseline_blanks fuel s s0 : skip_while b es blank s = Some s0 → stop s0 → (3 ≤ fuel)%nat →
  parseline b es fuel s = parseline b es fuel s0.
Proof.
  intros E Hs Hf. destruct fuel as [|[|[|fuel]]]; try lia. cbn [parseline]. apply run_cong. cbn [parsepipe]. apply run_cong.
  cbn [parseexec]. apply run_cong. by rewrite /preads (peek_blanks _ s s0).
Qed.

(** ** The words of a command *)

Lemma tokens_word s ts s' q e : tokens s ts s' → TWord (q, e) ∈ ts → spells (TWord (q, e)) q e.
Proof using Type.
  clear Hb. revert s. induction ts as [|t ts IH]; intros s; [set_solver|]. intros (s1&(e1&Hsp&_)&Ht) [<-|Hin]%elem_of_cons; [|by eapply IH].
  simpl in Hsp. destruct Hsp as ([= <- <-]&H1). by split.
Qed.

Lemma tokens_length s ts s' : tokens s ts s' → (s + length ts ≤ s')%nat.
Proof using Type.
  clear Hb. revert s. induction ts as [|t ts IH]; intros s; simpl; [lia|]. intros (s1&(e1&Hsp&He&_)&Ht). apply IH in Ht.
  assert (s < e1)%nat; [|lia]. destruct t as [c|w]; simpl in Hsp; [naive_solver lia|]. destruct Hsp as (_&?&_). lia.
Qed.
End Grammar.

(** The ends of the words of a phrase's command are those of its tokens. *)
Definition word_ends (ts : list tok) : list nat := omap (λ t, match t with TWord w => Some w.2 | TSym _ => None end) ts.

Lemma word_ends_app ts ts' : word_ends (ts ++ ts') = word_ends ts ++ word_ends ts'.
Proof. apply omap_app. Qed.

Lemma word_ends_in ts q e : TWord (q, e) ∈ ts → e ∈ word_ends ts.
Proof. intros H. apply list_elem_of_omap. by exists (TWord (q, e)). Qed.

Lemma in_word_ends ts e : e ∈ word_ends ts → ∃ q, TWord (q, e) ∈ ts.
Proof. intros ([c|[q e']]&Hin&[= ->])%list_elem_of_omap. by exists q. Qed.

Lemma ends_wrap c rs : ends (wrap c rs) = ends c ++ ((λ r : redir, r.1.1.2) <$> rs).
Proof.
  revert c. induction rs as [|r rs IH]; intros c; [by rewrite app_nil_r|]. rewrite /= IH /= -app_assoc //.
Qed.

Lemma ends_redirs rs : (λ r : redir, r.1.1.2) <$> (redir_of <$> rs) = word_ends (redir_toks rs).
Proof. induction rs as [|[c w] rs IH]; [done|]. rewrite !fmap_cons IH /= /redir_of /=. by destruct (c =? 60). Qed.

Lemma ends_backs n c : ends (Nat.iter n Back c) = ends c.
Proof. by induction n. Qed.

Lemma word_ends_amps n : word_ends (replicate n (TSym 38)) = [].
Proof. by induction n. Qed.

(** A simple command's redirections come after its arguments. *)
Lemma ends_args args e : e ∈ args.*1.*2 ++ word_ends (redir_toks (concat args.*2)) ↔ e ∈ word_ends (arg_toks args).
Proof.
  induction args as [|[w rs] args IH]; [done|]. rewrite /arg_toks fmap_cons concat_cons -/(arg_toks args) /= word_ends_app.
  rewrite /redir_toks fmap_app concat_app word_ends_app -/(redir_toks rs) -/(redir_toks (concat args.*2)).
  rewrite !elem_of_cons !elem_of_app -IH elem_of_app. tauto.
Qed.

Lemma ends_phrase :
  (∀ l e, e ∈ ends (line_cmd l) ↔ e ∈ word_ends (line_toks l)) ∧
  (∀ p e, e ∈ ends (pipe_cmd p) ↔ e ∈ word_ends (pipe_toks p)) ∧
  (∀ x e, e ∈ ends (exec_cmd x) ↔ e ∈ word_ends (exec_toks x)).
Proof.
  apply grammar_ind; cbn [line_cmd pipe_cmd exec_cmd line_toks pipe_toks exec_toks ends].
  - intros p IH n e. by rewrite ends_backs word_ends_app word_ends_amps app_nil_r.
  - intros p IH n l IHl e. rewrite ends_backs !word_ends_app word_ends_amps !elem_of_app IH IHl. simpl. set_solver.
  - done.
  - intros x IH p IHp e. rewrite word_ends_app !elem_of_app IH IHp. done.
  - intros rs args e. rewrite ends_wrap ends_redirs /redir_toks fmap_app concat_app !word_ends_app !elem_of_app -ends_args elem_of_app /=. tauto.
  - intros l IH rs e. rewrite ends_wrap ends_redirs elem_of_app IH /= word_ends_app elem_of_app. done.
Qed.

(** A word cut off by [nulterminate]. *)
Lemma zeroes_word t rest s ts s' es q e :
  0 ∉ t → tokens (t ++ 0 :: rest) (length t) s ts s' → (∀ x, x ∈ es ↔ x ∈ word_ends ts) → TWord (q, e) ∈ ts →
  cstring (drop q (zeroes (t ++ 0 :: rest) es)) = take (e - q) (drop q t).
Proof.
  intros H0 Ht Hes Hin. pose proof (tokens_word _ _ _ _ _ _ _ Ht Hin) as (_&Hlt&Hw&_).
  set (m := zeroes _ es). assert (length m = S (length t + length rest)) as Hl by (rewrite zeroes_length length_app /=; lia).
  assert (∀ i, (q ≤ i < e)%nat → m !! i = t !! i) as Hm.
  { intros i Hi. rewrite zeroes_other; [|rewrite lookup_app_l //; lia]. intros Hx. apply Hes, in_word_ends in Hx as [q' Hq'].
    destruct (tokens_word _ _ _ _ _ _ _ Ht Hq') as (_&Hlt'&_&Hend'). destruct (Hw i Hi) as (c&Hc&Hcw).
    rewrite (Hend' c) // in Hcw. lia. }
  assert (m !! e = Some 0) as He by (apply zeroes_at; [by eapply Hes, word_ends_in|rewrite length_app /=; lia]).
  assert (drop q m = take (e - q) (drop q t) ++ drop e m) as ->.
  { rewrite -(take_drop (e - q) (drop q m)) drop_drop (_ : (q + (e - q) = e)%nat); [lia|]. f_equal.
    apply list_eq. intros i. rewrite !lookup_take. case_decide; [|done].
    rewrite !lookup_drop. apply Hm. lia. }
  rewrite /cstring cprefix_app //.
  - intros Hx. apply H0. apply elem_of_take in Hx as (i&Hx&_). rewrite lookup_drop in Hx. by eapply list_elem_of_lookup_2.
  - rewrite length_app. lia.
  - right. right. rewrite lookup_drop Nat.add_0_r //.
Qed.

(** The parser of sh implements its grammar: a line that consists of the
    tokens of a phrase, with any blanks around them, is parsed into the command
    the phrase stands for (pipelines and lists nested to the right, background
    marks and redirections around the command they follow), and in the resulting
    buffer every word is a C string with the text of its token. *)
Theorem sh_parses t rest l s0 fuel :
  0 ∉ t → all_in (t ++ 0 :: rest) (in_set whitespace) 0 s0 → stop (t ++ 0 :: rest) (length t) s0 →
  tokens (t ++ 0 :: rest) (length t) s0 (line_toks l) (length t) → line_fits l → (4 * length t + 5 ≤ fuel)%nat →
  ∃ m, parsecmd fuel (t ++ 0 :: rest) = PRet (m, line_cmd l) (length t) ∧
    ∀ q e, TWord (q, e) ∈ line_toks l → cstring (drop q m) = take (e - q) (drop q t).
Proof.
  intros H0 Hbl Hs Ht Hfit Hf. pose proof (λ i, line_at t rest i H0) as Hb. set (b := t ++ 0 :: rest) in *.
  exists (zeroes b (ends (line_cmd l))). split; [|intros q e Hin; eapply zeroes_word; [done|done|apply ends_phrase|done]].
  rewrite /parsecmd /b strlen_text // Nat2Z.id -/b.
  rewrite (parseline_blanks b (length t) Hb fuel 0 s0) //; [apply skip_unique; [done|destruct Hs; lia|done|apply Hs]|lia|].
  assert (line_ok b (length t) l) as Hl by by apply grammar_ok.
  rewrite (Hl s0 (length t)) //; [by left|apply tokens_length in Ht; lia|].
  rewrite peek_end // bool_decide_eq_true_2 // nulterminate_ok //.
  apply Forall_forall. intros e [q Hq]%ends_phrase%in_word_ends. destruct (tokens_word _ _ _ _ _ _ _ Ht Hq) as (_&?&_).
  rewrite length_app /=. lia.
Qed.

Ltac at_stop := split; [vm_compute; lia|]; intros c _ Hc; vm_compute in Hc; injection Hc as <-; reflexivity.
Ltac chars := intros k Hk; do 16 (try (destruct k as [|k]; [first [exfalso; lia|eexists; split; reflexivity]|])); exfalso; lia.
Ltac token s1 e := exists s1; split; [exists e; split; [|split; [lia|split; [chars|at_stop]]]|].
Ltac word_token := split; [reflexivity|]; split; [vm_compute; lia|]; split; [chars|];
  intros c _ Hc; vm_compute in Hc; injection Hc as <-; reflexivity.
Ltac symbol_token := left; split; [vm_compute; set_solver|split; reflexivity].
Ltac redir_token := right; left; split_and!; [reflexivity..|by vm_compute|reflexivity].

Definition demo_text := str " ls | wc > f &".
Definition demo_line : gline :=
  GLine (GPipe (GSimple [] [((1, 3)%nat, [])]) (GOne (GSimple [] [((6, 8)%nat, [(62, (11, 12)%nat)])]))) 1.

Lemma sh_parses_witness :
  line_cmd demo_line = Back (Pipe (Exec [(1, 3)%nat]) (Redir (Exec [(6, 8)%nat]) (11, 12)%nat 513 1)) ∧
  ∃ m, parsecmd 61 (demo_text ++ 0 :: [7; 7]) = PRet (m, line_cmd demo_line) (length demo_text) ∧
    ∀ q e, TWord (q, e) ∈ line_toks demo_line → cstring (drop q m) = take (e - q) (drop q demo_text).
Proof.
  split; [reflexivity|]. apply (sh_parses demo_text [7; 7] demo_line 1 61).
  - vm_compute. set_solver.
  - chars.
  - at_stop.
  - change (line_toks demo_line) with
      [TWord (1, 3)%nat; TSym 124; TWord (6, 8)%nat; TSym 62; TWord (11, 12)%nat; TSym 38].
    token 4%nat 3%nat; [word_token|]. token 6%nat 5%nat; [symbol_token|]. token 9%nat 8%nat; [word_token|].
    token 11%nat 10%nat; [redir_token|]. token 13%nat 12%nat; [word_token|]. token 14%nat 14%nat; [symbol_token|]. reflexivity.
  - split; (split; [constructor|split; [|vm_compute; lia]]); (constructor; [|constructor]); [constructor|].
    constructor; [by right; left|constructor].
  - vm_compute. lia.
Defined.
