(* ===== verification/ShRun.v ===== *)
(** * The shell of xv6, running commands: [runcmd], [getcmd] and [main] of sh.c

    What a process does is the list of its actions, with the actions of the
    children it forks inside and the descriptors that are open when it waits; the file descriptors are followed from one system
    call to the next, as [fdalloc] of the kernel numbers them.  Which [open],
    [pipe], [fork] and [chdir] calls succeed are parameters; an [exec] is
    followed by what the process does if it fails. *)

From S2P Require Import Prelude CInt CString Stdio Ulib Params Sh ShGrammar.

(** What a file descriptor refers to; a pipe is named by the place of its
    command in the tree. *)
Inductive file :=
| FConsole
| FFile (name : list Z) (mode : Z)
| FRead (pipe : list nat)
| FWrite (pipe : list nat).

#[global] Instance file_eq_dec : EqDecision file.
Proof. solve_decision. Defined.

Definition fds := gmap nat file.

Set Warnings "-register-all".

Inductive act :=
| AFork (child : list act)
| AWait (fd : fds)
| AExec (path : list Z) (argv : list (list Z)) (fd : fds)
| ASay (to : option file) (msg : list Z)
| AChdir (dir : list Z)
| AExit.

(** The lowest free descriptor. *)
Definition lowest (t : fds) : option nat := (λ p, p.2) <$> list_find (λ i, t !! i = None) (seq 0 NOFILE).
Definition fd_open (t : fds) (f : file) : option (nat * fds) := i ← lowest t; Some (i, <[i := f]> t).
Definition fd_close (t : fds) (i : nat) : fds := delete i t.
Definition fd_dup (t : fds) (i : nat) : fds :=
  match t !! i with
  | Some f => match fd_open t f with Some (_, t) => t | None => t end
  | None => t
  end.

Section Run.
(** Does the [open] of a name with a mode succeed, the [pipe] and the n-th
    [fork] of a command, the [chdir]? *)
Context (opens : list Z → Z → bool) (pipes : list nat → bool) (forks : list nat → nat → bool) (chdirs : list Z → bool).

(** [printf(2, ...)] *)
Definition say (t : fds) (msg : list Z) : act := ASay (t !! 2%nat) msg.
(** [panic] *)
Definition spanic (t : fds) (msg : list Z) : list act := [say t (msg ++ [nl]); AExit].

Definition word_at (m : mem) (w : word) : list Z := cstring (drop w.1 m).

Fixpoint runcmd (m : mem) (c : cmd) (t : fds) (id : list nat) : list act :=
  match c with
  | Exec [] => [AExit]
  | Exec (w :: ws) =>
      [AExec (word_at m w) (word_at m <$> w :: ws) t; say t (str "exec " ++ word_at m w ++ str " failed" ++ [nl]); AExit]
  | Redir c f mode fd =>
      let t := fd_close t fd in
      let name := word_at m f in
      match (if opens name mode then fd_open t (FFile name mode) else None) with
      | None => [say t (str "open " ++ name ++ str " failed" ++ [nl]); AExit]
      | Some (_, t) => runcmd m c t id
      end
  | List_ l r =>
      if forks id 0 then AFork (runcmd m l t (id ++ [0%nat])) :: AWait t :: runcmd m r t (id ++ [1%nat])
      else spanic t (str "fork")
  | Pipe l r =>
      match (if pipes id then p0 ← fd_open t (FRead id); p1 ← fd_open p0.2 (FWrite id); Some (p0.1, p1.1, p1.2) else None) with
      | None => spanic t (str "pipe")
      | Some (p0, p1, t) =>
          if negb (forks id 0) then spanic t (str "fork") else
          AFork (let t := fd_close t 1 in let t := fd_dup t p1 in let t := fd_close t p0 in let t := fd_close t p1 in
                 runcmd m l t (id ++ [0%nat])) ::
          if negb (forks id 1) then spanic t (str "fork") else
          AFork (let t := fd_close t 0 in let t := fd_dup t p0 in let t := fd_close t p0 in let t := fd_close t p1 in
                 runcmd m r t (id ++ [1%nat])) ::
          let t := fd_close t p0 in let t := fd_close t p1 in
          [AWait t; AWait t; AExit]
      end
  | Back c => if forks id 0 then [AFork (runcmd m c t (id ++ [0%nat])); AExit] else spanic t (str "fork")
  end.

(** The buffer after [memset] and [gets], and the rest of the input. *)
Definition getcmd (fd : input) (buf : mem) : option (bool * mem * input) :=
  buf ← memset buf 0 0 (length buf);
  r ← gets fd buf 0 (length buf);
  let '(buf, fd) := r in
  c ← buf !! 0%nat;
  Some (negb (c =? 0), buf, fd).

(** [while((fd = open("console", O_RDWR)) >= 0)] *)
Fixpoint open_console (n : nat) (t : fds) : fds :=
  match n with
  | O => t
  | S n =>
      if negb (opens (str "console") O_RDWR) then t else
      match fd_open t FConsole with
      | None => t
      | Some (fd, t) => if bool_decide (3 ≤ fd)%nat then fd_close t fd else open_console n t
      end
  end.

(** The child that parses and runs a line. *)
Definition run_line (fuel : nat) (buf : mem) (t : fds) (id : list nat) : option (list act) :=
  match parsecmd fuel buf with
  | PRet (m, c) _ => Some (runcmd m c t id)
  | PPanic out => Some [say t out; AExit]
  | PUndef | PFuel => None
  end.

(** The loop of [main] for at most [n] commands; [id] counts them. *)
Fixpoint main_loop (n fuel : nat) (fd : input) (buf : mem) (t : fds) (id : nat) : option (list act) :=
  match n with
  | O => None
  | S n =>
      r ← getcmd fd buf;
      let '(more, buf, fd) := r in
      if negb more then Some [say t (str "$ "); AExit] else
      if bool_decide (take 3 buf = str "cd ") then
        l ← strlen buf;
        buf ← (if 0 <? l then store buf (Z.to_nat (l - 1)) 0 else None);
        let dir := cstring (drop 3 buf) in
        rest ← main_loop n fuel fd buf t (S id);
        Some (say t (str "$ ") :: AChdir dir ::
          (if chdirs dir then [] else [say t (str "cannot cd " ++ dir ++ [nl])]) ++ rest)
      else if negb (forks [id] 2) then Some (say t (str "$ ") :: spanic t (str "fork"))
      else
        child ← run_line fuel buf t [id];
        rest ← main_loop n fuel fd buf t (S id);
        Some (say t (str "$ ") :: AFork child :: AWait t :: rest)
  end.

Definition main (n fuel : nat) (fd : input) (t : fds) : option (list act) :=
  main_loop n fuel fd (replicate 100 0) (open_console (S NOFILE) t) 0.
End Run.
