(* ===== verification/ShRunSpec.v ===== *)
(** * The shell connects its programs

    [plan] says which program runs with which standard input, output and error;
    [runcmd_plan] shows that the closing and duplicating of descriptors in
    [runcmd] amounts to it, with no other descriptor left open in the programs
    and in the processes that wait for them.  [sh_runs]
    follows a session from the text typed to the programs that run. *)

From S2P Require Import Prelude CInt CString Stdio Ulib Params Sh ShGrammar ShRun.

(** ** The plan of a command *)

(** Exactly the three standard descriptors. *)
Definition std (i o e : file) : fds := <[0%nat := i]> (<[1%nat := o]> {[2%nat := e]}).

Section Spec.
Context (opens : list Z → Z → bool) (pipes : list nat → bool) (forks : list nat → nat → bool) (chdirs : list Z → bool).

Definition fails (e : file) (msg : list Z) : list act := [ASay (Some e) (msg ++ [nl]); AExit].

Fixpoint plan (wd : word → list Z) (c : cmd) (i o e : file) (id : list nat) : list act :=
  match c with
  | Exec [] => [AExit]
  | Exec (w :: ws) =>
      AExec (wd w) (wd <$> w :: ws) (std i o e) :: fails e (str "exec " ++ wd w ++ str " failed")
  | Redir c f mode fd =>
      let name := wd f in
      if negb (opens name mode) then fails e (str "open " ++ name ++ str " failed") else
      if bool_decide (fd = 0%nat) then plan wd c (FFile name mode) o e id else plan wd c i (FFile name mode) e id
  | List_ l r =>
      if forks id 0 then AFork (plan wd l i o e (id ++ [0%nat])) :: AWait (std i o e) :: plan wd r i o e (id ++ [1%nat]) else fails e (str "fork")
  | Pipe l r =>
      if negb (pipes id) then fails e (str "pipe") else
      if negb (forks id 0) then fails e (str "fork") else
      AFork (plan wd l i (FWrite id) e (id ++ [0%nat])) ::
      if negb (forks id 1) then fails e (str "fork") else
      AFork (plan wd r (FRead id) o e (id ++ [1%nat])) :: [AWait (std i o e); AWait (std i o e); AExit]
  | Back c => if forks id 0 then [AFork (plan wd c i o e (id ++ [0%nat])); AExit] else fails e (str "fork")
  end.

(** Redirections of standard input and output only, as the parser makes them. *)
Fixpoint redir_std (c : cmd) : Prop :=
  match c with
  | Exec _ => True
  | Redir c _ _ fd => (fd = 0%nat ∨ fd = 1%nat) ∧ redir_std c
  | List_ l r | Pipe l r => redir_std l ∧ redir_std r
  | Back c => redir_std c
  end.

(** The descriptors around a pipe. *)
Lemma pipe_fds i o e id :
  (p0 ← fd_open (std i o e) (FRead id); p1 ← fd_open p0.2 (FWrite id); Some (p0.1, p1.1, p1.2)) =
    Some (3%nat, 4%nat, <[4%nat := FWrite id]> (<[3%nat := FRead id]> (std i o e))).
Proof. reflexivity. Qed.

Lemma pipe_left i o e id :
  fd_close (fd_close (fd_dup (fd_close (<[4%nat := FWrite id]> (<[3%nat := FRead id]> (std i o e))) 1) 4) 3) 4 = std i (FWrite id) e.
Proof. reflexivity. Qed.

Lemma pipe_right i o e id :
  fd_close (fd_close (fd_dup (fd_close (<[4%nat := FWrite id]> (<[3%nat := FRead id]> (std i o e))) 0) 3) 3) 4 = std (FRead id) o e.
Proof. reflexivity. Qed.

Lemma pipe_parent i o e id :
  fd_close (fd_close (<[4%nat := FWrite id]> (<[3%nat := FRead id]> (std i o e))) 3) 4 = std i o e.
Proof. reflexivity. Qed.

Lemma redir_in i o e f : fd_open (fd_close (std i o e) 0) f = Some (0%nat, std f o e).
Proof. reflexivity. Qed.

Lemma redir_out i o e f : fd_open (fd_close (std i o e) 1) f = Some (1%nat, std i f e).
Proof. reflexivity. Qed.

Lemma runcmd_plan m c : redir_std c → ∀ i o e id, runcmd opens pipes forks m c (std i o e) id = plan (word_at m) c i o e id.
Proof.
  induction c as [[|w ws]|c IH f mode fd|l IHl r IHr|l IHl r IHr|c IH]; intros Hr i o e id; cbn [runcmd plan].
  - done.
  - rewrite /say /fails -!app_assoc. done.
  - destruct Hr as [Hfd Hr]. destruct (opens (word_at m f) mode); cbn [negb].
    + destruct Hfd as [->| ->]; [rewrite redir_in|rewrite redir_out]; by rewrite IH.
    + rewrite /say /fails -!app_assoc. destruct Hfd as [->| ->]; done.
  - destruct Hr as [Hl Hr]. destruct (pipes id); cbn [negb]; [|done]. rewrite pipe_fds. cbv zeta.
    rewrite pipe_left pipe_right pipe_parent IHl // IHr //.
  - destruct Hr as [Hl Hr]. rewrite IHl // IHr //.
  - by rewrite IH.
Qed.

(** The words of a command. *)
Fixpoint cmd_words (c : cmd) : list word :=
  match c with
  | Exec argv => argv
  | Redir c f _ _ => cmd_words c ++ [f]
  | Pipe l r | List_ l r => cmd_words l ++ cmd_words r
  | Back c => cmd_words c
  end.

Lemma plan_ext wd wd' c : (∀ w, w ∈ cmd_words c → wd w = wd' w) → ∀ i o e id, plan wd c i o e id = plan wd' c i o e id.
Proof.
  induction c as [[|w ws]|c IH f mode fd|l IHl r IHr|l IHl r IHr|c IH]; intros Hw i o e id; cbn [plan cmd_words] in *.
  - done.
  - rewrite (Hw w); [set_solver|]. rewrite (_ : wd <$> w :: ws = wd' <$> w :: ws) //. apply list_fmap_ext. intros k x Hx.
    apply Hw. by eapply list_elem_of_lookup_2.
  - rewrite (Hw f); [set_solver|]. rewrite !IH //; set_solver.
  - rewrite IHl ?IHr //; set_solver.
  - rewrite IHl ?IHr //; set_solver.
  - by rewrite IH.
Qed.

Lemma wrap_words c rs w : w ∈ cmd_words (wrap c rs) → w ∈ cmd_words c ∨ w ∈ (λ r : redir, r.1.1) <$> rs.
Proof.
  revert c. induction rs as [|r rs IH]; intros c; simpl; [by left|]. intros [Hw|Hw]%IH; [|by right; right].
  simpl in Hw. apply elem_of_app in Hw as [?|Hw]; [by left|]. right. set_solver.
Qed.

Lemma redir_words rs w : w ∈ (λ r : redir, r.1.1) <$> (redir_of <$> rs) → TWord w ∈ redir_toks rs.
Proof.
  induction rs as [|[c w'] rs IH]; [set_solver|]. rewrite !fmap_cons elem_of_cons. rewrite /redir_toks fmap_cons /=.
  assert ((redir_of (c, w')).1.1 = w') as -> by (rewrite /redir_of /=; by destruct (c =? 60)). intros [->|Hin]; [set_solver|]. right. right. by apply IH.
Qed.

Lemma arg_words args w : w ∈ args.*1 ∨ TWord w ∈ redir_toks (concat args.*2) → TWord w ∈ arg_toks args.
Proof.
  induction args as [|[w' rs] args IH]; [set_solver|]. rewrite /arg_toks fmap_cons concat_cons -/(arg_toks args).
  rewrite !fmap_cons concat_cons /redir_toks fmap_app concat_app -/(redir_toks rs) -/(redir_toks (concat args.*2)). cbn [fst snd].
  rewrite elem_of_cons elem_of_app /= elem_of_cons elem_of_app. intros [[->|?]|[?|?]]; tauto.
Qed.

Lemma iter_back_words n c : cmd_words (Nat.iter n Back c) = cmd_words c.
Proof. by induction n. Qed.

Lemma phrase_words :
  (∀ l w, w ∈ cmd_words (line_cmd l) → TWord w ∈ line_toks l) ∧
  (∀ p w, w ∈ cmd_words (pipe_cmd p) → TWord w ∈ pipe_toks p) ∧
  (∀ x w, w ∈ cmd_words (exec_cmd x) → TWord w ∈ exec_toks x).
Proof.
  apply grammar_ind; cbn [line_cmd pipe_cmd exec_cmd line_toks pipe_toks exec_toks cmd_words].
  - intros p IH n w. rewrite iter_back_words elem_of_app. auto.
  - intros p IH n l IHl w. rewrite iter_back_words !elem_of_app elem_of_cons. naive_solver.
  - done.
  - intros x IH p IHp w. rewrite !elem_of_app elem_of_cons. naive_solver.
  - intros rs args w [Hw|Hw]%wrap_words; rewrite elem_of_app; [right; apply arg_words; by left|].
    apply redir_words in Hw. rewrite /redir_toks fmap_app concat_app elem_of_app in Hw. destruct Hw; [by left|]. right. apply arg_words. by right.
  - intros l IH rs w [Hw|Hw]%wrap_words; rewrite elem_of_cons elem_of_app elem_of_cons; [auto|]. apply redir_words in Hw. auto.
Qed.

Lemma wrap_std c rs : redir_std c → Forall (λ r : redir, r.2 = 0%nat ∨ r.2 = 1%nat) rs → redir_std (wrap c rs).
Proof. intros Hc Hrs. revert c Hc. induction Hrs as [|r rs Hr _ IH]; intros c Hc; [done|]. apply IH. by split. Qed.

Lemma redirs_std rs : Forall (λ r : redir, r.2 = 0%nat ∨ r.2 = 1%nat) (redir_of <$> rs).
Proof. apply Forall_fmap, Forall_true. intros [c w]. rewrite /redir_of /=. destruct (c =? 60); auto. Qed.

Lemma iter_back_std n c : redir_std (Nat.iter n Back c) ↔ redir_std c.
Proof. by induction n. Qed.

Lemma phrase_std : (∀ l, redir_std (line_cmd l)) ∧ (∀ p, redir_std (pipe_cmd p)) ∧ (∀ x, redir_std (exec_cmd x)).
Proof.
  apply grammar_ind; cbn [line_cmd pipe_cmd exec_cmd redir_std]; intros; rewrite ?iter_back_std; auto using wrap_std, redirs_std.
  by apply wrap_std; [|apply redirs_std].
Qed.

(** ** [getcmd] *)

Lemma read_one c l av : read 1 (Input (c :: l) av) = ([c], Input l (tail av)).
Proof. by destruct av. Qed.

Definition ends_line (c : Z) : bool := (c =? 10) || (c =? 13).

(** The loop of [gets] behind [pre] in a buffer with [j] more zeros. *)
Lemma gets_loop_run u c rest : ∀ k pre j av,
  Forall is_byte (u ++ [c]) → Forall (λ x, ends_line x = false) u → ends_line c = true → (length u < k)%nat → (length u < j)%nat →
  ∃ av', gets_loop k (Input (u ++ c :: rest) av) (pre ++ replicate j 0) 0 (length pre) =
    Some (pre ++ u ++ [c] ++ replicate (j - S (length u)) 0, length (pre ++ u ++ [c]), Input rest av').
Proof.
  induction u as [|x u IH]; intros [|k] pre [|j] av Hb Hu Hc Hk Hj; simpl in Hk, Hj; try lia; cbn [app gets_loop]; rewrite read_one.
  - inversion Hb; subst. rewrite store_Some; [rewrite length_app /=; lia|]. cbn [mbind option_bind].
    rewrite -/(ends_line c) Hc. eexists. rewrite u8_small // insert_app_r_alt // Nat.sub_diag /= Nat.sub_0_r length_app /=. by rewrite Nat.add_1_r.
  - inversion Hb; subst. inversion Hu as [|?? Hx Hu']; subst. rewrite store_Some; [rewrite length_app /=; lia|]. cbn [mbind option_bind].
    rewrite -/(ends_line x) Hx u8_small // insert_app_r_alt // Nat.sub_diag /=.
    destruct (IH k (pre ++ [x]) j (tail av)) as (av'&E); [done|done|done|lia|lia|]. exists av'.
    rewrite length_app /= Nat.add_1_r -!app_assoc /= in E. rewrite E //.
Qed.

(** The buffer that holds the line [t]. *)
Definition line_buf (t : list Z) : mem := (t ++ [10]) ++ 0 :: replicate (98 - length t) 0.

Definition line_text (t : list Z) : Prop := Forall is_byte t ∧ 0 ∉ t ∧ 10 ∉ t ∧ 13 ∉ t ∧ (length t ≤ 98)%nat.

Lemma memset_buf buf : length buf = 100%nat → memset buf 0 0 (length buf) = Some (replicate 100 0).
Proof.
  intros Hl. rewrite /memset stosb_spec //. rewrite /blit take_0 drop_ge ?length_replicate; [lia|]. by rewrite Hl app_nil_r.
Qed.

Lemma getcmd_line t rest av buf : line_text t → length buf = 100%nat →
  ∃ av', getcmd (Input ((t ++ [10]) ++ rest) av) buf = Some (true, line_buf t, Input rest av').
Proof.
  intros (Hb&H0&H10&H13&Hl) Hbuf. rewrite /getcmd memset_buf //. cbn [mbind option_bind]. rewrite length_replicate /gets.
  destruct (gets_loop_run t 10 rest 99 [] 100 av) as (av'&E).
  { apply Forall_app. split; [done|]. by repeat constructor. }
  { apply Forall_forall. intros x Hx. rewrite /ends_line. apply orb_false_iff. split; apply Z.eqb_neq; intros ->; done. }
  { done. } { lia. } { lia. }
  change (length (@nil Z)) with 0%nat in E. change (Z.to_nat (100%nat - 1)) with 99%nat. rewrite -app_assoc.
  change ([10] ++ rest) with (10 :: rest). rewrite !app_nil_l in E. rewrite E. cbn [mbind option_bind].
  rewrite length_app. change (length [10]) with 1%nat. rewrite store_Some; [rewrite !length_app length_replicate /=; lia|]. cbn [mbind option_bind].
  assert (<[(0 + (length t + 1))%nat := u8 0]> (t ++ [10] ++ replicate (100 - S (length t)) 0) = line_buf t) as ->.
  { rewrite insert_app_r_alt; [lia|]. replace (0 + (length t + 1) - length t)%nat with 1%nat by lia. rewrite /line_buf -app_assoc. f_equal.
    replace (100 - S (length t))%nat with (S (98 - length t)) by lia. done. }
  exists av'. clear E. destruct t as [|x t]; [reflexivity|]. apply not_elem_of_cons in H0 as [Hx _].
  change (line_buf (x :: t) !! 0%nat) with (Some x). cbn [mbind option_bind]. rewrite (proj2 (Z.eqb_neq x 0)); [congruence|reflexivity].
Qed.

Lemma getcmd_eof av buf : length buf = 100%nat → getcmd (Input [] av) buf = Some (false, replicate 100 0, Input [] (tail av)).
Proof.
  intros Hbuf. rewrite /getcmd memset_buf //. cbn [mbind option_bind]. rewrite length_replicate /gets.
  change (Z.to_nat (100%nat - 1)) with 99%nat. cbn [gets_loop]. by destruct av.
Qed.

(** ** Sessions *)

(** A line that changes the directory, or a phrase of the shell's grammar. *)
Inductive typed_line := LCd (dir : list Z) | LRun (t : list Z) (l : gline).
Definition line_of (x : typed_line) : list Z := match x with LCd dir => str "cd " ++ dir | LRun t _ => t end.

(** The text [t] consists of the tokens of [l], with blanks around them. *)
Definition spelled (t : list Z) (l : gline) : Prop :=
  ∃ s0, all_in (line_buf t) (in_set whitespace) 0 s0 ∧ stop (line_buf t) (S (length t)) s0 ∧
    tokens (line_buf t) (S (length t)) s0 (line_toks l) (S (length t)).

Definition typed_ok (x : typed_line) : Prop :=
  line_text (line_of x) ∧ match x with LCd _ => True | LRun t l => take 3 t ≠ str "cd " ∧ line_fits l ∧ spelled t l end.

(** The words of a line are pieces of its text. *)
Definition piece (t : list Z) (w : word) : list Z := take (w.2 - w.1) (drop w.1 (t ++ [10])).

Fixpoint session (ls : list typed_line) (id : nat) : list act :=
  let tty := ASay (Some FConsole) in
  tty (str "$ ") ::
  match ls with
  | [] => [AExit]
  | LCd dir :: ls =>
      AChdir dir :: (if chdirs dir then [] else [tty (str "cannot cd " ++ dir ++ [nl])]) ++ session ls (S id)
  | LRun t l :: ls =>
      if negb (forks [id] 2) then fails FConsole (str "fork") else
      AFork (plan (piece t) (line_cmd l) FConsole FConsole FConsole [id]) ::
      AWait (std FConsole FConsole FConsole) :: session ls (S id)
  end.

Lemma length_line_buf t : (length t ≤ 98)%nat → length (line_buf t) = 100%nat.
Proof. intros. rewrite /line_buf !length_app /= length_replicate. lia. Qed.

Lemma not_cd t : take 3 t ≠ str "cd " → take 3 (line_buf t) ≠ str "cd ".
Proof. intros Hne E. apply Hne. destruct t as [|a [|b [|c t]]]; simplify_eq/=; done. Qed.

(** The child that runs a phrase. *)
Lemma run_line_plan fuel t l id : line_text t → line_fits l → spelled t l → (401 ≤ fuel)%nat →
  run_line opens pipes forks fuel (line_buf t) (std FConsole FConsole FConsole) id =
    Some (plan (piece t) (line_cmd l) FConsole FConsole FConsole id).
Proof.
  intros (Hb&H0&H10&_&Hl) Hfit (s0&Hbl&Hs&Ht) Hf. rewrite /line_buf in Hbl, Hs, Ht.
  assert (length (t ++ [10]) = S (length t)) as Hlen by (rewrite length_app /=; lia). rewrite -Hlen in Hs Ht.
  destruct (sh_parses (t ++ [10]) (replicate (98 - length t) 0) l s0 fuel) as (m&E&Hw); [|done|done|done|done|rewrite Hlen; lia|].
  { rewrite elem_of_app. set_solver. }
  rewrite /run_line /line_buf E runcmd_plan; [apply phrase_std|]. f_equal. apply plan_ext. intros [q e] Hin.
  apply Hw. by apply phrase_words.
Qed.

(** The chopped line of a [cd]. *)
Lemma chop_cd dir : line_text (str "cd " ++ dir) →
  ∃ buf, strlen (line_buf (str "cd " ++ dir)) = Some (Z.of_nat (length dir) + 4) ∧
    store (line_buf (str "cd " ++ dir)) (Z.to_nat (Z.of_nat (length dir) + 4 - 1)) 0 = Some buf ∧
    cstring (drop 3 buf) = dir ∧ length buf = 100%nat.
Proof.
  intros (Hb&H0&_&_&Hl). set (t := str "cd " ++ dir) in *. assert (length t = length dir + 3)%nat as Hlt by (rewrite length_app /=; lia).
  pose proof (length_line_buf t Hl) as Hbl. eexists. split_and!.
  - rewrite /line_buf strlen_text; [rewrite elem_of_app; set_solver|]. f_equal. rewrite length_app /=. lia.
  - rewrite store_Some; [lia|]. done.
  - rewrite /line_buf -app_assoc insert_app_r_alt; [lia|]. replace (_ - length t)%nat with 0%nat by lia. simpl.
    rewrite /cstring cprefix_app //; [set_solver|rewrite length_app; lia|by right; right].
  - by rewrite length_insert.
Qed.

Lemma main_loop_session ls : ∀ n fuel av buf id,
  Forall typed_ok ls → (length ls < n)%nat → (401 ≤ fuel)%nat → length buf = 100%nat →
  main_loop opens pipes forks chdirs n fuel (Input (concat ((λ x, line_of x ++ [10]) <$> ls)) av) buf (std FConsole FConsole FConsole) id =
    Some (session ls id).
Proof.
  induction ls as [|x ls IH]; intros [|n] fuel av buf id Hok Hn Hf Hbuf; simpl in Hn; try lia; cbn [main_loop].
  - rewrite fmap_nil. cbn [concat]. rewrite getcmd_eof //.
  - inversion Hok as [|?? [Ht Hx] Hok']; subst. rewrite fmap_cons concat_cons.
    destruct (getcmd_line (line_of x) (concat ((λ x, line_of x ++ [10]) <$> ls)) av buf Ht Hbuf) as (av'&->). cbn [mbind option_bind negb].
    destruct x as [dir|t l]; cbn [line_of] in *.
    + rewrite bool_decide_eq_true_2 //. destruct (chop_cd dir Ht) as (buf'&->&E&Hd&Hl'). cbn [mbind option_bind].
      rewrite (proj2 (Z.ltb_lt 0 _)); [lia|]. rewrite E. cbn [mbind option_bind]. rewrite Hd IH //. lia.
    + destruct Hx as (Hcd&Hfit&Hsp). rewrite bool_decide_eq_false_2; [by apply not_cd|]. cbn [session].
      destruct (forks [id] 2); cbn [negb]; [|done].
      rewrite (run_line_plan fuel t l) //. cbn [mbind option_bind]. rewrite IH //; [lia|]. apply length_line_buf, Ht.
Qed.

Lemma open_console_std n : open_console opens (S n) (std FConsole FConsole FConsole) = std FConsole FConsole FConsole.
Proof. cbn [open_console]. by destruct (opens (str "console") O_RDWR). Qed.
End Spec.


Definition demo_session : list typed_line := [LCd (str "d"); LRun demo_text demo_line].

Lemma demo_spelled : spelled demo_text demo_line.
Proof.
  exists 1%nat. split_and!; [chars|at_stop|].
  change (line_toks demo_line) with [TWord (1, 3)%nat; TSym 124; TWord (6, 8)%nat; TSym 62; TWord (11, 12)%nat; TSym 38].
  token 4%nat 3%nat; [word_token|]. token 6%nat 5%nat; [symbol_token|]. token 9%nat 8%nat; [word_token|].
  token 11%nat 10%nat; [redir_token|]. token 13%nat 12%nat; [word_token|]. token 15%nat 14%nat; [symbol_token|]. reflexivity.
Qed.

Lemma demo_fits : line_fits demo_line.
Proof.
  split; (split; [constructor|split; [|vm_compute; lia]]); (constructor; [|constructor]); [constructor|].
  constructor; [by right; left|constructor].
Qed.

Lemma demo_typed : Forall typed_ok demo_session.
Proof.
  assert (∀ t, Forall is_byte t → bool_decide (0 ∉ t ∧ 10 ∉ t ∧ 13 ∉ t ∧ (length t ≤ 98)%nat) = true → line_text t) as Hl.
  { intros t Hb H%bool_decide_eq_true. by split. }
  apply Forall_cons. split; [split; [|done]|apply Forall_singleton; split; [|split; [by vm_compute|split; [apply demo_fits|apply demo_spelled]]]];
    (apply Hl; [|by vm_compute]); cbn [line_of]; [change (str "cd " ++ str "d") with [99; 100; 32; 100]|
      change demo_text with [32; 108; 115; 32; 124; 32; 119; 99; 32; 62; 32; 102; 32; 38]];
    repeat (apply Forall_cons; split; [rewrite /is_byte; lia|]); constructor.
Qed.

