(* ===== verification/Ioapic.v ===== *)
(** * The I/O APIC

    Models [src/Xv6-Syscall/src/ioapic.c].  The chip shows one of its registers
    at a time: [ioreg] is the index written last to [ioapic->reg], and
    [ioapic->data] is the register it selects. *)

From S2P Require Import Prelude CInt Params.

Definition REG_ID : Z := 0.
Definition REG_VER : Z := 1.
Definition REG_TABLE : Z := 16.
Definition INT_DISABLED : Z := 65536.

Record ioapic := Ioapic { ioreg : Z; iodata : gmap Z Z }.

Definition ioapicread (reg : Z) (s : ioapic) : Z * ioapic :=
  (default 0 (iodata s !! reg), Ioapic reg (iodata s)).
Definition ioapicwrite (reg data : Z) (s : ioapic) : ioapic :=
  Ioapic reg (<[reg := u32 data]> (iodata s)).

(** The body of the loop of [ioapicinit]. *)
Definition mask_irq (s : ioapic) (i : nat) : ioapic :=
  ioapicwrite (REG_TABLE + 2 * i + 1) 0 (ioapicwrite (REG_TABLE + 2 * i) (Z.lor INT_DISABLED (T_IRQ0 + i)) s).

(** Also returns whether the warning about the APIC's id is printed. *)
Definition ioapicinit (ioapicid : Z) (s : ioapic) : bool * ioapic :=
  let (ver, s) := ioapicread REG_VER s in
  let maxintr := Z.land (Z.shiftr ver 16) 255 in
  let (idr, s) := ioapicread REG_ID s in
  (negb (Z.shiftr idr 24 =? ioapicid), foldl mask_irq s (seq 0 (Z.to_nat (maxintr + 1)))).

Definition ioapicenable (irq cpunum : Z) (s : ioapic) : ioapic :=
  ioapicwrite (REG_TABLE + 2 * irq + 1) (Z.shiftl cpunum 24) (ioapicwrite (REG_TABLE + 2 * irq) (T_IRQ0 + irq) s).

(** ** Redirection entries *)

(** The two registers of interrupt [i]. *)
Definition entry (s : ioapic) (i : Z) : option Z * option Z :=
  (iodata s !! (REG_TABLE + 2 * i), iodata s !! (REG_TABLE + 2 * i + 1)).

Lemma write_entry s i lo hi j :
  entry (ioapicwrite (REG_TABLE + 2 * i + 1) hi (ioapicwrite (REG_TABLE + 2 * i) lo s)) j =
  if j =? i then (Some (u32 lo), Some (u32 hi)) else entry s j.
Proof.
  rewrite /entry /=. destruct (Z.eqb_spec j i) as [->|Hne].
  - rewrite lookup_insert_ne; [lia|]. by rewrite !lookup_insert_eq.
  - rewrite !lookup_insert_ne //; lia.
Qed.

Lemma mask_entries n s (j : Z) :
  entry (foldl mask_irq s (seq 0 n)) j =
  if (0 <=? j) && (j <? n) then (Some (u32 (Z.lor INT_DISABLED (T_IRQ0 + j))), Some 0) else entry s j.
Proof.
  induction n as [|n IH]; [destruct (Z.leb_spec 0 j), (Z.ltb_spec j 0%nat); simpl; done || lia|].
  rewrite seq_S foldl_app /= /mask_irq write_entry IH.
  destruct (Z.eqb_spec j n) as [E|Hne], (Z.leb_spec 0 j), (Z.ltb_spec j n), (Z.ltb_spec j (S n)); simpl; try lia; try done.
  by rewrite E.
Qed.

(** The interrupts the kernel enables, the latest call last. *)
Definition enables (es : list (Z * Z)) (s : ioapic) : ioapic := foldl (λ s e, ioapicenable e.1 e.2 s) s es.

Lemma enables_entry es s j :
  entry (enables es s) j =
  match last (filter (λ e, e.1 = j) es) with
  | Some (irq, cpu) => (Some (u32 (T_IRQ0 + irq)), Some (u32 (Z.shiftl cpu 24)))
  | None => entry s j
  end.
Proof.
  induction es as [|[irq cpu] es IH] using rev_ind; [done|].
  rewrite /enables foldl_app /= -/(enables es s) /ioapicenable write_entry filter_app. destruct (Z.eqb_spec j irq) as [->|Hne].
  - rewrite (filter_cons_True _ (irq, cpu)) // filter_nil last_snoc //.
  - by rewrite (filter_cons_False _ (irq, cpu)) ?filter_nil ?app_nil_r.
Qed.

(** Interrupt routing: after [ioapicinit] every interrupt of the chip is
    masked and routed to no processor; the calls of [ioapicenable] that follow
    unmask exactly their interrupts, each delivered as vector 32 plus its number
    to the processor of the last call for it. *)
Theorem ioapic_routes id s es (j : Z) :
  let maxintr := Z.land (Z.shiftr (default 0 (iodata s !! REG_VER)) 16) 255 in
  0 ≤ j ≤ maxintr →
  entry (enables es (ioapicinit id s).2) j =
  match last (filter (λ e, e.1 = j) es) with
  | Some (irq, cpu) => (Some (u32 (T_IRQ0 + irq)), Some (u32 (Z.shiftl cpu 24)))
  | None => (Some (u32 (Z.lor INT_DISABLED (T_IRQ0 + j))), Some 0)
  end.
Proof.
  intros maxintr Hj. rewrite enables_entry. case_match; [done|]. simpl. rewrite mask_entries.
  rewrite (proj2 (Z.leb_le 0 j)) ?(proj2 (Z.ltb_lt j _)) //; unfold maxintr in *; lia.
Qed.

Lemma ioapic_routes_witness :
  entry (enables [(1, 0); (14, 1)] (ioapicinit 0 (Ioapic 0 {[REG_VER := 1507345]})).2) 14 = (Some 46, Some 16777216) ∧
  entry (enables [(1, 0); (14, 1)] (ioapicinit 0 (Ioapic 0 {[REG_VER := 1507345]})).2) 3 = (Some 65571, Some 0).
Proof.
  split; rewrite ioapic_routes; [by vm_compute|reflexivity|by vm_compute|reflexivity].
Defined.
