(* ===== verification/Kbd.v ===== *)
(** * The keyboard and the serial port

    First the keyboard, then the serial port.  Models [src/Xv6-Syscall/src/kbd.c] and the tables of [kbd.h].  The keyboard
    controller is the queue of its scan codes: KBS_DIB of the status port says
    whether there is one, the data port takes the first. *)

From S2P Require Import Prelude CInt CString Kernel Params Stdio Printf Console ConsoleSpec ConsoleInput Ioapic.

Definition NO : Z := 0.
Definition SHIFT : Z := 1.
Definition CTL : Z := 2.
Definition ALT : Z := 4.
Definition CAPSLOCK : Z := 8.
Definition NUMLOCK : Z := 16.
Definition SCROLLLOCK : Z := 32.
Definition E0ESC : Z := 64.
Definition KEY_HOME : Z := 224.
Definition KEY_END : Z := 225.
Definition KEY_UP : Z := 226.
Definition KEY_DN : Z := 227.
Definition KEY_LF : Z := 228.
Definition KEY_RT : Z := 229.
Definition KEY_PGUP : Z := 230.
Definition KEY_PGDN : Z := 231.
Definition KEY_INS : Z := 232.
Definition KEY_DEL : Z := 233.

(** An array of 256 bytes: the first elements, and designated ones. *)
Definition table (l : list Z) (inits : list (Z * Z)) : list Z :=
  foldl (λ t i, <[Z.to_nat i.1 := u8 i.2]> t) ((u8 <$> l) ++ replicate (256 - length l) 0) inits.

Definition shiftcode : list Z :=
  table [] [(29, CTL); (42, SHIFT); (54, SHIFT); (56, ALT); (157, CTL); (184, ALT)].
Definition togglecode : list Z := table [] [(58, CAPSLOCK); (69, NUMLOCK); (70, SCROLLLOCK)].

Definition normalmap : list Z := table
  ([NO; 27] ++ str "1234567890-=" ++ [8; 9] ++ str "qwertyuiop[]" ++ [10; NO] ++ str "asdfghjkl;'`" ++ [NO; 92] ++
   str "zxcvbnm,./" ++ [NO] ++ str "*" ++ [NO; 32] ++ replicate 13 NO ++ str "789-456+1230." ++ replicate 4 NO)
  [(156, 10); (181, 47); (200, KEY_UP); (208, KEY_DN); (201, KEY_PGUP); (209, KEY_PGDN); (203, KEY_LF); (205, KEY_RT);
   (151, KEY_HOME); (207, KEY_END); (210, KEY_INS); (211, KEY_DEL)].

Definition shiftmap : list Z := table
  ([NO; 27] ++ str "!@#$%^&*()_+" ++ [8; 9] ++ str "QWERTYUIOP{}" ++ [10; NO] ++ str "ASDFGHJKL:" ++ [34; 126; NO; 124] ++
   str "ZXCVBNM<>?" ++ [NO] ++ str "*" ++ [NO; 32] ++ replicate 13 NO ++ str "789-456+1230." ++ replicate 4 NO)
  [(156, 10); (181, 47); (200, KEY_UP); (208, KEY_DN); (201, KEY_PGUP); (209, KEY_PGDN); (203, KEY_LF); (205, KEY_RT);
   (151, KEY_HOME); (207, KEY_END); (210, KEY_INS); (211, KEY_DEL)].

Definition ctlmap : list Z := table
  (replicate 16 NO ++ (ctl <$> str "QWERTYUIOP") ++ [NO; NO; 13; NO] ++ (ctl <$> str "ASDFGHJKL") ++ [NO; NO; NO; NO; ctl 92] ++
   (ctl <$> str "ZXCVBNM") ++ [NO; NO; ctl 47; NO; NO])
  [(156, 13); (181, ctl 47); (200, KEY_UP); (208, KEY_DN); (201, KEY_PGUP); (209, KEY_PGDN); (203, KEY_LF); (205, KEY_RT);
   (151, KEY_HOME); (207, KEY_END); (210, KEY_INS); (211, KEY_DEL)].

Definition charcode : list (list Z) := [normalmap; shiftmap; ctlmap; ctlmap].

(** [t[i]] for an index the code keeps inside of the table. *)
Definition at_ (t : list Z) (i : Z) : Z := t !!! Z.to_nat i.

(** The result, the codes left in the controller, and [shift]. *)
Definition kbdgetc (q : list Z) (shift : Z) : Z * list Z * Z :=
  match q with
  | [] => (-1, [], shift)
  | data :: q =>
      if data =? 224 then (0, q, Z.lor shift E0ESC) else
      if negb (Z.land data 128 =? 0) then
        let data := if negb (Z.land shift E0ESC =? 0) then data else Z.land data 127 in
        (0, q, Z.land shift (Z.lnot (Z.lor (at_ shiftcode data) E0ESC)))
      else
        let esc := negb (Z.land shift E0ESC =? 0) in
        let data := if esc then Z.lor data 128 else data in
        let shift := if esc then Z.land shift (Z.lnot E0ESC) else shift in
        let shift := Z.lor shift (at_ shiftcode data) in
        let shift := Z.lxor shift (at_ togglecode data) in
        let c := at_ (charcode !!! Z.to_nat (Z.land shift (Z.lor CTL SHIFT))) data in
        let c := if negb (Z.land shift CAPSLOCK =? 0) then
                   if (97 <=? c) && (c <=? 122) then c + (65 - 97) else
                   if (65 <=? c) && (c <=? 90) then c + (97 - 65) else c
                 else c in
        (c, q, shift)
  end.

(** The characters [consoleintr] gets from [kbdgetc] before -1. *)
Fixpoint getcs (q : list Z) (shift : Z) : list Z * Z :=
  match q with
  | [] => ([], shift)
  | _ :: q' =>
      let '(c, _, shift) := kbdgetc q shift in
      let (cs, shift) := getcs q' shift in (c :: cs, shift)
  end.

(** Returns the new [shift]. *)
Definition kbdintr (procdump : K con unit) (q : list Z) (shift : Z) : K con Z :=
  let (cs, shift) := getcs q shift in consoleintr procdump cs;; mret shift.

(** ** Typing *)

Definition find_key (m : list Z) (c : Z) : option Z := (λ p, Z.of_nat p.1) <$> list_find (λ x, x = c) (take 89 m).

(** The scan codes of a character: the key goes down and up, with the shift or
    the control key held if the character needs it. *)
Definition keystrokes (c : Z) : list Z :=
  match find_key normalmap c, find_key shiftmap c, find_key ctlmap c with
  | Some i, _, _ => [i; i + 128]
  | None, Some i, _ => [42; i; i + 128; 170]
  | None, None, Some i => [29; i; i + 128; 157]
  | None, None, None => []
  end.

(** What a key stands for when caps lock is on. *)
Definition swap_case (c : Z) : Z :=
  if (97 <=? c) && (c <=? 122) then c - 32 else if (65 <=? c) && (c <=? 90) then c + 32 else c.

Definition typable (c : Z) : Prop := 32 ≤ c < 127 ∨ c = 8 ∨ c = 9 ∨ c = 10 ∨ c = 13 ∨ c = 27 ∨ c = ctl 85.

#[global] Instance typable_dec c : Decision (typable c).
Proof. unfold typable. apply _. Defined.

Definition caps_shift (caps : bool) : Z := if caps then CAPSLOCK else 0.

Definition key_ok (caps : bool) (c : Z) : bool :=
  let r := getcs (keystrokes c) (caps_shift caps) in
  bool_decide (filter (λ x, x ≠ 0) r.1 = [if caps then swap_case c else c] ∧ r.2 = caps_shift caps).

Lemma keys_ok caps c : typable c → key_ok caps c = true.
Proof.
  intros Hc. assert (forallb (λ c, implb (bool_decide (typable c)) (key_ok caps c)) (seqZ 0 127) = true) as H by by destruct caps; vm_compute.
  rewrite forallb_forall in H. specialize (H c). rewrite (bool_decide_eq_true_2 _ Hc) in H. apply H.
  apply list_elem_of_In, elem_of_seqZ. unfold typable, ctl in Hc. lia.
Qed.

Lemma getcs_app q1 q2 s :
  getcs (q1 ++ q2) s = ((getcs q1 s).1 ++ (getcs q2 (getcs q1 s).2).1, (getcs q2 (getcs q1 s).2).2).
Proof.
  revert s. induction q1 as [|d q1 IH]; intros s; [by destruct (getcs q2 s) as [l s'] eqn:E; rewrite /= E|].
  cbn [app getcs]. destruct (kbdgetc (d :: q1) s) as [[c r] s1] eqn:E1. destruct (kbdgetc (d :: q1 ++ q2) s) as [[c' r'] s1'] eqn:E2.
  assert (c' = c ∧ s1' = s1) as [-> ->].
  { revert E1 E2. rewrite /kbdgetc. destruct (d =? 224); [by intros [= <- _ <-] [= <- _ <-]|].
    destruct (negb (Z.land d 128 =? 0)); by intros [= <- _ <-] [= <- _ <-]. }
  rewrite IH. destruct (getcs q1 s1) as [l1 s2]. simpl. by destruct (getcs q2 s2).
Qed.

Lemma typed caps text : Forall typable text →
  let r := getcs (concat (keystrokes <$> text)) (caps_shift caps) in
  filter (λ x, x ≠ 0) r.1 = (if caps then swap_case <$> text else text) ∧ r.2 = caps_shift caps.
Proof.
  induction 1 as [|c text Hc _ IH]; [by destruct caps|]. rewrite fmap_cons concat_cons. cbv zeta. rewrite getcs_app.
  apply keys_ok with (caps := caps), bool_decide_eq_true in Hc. cbv zeta in Hc. destruct Hc as [E1 E2]. cbn [fst snd]. rewrite E2 filter_app E1.
  destruct IH as [-> ->]. by destruct caps.
Qed.

(** ** From the keyboard to the reader *)

(** [consoleintr] ignores the zeros of keys that stand for no character, and
    takes a newline for a carriage return. *)
Lemma intr_zeros cs : ∀ d σ, intr_loop cs d σ = intr_loop (filter (λ x, x ≠ 0) cs) d σ.
Proof.
  induction cs as [|c cs IH]; intros d σ; [done|]. destruct (decide (c = 0)) as [->|Hc].
  - rewrite filter_cons_False; [naive_solver|]. rewrite -IH. reflexivity.
  - rewrite filter_cons_True //. cbn [intr_loop]. rewrite /mbind /K_bind. destruct (intr_char c d σ); by rewrite ?IH.
Qed.

Lemma intr_enter cs : ∀ d σ, intr_loop (cs ++ [10]) d σ = intr_loop (cs ++ [13]) d σ.
Proof.
  induction cs as [|c cs IH]; intros d σ; [reflexivity|]. cbn [app intr_loop]. rewrite /mbind /K_bind.
  destruct (intr_char c d σ); by rewrite ?IH.
Qed.

Lemma consoleintr_ext pd cs cs' σ : (∀ d σ, intr_loop cs d σ = intr_loop cs' d σ) → consoleintr pd cs σ = consoleintr pd cs' σ.
Proof. intros E. rewrite /consoleintr /mbind /K_bind. destruct (acquire Lcons σ) as [[] σ1| | | | | |]; try done. by rewrite E. Qed.

(** C16: From the keyboard to the reader: the scan codes of a line (keys that go
    down and up, with shift or control where the characters need it), edited by
    backspace and control-U and ended with Enter, make the keyboard interrupt
    wake the waiting readers, and a read with room for it returns the edited
    line and a newline. *)
Theorem keyboard_line pd cs n k L w s : crel s (Ld [] []) → screen_ok s → cpu_ok k → L !! Lcons = None → L !! Lptable = None →
  Forall (λ c, 32 ≤ c < 127 ∨ c = 8 ∨ c = ctl 85) cs → (length cs ≤ 127)%nat → (length (foldl edit_key [] cs) < n)%nat →
  ∃ s1 s2, kbdintr pd (concat (keystrokes <$> cs ++ [10])) 0 (Kst k L w s) = Ret 0 (Kst k L (filter (λ kv, kv.2 ≠ CInput) w) s1) ∧
    read_lines n (Kst k L (filter (λ kv, kv.2 ≠ CInput) w) s1) =
      Ret (true, foldl edit_key [] cs ++ [10]) (Kst k L (filter (λ kv, kv.2 ≠ CInput) w) s2) ∧
    crel s2 (Ld [] []).
Proof.
  intros Hc Hs Hk HL HL' Hcs Hl Hn.
  destruct (console_line pd cs n k L w s Hc Hs Hk HL HL') as (s1&s2&E1&E2&Hc2); [|done|done|].
  { eapply Forall_impl; [exact Hcs|]. rewrite /line_key /ctl. simpl. intros. lia. }
  exists s1, s2. split; [|done].
  destruct (typed false (cs ++ [10])) as [Ef Es].
  { apply Forall_app. split; [|repeat constructor; rewrite /typable; lia]. eapply Forall_impl; [exact Hcs|]. rewrite /typable /ctl. simpl. intros. lia. }
  change (caps_shift false) with 0 in *. rewrite /kbdintr. destruct (getcs (concat (keystrokes <$> cs ++ [10])) 0) as [l sh]. simpl in Ef, Es. subst sh.
  assert (consoleintr pd l (Kst k L w s) = consoleintr pd (cs ++ [13]) (Kst k L w s)) as E.
  { apply consoleintr_ext. intros d σ. by rewrite intr_zeros Ef intr_enter. }
  by rewrite (bind_ret _ _ _ _ _ (eq_trans E E1)).
Qed.

Lemma keyboard_line_witness : let keys := str "Lz" ++ [8] ++ str "s" in
  concat (keystrokes <$> keys ++ [10]) = [42; 38; 166; 170; 44; 172; 14; 142; 31; 159; 28; 156] ∧
  ∃ s1 s2, kbdintr (mret ()) (concat (keystrokes <$> keys ++ [10])) 0 (Kst demo_cpu ∅ {[ 7 := CInput ]} demo_con) = Ret 0 (Kst demo_cpu ∅ ∅ s1) ∧
    read_lines 100 (Kst demo_cpu ∅ ∅ s1) = Ret (true, str "Ls" ++ [10]) (Kst demo_cpu ∅ ∅ s2) ∧ crel s2 (Ld [] []).
Proof.
  intros keys. split; [by vm_compute|]. assert (filter (λ kv : Z * chan, kv.2 ≠ CInput) ({[ 7 := CInput ]} : gmap Z chan) = ∅) as E by by vm_compute.
  pose proof (keyboard_line (mret ()) keys 100 demo_cpu ∅ {[ 7 := CInput ]} demo_con) as H. rewrite E in H.
  apply H; [apply demo_con_crel|apply demo_con_ok|split_and!; simpl; [lia|lia|done]|done|done| |by vm_compute; lia|by vm_compute; lia].
  change keys with [76; 122; 8; 115]. repeat (apply Forall_cons; split; [unfold ctl; lia|]). constructor.
Defined.

(** ** The serial port: [src/Xv6-Syscall/src/uart.c]

    [uartputc] is part of [Console].  Here are the initialisation, which finds
    out if there is a port, and the interrupt, which hands the bytes the port
    received to the console.  The port is the queue of these bytes: bit 0 of its
    line status register, [inb(COM1+5)], says whether there is one, and reading
    [COM1+0] takes the first. *)

Definition COM1 : Z := 1016.

Definition set_uart (b : bool) (s : con) : con :=
  Con (in_buf s) (in_r s) (in_w s) (in_e s) (locking s) (panicked s) (crt s) (cursor s) b (sent s) (killed s).

(** The registers written before the test of the status register. *)
Definition uart_setup : list (Z * Z) :=
  [(COM1 + 2, 0); (COM1 + 3, 128); (COM1 + 0, 115200 / 9600); (COM1 + 1, 0); (COM1 + 3, 3); (COM1 + 4, 0); (COM1 + 1, 1)].

(** [status] is what [inb(COM1+5)] gives and [q] the bytes received so far; the
    result is the register writes, the interrupt controller, and the bytes left. *)
Definition uartinit (status : Z) (q : list Z) (io : ioapic) : K con (list (Z * Z) * ioapic * list Z) :=
  if status =? 255 then mret (uart_setup, io, q) else
  modify (set_uart true);;
  let q := tail q in
  let io := ioapicenable IRQ_COM1 0 io in
  for_each (str "xv6..." ++ [10]) uartputc;;
  mret (uart_setup, io, q).

Definition uartgetc (uart : bool) (q : list Z) : Z * list Z :=
  if negb uart then (-1, q) else
  match q with
  | [] => (-1, q)
  | c :: q => (c, q)
  end.

(** The characters [consoleintr] gets from [uartgetc] before -1. *)
Fixpoint uart_getcs (uart : bool) (q : list Z) : list Z :=
  match q with
  | [] => []
  | _ :: q' => let c := (uartgetc uart q).1 in if c <? 0 then [] else c :: uart_getcs uart q'
  end.

Definition uartintr (procdump : K con unit) (q : list Z) : K con unit :=
  u ← gets uart;
  consoleintr procdump (uart_getcs u q).

(** ** Properties *)

Lemma uart_getcs_on q : Forall is_byte q → uart_getcs true q = q.
Proof.
  induction 1 as [|c q Hc _ IH]; [done|]. cbn. rewrite IH (proj2 (Z.ltb_ge _ _)) //. apply Hc.
Qed.

Lemma puts_run l k L w s : uart s = true →
  for_each l uartputc (Kst k L w s) = Ret tt (Kst k L w (set_sent (sent s ++ (u8 <$> l)) s)).
Proof.
  revert s. induction l as [|c l IH]; intros s Hu; cbn [for_each].
  - rewrite app_nil_r. by destruct s.
  - rewrite (bind_ret _ _ _ _ _ (uartputc_run _ _ _ _ _)) Hu IH //. by rewrite /= -app_assoc.
Qed.

Lemma uartinit_run status q io k L w s : status ≠ 255 →
  uartinit status q io (Kst k L w s) =
  Ret (uart_setup, ioapicenable IRQ_COM1 0 io, tail q) (Kst k L w (set_sent (sent s ++ str "xv6..." ++ [10]) (set_uart true s))).
Proof.
  intros Hs. rewrite /uartinit (proj2 (Z.eqb_neq _ _) Hs) (bind_ret (modify (set_uart true)) _ (Kst k L w s) tt (Kst k L w (set_uart true s)) eq_refl).
  rewrite (bind_ret _ _ _ _ _ (puts_run _ _ _ _ (set_uart true s) eq_refl)) //.
Qed.

(** A terminal on the serial port: with a port present, initialisation
    announces the system on it and routes its interrupt to the first processor;
    a line received afterwards, with corrections, is what a read of the
    console returns.  Without a port nothing is sent, and an interrupt
    delivers no character. *)
Theorem serial_line pd status q io cs n k L w s :
  crel s (Ld [] []) → screen_ok s → cpu_ok k → L !! Lcons = None → L !! Lptable = None → uart s = false →
  Forall line_key cs → (length cs ≤ 127)%nat → (length (foldl edit_key [] cs) < n)%nat →
  (status ≠ 255 → ∃ io' s0 s1 s2, let w' := filter (λ kv, kv.2 ≠ CInput) w in
     uartinit status q io (Kst k L w s) = Ret (uart_setup, io', tail q) (Kst k L w s0) ∧
     sent s0 = sent s ++ str "xv6..." ++ [10] ∧ entry io' IRQ_COM1 = (Some (T_IRQ0 + IRQ_COM1), Some 0) ∧
     uartintr pd (cs ++ [13]) (Kst k L w s0) = Ret tt (Kst k L w' s1) ∧
     read_lines n (Kst k L w' s1) = Ret (true, foldl edit_key [] cs ++ [10]) (Kst k L w' s2)) ∧
  (status = 255 →
     uartinit status q io (Kst k L w s) = Ret (uart_setup, io, q) (Kst k L w s) ∧
     uartintr pd (cs ++ [13]) (Kst k L w s) = consoleintr pd [] (Kst k L w s)).
Proof.
  intros Hc Hs Hk HL HL' Hu Hcs Hl Hn. split; intros Hst.
  - set (s0 := set_sent (sent s ++ str "xv6..." ++ [10]) (set_uart true s)).
    destruct (console_line pd cs n k L w s0) as (s1&s2&E1&E2&_); [exact Hc|exact Hs|done|done|done|done|done|done|].
    exists (ioapicenable IRQ_COM1 0 io), s0, s1, s2. split_and!; [by apply uartinit_run|done| | |done].
    + by rewrite /ioapicenable write_entry.
    + rewrite /uartintr (bind_ret (gets uart) _ (Kst k L w s0) true _ eq_refl) uart_getcs_on //. apply Forall_app. split; [|by repeat constructor].
      eapply Forall_impl; [done|]. rewrite /line_key /is_byte /ctl. intros. lia.
  - subst. split; [done|]. rewrite /uartintr (bind_ret (gets uart) _ (Kst k L w s) (uart s) _ eq_refl) Hu. by destruct cs.
Qed.

Lemma serial_line_witness : let keys := str "lz" ++ [8] ++ str "s" in
  ∃ io' s0 s1 s2,
     uartinit 96 [] (Ioapic 0 ∅) (Kst demo_cpu ∅ ∅ (set_uart false demo_con)) = Ret (uart_setup, io', []) (Kst demo_cpu ∅ ∅ s0) ∧
     uartintr (mret ()) (keys ++ [13]) (Kst demo_cpu ∅ ∅ s0) = Ret tt (Kst demo_cpu ∅ ∅ s1) ∧
     read_lines 100 (Kst demo_cpu ∅ ∅ s1) = Ret (true, str "ls" ++ [10]) (Kst demo_cpu ∅ ∅ s2).
Proof.
  intros keys. destruct (serial_line (mret ()) 96 [] (Ioapic 0 ∅) keys 100 demo_cpu ∅ ∅ (set_uart false demo_con)) as [H _];
    [apply demo_con_crel|apply demo_con_ok|split_and!; simpl; [lia|lia|done]|done|done|done| |by vm_compute; lia|by vm_compute; lia|].
  - change keys with [108; 122; 8; 115]. repeat (apply Forall_cons; split; [rewrite /line_key /ctl; lia|]). constructor.
  - destruct (H ltac:(lia)) as (io'&s0&s1&s2&E1&_&_&E2&E3). exists io', s0, s1, s2. split_and!; [exact E1|exact E2|exact E3].
Defined.
