(* ===== verification/Mp.v ===== *)
(** * The multiprocessor tables of the firmware: [src/Xv6-Syscall/src/mp.c]

    The kernel looks for the floating pointer structure in the first KB of the
    EBDA or, without an EBDA, in the last KB of base memory, and then in the
    upper half of the BIOS ROM, 0xF0000 to 0xFFFFF.  The specification, as the
    comment above [mpsearch] gives it, allows the ROM from 0xE0000 on: a structure
    in 0xE0000 to 0xEFFFF is not found.  The kernel checks the configuration
    table the structure points to, and takes from its entries the local APIC ids
    of the processors, the id of the I/O APIC and the address of the local APICs.  [mem] is the memory, a function from
    virtual addresses to bytes; a structure is read at the offsets of its fields
    in [mp.h]. *)

From S2P Require Import Prelude CInt CString Kernel Params Stdio.

Definition MPPROC : Z := 0.
Definition MPBUS : Z := 1.
Definition MPIOAPIC : Z := 2.
Definition MPIOINTR : Z := 3.
Definition MPLINTR : Z := 4.

(** [cpus[i].apicid], [ncpu], [ioapicid], [lapic], and the bytes written to
    the ports of the IMCR. *)
Record mpst := Mpst {
  cpus : list Z;
  ncpu : Z;
  ioapicid : Z;
  lapic : Z;
  imcr : list (Z * Z)
}.

(** [n] bytes from address [a] on. *)
Definition bytes (mem : Z → Z) (a : Z) (n : nat) : list Z := (λ i : nat, mem (u32 (a + i))) <$> seq 0 n.

(** Sizes of the structures. *)
Definition sizeof_mp : Z := 16.
Definition sizeof_mpconf : Z := 44.
Definition sizeof_mpproc : Z := 20.
Definition sizeof_mpioapic : Z := 8.

Section Mp.
Context (mem : Z → Z) (inb : Z → Z).

Definition sum (addr : Z) (len : Z) : Z := u8 (foldl (λ s b, s32 (s + b)) 0 (bytes mem addr (Z.to_nat len))).

Fixpoint mpsearch1_loop (fuel : nat) (p e : Z) : K mpst (option Z) :=
  match fuel with
  | O => nofuel
  | S fuel =>
      if p <? e then
        if bool_decide (bytes mem p 4 = str "_MP_") && (sum p sizeof_mp =? 0) then mret (Some p)
        else mpsearch1_loop fuel (u32 (p + sizeof_mp)) e
      else mret None
  end.

Definition mpsearch1 (a len : Z) : K mpst (option Z) :=
  let addr := P2V a in
  mpsearch1_loop (S (Z.to_nat (len / sizeof_mp))) addr (u32 (addr + len)).

Definition mpsearch : K mpst (option Z) :=
  let bda i := mem (u32 (P2V 1024 + i)) in
  let p := u32 (Z.shiftl (Z.lor (Z.shiftl (bda 15) 8) (bda 14)) 4) in
  mp ← (if negb (p =? 0) then mpsearch1 p 1024
        else
          let p := u32 (Z.lor (Z.shiftl (bda 20) 8) (bda 19) * 1024) in
          mpsearch1 (u32 (p - 1024)) 1024);
  match mp with
  | Some mp => mret (Some mp)
  | None => mpsearch1 983040 65536
  end.

(** Fields of the structures. *)
Definition mp_physaddr (mp : Z) : Z := le_val (bytes mem (mp + 4) 4).
Definition mp_imcrp (mp : Z) : Z := mem (u32 (mp + 12)).
Definition conf_length (conf : Z) : Z := le_val (bytes mem (conf + 4) 2).
Definition conf_version (conf : Z) : Z := mem (u32 (conf + 6)).
Definition conf_lapicaddr (conf : Z) : Z := le_val (bytes mem (conf + 36) 4).

Definition mpconfig : K mpst (option (Z * Z)) :=
  o ← mpsearch;
  match o with
  | None => mret None
  | Some mp =>
      if mp_physaddr mp =? 0 then mret None else
      let conf := P2V (mp_physaddr mp) in
      if negb (bool_decide (bytes mem conf 4 = str "PCMP")) then mret None else
      if negb (conf_version conf =? 1) && negb (conf_version conf =? 4) then mret None else
      if negb (sum conf (conf_length conf) =? 0) then mret None else
      mret (Some (conf, mp))
  end.

Definition add_cpu (id : Z) (s : mpst) : mpst :=
  if ncpu s <? NCPU then Mpst (<[Z.to_nat (ncpu s) := id]> (cpus s)) (ncpu s + 1) (ioapicid s) (lapic s) (imcr s) else s.
Definition set_ioapicid (id : Z) (s : mpst) : mpst := Mpst (cpus s) (ncpu s) id (lapic s) (imcr s).
Definition set_lapic (a : Z) (s : mpst) : mpst := Mpst (cpus s) (ncpu s) (ioapicid s) a (imcr s).
Definition outb (port b : Z) (s : mpst) : mpst := Mpst (cpus s) (ncpu s) (ioapicid s) (lapic s) (imcr s ++ [(port, u8 b)]).

(** The loop over the entries.  The [break] of an unknown entry leaves only the
    [switch]. *)
Fixpoint entries_loop (fuel : nat) (p e : Z) (ismp : bool) : K mpst bool :=
  match fuel with
  | O => nofuel
  | S fuel =>
      if p <? e then
        let t := mem (u32 p) in
        if t =? MPPROC then
          modify (add_cpu (mem (u32 (p + 1))));;
          entries_loop fuel (u32 (p + sizeof_mpproc)) e ismp
        else if t =? MPIOAPIC then
          modify (set_ioapicid (mem (u32 (p + 1))));;
          entries_loop fuel (u32 (p + sizeof_mpioapic)) e ismp
        else if (t =? MPBUS) || (t =? MPIOINTR) || (t =? MPLINTR) then
          entries_loop fuel (u32 (p + 8)) e ismp
        else entries_loop fuel p e false
      else mret ismp
  end.

Definition mpinit (fuel : nat) : K mpst unit :=
  o ← mpconfig;
  match o with
  | None => panic "Expect to run on an SMP"
  | Some (conf, mp) =>
      modify (set_lapic (conf_lapicaddr conf));;
      ismp ← entries_loop fuel (u32 (conf + sizeof_mpconf)) (u32 (conf + conf_length conf)) true;
      if negb ismp then panic "Didn't find a suitable machine" else
      if negb (mp_imcrp mp =? 0) then
        modify (outb 34 112);;
        modify (outb 35 (Z.lor (inb 35) 1))
      else mret ()
  end.
End Mp.

(** ** The multiprocessor tables: what [mpinit] reads

    [mp_find] is the first floating pointer structure in the areas that are
    searched; [conf_table] is the contents of a configuration table. *)

(** ** Bytes and checksums *)

Definition total (l : list Z) : Z := foldr Z.add 0 l.

Lemma bytes_length mem a n : length (bytes mem a n) = n.
Proof. by rewrite /bytes length_fmap length_seq. Qed.

(** Shifting the argument of a function on an interval. *)
Lemma fmap_seq_shift {A} (f g : nat → A) n m : (∀ i, f (n + i)%nat = g i) → f <$> seq n m = g <$> seq 0 m.
Proof.
  intros Hfg. apply list_eq. intros i. rewrite !list_lookup_fmap. destruct (decide (i < m)%nat) as [Hi|Hi].
  - rewrite !lookup_seq_lt //= Hfg //.
  - rewrite !lookup_seq_ge //; lia.
Qed.

Lemma bytes_app mem a n m : bytes mem a (n + m) = bytes mem a n ++ bytes mem (a + n) m.
Proof. rewrite /bytes seq_app fmap_app. f_equal. apply fmap_seq_shift. intros i. do 2 f_equal. lia. Qed.

Lemma bytes_split mem a l k : bytes mem a (length (l ++ k)) = l ++ k →
  bytes mem a (length l) = l ∧ bytes mem (a + length l) (length k) = k.
Proof. rewrite length_app bytes_app. intros E. apply app_inj_1 in E; [done|]. apply bytes_length. Qed.

Lemma bytes_head mem a n x l : bytes mem a (S n) = x :: l → mem (u32 a) = x ∧ bytes mem (a + 1) n = l.
Proof.
  intros E. rewrite -(Nat.add_1_l n) bytes_app in E. injection E as <- <-. split; [|done]. do 2 f_equal. lia.
Qed.

Lemma sum_total (l : list Z) (a : Z) : Forall is_byte l → 0 ≤ a → a + 255 * length l < 2 ^ 31 →
  foldl (λ s b, s32 (s + b)) a l = a + total l ∧ 0 ≤ total l ≤ 255 * length l.
Proof.
  intros Hl. revert a. induction Hl as [|b l Hb Hl IH]; intros a Ha Hs; cbn [foldl foldr total length] in *; [lia|].
  unfold is_byte in Hb. rewrite s32_small; [lia|]. destruct (IH (a + b)) as [-> ?]; unfold total in *; cbn [foldr]; lia.
Qed.

Section Mem.
Context (mem : Z → Z) (Hmem : ∀ a, is_byte (mem a)).

Lemma bytes_byte a n : Forall is_byte (bytes mem a n).
Proof. apply Forall_fmap, Forall_true. intros i. apply Hmem. Qed.

Lemma sum_ok a (n : nat) : n < 65536 → sum mem a n = total (bytes mem a n) mod 256.
Proof.
  intros Hn. rewrite /sum Nat2Z.id. destruct (sum_total (bytes mem a n) 0) as [-> _]; [apply bytes_byte|done|rewrite bytes_length; lia|done].
Qed.

(** ** The search *)

Definition is_mp (p : Z) : bool := bool_decide (bytes mem p 4 = str "_MP_" ∧ total (bytes mem p 16) mod 256 = 0).

(** The addresses of an area of [n] structures. *)
Definition area (p : Z) (n : nat) : list Z := (λ i : nat, p + 16 * i) <$> seq 0 n.

Lemma area_cons p n : area p (S n) = p :: area (p + 16) n.
Proof. rewrite /area /=. f_equal; [lia|]. apply fmap_seq_shift. intros i. lia. Qed.

Lemma is_mp_spec p : bool_decide (bytes mem p 4 = str "_MP_") && (sum mem p sizeof_mp =? 0) = is_mp p.
Proof.
  rewrite (sum_ok p 16); [lia|]. rewrite /is_mp bool_decide_and. f_equal.
  by destruct (Z.eqb_spec (total (bytes mem p 16) mod 256) 0); [rewrite bool_decide_true|rewrite bool_decide_false].
Qed.

Lemma mpsearch1_loop_run (n : nat) p σ : 0 ≤ p → p + 16 * n < 2 ^ 32 →
  mpsearch1_loop mem (S n) p (p + 16 * n) σ = Ret (head (filter is_mp (area p n))) σ.
Proof.
  revert p. induction n as [|n IH]; intros p Hp Hn.
  { cbn [mpsearch1_loop]. rewrite (proj2 (Z.ltb_ge _ _)) //; lia. }
  remember (S n) as n' eqn:En. cbn [mpsearch1_loop]. rewrite (proj2 (Z.ltb_lt _ _)); [lia|]. rewrite is_mp_spec. subst n'.
  rewrite area_cons filter_cons. case_decide as E; [by rewrite (Is_true_true_1 _ E)|].
  rewrite (Is_true_false_1 _ E) /sizeof_mp u32_small; [unfold is_u32; lia|].
  rewrite -(IH (p + 16)); [lia|lia|]. f_equal. lia.
Qed.

Lemma mpsearch1_run a (n : nat) σ : P2V a + 16 * n < 2 ^ 32 →
  mpsearch1 mem a (16 * n) σ = Ret (head (filter is_mp (area (P2V a) n))) σ.
Proof.
  intros Hn. assert (0 ≤ P2V a) by apply (u32_range (a + KERNBASE)). rewrite /mpsearch1 /sizeof_mp Z.mul_comm Z.div_mul // Nat2Z.id.
  rewrite u32_small; [unfold is_u32; lia|]. rewrite Z.mul_comm. by apply mpsearch1_loop_run.
Qed.

(** A 16-bit number at address [a]. *)
Definition half (a : Z) : Z := mem (u32 a) + 256 * mem (u32 (a + 1)).

Lemma half_or a : Z.lor (Z.shiftl (mem (u32 (a + 1))) 8) (mem (u32 a)) = half a.
Proof.
  pose proof (Hmem (u32 a)) as Ha. rewrite Z.shiftl_mul_pow2 // (lor_add 8) //; [by apply Z.mod_mul|unfold half; lia].
Qed.

(** The areas the code searches: the first KB of the EBDA or, without one, the
    last KB of base memory; then the 64 KB from 0xF0000. *)
Definition candidates : list Z :=
  let ebda := 16 * half (P2V 1038) in
  area (P2V (if ebda =? 0 then 1024 * half (P2V 1043) - 1024 else ebda)) 64 ++ area (P2V 983040) 4096.

Definition mp_find : option Z := head (filter is_mp candidates).

Lemma mpsearch_run σ : mpsearch mem σ = Ret mp_find σ.
Proof.
  assert (∀ a, 0 ≤ half a < 65536) as Hh.
  { intros a. pose proof (Hmem (u32 a)). pose proof (Hmem (u32 (a + 1))). unfold half, is_byte in *. lia. }
  pose proof (Hh (P2V 1038)) as H1. pose proof (Hh (P2V 1043)) as H2.
  assert (∀ a, 0 ≤ a + 1024 < 2 ^ 30 → P2V a + 16 * 64%nat < 2 ^ 32) as Hr.
  { intros a Ha. rewrite /P2V u32_small /KERNBASE; [unfold is_u32; lia|]. lia. }
  rewrite /mpsearch (half_or (P2V 1038)) (half_or (P2V 1043)) Z.shiftl_mul_pow2 // (u32_small (_ * 2 ^ 4)); [unfold is_u32; lia|].
  rewrite (Z.mul_comm _ (2 ^ 4)) (u32_small (_ * 1024)); [unfold is_u32; lia|].
  rewrite /mp_find /candidates filter_app head_app. change (2 ^ 4) with 16.
  assert (∀ x, P2V (u32 x) = P2V x) as Hu by (intros x; rewrite /P2V /u32; apply Zplus_mod_idemp_l).
  set (p := if 16 * half (P2V 1038) =? 0 then _ else _).
  assert (0 ≤ p + 1024 < 2 ^ 30) as Hp by (unfold p; destruct (16 * half (P2V 1038) =? 0); lia).
  rewrite (bind_ret _ _ _ (head (filter is_mp (area (P2V p) 64))) σ).
  { revert Hp. rewrite /p. destruct (16 * half (P2V 1038) =? 0); cbn [negb]; intros Hp.
    - rewrite (Z.mul_comm 1024) -(Hu (_ - _)). apply (mpsearch1_run _ 64). rewrite Hu. apply Hr. lia.
    - apply (mpsearch1_run _ 64), Hr, Hp. }
  destruct (head _); [done|]. by apply (mpsearch1_run _ 4096).
Qed.

(** ** The configuration table *)

Inductive mpentry :=
| Processor (id : Z) (rest : list Z)
| IoApic (id : Z) (rest : list Z)
| Other (type : Z) (rest : list Z).

Definition entry_bytes (e : mpentry) : list Z :=
  match e with
  | Processor id rest => MPPROC :: id :: rest
  | IoApic id rest => MPIOAPIC :: id :: rest
  | Other type rest => type :: rest
  end.

Definition entry_ok (e : mpentry) : Prop :=
  match e with
  | Processor _ rest => length rest = 18%nat
  | IoApic _ rest => length rest = 6%nat
  | Other type rest => type ∈ [MPBUS; MPIOINTR; MPLINTR] ∧ length rest = 7%nat
  end.

Definition add_entry (s : mpst) (e : mpentry) : mpst :=
  match e with
  | Processor id _ => add_cpu id s
  | IoApic id _ => set_ioapicid id s
  | Other _ _ => s
  end.

Lemma entry_step fuel p e b x k L w s : entry_ok x → bytes mem p (length (entry_bytes x)) = entry_bytes x →
  0 ≤ p → p + length (entry_bytes x) ≤ e → e < 2 ^ 32 →
  entries_loop mem (S fuel) p e b (Kst k L w s) =
  entries_loop mem fuel (p + length (entry_bytes x)) e b (Kst k L w (add_entry s x)).
Proof.
  intros Hx Hb Hp He He'.
  assert (∀ y z l, entry_bytes x = y :: z :: l → mem (u32 p) = y ∧ mem (u32 (p + 1)) = z) as Hr.
  { intros y z l E. rewrite E in Hb. apply bytes_head in Hb as [Hy Hb]. by apply bytes_head in Hb as [Hz _]. }
  assert (∀ y, p + y ≤ e → 0 ≤ y → u32 (p + y) = p + y) as Hu by (intros y ??; apply u32_small; unfold is_u32; lia).
  cbn [entries_loop]. destruct x as [id r|id r|t r]; cbn [entry_ok entry_bytes length add_entry] in *.
  - destruct (Hr _ _ _ eq_refl) as [-> ->]. rewrite (proj2 (Z.ltb_lt _ _)); [lia|].
    rewrite Hx in He |- *. rewrite (Hu sizeof_mpproc); [unfold sizeof_mpproc; lia|done|done].
  - destruct (Hr _ _ _ eq_refl) as [-> ->]. rewrite (proj2 (Z.ltb_lt _ _)); [lia|].
    rewrite Hx in He |- *. rewrite (Hu sizeof_mpioapic); [unfold sizeof_mpioapic; lia|done|done].
  - destruct Hx as [Ht Hx]. apply bytes_head in Hb as [-> _]. rewrite (proj2 (Z.ltb_lt _ _)); [lia|].
    rewrite Hx in He |- *. rewrite (Hu 8); [lia|done|].
    by repeat (apply elem_of_cons in Ht as [->|Ht]); [..|by apply not_elem_of_nil in Ht].
Qed.

Lemma entries_run fuel es p e b k L w s : Forall entry_ok es →
  let l := concat (entry_bytes <$> es) in
  bytes mem p (length l) = l → 0 ≤ p → p + length l ≤ e → e < 2 ^ 32 →
  entries_loop mem (length es + fuel) p e b (Kst k L w s) = entries_loop mem fuel (p + length l) e b (Kst k L w (foldl add_entry s es)).
Proof.
  intros Hes. revert p s. induction Hes as [|x es Hx Hes IH]; cbn [fmap list_fmap concat length foldl]; intros p s Hb Hp He He'.
  - by rewrite Z.add_0_r.
  - apply bytes_split in Hb as [Hb1 Hb2]. rewrite length_app in He |- *. rewrite Nat.add_succ_l (entry_step _ _ _ _ x) //; [lia|].
    rewrite IH //; [lia|lia|]. f_equal. lia.
Qed.

(** What the entries leave: the first ids of the processors, and the last I/O
    APIC. *)
Definition proc_id (e : mpentry) : option Z := match e with Processor id _ => Some id | _ => None end.
Definition ioapic_id (e : mpentry) : option Z := match e with IoApic id _ => Some id | _ => None end.

Lemma entries_cpus es s : length (cpus s) = NCPU → 0 ≤ ncpu s ≤ NCPU →
  let ids := take (NCPU - Z.to_nat (ncpu s)) (omap proc_id es) in
  let s' := foldl add_entry s es in
  cpus s' = blit (Z.to_nat (ncpu s)) ids (cpus s) ∧ ncpu s' = ncpu s + length ids.
Proof.
  revert s. induction es as [|x es IH]; intros s Hl Hn; cbn [foldl omap list_omap proc_id].
  { rewrite take_nil blit_nil /=. split; [done|lia]. }
  destruct x as [id r|id r|t r]; cbn [add_entry]; [|by apply (IH (set_ioapicid id s))|by apply IH].
  unfold add_cpu. destruct (Z.ltb_spec (ncpu s) NCPU) as [Hlt|Hge].
  - destruct (IH (Mpst (<[Z.to_nat (ncpu s) := id]> (cpus s)) (ncpu s + 1) (ioapicid s) (lapic s) (imcr s))) as [E1 E2];
      cbn [cpus ncpu] in *; [by rewrite length_insert|lia|].
    rewrite (_ : (NCPU - Z.to_nat (ncpu s))%nat = S (NCPU - Z.to_nat (ncpu s + 1))); [lia|]. cbn [proc_id take length].
    rewrite E1 E2 (_ : Z.to_nat (ncpu s + 1) = S (Z.to_nat (ncpu s))); [lia|]. rewrite -blit_cons; [rewrite length_take; lia|]. split; [done|lia].
  - destruct (IH s Hl Hn) as [-> ->]. rewrite (_ : (NCPU - Z.to_nat (ncpu s))%nat = 0%nat); [lia|]. by rewrite !take_0.
Qed.

Lemma entries_other es s : let s' := foldl add_entry s es in
  ioapicid s' = default (ioapicid s) (last (omap ioapic_id es)) ∧ lapic s' = lapic s ∧ imcr s' = imcr s.
Proof.
  revert s. induction es as [|x es IH]; intros s; [done|].
  destruct x as [id r|id r|t r]; cbn [foldl add_entry omap list_omap ioapic_id]; [| |apply IH].
  - destruct (IH (add_cpu id s)) as (->&->&->). unfold add_cpu. by destruct (ncpu s <? NCPU).
  - destruct (IH (set_ioapicid id s)) as (->&->&->). rewrite last_cons. by destruct (last _).
Qed.

(** The table at [conf] with local APIC address [la]: its header, the entries
    [es], and what follows them, [n] bytes in all. *)
Record conf_table (conf la : Z) (es : list mpentry) (more : list Z) (n : nat) : Prop := {
  ct_range : 0 ≤ conf ∧ conf + n < 2 ^ 32;
  ct_length : n < 65536;
  ct_entries : Forall entry_ok es;
  ct_la : is_u32 la;
  ct_sum : total (bytes mem conf n) mod 256 = 0;
  ct_bytes : ∃ ver ck r1 r2, (ver = 1 ∨ ver = 4) ∧ length r1 = 28%nat ∧ length r2 = 4%nat ∧
    bytes mem conf n = str "PCMP" ++ le_bytes 2 n ++ [ver; ck] ++ r1 ++ le_bytes 4 la ++ r2 ++ concat (entry_bytes <$> es) ++ more
}.

Lemma table_fields conf la es more n : conf_table conf la es more n →
  let l := concat (entry_bytes <$> es) in
  bytes mem conf 4 = str "PCMP" ∧ conf_length mem conf = n ∧ (conf_version mem conf = 1 ∨ conf_version mem conf = 4) ∧
  conf_lapicaddr mem conf = la ∧ n = (44 + length l + length more)%nat ∧
  bytes mem (conf + 44) (length l) = l ∧ bytes mem (conf + 44 + length l) (length more) = more.
Proof.
  intros [_ Hn _ Hla _ (ver&ck&r1&r2&Hv&H1&H2&E)] l. fold l in E.
  match type of E with _ = ?R => assert (n = length R) as En by (rewrite -E bytes_length //); assert (bytes mem conf (length R) = R) as EL by rewrite -En // end.
  clear E. apply bytes_split in EL as [E1 EL]. apply bytes_split in EL as [E2 EL]. apply bytes_split in EL as [E3 EL].
  apply bytes_split in EL as [E4 EL]. apply bytes_split in EL as [E5 EL]. apply bytes_split in EL as [E6 EL]. apply bytes_split in EL as [E7 EL].
  rewrite !length_app !length_le_bytes H1 H2 /= in En.
  change (length (str "PCMP")) with 4%nat in E1, E2, E3, E5, E7, EL. change (length [ver; ck]) with 2%nat in E3, E5, E7, EL.
  rewrite ?length_le_bytes ?H1 ?H2 in E1 E2 E3 E5 E7 EL. apply bytes_head in E3 as [E3 _].
  rewrite (_ : conf + 4%nat + 2%nat + 2%nat + 28%nat = conf + 36) in E5 E7 EL; [lia|].
  rewrite (_ : conf + 36 + 4%nat + 4%nat = conf + 44) in E7 EL; [lia|].
  rewrite -(Z.add_assoc conf 4%nat) in E3.
  rewrite /conf_length /conf_version /conf_lapicaddr (E2 : bytes mem (conf + 4) 2 = _) (E3 : mem (u32 (conf + 6)) = _) E5 !le_val_bytes_id; [lia|unfold is_u32 in Hla; lia|].
  split_and!; try done; lia.
Qed.

Lemma mpconfig_run mp conf la es more n σ : mp_find = Some mp → mp_physaddr mem mp ≠ 0 → conf = P2V (mp_physaddr mem mp) →
  conf_table conf la es more n → mpconfig mem σ = Ret (Some (conf, mp)) σ.
Proof.
  intros Hmp Ha -> Ht. destruct (table_fields _ _ _ _ _ Ht) as (E1&E2&E3&_).
  rewrite /mpconfig (bind_ret _ _ _ _ _ (mpsearch_run _)) Hmp (proj2 (Z.eqb_neq _ _) Ha) bool_decide_true // E2 sum_ok; [apply Ht|].
  rewrite (ct_sum _ _ _ _ _ Ht). by destruct E3 as [-> | ->].
Qed.

(** The state behind the entries [es]. *)
Definition after_entries (la : Z) (es : list mpentry) (s s' : mpst) : Prop :=
  let ids := take NCPU (omap proc_id es) in
  cpus s' = ids ++ drop (length ids) (cpus s) ∧ ncpu s' = length ids ∧
  ioapicid s' = default (ioapicid s) (last (omap ioapic_id es)) ∧ lapic s' = la.

Lemma mpinit_loop mp conf la es more n inb fuel k L w s : mp_find = Some mp → mp_physaddr mem mp ≠ 0 →
  conf = P2V (mp_physaddr mem mp) → conf_table conf la es more n → length (cpus s) = NCPU → ncpu s = 0 →
  ∃ s', after_entries la es s s' ∧ imcr s' = imcr s ∧
    mpinit mem inb (length es + fuel) (Kst k L w s) =
    (ismp ← entries_loop mem fuel (conf + n - length more) (conf + n) true;
     if negb ismp then panic "Didn't find a suitable machine" else
     if negb (mp_imcrp mem mp =? 0) then modify (outb 34 112);; modify (outb 35 (Z.lor (inb 35) 1)) else mret ()) (Kst k L w s').
Proof.
  intros Hmp Ha Hc Ht Hl Hn. destruct (table_fields _ _ _ _ _ Ht) as (_&E2&_&E4&En&E5&_). destruct (ct_range _ _ _ _ _ Ht) as [Hr1 Hr2].
  exists (foldl add_entry (set_lapic la s) es). destruct (entries_cpus es (set_lapic la s)) as [Ec Ecn]; [done|simpl; lia|].
  destruct (entries_other es (set_lapic la s)) as (Ei&El&Eo). cbn [cpus ncpu set_lapic] in Ec, Ecn. rewrite Hn in Ec, Ecn.
  split; [by split_and!|]. split; [done|].
  rewrite /mpinit (bind_ret _ _ _ _ _ (mpconfig_run _ _ _ _ _ _ _ Hmp Ha Hc Ht)) E2 E4 /sizeof_mpconf.
  rewrite (u32_small (conf + n)) ?(u32_small (conf + 44)); [unfold is_u32; lia|unfold is_u32; lia|].
  rewrite /mbind /K_bind /modify /= entries_run //; [apply Ht|lia|lia|].
  rewrite (_ : conf + 44 + length (concat (entry_bytes <$> es)) = conf + n - length more) //. lia.
Qed.

Lemma entries_spin fuel p e b σ : p < e → mem (u32 p) ∉ [MPPROC; MPBUS; MPIOAPIC; MPIOINTR; MPLINTR] →
  entries_loop mem fuel p e b σ = NoFuel.
Proof.
  intros Hp Ht. rewrite !not_elem_of_cons in Ht. destruct Ht as (H0&H1&H2&H3&H4&_).
  revert b. induction fuel as [|fuel IH]; intros b; [done|]. cbn [entries_loop].
  rewrite (proj2 (Z.ltb_lt _ _) Hp) !(proj2 (Z.eqb_neq (mem (u32 p)) _)) //. apply IH.
Qed.

(** Without a valid table. *)
Lemma mpconfig_none σ :
  (∀ mp, mp_find = Some mp → let conf := P2V (mp_physaddr mem mp) in
     mp_physaddr mem mp = 0 ∨ bytes mem conf 4 ≠ str "PCMP" ∨ conf_version mem conf ∉ [1; 4] ∨
     total (bytes mem conf (Z.to_nat (conf_length mem conf))) mod 256 ≠ 0) →
  mpconfig mem σ = Ret None σ.
Proof.
  intros H. rewrite /mpconfig (bind_ret _ _ _ _ _ (mpsearch_run _)). destruct mp_find as [mp|]; [|done].
  specialize (H mp eq_refl). simpl in H. destruct (Z.eqb_spec (mp_physaddr mem mp) 0); [done|].
  destruct H as [?|H]; [done|]. set (conf := P2V _) in *. destruct (bool_decide_reflect (bytes mem conf 4 = str "PCMP")); [|done].
  destruct H as [?|H]; [done|]. destruct (Z.eqb_spec (conf_version mem conf) 1) as [E|], (Z.eqb_spec (conf_version mem conf) 4) as [E'|];
    cbn [negb andb]; try done; (destruct H as [H|H]; [exfalso; rewrite ?E ?E' in H; set_solver|]).
  all: assert (0 ≤ conf_length mem conf < 65536) as Hn
    by (pose proof (le_val_range _ (bytes_byte (conf + 4) 2)) as Hr; rewrite bytes_length in Hr; exact Hr).
  all: rewrite -(Z2Nat.id (conf_length mem conf)); [lia|]; rewrite sum_ok; [lia|]; by rewrite (proj2 (Z.eqb_neq _ _) H).
Qed.
End Mem.

(** ** [mpinit] *)

(** C19: A machine with a valid configuration table: mpinit finds the first floating
    pointer structure in the areas it searches (the first KB of the EBDA or,
    without one, the last KB of base memory, then 0xF0000 to 0xFFFFF, not the
    ROM below that), and takes from the table the ids of its processors in their order, at most NCPU of them, the id
    of its last I/O APIC and the address of the local APICs; it switches the
    interrupts to the APIC exactly if the IMCR is present. *)
Theorem mpinit_reads mem inb mp la es n fuel k L w s : (∀ a, is_byte (mem a)) →
  mp_find mem = Some mp → mp_physaddr mem mp ≠ 0 → conf_table mem (P2V (mp_physaddr mem mp)) la es [] n →
  length (cpus s) = NCPU → ncpu s = 0 → (length es < fuel)%nat →
  ∃ s', mpinit mem inb fuel (Kst k L w s) = Ret tt (Kst k L w s') ∧ after_entries la es s s' ∧
    imcr s' = imcr s ++ if mp_imcrp mem mp =? 0 then [] else [(34, 112); (35, u8 (Z.lor (inb 35) 1))].
Proof.
  intros Hmem Hmp Ha Ht Hl Hn Hf. destruct (mpinit_loop mem Hmem mp _ la es [] n inb (fuel - length es) k L w s Hmp Ha eq_refl Ht Hl Hn)
    as (s1&Hs1&Ei&E). rewrite -Nat.le_add_sub in E; [lia|]. rewrite E.
  destruct (fuel - length es)%nat as [|f] eqn:Ef; [lia|]. rewrite Z.sub_0_r /= /mbind /K_bind /= Z.ltb_irrefl /=.
  destruct (mp_imcrp mem mp =? 0); simpl.
  - exists s1. by rewrite app_nil_r.
  - eexists. split; [done|]. split; [exact Hs1|]. by rewrite /= Ei -app_assoc.
Qed.

(** Without a floating pointer structure, or if its table is absent, has the
    wrong signature, version or checksum, mpinit panics. *)
Theorem mpinit_no_table mem inb fuel σ : (∀ a, is_byte (mem a)) →
  (∀ mp, mp_find mem = Some mp → let conf := P2V (mp_physaddr mem mp) in
     mp_physaddr mem mp = 0 ∨ bytes mem conf 4 ≠ str "PCMP" ∨ conf_version mem conf ∉ [1; 4] ∨
     total (bytes mem conf (Z.to_nat (conf_length mem conf))) mod 256 ≠ 0) →
  mpinit mem inb fuel σ = Panic "Expect to run on an SMP" σ.
Proof. intros Hmem H. by rewrite /mpinit (bind_ret _ _ _ _ _ (mpconfig_none mem Hmem σ H)). Qed.

(** C37: An entry of unknown type is not the end of the loop: mpinit never returns,
    and does not report the machine as unsuitable. *)
Theorem mpinit_unknown_spins mem inb mp la es t more n k L w s : (∀ a, is_byte (mem a)) →
  mp_find mem = Some mp → mp_physaddr mem mp ≠ 0 → conf_table mem (P2V (mp_physaddr mem mp)) la es (t :: more) n →
  t ∉ [MPPROC; MPBUS; MPIOAPIC; MPIOINTR; MPLINTR] → length (cpus s) = NCPU → ncpu s = 0 →
  ∀ fuel, mpinit mem inb (length es + fuel) (Kst k L w s) = NoFuel.
Proof.
  intros Hmem Hmp Ha Ht Hu Hl Hn fuel.
  destruct (mpinit_loop mem Hmem mp _ la es _ n inb fuel k L w s Hmp Ha eq_refl Ht Hl Hn) as (s1&_&_&->).
  destruct (table_fields _ _ _ _ _ _ Ht) as (_&_&_&_&En&_&[Et _]%bytes_head).
  rewrite /mbind /K_bind entries_spin //; [simpl; lia|].
  rewrite (_ : _ + n - _ = P2V (mp_physaddr mem mp) + 44 + length (concat (entry_bytes <$> es))); [simpl in *; lia|by rewrite Et].
Qed.


(** ** A machine with two processors *)

Definition demo_mp : list Z :=
  let l c := str "_MP_" ++ le_bytes 4 983056 ++ [1; 4; c; 0; 128; 0; 0; 0] in l ((- total (l 0)) mod 256).
Definition demo_entries : list mpentry :=
  [Processor 0 (replicate 18 1); Processor 4 (replicate 18 2); Other MPBUS (replicate 7 3); IoApic 2 (replicate 6 4)].
Definition demo_header (n c : Z) : list Z :=
  str "PCMP" ++ le_bytes 2 n ++ [4; c] ++ replicate 28 5 ++ le_bytes 4 4276092928 ++ replicate 4 6.
Definition demo_conf (more : list Z) : list Z :=
  let es := concat (entry_bytes <$> demo_entries) ++ more in
  let l c := demo_header (44 + length es) c ++ es in
  l ((- total (l 0)) mod 256).
Definition demo_rom (more : list Z) (a : Z) : Z :=
  if (a <? P2V 983040) || (P2V 983040 + 256 <=? a) then 0
  else default 0 ((demo_mp ++ demo_conf more) !! Z.to_nat (a - P2V 983040)).
Definition demo_start : mpst := Mpst (replicate NCPU 0) 0 0 0 [].

Lemma demo_rom_byte more a : Forall is_byte (demo_mp ++ demo_conf more) → is_byte (demo_rom more a).
Proof.
  intros H. rewrite /demo_rom. destruct (_ || _); [done|]. destruct (_ !! _) eqn:E; [|done]. by eapply Forall_lookup_1 in E.
Qed.

Lemma mpinit_reads_witness :
  ∃ s', mpinit (demo_rom []) (λ _, 0) 5 (Kst (Cpu 0 false 0 false None) ∅ ∅ demo_start) = Ret tt (Kst (Cpu 0 false 0 false None) ∅ ∅ s') ∧
    cpus s' = [0; 4; 0; 0; 0; 0; 0; 0] ∧ ncpu s' = 2 ∧ ioapicid s' = 2 ∧ lapic s' = 4276092928 ∧ imcr s' = [(34, 112); (35, 1)].
Proof.
  destruct (mpinit_reads (demo_rom []) (λ _, 0) (P2V 983040) 4276092928 demo_entries 100 5 (Cpu 0 false 0 false None) ∅ ∅ demo_start)
    as (s'&E&(E1&E2&E3&E4)&E5).
  - intros a. apply demo_rom_byte, (bool_decide_unpack _). by vm_compute.
  - by lazy.
  - by vm_compute.
  - split.
    + by vm_compute.
    + by vm_compute.
    + repeat constructor.
    + by vm_compute.
    + by vm_compute.
    + exists 4, ((- total (demo_header 100 0 ++ concat (entry_bytes <$> demo_entries))) mod 256), (replicate 28 5), (replicate 4 6). split_and!; [by right|done|done|by vm_compute].
  - done.
  - done.
  - simpl. lia.
  - exists s'. split; [exact E|]. split_and!; [exact E1|exact E2|exact E3|exact E4|exact E5].
Defined.

Lemma mpinit_unknown_spins_witness :
  mpinit (demo_rom [9]) (λ _, 0) (length demo_entries + 90) (Kst (Cpu 0 false 0 false None) ∅ ∅ demo_start) = NoFuel.
Proof.
  apply (mpinit_unknown_spins (demo_rom [9]) (λ _, 0) (P2V 983040) 4276092928 demo_entries 9 [] 101).
  - intros a. apply demo_rom_byte, (bool_decide_unpack _). by vm_compute.
  - by lazy.
  - by vm_compute.
  - split.
    + by vm_compute.
    + by vm_compute.
    + repeat constructor.
    + by vm_compute.
    + by vm_compute.
    + exists 4, ((- total (demo_header 101 0 ++ concat (entry_bytes <$> demo_entries) ++ [9])) mod 256), (replicate 28 5), (replicate 4 6).
      split_and!; [by right|done|done|by vm_compute].
  - apply (bool_decide_unpack _). by vm_compute.
  - done.
  - done.
Defined.
