(* ===== verification/Ide.v ===== *)
(** * The IDE disk driver

    Models [src/Xv6-Syscall/src/ide.c].  The controller behind the I/O ports is
    a parameter: [Ports] are the port instructions of x86.h on its state.
    Buffers are named by their index in [bcache.buf], as in Bio.v; [qnext] is
    the field of that name of all buffers. *)

From S2P Require Import Prelude CInt Kernel Params Sleeplock Bio Ioapic.

Definition SECTOR_SIZE : Z := 512.
Definition IDE_BSY : Z := 128.
Definition IDE_DRDY : Z := 64.
Definition IDE_DF : Z := 32.
Definition IDE_ERR : Z := 1.
Definition IDE_CMD_READ : Z := 32.
Definition IDE_CMD_WRITE : Z := 48.
Definition IDE_CMD_RDMUL : Z := 196.
Definition IDE_CMD_WRMUL : Z := 197.

(** [inb], [outb], [insl] and [outsl] on a device with state [D]; the string
    instructions move 32-bit words, given here by their bytes. *)
Class Ports (D : Type) := {
  inb : Z → D → Z * D;
  outb : Z → Z → D → D;
  insl : Z → nat → D → list Z * D;
  outsl : Z → list Z → D → D
}.

Record ide (D : Type) := Ide {
  ibufs : list buf;
  qnext : list (option nat);
  idequeue : option nat;
  havedisk1 : bool;
  iapic : ioapic;
  idev : D
}.
Arguments Ide {D} _ _ _ _ _ _.
Arguments ibufs {D} _.
Arguments qnext {D} _.
Arguments idequeue {D} _.
Arguments havedisk1 {D} _.
Arguments iapic {D} _.
Arguments idev {D} _.

Section Driver.
Context {D : Type} `{Ports D}.
Notation KI := (K (ide D)).

Definition set_ibufs (l : list buf) (s : ide D) : ide D := Ide l (qnext s) (idequeue s) (havedisk1 s) (iapic s) (idev s).
Definition set_qnext (l : list (option nat)) (s : ide D) : ide D := Ide (ibufs s) l (idequeue s) (havedisk1 s) (iapic s) (idev s).
Definition set_idequeue (q : option nat) (s : ide D) : ide D := Ide (ibufs s) (qnext s) q (havedisk1 s) (iapic s) (idev s).
Definition set_havedisk1 (b : bool) (s : ide D) : ide D := Ide (ibufs s) (qnext s) (idequeue s) b (iapic s) (idev s).
Definition set_iapic (a : ioapic) (s : ide D) : ide D := Ide (ibufs s) (qnext s) (idequeue s) (havedisk1 s) a (idev s).
Definition set_idev (d : D) (s : ide D) : ide D := Ide (ibufs s) (qnext s) (idequeue s) (havedisk1 s) (iapic s) d.

Definition ibuf (b : nat) : KI buf := l ← gets ibufs; deref (l !! b).
Definition ibupd (b : nat) (f : buf → buf) : KI unit :=
  _ ← ibuf b; modify (λ s, set_ibufs (alter f b (ibufs s)) s).

(** The sleep lock inside buffer [b]. *)
Definition ibuf_lens (b : nat) : slens (ide D) :=
  SLens (λ s, block_lk <$> ibufs s !! b)
        (λ k s, set_ibufs (alter (set_block_lk k) b (ibufs s)) s).

(** The port instructions. *)
Definition pin (port : Z) : KI Z := λ σ,
  let (v, d) := inb port (idev (kdata σ)) in Ret v (set_data (set_idev d (kdata σ)) σ).
Definition pout (port v : Z) : KI unit := modify (λ s, set_idev (outb port v (idev s)) s).
Definition pinsl (port : Z) (n : nat) : KI (list Z) := λ σ,
  let (l, d) := insl port n (idev (kdata σ)) in Ret l (set_data (set_idev d (kdata σ)) σ).
Definition poutsl (port : Z) (l : list Z) : KI unit := modify (λ s, set_idev (outsl port l (idev s)) s).

(** The polling loop, at most [fuel] times around. *)
Fixpoint idewait (fuel : nat) (checkerr : bool) : KI Z :=
  match fuel with
  | O => nofuel
  | S fuel =>
      r ← pin 503;
      if negb (Z.land r (Z.lor IDE_BSY IDE_DRDY) =? IDE_DRDY) then idewait fuel checkerr else
      if checkerr && negb (Z.land r (Z.lor IDE_DF IDE_ERR) =? 0) then mret (-1) else mret 0
  end.

(** The loop of [ideinit] that looks for disk 1. *)
Fixpoint probe (n : nat) : KI unit :=
  match n with
  | O => mret ()
  | S n => r ← pin 503; if negb (r =? 0) then modify (set_havedisk1 true) else probe n
  end.

Context (fuel : nat).

Definition ideinit (ncpu : Z) : KI unit :=
  initlock Lide;;
  modify (λ s, set_iapic (ioapicenable IRQ_IDE (ncpu - 1) (iapic s)) s);;
  idewait fuel false;;
  pout 502 (Z.lor 224 (Z.shiftl 1 4));;
  probe 1000;;
  pout 502 (Z.lor 224 (Z.shiftl 0 4)).

Definition idestart (b : option nat) : KI unit :=
  match b with
  | None => panic "idestart"
  | Some b =>
      x ← ibuf b;
      if FSSIZE <=? blockno x then panic "incorrect blockno" else
      let sector_per_block := BSIZE / SECTOR_SIZE in
      let sector := s32 (blockno x * sector_per_block) in
      let read_cmd := if sector_per_block =? 1 then IDE_CMD_READ else IDE_CMD_RDMUL in
      let write_cmd := if sector_per_block =? 1 then IDE_CMD_WRITE else IDE_CMD_WRMUL in
      if 7 <? sector_per_block then panic "idestart" else
      idewait fuel false;;
      pout 1014 0;;
      pout 498 sector_per_block;;
      pout 499 (Z.land sector 255);;
      pout 500 (Z.land (Z.shiftr sector 8) 255);;
      pout 501 (Z.land (Z.shiftr sector 16) 255);;
      pout 502 (Z.lor (Z.lor 224 (Z.shiftl (Z.land (bdev x) 1) 4)) (Z.land (Z.shiftr sector 24) 15));;
      if negb (Z.land (flags x) B_DIRTY =? 0) then
        pout 503 write_cmd;;
        poutsl 496 (bdata x)
      else pout 503 read_cmd
  end.

Definition ideintr : KI unit :=
  acquire Lide;;
  q ← gets idequeue;
  match q with
  | None => release Lide
  | Some b =>
      l ← gets qnext;
      n ← deref (l !! b);
      modify (set_idequeue n);;
      x ← ibuf b;
      (if Z.land (flags x) B_DIRTY =? 0 then
         r ← idewait fuel true;
         if 0 <=? r then data ← pinsl 496 (Z.to_nat (BSIZE / 4)); ibupd b (set_bdata data) else mret ()
       else mret ());;
      ibupd b (λ x, set_flags (Z.lor (flags x) B_VALID) x);;
      ibupd b (λ x, set_flags (Z.land (flags x) (Z.lnot B_DIRTY)) x);;
      wakeup (CBuf b);;
      q ← gets idequeue;
      (match q with Some _ => idestart q | None => mret () end);;
      release Lide
  end.

(** [*pp] and [*pp = b] for a pointer to [idequeue] ([None]) or to a buffer's [qnext]. *)
Definition link_get (pp : option nat) : KI (option nat) :=
  match pp with
  | None => gets idequeue
  | Some i => l ← gets qnext; deref (l !! i)
  end.
Definition link_set (pp : option nat) (b : option nat) : KI unit :=
  match pp with
  | None => modify (set_idequeue b)
  | Some i => l ← gets qnext; _ ← deref (l !! i); modify (set_qnext (<[i := b]> l))
  end.

(** [for(pp=&idequeue; *pp; pp=&( *pp)->qnext)] *)
Fixpoint queue_end (n : nat) (pp : option nat) : KI (option nat) :=
  b ← link_get pp;
  match b with
  | None => mret pp
  | Some i => match n with O => nofuel | S n => queue_end n (Some i) end
  end.

(** The loop at the end of [iderw], entered with the lock held; a process that
    is woken enters it again. *)
Definition iderw_wait (b : nat) : KI unit :=
  x ← ibuf b;
  if negb (Z.land (flags x) (Z.lor B_VALID B_DIRTY) =? B_VALID) then sleep (CBuf b) Lide else
  release Lide.

Definition iderw (b : nat) : KI unit :=
  h ← holdingsleep (SBuf b) (ibuf_lens b);
  if negb h then panic "iderw: buf not locked" else
  x ← ibuf b;
  if Z.land (flags x) (Z.lor B_VALID B_DIRTY) =? B_VALID then panic "iderw: nothing to do" else
  d1 ← gets havedisk1;
  if negb (bdev x =? 0) && negb d1 then panic "iderw: ide disk 1 not present" else
  acquire Lide;;
  link_set (Some b) None;;
  pp ← queue_end (S NBUF) None;
  link_set pp (Some b);;
  q ← gets idequeue;
  (if bool_decide (q = Some b) then idestart (Some b) else mret ());;
  iderw_wait b.
End Driver.

(** ** The IDE driver serves its requests in order

    [Ata] states what the driver relies on of the disk controller; [a_step] is
    the abstract driver, a queue of requests, and [ide_refines] says that
    ide.c behaves as the abstract driver under every order of calls, interrupts
    and wake-ups (IdeThms.v). *)

(** ** The disk controller *)

(** The contents of the two drives, by drive and sector. *)
Definition disks := gmap (Z * Z) block.
Definition sector_at (k : disks) (dev s : Z) : block := default zero_block (k !! (dev, s)).

Inductive request := Rd (dev s : Z) | Wr (dev s : Z) (data : block).

(** How a command ends: without error, or with an error that the status
    register shows; a write that fails leaves some contents [x] in its sector. *)
Inductive result := Good | Bad (x : block).

Definition perform (res : result) (r : request) (k : disks) : disks :=
  match r with
  | Rd _ _ => k
  | Wr dev s x => <[(dev, s) := match res with Good => x | Bad y => y end]> k
  end.

(** The registers of a command: the control register, a count of one sector,
    the sector number in four parts, the drive. *)
Definition setup {D} `{Ports D} (dev l0 l1 l2 l3 : Z) (d : D) : D :=
  outb 502 (Z.lor (Z.lor 224 (Z.shiftl dev 4)) l3)
    (outb 501 l2 (outb 500 l1 (outb 499 l0 (outb 498 1 (outb 1014 0 d))))).
Definition lba (l0 l1 l2 l3 : Z) : Z := l0 + 256 * (l1 + 256 * (l2 + 256 * l3)).
Definition lba_ok (dev l0 l1 l2 l3 : Z) : Prop :=
  (dev = 0 ∨ dev = 1) ∧ is_byte l0 ∧ is_byte l1 ∧ is_byte l2 ∧ 0 ≤ l3 < 16.

(** The ATA protocol for commands of one sector in programmed I/O, as the
    standard describes it: a command is written when the status register shows
    neither BSY nor a missing DRDY; the device asks for the data of a write with
    DRQ, and ignores data sent before; it raises its interrupt when a sector to
    read is there or a written one is done, and reports errors in the status
    register. *)
Class Ata (D : Type) `{Ports D} := {
  (* no command in progress; the same, and the status register has shown it *)
  at_rest : D → disks → Prop;
  idle : D → disks → Prop;
  (* does the device ask for data? *)
  drq : D → bool;
  (* a command in progress; a write command that waits for data which were sent too early *)
  working : D → request → disks → Prop;
  lost : D → disks → Prop;
  (* the interrupt of the command was raised; the data of a read can be fetched *)
  finished : D → request → result → disks → Prop;
  ready : D → Z → Z → disks → Prop;
  (* the device raises its interrupt, at the end of a command with that result *)
  raises : result → D → D → Prop;
  (* how often the status register still shows busy *)
  delay : D → nat;
  rest_poll d k : at_rest d k → ∃ r d', inb 503 d = (r, d') ∧
    ((delay d' < delay d)%nat ∧ Z.land r 192 ≠ 64 ∧ at_rest d' k ∨ Z.land r 192 = 64 ∧ idle d' k);
  start_read d k dev l0 l1 l2 l3 : idle d k → lba_ok dev l0 l1 l2 l3 →
    working (outb 503 32 (setup dev l0 l1 l2 l3 d)) (Rd dev (lba l0 l1 l2 l3)) k;
  start_write d k dev l0 l1 l2 l3 x : idle d k → lba_ok dev l0 l1 l2 l3 → length x = Z.to_nat BSIZE →
    let d1 := outb 503 48 (setup dev l0 l1 l2 l3 d) in
    if drq d1 then working (outsl 496 x d1) (Wr dev (lba l0 l1 l2 l3) x) k else lost (outsl 496 x d1) k;
  work_done d d' r k res : working d r k → raises res d d' → finished d' r res (perform res r k);
  lost_quiet d d' k res : lost d k → ¬ raises res d d';
  rest_spurious d d' k res : at_rest d k → raises res d d' → at_rest d' k;
  read_poll d k dev s res : finished d (Rd dev s) res k → ∃ r d', inb 503 d = (r, d') ∧
    ((delay d' < delay d)%nat ∧ Z.land r 192 ≠ 64 ∧ finished d' (Rd dev s) res k ∨
     Z.land r 192 = 64 ∧ match res with
                         | Good => Z.land r 33 = 0 ∧ ready d' dev s k
                         | Bad _ => Z.land r 33 ≠ 0 ∧ at_rest d' k
                         end);
  read_data d k dev s : ready d dev s k → ∃ d', insl 496 128 d = (sector_at k dev s, d') ∧ at_rest d' k;
  write_done d k dev s x res : finished d (Wr dev s x) res k → at_rest d k
}.

(** A command that was given: in progress or lost. *)
Definition started {D} `{Ata D} (d : D) (r : request) (k : disks) : Prop := working d r k ∨ lost d k.

(** ** The abstract driver *)

(** [a_queue] are the waiting buffers, each with the process that waits, the
    active one first; [a_done] those whose request has ended and whose
    process has not yet returned. *)
Record astate := AState { a_disk : disks; a_bufs : list buf; a_queue : list (nat * Z); a_done : list (nat * Z) }.

Definition dirty (x : buf) : bool := negb (Z.land (flags x) B_DIRTY =? 0).
Definition synced (x : buf) : Prop := Z.land (flags x) (Z.lor B_VALID B_DIRTY) = B_VALID.

Definition request_of (x : buf) : request :=
  if dirty x then Wr (bdev x) (blockno x) (bdata x) else Rd (bdev x) (blockno x).

(** The buffer of a request that has ended: a read that failed leaves its old
    contents. *)
Definition fetched (res : result) (k : disks) (x : buf) : buf :=
  if dirty x then x else
  match res with Good => set_bdata (sector_at k (bdev x) (blockno x)) x | Bad _ => x end.

Definition completed (res : result) (k : disks) (x : buf) : buf :=
  set_flags (Z.land (Z.lor (flags x) B_VALID) (Z.lnot B_DIRTY)) (fetched res k x).

(** A buffer with something to do. *)
Definition pending (x : buf) : Prop :=
  (bdev x = 0 ∨ bdev x = 1) ∧ 0 ≤ blockno x < FSSIZE ∧ length (bdata x) = Z.to_nat BSIZE ∧ ¬ synced x.
Definition locked_by (pid : Z) (x : buf) : Prop := slocked (block_lk x) ≠ 0 ∧ spid (block_lk x) = pid.

#[global] Instance pending_dec x : Decision (pending x).
Proof. unfold pending, synced. apply _. Defined.
#[global] Instance locked_by_dec pid x : Decision (locked_by pid x).
Proof. unfold locked_by. apply _. Defined.

(** Calls of [iderw], interrupts of the disk, and processes that continue after
    a sleep, woken by the driver or by [kill]. *)
Inductive event := Request (pid : Z) (b : nat) | Interrupt (res : result) | Wake (pid : Z) (b : nat).

Definition a_step (e : event) (a : astate) : option astate :=
  match e with
  | Request pid b =>
      x ← a_bufs a !! b;
      if decide (pending x ∧ locked_by pid x ∧ b ∉ (a_queue a ++ a_done a).*1 ∧ pid ∉ (a_queue a ++ a_done a).*2)
      then Some (AState (a_disk a) (a_bufs a) (a_queue a ++ [(b, pid)]) (a_done a)) else None
  | Interrupt res =>
      match a_queue a with
      | [] => Some a
      | (b, pid) :: q =>
          x ← a_bufs a !! b;
          Some (AState (perform res (request_of x) (a_disk a)) (<[b := completed res (a_disk a) x]> (a_bufs a)) q ((b, pid) :: a_done a))
      end
  | Wake pid b =>
      if decide ((b, pid) ∈ a_queue a) then Some a else
      if decide ((b, pid) ∈ a_done a) then Some (AState (a_disk a) (a_bufs a) (a_queue a) (filter (λ w, w ≠ (b, pid)) (a_done a)))
      else None
  end.

Definition a_steps (es : list event) (a : astate) : option astate := foldl (λ oa e, oa ≫= a_step e) (Some a) es.

(** ** Runs of ide.c *)

Section Runs.
Context {D : Type} `{Ata D} (fuel : nat).

Definition as_proc (pid : Z) (σ : kst (ide D)) : kst (ide D) :=
  let c := kcpu σ in Kst (Cpu (apicid c) (eif c) (ncli c) (intena c) (Some pid)) (klocks σ) (kslp σ) (kdata σ).

(** [sleep] gives the lock back and puts the process to sleep. *)
Definition fall_asleep (pid : Z) (ch : chan) (lk : lockid) (Q : kst (ide D) → Prop) : kst (ide D) → Prop :=
  wp (release lk) (λ _ σ, Q (set_slp (<[pid := ch]> (kslp σ)) σ)).

(** A process that continues in [sleep] takes the lock and tests again. *)
Definition iderw_resume (b : nat) : K (ide D) unit := acquire Lide;; iderw_wait b.

Fixpoint runs (es : list event) (Q : kst (ide D) → Prop) (σ : kst (ide D)) : Prop :=
  match es with
  | [] => Q σ
  | Request pid b :: es =>
      match iderw fuel b (as_proc pid σ) with
      | Sleep ch lk σ' => ch = CBuf b ∧ lk = Lide ∧ fall_asleep pid ch lk (runs es Q) σ'
      | _ => False
      end
  | Interrupt res :: es =>
      ∀ d', raises res (idev (kdata σ)) d' → wp (ideintr fuel) (λ _, runs es Q) (set_data (set_idev d' (kdata σ)) σ)
  | Wake pid b :: es =>
      match iderw_resume b (as_proc pid (set_slp (delete pid (kslp σ)) σ)) with
      | Ret _ σ' => runs es Q σ'
      | Sleep ch lk σ' => ch = CBuf b ∧ lk = Lide ∧ fall_asleep pid ch lk (runs es Q) σ'
      | _ => False
      end
  end.

(** The queue through [qnext]. *)
Fixpoint links (qn : list (option nat)) (p : option nat) (q : list nat) : Prop :=
  match q with
  | [] => p = None
  | b :: q => p = Some b ∧ ∃ n, qn !! b = Some n ∧ links qn n q
  end.

(** The driver's state and the abstract one. *)
Record R (σ : kst (ide D)) (a : astate) : Prop := {
  r_cpu : cpu_ok (kcpu σ);
  r_locks : klocks σ = ∅;
  r_slp pid b : kslp σ !! pid = Some (CBuf b) ↔ (b, pid) ∈ a_queue a;
  r_bufs : ibufs (kdata σ) = a_bufs a;
  r_len : length (a_bufs a) = NBUF;
  r_qlen : length (qnext (kdata σ)) = NBUF;
  r_disk1 : havedisk1 (kdata σ) = true;
  r_links : links (qnext (kdata σ)) (idequeue (kdata σ)) (a_queue a).*1;
  r_nodup1 : NoDup (a_queue a ++ a_done a).*1;
  r_nodup2 : NoDup (a_queue a ++ a_done a).*2;
  r_queue : Forall (λ w, ∃ x, a_bufs a !! w.1 = Some x ∧ pending x) (a_queue a);
  r_done : Forall (λ w, ∃ x, a_bufs a !! w.1 = Some x ∧ synced x) (a_done a);
  r_dev : match a_queue a with
          | [] => at_rest (idev (kdata σ)) (a_disk a)
          | (b, _) :: _ => ∃ x, a_bufs a !! b = Some x ∧ started (idev (kdata σ)) (request_of x) (a_disk a)
          end
}.

(** ** The device operations *)

Lemma pin_run c L w (s : ide D) r d' : inb 503 (idev s) = (r, d') →
  pin 503 (Kst c L w s) = Ret r (Kst c L w (set_idev d' s)).
Proof. intros E. by rewrite /pin /= E. Qed.

Lemma idewait_rest n c L w (s : ide D) k : at_rest (idev s) k → (delay (idev s) < n)%nat →
  ∃ d', idewait n false (Kst c L w s) = Ret 0 (Kst c L w (set_idev d' s)) ∧ idle d' k.
Proof.
  revert s. induction n as [|n IH]; intros s Hr Hd; [lia|]. cbn [idewait].
  destruct (rest_poll _ _ Hr) as (r&d1&E&Hp). rewrite (bind_ret _ _ _ _ _ (pin_run c L w s r d1 E)).
  change (Z.lor IDE_BSY IDE_DRDY) with 192. change IDE_DRDY with 64. destruct Hp as [(Hlt&Hb&Hr1)|[Hb Hi]].
  - rewrite (proj2 (Z.eqb_neq _ _) Hb). cbn [negb]. destruct (IH (set_idev d1 s)) as (d2&E2&Hr2); [done|simpl; lia|]. by exists d2.
  - rewrite Hb. by exists d1.
Qed.

Lemma idewait_read n c L w (s : ide D) dev sec res k : finished (idev s) (Rd dev sec) res k → (delay (idev s) < n)%nat →
  ∃ d', idewait n true (Kst c L w s) = Ret (match res with Good => 0 | Bad _ => -1 end) (Kst c L w (set_idev d' s)) ∧
    match res with Good => ready d' dev sec k | Bad _ => at_rest d' k end.
Proof.
  revert s. induction n as [|n IH]; intros s Hr Hd; [lia|]. cbn [idewait].
  destruct (read_poll _ _ _ _ _ Hr) as (r&d1&E&Hp). rewrite (bind_ret _ _ _ _ _ (pin_run c L w s r d1 E)).
  change (Z.lor IDE_BSY IDE_DRDY) with 192. change IDE_DRDY with 64. change (Z.lor IDE_DF IDE_ERR) with 33.
  destruct Hp as [(Hlt&Hb&Hr1)|[Hb He]].
  - rewrite (proj2 (Z.eqb_neq _ _) Hb). cbn [negb]. destruct (IH (set_idev d1 s)) as (d2&E2&Hr2); [done|simpl; lia|]. by exists d2.
  - rewrite Hb. cbn [negb Z.eqb andb]. exists d1. destruct res; destruct He as [He Hd1]; [by rewrite He|].
    by rewrite (proj2 (Z.eqb_neq _ _) He).
Qed.

Lemma sector_parts n : 0 ≤ n < FSSIZE →
  lba_ok 0 (Z.land n 255) (Z.land (Z.shiftr n 8) 255) (Z.land (Z.shiftr n 16) 255) (Z.land (Z.shiftr n 24) 15) ∧
  lba (Z.land n 255) (Z.land (Z.shiftr n 8) 255) (Z.land (Z.shiftr n 16) 255) (Z.land (Z.shiftr n 24) 15) = n.
Proof.
  intros Hn. unfold FSSIZE in Hn. change 255 with (Z.ones 8). change 15 with (Z.ones 4).
  rewrite !Z.land_ones ?Z.shiftr_div_pow2; try lia. rewrite /lba_ok /lba /is_byte. Z.div_mod_to_equations. lia.
Qed.

Lemma idestart_run n c L w (s : ide D) b x k :
  ibufs s !! b = Some x → pending x → at_rest (idev s) k → (delay (idev s) < n)%nat →
  ∃ d', idestart n (Some b) (Kst c L w s) = Ret tt (Kst c L w (set_idev d' s)) ∧ started d' (request_of x) k.
Proof.
  intros Hx (Hdev&Hbn&Hlen&_) Hr Hd. rewrite /idestart.
  assert (ibuf b (Kst c L w s) = Ret x (Kst c L w s)) as Eb by by rewrite /ibuf /mbind /K_bind /= Hx.
  rewrite (bind_ret _ _ _ _ _ Eb) (proj2 (Z.leb_gt _ _)); [apply Hbn|].
  change (BSIZE / SECTOR_SIZE) with 1. change (7 <? 1) with false. cbv iota zeta.
  destruct (idewait_rest n c L w s k Hr Hd) as (d1&E1&Hr1). rewrite (bind_ret _ _ _ _ _ E1).
  assert (s32 (blockno x * 1) = blockno x) as ->.
  { rewrite Z.mul_1_r /s32 /sext. unfold FSSIZE in Hbn. rewrite Z.mod_small; [lia|]. by rewrite (proj2 (Z.ltb_lt _ _)); [lia|]. }
  destruct (sector_parts (blockno x) Hbn) as [(_&Hb0&Hb1&Hb2&Hb3) Hl].
  assert (Z.land (bdev x) 1 = bdev x) as -> by (destruct Hdev as [->| ->]; done).
  set (d2 := setup (bdev x) (Z.land (blockno x) 255) (Z.land (Z.shiftr (blockno x) 8) 255) (Z.land (Z.shiftr (blockno x) 16) 255)
               (Z.land (Z.shiftr (blockno x) 24) 15) d1).
  rewrite /request_of /dirty. destruct (negb (Z.land (flags x) B_DIRTY =? 0)).
  - exists (outsl 496 (bdata x) (outb 503 48 d2)). split; [reflexivity|]. rewrite -{1}Hl.
    pose proof (start_write d1 k (bdev x) _ _ _ _ (bdata x) Hr1 (conj Hdev (conj Hb0 (conj Hb1 (conj Hb2 Hb3)))) Hlen) as Hw.
    cbv zeta in Hw. rewrite -/d2 in Hw. destruct (drq _); [by left|by right].
  - exists (outb 503 32 d2). split; [reflexivity|]. rewrite -{1}Hl. left. by apply start_read.
Qed.

(** ** The queue *)

Lemma links_insert qn p q b v : b ∉ q → links qn p q → links (<[b := v]> qn) p q.
Proof.
  revert p. induction q as [|i q IH]; intros p Hb; [done|]. apply not_elem_of_cons in Hb as [Hi Hb].
  intros (->&n&Hn&Hl). split; [done|]. exists n. rewrite list_lookup_insert_ne //. split; [done|by apply IH].
Qed.

(** Linking [b], whose [qnext] is null, behind the last buffer. *)
Lemma links_snoc qn p q b i : qn !! b = Some None → NoDup (q ++ [b]) → last q = Some i → links qn p q →
  links (<[i := Some b]> qn) p (q ++ [b]).
Proof.
  intros Hb. revert p. induction q as [|j q IH]; intros p Hnd Hlast; [done|]. intros (->&n&Hn&Hl). split; [done|].
  inversion Hnd as [|?? Hj Hnd']; subst. destruct q as [|j' q].
  - injection Hlast as ->. simpl in Hl. subst n. exists (Some b). split; [rewrite list_lookup_insert_eq //; by eapply lookup_lt_Some|].
    split; [done|]. exists None. rewrite list_lookup_insert_ne //. intros ->. set_solver.
  - exists n. change (last (j' :: q) = Some i) in Hlast.
    assert (i ≠ j) by (intros ->; pose proof Hlast as [l' E]%last_Some; rewrite E in Hj; set_solver).
    rewrite list_lookup_insert_ne //. split; [done|]. by apply IH.
Qed.

Lemma queue_end_run n c L w (s : ide D) pp p q : link_get pp (Kst c L w s) = Ret p (Kst c L w s) → links (qnext s) p q →
  (length q ≤ n)%nat → queue_end n pp (Kst c L w s) = Ret (match last q with Some i => Some i | None => pp end) (Kst c L w s).
Proof.
  revert pp p q. induction n as [|n IH]; intros pp p q Hg Hl Hn; cbn [queue_end]; rewrite (bind_ret _ _ _ _ _ Hg).
  - destruct q; [|simpl in Hn; lia]. by simpl in Hl; subst p.
  - destruct q as [|b q]; [by simpl in Hl; subst p|]. destruct Hl as (->&m&Hm&Hl).
    rewrite (IH (Some b) m q) //; [by rewrite /link_get /mbind /K_bind /= Hm|simpl in Hn; lia|].
    rewrite last_cons. by destruct (last q).
Qed.

(** The part of [iderw] that puts the buffer into the queue. *)
Lemma enqueue_run c L w (s : ide D) b q : links (qnext s) (idequeue s) q → NoDup (q ++ [b]) → (b < length (qnext s))%nat →
  (length q ≤ S NBUF)%nat →
  ∃ qn p, (link_set (Some b) None;; pp ← queue_end (S NBUF) None; link_set pp (Some b)) (Kst c L w s) =
      Ret tt (Kst c L w (set_idequeue p (set_qnext qn s))) ∧
    links qn p (q ++ [b]) ∧ length qn = length (qnext s) ∧ (q ≠ [] → p = idequeue s).
Proof.
  intros Hl Hnd Hb Hq. destruct (lookup_lt_is_Some_2 _ _ Hb) as [v Hv].
  assert (b ∉ q) as Hbq by (apply NoDup_app in Hnd as (_&H1&_); intros Hin; apply (H1 b Hin); set_solver).
  set (qn := <[b := None]> (qnext s)). assert (qn !! b = Some None) as Hqb by by rewrite list_lookup_insert_eq.
  assert (link_set (Some b) None (Kst c L w s) = Ret tt (Kst c L w (set_qnext qn s))) as E1.
  { rewrite /link_set /mbind /K_bind /= Hv //. }
  rewrite (bind_ret _ _ _ _ _ E1).
  rewrite (bind_ret _ _ _ _ _ (queue_end_run (S NBUF) c L w (set_qnext qn s) None (idequeue s) q eq_refl (links_insert _ _ _ _ _ Hbq Hl) Hq)).
  destruct (last q) as [i|] eqn:Elast.
  - assert (i ∈ q) as Hi by (apply last_Some in Elast as [l' ->]; set_solver).
    assert (is_Some (qn !! i)) as [u Hu].
    { clear -Hl Hi Hbq. subst qn. revert Hl. generalize (idequeue s). induction q as [|j q IH]; intros p; [set_solver|].
      intros (_&n&Hn&Hl). apply not_elem_of_cons in Hbq as [??]. apply elem_of_cons in Hi as [->|Hi]; [|by eapply IH].
      rewrite list_lookup_insert_ne //. }
    exists (<[i := Some b]> qn), (idequeue s). split_and!; [by rewrite /link_set /mbind /K_bind /= Hu| | |done].
    + apply links_snoc; [done|done|done|by apply links_insert].
    + by rewrite !length_insert.
  - apply last_None in Elast. subst q. exists qn, (Some b). split_and!; [done| |by rewrite length_insert|done].
    split; [done|]. by exists None.
Qed.

(** ** The three events *)

Lemma holding_ok pid b x c w (s : ide D) : cpu_ok c → cproc c = Some pid → ibufs s !! b = Some x → locked_by pid x →
  holdingsleep (SBuf b) (ibuf_lens b) (Kst c ∅ w s) = Ret true (Kst c ∅ w s).
Proof.
  intros Hc Hp Hx [Hl Hs].
  destruct (wp_inv (holdingsleep (SBuf b) (ibuf_lens b)) (λ h σ, h = true ∧ σ = Kst c ∅ w s) (Kst c ∅ w s)) as (h&σ&E&->&->); [|done].
  eapply (holdingsleep_wp _ _ pid (block_lk x)); [done|by rewrite /= Hx|]. split; [|done].
  by rewrite (proj2 (Z.eqb_neq _ _) Hl) Hs Z.eqb_refl.
Qed.

Lemma enqueue_bind {A} (m : K (ide D) A) σ σ' b :
  (link_set (Some b) None;; pp ← queue_end (S NBUF) None; link_set pp (Some b)) σ = Ret tt σ' →
  (link_set (Some b) None;; pp ← queue_end (S NBUF) None; link_set pp (Some b);; m) σ = m σ'.
Proof.
  rewrite /mbind /K_bind. destruct (link_set (Some b) None σ) as [[] σ1| | | | | |]; try done.
  destruct (queue_end (S NBUF) None σ1) as [pp σ2| | | | | |]; try done. by intros ->.
Qed.

Context (Hfuel : ∀ d, (delay d < fuel)%nat).

(** Starting the device if the new request is the only one. *)
Lemma start_if c L w (s : ide D) b q x k : idequeue s = hd_error (q ++ [b]) → b ∉ q → ibufs s !! b = Some x → pending x →
  (q = [] → at_rest (idev s) k) →
  ∃ d', (if bool_decide (idequeue s = Some b) then idestart fuel (Some b) else mret ()) (Kst c L w s) = Ret tt (Kst c L w (set_idev d' s)) ∧
    (q = [] → started d' (request_of x) k) ∧ (q ≠ [] → d' = idev s).
Proof.
  intros -> Hb Hx Hp Hr. destruct q as [|b0 q]; simpl.
  - rewrite bool_decide_eq_true_2 //. destruct (idestart_run fuel c L w s b x k Hx Hp (Hr eq_refl) (Hfuel _)) as (d'&E&Hw). by exists d'.
  - rewrite bool_decide_eq_false_2; [set_solver|]. exists (idev s). split_and!; [by destruct s|done|done].
Qed.

Lemma links_head qn p q : links qn p q → p = hd_error q.
Proof. destruct q; [done|]. by intros [-> _]. Qed.

Lemma ibuf_run b x c L w (s : ide D) : ibufs s !! b = Some x → ibuf b (Kst c L w s) = Ret x (Kst c L w s).
Proof. intros E. by rewrite /ibuf /mbind /K_bind /= E. Qed.

Lemma queue_nodup σ a : R σ a → NoDup (a_queue a).*1.
Proof. intros HR. pose proof (r_nodup1 _ _ HR) as Hn. rewrite fmap_app in Hn. by apply NoDup_app in Hn as [? _]. Qed.

Lemma queue_len σ a : R σ a → (length (a_queue a).*1 ≤ NBUF)%nat.
Proof.
  intros HR. rewrite -(length_seq NBUF 0). apply submseteq_length, NoDup_submseteq.
  - by eapply queue_nodup.
  - intros b ((b'&pid)&->&Hin)%list_elem_of_fmap. pose proof (r_queue _ _ HR) as Hq. rewrite Forall_forall in Hq.
    destruct (Hq _ Hin) as (x&Hx%lookup_lt_Some&_). rewrite (r_len _ _ HR) in Hx. apply elem_of_seq. simpl in *. lia.
Qed.

(** The request's effect on the relation. *)
Lemma request_R c w (s : ide D) a pid b x qn p d' :
  R (Kst c ∅ w s) a → a_bufs a !! b = Some x → pending x → b ∉ (a_queue a ++ a_done a).*1 → pid ∉ (a_queue a ++ a_done a).*2 →
  links qn p ((a_queue a).*1 ++ [b]) → length qn = length (qnext s) →
  (a_queue a = [] → started d' (request_of x) (a_disk a)) → (a_queue a ≠ [] → d' = idev s) →
  R (Kst (Cpu (apicid c) (eif c) (ncli c) (intena c) (Some pid)) ∅ (<[pid := CBuf b]> w) (set_idev d' (set_idequeue p (set_qnext qn s))))
    (AState (a_disk a) (a_bufs a) (a_queue a ++ [(b, pid)]) (a_done a)).
Proof.
  intros [Hc HL Hslp Hbufs Hlen Hqlen Hd1 Hl Hnd1 Hnd2 Hq Hdone Hdev] Hx Hp Hb Hpid Hl' Hlq Hw Hi. simpl in *.
  assert (a_queue a ++ [(b, pid)] ++ a_done a ≡ₚ (b, pid) :: a_queue a ++ a_done a) as Hperm by by rewrite -Permutation_middle.
  split; simpl; try done.
  - intros pid' b'. rewrite elem_of_app list_elem_of_singleton. destruct (decide (pid' = pid)) as [->|Hne].
    + rewrite lookup_insert_eq. split; [intros [= ->]; by right|]. intros [Hin|[= ->]]; [|done]. destruct Hpid.
      apply list_elem_of_fmap. exists (b', pid). set_solver.
    + rewrite lookup_insert_ne // Hslp. set_solver.
  - by rewrite Hlq.
  - by rewrite fmap_app.
  - rewrite -app_assoc Hperm /=. by constructor.
  - rewrite -app_assoc Hperm /=. by constructor.
  - apply Forall_app. split; [done|]. apply Forall_cons. split; [by exists x|done].
  - destruct (a_queue a) as [|[b0 p0] q]; simpl; [exists x; eauto|]. rewrite Hi //.
Qed.

Lemma request_ok pid b σ a a' : R σ a → a_step (Request pid b) a = Some a' →
  ∃ σ', iderw fuel b (as_proc pid σ) = Sleep (CBuf b) Lide σ' ∧ fall_asleep pid (CBuf b) Lide (λ σ, R σ a') σ'.
Proof.
  destruct σ as [c L w s]. intros HR. pose proof (r_locks _ _ HR) as HL. simpl in HL. subst L.
  rewrite /a_step. destruct (a_bufs a !! b) as [x|] eqn:Hx; [|done]. cbn [mbind option_bind].
  case_decide as Hpre; [|done]. intros [= <-]. destruct Hpre as (Hp&Hlk&Hb&Hpid).
  set (c' := Cpu (apicid c) (eif c) (ncli c) (intena c) (Some pid)).
  assert (cpu_ok c') as Hc' by apply (r_cpu _ _ HR). pose proof (r_bufs _ _ HR) as Hbufs. simpl in Hbufs.
  assert (ibufs s !! b = Some x) as Hx' by by rewrite Hbufs.
  rewrite /iderw /as_proc /= -/c' (bind_ret _ _ _ _ _ (holding_ok pid b x c' w s Hc' eq_refl Hx' Hlk)).
  cbn [negb]. rewrite (bind_ret _ _ _ _ _ (ibuf_run b x c' ∅ w s Hx')).
  pose proof Hp as (_&_&_&Hns). rewrite (proj2 (Z.eqb_neq _ _) Hns). cbn [negb].
  rewrite (bind_ret (gets havedisk1) _ _ true (Kst c' ∅ w s)); [by rewrite /gets (r_disk1 _ _ HR)|]. rewrite andb_false_r.
  rewrite (bind_ret _ _ _ _ _ (acquire_run Lide c' ∅ w s Hc' (lookup_empty _))).
  assert (b ∉ (a_queue a).*1) as Hbq by (rewrite fmap_app in Hb; set_solver).
  destruct (enqueue_run (pushed c') (<[Lide := apicid c']> ∅) w s b (a_queue a).*1) as (qn&p&E1&Hl1&Hlq&_).
  { apply (r_links _ _ HR). }
  { apply NoDup_app. split_and!; [|set_solver|apply NoDup_singleton]. by eapply queue_nodup. }
  { apply lookup_lt_Some in Hx. rewrite (r_qlen _ _ HR) -(r_len _ _ HR) //. }
  { pose proof (queue_len _ _ HR). lia. }
  rewrite (enqueue_bind _ _ _ _ E1). set (s1 := set_idequeue p (set_qnext qn s)).
  rewrite (bind_ret (gets idequeue) _ _ p (Kst (pushed c') (<[Lide := apicid c']> ∅) w s1)) //.
  destruct (start_if (pushed c') (<[Lide := apicid c']> ∅) w s1 b (a_queue a).*1 x (a_disk a)) as (d'&E2&Hw&Hi).
  { by apply links_head in Hl1. } { done. } { done. } { done. }
  { intros E%fmap_nil_inv. pose proof (r_dev _ _ HR) as Hdev. rewrite E in Hdev. done. }
  change (idequeue s1) with p in E2. rewrite (bind_ret _ _ _ _ _ E2) /iderw_wait.
  rewrite (bind_ret _ _ _ _ _ (ibuf_run b x _ _ w (set_idev d' s1) Hx')) (proj2 (Z.eqb_neq _ _) Hns). cbn [negb].
  eexists. split; [reflexivity|]. rewrite /fall_asleep.
  eapply wp_eq; [apply release_run; [done|by rewrite lookup_insert_eq]|]. rewrite delete_insert_id //=.
  eapply request_R; [done..| |]; [intros E; apply Hw; by rewrite E|intros E; apply Hi]. by destruct (a_queue a).
Qed.

(** ** Interrupts *)

Lemma synced_completed res k x : synced (completed res k x).
Proof.
  rewrite /synced /completed /=.
  change (Z.lor B_VALID B_DIRTY) with 6. unfold B_VALID, B_DIRTY. apply Z.bits_inj'. intros n Hn.
  rewrite !Z.land_spec Z.lor_spec Z.lnot_spec //. destruct (decide (n = 1)) as [->|H1]; [by rewrite orb_true_r|].
  destruct (decide (n = 2)) as [->|H2]; [by rewrite !andb_false_r|].
  assert (Z.testbit 6 n = false) as ->.
  { destruct (decide (n = 0)) as [->|]; [done|]. apply Z.bits_above_log2; [done|]. change (Z.log2 6) with 2. lia. }
  rewrite andb_false_r. symmetry. destruct (decide (n = 0)) as [->|]; [done|]. apply Z.bits_above_log2; [done|]. change (Z.log2 2) with 1. lia.
Qed.

Lemma ibupd_run b x f c L w (s : ide D) : ibufs s !! b = Some x →
  ibupd b f (Kst c L w s) = Ret tt (Kst c L w (set_ibufs (<[b := f x]> (ibufs s)) s)).
Proof.
  intros Hx. rewrite /ibupd (bind_ret _ _ _ _ _ (ibuf_run b x c L w s Hx)). rewrite /modify /set_data /=. do 3 f_equal.
  apply list_eq. intros i. destruct (decide (i = b)) as [->|Hne].
  - rewrite list_lookup_alter_eq Hx list_lookup_insert_eq //. by eapply lookup_lt_Some.
  - by rewrite list_lookup_alter_ne // list_lookup_insert_ne.
Qed.

(** The transfer of the data of a read request. *)
Lemma transfer_run c L w (s : ide D) b x res k : ibufs s !! b = Some x →
  finished (idev s) (request_of x) res (perform res (request_of x) k) →
  ∃ d', (if Z.land (flags x) B_DIRTY =? 0 then
           r ← idewait fuel true;
           if 0 <=? r then data ← pinsl 496 (Z.to_nat (BSIZE / 4)); ibupd b (set_bdata data) else mret ()
         else mret ()) (Kst c L w s) =
      Ret tt (Kst c L w (set_idev d' (set_ibufs (<[b := fetched res k x]> (ibufs s)) s))) ∧
    at_rest d' (perform res (request_of x) k).
Proof.
  intros Hx. rewrite /request_of /fetched /dirty. destruct (Z.land (flags x) B_DIRTY =? 0); cbn [negb perform]; intros Hf.
  - destruct (idewait_read fuel c L w s _ _ _ _ Hf (Hfuel _)) as (d1&E1&Hf1). rewrite (bind_ret _ _ _ _ _ E1).
    destruct res as [|y].
    + change (0 <=? 0) with true. cbv iota. destruct (read_data _ _ _ _ Hf1) as (d2&E2&Hr). exists d2.
      assert (pinsl 496 (Z.to_nat (BSIZE / 4)) (Kst c L w (set_idev d1 s)) =
        Ret (sector_at k (bdev x) (blockno x)) (Kst c L w (set_idev d2 s))) as E3.
      { rewrite /pinsl. cbn [kdata]. change (idev (set_idev d1 s)) with d1. change (Z.to_nat (BSIZE / 4)) with 128%nat. by rewrite E2. }
      rewrite (bind_ret _ _ _ _ _ E3) (ibupd_run b x) //.
    + exists d1. split; [|done]. rewrite list_insert_id //.
  - exists (idev s). split; [|by eapply write_done]. rewrite list_insert_id //. by destruct s.
Qed.

(** Starting the next request. *)
Lemma next_run c L w (s : ide D) q k : idequeue s = hd_error q →
  Forall (λ b, ∃ x, ibufs s !! b = Some x ∧ pending x) q → at_rest (idev s) k →
  ∃ d', match idequeue s with Some _ => idestart fuel (idequeue s) | None => mret () end (Kst c L w s) = Ret tt (Kst c L w (set_idev d' s)) ∧
    match q with [] => at_rest d' k | b :: _ => ∃ x, ibufs s !! b = Some x ∧ started d' (request_of x) k end.
Proof.
  intros -> Hq Hr. destruct q as [|b q]; simpl; [exists (idev s); split; [by destruct s|done]|].
  inversion Hq as [|?? (x&Hx&Hp) _]; subst. destruct (idestart_run fuel c L w s b x k Hx Hp Hr (Hfuel _)) as (d'&E&Hw).
  exists d'. split; [done|]. by exists x.
Qed.

(** The effect of a completed request on the relation. *)
Lemma interrupt_R c w (s : ide D) a b pid q x n res d' :
  R (Kst c ∅ w s) a → a_queue a = (b, pid) :: q → a_bufs a !! b = Some x → qnext s !! b = Some n →
  let bs := <[b := completed res (a_disk a) x]> (a_bufs a) in let k := perform res (request_of x) (a_disk a) in
  match q.*1 with [] => at_rest d' k | b2 :: _ => ∃ y, bs !! b2 = Some y ∧ started d' (request_of y) k end →
  R (Kst c ∅ (filter (λ kv, kv.2 ≠ CBuf b) w) (set_idev d' (set_ibufs bs (set_idequeue n s)))) (AState k bs q ((b, pid) :: a_done a)).
Proof.
  intros [Hc HL Hslp Hbufs Hlen Hqlen Hd1 Hl Hnd1 Hnd2 Hq Hdone Hdev] Eq Hx Hn bs k Hd'. simpl in *. rewrite Eq in Hslp Hl Hnd1 Hnd2 Hq.
  assert (b ∉ (q ++ a_done a).*1) as Hb by by apply NoDup_cons in Hnd1 as [? _].
  assert (∀ b' p' y, (b', p') ∈ q ++ a_done a → a_bufs a !! b' = Some y → bs !! b' = Some y) as Hkeep.
  { intros b' p' y Hin Hy. rewrite list_lookup_insert_ne //. intros ->. apply Hb, list_elem_of_fmap. by exists (b', p'). }
  assert (q ++ (b, pid) :: a_done a ≡ₚ (b, pid) :: q ++ a_done a) as Hperm by by rewrite -Permutation_middle.
  split; simpl; try done.
  - intros pid' b'. rewrite map_lookup_filter_Some Hslp /= elem_of_cons. split.
    + intros [[[= -> ->]|Hin] Hne]; [by destruct Hne|done].
    + intros Hin. split; [by right|]. intros [= ->]. apply Hb, list_elem_of_fmap. exists (b, pid'). set_solver.
  - by rewrite length_insert.
  - destruct Hl as (_&n'&Hn'&Hl). rewrite Hn in Hn'. by injection Hn' as ->.
  - by rewrite Hperm.
  - by rewrite Hperm.
  - apply Forall_cons in Hq as [_ Hq]. rewrite !Forall_forall in Hq |- *. intros [b' p'] Hin. destruct (Hq _ Hin) as (y&Hy&Hp).
    exists y. split; [apply (Hkeep _ p'); [set_solver|done]|done].
  - apply Forall_cons. split.
    + exists (completed res (a_disk a) x). split; [|apply synced_completed]. apply list_lookup_insert_eq. by eapply lookup_lt_Some.
    + rewrite !Forall_forall in Hdone |- *. intros [b' p'] Hin. destruct (Hdone _ Hin) as (y&Hy&Hp).
      exists y. split; [apply (Hkeep _ p'); [set_solver|done]|done].
  - by destruct q as [|[b2 p2] q].
Qed.

(** The requests behind the completed one are untouched. *)
Lemma queue_kept σ a b pid q x : R σ a → a_queue a = (b, pid) :: q →
  Forall (λ b', ∃ y, (<[b := x]> (a_bufs a)) !! b' = Some y ∧ pending y) q.*1.
Proof.
  intros HR Eq. pose proof (queue_nodup _ _ HR) as Hnd. pose proof (r_queue _ _ HR) as Hq. rewrite Eq in Hnd Hq.
  apply Forall_cons in Hq as [_ Hq]. apply NoDup_cons in Hnd as [Hb _]. rewrite !Forall_forall in Hq |- *.
  intros b' Hin. pose proof Hin as ((b''&p')&->&Hin')%list_elem_of_fmap. destruct (Hq _ Hin') as (y&Hy&Hp). exists y.
  rewrite list_lookup_insert_ne //. intros ->. done.
Qed.

Lemma interrupt_ok σ a a' res d' : R σ a → a_step (Interrupt res) a = Some a' → raises res (idev (kdata σ)) d' →
  wp (ideintr fuel) (λ _ σ', R σ' a') (set_data (set_idev d' (kdata σ)) σ).
Proof.
  destruct σ as [c L w s]. intros HR Hstep Hrs. pose proof (r_locks _ _ HR) as HL. simpl in HL. subst L. simpl in Hrs.
  rewrite /set_data /=. pose proof (r_cpu _ _ HR) as Hc. simpl in Hc. pose proof (r_links _ _ HR) as Hl. simpl in Hl.
  pose proof (r_dev _ _ HR) as Hdev. simpl in Hdev. rewrite /ideintr.
  apply wp_bind. apply wp_acquire; [done|done|]. apply wp_bind, wp_gets. cbn [kdata].
  change (idequeue (set_idev d' s)) with (idequeue s). rewrite /a_step in Hstep.
  destruct (a_queue a) as [|[b pid] q] eqn:Eq.
  { injection Hstep as <-. simpl in Hl. rewrite Hl. apply wp_release_last; [done|done|].
    destruct HR as [????????????? ]. split; simpl in *; try done; rewrite ?Eq //. by eapply rest_spurious. }
  destruct Hl as (->&n&Hn&Hl). destruct Hdev as (x&Hx&[Hw|Hlost]);
    [|by destruct (lost_quiet _ _ _ _ Hlost Hrs)]. rewrite Hx in Hstep. cbn [mbind option_bind] in Hstep. injection Hstep as <-.
  pose proof (r_bufs _ _ HR) as Hbufs. simpl in Hbufs. assert (ibufs s !! b = Some x) as Hx' by by rewrite Hbufs.
  apply wp_bind, wp_gets. apply wp_bind. eapply wp_deref; [exact Hn|]. apply wp_bind, wp_modify. kst_simpl.
  apply wp_bind. eapply wp_eq; [by apply ibuf_run|].
  destruct (transfer_run (pushed c) (<[Lide := apicid c]> ∅) w (set_idequeue n (set_idev d' s)) b x res (a_disk a) Hx') as (d1&E1&Hr1).
  { by eapply work_done. }
  apply wp_bind. eapply wp_eq; [exact E1|]. set (x1 := fetched res (a_disk a) x).
  assert ((<[b := x1]> (ibufs s)) !! b = Some x1) as Hx1 by (apply list_lookup_insert_eq; by eapply lookup_lt_Some).
  apply wp_bind. eapply wp_eq; [by apply (ibupd_run b x1)|]. apply wp_bind. eapply wp_eq.
  { apply ibupd_run. simpl. apply list_lookup_insert_eq. rewrite length_insert. by eapply lookup_lt_Some. }
  cbn [set_ibufs set_idev set_idequeue ibufs qnext idequeue havedisk1 iapic idev]. rewrite !list_insert_insert_eq.
  apply wp_bind. eapply wp_eq; [apply wakeup_run; [by apply pushed_ok|by rewrite lookup_insert_ne]|].
  apply wp_bind, wp_gets. cbn [kdata fst].
  set (bs := <[b := completed res (a_disk a) x]> (a_bufs a)). set (s2 := set_idev d1 (set_ibufs bs (set_idequeue n s))).
  match goal with |- context [idequeue ?s'] => assert (s' = s2) as -> end.
  { rewrite /s2 /bs -Hbufs /completed /set_ibufs /set_idev /=. do 2 f_equal. rewrite /x1 /fetched /dirty. by destruct (negb _), res. }
  destruct (next_run (pushed c) (<[Lide := apicid c]> ∅) (filter (λ kv, kv.2 ≠ CBuf b) w) s2 q.*1 (perform res (request_of x) (a_disk a))) as (d2&E2&Hd2).
  { by apply links_head in Hl. }
  { by eapply queue_kept. }
  { done. }
  apply wp_bind. eapply wp_eq; [exact E2|]. apply wp_release_last; [done|done|]. by apply (interrupt_R c w s a b pid q x n res d2).
Qed.

(** ** Wake-ups *)

(** A process that finds its request unfinished sleeps again. *)
Lemma wake_pending pid b c w (s : ide D) x : cpu_ok c → ibufs s !! b = Some x → ¬ synced x →
  ∃ σ', iderw_resume b (Kst c ∅ w s) = Sleep (CBuf b) Lide σ' ∧
    fall_asleep pid (CBuf b) Lide (λ σ, σ = Kst c ∅ (<[pid := CBuf b]> w) s) σ'.
Proof.
  intros Hc Hx Hns. rewrite /iderw_resume (bind_ret _ _ _ _ _ (acquire_run Lide c ∅ w s Hc (lookup_empty _))) /iderw_wait.
  rewrite (bind_ret _ _ _ _ _ (ibuf_run b x _ _ w s Hx)) (proj2 (Z.eqb_neq _ _) Hns). eexists. split; [reflexivity|].
  eapply wp_eq; [apply release_run; [done|by rewrite lookup_insert_eq]|]. by rewrite delete_insert_id.
Qed.

Lemma wake_done b c w (s : ide D) x : cpu_ok c → ibufs s !! b = Some x → synced x →
  iderw_resume b (Kst c ∅ w s) = Ret tt (Kst c ∅ w s).
Proof.
  intros Hc Hx Hs. rewrite /iderw_resume (bind_ret _ _ _ _ _ (acquire_run Lide c ∅ w s Hc (lookup_empty _))) /iderw_wait.
  rewrite (bind_ret _ _ _ _ _ (ibuf_run b x _ _ w s Hx)) Hs. change (negb (B_VALID =? B_VALID)) with false. cbv iota.
  rewrite release_run; [done|by rewrite lookup_insert_eq|]. by rewrite delete_insert_id.
Qed.

Lemma R_cpu c c' w (s : ide D) a : cpu_ok c' → R (Kst c ∅ w s) a → R (Kst c' ∅ w s) a.
Proof. intros Hc []. by split. Qed.

(** Removing a process that has returned. *)
Lemma done_R c w (s : ide D) a pid b : R (Kst c ∅ w s) a → (b, pid) ∈ a_done a →
  R (Kst c ∅ (delete pid w) s) (AState (a_disk a) (a_bufs a) (a_queue a) (filter (λ v, v ≠ (b, pid)) (a_done a))).
Proof.
  intros [Hc HL Hslp Hbufs Hlen Hqlen Hd1 Hl Hnd1 Hnd2 Hq Hdone Hdev] Hin.
  assert (sublist (a_queue a ++ filter (λ v, v ≠ (b, pid)) (a_done a)) (a_queue a ++ a_done a)) as Hsub.
  { apply sublist_app; [done|]. apply sublist_filter. }
  split; simpl in *; try done.
  - intros pid' b'. rewrite lookup_delete_Some Hslp. split; [tauto|]. intros Hb'. split; [|done]. intros <-.
    rewrite fmap_app in Hnd2. apply NoDup_app in Hnd2 as (_&Hdis&_). apply (Hdis pid).
    + apply list_elem_of_fmap. by exists (b', pid).
    + apply list_elem_of_fmap. by exists (b, pid).
  - eapply sublist_NoDup; [done|]. by apply fmap_sublist.
  - eapply sublist_NoDup; [done|]. by apply fmap_sublist.
  - rewrite !Forall_forall in Hdone |- *. intros v [_ Hv]%list_elem_of_filter. by apply Hdone.
Qed.

Lemma wake_ok pid b σ a a' : R σ a → a_step (Wake pid b) a = Some a' →
  match iderw_resume b (as_proc pid (set_slp (delete pid (kslp σ)) σ)) with
  | Ret _ σ' => R σ' a'
  | Sleep ch lk σ' => ch = CBuf b ∧ lk = Lide ∧ fall_asleep pid ch lk (λ σ, R σ a') σ'
  | _ => False
  end.
Proof.
  destruct σ as [c L w s]. intros HR. pose proof (r_locks _ _ HR) as HL. simpl in HL. subst L. rewrite /as_proc /=.
  set (c' := Cpu (apicid c) (eif c) (ncli c) (intena c) (Some pid)). assert (cpu_ok c') as Hc by apply (r_cpu _ _ HR).
  pose proof (r_bufs _ _ HR) as Hbufs. simpl in Hbufs.
  case_decide as Hq.
  - intros [= <-]. pose proof (r_queue _ _ HR) as HQ. rewrite Forall_forall in HQ. destruct (HQ _ Hq) as (x&Hx&_&_&_&Hns).
    simpl in Hx. rewrite -Hbufs in Hx. destruct (wake_pending pid b c' (delete pid w) s x Hc Hx Hns) as (σ'&->&Hf). split_and!; [done|done|].
    eapply wp_mono; [exact Hf|]. simpl. intros _ σ'' ->. apply (R_cpu c); [done|]. rewrite insert_delete_eq insert_id //.
    by apply (r_slp _ _ HR).
  - case_decide as Hd; [|done]. intros [= <-]. pose proof (r_done _ _ HR) as HD. rewrite Forall_forall in HD.
    destruct (HD _ Hd) as (x&Hx&Hs). simpl in Hx. rewrite -Hbufs in Hx. rewrite (wake_done b c' (delete pid w) s x Hc Hx Hs).
    apply (R_cpu c); [done|]. by apply done_R.
Qed.

Lemma runs_weaken es P Q σ : (∀ σ, P σ → Q σ) → runs es P σ → runs es Q σ.
Proof.
  intros HPQ. revert σ. induction es as [|[pid b|res|pid b] es IH]; intros σ; cbn [runs]; [apply HPQ|..].
  - destruct (iderw _ _ _); try done. intros (?&?&Hf). split_and!; [done|done|]. eapply wp_mono; [exact Hf|]. simpl. auto.
  - intros Hr d' Hd. eapply wp_mono; [by apply Hr|]. simpl. auto.
  - destruct (iderw_resume _ _); try done; [apply IH|]. intros (?&?&Hf). split_and!; [done|done|]. eapply wp_mono; [exact Hf|]. simpl. auto.
Qed.

Lemma a_steps_cons e es a a' : a_steps (e :: es) a = Some a' → ∃ a1, a_step e a = Some a1 ∧ a_steps es a1 = Some a'.
Proof.
  rewrite /a_steps. simpl. destruct (a_step e a) as [a1|]; [by exists a1|].
  intros Hf. exfalso. revert Hf. by induction es.
Qed.

Lemma runs_R es : ∀ σ a a', R σ a → a_steps es a = Some a' → runs es (λ σ', R σ' a') σ.
Proof.
  induction es as [|e es IH]; intros σ a a' HR Hs; [by injection Hs as <-|].
  apply a_steps_cons in Hs as (a1&H1&Hs). destruct e as [pid b|res|pid b]; cbn [runs].
  - destruct (request_ok pid b σ a a1 HR H1) as (σ'&->&Hf). split_and!; [done|done|]. eapply wp_mono; [exact Hf|]. simpl. eauto.
  - intros d' Hd. eapply wp_mono; [by eapply interrupt_ok|]. simpl. eauto.
  - pose proof (wake_ok pid b σ a a1 HR H1) as Hw. destruct (iderw_resume _ _); try done; [by eauto|].
    destruct Hw as (?&?&Hf). split_and!; [done|done|]. eapply wp_mono; [exact Hf|]. simpl. eauto.
Qed.
End Runs.
