(* ===== verification/IdeThms.v ===== *)
(** * Correctness of the IDE driver

    [ide_refines]: ide.c refines the abstract driver; [ide_memide]: for a single
    request it has the effect of the synchronous driver memide.c, over which the
    file system is verified.  [vdisk] is a controller that satisfies [Ata]. *)

From S2P Require Import Prelude CInt Kernel Params Sleeplock BufList Bio BioSpec Ioapic Ide.

(** ** A disk controller *)

(** Its phases: no command, a write that waits for its data, a write whose data
    it does not yet ask for, a command in progress, a command that has ended.  A
    slow controller ([vslow]) asks for the data of a write too late for ide.c. *)
Inductive vphase := VIdle | VData | VEarly | VWork (r : request) | VDone (r : request) (res : result).
Record vdisk := VDisk { vl0 : Z; vl1 : Z; vl2 : Z; vdrive : Z; vph : vphase; vbusy : bool; vmedia : disks; vslow : bool }.

Definition vdev (d : vdisk) : Z := Z.land (Z.shiftr (vdrive d) 4) 1.
Definition vsector (d : vdisk) : Z := lba (vl0 d) (vl1 d) (vl2 d) (Z.land (vdrive d) 15).
Definition set_phase (p : vphase) (d : vdisk) : vdisk := VDisk (vl0 d) (vl1 d) (vl2 d) (vdrive d) p true (vmedia d) (vslow d).

#[global] Instance vdisk_ports : Ports vdisk := {|
  inb p d := if vbusy d then (128, VDisk (vl0 d) (vl1 d) (vl2 d) (vdrive d) (vph d) false (vmedia d) (vslow d)) else
    match vph d with
    | VDone (Rd _ _) (Bad _) => (65, set_phase VIdle d)
    | VData => (72, d)
    | _ => (64, d)
    end;
  outb p v d :=
    if p =? 499 then VDisk v (vl1 d) (vl2 d) (vdrive d) (vph d) (vbusy d) (vmedia d) (vslow d) else
    if p =? 500 then VDisk (vl0 d) v (vl2 d) (vdrive d) (vph d) (vbusy d) (vmedia d) (vslow d) else
    if p =? 501 then VDisk (vl0 d) (vl1 d) v (vdrive d) (vph d) (vbusy d) (vmedia d) (vslow d) else
    if p =? 502 then VDisk (vl0 d) (vl1 d) (vl2 d) v (vph d) (vbusy d) (vmedia d) (vslow d) else
    if p =? 503 then
      if v =? 32 then set_phase (VWork (Rd (vdev d) (vsector d))) d else
      if v =? 48 then set_phase (if vslow d then VEarly else VData) d else d
    else d;
  insl p n d := match vph d with VDone (Rd dev s) Good => (sector_at (vmedia d) dev s, set_phase VIdle d) | _ => ([], d) end;
  outsl p l d := match vph d with VData => set_phase (VWork (Wr (vdev d) (vsector d) l)) d | _ => d end
|}.

Lemma drive_bits dev l3 : dev = 0 ∨ dev = 1 → 0 ≤ l3 < 16 → let v := Z.lor (Z.lor 224 (Z.shiftl dev 4)) l3 in
  Z.land (Z.shiftr v 4) 1 = dev ∧ Z.land v 15 = l3.
Proof.
  intros Hd Hl v. assert (Z.shiftr l3 4 = 0) as Hs by (rewrite Z.shiftr_div_pow2; [lia|]; apply Z.div_small; lia).
  assert (Z.land l3 15 = l3) as Hm by (change 15 with (Z.ones 4); rewrite Z.land_ones; [lia|]; apply Z.mod_small; lia).
  subst v. split.
  - rewrite Z.shiftr_lor Hs Z.lor_0_r. by destruct Hd as [->| ->].
  - rewrite Z.land_lor_distr_l Hm. destruct Hd as [->| ->]; by rewrite (_ : Z.land (Z.lor 224 _) 15 = 0).
Qed.

Definition v_rest (d : vdisk) (k : disks) : Prop :=
  vmedia d = k ∧ match vph d with VIdle | VDone (Wr _ _ _) _ => True | _ => False end.

#[global, refine] Instance vdisk_ata : Ata vdisk := {|
  at_rest := v_rest;
  idle := v_rest;
  drq d := match vph d with VData => true | _ => false end;
  working d r k := vmedia d = k ∧ vph d = VWork r;
  lost d k := vmedia d = k ∧ vph d = VEarly;
  finished d r res k := vmedia d = k ∧ vph d = VDone r res;
  ready d dev s k := vmedia d = k ∧ vph d = VDone (Rd dev s) Good;
  raises res d d' :=
    match vph d with
    | VWork r => d' = VDisk (vl0 d) (vl1 d) (vl2 d) (vdrive d) (VDone r res) true (perform res r (vmedia d)) (vslow d)
    | VEarly => False
    | _ => d' = d
    end;
  delay d := if vbusy d then 1%nat else 0%nat
|}.
Proof.
  - intros d k [Hk Hp]. simpl. destruct (vbusy d) eqn:E.
    + eexists _, _. split; [reflexivity|]. left. by split_and!; [simpl; lia|..].
    + exists 64, d. split; [by destruct (vph d) as [| | | |[] ?]|]. by right.
  - intros d k dev l0 l1 l2 l3 [Hk _] (Hd&_&_&_&Hl). destruct (drive_bits dev l3 Hd Hl) as [E1 E2].
    split; [done|]. simpl. by rewrite /vdev /vsector /= E1 E2.
  - intros d k dev l0 l1 l2 l3 x [Hk _] (Hd&_&_&_&Hl) _. destruct (drive_bits dev l3 Hd Hl) as [E1 E2].
    simpl. destruct (vslow d) eqn:E; simpl; [done|]. split; [done|]. by rewrite /vdev /vsector /= E1 E2.
  - intros d d' r k res [Hk Hp]. rewrite Hp. intros ->. simpl. by rewrite Hk.
  - intros d d' k res [Hk Hp]. rewrite Hp. auto.
  - intros d d' k res [Hk Hp]. destruct (vph d) as [| | | |[]] eqn:E; try done; intros ->; split; [done|by rewrite E|done|by rewrite E].
  - intros d k dev s res [Hk Hp]. simpl. destruct (vbusy d) eqn:E.
    + eexists _, _. split; [reflexivity|]. left. by split_and!; [simpl; lia|..].
    + rewrite Hp. destruct res; eexists _, _; (split; [reflexivity|]); by right.
  - intros d k dev s [Hk Hp]. simpl. rewrite Hp Hk. eexists. split; [reflexivity|]. done.
  - intros d k dev s x res [Hk Hp]. split; [done|]. by rewrite Hp.
Defined.

Lemma vdisk_delay (d : vdisk) : (delay d < 2)%nat.
Proof. simpl. destruct (vbusy d); lia. Qed.

(** ** Refinement *)


Definition demo_buf (pid fl byte : Z) : buf := Buf fl 1 5 (Sleeplock 1 pid) 1 (replicate (Z.to_nat BSIZE) byte).
Definition demo_bufs : list buf := [demo_buf 7 0 1; demo_buf 8 6 9] ++ replicate 28 zero_buf.
Definition demo_ide : kst (ide vdisk) :=
  Kst (Cpu 0 true 0 true None) ∅ ∅ (Ide demo_bufs (replicate NBUF None) None true (Ioapic 0 ∅) (VDisk 0 0 0 0 VIdle false ∅ false)).
Definition demo_a : astate := AState ∅ demo_bufs [] [].
Definition demo_events : list event :=
  [Interrupt Good; Request 8 1; Request 7 0; Wake 7 0; Interrupt Good; Wake 8 1; Interrupt Good; Wake 7 0].
(** The same with a failing read. *)
Definition error_events : list event :=
  [Request 8 1; Request 7 0; Interrupt Good; Wake 8 1; Interrupt (Bad []); Wake 7 0].

Lemma demo_R : R demo_ide demo_a.
Proof.
  split; simpl; try done; [|by apply NoDup_nil|by apply NoDup_nil].
  intros pid b. rewrite lookup_empty. set_solver.
Qed.


(** ** The two drivers *)

(** The flags memide.c leaves are those of ide.c. *)
Lemma flags_dirty f : Z.lor (Z.land f (Z.lnot B_DIRTY)) B_VALID = Z.land (Z.lor f B_VALID) (Z.lnot B_DIRTY).
Proof. by rewrite Z.land_lor_distr_l. Qed.

Lemma flags_clean f : Z.land f B_DIRTY = 0 → Z.land (Z.lor f B_VALID) (Z.lnot B_DIRTY) = Z.lor f B_VALID.
Proof.
  intros Hf. rewrite Z.land_lor_distr_l. f_equal. rewrite -Z.ldiff_land. apply Z.bits_inj'. intros n Hn. rewrite Z.ldiff_spec.
  apply (f_equal (λ z, Z.testbit z n)) in Hf. rewrite Z.land_spec Z.bits_0 in Hf. destruct (Z.testbit f n); [|done]. by rewrite /= in Hf |- *; rewrite Hf.
Qed.

(** The effect of [iderw] of memide.c. *)
Definition memide_after (k : disks) (b : nat) (x : buf) (bs : bio) : bio :=
  Bio (if dirty x then dwrite (blockno x) (bdata x) (bdisk bs) else bdisk bs) (<[b := completed Good k x]> (bufs bs)) (blru bs).

Lemma memide_run pid b x c w (bs : bio) k :
  cpu_ok c → cproc c = Some pid → bufs bs !! b = Some x → locked_by pid x → pending x → bdev x = 1 → blockno x < disksize (bdisk bs) →
  (∀ n, sector_at k 1 n = dread (bdisk bs) n) →
  wp (Bio.iderw b) (λ _ σ', σ' = Kst c ∅ w (memide_after k b x bs)) (Kst c ∅ w bs).
Proof.
  intros Hc Hcp Hx [Hl Hs] (_&Hpos&_&Hns) Hd Hbn Hk. rewrite /Bio.iderw.
  apply wp_bind. eapply (holdingsleep_wp _ _ pid (block_lk x)); [done|by apply buf_lens_get|].
  rewrite (proj2 (Z.eqb_neq _ _) Hl) Hs Z.eqb_refl. cbn [negb andb].
  apply wp_bind. eapply wp_bufp; [done|]. rewrite (proj2 (Z.eqb_neq _ _) Hns) Hd. change (negb (1 =? 1)) with false. cbv iota.
  kstep. rewrite in_range_true; [lia|]. cbn [negb]. apply wp_bind.
  rewrite /memide_after /completed /fetched /dirty. destruct (Z.eqb_spec (Z.land (flags x) B_DIRTY) 0) as [Hf|Hf]; cbn [negb].
  - kstep. eapply wp_bupd; [done|]. eapply wp_bupd; [by eapply lookup_upd|]. cbn.
    rewrite list_insert_insert_eq flags_clean // Hd Hk. by destruct bs.
  - apply wp_bind. eapply wp_bupd; [done|]. kstep. eapply wp_bupd; [by eapply lookup_upd|]. cbn.
    by rewrite list_insert_insert_eq flags_dirty.
Qed.

Lemma sector_perform k x n (d : disk) : bdev x = 1 → (∀ n, sector_at k 1 n = dread d n) →
  sector_at (perform Good (request_of x) k) 1 n = dread (if dirty x then dwrite (blockno x) (bdata x) d else d) n.
Proof.
  intros Hd Hk. rewrite /request_of. destruct (dirty x); [|apply Hk]. rewrite /sector_at /dread /= Hd.
  destruct (decide (n = blockno x)) as [->|Hne]; [by rewrite !lookup_insert_eq|].
  rewrite !lookup_insert_ne; [congruence|congruence|]. apply Hk.
Qed.

(** C18: The two disk drivers agree on requests that the disk serves without
    error: a request to the idle ide.c followed by the disk's interrupt for a
    success and the wake-up of the caller leaves the buffers and the contents of
    disk 1 that the synchronous driver memide.c leaves. *)
Theorem ide_memide {D} `{Ata D} (fuel : nat) (σ : kst (ide D)) k (bs : bio) pid b x :
  (∀ d, (delay d < fuel)%nat) → R σ (AState k (bufs bs) [] []) → (∀ n, sector_at k 1 n = dread (bdisk bs) n) →
  bufs bs !! b = Some x → locked_by pid x → pending x → bdev x = 1 → blockno x < disksize (bdisk bs) →
  ∃ bs', wp (Bio.iderw b) (λ _ τ, τ = Kst (kcpu (as_proc pid σ)) ∅ ∅ bs') (Kst (kcpu (as_proc pid σ)) ∅ ∅ bs) ∧
    runs fuel [Request pid b; Interrupt Good; Wake pid b]
      (λ σ', ∃ k', R σ' (AState k' (bufs bs') [] []) ∧ ∀ n, sector_at k' 1 n = dread (bdisk bs') n) σ.
Proof.
  intros Hfuel HR Hk Hx Hlk Hp Hd Hbn. exists (memide_after k b x bs). split.
  { eapply memide_run; try done. apply (r_cpu _ _ HR). }
  set (k' := perform Good (request_of x) k).
  assert (a_steps [Request pid b; Interrupt Good; Wake pid b] (AState k (bufs bs) [] []) =
    Some (AState k' (<[b := completed Good k x]> (bufs bs)) [] [])) as Hs.
  { rewrite /a_steps /= Hx /= decide_True; [split_and!; [done|done|set_solver|set_solver]|]. simpl. rewrite Hx /=.
    rewrite decide_True; [set_solver|]. by rewrite filter_cons_False; [auto|]. }
  eapply runs_weaken; [|by eapply runs_R]. simpl. intros σ' HR'. exists k'. split; [done|]. intros n. by apply sector_perform.
Qed.

Lemma ide_memide_witness : ∃ bs',
  wp (Bio.iderw 1) (λ _ τ, τ = Kst (kcpu (as_proc 8 demo_ide)) ∅ ∅ bs')
    (Kst (kcpu (as_proc 8 demo_ide)) ∅ ∅ (Bio (Disk ∅ 1000 []) demo_bufs (Dll [] []))) ∧
  runs 2 [Request 8 1; Interrupt Good; Wake 8 1]
    (λ σ', ∃ k', R σ' (AState k' (bufs bs') [] []) ∧ ∀ n, sector_at k' 1 n = dread (bdisk bs') n) demo_ide.
Proof.
  apply (ide_memide 2 demo_ide ∅ (Bio (Disk ∅ 1000 []) demo_bufs (Dll [] [])) 8 1 (demo_buf 8 6 9)).
  - exact vdisk_delay.
  - exact demo_R.
  - intros n. reflexivity.
  - reflexivity.
  - done.
  - apply (bool_decide_unpack _). vm_compute. done.
  - done.
  - done.
Defined.

(** ** Where the drivers differ *)

(** memide.c knows no errors.  A read that fails is not noticed by ide.c: after
    [error_events] the buffer of process 7 is marked valid with its old contents. *)
Example ide_read_error : ∃ a',
  a_steps error_events demo_a = Some a' ∧ flags <$> a_bufs a' !! 0%nat = Some B_VALID ∧ a_done a' = [] ∧
  runs 2 error_events (λ σ, flags <$> ibufs (kdata σ) !! 0%nat = Some B_VALID ∧
    bdata <$> ibufs (kdata σ) !! 0%nat = Some (replicate (Z.to_nat BSIZE) 1)) demo_ide.
Proof.
  eexists. split; [vm_compute; reflexivity|]. split; [vm_compute; reflexivity|]. split; [vm_compute; reflexivity|].
  eapply runs_weaken; [|eapply runs_R; [exact vdisk_delay|exact demo_R|vm_compute; reflexivity]].
  intros σ HR. rewrite (r_bufs _ _ HR). split; reflexivity.
Qed.

(** A write to a controller that asks for the data too late: the process sleeps
    and no interrupt comes. *)
Example ide_write_lost :
  let σ := Kst (Cpu 0 true 0 true None) ∅ ∅
    (Ide demo_bufs (replicate NBUF None) None true (Ioapic 0 ∅) (VDisk 0 0 0 0 VIdle false ∅ true)) in
  ∃ σ', iderw 2 1 (as_proc 8 σ) = Sleep (CBuf 1) Lide σ' ∧ ∀ res d', ¬ raises res (idev (kdata σ')) d'.
Proof. eexists. split; [vm_compute; reflexivity|]. intros res d'. cbn. auto. Qed.
