(* ===== verification/Mkfs.v ===== *)
(** * The image builder: [src/Xv6-Syscall/src/mkfs.c]

    mkfs runs on the host, a little-endian machine, and writes the disk image
    the kernel boots from.  The image is a file made of sectors; reading a
    sector behind its end makes mkfs exit with status 1, and writing one there
    extends the file.  The host is a parameter: whether it creates the image
    ([creates]), which sectors it has room for ([stores]), and what the files
    named on the command line hold ([opens]).  The messages of mkfs are left
    out. *)

From S2P Require Import Prelude CInt CString Kernel Params Sleeplock Bio Log BlockIO Fs Ulib.

(** ** Constants and byte order *)

Definition NINODES : Z := 200.
Definition nbitmap : Z := FSSIZE / (BSIZE * 8) + 1.
Definition ninodeblocks : Z := NINODES / IPB + 1.
Definition nlog : Z := LOGSIZE.
Definition nmeta : Z := 2 + nlog + ninodeblocks + nbitmap.
Definition nblocks : Z := FSSIZE - nmeta.

Definition xshort (x : Z) : Z := le_val [u8 x; u8 (Z.shiftr x 8)].
Definition xint (x : Z) : Z := le_val [u8 x; u8 (Z.shiftr x 8); u8 (Z.shiftr x 16); u8 (Z.shiftr x 24)].

Definition sb : superblock :=
  Sb (xint FSSIZE) (xint nblocks) (xint NINODES) (xint nlog) (xint 2) (xint (2 + nlog)) (xint (2 + nlog + ninodeblocks)).

(** The bytes of [struct superblock]. *)
Definition sb_bytes (s : superblock) : list Z :=
  mjoin (le_bytes 4 <$> [sb_size s; sb_nblocks s; sb_ninodes s; sb_nlog s; sb_logstart s; sb_inodestart s; sb_bmapstart s]).

(** ** State and effects *)

Record mst := Mst {
  img : list block;
  freeinode : Z;
  freeblock : Z
}.

Definition set_img (l : list block) (s : mst) : mst := Mst l (freeinode s) (freeblock s).
Definition set_freeinode (n : Z) (s : mst) : mst := Mst (img s) n (freeblock s).
Definition set_freeblock (n : Z) (s : mst) : mst := Mst (img s) (freeinode s) n.

(** A run returns, calls [exit], fails an assertion, or is out of fuel. *)
Inductive mres (A : Type) :=
| Returns (a : A) (s : mst)
| Exits (code : Z) (s : mst)
| Aborts
| Endless.
#[global] Arguments Returns {_} _ _.
#[global] Arguments Exits {_} _ _.
#[global] Arguments Aborts {_}.
#[global] Arguments Endless {_}.

Definition M (A : Type) := mst → mres A.

#[global] Instance M_ret : MRet M := λ A a s, Returns a s.
#[global] Instance M_bind : MBind M := λ A B f m s,
  match m s with
  | Returns a s => f a s
  | Exits c s => Exits c s
  | Aborts => Aborts
  | Endless => Endless
  end.

Definition exit {A} (code : Z) : M A := λ s, Exits code s.
Definition assert_ (b : bool) : M unit := λ s, if b then Returns tt s else Aborts.

(** [freeblock++] *)
Definition take_block : M Z := λ s, Returns (freeblock s) (set_freeblock (u32 (freeblock s + 1)) s).

Section Mkfs.
Context (creates : list Z → bool) (stores : Z → bool) (opens : list Z → option input).

(** ** Sectors *)

(** The sector that [lseek(fsfd, sec * BSIZE, 0)] selects. *)
Definition sector (sec : Z) : Z := u32 (sec * BSIZE) / BSIZE.

Definition put_sect (n : nat) (x : block) (l : list block) : list block :=
  if bool_decide (n < length l)%nat then <[n := x]> l else l ++ replicate (n - length l) zero_block ++ [x].

Definition wsect (sec : Z) (buf : block) : M unit := λ s,
  if stores (sector sec) then Returns tt (set_img (put_sect (Z.to_nat (sector sec)) buf (img s)) s) else Exits 1 s.

Definition rsect (sec : Z) : M block := λ s,
  match img s !! Z.to_nat (sector sec) with
  | Some buf => Returns buf s
  | None => Exits 1 s
  end.

(** ** Inodes and blocks *)

Definition winode (inum : Z) (ip : dinode) : M unit :=
  let bn := IBLOCK inum sb in
  buf ← rsect bn;
  wsect bn (blit (dip_off inum) (dinode_enc ip) buf).

Definition rinode (inum : Z) : M dinode :=
  let bn := IBLOCK inum sb in
  buf ← rsect bn;
  mret (dinode_dec (slice (dip_off inum) (Z.to_nat DINODE_SIZE) buf)).

Definition ialloc (type : Z) : M Z := λ s,
  let inum := freeinode s in
  let din := Dinode (s16 (xshort type)) 0 0 (s16 (xshort 1)) (xint 0) (replicate (Z.to_nat NDIRECT + 1) 0) in
  (winode inum din;; mret inum) (set_freeinode (u32 (freeinode s + 1)) s).

(** The bitmap in [buf] after [n] iterations of the loop of [balloc]. *)
Fixpoint bitmap (n : nat) : block :=
  match n with
  | O => zero_block
  | S i =>
      let buf := bitmap i in
      <[(i / 8)%nat := u8 (Z.lor (default 0 (buf !! (i / 8)%nat)) (Z.shiftl 1 (i mod 8)))]> buf
  end.

Definition balloc (used : Z) : M unit :=
  assert_ (used <? BSIZE * 8);;
  wsect (sb_bmapstart sb) (bitmap (Z.to_nat used)).

(** ** Appending to a file *)

(** [din.addrs[k]], allocated if it is 0. *)
Definition addr_slot (din : dinode) (k : Z) : M dinode :=
  if xint (default 0 (d_addrs din !! Z.to_nat k)) =? 0 then
    b ← take_block;
    mret (Dinode (d_type din) (d_major din) (d_minor din) (d_nlink din) (d_size din)
                 (<[Z.to_nat k := xint b]> (d_addrs din)))
  else mret din.

Definition addr_get (din : dinode) (k : Z) : Z := xint (default 0 (d_addrs din !! Z.to_nat k)).

(** The entry [k] of the indirect block [d], allocated if it is 0. *)
Definition indirect_slot (d k : Z) : M Z :=
  indirect ← rsect d;
  indirect ← (if ind_get indirect k =? 0 then
                b ← take_block;
                let indirect := ind_set indirect k (xint b) in
                wsect d indirect;;
                mret indirect
              else mret indirect);
  mret (xint (ind_get indirect k)).

(** The block [x] of the file for file block [fbn]. *)
Definition file_block (din : dinode) (fbn : Z) : M (dinode * Z) :=
  if fbn <? NDIRECT then
    din ← addr_slot din fbn;
    mret (din, addr_get din fbn)
  else
    din ← addr_slot din NDIRECT;
    x ← indirect_slot (addr_get din NDIRECT) (fbn - NDIRECT);
    mret (din, x).

(** The loop of [iappend]; every iteration copies at least one byte. *)
Fixpoint iappend_loop (fuel : nat) (din : dinode) (off : Z) (p : list Z) : M (dinode * Z) :=
  match p with
  | [] => mret (din, off)
  | _ =>
      match fuel with
      | O => λ _, Endless
      | S fuel =>
          let fbn := off / BSIZE in
          assert_ (fbn <? MAXFILE);;
          r ← file_block din fbn;
          let '(din, x) := r in
          let n1 := Z.min (length p) (u32 (u32 ((fbn + 1) * BSIZE) - off)) in
          buf ← rsect x;
          wsect x (blit (Z.to_nat (off - fbn * BSIZE)) (take (Z.to_nat n1) p) buf);;
          iappend_loop fuel din (u32 (off + n1)) (drop (Z.to_nat n1) p)
      end
  end.

Definition set_dsize (n : Z) (din : dinode) : dinode :=
  Dinode (d_type din) (d_major din) (d_minor din) (d_nlink din) n (d_addrs din).

Definition iappend (inum : Z) (p : list Z) : M unit :=
  din ← rinode inum;
  r ← iappend_loop (length p) din (xint (d_size din)) p;
  let '(din, off) := r in
  winode inum (set_dsize (xint off) din).

(** ** The program *)

(** The bytes of [struct dirent]; the rest of the name is zero. *)
Definition dirent (inum : Z) (name : list Z) : list Z := le_bytes 2 (xshort inum) ++ strncpy_bytes name DIRSIZ.

(** [while((cc = read(fd, buf, sizeof(buf))) > 0) iappend(inum, buf, cc);] *)
Fixpoint copy_in (fuel : nat) (inum : Z) (fd : input) : M unit :=
  match fuel with
  | O => λ _, Endless
  | S fuel =>
      let '(buf, fd) := read (Z.to_nat BSIZE) fd in
      match buf with
      | [] => mret tt
      | _ => iappend inum buf;; copy_in fuel inum fd
      end
  end.

(** The name without a leading underscore. *)
Definition skip_underscore (name : list Z) : list Z :=
  match name with
  | c :: rest => if c =? 95 then rest else name
  | [] => name
  end.

Fixpoint add_files (rootino : Z) (files : list (list Z)) : M unit :=
  match files with
  | [] => mret tt
  | arg :: files =>
      assert_ (bool_decide (47 ∉ arg));;
      match opens arg with
      | None => exit 1
      | Some fd =>
          let arg := skip_underscore arg in
          inum ← ialloc T_FILE;
          iappend rootino (dirent inum arg);;
          copy_in (S (length (unread fd))) inum fd;;
          add_files rootino files
      end
  end.

(** [for(i = 0; i < FSSIZE; i++) wsect(i, zeroes);] *)
Fixpoint wipe (n : nat) (i : Z) : M unit :=
  match n with
  | O => mret tt
  | S n => wsect i zero_block;; wipe n (i + 1)
  end.

Definition fix_root (rootino : Z) : M unit :=
  din ← rinode rootino;
  let off := xint (d_size din) in
  let off := u32 ((off / BSIZE + 1) * BSIZE) in
  winode rootino (set_dsize (xint off) din).

(** The part of [main] behind the checks of the command line. *)
Definition build (files : list (list Z)) : M unit :=
  (λ s, Returns tt (set_freeblock nmeta s));;
  wipe (Z.to_nat FSSIZE) 0;;
  wsect 1 (blit 0 (sb_bytes sb) zero_block);;
  rootino ← ialloc T_DIR;
  assert_ (rootino =? ROOTINO);;
  iappend rootino (dirent rootino [46]);;
  iappend rootino (dirent rootino [46; 46]);;
  add_files rootino files;;
  fix_root rootino;;
  s ← (λ s, Returns (freeblock s) s);
  balloc s.

(** [argv]; the image starts empty, [freeinode] at 1. *)
Definition main (argv : list (list Z)) : mres unit :=
  match argv with
  | _ :: image :: files =>
      if creates image then (build files;; exit 0) (Mst [] 1 0) else Exits 1 (Mst [] 1 0)
  | _ => Exits 1 (Mst [] 1 0)
  end.
End Mkfs.
