(* ===== verification/MkfsSpec.v ===== *)
(** * What mkfs writes: sectors, blocks and inodes

    [on_img s V]: the image holds the blocks [V], where the bitmap is taken to
    be up to date with [freeblock] (mkfs writes it last).  In this view
    [freeblock++] is the [balloc] of the kernel, and the lemmas about growing
    files of the kernel apply to [iappend]. *)

From S2P Require Import Prelude CInt CString Kernel Params Sleeplock Bio BioSpec Cache Log LogSpec BlockIO Fs FsBlock FsFile FsInode FsRw FsCache FsDir FsPath FsNamex Ulib Mkfs.

(** ** Runs *)

Lemma bind_run {A B} (m : M A) (f : A → M B) s a s' : m s = Returns a s' → (m ≫= f) s = f a s'.
Proof. intros E. by rewrite /mbind /M_bind E. Qed.

(** ** Byte order *)

Lemma xint_u32 x : xint x = u32 x.
Proof.
  rewrite /xint /u32 /u8 !Z.shiftr_div_pow2 //=. change (2 ^ 8) with 256. change (2 ^ 16) with 65536.
  change (2 ^ 24) with 16777216. change (2 ^ 32) with 4294967296. Z.div_mod_to_equations. lia.
Qed.

Lemma xshort_u16 x : xshort x = u16 x.
Proof.
  rewrite /xshort /u16 /u8 !Z.shiftr_div_pow2 //=. change (2 ^ 8) with 256. change (2 ^ 16) with 65536.
  Z.div_mod_to_equations. lia.
Qed.

Lemma xint_small x : is_u32 x → xint x = x.
Proof. rewrite xint_u32. apply u32_small. Qed.

Lemma sb_eq : sb = Sb 1000 941 200 30 2 32 58.
Proof. by vm_compute. Qed.

Notation ds := 59.

Lemma BBLOCK_sb b : 0 ≤ b < 1000 → BBLOCK b sb = 58.
Proof. intros Hb. rewrite sb_eq /BBLOCK /= Z.div_small; [unfold BPB, BSIZE; lia|done]. Qed.

Lemma IBLOCK_sb i : 0 ≤ i < 200 → IBLOCK i sb = i / 8 + 32 ∧ 0 ≤ i / 8 < 25.
Proof.
  intros Hi. assert (0 ≤ i / 8 < 25) as Hr by (Z.div_mod_to_equations; lia). split; [|done].
  rewrite sb_eq /IBLOCK. change IPB with 8. rewrite u32_small //= /is_u32. lia.
Qed.

Lemma mk_lay : fs_layout (λ _, True) sb ds.
Proof.
  split; try (rewrite ?sb_eq /=; lia).
  - intros b Hb. rewrite sb_eq /= in Hb. rewrite BBLOCK_sb // sb_eq Z.div_small; [unfold BPB, BSIZE; lia|]. simpl. lia.
  - intros i Hi. rewrite sb_eq /= in Hi. destruct (IBLOCK_sb i) as [-> Hr]; [lia|]. split_and!; [done|lia| |].
    + by rewrite sb_eq.
    + intros b Hb. rewrite sb_eq /= in Hb. rewrite BBLOCK_sb //. lia.
Qed.

Lemma mk_cap : (0 < NBUF)%nat.
Proof. vm_compute. lia. Qed.

(** ** The bitmap *)

Lemma bitmap_S n : bitmap (S n) = set_bit (bitmap n) n true.
Proof. done. Qed.

Lemma bitmap_ok n : block_ok (bitmap n).
Proof. induction n as [|n IH]; [apply zero_block_ok|]. rewrite bitmap_S. by apply set_bit_ok. Qed.

Lemma bit_at_bitmap n k : (n ≤ Z.to_nat BPB)%nat → bit_at (bitmap n) k = bool_decide (k < n)%nat.
Proof.
  induction n as [|n IH]; intros Hn.
  - rewrite bool_decide_eq_false_2; [lia|]. rewrite /bit_at. cbn [bitmap].
    destruct (zero_block !! (k / 8)%nat) as [z|] eqn:E; [apply lookup_replicate in E as [-> _]|]; apply Z.testbit_0_l.
  - rewrite bitmap_S bit_at_set_bit; [apply bitmap_ok|lia|]. rewrite IH; [lia|]. destruct (decide (k = n)) as [->|Hne].
    + symmetry. apply bool_decide_eq_true. lia.
    + apply bool_decide_ext. lia.
Qed.

(** ** The image *)

Record on_img (s : mst) (V : Z → block) : Prop := {
  oi_len : length (img s) = 1000%nat;
  oi_img : ∀ b, 0 ≤ b < 1000 → b ≠ 58 → img s !! Z.to_nat b = Some (V b);
  oi_bmap : V 58 = bitmap (Z.to_nat (freeblock s));
  oi_ok : ∀ b, block_ok (V b);
  oi_fb : ds ≤ freeblock s ≤ 1000;
  oi_free : ∀ b, freeblock s ≤ b < 1000 → V b = zero_block;
  oi_out : ∀ b, ¬ 0 ≤ b < 1000 → V b = zero_block
}.

Lemma used_on s V b : on_img s V → 0 ≤ b < 1000 → used V sb b = bool_decide (b < freeblock s).
Proof.
  intros [Hl Hi Hb Ho Hf Hz _] Hr. rewrite /used BBLOCK_sb // Hb bit_at_bitmap; [unfold BPB, BSIZE; lia|].
  apply bool_decide_ext. rewrite Z.mod_small; [unfold BPB, BSIZE; lia|lia].
Qed.

Lemma meta_on s V : on_img s V → meta_used V sb ds.
Proof. intros Hon b Hb _. rewrite (used_on s V) //; [lia|]. apply bool_decide_eq_true. pose proof (oi_fb _ _ Hon). lia. Qed.

Lemma sector_small b : 0 ≤ b < 2 ^ 23 → sector b = b.
Proof. intros Hb. rewrite /sector u32_small; [rewrite /is_u32; unfold BSIZE; lia|]. by apply Z.div_mul. Qed.

Lemma rsect_run s V b : on_img s V → 0 ≤ b < 1000 → b ≠ 58 → rsect b s = Returns (V b) s.
Proof. intros Hon Hb Hne. rewrite /rsect sector_small; [lia|]. by rewrite (oi_img _ _ Hon). Qed.

Section Spec.
Context (stores : Z → bool) (Hst : ∀ b, 0 ≤ b < 1000 → stores b = true).

Definition with_sect (b : Z) (y : block) (s : mst) : mst := set_img (<[Z.to_nat b := y]> (img s)) s.

Lemma wsect_run s V b y : on_img s V → 0 ≤ b < 1000 → wsect stores b y s = Returns tt (with_sect b y s).
Proof.
  intros Hon Hb. rewrite /wsect sector_small; [lia|]. rewrite Hst // /put_sect bool_decide_eq_true_2; [|done].
  rewrite (oi_len _ _ Hon). lia.
Qed.

Lemma on_with_sect s V b y : on_img s V → 0 ≤ b < 1000 → b ≠ 58 → block_ok y → b < freeblock s → on_img (with_sect b y s) (upd V b y).
Proof.
  intros [Hl Hi Hbm Ho Hf Hz Hout] Hb Hne Hy Hlt. split; simpl.
  - by rewrite length_insert.
  - intros b' Hb' Hne'. rewrite /upd. case_decide; [subst; rewrite list_lookup_insert_eq //; lia|].
    rewrite list_lookup_insert_ne; [lia|]. by apply Hi.
  - by rewrite upd_ne.
  - intros b'. rewrite /upd. by case_decide.
  - done.
  - intros b' Hb'. rewrite upd_ne; [lia|]. by apply Hz.
  - intros b' Hb'. rewrite upd_ne; [intros ->; lia|]. by apply Hout.
Qed.

Lemma take_block_run s : 0 ≤ freeblock s < 1000 →
  take_block s = Returns (freeblock s) (set_freeblock (freeblock s + 1) s).
Proof. intros Hf. rewrite /take_block u32_small //. rewrite /is_u32. lia. Qed.

Lemma on_take s V : on_img s V → freeblock s < 1000 →
  on_img (set_freeblock (freeblock s + 1) s) (alloc (sb:=sb) V (freeblock s)).
Proof.
  intros [Hl Hi Hbm Ho Hf Hz Hout] Hlt. set (f := freeblock s) in *.
  assert (∀ b, b ≠ 58 → alloc (sb:=sb) V f b = V b) as Hsame.
  { intros b Hb. rewrite /alloc /upd. case_decide; [subst; symmetry; apply Hz; lia|].
    rewrite /mark BBLOCK_sb; [lia|]. by rewrite upd_ne. }
  assert (alloc (sb:=sb) V f 58 = bitmap (Z.to_nat (f + 1))) as H58.
  { rewrite /alloc upd_ne; [lia|]. rewrite /mark BBLOCK_sb; [lia|]. rewrite upd_eq Hbm.
    rewrite Z.mod_small; [unfold BPB, BSIZE; lia|]. by rewrite Z2Nat.inj_add ?Nat.add_1_r //; lia. }
  split; simpl; try done.
  - intros b Hb Hne. rewrite Hsame //. by apply Hi.
  - intros b. destruct (decide (b = 58)) as [->|Hb]; [rewrite H58; apply bitmap_ok|by rewrite Hsame].
  - lia.
  - intros b Hb. rewrite Hsame; [lia|]. apply Hz. lia.
  - intros b Hb. rewrite Hsame; [intros ->; lia|]. by apply Hout.
Qed.

(** ** Inodes *)

Lemma rinode_run s V num : on_img s V → 0 < num < 200 → rinode num s = Returns (dinode_on V sb num) s.
Proof.
  intros Hon Hn. destruct (IBLOCK_sb num) as [E Hr]; [lia|]. rewrite /rinode /mbind /M_bind.
  by rewrite (rsect_run s V) // E; lia.
Qed.

Lemma winode_run s V num d : on_img s V → 0 < num < 200 → dinode_rng d →
  ∃ s', winode stores num d s = Returns tt s' ∧ on_img s' (put_dinode V sb num d) ∧
    freeblock s' = freeblock s ∧ freeinode s' = freeinode s.
Proof.
  intros Hon Hn Hd. destruct (IBLOCK_sb num) as [E Hr]; [lia|]. rewrite /winode /mbind /M_bind.
  rewrite (rsect_run s V) //; [lia..|]. rewrite (wsect_run s V) //; [lia|]. eexists. split; [done|]. split_and!; [|done|done].
  apply on_with_sect; [done|lia|lia| |pose proof (oi_fb _ _ Hon); lia].
  apply put_dinode_block_ok; [apply Hon|done].
Qed.
End Spec.

(** ** mkfs appends to files

    [file_block] of mkfs.c maps a file block the way [bmap] of the kernel does,
    and [iappend] writes the way [writei] does; [dense] says that the blocks of
    a file are exactly those that its size needs, so that the number of blocks
    mkfs has given out is known at any time. *)

(** The sizes in numbers. *)
Ltac sizes :=
  change MAXFILE with 140 in *; change NINDIRECT with 128 in *; change NDIRECT with 12 in *; change BSIZE with 512 in *; lia.

(** ** Mapping a block *)

(** The file got block [a] for file block [bn]; the blocks from [f] up to [f']
    were free before and belong to the file now. *)
Record added (V : Z → block) (ip : inode) (bn f f' a : Z) (V' : Z → block) (ip' : inode) : Prop := {
  ad_map : ∃ X X', mapped (sb:=sb) (ds:=ds) X V ip bn a X' V' ip';
  ad_other : ∀ bn', 0 ≤ bn' < MAXFILE → bn' ≠ bn → baddr V' ip' bn' = baddr V ip bn';
  ad_ind : addr_of ip' NDIRECT ≠ 0 ↔ addr_of ip NDIRECT ≠ 0 ∨ NDIRECT ≤ bn;
  ad_ind_same : addr_of ip NDIRECT ≠ 0 → addr_of ip' NDIRECT = addr_of ip NDIRECT;
  ad_owned : ∀ b, f ≤ b < f' → owned V' ip' b
}.

(** The blocks that have to be added for file block [bn]. *)
Definition cost (V : Z → block) (ip : inode) (bn : Z) : Z :=
  if baddr V ip bn =? 0 then if (NDIRECT <=? bn) && (addr_of ip NDIRECT =? 0) then 2 else 1 else 0.

Lemma added_keep V ip bn f f' a V' ip' b : added V ip bn f f' a V' ip' → owned V ip b → owned V' ip' b.
Proof.
  intros [(X&X'&Hm) _ _ Hi _] (Hb&[->|(k&Hk&->)]); (split; [done|]).
  - left. by rewrite Hi.
  - right. exists k. split; [done|]. by rewrite (fx_addr _ _ _ _ (mp_ext _ _ _ _ _ _ _ _ Hm)).
Qed.

Lemma added_hit V ip bn f : inode_wf (sb:=sb) (ds:=ds) V ip → meta_used V sb ds → baddr V ip bn ≠ 0 →
  added V ip bn f f (baddr V ip bn) V ip.
Proof.
  intros Hwf Hmu Hb. split; try done; [|split; [by left|]|lia].
  - exists ∅, ∅. by apply (mapped_hit mk_cap).
  - intros [?|Hge]; [done|]. revert Hb. rewrite /baddr (proj2 (Z.ltb_ge _ _) Hge). by destruct (Z.eqb_spec (addr_of ip NDIRECT) 0).
Qed.

Section Added.
Context (V : Z → block) (ip : inode) (f : Z) (Hok : ∀ b, block_ok (V b)).
Context (Hwf : inode_wf (sb:=sb) (ds:=ds) V ip) (Hmu : meta_used V sb ds) (Hf : ds ≤ f < 1000) (Hu : used V sb f = false).

Lemma added_direct bn : 0 ≤ bn < NDIRECT → addr_of ip bn = 0 →
  added V ip bn f (f + 1) f (alloc (sb:=sb) V f) (set_iaddrs (<[Z.to_nat bn := f]> (iaddrs ip)) ip).
Proof.
  intros Hbn H0. set (ip' := set_iaddrs _ ip).
  assert (mapped (sb:=sb) (ds:=ds) ∅ V ip bn f ({[f]} ∪ ({[BBLOCK f sb]} ∪ ∅)) (alloc (sb:=sb) V f) ip') as Hm.
  { by apply (mapped_direct mk_lay mk_cap). }
  assert (∀ j, 0 ≤ j → addr_of ip' j = if decide (j = bn) then f else addr_of ip j) as Ha.
  { intros j Hj. apply addr_of_insert; [apply Hwf|lia|done]. }
  assert (addr_of ip' NDIRECT = addr_of ip NDIRECT) as Hi by (rewrite Ha //; rewrite decide_False //; lia).
  split; rewrite ?Hi; try done; [by eauto| |naive_solver lia|].
  - intros bn' Hr Hne. rewrite /baddr Hi. destruct (bn' <? NDIRECT); [rewrite Ha; [lia|]; by rewrite decide_False|].
    destruct (Z.eqb_spec (addr_of ip NDIRECT) 0) as [|Hn]; [done|]. destruct (wf_ind _ _ Hwf Hn) as [Hd Hdu].
    rewrite (alloc_data mk_lay) //; [lia|congruence].
  - intros b Hb. assert (b = f) as -> by lia. split; [lia|]. right. exists bn. split; [sizes|].
    by rewrite (mp_addr _ _ _ _ _ _ _ _ Hm).
Qed.

Lemma added_entry e : 0 ≤ e < NINDIRECT → addr_of ip NDIRECT ≠ 0 → ind_get (V (addr_of ip NDIRECT)) e = 0 →
  let d := addr_of ip NDIRECT in
  added V ip (NDIRECT + e) f (f + 1) f (upd (alloc (sb:=sb) V f) d (ind_set (alloc (sb:=sb) V f d) e f)) ip.
Proof.
  intros He Hd H0 d. set (V' := upd _ d _).
  assert (∃ X', mapped (sb:=sb) (ds:=ds) ∅ V ip (NDIRECT + e) f X' V' ip) as [X' Hm].
  { eexists. by apply (mapped_entry mk_lay mk_cap). }
  destruct (wf_ind _ _ Hwf Hd) as [Hdr Hdu]. fold d in Hdr, Hdu.
  assert (alloc (sb:=sb) V f d = V d) as HVd by (rewrite (alloc_data mk_lay) //; [lia|congruence]).
  split; try done; [by eauto| |naive_solver|].
  - intros bn' Hr Hne. rewrite /baddr. destruct (Z.ltb_spec bn' NDIRECT); [done|]. fold d. rewrite (proj2 (Z.eqb_neq _ _) Hd).
    rewrite /V' upd_eq HVd ind_get_set //; [sizes|rewrite /is_u32; lia|]. rewrite decide_False //. lia.
  - intros b Hb. assert (b = f) as -> by lia. split; [lia|]. right. exists (NDIRECT + e). split; [sizes|].
    by rewrite (mp_addr _ _ _ _ _ _ _ _ Hm).
Qed.

Lemma added_two e : 0 ≤ e < NINDIRECT → addr_of ip NDIRECT = 0 → f + 1 < 1000 → (∀ b, block_ok (alloc (sb:=sb) V f b)) →
  used (alloc (sb:=sb) V f) sb (f + 1) = false →
  let V1 := alloc (sb:=sb) V f in
  added V ip (NDIRECT + e) f (f + 2) (f + 1) (upd (alloc (sb:=sb) V1 (f + 1)) f (ind_set (alloc (sb:=sb) V1 (f + 1) f) e (f + 1)))
    (set_iaddrs (<[Z.to_nat NDIRECT := f]> (iaddrs ip)) ip).
Proof.
  intros He H0 Hlt Hok1 Hu1 V1. set (ip1 := set_iaddrs _ ip). set (V' := upd _ f _).
  assert (∃ X', mapped (sb:=sb) (ds:=ds) ∅ V ip (NDIRECT + e) (f + 1) X' V' ip1) as [X' Hm].
  { eexists. apply (mapped_two mk_lay mk_cap); try done. change (sb_size sb) with 1000. lia. }
  assert (∀ j, 0 ≤ j → addr_of ip1 j = if decide (j = NDIRECT) then f else addr_of ip j) as Ha.
  { intros j Hj. apply addr_of_insert; [apply Hwf|done|done]. }
  assert (addr_of ip1 NDIRECT = f) as Hi by (rewrite Ha //; by rewrite decide_True).
  assert (alloc (sb:=sb) V1 (f + 1) f = zero_block) as Hz.
  { rewrite (alloc_data mk_lay); [split; [lia|by change (sb_size sb) with 1000]|lia|lia|by apply upd_eq]. }
  split; try done; [by eauto| |rewrite Hi; naive_solver lia|].
  - intros bn' Hr Hne. rewrite /baddr Hi. destruct (Z.ltb_spec bn' NDIRECT); [rewrite Ha; [lia|]; rewrite decide_False //; lia|].
    rewrite H0 (proj2 (Z.eqb_neq f 0)); [lia|]. rewrite /V' upd_eq Hz ind_get_set //; [apply zero_block_ok|sizes|rewrite /is_u32; lia|].
    rewrite decide_False; [lia|]. apply ind_get_zero. sizes.
  - intros b Hb. split; [lia|]. destruct (decide (b = f)) as [->|]; [by left|]. right. exists (NDIRECT + e). split; [sizes|].
    rewrite (mp_addr _ _ _ _ _ _ _ _ Hm). lia.
Qed.
End Added.

(** ** [file_block] *)

Definition with_addrs (l : list Z) (din : dinode) : dinode :=
  Dinode (d_type din) (d_major din) (d_minor din) (d_nlink din) (d_size din) l.

Lemma with_addrs_id din : with_addrs (d_addrs din) din = din.
Proof. by destruct din. Qed.

Lemma addr_get_eq V ip din k : inode_wf (sb:=sb) (ds:=ds) V ip → d_addrs din = iaddrs ip → addr_get din k = addr_of ip k.
Proof.
  intros Hwf Hd. rewrite /addr_get Hd. fold (addr_of ip k). apply xint_small.
  pose proof (wf_addrs_u32 mk_lay mk_cap V ip Hwf) as Hu. rewrite /addr_of.
  destruct (iaddrs ip !! Z.to_nat k) eqn:E; [|rewrite /is_u32 /=; lia]. by apply (Forall_lookup_1 _ _ _ _ Hu E).
Qed.

Lemma addr_slot_hit V ip din k s : inode_wf (sb:=sb) (ds:=ds) V ip → d_addrs din = iaddrs ip → addr_of ip k ≠ 0 →
  addr_slot din k s = Returns din s.
Proof. intros Hwf Hd Hk. rewrite /addr_slot. fold (addr_get din k). by rewrite (addr_get_eq V ip) // (proj2 (Z.eqb_neq _ _) Hk). Qed.

Lemma addr_slot_new V ip din k s : inode_wf (sb:=sb) (ds:=ds) V ip → d_addrs din = iaddrs ip → addr_of ip k = 0 → ds ≤ freeblock s < 1000 →
  addr_slot din k s =
    Returns (with_addrs (<[Z.to_nat k := freeblock s]> (iaddrs ip)) din) (set_freeblock (freeblock s + 1) s).
Proof.
  intros Hwf Hd Hk Hf. rewrite /addr_slot. fold (addr_get din k). rewrite (addr_get_eq V ip) // Hk /=.
  rewrite /mbind /M_bind take_block_run; [lia|]. rewrite xint_small; [rewrite /is_u32; lia|]. by rewrite Hd.
Qed.

Lemma cost_direct V ip bn : 0 ≤ bn < NDIRECT → cost V ip bn = if addr_of ip bn =? 0 then 1 else 0.
Proof. intros Hbn. rewrite /cost /baddr (proj2 (Z.ltb_lt _ _)); [lia|]. by rewrite (proj2 (Z.leb_gt _ _)); [lia|]. Qed.

Lemma cost_indirect V ip e : 0 ≤ e → cost V ip (NDIRECT + e) =
  if addr_of ip NDIRECT =? 0 then 2 else if ind_get (V (addr_of ip NDIRECT)) e =? 0 then 1 else 0.
Proof.
  intros He. rewrite /cost /baddr (proj2 (Z.ltb_ge _ _)); [lia|]. rewrite (proj2 (Z.leb_le _ _)); [lia|].
  replace (NDIRECT + e - NDIRECT) with e by lia. by destruct (addr_of ip NDIRECT =? 0).
Qed.

Section Grow.
Context (stores : Z → bool) (Hst : ∀ b, 0 ≤ b < 1000 → stores b = true).

(** What [file_block] returns: the new inode, the block, and the state. *)
Definition gets_block (s : mst) (V : Z → block) (ip : inode) (din : dinode) (bn : Z) (m : M (dinode * Z)) : Prop :=
  ∃ s' V' ip' a, m s = Returns (with_addrs (iaddrs ip') din, a) s' ∧ on_img s' V' ∧
    added V ip bn (freeblock s) (freeblock s') a V' ip' ∧ freeblock s' = freeblock s + cost V ip bn ∧ freeinode s' = freeinode s.

Lemma file_block_direct s V ip din bn : on_img s V → inode_wf (sb:=sb) (ds:=ds) V ip → d_addrs din = iaddrs ip →
  0 ≤ bn < NDIRECT → freeblock s + cost V ip bn ≤ 1000 → gets_block s V ip din bn (file_block stores din bn).
Proof.
  intros Hon Hwf Hd Hbn Hc. pose proof (meta_on _ _ Hon) as Hmu. pose proof (oi_fb _ _ Hon) as Hfb.
  rewrite /gets_block /file_block (proj2 (Z.ltb_lt _ _)); [lia|]. rewrite /mbind /M_bind. rewrite cost_direct // in Hc |- *.
  destruct (Z.eqb_spec (addr_of ip bn) 0) as [H0|Hne].
  - rewrite (addr_slot_new V ip) //; [lia|]. set (ip' := set_iaddrs (<[Z.to_nat bn := freeblock s]> (iaddrs ip)) ip).
    assert (added V ip bn (freeblock s) (freeblock s + 1) (freeblock s) (alloc (sb:=sb) V (freeblock s)) ip') as Ha.
    { apply added_direct; try done; [apply Hon|lia|]. rewrite (used_on s V) //; [lia|]. apply bool_decide_eq_false. lia. }
    eexists _, _, ip', _. split_and!; [|apply on_take; [done|lia]|exact Ha|done|done].
    destruct (ad_map _ _ _ _ _ _ _ _ Ha) as (X&X'&Hm). unfold mret, M_ret. do 2 f_equal.
    rewrite (addr_get_eq _ ip' _ _ (fx_wf _ _ _ _ (mp_ext _ _ _ _ _ _ _ _ Hm))) //.
    rewrite /ip' addr_of_insert; [apply Hwf|lia|lia|]. by rewrite decide_True.
  - rewrite (addr_slot_hit V ip) //. rewrite (addr_get_eq V ip) //. exists s, V, ip, (addr_of ip bn).
    rewrite -Hd with_addrs_id Z.add_0_r. split_and!; [done|done| |done|done].
    rewrite (_ : addr_of ip bn = baddr V ip bn); [|apply added_hit; [done|done|]];
      by rewrite /baddr (proj2 (Z.ltb_lt _ _)); [lia|].
Qed.

Lemma indirect_slot_hit s V ip e : on_img s V → inode_wf (sb:=sb) (ds:=ds) V ip → 0 ≤ e < NINDIRECT →
  baddr V ip (NDIRECT + e) ≠ 0 → indirect_slot stores (addr_of ip NDIRECT) e s = Returns (baddr V ip (NDIRECT + e)) s.
Proof.
  intros Hon Hwf He Hne. assert (0 ≤ NDIRECT + e < MAXFILE) as Hr by sizes.
  destruct (wf_data _ _ Hwf _ Hr Hne) as [Hb _]. change (sb_size sb) with 1000 in Hb. revert Hne Hb.
  rewrite /baddr (proj2 (Z.ltb_ge _ _)); [lia|]. replace (NDIRECT + e - NDIRECT) with e by lia.
  destruct (Z.eqb_spec (addr_of ip NDIRECT) 0) as [|Hd]; [done|]. intros Hne Hb.
  destruct (wf_ind _ _ Hwf Hd) as [Hdr _]. change (sb_size sb) with 1000 in Hdr.
  rewrite /indirect_slot /mbind /M_bind (rsect_run s V) //; [lia..|]. rewrite (proj2 (Z.eqb_neq _ _) Hne).
  rewrite /mret /M_ret xint_small //. rewrite /is_u32. lia.
Qed.

Lemma indirect_slot_new s V d e : on_img s V → ds ≤ d < freeblock s → 0 ≤ e < NINDIRECT → ind_get (V d) e = 0 → freeblock s < 1000 →
  ∃ s', indirect_slot stores d e s = Returns (freeblock s) s' ∧ freeblock s' = freeblock s + 1 ∧ freeinode s' = freeinode s ∧
    on_img s' (upd (alloc (sb:=sb) V (freeblock s)) d (ind_set (alloc (sb:=sb) V (freeblock s) d) e (freeblock s))).
Proof.
  intros Hon Hd He H0 Hf. pose proof (oi_fb _ _ Hon) as Hfb. set (f := freeblock s) in *.
  pose proof (on_take s V Hon Hf) as Hon1. fold f in Hon1. set (s1 := set_freeblock (f + 1) s) in *.
  assert (alloc (sb:=sb) V f d = V d) as HV.
  { rewrite (alloc_data mk_lay) //; [split; [lia|by change (sb_size sb) with 1000]|lia|lia]. }
  assert (block_ok (ind_set (V d) e f)) as Hy by (apply ind_set_ok; [apply Hon|done]).
  rewrite /indirect_slot /mbind /M_bind (rsect_run s V) //; [lia..|]. rewrite H0 Z.eqb_refl. cbv beta iota. rewrite take_block_run; [lia|]. fold f s1.
  assert (is_u32 f) as Hu by (rewrite /is_u32; lia). rewrite (xint_small f) //.
  rewrite (wsect_run stores Hst s1 _ _ _ Hon1); [lia|]. exists (with_sect d (ind_set (V d) e f) s1). rewrite HV. split_and!; [|done|done|].
  - rewrite /mret /M_ret ind_get_set //; [apply Hon|]. by rewrite decide_True // xint_small.
  - apply on_with_sect; [done|lia|lia|done|simpl; lia].
Qed.

Lemma file_block_indirect s V ip din e : on_img s V → inode_wf (sb:=sb) (ds:=ds) V ip → d_addrs din = iaddrs ip →
  0 ≤ e < NINDIRECT → freeblock s + cost V ip (NDIRECT + e) ≤ 1000 →
  gets_block s V ip din (NDIRECT + e) (file_block stores din (NDIRECT + e)).
Proof.
  intros Hon Hwf Hd He Hc. pose proof (meta_on _ _ Hon) as Hmu. pose proof (oi_fb _ _ Hon) as Hfb.
  pose proof (used_on s V) as Hus. set (f := freeblock s) in *.
  rewrite /gets_block /file_block (proj2 (Z.ltb_ge _ _)); [lia|]. replace (NDIRECT + e - NDIRECT) with e by lia.
  rewrite /mbind /M_bind. rewrite cost_indirect in Hc; [lia|]. rewrite cost_indirect; [lia|]. destruct (Z.eqb_spec (addr_of ip NDIRECT) 0) as [H0|Hne].
  - rewrite (addr_slot_new V ip) //; [lia|]. fold f. set (ip1 := set_iaddrs (<[Z.to_nat NDIRECT := f]> (iaddrs ip)) ip).
    pose proof (on_take s V Hon) as Hon1. fold f in Hon1. specialize (Hon1 ltac:(lia)). set (V1 := alloc V f) in *.
    assert (used V1 sb (f + 1) = false) as Hu1.
    { rewrite (used_on _ V1 _ Hon1); [lia|]. apply bool_decide_eq_false. simpl. lia. }
    assert (added V ip (NDIRECT + e) f (f + 2) (f + 1) (upd (alloc (sb:=sb) V1 (f + 1)) f (ind_set (alloc (sb:=sb) V1 (f + 1) f) e (f + 1))) ip1) as Ha.
    { apply added_two; try done; [apply Hon|lia| |lia|apply Hon1]. rewrite Hus //; [lia|]. apply bool_decide_eq_false. lia. }
    destruct (ad_map _ _ _ _ _ _ _ _ Ha) as (X&X'&Hm).
    rewrite (addr_get_eq _ ip1 _ _ (fx_wf _ _ _ _ (mp_ext _ _ _ _ _ _ _ _ Hm))) //.
    rewrite (_ : addr_of ip1 NDIRECT = f); [rewrite /ip1 addr_of_insert; [apply Hwf|done|done|by case_decide]|].
    destruct (indirect_slot_new _ V1 f e Hon1) as (s'&->&Ef&Ei&Hon'); [simpl; lia|done| |simpl; lia|].
    { rewrite /V1 /alloc upd_eq. by apply ind_get_zero. }
    simpl in Ef, Ei. change (freeblock (set_freeblock (f + 1) s)) with (f + 1) in Hon' |- *.
    eexists s', _, ip1, (f + 1). split_and!; [done|exact Hon'| |lia|done].
    by replace (freeblock s') with (f + 2) by lia.
  - destruct (wf_ind _ _ Hwf Hne) as [Hdr Hdu]. change (sb_size sb) with 1000 in Hdr.
    rewrite Hus // in Hdu; [lia|]. apply bool_decide_eq_true in Hdu.
    rewrite (addr_slot_hit V ip) // (addr_get_eq V ip) //. rewrite -{1}(with_addrs_id din) Hd.
    destruct (Z.eqb_spec (ind_get (V (addr_of ip NDIRECT)) e) 0) as [H0|Hne'].
    + destruct (indirect_slot_new s V (addr_of ip NDIRECT) e Hon) as (s'&->&Ef&Ei&Hon'); [lia|done|done|lia|].
      eexists s', _, ip, f. split_and!; [done|exact Hon'| |done|done]. rewrite Ef.
      apply added_entry; try done; [apply Hon|lia|]. rewrite Hus //; [lia|]. apply bool_decide_eq_false. lia.
    + assert (baddr V ip (NDIRECT + e) ≠ 0) as Hb.
      { rewrite /baddr (proj2 (Z.ltb_ge _ _)); [lia|]. rewrite (proj2 (Z.eqb_neq _ _) Hne). by replace (NDIRECT + e - NDIRECT) with e by lia. }
      rewrite (indirect_slot_hit s V) //. exists s, V, ip, (baddr V ip (NDIRECT + e)). rewrite Z.add_0_r.
      split_and!; [done|done|by apply added_hit|done|done].
Qed.

Lemma file_block_run s V ip din bn : on_img s V → inode_wf (sb:=sb) (ds:=ds) V ip → d_addrs din = iaddrs ip →
  0 ≤ bn < MAXFILE → freeblock s + cost V ip bn ≤ 1000 → gets_block s V ip din bn (file_block stores din bn).
Proof.
  intros Hon Hwf Hd Hbn Hc. destruct (decide (bn < NDIRECT)); [apply file_block_direct; try done; lia|].
  replace bn with (NDIRECT + (bn - NDIRECT)) in * by lia. apply file_block_indirect; try done. sizes.
Qed.
End Grow.

(** ** Files without spare blocks *)

(** The file of size [off] has exactly the blocks it needs. *)
Record dense (V : Z → block) (ip : inode) (off : Z) : Prop := {
  dn_map : ∀ bn, 0 ≤ bn < MAXFILE → baddr V ip bn ≠ 0 ↔ bn * BSIZE < off;
  dn_ind : addr_of ip NDIRECT ≠ 0 ↔ NDIRECT * BSIZE < off
}.

(** The rest of its last block is zero. *)
Definition tail0 (V : Z → block) (ip : inode) (off : Z) : Prop :=
  ∀ o, off ≤ o < MAXFILE * BSIZE → baddr V ip (o / BSIZE) ≠ 0 → fbyte V ip o = Some 0.

(** The number of blocks of a file of [n] bytes. *)
Definition nb (n : Z) : Z := (n + 511) / 512 + if 6144 <? n then 1 else 0.

Lemma nb_step V ip off m : dense V ip off → 0 ≤ off → 0 < m → off mod BSIZE + m ≤ BSIZE → off + m ≤ MAXFILE * BSIZE →
  nb (off + m) = nb off + cost V ip (off / BSIZE).
Proof.
  intros [Hm Hi] Hoff Hpos Hb Hmax. rewrite /cost. change BSIZE with 512 in *. change MAXFILE with 140 in *. change NDIRECT with 12 in *.
  pose proof (Z.div_mod off 512 ltac:(done)) as Hdm. pose proof (Z.mod_pos_bound off 512 ltac:(done)) as Hr.
  set (q := off / 512) in *. set (r := off mod 512) in *.
  assert ((off + m + 511) / 512 = q + 1) as E1 by (symmetry; apply (Z.div_unique _ _ _ (r + m - 1)); lia).
  assert ((off + 511) / 512 = if r =? 0 then q else q + 1) as E2.
  { destruct (Z.eqb_spec r 0); symmetry; [apply (Z.div_unique _ _ _ 511)|apply (Z.div_unique _ _ _ (r - 1))]; lia. }
  rewrite /nb E1 E2. destruct (Hm q) as [Hm1 Hm2]; [lia|].
  destruct (Z.eqb_spec (baddr V ip q) 0), (Z.eqb_spec r 0), (Z.eqb_spec (addr_of ip 12) 0), (Z.leb_spec 12 q),
    (Z.ltb_spec 6144 (off + m)), (Z.ltb_spec 6144 off); simpl; lia.
Qed.

(** Appending [p] at the end [off] of a file; the blocks from [f] up to [f']
    are new. *)
Record appended (off : Z) (p : list Z) (f f' : Z) (V : Z → block) (ip : inode) (V' : Z → block) (ip' : inode) : Prop := {
  ap_wrote : wrote (sb:=sb) (ds:=ds) off p V ip V' ip';
  ap_dense : dense V' ip' (off + length p);
  ap_tail : tail0 V' ip' (off + length p);
  ap_owned : ∀ b, f ≤ b < f' → owned V' ip' b;
  ap_keep : ∀ b, owned V ip b → owned V' ip' b
}.

Lemma appended_nil off f V ip : inode_wf (sb:=sb) (ds:=ds) V ip → meta_used V sb ds → dense V ip off → tail0 V ip off →
  appended off [] f f V ip V ip.
Proof. intros. split; rewrite /= ?Z.add_0_r //; [by apply (wrote_nil mk_cap)|lia]. Qed.

Lemma appended_app off p q f f' f'' V0 i0 V1 i1 V2 i2 : 0 ≤ off → off + length (p ++ q) ≤ MAXFILE * BSIZE →
  appended off p f f' V0 i0 V1 i1 → appended (off + length p) q f' f'' V1 i1 V2 i2 →
  appended off (p ++ q) f f'' V0 i0 V2 i2.
Proof.
  intros Hoff Hmax [W1 D1 T1 O1 K1] [W2 D2 T2 O2 K2]. rewrite length_app in Hmax.
  assert (off + length p + length q = off + length (p ++ q)) as E by (rewrite length_app; lia).
  split; rewrite -?E //.
  - apply (wrote_app mk_lay mk_cap off p q V0 i0 V1 i1); [done|lia|done|done].
  - intros b Hb. destruct (decide (b < f')); [apply K2, O1|apply O2]; lia.
  - auto.
Qed.

(** One iteration: the block is mapped and the bytes of [p] are stored. *)
Lemma appended_chunk off p f f' a V ip V' ip' : (∀ b, block_ok (V' b)) → inode_wf (sb:=sb) (ds:=ds) V ip → dense V ip off → tail0 V ip off →
  0 ≤ off → p ≠ [] → off mod BSIZE + length p ≤ BSIZE → off + length p ≤ MAXFILE * BSIZE →
  added V ip (off / BSIZE) f f' a V' ip' →
  appended off p f f' V ip (upd V' a (blit (Z.to_nat (off mod BSIZE)) p (V' a))) ip'.
Proof.
  intros Hok Hwf [Hm Hi] Ht Hoff Hp Hb Hmax Had. pose proof Had as [(X&X'&Hmp) Hother Hind _ Hown].
  assert (0 < length p) as Hlp by (destruct p; simpl; [done|lia]).
  pose proof (Z.div_mod off BSIZE ltac:(done)) as Hdm. pose proof (Z.mod_pos_bound off BSIZE ltac:(done)) as Hr.
  assert (0 ≤ off / BSIZE < MAXFILE) as Hbn by (apply (off_block mk_cap); lia). set (bn := off / BSIZE) in *.
  pose proof (fx_wf _ _ _ _ (mp_ext _ _ _ _ _ _ _ _ Hmp)) as Hwf'. pose proof (mp_addr _ _ _ _ _ _ _ _ Hmp) as Ea.
  pose proof (mp_nz _ _ _ _ _ _ _ _ Hmp) as Hnz. set (y := blit _ p (V' a)).
  assert (∀ bn', baddr (upd V' a y) ip' bn' = baddr V' ip' bn') as Hba.
  { intros bn'. rewrite -Ea. apply (write_baddr (sb:=sb) (ds:=ds)); [done|done|by rewrite Ea]. }
  assert (∀ bn', 0 ≤ bn' < MAXFILE → baddr V' ip' bn' ≠ 0 ↔ bn' * BSIZE < off + length p) as Hd.
  { intros bn' Hbn'. destruct (decide (bn' = bn)) as [->|Hne]; [rewrite Ea; sizes|]. rewrite Hother // Hm //. sizes. }
  split.
  - eapply (wrote_chunk mk_lay mk_cap); [done|done|done|done|done|done|exact Hmp].
  - split; [intros bn' Hbn'; rewrite Hba; by apply Hd|]. rewrite Hind Hi. sizes.
  - intros o Ho Hne. rewrite Hba Hd in Hne; [apply (off_block mk_cap); lia|].
    pose proof (Z.div_mod o BSIZE ltac:(done)). pose proof (Z.mod_pos_bound o BSIZE ltac:(done)).
    assert (o / BSIZE = bn) as Eo by sizes. rewrite /fbyte Hba Eo Ea upd_eq /y.
    rewrite lookup_blit_out; [destruct (Hok a) as [-> _]; sizes|sizes|].
    destruct (decide (baddr V ip bn = 0)) as [E0|Hn0].
    + destruct (mp_new _ _ _ _ _ _ _ _ Hmp E0) as [_ ->]. apply lookup_replicate_2. sizes.
    + assert (a = baddr V ip bn) as -> by (rewrite -Ea; by apply (fx_addr _ _ _ _ (mp_ext _ _ _ _ _ _ _ _ Hmp))).
      rewrite (mp_keeps _ _ _ _ _ _ _ _ Hmp); [by apply Hwf|by apply Hwf|].
      specialize (Ht o). rewrite /fbyte Eo in Ht. apply Ht; [lia|done].
  - intros b Hb'. destruct (Hown b Hb') as (Hb0&Ho). split; [done|]. by setoid_rewrite Hba.
  - intros b Hb'. destruct (added_keep _ _ _ _ _ _ _ _ b Had Hb') as (Hb0&Ho). split; [done|]. by setoid_rewrite Hba.
Qed.

Lemma nb_mono n m : n ≤ m → nb n ≤ nb m.
Proof.
  intros H. rewrite /nb. pose proof (Z.div_le_mono (n + 511) (m + 511) 512 ltac:(done) ltac:(lia)).
  destruct (Z.ltb_spec 6144 n), (Z.ltb_spec 6144 m); lia.
Qed.

(** ** [iappend] *)

Section Append.
Context (stores : Z → bool) (Hst : ∀ b, 0 ≤ b < 1000 → stores b = true).

(** One iteration. *)
Lemma iappend_loop_step fuel p s V ip din off : let m := Z.min (length p) (BSIZE - off mod BSIZE) in
  on_img s V → inode_wf (sb:=sb) (ds:=ds) V ip → d_addrs din = iaddrs ip → dense V ip off → tail0 V ip off →
  0 ≤ off → off + length p ≤ MAXFILE * BSIZE → Forall is_byte p → p ≠ [] → freeblock s + (nb (off + m) - nb off) ≤ 1000 →
  ∃ s' V' ip', iappend_loop stores (S fuel) din off p s =
      iappend_loop stores fuel (with_addrs (iaddrs ip') din) (off + m) (drop (Z.to_nat m) p) s' ∧
    on_img s' V' ∧ appended off (take (Z.to_nat m) p) (freeblock s) (freeblock s') V ip V' ip' ∧
    freeblock s' = freeblock s + (nb (off + m) - nb off) ∧ freeinode s' = freeinode s.
Proof.
  intros m Hon Hwf Hd Hdn Ht Hoff Hmax Hby Hne Hroom.
  assert (0 < length p) as Hlp by (destruct p; simpl; [done|lia]).
  assert (∀ T (x y : T), match p with [] => x | _ => y end = y) as Hc by (intros; by destruct p).
  cbn [iappend_loop]. rewrite Hc. clear Hc. rewrite /mbind /M_bind /assert_.
  pose proof (Z.div_mod off BSIZE ltac:(done)) as Hdm. pose proof (Z.mod_pos_bound off BSIZE ltac:(done)) as Hr.
  assert (0 ≤ off / BSIZE < MAXFILE) as Hbn by (apply (off_block mk_cap); lia). rewrite (proj2 (Z.ltb_lt _ _)); [lia|].
  assert (Z.min (length p) (u32 (u32 ((off / BSIZE + 1) * BSIZE) - off)) = m) as Em.
  { rewrite (u32_small (_ * _)); [rewrite /is_u32; sizes|]. rewrite u32_small; [rewrite /is_u32; sizes|]. rewrite /m. sizes. }
  pose proof (nb_step V ip off m Hdn Hoff ltac:(lia) ltac:(lia) ltac:(lia)) as Hnb.
  destruct (file_block_run stores Hst s V ip din (off / BSIZE) Hon Hwf Hd Hbn ltac:(lia)) as (s1&V1&ip1&a&->&Hon1&Had&Ef&Ei).
  cbv beta iota zeta. rewrite Em. set (w := take (Z.to_nat m) p).
  assert (length w = Z.to_nat m) as Hw by (rewrite length_take; lia).
  destruct (ad_map _ _ _ _ _ _ _ _ Had) as (X&X'&Hmp). pose proof (mp_addr _ _ _ _ _ _ _ _ Hmp) as Ea.
  destruct (wf_data _ _ (fx_wf _ _ _ _ (mp_ext _ _ _ _ _ _ _ _ Hmp)) (off / BSIZE) Hbn) as [Har Hau]; [rewrite Ea; apply Hmp|].
  rewrite Ea in Har, Hau. change (sb_size sb) with 1000 in Har.
  rewrite (used_on s1 V1) // in Hau; [lia|]. apply bool_decide_eq_true in Hau.
  rewrite (rsect_run s1 V1) //; [lia..|]. rewrite (wsect_run stores Hst s1 V1) //; [lia|].
  replace (off - off / BSIZE * BSIZE) with (off mod BSIZE) by lia. set (y := blit _ w (V1 a)).
  rewrite u32_small; [rewrite /is_u32; sizes|].
  exists (with_sect a y s1), (upd V1 a y), ip1. split_and!; [done| | |simpl; lia|done].
  - apply on_with_sect; try done; [lia|lia|]. destruct (oi_ok _ _ Hon1 a) as [Hl Hb]. split.
    + rewrite length_blit //. rewrite Hl Hw. sizes.
    + apply Forall_blit; [by apply Forall_take|done].
  - apply appended_chunk; try done; [apply Hon1|by intros E; rewrite E /= in Hw; lia|lia|lia].
Qed.

Lemma iappend_loop_run fuel : ∀ p s V ip din off,
  on_img s V → inode_wf (sb:=sb) (ds:=ds) V ip → d_addrs din = iaddrs ip → dense V ip off → tail0 V ip off →
  0 ≤ off → off + length p ≤ MAXFILE * BSIZE → Forall is_byte p →
  freeblock s + (nb (off + length p) - nb off) ≤ 1000 → (length p ≤ fuel)%nat →
  ∃ s' V' ip', iappend_loop stores fuel din off p s = Returns (with_addrs (iaddrs ip') din, off + length p) s' ∧
    on_img s' V' ∧ appended off p (freeblock s) (freeblock s') V ip V' ip' ∧
    freeblock s' = freeblock s + (nb (off + length p) - nb off) ∧ freeinode s' = freeinode s.
Proof.
  induction fuel as [|fuel IH]; intros p s V ip din off Hon Hwf Hd Hdn Ht Hoff Hmax Hby Hroom Hf;
    (destruct (decide (p = [])) as [->|Hne];
      [exists s, V, ip; rewrite -Hd with_addrs_id /= Z.add_0_r Z.sub_diag Z.add_0_r; split_and!; try done;
       apply appended_nil; try done; by apply (meta_on s)|]); [destruct p; simpl in Hf; [done|lia]|].
  assert (0 < length p) as Hlp by (destruct p; simpl; [done|lia]).
  pose proof (Z.mod_pos_bound off BSIZE ltac:(done)) as Hr. set (m := Z.min (length p) (BSIZE - off mod BSIZE)).
  pose proof (nb_mono (off + m) (off + length p) ltac:(lia)) as Hmono.
  destruct (iappend_loop_step fuel p s V ip din off Hon Hwf Hd Hdn Ht Hoff Hmax Hby Hne) as (s1&V1&ip1&->&Hon1&Hap&Ef&Ei); [fold m; lia|].
  fold m in Hap, Ef |- *. set (w := take (Z.to_nat m) p) in *. set (r := drop (Z.to_nat m) p) in *.
  assert (off + length w = off + m) as Ew by (rewrite /w length_take; lia).
  assert (off + m + length r = off + length p) as Er by (rewrite /r length_drop; lia).
  destruct Hap as [Hwr Hdn1 Ht1 Hown Hkeep] eqn:E. clear E. rewrite Ew in Hdn1, Ht1.
  destruct (IH r s1 V1 ip1 (with_addrs (iaddrs ip1) din) (off + m)) as (s'&V'&ip'&->&Hon'&Hap'&Ef'&Ei');
    [done|apply Hwr|done|done|done|lia|lia|by apply Forall_drop|rewrite Er; lia|lia|].
  rewrite Er in Ef' |- *. exists s', V', ip'. split_and!; [done|done| |lia|congruence].
  rewrite -(take_drop (Z.to_nat m) p). eapply appended_app; [done|by rewrite take_drop|exact Hap|by rewrite Ew].
Qed.
End Append.
