(* ===== verification/MkfsThms.v ===== *)
(** * The image mkfs builds: its files, and the theorem about [main]

    [image s V fs]: the inodes from 1 on hold the files [fs] (type and
    contents), no block belongs to two of them, and the blocks given out are
    exactly the blocks of the files.  [ialloc] adds an empty file to the list
    and [iappend] appends to the contents of one. *)

From S2P Require Import Prelude CInt CString Stdio Kernel Params Sleeplock Bio BioSpec Cache Log LogSpec BlockIO Fs FsBlock FsFile FsInode FsRw FsCache FsDir FsPath FsNamex Ulib Mkfs MkfsSpec.

Notation ino V num := (ino (sb:=sb) V num).

(** ** One file *)

Record holds (V : Z → block) (num ty : Z) (c : list Z) : Prop := {
  h_inv : inode_inv (sb:=sb) (ds:=ds) V (ino V num);
  h_type : d_type (dinode_on V sb num) = ty;
  h_link : d_nlink (dinode_on V sb num) = 1;
  h_size : isize (ino V num) = length c;
  h_bytes : ∀ o, 0 ≤ o < length c → fbyte V (ino V num) o = c !! Z.to_nat o;
  h_dense : dense V (ino V num) (length c);
  h_tail : tail0 V (ino V num) (length c)
}.

Lemma baddr_frame V V' ip bn : (∀ b, owned V ip b → V' b = V b) → baddr V' ip bn = baddr V ip bn.
Proof.
  intros H. rewrite /baddr. destruct (_ <? _); [done|]. destruct (Z.eqb_spec (addr_of ip NDIRECT) 0); [done|].
  rewrite H //. split; [done|]. by left.
Qed.

Lemma wf_frame V V' ip : inode_wf (sb:=sb) (ds:=ds) V ip → (∀ b, owned V ip b → V' b = V b) →
  (∀ b, 0 ≤ b < 1000 → used V sb b = true → used V' sb b = true) → inode_wf (sb:=sb) (ds:=ds) V' ip.
Proof.
  intros [Wd Wl Wi Wb Wj Wn] Hf Hu. pose proof (λ bn, baddr_frame V V' ip bn Hf) as Hb.
  assert (∀ b, data_used (sb:=sb) (ds:=ds) V b → data_used (sb:=sb) (ds:=ds) V' b) as Hdu.
  { intros b [Hr ?]. split; [done|]. apply Hu; [|done]. change (sb_size sb) with 1000 in Hr. lia. }
  split; try done; try setoid_rewrite Hb; auto.
Qed.

(** A file is as it was if its inode and its blocks are. *)
Lemma holds_frame V V' num ty c : holds V num ty c → dinode_on V' sb num = dinode_on V sb num →
  (∀ b, owned V (ino V num) b → V' b = V b) → (∀ b, 0 ≤ b < 1000 → used V sb b = true → used V' sb b = true) →
  holds V' num ty c ∧ ∀ b, owned V' (ino V' num) b ↔ owned V (ino V num) b.
Proof.
  intros [[[Hwf Hs Hfull] Hn Hrng Hsy] Ht Hl Hsz Hby [Hdm Hdi] Hta] Hd Hf Hu.
  assert (ino V' num = ino V num) as Ei by by rewrite /FsNamex.ino Hd.
  pose proof (λ bn, baddr_frame V V' (ino V num) bn Hf) as Hb.
  assert (∀ o, 0 ≤ o < MAXFILE * BSIZE → baddr V (ino V num) (o / BSIZE) ≠ 0 → fbyte V' (ino V num) o = fbyte V (ino V num) o) as Hfb.
  { intros o Ho Hne. rewrite /fbyte Hb Hf //. split; [done|]. right. exists (o / BSIZE). split; [by apply (off_block mk_cap)|done]. }
  split; [|intros b; rewrite Ei /owned; by setoid_rewrite Hb]. split; rewrite ?Ei ?Hd //.
  - split; [|done|done|by rewrite /= Hd]. split; [by apply (wf_frame V)|done|]. by setoid_rewrite Hb.
  - intros o Ho. rewrite Hfb; [lia| |by apply Hby].
    apply (block_range (sb:=sb) (ds:=ds) mk_cap V (ino V num) o); [by split|lia].
  - split; [by setoid_rewrite Hb|done].
  - intros o Ho Hne. rewrite Hb in Hne. rewrite Hfb //; [lia|]. by apply Hta.
Qed.

(** ** The list of files *)

Definition total (fs : list (Z * list Z)) : Z := foldr (λ f a, nb (length f.2) + a) 0 fs.

Lemma total_insert fs i ty c ty' c' : fs !! i = Some (ty, c) →
  total (<[i := (ty', c')]> fs) = total fs + (nb (length c') - nb (length c)).
Proof.
  revert i. induction fs as [|f fs IH]; intros [|i] Hi; try done; simpl in *.
  - injection Hi as ->. simpl. lia.
  - rewrite IH //. lia.
Qed.

Lemma total_app fs fs' : total (fs ++ fs') = total fs + total fs'.
Proof. induction fs as [|f fs IH]; simpl; [done|]. rewrite IH. lia. Qed.

Definition zero_dinode : dinode := Dinode 0 0 0 0 0 (replicate 13 0).

(** The block of the superblock. *)
Definition sb_block : block := blit 0 (sb_bytes sb) zero_block.

Record image (s : mst) (V : Z → block) (fs : list (Z * list Z)) : Prop := {
  im_on : on_img s V;
  im_files : ∀ (i : nat) ty c, fs !! i = Some (ty, c) → holds V (i + 1) ty c;
  im_rest : ∀ num, length fs < num < 200 → dinode_on V sb num = zero_dinode;
  im_count : length fs < 200;
  im_next : freeinode s = length fs + 1;
  im_blocks : freeblock s = ds + total fs;
  im_disj : ∀ (i j : nat) b, (i < length fs)%nat → (j < length fs)%nat → i ≠ j →
    owned V (ino V (i + 1)) b → ¬ owned V (ino V (j + 1)) b;
  im_low : ∀ b, 0 ≤ b < 32 → V b = if decide (b = 1) then sb_block else zero_block;
  im_owner : ∀ b, ds ≤ b < freeblock s → ∃ i : nat, (i < length fs)%nat ∧ owned V (ino V (i + 1)) b
}.

(** ** [iappend] *)

Lemma owned_used s V num ty c b : on_img s V → holds V num ty c → owned V (ino V num) b → ds ≤ b < freeblock s.
Proof.
  intros Hon H Hb. destruct (owned_data _ _ _ (fo_wf _ _ (iv_file _ _ (h_inv _ _ _ _ H))) Hb) as [Hr Hu].
  change (sb_size sb) with 1000 in Hr. rewrite (used_on s V) // in Hu; [lia|]. apply bool_decide_eq_true in Hu. lia.
Qed.

(** The file itself after [p] was appended and its inode written. *)
Lemma holds_append V num ty c p f f' V1 ip1 : let ip2 := set_isize (length c + length p) ip1 in
  let V2 := put_dinode V1 sb num (to_dinode ip2) in
  (∀ b, block_ok (V1 b)) → holds V num ty c → appended (length c) p f f' V (ino V num) V1 ip1 →
  p ≠ [] → length c + length p ≤ MAXFILE * BSIZE →
  file_written (sb:=sb) (ds:=ds) (length c) p V (ino V num) V2 ip2 ∧ dinode_rng (to_dinode ip2) ∧
  holds V2 num ty (c ++ p) ∧ (∀ b, owned V2 (ino V2 num) b ↔ owned V1 ip1 b).
Proof.
  intros ip2 V2 Hok [Hinv Ht Hl Hsz Hby _ _] [Hwr Hdn Hta _ _] Hne Hmax.
  assert (0 < length p) as Hlp by (destruct p; simpl; [done|lia]).
  destruct (written_grow mk_lay mk_cap V (ino V num) (length c) p V1 ip1) as [Hfw Hrng]; [done|done|done|lia|lia|done|].
  change (inum (ino V num)) with num in Hfw. fold ip2 in Hfw, Hrng. fold V2 in Hfw.
  pose proof (fx_meta _ _ _ _ (wr_ext _ _ _ _ _ _ Hwr)) as Hip1. pose proof (fx_wf _ _ _ _ (wr_ext _ _ _ _ _ _ Hwr)) as Hwf1.
  assert (0 < num < sb_ninodes sb) as Hnum by apply (iv_num _ _ Hinv).
  assert (ino V2 num = ip2) as Ei.
  { pose proof (iv_sync _ _ (fw_inv _ _ _ _ _ _ Hfw)) as Hsy. rewrite (_ : inum ip2 = num) in Hsy; [by rewrite /ip2 Hip1|].
    by rewrite /FsNamex.ino Hsy /ip2 Hip1. }
  assert (dinode_on V2 sb num = to_dinode ip2) as Ed by by apply put_dinode_same.
  destruct (wf_same_data mk_lay mk_cap V1 V2 ip1 ip2) as [Hb2 _]; [done|done|done| | |].
  { intros b Hb. by apply (put_dinode_data mk_lay). } { intros b Hb. by apply (put_dinode_used mk_lay). }
  assert (∀ o, 0 ≤ o < MAXFILE * BSIZE → baddr V1 ip1 (o / BSIZE) ≠ 0 → fbyte V2 ip2 o = fbyte V1 ip1 o) as Hfb.
  { intros o Ho Hn. rewrite /fbyte Hb2 /V2 (put_dinode_data mk_lay) //. by apply (wf_data _ _ Hwf1); [apply (off_block mk_cap)|]. }
  split_and!; [done|done| |intros b; rewrite Ei /owned; by setoid_rewrite Hb2].
  split; rewrite ?Ei ?Ed /=; rewrite ?length_app ?Nat2Z.inj_add.
  - apply Hfw.
  - by rewrite Hip1.
  - by rewrite Hip1.
  - done.
  - intros o Ho. rewrite (fw_bytes _ _ _ _ _ _ Hfw); [simpl; lia|]. case_decide.
    + rewrite lookup_app_r; [lia|]. f_equal. lia.
    + rewrite Hby; [lia|]. rewrite lookup_app_l //. lia.
  - destruct Hdn as [Hm Hi]. split; [by setoid_rewrite Hb2|done].
  - intros o Ho Hn. rewrite Hb2 in Hn. rewrite Hfb //; [lia|]. by apply Hta.
Qed.

Section Ops.
Context (stores : Z → bool) (Hst : ∀ b, 0 ≤ b < 1000 → stores b = true).

(** The run of [iappend] on the blocks. *)
Lemma iappend_run s V num ty c p : on_img s V → holds V num ty c → 0 < num < 200 → Forall is_byte p → p ≠ [] →
  length c + length p ≤ MAXFILE * BSIZE → freeblock s + (nb (length c + length p) - nb (length c)) ≤ 1000 →
  ∃ s' V1 V' ip1 ip', iappend stores num p s = Returns tt s' ∧ on_img s' V' ∧ freeinode s' = freeinode s ∧
    freeblock s' = freeblock s + (nb (length c + length p) - nb (length c)) ∧
    appended (length c) p (freeblock s) (freeblock s') V (ino V num) V1 ip1 ∧
    file_written (sb:=sb) (ds:=ds) (length c) p V (ino V num) V' ip' ∧
    holds V' num ty (c ++ p) ∧ (∀ b, owned V' (ino V' num) b ↔ owned V1 ip1 b) ∧ (∀ b, 0 ≤ b < 32 → V' b = V b).
Proof.
  intros Hon Hh Hnum Hby Hne Hmax Hroom. rewrite /iappend /mbind /M_bind (rinode_run s V) //.
  pose proof (h_size _ _ _ _ Hh) as Hsz. assert (MAXFILE * BSIZE < 2 ^ 31) as Hm by done.
  assert (d_size (dinode_on V sb num) = length c) as Eds by done.
  rewrite Eds xint_small; [rewrite /is_u32; lia|].
  destruct (iappend_loop_run stores Hst (length p) p s V (ino V num) (dinode_on V sb num) (length c))
    as (s1&V1&ip1&->&Hon1&Hap&Ef&Ei); try done; [apply Hh|apply Hh|apply Hh|lia|].
  destruct (holds_append V num ty c p (freeblock s) (freeblock s1) V1 ip1) as (Hfw&Hrng&Hh'&Ho); try done; [apply Hon1|].
  set (ip2 := set_isize _ ip1) in *.
  rewrite (_ : set_dsize _ (with_addrs _ _) = to_dinode ip2).
  { rewrite xint_small; [rewrite /is_u32; lia|].
    rewrite /ip2 (fx_meta _ _ _ _ (wr_ext _ _ _ _ _ _ (ap_wrote _ _ _ _ _ _ _ _ Hap))). done. }
  destruct (winode_run stores Hst s1 V1 num (to_dinode ip2) Hon1 Hnum Hrng) as (s2&->&Hon2&Ef2&Ei2).
  eexists s2, V1, _, ip1, ip2. split_and!; [done|exact Hon2|congruence|lia|by rewrite Ef2|done|done|done|].
  intros b Hb. destruct (IBLOCK_sb num) as [E Hr]; [lia|]. rewrite /put_dinode E upd_ne; [lia|].
  apply (fx_inodes _ _ _ _ (wr_ext _ _ _ _ _ _ (ap_wrote _ _ _ _ _ _ _ _ Hap))); [lia|]. intros c' Hc'. rewrite BBLOCK_sb //. lia.
Qed.

Lemma iappend_ok s V fs (i : nat) ty c p : image s V fs → fs !! i = Some (ty, c) → Forall is_byte p → p ≠ [] →
  length (c ++ p) ≤ MAXFILE * BSIZE → ds + total (<[i := (ty, c ++ p)]> fs) ≤ 1000 →
  ∃ s' V', iappend stores (i + 1) p s = Returns tt s' ∧ image s' V' (<[i := (ty, c ++ p)]> fs).
Proof.
  intros [Hon Hfs Hrest Hcnt Hnext Hbl Hdis Hlow Hown] Hi Hby Hne Hmax Hroom.
  pose proof (lookup_lt_Some _ _ _ Hi) as Hlt. rewrite (total_insert _ _ ty c) // in Hroom.
  assert (Z.of_nat (length (c ++ p)) = length c + length p) as El by (rewrite length_app; lia). rewrite El in Hmax, Hroom.
  destruct (iappend_run s V (i + 1) ty c p) as (s'&V1&V'&ip1&ip'&->&Hon'&Ei&Ef&Hap&Hfw&Hh&Ho&Hl); try done; [by apply Hfs|lia|lia|].
  exists s', V'. split; [done|].
  assert (∀ (j : nat) ty' c', j ≠ i → fs !! j = Some (ty', c') →
    holds V' (j + 1) ty' c' ∧ ∀ b, owned V' (ino V' (j + 1)) b ↔ owned V (ino V (j + 1)) b) as Hother.
  { intros j ty' c' Hji Hj. pose proof (lookup_lt_Some _ _ _ Hj) as Hltj. pose proof (Hfs j _ _ Hj) as Hhj.
    apply holds_frame; [done| | |].
    - apply (fw_inodes _ _ _ _ _ _ Hfw); [change (sb_ninodes sb) with 200; lia|simpl; lia].
    - intros b Hb. pose proof (owned_used s V _ _ _ b Hon Hhj Hb). pose proof (oi_fb _ _ Hon).
      apply (fw_frame _ _ _ _ _ _ Hfw); [change (sb_size sb) with 1000; lia| |by apply (Hdis j)].
      rewrite (used_on s V) //; [lia|]. apply bool_decide_eq_true. lia.
    - apply (fw_used _ _ _ _ _ _ Hfw). }
  assert (∀ b, owned V' (ino V' (i + 1)) b → owned V (ino V (i + 1)) b ∨ freeblock s ≤ b) as Hnew.
  { intros b Hb. pose proof (owned_used s' V' _ _ _ b Hon' Hh Hb) as Hr. pose proof (oi_fb _ _ Hon'). apply Ho in Hb.
    destruct (fx_new _ _ _ _ (wr_ext _ _ _ _ _ _ (ap_wrote _ _ _ _ _ _ _ _ Hap)) b Hb) as [?|Hu]; [by left|right].
    rewrite (used_on s V) // in Hu; [lia|]. apply bool_decide_eq_false in Hu. lia. }
  assert (∀ (j : nat) b, (j < length fs)%nat → j ≠ i → owned V' (ino V' (j + 1)) b ↔ owned V (ino V (j + 1)) b) as Hoj.
  { intros j b Hj Hji. destruct (lookup_lt_is_Some_2 fs j Hj) as [[ty' c'] E]. by apply (Hother j ty' c'). }
  assert (∀ (j : nat) b, (j < length fs)%nat → owned V (ino V (j + 1)) b → b < freeblock s) as Hold.
  { intros j b Hj Hb. destruct (lookup_lt_is_Some_2 fs j Hj) as [[ty' c'] E].
    pose proof (owned_used s V _ _ _ b Hon (Hfs j _ _ E) Hb). lia. }
  split; try done; rewrite ?length_insert //.
  - intros j ty' c' [(<-&[= <- <-]&_)|[Hji Hj]]%list_lookup_insert_Some; [done|]. by apply Hother.
  - intros num Hn. rewrite (fw_inodes _ _ _ _ _ _ Hfw); [change (sb_ninodes sb) with 200; lia|simpl; lia|]. apply Hrest. lia.
  - lia.
  - rewrite (total_insert _ _ ty c) //. rewrite Ef El. lia.
  - intros j k b Hj Hk Hjk. destruct (decide (j = i)) as [->|Hji], (decide (k = i)) as [->|Hki]; try done.
    + rewrite (Hoj k) //. intros [?|?]%Hnew Hb; [by apply (Hdis i k b)|]. pose proof (Hold k b Hk Hb). lia.
    + rewrite (Hoj j) //. intros Hb [?|?]%Hnew; [by apply (Hdis i j b)|]. pose proof (Hold j b Hj Hb). lia.
    + rewrite !Hoj //. by apply Hdis.
  - intros b Hb. rewrite Hl //. by apply Hlow.
  - intros b Hb. destruct (decide (b < freeblock s)) as [Hlo|Hhi].
    + destruct (Hown b) as (j&Hj&Hb'); [lia|]. exists j. split; [done|]. destruct (decide (j = i)) as [->|Hji].
      * apply Ho. by apply (ap_keep _ _ _ _ _ _ _ _ Hap).
      * by rewrite Hoj.
    + exists i. split; [done|]. apply Ho. apply (ap_owned _ _ _ _ _ _ _ _ Hap). lia.
Qed.

(** ** [ialloc] *)

Definition new_dinode (ty : Z) : dinode := Dinode ty 0 0 1 0 (replicate 13 0).

Lemma no_blocks V ip : idev ip = ROOTDEV → iaddrs ip = replicate 13 0 →
  inode_wf (sb:=sb) (ds:=ds) V ip ∧ (∀ bn, baddr V ip bn = 0) ∧ addr_of ip NDIRECT = 0.
Proof.
  intros Hd Ha. assert (∀ k, addr_of ip k = 0) as H0.
  { intros k. rewrite /addr_of Ha. destruct (replicate 13 0 !! _) eqn:E; [|done]. by apply lookup_replicate in E as [-> _]. }
  assert (∀ bn, baddr V ip bn = 0) as Hb.
  { intros bn. rewrite /baddr !H0. by destruct (_ <? _). }
  split; [|done]. split; rewrite ?H0 ?Ha //; intros bn; by rewrite Hb.
Qed.

Lemma new_dinode_rng ty : 0 < ty < 2 ^ 15 → dinode_rng (new_dinode ty).
Proof.
  intros Ht. split; try done; simpl; try (rewrite /is_s16; lia).
  apply (bool_decide_unpack _). by vm_compute.
Qed.

Lemma holds_new V num ty : (∀ b, block_ok (V b)) → 0 < num < 200 → 0 < ty < 2 ^ 15 →
  let V' := put_dinode V sb num (new_dinode ty) in holds V' num ty [] ∧ ∀ b, ¬ owned V' (ino V' num) b.
Proof.
  intros Hok Hn Ht V'. pose proof (new_dinode_rng ty Ht) as Hrng.
  assert (dinode_on V' sb num = new_dinode ty) as Ed by by apply put_dinode_same.
  destruct (no_blocks V' (ino V' num)) as (Hwf&Hb&Hi); [done|by rewrite /FsNamex.ino Ed|].
  assert (isize (ino V' num) = 0) as Es by by rewrite /FsNamex.ino Ed.
  split.
  - split; rewrite ?Ed //=; [|simpl; lia| |intros o _; by rewrite Hb].
    + split; [|done|by rewrite /FsNamex.ino Ed|by rewrite /FsNamex.ino /= !Ed].
      split; rewrite ?Es; [done|sizes|]. intros bn H0 H1. sizes.
    + split; [|rewrite Hi; sizes]. intros bn Hbn. rewrite Hb. sizes.
  - intros b (H0&[->|(bn&_&->)]); [by rewrite Hi in H0|by rewrite Hb in H0].
Qed.

Lemma ialloc_ok s V fs ty : image s V fs → length fs + 1 < 200 → 0 < ty < 2 ^ 15 →
  ∃ s' V', ialloc stores ty s = Returns (length fs + 1) s' ∧ image s' V' (fs ++ [(ty, [])]).
Proof.
  intros [Hon Hfs Hrest Hcnt Hnext Hbl Hdis Hlow Hown] Hn Hty. set (num := length fs + 1) in *.
  assert (0 < num < sb_ninodes sb) as Hnum by (change (sb_ninodes sb) with 200; lia).
  assert (Dinode (s16 (xshort ty)) 0 0 (s16 (xshort 1)) (xint 0) (replicate (Z.to_nat NDIRECT + 1) 0) = new_dinode ty) as Ed.
  { rewrite xshort_u16 s16_u16; [rewrite /is_s16; lia|]. done. }
  destruct (holds_new V num ty) as [Hh Hno]; [apply Hon|lia|done|]. set (V' := put_dinode V sb num (new_dinode ty)) in *.
  assert (on_img (set_freeinode (num + 1) s) V) as Hon1 by (destruct Hon; by split).
  rewrite /ialloc Hnext Ed /mbind /M_bind. fold num. rewrite u32_small; [rewrite /is_u32; lia|].
  destruct (winode_run stores Hst _ V num (new_dinode ty) Hon1) as (s'&->&Hon'&Ef&Ei); [lia|by apply new_dinode_rng|].
  fold V' in Hon'. simpl in Ef, Ei. exists s', V'. split; [done|].
  assert (∀ b, ds ≤ b → V' b = V b) as Hdata by (intros b Hb; by apply (put_dinode_data mk_lay)).
  assert (∀ (j : nat) ty' c', fs !! j = Some (ty', c') →
    holds V' (j + 1) ty' c' ∧ ∀ b, owned V' (ino V' (j + 1)) b ↔ owned V (ino V (j + 1)) b) as Hother.
  { intros j ty' c' Hj. pose proof (lookup_lt_Some _ _ _ Hj). apply holds_frame; [by apply Hfs| | |].
    - apply (put_dinode_other mk_lay); [apply Hon|done|by apply new_dinode_rng|lia|lia].
    - intros b Hb. pose proof (owned_used s V _ _ _ b Hon (Hfs j _ _ Hj) Hb). apply Hdata. lia.
    - intros b Hb Hu. rewrite (put_dinode_used mk_lay) //. }
  assert (∀ (j : nat) b, (j < length fs)%nat → owned V' (ino V' (j + 1)) b ↔ owned V (ino V (j + 1)) b) as Hoj.
  { intros j b Hj. destruct (lookup_lt_is_Some_2 fs j Hj) as [[ty' c'] E]. by apply (Hother j ty' c'). }
  split; try done; rewrite ?length_app /=.
  - intros j ty' c' [Hj|[Hge Hj]]%lookup_app_Some; [by apply Hother|].
    apply list_lookup_singleton_Some in Hj as [Hj [= <- <-]]. replace (j + 1) with num by lia. done.
  - intros k Hk. rewrite (put_dinode_other mk_lay); [apply Hon|done|by apply new_dinode_rng| | |].
    + change (sb_ninodes sb) with 200. lia.
    + lia.
    + apply Hrest. lia.
  - lia.
  - lia.
  - rewrite total_app. change (total [(ty, [])]) with 0. lia.
  - intros j k b Hj Hk Hjk. destruct (decide (j = length fs)) as [->|Hjl]; [intros Hb; by apply Hno in Hb|].
    destruct (decide (k = length fs)) as [->|Hkl]; [intros _; apply Hno|].
    rewrite !Hoj; [lia|lia|]. apply Hdis; [lia|lia|done].
  - intros b Hb. destruct (IBLOCK_sb num) as [E Hr]; [lia|]. rewrite /V' /put_dinode E upd_ne; [lia|]. by apply Hlow.
  - intros b Hb. destruct (Hown b) as (j&Hj&Hb'); [lia|]. exists j. split; [lia|]. by rewrite Hoj.
Qed.
End Ops.

(** ** mkfs builds a file system

    The run of [main], and what the kernel finds on the image: the superblock,
    an empty log, and a directory tree whose root holds the files named on the
    command line. *)

#[local] Opaque new_dent.

Lemma nb_pos n : 0 ≤ n → 0 ≤ nb n.
Proof. intros H. apply (nb_mono 0 n H). Qed.

Lemma total_pos fs : 0 ≤ total fs.
Proof. induction fs as [|f fs IH]; simpl; [done|]. pose proof (nb_pos (length f.2) ltac:(lia)). lia. Qed.

(** The disk with the blocks of the image. *)
Definition disk_of (l : list block) : disk := Disk (map_seqZ 0 l) (length l) [].

Lemma dread_disk_of l b : dread (disk_of l) b = if decide (0 ≤ b < length l) then default zero_block (l !! Z.to_nat b) else zero_block.
Proof.
  rewrite /dread /=. case_decide as Hb.
  - rewrite lookup_map_seqZ_0 //. lia.
  - rewrite (_ : map_seqZ 0 l !! b = None) //. apply lookup_map_seqZ_None. lia.
Qed.

(** ** The empty file system *)

Definition V0 (b : Z) : block := if decide (b = 1) then sb_block else if decide (b = 58) then bitmap 59 else zero_block.

Lemma slice_zero off : (off + 64 ≤ 512)%nat → slice off 64 zero_block = replicate 64 0.
Proof. intros H. rewrite /slice /zero_block drop_replicate take_replicate. f_equal. unfold BSIZE. lia. Qed.

Lemma dinode_zero V num : V (IBLOCK num sb) = zero_block → dinode_on V sb num = zero_dinode.
Proof.
  intros E. rewrite /dinode_on E slice_zero; [|done]. pose proof (dip_off_fit num zero_block zero_block_ok).
  change (length zero_block) with 512%nat in H. lia.
Qed.

Lemma sb_block_ok : block_ok sb_block.
Proof. apply (bool_decide_unpack _). by vm_compute. Qed.

Lemma empty_image s : img s = <[1%nat := sb_block]> (replicate 1000 zero_block) → freeblock s = ds → freeinode s = 1 → image s V0 [].
Proof.
  intros Hi Hf Hn. split; simpl; try done; try lia.
  - split; rewrite ?Hf ?Hi //.
    + intros b Hb Hne. rewrite /V0. case_decide as E1; [subst; rewrite list_lookup_insert_eq // length_replicate; lia|].
      rewrite decide_False // list_lookup_insert_ne; [lia|]. apply lookup_replicate_2. lia.
    + intros b. rewrite /V0. repeat case_decide; [apply sb_block_ok|apply bitmap_ok|apply zero_block_ok].
    + intros b Hb. rewrite /V0 !decide_False //; lia.
    + intros b Hb. rewrite /V0 !decide_False //; intros ->; lia.
  - intros num Hnum. apply dinode_zero. destruct (IBLOCK_sb num) as [-> ?]; [lia|]. rewrite /V0 !decide_False //; lia.
  - intros b Hb. rewrite /V0. case_decide; [done|]. rewrite decide_False //. lia.
Qed.

Section Run.
Context (stores : Z → bool) (Hst : ∀ b, 0 ≤ b < 1000 → stores b = true).

Lemma wipe_run n : ∀ s, (length (img s) + n ≤ 1000)%nat →
  wipe stores n (length (img s)) s = Returns tt (set_img (img s ++ replicate n zero_block) s).
Proof.
  induction n as [|n IH]; intros s Hs; cbn [wipe].
  { rewrite app_nil_r. by destruct s. }
  rewrite /mbind /M_bind /wsect sector_small; [lia|]. rewrite Hst; [lia|]. rewrite /put_sect Nat2Z.id bool_decide_eq_false_2; [lia|].
  rewrite Nat.sub_diag /=. set (s1 := set_img _ s). specialize (IH s1). rewrite /= length_app /= in IH.
  replace (length (img s) + 1) with (Z.of_nat (length (img s) + 1)) by lia. rewrite IH; [lia|]. by rewrite /s1 /set_img /= -app_assoc.
Qed.

(** ** Copying a file *)

Lemma copy_in_ok fuel : ∀ fd s V fs (i : nat) ty c, image s V fs → fs !! i = Some (ty, c) → Forall is_byte (unread fd) →
  length (c ++ unread fd) ≤ MAXFILE * BSIZE → ds + total (<[i := (ty, c ++ unread fd)]> fs) ≤ 1000 → (length (unread fd) < fuel)%nat →
  ∃ s' V', copy_in stores fuel (i + 1) fd s = Returns tt s' ∧ image s' V' (<[i := (ty, c ++ unread fd)]> fs).
Proof.
  induction fuel as [|fuel IH]; intros fd s V fs i ty c Him Hi Hby Hmax Hroom Hf; [lia|]. cbn [copy_in]. rewrite /read.
  set (k := match avail fd with [] => Z.to_nat BSIZE | a :: _ => (Z.to_nat BSIZE `min` S a)%nat end).
  assert (0 < k)%nat as Hk by (rewrite /k; destruct (avail fd); unfold BSIZE; lia).
  destruct (unread fd) as [|x u] eqn:Eu.
  { rewrite take_nil app_nil_r list_insert_id //. by exists s, V. }
  assert (∃ y w, take k (x :: u) = y :: w) as (y&w&Et) by (destruct k; [lia|]; simpl; eauto). rewrite Et -Et.
  set (p := take k (x :: u)) in *. set (r := drop k (x :: u)).
  assert (p ++ r = x :: u) as Epr by apply take_drop. rewrite -Epr in Hby, Hmax, Hroom |- *.
  apply Forall_app in Hby as [Hbp Hbr]. rewrite !length_app in Hmax.
  assert (length p + length r = length (x :: u))%nat as El by by rewrite -Epr length_app.
  assert (length p ≠ 0)%nat as Hp by by rewrite Et.
  assert (length (c ++ p) ≤ length (c ++ p ++ r)) as Hle by (rewrite !length_app; lia).
  pose proof (nb_mono _ _ Hle) as Hnb. rewrite (total_insert _ _ ty c) // in Hroom.
  destruct (iappend_ok stores Hst s V fs i ty c p) as (s1&V1&E1&Him1); try done.
  { intros E. by rewrite E in Hp. } { rewrite length_app. lia. } { rewrite (total_insert _ _ ty c) //. lia. }
  rewrite /mbind /M_bind E1. pose proof (lookup_lt_Some _ _ _ Hi) as Hlt.
  destruct (IH (Input r (tail (avail fd))) s1 V1 (<[i := (ty, c ++ p)]> fs) i ty (c ++ p)) as (s2&V2&E2&Him2); simpl; try done.
  { by rewrite list_lookup_insert_eq. } { rewrite !length_app. lia. }
  { rewrite -app_assoc list_insert_insert_eq (total_insert _ _ ty c) //. } { lia. }
  simpl in Him2. rewrite -app_assoc list_insert_insert_eq in Him2. by exists s2, V2.
Qed.

(** ** The size of the root directory *)

(** The size of a file is rounded up to the end of its last block. *)
Lemma holds_resize V num ty c (k : nat) : (∀ b, block_ok (V b)) → 0 < num < 200 → holds V num ty c →
  (k < 512)%nat → (length c) mod BSIZE + k = BSIZE → length c + k ≤ MAXFILE * BSIZE →
  let ip2 := set_isize (length c + k) (ino V num) in let V2 := put_dinode V sb num (to_dinode ip2) in
  dinode_rng (to_dinode ip2) ∧ holds V2 num ty (c ++ replicate k 0) ∧ (∀ b, owned V2 (ino V2 num) b ↔ owned V (ino V num) b).
Proof using Type.
  intros Hok Hn [[[Hwf Hs Hfull] Hnum Hrng Hsy] Ht Hl Hsz Hby [Hdm Hdi] Hta] Hk Hmod Hmax ip2 V2.
  assert (MAXFILE * BSIZE < 2 ^ 31) as Hm by done. pose proof (Z.div_mod (length c) BSIZE ltac:(done)) as Hq.
  assert (dinode_rng (to_dinode ip2)) as Hrng2 by (destruct Hrng; split; try done; simpl; rewrite /is_u32; lia).
  assert (dinode_on V2 sb num = to_dinode ip2) as Ed by by apply put_dinode_same.
  assert (ino V2 num = ip2) as Ei by by rewrite /FsNamex.ino Ed.
  destruct (wf_same_data mk_lay mk_cap V V2 (ino V num) ip2) as [Hb Hwf2]; [done|done|done| | |].
  { intros b Hb. by apply (put_dinode_data mk_lay). } { intros b Hb. by apply (put_dinode_used mk_lay). }
  assert (∀ o, 0 ≤ o < MAXFILE * BSIZE → baddr V (ino V num) (o / BSIZE) ≠ 0 → fbyte V2 ip2 o = fbyte V (ino V num) o) as Hfb.
  { intros o Ho Hne. rewrite /fbyte Hb /V2 (put_dinode_data mk_lay) //. by apply (wf_data _ _ Hwf); [apply (off_block mk_cap)|]. }
  assert (∀ bn, bn * BSIZE < length c + k ↔ bn * BSIZE < length c) as Hround by (intros bn; sizes).
  assert (∀ bn, 0 ≤ bn < MAXFILE → baddr V2 ip2 bn ≠ 0 ↔ bn * BSIZE < length c + k) as Hd2 by (intros bn Hbn; rewrite Hb Hround; by apply Hdm).
  assert (∀ o, 0 ≤ o < length c + k → baddr V (ino V num) (o / BSIZE) ≠ 0) as Hin.
  { intros o Ho. apply Hdm; [apply (off_block mk_cap); lia|]. apply Hround. pose proof (Z.mul_div_le o BSIZE ltac:(done)). lia. }
  split; [done|]. split; [|intros b; rewrite Ei /owned; by setoid_rewrite Hb].
  assert (Z.of_nat (length (c ++ replicate k 0)) = length c + k) as El by (rewrite length_app length_replicate; lia).
  split; rewrite ?Ei ?Ed ?El //.
  - split; [split; [done|simpl; lia|]|done|done|done]. intros bn Hbn Hlt. simpl in Hlt. apply Hd2; [sizes|done].
  - intros o Ho. rewrite Hfb; [lia|by apply Hin|]. destruct (decide (o < length c)).
    + rewrite Hby; [lia|]. rewrite lookup_app_l //. lia.
    + rewrite lookup_app_r; [lia|]. rewrite lookup_replicate_2; [lia|]. apply Hta; [lia|by apply Hin].
  - split; [done|]. change (addr_of ip2 NDIRECT) with (addr_of (ino V num) NDIRECT). by rewrite Hdi -Hround.
  - intros o Ho Hne. rewrite Hb in Hne. rewrite Hfb; [lia|done|]. apply Hta; [lia|done].
Qed.

Lemma fix_root_ok s V root fs (k : nat) : image s V ((T_DIR, root) :: fs) → (k < 512)%nat → (length root) mod BSIZE + k = BSIZE →
  length root + k ≤ MAXFILE * BSIZE →
  ∃ s' V', fix_root stores 1 s = Returns tt s' ∧ image s' V' ((T_DIR, root ++ replicate k 0) :: fs).
Proof.
  intros [Hon Hfs Hrest Hcnt Hnext Hbl Hdis Hlow Hown] Hk Hmod Hmax. assert (MAXFILE * BSIZE < 2 ^ 31) as Hm by done.
  pose proof (Hfs 0%nat T_DIR root eq_refl) as Hh. change (Z.of_nat 0 + 1) with 1 in Hh.
  destruct (holds_resize V 1 T_DIR root k) as (Hrng&Hh'&Ho); try done; [apply Hon|]. pose proof (h_size _ _ _ _ Hh) as Hsz.
  set (ip2 := set_isize _ _) in *. set (V2 := put_dinode V sb 1 (to_dinode ip2)) in *.
  rewrite /fix_root (bind_run _ _ s _ s (rinode_run s V 1 Hon ltac:(lia))).
  change (d_size (dinode_on V sb 1)) with (isize (ino V 1)). rewrite Hsz (xint_small (length root)); [rewrite /is_u32; lia|].
  pose proof (Z.div_mod (length root) BSIZE ltac:(done)) as Hq. rewrite u32_small; [rewrite /is_u32; sizes|].
  rewrite (_ : (length root / BSIZE + 1) * BSIZE = length root + k); [sizes|]. rewrite xint_small; [rewrite /is_u32; lia|].
  destruct (winode_run stores Hst s V 1 (to_dinode ip2) Hon ltac:(lia) Hrng) as (s'&E&Hon'&Ef&Ei). fold V2 in Hon'.
  exists s', V2. split; [exact E|].
  assert (∀ (j : nat) ty' c', fs !! j = Some (ty', c') →
    holds V2 (S j + 1) ty' c' ∧ ∀ b, owned V2 (ino V2 (S j + 1)) b ↔ owned V (ino V (S j + 1)) b) as Hother.
  { intros j ty' c' Hj. pose proof (lookup_lt_Some _ _ _ Hj). apply holds_frame; [by apply (Hfs (S j))| | |].
    - apply (put_dinode_other mk_lay); [apply Hon|done|done| |lia]. change (sb_ninodes sb) with 200. simpl in Hcnt. lia.
    - intros b Hb. pose proof (owned_used s V _ _ _ b Hon (Hfs (S j) _ _ Hj) Hb). apply (put_dinode_data mk_lay); [done|lia].
    - intros b Hb Hu. rewrite (put_dinode_used mk_lay) //. }
  assert (∀ (j : nat) b, (j < S (length fs))%nat → owned V2 (ino V2 (j + 1)) b ↔ owned V (ino V (j + 1)) b) as Hoj.
  { intros [|j] b Hj; [apply Ho|]. destruct (lookup_lt_is_Some_2 fs j) as [[ty' c'] E2]; [lia|]. by apply (Hother j ty' c'). }
  split; try done; simpl in *.
  - intros [|j] ty c; simpl; [intros [= <- <-]; done|]. intros Hj. by apply (Hother j).
  - intros num Hn. rewrite (put_dinode_other mk_lay); [apply Hon|done|done| |lia|by apply Hrest]. change (sb_ninodes sb) with 200. lia.
  - congruence.
  - rewrite Ef Hbl length_app length_replicate. do 2 f_equal. rewrite /nb.
    destruct (Z.ltb_spec 6144 (length root)), (Z.ltb_spec 6144 (length root + k)%nat); change BSIZE with 512 in *; Z.div_mod_to_equations; lia.
  - intros i j b Hi Hj Hij. rewrite !Hoj //. by apply Hdis.
  - intros b Hb. rewrite /V2 /put_dinode. destruct (IBLOCK_sb 1) as [-> ?]; [lia|]. rewrite upd_ne; [simpl; lia|]. by apply Hlow.
  - intros b Hb. destruct (Hown b) as (j&Hj&Hb'); [lia|]. exists j. split; [done|]. by rewrite Hoj.
Qed.

(** ** The files of the command line *)

(** The argument [a] names the file with name and contents [f]. *)
Definition arg_ok (opens : list Z → option input) (a : list Z) (f : list Z * list Z) : Prop :=
  47 ∉ a ∧ f.1 = skip_underscore a ∧ (∃ fd, opens a = Some fd ∧ unread fd = f.2) ∧
  Forall is_byte f.1 ∧ Forall is_byte f.2 ∧ length f.2 ≤ MAXFILE * BSIZE.

(** The directory entries of the files, which get the inodes from [num] on. *)
Fixpoint dir_bytes (num : Z) (fl : list (list Z * list Z)) : list Z :=
  match fl with
  | [] => []
  | f :: fl => new_dent f.1 num ++ dir_bytes (num + 1) fl
  end.

Lemma length_dir_bytes num fl : length (dir_bytes num fl) = (16 * length fl)%nat.
Proof. revert num. induction fl as [|f fl IH]; intros num; simpl; [done|]. rewrite length_app length_new_dent IH. lia. Qed.

Lemma dirent_new num name : dirent num name = new_dent name num.
Proof. by rewrite /dirent xshort_u16. Qed.

Definition regular (f : list Z * list Z) : Z * list Z := (T_FILE, f.2).

Lemma total_root root root' fs : (length root ≤ length root')%nat → total ((T_DIR, root) :: fs) ≤ total ((T_DIR, root') :: fs).
Proof. intros H. simpl. pose proof (nb_mono (length root) (length root') ltac:(lia)). lia. Qed.

Lemma add_files_ok opens args : ∀ fl s V root fs, Forall2 (arg_ok opens) args fl → image s V ((T_DIR, root) :: fs) →
  length root + 16 * length fl ≤ MAXFILE * BSIZE → length fs + 1 + length fl < 200 →
  let root' := root ++ dir_bytes (length fs + 2) fl in
  ds + total ((T_DIR, root') :: fs ++ (regular <$> fl)) ≤ 1000 →
  ∃ s' V', add_files stores opens 1 args s = Returns tt s' ∧ image s' V' ((T_DIR, root') :: fs ++ (regular <$> fl)).
Proof.
  induction args as [|a args IH]; intros fl s V root fs Hargs Him Hmax Hn root' Hroom.
  { inversion Hargs; subst. rewrite /root' !app_nil_r. by exists s, V. }
  inversion Hargs as [|? [name c] ? fl' (Hsl&Hname&(fd&Eo&Eu)&Hb1&Hb2&Hc) Hargs']; subst. simpl in * |-. subst name.
  cbn [add_files]. rewrite bool_decide_eq_true_2 // Eo (bind_run _ _ s tt s) //. set (nm := skip_underscore a) in *.
  assert (root' = (root ++ new_dent nm (length fs + 2)) ++ dir_bytes (length fs + 2 + 1) fl') as Er by by rewrite /root' -app_assoc.
  set (root1 := root ++ new_dent nm (length fs + 2)) in *.
  assert (length root1 = length root + 16)%nat as Hl1 by by rewrite length_app length_new_dent.
  assert (length root1 ≤ length root')%nat as Hle by (rewrite Er length_app; lia).
  pose proof (nb_mono (length root1) (length root') ltac:(lia)) as Hnb1.
  pose proof (nb_mono (length root) (length root1) ltac:(lia)) as Hnb0.
  pose proof (nb_pos (length c) ltac:(lia)) as Hnbc.
  rewrite total_app /= in Hroom. change (list_fmap _ _ regular fl') with (regular <$> fl') in Hroom.
  pose proof (total_pos (regular <$> fl')) as Htp.
  destruct (ialloc_ok stores Hst s V _ T_FILE Him) as (s1&V1&E1&Him1); [simpl; lia|done|].
  rewrite (bind_run _ _ _ _ _ E1). replace (length ((T_DIR, root) :: fs) + 1) with (length fs + 2) by (simpl; lia).
  destruct (iappend_ok stores Hst s1 V1 _ 0%nat T_DIR root (new_dent nm (length fs + 2)) Him1) as (s2&V2&E2&Him2); try done.
  { by apply new_dent_bytes. } { fold root1. lia. } { fold root1. simpl. rewrite total_app /=. change (nb 0%nat) with 0. lia. }
  fold root1 in Him2. simpl in Him2. rewrite dirent_new. change (Z.of_nat 0 + 1) with 1 in E2. rewrite (bind_run _ _ _ _ _ E2).
  destruct (copy_in_ok (S (length (unread fd))) fd s2 V2 _ (S (length fs)) T_FILE [] Him2) as (s3&V3&E3&Him3).
  { simpl. by rewrite lookup_app_r // Nat.sub_diag. } { by rewrite Eu. } { by rewrite Eu. }
  { rewrite Eu. simpl. rewrite insert_app_r_alt // Nat.sub_diag /= total_app /=. lia. } { lia. }
  rewrite Eu in Him3, E3 |- *. replace (S (length fs) + 1) with (length fs + 2) in E3 by lia. rewrite (bind_run _ _ _ _ _ E3).
  simpl in Him3. rewrite insert_app_r_alt // Nat.sub_diag /= in Him3.
  assert (length (fs ++ [(T_FILE, c)]) + 2 = length fs + 2 + 1) as El by (rewrite length_app /=; lia).
  specialize (IH fl' s3 V3 root1 (fs ++ [(T_FILE, c)]) Hargs' Him3). cbv zeta in IH. rewrite El -Er -app_assoc in IH.
  apply IH; [lia|lia|]. rewrite /= total_app /=. lia.
Qed.

Lemma balloc_run s V : on_img s V →
  ∃ s', balloc stores (freeblock s) s = Returns tt s' ∧ length (img s') = 1000%nat ∧ ∀ b, dread (disk_of (img s')) b = V b.
Proof.
  intros Hon. pose proof (oi_fb _ _ Hon) as Hf. rewrite /balloc (bind_run _ _ s tt s).
  { rewrite /assert_ (proj2 (Z.ltb_lt _ _)) //. unfold BSIZE. lia. }
  change (sb_bmapstart sb) with 58. rewrite (wsect_run stores Hst s V) //. eexists. split; [done|]. simpl. split.
  - rewrite length_insert. apply Hon.
  - intros b. rewrite dread_disk_of length_insert (oi_len _ _ Hon). case_decide as Hb; [|symmetry; apply (oi_out _ _ Hon); lia].
    destruct (decide (b = 58)) as [->|Hne].
    + rewrite list_lookup_insert_eq ?(oi_bmap _ _ Hon) //. rewrite (oi_len _ _ Hon). lia.
    + rewrite list_lookup_insert_ne; [lia|]. rewrite (oi_img _ _ Hon) //.
Qed.

(** ** The run of mkfs *)

Definition root_bytes (fl : list (list Z * list Z)) : list Z := new_dent [46] 1 ++ new_dent [46; 46] 1 ++ dir_bytes 2 fl.

Lemma length_root_bytes fl : length (root_bytes fl) = (16 * (length fl + 2))%nat.
Proof using Type. rewrite /root_bytes length_app length_new_dent length_app length_new_dent length_dir_bytes. lia. Qed.

Lemma build_ok opens args fl (k : nat) : Forall2 (arg_ok opens) args fl → length fl ≤ 198 →
  (k < 512)%nat → (16 * (length fl + 2)) mod BSIZE + k = BSIZE →
  ds + nb (16 * (length fl + 2)) + total (regular <$> fl) ≤ 1000 →
  ∃ s V s', build stores opens args (Mst [] 1 0) = Returns tt s' ∧
    image s V ((T_DIR, root_bytes fl ++ replicate k 0) :: (regular <$> fl)) ∧ length (img s') = 1000%nat ∧
    ∀ b, dread (disk_of (img s')) b = V b.
Proof.
  intros Hargs Hn Hk Hmod Hroom. pose proof (total_pos (regular <$> fl)) as Htp.
  set (s0 := Mst [] 1 ds). set (s1 := Mst (replicate 1000 zero_block) 1 ds). set (s2 := Mst (<[1%nat := sb_block]> (replicate 1000 zero_block)) 1 ds).
  assert (nb 16 = 1 ∧ nb 32 = 1) as [Hnb16 Hnb32] by done.
  pose proof (nb_mono 32 (16 * (length fl + 2)) ltac:(lia)) as Hnb.
  assert (wipe stores (Z.to_nat FSSIZE) 0 s0 = Returns tt s1) as E1 by apply (wipe_run 1000 s0 ltac:(simpl; lia)).
  assert (wsect stores 1 (blit 0 (sb_bytes sb) zero_block) s1 = Returns tt s2) as E2.
  { rewrite /wsect sector_small // Hst // /put_sect bool_decide_eq_true_2 //. }
  destruct (ialloc_ok stores Hst s2 V0 [] T_DIR) as (s3&V3&E3&H3); [by apply empty_image|done|done|]. simpl in H3.
  destruct (iappend_ok stores Hst s3 V3 _ 0%nat T_DIR [] (new_dent [46] 1) H3) as (s4&V4&E4&H4); try done.
  { apply new_dent_bytes, (bool_decide_unpack _). by vm_compute. } simpl in H4.
  destruct (iappend_ok stores Hst s4 V4 _ 0%nat T_DIR (new_dent [46] 1) (new_dent [46; 46] 1) H4) as (s5&V5&E5&H5); try done.
  { apply new_dent_bytes, (bool_decide_unpack _). by vm_compute. } simpl in H5.
  assert ((new_dent [46] 1 ++ new_dent [46; 46] 1) ++ dir_bytes (length (@nil (Z * list Z)) + 2) fl = root_bytes fl) as Er by by rewrite -app_assoc.
  assert (Z.of_nat (length (root_bytes fl)) = 16 * (length fl + 2)) as El by (rewrite length_root_bytes; lia).
  destruct (add_files_ok opens args fl s5 V5 _ [] Hargs H5) as (s6&V6&E6&H6).
  { rewrite length_app 2!length_new_dent. sizes. } { simpl. lia. } { rewrite Er. simpl. rewrite El. lia. }
  rewrite Er in H6. destruct (fix_root_ok s6 V6 (root_bytes fl) _ k H6) as (s7&V7&E7&H7); [done|by rewrite El|rewrite El; sizes|].
  destruct (balloc_run s7 V7 (im_on _ _ _ H7)) as (s8&E8&Hl8&Hi8). exists s7, V7, s8. split; [|done].
  rewrite /build (bind_run _ _ _ tt s0) // (bind_run _ _ _ _ _ E1) (bind_run _ _ _ _ _ E2) (bind_run _ _ _ _ _ E3).
  change (Z.of_nat (length (@nil (Z * list Z))) + 1) with 1. rewrite (bind_run _ _ s3 tt s3) // !dirent_new.
  rewrite (bind_run _ _ _ _ _ E4) (bind_run _ _ _ _ _ E5) (bind_run _ _ _ _ _ E6) (bind_run _ _ _ _ _ E7) (bind_run _ _ _ (freeblock s7) s7) //.
Qed.
End Run.

(** ** The image as the kernel sees it *)

(** The names in the root directory and their inodes. *)
Fixpoint numbered (num : Z) (fl : list (list Z * list Z)) : list (list Z * Z) :=
  match fl with
  | [] => []
  | f :: fl => (f.1, num) :: numbered (num + 1) fl
  end.

Definition names (fl : list (list Z * list Z)) : list (list Z * Z) := ([46], 1) :: ([46; 46], 1) :: numbered 2 fl.

Definition entry (e : list Z * Z) : list Z := new_dent e.1 e.2.

(** What the files [fl] on a disk mean to the kernel: the superblock, an empty
    log, a tree of directories, and a block marked in use exactly if it belongs
    to one file; a name leads to its file, with its contents, and no other name
    leads anywhere. *)
Record fs_image (V : Z → block) (fl : list (list Z * list Z)) : Prop := {
  fi_ok : ∀ b, block_ok (V b);
  fi_super : sb_decode (V 1) = sb;
  fi_log : ∀ b, sb_logstart sb ≤ b < sb_logstart sb + sb_nlog sb → V b = zero_block;
  fi_meta : meta_used V sb nmeta;
  fi_tree : tree_ok (sb:=sb) (ds:=nmeta) V;
  fi_root : is_inum (sb:=sb) V ROOTINO;
  fi_used : ∀ b, nmeta ≤ b < FSSIZE →
    used V sb b = true ↔ ∃ num, is_inum (sb:=sb) V num ∧ owned V (ino V num) b;
  fi_once : ∀ m n b, is_inum (sb:=sb) V m → is_inum (sb:=sb) V n → owned V (ino V m) b → owned V (ino V n) b → m = n;
  fi_walk : ∀ e num, (e, num) ∈ names fl → walk (sb:=sb) V false ROOTINO [e] = Some num;
  fi_none : ∀ e, cprefix DIRSIZ e ∉ cprefix DIRSIZ <$> (names fl).*1 → walk (sb:=sb) V false ROOTINO [e] = None;
  fi_file : ∀ (k : nat) name c, fl !! k = Some (name, c) → let ip := ino V (k + 2) in
    inode_inv (sb:=sb) (ds:=nmeta) V ip ∧ itype ip = T_FILE ∧ isize ip = length c ∧ fread V ip 0 (length c) = c
}.

Lemma dir_bytes_concat num fl : dir_bytes num fl = concat (entry <$> numbered num fl).
Proof. revert num. induction fl as [|f fl IH]; intros num; [done|]. cbn [dir_bytes numbered fmap list_fmap concat]. by rewrite IH. Qed.

Lemma numbered_lookup fl : ∀ num (k : nat) e m, numbered num fl !! k = Some (e, m) → ∃ c, fl !! k = Some (e, c) ∧ m = num + k.
Proof.
  induction fl as [|[n c] fl IH]; intros num [|k] e m H; try done; simpl in H.
  - injection H as -> ->. exists c. split; [done|lia].
  - apply IH in H as (c'&?&->). exists c'. split; [done|lia].
Qed.

Lemma numbered_elem fl : ∀ num (k : nat) e c, fl !! k = Some (e, c) → numbered num fl !! k = Some (e, num + k).
Proof.
  induction fl as [|[n c'] fl IH]; intros num [|k] e c H; try done; simpl in *.
  - injection H as -> ->. do 2 f_equal. lia.
  - rewrite (IH _ k e c) //. do 2 f_equal. lia.
Qed.

Lemma length_numbered num fl : length (numbered num fl) = length fl.
Proof. revert num. induction fl as [|f fl IH]; intros num; simpl; [done|]. by rewrite IH. Qed.

(** The inodes of the entries. *)
Lemma names_range fl e m : (e, m) ∈ names fl → 1 ≤ m ≤ length fl + 1.
Proof.
  intros [[= -> ->]|[[= -> ->]|H]%elem_of_cons]%elem_of_cons; [lia|lia|].
  apply list_elem_of_lookup in H as (k&Hk). pose proof (lookup_lt_Some _ _ _ Hk). rewrite length_numbered in H.
  apply numbered_lookup in Hk as (c&_&->). lia.
Qed.

(** Records of 16 bytes. *)
Lemma lookup_concat16 (es : list (list Z)) k e j : Forall (λ e, length e = 16%nat) es → es !! k = Some e → (j < 16)%nat →
  concat es !! (16 * k + j)%nat = e !! j.
Proof.
  intros Hes. revert k. induction Hes as [|x es Hx Hes IH]; intros [|k] Hk Hj; try done; simpl in Hk; cbn [concat].
  - injection Hk as ->. rewrite lookup_app_l //. lia.
  - rewrite lookup_app_r; [lia|]. rewrite Hx. replace (16 * S k + j - 16)%nat with (16 * k + j)%nat by lia. by apply IH.
Qed.

Lemma length_concat16 (es : list (list Z)) : Forall (λ e, length e = 16%nat) es → length (concat es) = (16 * length es)%nat.
Proof. induction 1 as [|x es Hx Hes IH]; [done|]. cbn [concat length]. rewrite length_app Hx IH. lia. Qed.

(** A directory that holds the records [es] has the entries [es]. *)
Lemma dents_holds V num ty es : holds V num ty (concat es) → Forall (λ e, length e = 16%nat) es → dents V (ino V num) = es.
Proof.
  intros Hh Hes. pose proof (length_concat16 es Hes) as Hl. pose proof (h_size _ _ _ _ Hh) as Hsz. rewrite Hl in Hsz.
  assert (isize (ino V num) / DIRENT_SIZE = length es) as Hd.
  { rewrite Hsz. change DIRENT_SIZE with 16. replace (Z.of_nat (16 * length es)) with (length es * 16) by lia. by apply Z.div_mul. }
  apply list_eq. intros k. destruct (es !! k) as [e|] eqn:E.
  - pose proof (lookup_lt_Some _ _ _ E) as Hk. rewrite lookup_dents_lt; [lia|]. f_equal. rewrite /dent /fread.
    assert (length e = 16%nat) as He by by apply (Forall_lookup_1 _ _ _ _ Hes E).
    apply list_eq. intros j. destruct (decide (j < 16)%nat) as [Hj|Hj].
    + change (Z.to_nat DIRENT_SIZE) with 16%nat. rewrite list_lookup_fmap lookup_seq_lt //=.
      rewrite (h_bytes _ _ _ _ Hh); [rewrite Hl; unfold DIRENT_SIZE; lia|].
      replace (Z.to_nat (k * DIRENT_SIZE + j)) with (16 * k + j)%nat by (unfold DIRENT_SIZE; lia).
      rewrite (lookup_concat16 es k e j) //. destruct (lookup_lt_is_Some_2 e j) as [x ->]; [lia|done].
    + rewrite (lookup_ge_None_2 e); [lia|]. apply lookup_ge_None_2. rewrite length_fmap length_seq. change (Z.to_nat DIRENT_SIZE) with 16%nat. lia.
  - apply lookup_ge_None_1 in E. apply lookup_ge_None_2. rewrite length_dents. lia.
Qed.

Lemma fread_holds V num ty c : holds V num ty c → fread V (ino V num) 0 (length c) = c.
Proof.
  intros Hh. rewrite /fread Nat2Z.id. apply list_eq. intros j. destruct (decide (j < length c)%nat) as [Hj|Hj].
  - rewrite list_lookup_fmap lookup_seq_lt //=. rewrite (h_bytes _ _ _ _ Hh); [lia|].
    replace (Z.to_nat (0 + j)) with j by lia. destruct (lookup_lt_is_Some_2 c j Hj) as [x ->]. done.
  - rewrite (lookup_ge_None_2 c); [lia|]. apply lookup_ge_None_2. rewrite length_fmap length_seq. lia.
Qed.

(** The entries of the root directory. *)
Definition root_dents (fl : list (list Z * list Z)) (z : nat) : list (list Z) := (entry <$> names fl) ++ replicate z (replicate 16 0).

Lemma root_dents_16 fl z : Forall (λ e, length e = 16%nat) (root_dents fl z).
Proof.
  apply Forall_app. split; [|by apply Forall_replicate]. apply Forall_fmap, Forall_true. intros e. apply length_new_dent.
Qed.

Lemma root_dents_concat fl z : concat (root_dents fl z) = root_bytes fl ++ replicate (16 * z) 0.
Proof.
  rewrite /root_dents concat_app. f_equal.
  - rewrite /root_bytes dir_bytes_concat. cbn [names fmap list_fmap concat]. done.
  - induction z as [|z IH]; [done|]. change (concat (replicate (S z) (replicate 16 0))) with (replicate 16 0 ++ concat (replicate z (replicate 16 0))).
    rewrite IH -replicate_add. f_equal. lia.
Qed.

(** Looking up a name in the root directory. *)
Section Find.
Context (fl : list (list Z * list Z)) (z : nat) (Hn : length fl ≤ 198).

Lemma named_entry e x : x ∈ names fl → named e (entry x) ↔ cprefix DIRSIZ e = cprefix DIRSIZ x.1.
Proof. destruct x as [n m]. intros H%names_range. apply named_new. simpl. lia. Qed.

Lemma find_name e m : NoDup (cprefix DIRSIZ <$> (names fl).*1) → (e, m) ∈ names fl →
  ∃ i, list_find (named e) (root_dents fl z) = Some (i, entry (e, m)).
Proof.
  intros Hnd Hin. pose proof Hin as (i&Hi)%list_elem_of_lookup. exists i. apply list_find_Some. split_and!.
  - apply lookup_app_l_Some. by rewrite list_lookup_fmap Hi.
  - by apply named_entry.
  - intros j y Hj Hlt Hy. pose proof (lookup_lt_Some _ _ _ Hi). rewrite lookup_app_l in Hj; [rewrite length_fmap; lia|].
    rewrite list_lookup_fmap in Hj. destruct (names fl !! j) as [x|] eqn:E; [|done]. injection Hj as <-.
    apply named_entry in Hy; [|by eapply list_elem_of_lookup_2].
    assert (j = i) as ->; [|lia]. eapply (NoDup_lookup _ j i); [exact Hnd| |].
    + by rewrite !list_lookup_fmap E.
    + rewrite !list_lookup_fmap Hi. cbn [fmap option_fmap option_map fst]. by f_equal.
Qed.

Lemma find_no_name e : cprefix DIRSIZ e ∉ cprefix DIRSIZ <$> (names fl).*1 → list_find (named e) (root_dents fl z) = None.
Proof.
  intros Hno. apply list_find_None, Forall_app. split.
  - apply Forall_fmap, Forall_forall. intros x Hx. simpl. rewrite named_entry //. intros E. apply Hno. rewrite E.
    by apply list_elem_of_fmap_2, list_elem_of_fmap_2.
  - apply Forall_replicate. by apply free_not_named.
Qed.
End Find.

Section View.
Context (s : mst) (V : Z → block) (fl : list (list Z * list Z)) (z : nat).
Context (Him : image s V ((T_DIR, root_bytes fl ++ replicate (16 * z) 0) :: (regular <$> fl))).

Lemma image_root : holds V 1 T_DIR (concat (root_dents fl z)).
Proof. rewrite root_dents_concat. by apply (im_files _ _ _ Him 0%nat). Qed.

Lemma image_file (k : nat) name c : fl !! k = Some (name, c) → holds V (k + 2) T_FILE c.
Proof.
  intros Hk. replace (k + 2) with (S k + 1) by lia. apply (im_files _ _ _ Him (S k)). cbn [lookup list_lookup].
  by rewrite list_lookup_fmap Hk.
Qed.

Lemma image_count : length fl ≤ 198.
Proof. pose proof (im_count _ _ _ Him) as H. cbn [length] in H. rewrite length_fmap in H. lia. Qed.

(** The inodes in use. *)
Lemma image_inum num : is_inum (sb:=sb) V num ↔ 1 ≤ num ≤ length fl + 1.
Proof.
  pose proof image_count as Hc. rewrite /is_inum. change (sb_ninodes sb) with 200. split.
  - intros [Hr Ht]. split; [lia|]. destruct (decide (num ≤ length fl + 1)); [done|]. destruct Ht.
    rewrite (im_rest _ _ _ Him) //. cbn [length]. rewrite length_fmap. lia.
  - intros Hr. split; [lia|]. destruct (decide (num = 1)) as [->|Hne]; [by rewrite (h_type _ _ _ _ image_root)|].
    destruct (lookup_lt_is_Some_2 fl (Z.to_nat (num - 2))) as [[n c] E]; [lia|].
    apply image_file in E. replace (Z.to_nat (num - 2) + 2) with num in E by lia. by rewrite (h_type _ _ _ _ E).
Qed.

Lemma image_dir num : is_inum (sb:=sb) V num → d_type (dinode_on V sb num) = T_DIR → num = 1.
Proof.
  intros Hn%image_inum Ht. destruct (decide (num = 1)) as [->|Hne]; [done|].
  destruct (lookup_lt_is_Some_2 fl (Z.to_nat (num - 2))) as [[n c] E]; [lia|].
  apply image_file in E. replace (Z.to_nat (num - 2) + 2) with num in E by lia. by rewrite (h_type _ _ _ _ E) in Ht.
Qed.

Lemma image_dents : dents V (ino V 1) = root_dents fl z.
Proof. apply (dents_holds V 1 T_DIR); [apply image_root|apply root_dents_16]. Qed.

Lemma image_walk e : walk (sb:=sb) V false ROOTINO [e] =
  match list_find (named e) (root_dents fl z) with Some (_, de) => Some (de_inum de) | None => None end.
Proof.
  cbn [walk andb]. change ROOTINO with 1. rewrite decide_True; [apply (h_type _ _ _ _ image_root)|]. rewrite image_dents.
  by destruct (list_find _ _) as [[i de]|].
Qed.

Lemma image_tree : tree_ok (sb:=sb) (ds:=nmeta) V.
Proof.
  pose proof image_root as Hr. pose proof image_count as Hc. split.
  - intros num Hn Ht. pose proof (image_dir num Hn Ht) as ->. split; [apply Hr|apply (h_type _ _ _ _ Hr)|]. rewrite (h_size _ _ _ _ Hr).
    rewrite length_concat16; [apply root_dents_16|]. change DIRENT_SIZE with 16.
    replace (Z.of_nat (16 * length (root_dents fl z))) with (length (root_dents fl z) * 16) by lia. apply Z.mod_mul. done.
  - intros num de Hn Ht Hde Hne. pose proof (image_dir num Hn Ht) as ->. rewrite image_dents in Hde. apply image_inum.
    apply elem_of_app in Hde as [Hde|Hde].
    + apply list_elem_of_fmap in Hde as ([n m]&->&Hm). pose proof (names_range _ _ _ Hm).
      rewrite /entry new_dent_inum; simpl; lia.
    + apply elem_of_replicate in Hde as [-> _]. by destruct Hne.
  - intros num Hn. apply image_inum in Hn. destruct (decide (num = 1)) as [->|Hne]; [by rewrite (h_link _ _ _ _ Hr)|].
    destruct (lookup_lt_is_Some_2 fl (Z.to_nat (num - 2))) as [[n c] E]; [lia|].
    apply image_file in E. replace (Z.to_nat (num - 2) + 2) with num in E by lia. by rewrite (h_link _ _ _ _ E).
Qed.

Lemma image_fs : NoDup (cprefix DIRSIZ <$> (names fl).*1) → fs_image V fl.
Proof.
  intros Hnd. pose proof (im_on _ _ _ Him) as Hon. pose proof image_count as Hc.
  assert (length ((T_DIR, root_bytes fl ++ replicate (16 * z) 0) :: (regular <$> fl)) = S (length fl)) as Hl by by rewrite /= length_fmap.
  split.
  - apply Hon.
  - by rewrite (im_low _ _ _ Him).
  - intros b Hb. change (sb_logstart sb) with 2 in Hb. change (sb_nlog sb) with 30 in Hb.
    rewrite (im_low _ _ _ Him); [lia|]. rewrite decide_False //. lia.
  - by apply (meta_on s).
  - apply image_tree.
  - apply image_inum. unfold ROOTINO. lia.
  - change nmeta with 59. change FSSIZE with 1000. intros b Hb. rewrite (used_on s V) //; [lia|]. rewrite bool_decide_eq_true. split.
    + intros Hlt. destruct (im_owner _ _ _ Him b) as (i&Hi&Ho); [lia|]. exists (i + 1). split; [|done]. apply image_inum. lia.
    + intros (num&Hn%image_inum&Ho). destruct (lookup_lt_is_Some_2 ((T_DIR, root_bytes fl ++ replicate (16 * z) 0) :: (regular <$> fl)) (Z.to_nat (num - 1))) as [[ty c] E]; [lia|].
      apply (im_files _ _ _ Him) in E. replace (Z.to_nat (num - 1) + 1) with num in E by lia. by apply (owned_used s V num ty c).
  - intros m n b Hm%image_inum Hn%image_inum Hbm Hbn. destruct (decide (m = n)) as [|Hne]; [done|].
    destruct (im_disj _ _ _ Him (Z.to_nat (m - 1)) (Z.to_nat (n - 1)) b); [lia|lia|lia| |].
    + by replace (Z.to_nat (m - 1) + 1) with m by lia.
    + by replace (Z.to_nat (n - 1) + 1) with n by lia.
  - intros e num He. rewrite image_walk. destruct (find_name fl z Hc e num Hnd He) as [i ->].
    apply names_range in He. rewrite /entry new_dent_inum //; simpl; lia.
  - intros e He. by rewrite image_walk find_no_name.
  - intros k name c Hk. apply image_file in Hk. cbv zeta. pose proof (fread_holds _ _ _ _ Hk). destruct Hk as [Hi Ht ? Hs]; split_and!; done.
Qed.
End View.

(** ** mkfs *)

(** The host creates the image and has room for it. *)
Record host_ok (creates : list Z → bool) (stores : Z → bool) (image : list Z) : Prop := {
  ho_creates : creates image = true;
  ho_stores : ∀ b, 0 ≤ b < FSSIZE → stores b = true
}.

(** The files fit: inodes, blocks, and names that the kernel tells apart.  The
    directory must not fill its last block: mkfs rounds the size of a full one
    up to a block that it does not allocate. *)
Record fits (fl : list (list Z * list Z)) : Prop := {
  ft_inodes : length fl ≤ NINODES - 2;
  ft_blocks : nmeta + nb (16 * (length fl + 2)) + total (regular <$> fl) ≤ FSSIZE;
  ft_names : NoDup (cprefix DIRSIZ <$> (names fl).*1);
  ft_dir : (length fl + 2) mod 32 ≠ 0
}.

Lemma main_builds creates stores opens prog image args fl : host_ok creates stores image → Forall2 (arg_ok opens) args fl → fits fl →
  ∃ s V, main creates stores opens (prog :: image :: args) = Exits 0 s ∧ disksize (disk_of (img s)) = FSSIZE ∧
    (∀ b, dread (disk_of (img s)) b = V b) ∧ fs_image V fl.
Proof.
  intros [Hcr Hst] Hargs [Hi Hb Hn Hd]. pose proof (Z.mod_pos_bound (length fl + 2) 32 ltac:(done)) as Hm.
  pose proof (Z.div_mod (length fl + 2) 32 ltac:(done)) as Hq. set (z := Z.to_nat (32 - (length fl + 2) mod 32)).
  destruct (build_ok stores Hst opens args fl (16 * z)) as (s&V&s'&E&Him&Hl&Himg); [done|change (NINODES - 2) with 198 in Hi; lia|lia| |done|].
  { change BSIZE with (16 * 32). rewrite Z.mul_mod_distr_l //. lia. }
  exists s', V. split_and!; [|by rewrite /= Hl|done|by apply (image_fs s V fl z)].
  rewrite /main Hcr (bind_run _ _ _ _ _ E) //.
Qed.

(** C17: mkfs builds the file system it is asked for: with the host willing and
    files that fit (and whose directory does not end at the end of a block,
    which is [mkfs_full_directory]), it exits with status 0 and the image of FSSIZE blocks holds
    a superblock, an empty log, and a root directory in which exactly the names
    given (less a leading underscore, as the kernel compares names) lead to
    inodes with the contents of the files; the bitmap marks exactly the blocks
    before the data area and those that belong to a file, and no block belongs
    to two. *)
Theorem mkfs_builds creates stores opens prog image args fl : host_ok creates stores image → Forall2 (arg_ok opens) args fl → fits fl →
  ∃ s V, main creates stores opens (prog :: image :: args) = Exits 0 s ∧ disksize (disk_of (img s)) = FSSIZE ∧
    (∀ b, dread (disk_of (img s)) b = V b) ∧ fs_image V fl.
Proof. apply main_builds. Qed.

(** An example: one file. *)
Definition demo_opens (a : list Z) : option input := if decide (a = str "_hi") then Some (Input (str "hello") []) else None.
Definition demo_files : list (list Z * list Z) := [(str "hi", str "hello")].

Lemma demo_args : Forall2 (arg_ok demo_opens) [str "_hi"] demo_files.
Proof.
  constructor; [|constructor]. split_and!; [apply (bool_decide_unpack _); by vm_compute|done|by eexists| | |done];
    apply (bool_decide_unpack _); by vm_compute.
Qed.

Lemma demo_files_fit : fits demo_files.
Proof. split; [by vm_compute|by vm_compute|apply (bool_decide_unpack _); by vm_compute|by vm_compute]. Qed.

Lemma mkfs_builds_witness : ∃ s V,
  main (λ _, true) (λ _, true) demo_opens [str "mkfs"; str "fs.img"; str "_hi"] = Exits 0 s ∧
  walk (sb:=sb) V false ROOTINO [str "hi"] = Some 2 ∧ fread V (ino V 2) 0 5 = str "hello".
Proof.
  destruct (mkfs_builds (λ _, true) (λ _, true) demo_opens (str "mkfs") (str "fs.img") [str "_hi"] demo_files)
    as (s&V&E&_&_&Hfs); [done|exact demo_args|exact demo_files_fit|].
  exists s, V. split; [exact E|]. split.
  - apply (fi_walk _ _ Hfs), (list_elem_of_lookup_2 _ 2%nat). reflexivity.
  - apply (fi_file _ _ Hfs 0%nat (str "hi") (str "hello") eq_refl).
Defined.

(** A directory of 30 files fills its block exactly, and mkfs makes it one block
    longer without giving it a second block. *)
Definition no_files (a : list Z) : option input := Some (Input [] []).

Example mkfs_full_directory :
  match main (λ _, true) (λ _, true) no_files (str "mkfs" :: str "fs.img" :: ((λ k : nat, [Z.of_nat (65 + k)]) <$> seq 0 30)) with
  | Exits 0 s => (λ x, let d := dinode_dec (slice (dip_off 1) 64 x) in (d_size d, d_addrs d)) <$> img s !! 32%nat = Some (1024, 59 :: replicate 12 0)
  | _ => False
  end.
Proof. by vm_compute. Qed.
