(* ===== verification/MkfsBoot.v ===== *)
(** * The kernel boots on the image of mkfs

    The image mkfs wrote is the disk of the machine: the kernel sets up the
    buffer cache ([binit]), reads the superblock ([iinit]), recovers the (empty)
    log ([initlog]), and then finds each file of the command line under its name
    with its contents. *)

From S2P Require Import Prelude CInt CString Stdio Kernel Params Sleeplock Bio BioSpec Cache Log LogSpec LogCrash Txn BlockIO Fs FsBlock FsFile FsInode FsRw FsCache FsDir FsPath FsNamex Ulib Mkfs MkfsSpec MkfsThms.

(** ** Starting the kernel *)

(** The variables of the kernel before it starts. *)
Definition bss_inode : inode := Inode 0 0 0 (Sleeplock 0 0) 0 0 0 0 0 0 (replicate 13 0).
Definition power_on (d : disk) : kst (fstate lstate) :=
  Kst (Cpu 0 true 0 true (Some 1)) ∅ ∅ (Fst (bss_lstate d) (replicate NINODE bss_inode) (Sb 0 0 0 0 0 0 0) ∅).

(** [main] of the kernel calls [binit]; the first process calls [iinit] and
    [initlog] ([forkret]). *)
Definition start_fs : K (fstate lstate) unit :=
  blk (bc binit);; iinit ROOTDEV readsb;; blk (initlog ROOTDEV).

(** The first [n] bytes of the file at [path], as [open] and [read] get them. *)
Definition read_path (devsw : Z → devops (fstate lstate)) (path : list Z) (n : Z) : K (fstate lstate) (option (Z * list Z)) :=
  blk begin_op;;
  o ← namei devsw path;
  match o with
  | None => mret None
  | Some i => ilock (Some i);; r ← readi devsw i 0 n; mret (Some r)
  end.

Section Boot.
Context (V : Z → block) (fl : list (list Z * list Z)) (Hfs : fs_image V fl).
Context (d : disk) (Hsz : disksize d = FSSIZE) (Hd : ∀ b, dread d b = V b).

Lemma boot_layout : log_layout 2 30 d.
Proof.
  split; rewrite ?Hd ?(fi_super _ _ Hfs) ?Hsz //. intros b. rewrite Hd. apply Hfs.
Qed.

Lemma boot_hdr : disk_hdr_ok 2 30 d.
Proof.
  split; [|rewrite Hd; apply Hfs]. apply hdr_ok_nil; [|lia]. rewrite Hd (fi_log _ _ Hfs) //.
Qed.

(** Recovery of a clean disk writes back the empty header. *)
Lemma boot_recovered b : dread (recovered 2 d) b = V b.
Proof.
  assert (V 2 = zero_block) as E by by apply (fi_log _ _ Hfs).
  destruct (decide (b = 2)) as [->|Hb]; [rewrite recovered_hdr Hd E; by vm_compute|].
  rewrite recovered_other; [rewrite Hd E hdr_blocks_nil; [by vm_compute|set_solver]|done|apply Hd].
Qed.

Lemma boot_size : disksize (recovered 2 d) = 1000.
Proof. by rewrite /recovered disksize_dwrites Hsz. Qed.

Lemma boot_lay : fs_layout (log_home 2 30 (recovered 2 d)) sb nmeta.
Proof.
  destruct mk_lay as [H1 H2 H3 H4 _ H6]. split; try done.
  - intros b Hb. destruct (H2 b Hb) as (_&E1&E2). split_and!; [|done|done]. change (sb_size sb) with 1000 in Hb.
    rewrite BBLOCK_sb // /log_home boot_size. lia.
  - intros i Hi. destruct (H3 i Hi) as (_&E). split; [|done]. change (sb_ninodes sb) with 200 in Hi.
    destruct (IBLOCK_sb i) as [-> ?]; [lia|]. rewrite /log_home boot_size. lia.
  - change nmeta with 59. change (sb_size sb) with 1000. intros b Hb. rewrite /log_home boot_size. lia.
Qed.

(** The state of the kernel between [initlog] and the first operation. *)
Definition started (σ : kst (fstate lstate)) : Prop :=
  let lg := llog (fblk (kdata σ)) in
  Lat (inner σ) 1 ∅ ∅ ∅ lg (recovered 2 d) V (inner σ) ∧ geom_ok lg (disksize d) ∧ start lg = 2 ∧ size lg = 30 ∧
  lh_n (lh lg) = 0 ∧ outstanding lg = 0 ∧ committing lg = 0 ∧
  icache (kdata σ) = replicate NINODE bss_inode ∧ fsb (kdata σ) = sb ∧ cwd (kdata σ) = ∅.

Lemma init_inodes_wp c w b s0 (Q : unit → kst (fstate lstate) → Prop) :
  let σ := Kst c ∅ w (Fst b (replicate NINODE bss_inode) s0 ∅) in
  Q tt σ → wp (for_each (seq 0 NINODE) (λ i, initsleeplock (SInode i) (ilens i))) Q σ.
Proof using Type.
  intros σ HQ. apply (wp_for_each _ _ (λ _ σ', σ' = σ)); [done| |by intros σ' ->].
  intros i k σ' _ ->. rewrite /initsleeplock. apply wp_bind, wp_initlock, wp_modify.
  assert (alter (set_ilk (Sleeplock 0 0)) i (replicate NINODE bss_inode) = replicate NINODE bss_inode) as E.
  { apply list_eq. intros j. destruct (decide (j = i)) as [->|Hne]; [|by rewrite list_lookup_alter_ne].
    rewrite list_lookup_alter_eq. destruct (replicate NINODE bss_inode !! i) eqn:E; [|done].
    by apply lookup_replicate in E as [-> _]. }
  rewrite /σ /set_data /ilens /set_icache. cbn [kcpu klocks kslp kdata sl_put fblk icache fsb cwd]. by rewrite E.
Qed.

Lemma start_fs_wp : wp start_fs (λ _, started) (power_on d).
Proof.
  set (σb := Kst (Cpu 0 true 0 true (Some 1)) ∅ ∅ (bss_lstate d)). assert (quiet 1 σb) as Hq by (repeat split; simpl; lia).
  rewrite /start_fs. apply wp_bind, wp_zoom. apply (boot_cache 1 σb d); [done|done|intros b; rewrite Hd; apply Hfs|].
  intros [c L w s1] HL. pose proof (la_quiet _ _ _ _ _ _ _ _ _ HL) as (_&Hlk&_). simpl in Hlk. subst L. cbn [kcpu klocks kslp kdata].
  rewrite /iinit. apply wp_bind, wp_bind, wp_initlock. apply wp_bind, init_inodes_wp. apply wp_bind, wp_zoom.
  eapply wp_readsb; [exact HL|rewrite Hsz; done|]. intros [c2 L2 w2 s2] HL2. apply wp_modify. rewrite Hd (fi_super _ _ Hfs).
  apply wp_zoom. cbn [kcpu klocks kslp kdata fblk set_fblk set_fsb icache fsb cwd].
  eapply wp_mono; [apply (initlog_wp σb 1 2 30 d); [exact HL2|apply boot_layout|apply boot_hdr]|].
  cbv beta. intros [] [c3 L3 w3 s3] (Hf&Hinv&Hdk&Hst&Hszl&Hg&Hn&Ho&Hc). rewrite /started /inner /set_fblk /set_fsb.
  cbn [kcpu klocks kslp kdata fblk icache fsb cwd] in *. split_and!; try done.
  split; auto with xv6; [by eapply frame_quiet|]. intros b. cbn [kdata]. rewrite (binv_view 1 ∅ ∅ ∅); [done|set_solver..|]. by rewrite Hdk boot_recovered.
Qed.

#[local] Instance boot_io : BlockIOSpec lstate (log_home 2 30 (recovered 2 d)) (log_cap 30) :=
  log_io_spec 2 30 (recovered 2 d).

Lemma boot_cap : (log_cap 30 < NBUF)%nat.
Proof using Type. vm_compute. lia. Qed.

(** In a transaction the file system sees the blocks of the image. *)
Lemma begin_started {A} (m : K (fstate lstate) A) σ Q : started σ →
  (∀ σ', Fat σ' 1 ∅ ∅ ∅ V (replicate NINODE bss_inode) sb σ' → wp m Q σ') → wp (blk begin_op;; m) Q σ.
Proof.
  intros (HL&Hg&Hst&Hszl&Hn&Ho&Hc&Hic&Hsb&_) HQ. apply wp_bind, wp_zoom. fold (inner σ).
  eapply begin_op_wp; [exact HL|done|rewrite Hn Ho; by vm_compute|]. intros τ HL'. apply lat_rebase in HL' as [_ HL'].
  apply HQ. split; [done| |done|done]. set (lg := llog _) in *. rewrite (_ : inner _ = τ); [by destruct τ|].
  eexists _, []. split; [exact HL'|]. split_and!; try done; [|simpl; lia|set_solver].
  destruct Hg. rewrite /recovered disksize_dwrites. split; simpl; try done; try lia; [vm_compute; lia|apply NoDup_nil_2|set_solver].
Qed.

(** The cache before anything was opened. *)
Lemma fresh_inv : ic_inv 1 (sb:=sb) V ∅ (replicate NINODE bss_inode).
Proof using Type.
  split; [split|..]; try done; intros i *; intros H; apply lookup_replicate in H as [-> _]; try done. intros _ [? _]. done.
Qed.

Lemma fresh_refs n : refs (replicate NINODE bss_inode) n = 0.
Proof using Type.
  induction NINODE as [|k IH]; [done|]. cbn [replicate refs foldr]. rewrite /refs in IH. rewrite IH /ref_of. by case_decide.
Qed.

(** [namei] of an absolute path with one element. *)
Lemma namei_fresh devsw e σ Q : Fat σ 1 ∅ ∅ ∅ V (replicate NINODE bss_inode) sb σ → e ≠ [] → 0 ∉ e → 47 ∉ e →
  (∀ q ic σ', ic_inv 1 (sb:=sb) V ∅ ic → handle ic q (walk (sb:=sb) V false ROOTINO [e]) → Fat σ 1 ∅ ∅ ∅ V ic sb σ' → Q q σ') →
  wp (namei devsw (47 :: e ++ [0])) Q σ.
Proof.
  intros HF Hne H0 H47 HQ. assert (elems (47 :: e) = [e]) as He.
  { assert (split_on 47 e = [e]) as E; [|rewrite /elems; cbn [split_on Z.eqb Pos.eqb]; rewrite E; by destruct e].
    clear -H47. induction e as [|a e IH]; [done|]. apply not_elem_of_cons in H47 as [Ha He]. simpl.
    rewrite (proj2 (Z.eqb_neq a 47)); [done|]. by rewrite IH. }
  assert ((base.size (∅ : gset Z) < NBUF)%nat) as HX by (vm_compute; lia). rewrite /namei. apply wp_bind.
  eapply (namex_wp σ 1 boot_lay boot_cap devsw V ∅ HX (fi_tree _ _ Hfs) (fi_meta _ _ Hfs) ∅ false (47 :: e) []);
    [exact HF|apply fresh_inv|set_solver|done|apply Hfs|vm_compute; lia|intros n; rewrite fresh_refs; lia|done|].
  intros q name' ic' σ' [Hci Hh _ _] HF'. rewrite He in Hh. apply wp_ret. by eapply HQ.
Qed.

(** A file that is locked holds what is on disk. *)
Lemma locked_dinode ic i ip : ic_inv 1 (sb:=sb) V ∅ ic → ic !! i = Some ip → 0 < iref ip →
  to_dinode (locked_inode 1 (sb:=sb) V ip) = dinode_on V sb (inum ip).
Proof using Type.
  intros Hci Hi Hr. rewrite /locked_inode. destruct (Z.eqb_spec (ivalid ip) 0) as [|Hv]; [by destruct (dinode_on V sb (inum ip))|].
  by apply (ci_sync _ _ _ _ Hci _ _ Hi).
Qed.

Lemma file_ok_same ip ip' : file_ok (sb:=sb) (ds:=nmeta) V ip → idev ip' = ROOTDEV → isize ip' = isize ip → iaddrs ip' = iaddrs ip →
  file_ok (sb:=sb) (ds:=nmeta) V ip' ∧ ∀ off n, fread V ip' off n = fread V ip off n.
Proof using Type.
  intros [[Wd Wl Wi Wb Wj Wn] Hs Hf] Hdv Es Ea. assert (∀ k, addr_of ip' k = addr_of ip k) as Hk by (intros k; by rewrite /addr_of Ea).
  assert (∀ bn, baddr V ip' bn = baddr V ip bn) as Hb by (intros bn; by rewrite /baddr !Hk).
  split; [|intros off n; rewrite /fread /fbyte; by setoid_rewrite Hb].
  split; rewrite ?Es //; [split; rewrite ?Hk ?Ea //; by setoid_rewrite Hb|by setoid_rewrite Hb].
Qed.

Lemma read_path_wp devsw (k : nat) name c n σ : started σ → fl !! k = Some (name, c) → name ≠ [] → 0 ∉ name → 47 ∉ name →
  length c ≤ n < 2 ^ 31 → wp (read_path devsw (47 :: name ++ [0]) n) (λ r _, r = Some (Z.of_nat (length c), c)) σ.
Proof.
  intros Hst Hk Hne H0 H47 Hn. apply begin_started; [done|]. clear σ Hst. intros σ HF.
  apply wp_bind. eapply namei_fresh; [exact HF|done|done|done|]. intros q ic σ1 Hci Hh HF1.
  assert ((name, k + 2) ∈ names fl) as Hin.
  { apply (list_elem_of_lookup_2 _ (S (S k))). cbn [names lookup list_lookup]. rewrite (numbered_elem fl 2 k name c) //. do 2 f_equal. lia. }
  rewrite (fi_walk _ _ Hfs name (k + 2) Hin) in Hh. destruct Hh as (i&ip&->&Hi&Hr&Hdev&Hnum).
  destruct (ci_use _ _ _ _ Hci _ _ Hi Hr) as [_ [Hrng Hty]].
  destruct (fi_file _ _ Hfs k name c Hk) as (Hinv&Htf&Hsz'&Hrd).
  pose proof (locked_dinode ic i ip Hci Hi Hr) as El. rewrite Hnum in El.
  apply wp_bind. eapply (ilock_wp σ 1 boot_lay boot_cap); [exact HF1|exact Hi|lia|by eapply (ci_free _ _ _ _ Hci)|done|done|vm_compute; lia|done|].
  intros σ2 HF2. set (lp := locked_inode 1 V ip) in *.
  assert (idev lp = ROOTDEV) as Hld by (rewrite /lp /locked_inode; by destruct (ivalid ip =? 0)).
  destruct (file_ok_same (ino V (k + 2)) lp) as [Hfo Hfr]; [apply Hinv|done|by injection El|by injection El|].
  apply wp_bind. eapply (readi_wp σ 1 boot_lay boot_cap); [exact HF2|by eapply lookup_upd|exact Hfo|apply Hfs|vm_compute; lia| |lia|lia|lia| |].
  { assert (itype lp = T_FILE) as ->; [|done]. rewrite -Htf. by injection El. } { pose proof (fo_size _ _ Hfo). lia. }
  intros σ3 _. cbv zeta. apply wp_ret. rewrite (_ : isize lp = length c); [rewrite -Hsz'; by injection El|].
  rewrite Z.min_r; [lia|]. by rewrite Z.sub_0_r Hfr Hrd.
Qed.

Lemma read_path_none devsw e n σ : started σ → e ≠ [] → 0 ∉ e → 47 ∉ e →
  cprefix DIRSIZ e ∉ cprefix DIRSIZ <$> (names fl).*1 → wp (read_path devsw (47 :: e ++ [0]) n) (λ r _, r = None) σ.
Proof.
  intros Hst Hne H0 H47 Hno. apply begin_started; [done|]. clear σ Hst. intros σ HF.
  apply wp_bind. eapply namei_fresh; [exact HF|done|done|done|]. intros q ic σ1 Hci Hh HF1.
  rewrite (fi_none _ _ Hfs) // in Hh. rewrite /= in Hh. subst q. by apply wp_ret.
Qed.
End Boot.

Lemma arg_name opens a f : arg_ok opens a f → 47 ∉ f.1.
Proof.
  intros (Ha&->&_). rewrite /skip_underscore. destruct a as [|x a]; [done|]. apply not_elem_of_cons in Ha as [? ?].
  destruct (x =? 95); [done|]. by apply not_elem_of_cons.
Qed.

(** C7: From mkfs to the kernel: on the disk mkfs built, for files that fit and a
    root directory that does not end at the end of a block, the kernel starts without
    a panic, and a file of the command line is found under its name in the root
    directory, with its contents; a name that was not given, as the kernel
    compares names, is not found. *)
Theorem mkfs_boots creates stores opens prog image args fl devsw :
  host_ok creates stores image → Forall2 (arg_ok opens) args fl → fits fl →
  ∃ s σ, main creates stores opens (prog :: image :: args) = Exits 0 s ∧ start_fs (power_on (disk_of (img s))) = Ret tt σ ∧
    (∀ (k : nat) name c n, fl !! k = Some (name, c) → name ≠ [] → 0 ∉ name → length c ≤ n < 2 ^ 31 →
       ∃ σ', read_path devsw (47 :: name ++ [0]) n σ = Ret (Some (Z.of_nat (length c), c)) σ') ∧
    (∀ e n, e ≠ [] → 0 ∉ e → 47 ∉ e → cprefix DIRSIZ e ∉ cprefix DIRSIZ <$> (names fl).*1 →
       ∃ σ', read_path devsw (47 :: e ++ [0]) n σ = Ret None σ').
Proof.
  intros Hho Hargs Hfit. destruct (main_builds creates stores opens prog image args fl Hho Hargs Hfit) as (s&V&E&Hsz&Hd&Hfs).
  destruct (wp_inv _ _ _ (start_fs_wp V fl Hfs _ Hsz Hd)) as ([]&σ&Es&Hst). exists s, σ. split_and!; [exact E|exact Es| |].
  - intros k name c n Hk Hne H0 Hn. destruct (Forall2_lookup_r _ _ _ _ _ Hargs Hk) as (a&_&Ha%arg_name).
    destruct (wp_inv _ _ _ (read_path_wp V fl Hfs _ Hsz Hd devsw k name c n σ Hst Hk Hne H0 Ha Hn)) as (r&σ'&Er&->). exists σ'. exact Er.
  - intros e n Hne H0 H47 Hno.
    destruct (wp_inv _ _ _ (read_path_none V fl Hfs _ Hsz Hd devsw e n σ Hst Hne H0 H47 Hno)) as (r&σ'&Er&->). exists σ'. exact Er.
Qed.

Lemma mkfs_boots_witness : ∃ s σ σ',
  main (λ _, true) (λ _, true) demo_opens [str "mkfs"; str "fs.img"; str "_hi"] = Exits 0 s ∧
  start_fs (power_on (disk_of (img s))) = Ret tt σ ∧
  read_path (λ _, Devops _ None None) (47 :: str "hi" ++ [0]) 512 σ = Ret (Some (Z.of_nat (length (str "hello")), str "hello")) σ'.
Proof.
  destruct (mkfs_boots (λ _, true) (λ _, true) demo_opens (str "mkfs") (str "fs.img") [str "_hi"] demo_files (λ _, Devops _ None None))
    as (s&σ&E&Es&Hr&_); [by split|exact demo_args|exact demo_files_fit|].
  destruct (Hr 0%nat (str "hi") (str "hello") 512 eq_refl) as (σ'&Er);
    [clear; done|clear; apply (bool_decide_unpack _); by vm_compute|clear; by vm_compute|].
  exists s, σ, σ'. split_and!; [exact E|exact Es|exact Er].
Defined.
